(* ===== verification/_CoqProject ===== *)
-Q . S2P
Prelude.v
Double.v
Hashset.v
CString.v
CFGEval.v
System.v
CuTest.v
Stats.v
Check.v
LibXml.v
GStats.v
ValgrindEval.v
Process.v
Config.v
Controller.v
Engine.v
EngineDir.v
Hom.v
History.v
Bitfield.v
LLQueue.v
Heap.v
Bipbuffer.v
Farraylist.v
Cbuffer.v
Bencode.v
LLHashmap.v
LLIter.v
Atlas.v
SortedMap.v
Splay.v
PseudoLru.v
Avl.v
AvlFacts.v
QHashmap.v
RaftLog.v
Raft.v
RaftFacts.v
RaftElection.v
RaftNet.v
Chunkybar.v
Meanqueue.v
PwpStream.v
CheckMsg.v
CheckRun.v
CheckRunFacts.v
CheckLog.v
CheckLogFacts.v
Snprintf.v
SnprintfFacts.v
Bitstream.v
PwpHandler.v
PwpChunks.v
PwpConn.v
PwpWire.v
PwpField.v
PwpPending.v
PwpState.v
PwpHandshake.v
PwpSession.v
