(* ===== verification/Prelude.v ===== *)
(** * Verification of the memory mutation testing engine

    ** The program

    The engine (src/controller.c and the files beside it) rates the tests of a C project
    by mutating the project: for every source file an external TXL program writes
    mutants, the engine copies each one over the original, builds the project, runs the
    tests and decides from their report, from the branch coverage (gcov) and from the
    memory errors (Valgrind) whether the mutant was killed.  The results go to a
    statistics file.  The projects that it was made for are in the repository as well
    (src/PUTs): small libraries for data structures and protocols.  Both are verified.

    The parts work together as follows.  [main] reads the configuration ([Config]),
    measures the original program and calls [process_source_file] for every source file
    ([Engine]); that one calls [inject_mutations], which calls [genResultsFOM] for each
    mutant ([Controller]).  This starts child processes ([Process]), reads what the test
    library left in two files ([CuTest] or [Check] writes them, [Stats] reads them), evaluates
    coverage ([CFGEval]) and memory errors ([ValgrindEval]) and counts in the statistics
    file ([GStats]).  Higher-order mutants ([Hom]) use the hash set ([Hashset]).  The
    Raft, peer wire protocol and texture atlas projects use the queue, the hash map, the
    bit field and the counter of other projects.

    ** Files

    Shared: Prelude.v (outcomes of C code, machine integers, lists, tactics), Double.v
    ([double] and [float]), CString.v (the C library on strings), System.v (files,
    environment, current directory), History.v (refinement over histories of calls).

    The engine:
    - Hashset.v: src/hashset/hashset.c, hashset_itr.c;
    - CuTest.v: src/CuTest/CuTest.forked.c, which replaces the CuTest of a project;
    - Check.v: src/libcheck/src/check.c and check_list.c, which replace the Check of one;
      CheckMsg.v: check_pack.c and check_msg.c there, the messages of a test; CheckRun.v and
      CheckRunFacts.v: check_run.c, the runner, and what it reports; CheckLog.v and
      CheckLogFacts.v: check_log.c, check_print.c and check_str.c, the reports it writes; Snprintf.v and
      SnprintfFacts.v: src/libcheck/lib/snprintf.c, its replacement for [snprintf];
    - CFGEval.v: src/CFGEval.c;
    - LibXml.v: the interface of libxml2, and src/libxml_commons.c over it;
    - GStats.v: src/gstats.c; ValgrindEval.v: src/valgrindEval.c;
    - Stats.v, Process.v, Config.v, Controller.v, Hom.v, Engine.v: src/controller.c, that
      is the report of a test run, child processes, the configuration, first-order
      mutants, higher-order mutants, and the drivers from a source file up to [main];
      EngineDir.v: what the current directory does to them.

    The projects under src/PUTs:
    - Bitfield.v (16CBitfield), LLQueue.v (14CLinkedListQueue), Heap.v (12heap-master),
      Bipbuffer.v (15bipbuffer-master), Farraylist.v (03farraylist-master), Cbuffer.v
      (13cbuffer-master), Chunkybar.v (11CSparseCounter), Bencode.v
      (10streaming-bencode-master);
    - LLHashmap.v and LLIter.v (04CHashMapViaLinkedList: the map and its iterator),
      QHashmap.v (07quadratic-probing-hashmap), Atlas.v (08texture-atlas);
    - SortedMap.v (sorted lists of entries as maps), Splay.v and PseudoLru.v
      (06pseudolru-master and 09splay-tree-master: the pointer trees, and the operations
      on them);
    - Avl.v and AvlFacts.v (05array-avl-tree-master: the program, and what it does);
    - RaftLog.v, Raft.v (02CRaft-master: the log, the server), RaftFacts.v (one input),
      RaftElection.v (histories of one server), RaftNet.v (a cluster);
    - PwpStream.v, Bitstream.v, Meanqueue.v, PwpHandler.v, PwpConn.v, PwpHandshake.v (01pwp:
      bytes, bits, rates, message handler, connection, handshake), PwpChunks.v, PwpWire.v, PwpField.v,
      PwpPending.v, PwpState.v, PwpSession.v (what they do, alone and together).

    ** How the code is modelled

    A C function is a Rocq function with the same name, up to leading underscores, that
    takes the state and returns an outcome of type [res]: a value, undefined behaviour,
    the end of the process, or the fuel used up.  State is passed explicitly, or in a
    state monad where a function makes many calls ([Controller], [Raft], [PwpConn]).
    Integers are kept in [Z] with the width of their C type: [chk] makes an [int]
    overflow undefined, unsigned types wrap around.  Pointers are addresses in a store
    where sharing or freeing matters (LLQueue.v, Splay.v, Atlas.v), places in an array
    otherwise.  What a file reads from outside src/ is a parameter: libxml2 and
    libconfig are classes with their documented laws and a concrete instance; what child
    processes do, what callbacks answer, hash functions and comparisons are arguments.

    ** What the theorems show

    - The engine: every evaluated mutant is counted exactly once and all subtotals agree
      ([genResultsFOM_accounts], [inject_mutations_accounts]); a kill is detected exactly
      when a test failed ([kill_detected]), from the report that the test library wrote
      ([CuSuiteRun_reports], [CuTestRun_outcome], [runMake_verdict]); the source file is
      restored, as long as the programs that are called leave it and its backup alone
      ([source_restored]); the statistics file is a table of counters
      ([gstats_refine_counters]); the coverage and the Valgrind reports are evaluated as
      intended ([deviation_of_gcov_reports], [valgrind_report_counts]); the hash set
      is a set while nothing is removed from it ([hashset_add_refines]; one removal is
      [hashset_remove_refines]).  Source
      directories are read as they should be ([directory_lookup]).  Some theorems show
      where it goes wrong: [survivor_overflow], [single_fom_search_diverges],
      [two_failing_suites_survive], [check_kills_missed], [check_report_undefined],
      [directory_never_equivalent], [copy_left_behind].  The runner of Check reports exactly
      what the tests did, with the verdicts of its manual, unless a test is expected to exit
      ([check_run_reports], [check_exit_test_hides_failure]), and writes that to its TAP
      report ([check_tap_report]).
    - The data structures refine their abstract counterparts over histories of calls (all
      of them but those that run into a flaw of the code, which each theorem names):
      [hashmap_refines_map], [hashmapq_refines_map], [pseudolru_refines_map],
      [heap_refines_bag], [llqueue_refines_list], [chunky_refines_set],
      [farraylist_refines_map], [bitfield_refines_set], [CuString_refines_text],
      [bipbuf_fifo], and, as long as no rotation is due, [avltree_refines_map];
      [iterator_visits_all] and [atlas_packs] build on the hash map.
      These are total: the calls return, and touch no memory that is not theirs.
    - The formats round trip: [bencode_roundtrip], [pwp_wire_roundtrip],
      [handshake_roundtrip], [bitstream_roundtrip], [check_failure_reported],
      [snprintf_prints] (the text that C99 gives the conversions of integers, characters,
      strings and pointers); the way a stream is cut does not matter
      ([pwp_chunks_irrelevant]).
    - The peer wire protocol: a block that is asked for is sent, and its arrival is
      undefined ([pwp_request_served]); the loop behind the undefined lookup settles exactly
      the bytes of the block ([pwp_cut_settles_bytes]); the queue of the peer's requests is
      safe, unless a request wraps around ([pwp_peer_queue_safe],
      [pwp_wrapped_request_queued]); the arrival of a bit field is undefined
      ([pwp_bitfield_message_undefined]), although its bits are read back
      ([pwp_bitfield_roundtrip]); a peer with our own name is not dropped
      ([handshake_own_name]).
    - Raft: a follower replicates the log of its leader
      ([raft_recv_appendentries_replicates]); a server survives any fitting input ([raft_handlers_total]), its term and its
      applied index only grow ([raft_history_monotone]), elections succeed
      ([raft_election_succeeds]), a leader has a majority ([raft_leader_backed]), and
      yet one term can have two leaders ([raft_two_leaders_one_term]).

    ** Bounds and fuel

    Recursion that is not structural is given fuel, and the theorems prove that it is
    enough, or that the code runs forever where it is not.  The probe loops of the hash
    set are bounded by the capacity and those of the probing map by [2 * size + 1]: in
    that many steps every slot has been seen.  A growing chained map calls itself twice
    at most.  The message handler takes at most [2 * length + 1] steps for a buffer.  A
    descent in a pointer tree is bounded by the number of nodes in the memory, an
    insertion into the atlas by the number of its nodes plus 3, an iterator by the slots
    ahead of it, the recursion of the AVL tree over an array by the size of the array, the
    loop of [snprintf] by six rounds for each character of the format.

    ** Not modelled

    - The other files of src/libcheck/lib, which replace system calls, and the mutation
      operators, which are TXL programs.  Nothing under src/libcheck/lib is compiled on the
      platform of config.h.
    - Copies under src/PUTs of the same source (the hash map, the queue and the counter in
      the peer wire protocol and the texture atlas projects, CuTest in every project) are
      modelled once.
    - Text that is only printed or logged, and functions that only free memory correctly.
    - A child process whose [execvp] fails and that goes on as a second engine, and links in
      the paths of directories.
    - [malloc] returning NULL, but for the heap and the bip buffer, where it is part of the model.
    - The peer wire protocol takes its hash map and queues at the contracts proved of them.
    - Iterators of the chained hash map while the map is changed. *)

From stdpp Require Export base list gmap strings sets.
From Stdlib Require Export ZArith Lia.

#[global] Open Scope Z_scope.

(** ** Outcomes of C code

    A C function either returns, runs into undefined behaviour (an access
    outside an object, a null dereference, a division by zero), ends the
    process ([exit], [abort], a failed [assert]), or does not return within the
    number of loop iterations it is given. *)
Inductive res (A : Type) : Type :=
| Ok (a : A)
| Undef
| Exit (code : Z)
| OutOfFuel.
Arguments Ok {A} a.
Arguments Undef {A}.
Arguments Exit {A} code.
Arguments OutOfFuel {A}.

#[global] Instance res_ret : MRet res := fun A a => Ok a.
#[global] Instance res_bind : MBind res := fun A B f r =>
  match r with
  | Ok a => f a
  | Undef => Undef
  | Exit c => Exit c
  | OutOfFuel => OutOfFuel
  end.
#[global] Instance res_fmap : FMap res := fun A B f r => r ≫= (fun a => Ok (f a)).

#[global] Instance res_eq_dec `{EqDecision A} : EqDecision (res A).
Proof. solve_decision. Defined.

(** The outcome is a normal return. *)
Definition is_ok {A} (r : res A) : bool :=
  match r with Ok _ => true | _ => false end.

Lemma is_ok_inv {A} (r : res A) : is_ok r = true -> exists a, r = Ok a.
Proof. destruct r; try discriminate. eauto. Qed.

Lemma not_ok {A} (r : res A) : (forall a, r <> Ok a) -> is_ok r = false.
Proof. intros Hr. destruct r; try done. by edestruct Hr. Qed.

Lemma res_bind_ok {A B} (a : A) (f : A -> res B) : (Ok a ≫= f) = f a.
Proof. reflexivity. Qed.

Lemma res_bind_inv {A B} (r : res A) (f : A -> res B) b :
  r ≫= f = Ok b -> exists a, r = Ok a /\ f a = Ok b.
Proof. destruct r; simpl; try discriminate. eauto. Qed.

(** ** Machine integers *)

(** Two's complement [int] and [long], unsigned [size_t]. *)
Definition int_min : Z := - 2 ^ 31.
Definition int_max : Z := 2 ^ 31 - 1.
Definition in_int (z : Z) : Prop := int_min <= z <= int_max.
Definition wrap_int (z : Z) : Z := (z + 2 ^ 31) mod 2 ^ 32 - 2 ^ 31.
Definition wrap_size (z : Z) : Z := z mod 2 ^ 64.
Definition wrap_u32 (z : Z) : Z := z mod 2 ^ 32.
Definition wrap_u8 (z : Z) : Z := z mod 2 ^ 8.

#[global] Instance in_int_dec z : Decision (in_int z).
Proof. unfold in_int. apply _. Defined.

(** A result of [int] arithmetic: overflow is undefined. *)
Definition chk (z : Z) : res Z := if decide (in_int z) then Ok z else Undef.

Lemma chk_ok z : in_int z -> chk z = Ok z.
Proof. intros H. unfold chk. by rewrite decide_True. Qed.

Lemma chk_inv z a : chk z = Ok a -> a = z /\ in_int z.
Proof. unfold chk. case_decide; [|done]. by intros [= <-]. Qed.

Lemma wrap_int_id z : in_int z -> wrap_int z = z.
Proof.
  unfold in_int, wrap_int, int_min, int_max. intros H.
  rewrite Z.mod_small; lia.
Qed.

Lemma wrap_int_range z : in_int (wrap_int z).
Proof.
  unfold in_int, wrap_int, int_min, int_max.
  pose proof (Z.mod_pos_bound (z + 2 ^ 31) (2 ^ 32) eq_refl). lia.
Qed.

Lemma wrap_size_id z : 0 <= z < 2 ^ 64 -> wrap_size z = z.
Proof. intros H. unfold wrap_size. by rewrite Z.mod_small. Qed.

Lemma wrap_u32_id z : 0 <= z < 2 ^ 32 -> wrap_u32 z = z.
Proof. intros H. unfold wrap_u32. by rewrite Z.mod_small. Qed.

Lemma wrap_size_range z : 0 <= wrap_size z < 2 ^ 64.
Proof. unfold wrap_size. by apply Z.mod_pos_bound. Qed.

(** Masking with [2 ^ k - 1] is reduction modulo [2 ^ k], also through the
    wrap-around of [size_t]. *)
Lemma land_mask_mod k z :
  0 <= k -> Z.land (2 ^ k - 1) z = z mod 2 ^ k.
Proof.
  intros Hk. rewrite Z.land_comm. replace (2 ^ k - 1) with (Z.ones k) by (rewrite Z.ones_equiv; lia).
  by rewrite Z.land_ones.
Qed.

Lemma land_mask_wrap k z :
  0 <= k <= 64 -> Z.land (2 ^ k - 1) (wrap_size z) = z mod 2 ^ k.
Proof.
  intros Hk. rewrite land_mask_mod by lia. unfold wrap_size.
  apply Z.mod_mod_divide.
  exists (2 ^ (64 - k)). rewrite <- Z.pow_add_r by lia. f_equal. lia.
Qed.

(** An integer converted to a binary floating-point type with [p] bits of
    significand, rounding to nearest, ties to even; the value is an integer
    again, because only integers of more than [p] bits are rounded. *)
Definition round_sig (p n : Z) : Z :=
  let e := Z.max 0 (Z.log2 n + 1 - p) in
  let q := n / 2 ^ e in
  let r := n mod 2 ^ e in
  let q' := if (2 * r <? 2 ^ e) || ((2 * r =? 2 ^ e) && Z.even q) then q else q + 1 in
  if e =? 0 then n else q' * 2 ^ e.

(** [(float) n] for an unsigned [n]. *)
Definition float_of_size (n : Z) : Z := round_sig 24 n.

(** ** Arrays

    Reading or writing outside the array is undefined. *)
Section arrays.
Context {A : Type}.

Definition load (l : list A) (i : Z) : res A :=
  if decide (0 <= i) then
    match l !! Z.to_nat i with Some a => Ok a | None => Undef end
  else Undef.

Definition store (l : list A) (i : Z) (a : A) : res (list A) :=
  if decide (0 <= i < Z.of_nat (length l)) then Ok (<[Z.to_nat i := a]> l) else Undef.

Lemma load_ok l i a : 0 <= i -> l !! Z.to_nat i = Some a -> load l i = Ok a.
Proof. intros Hi Hl. unfold load. rewrite decide_True by done. by rewrite Hl. Qed.

Lemma load_inv l i a :
  load l i = Ok a -> 0 <= i < Z.of_nat (length l) /\ l !! Z.to_nat i = Some a.
Proof.
  unfold load. case_decide as Hi; [|done].
  destruct (l !! Z.to_nat i) eqn:Hl; [|done]. intros [= ->].
  apply lookup_lt_Some in Hl as Hlt. split; [lia|done].
Qed.

Lemma load_in_range l i :
  0 <= i < Z.of_nat (length l) -> exists a, load l i = Ok a /\ l !! Z.to_nat i = Some a.
Proof.
  intros Hi. destruct (lookup_lt_is_Some_2 l (Z.to_nat i)) as [a Ha]; [lia|].
  exists a. split; [|done]. apply load_ok; [lia|done].
Qed.

Lemma store_ok l i a :
  0 <= i < Z.of_nat (length l) -> store l i a = Ok (<[Z.to_nat i := a]> l).
Proof. intros Hi. unfold store. by rewrite decide_True. Qed.

Lemma store_inv l i a l' :
  store l i a = Ok l' ->
  0 <= i < Z.of_nat (length l) /\ l' = <[Z.to_nat i := a]> l.
Proof. unfold store. case_decide; [|done]. by intros [= <-]. Qed.
End arrays.

(** A write at an index splits the list around it. *)
Lemma insert_split {A} (l : list A) i x y :
  l !! i = Some x -> <[i := y]> l ≡ₚ y :: delete i l /\ l ≡ₚ x :: delete i l.
Proof.
  intros Hl. apply lookup_lt_Some in Hl as Hlt. split.
  - rewrite insert_take_drop by done. rewrite delete_take_drop.
    by rewrite Permutation_middle.
  - rewrite <- (take_drop_middle l i x) at 1 by done. rewrite delete_take_drop.
    by rewrite Permutation_middle.
Qed.

Lemma filter_ext_in {A} (P Q : A -> Prop) `{forall x, Decision (P x), forall x, Decision (Q x)} (l : list A) :
  (forall x, x ∈ l -> P x <-> Q x) -> filter P l = filter Q l.
Proof.
  induction l as [|x l IH]; intros HPQ; [done|].
  assert (P x <-> Q x) as Hx by (apply HPQ; constructor).
  rewrite !filter_cons, IH by (intros y Hy; apply HPQ; by constructor).
  repeat case_decide; tauto || done.
Qed.

(** ** Proof automation *)

(** Resolves a chain of monadic binds whose result is known. *)
Ltac res_inv :=
  repeat match goal with
  | H : mbind _ _ = Ok _ |- _ =>
      let a := fresh "a" in let Ha := fresh "Ha" in
      apply res_bind_inv in H as (a & Ha & H); simpl in H
  | H : Ok _ = Ok _ |- _ => injection H as H; subst
  | H : Undef = Ok _ |- _ => discriminate H
  | H : Exit _ = Ok _ |- _ => discriminate H
  | H : OutOfFuel = Ok _ |- _ => discriminate H
  end.

(** Splits the first [if] on a boolean comparison or a [decide] of the goal. *)
Ltac case_if :=
  match goal with
  | |- context [if decide ?P then _ else _] => destruct (decide P)
  | |- context [if (?a =? ?b) then _ else _] => destruct (Z.eqb_spec a b)
  | |- context [if (?a <? ?b) then _ else _] => destruct (Z.ltb_spec a b)
  | |- context [if (?a <=? ?b) then _ else _] => destruct (Z.leb_spec a b)
  | |- context [if ?b then _ else _] => destruct b eqn:?
  end.

Create HintDb cres.
#[export] Hint Resolve chk_ok load_ok store_ok wrap_int_id wrap_int_range wrap_size_range : cres.

(** ** Rounding to a significand is monotone *)

Section round_sig_facts.
Context (p : Z) (Hp : 0 < p).

(** Below [2 ^ p] every integer is representable. *)
Lemma round_sig_exact n : 0 <= n < 2 ^ p -> round_sig p n = n.
Proof.
  intros Hn. unfold round_sig. replace (Z.max 0 (Z.log2 n + 1 - p)) with 0; [done|].
  destruct (decide (n = 0)) as [->|]; [simpl; lia|].
  pose proof (proj1 (Z.log2_lt_pow2 n p ltac:(lia))). lia.
Qed.

(** The exponent a positive integer is rounded at. *)
Definition sig_exp (n : Z) : Z := Z.max 0 (Z.log2 n + 1 - p).

Lemma round_sig_bounds n :
  0 < n -> 2 ^ Z.log2 n <= round_sig p n <= 2 ^ (Z.log2 n + 1).
Proof.
  intros Hn. pose proof (Z.log2_spec n Hn) as [Hlo Hhi].
  pose proof (Z.log2_nonneg n). rewrite <- Z.add_1_r in Hhi.
  unfold round_sig. fold (sig_exp n).
  destruct (Z.eqb_spec (sig_exp n) 0) as [He|He]; [lia|].
  assert (sig_exp n = Z.log2 n + 1 - p) as Hee by (unfold sig_exp in *; lia).
  assert (0 <= sig_exp n) by (unfold sig_exp; lia).
  set (e := sig_exp n) in *.
  assert (2 ^ Z.log2 n = 2 ^ (p - 1) * 2 ^ e) as E1 by (rewrite <- Z.pow_add_r; [f_equal|..]; lia).
  assert (2 ^ (Z.log2 n + 1) = 2 ^ p * 2 ^ e) as E2 by (rewrite <- Z.pow_add_r; [f_equal|..]; lia).
  rewrite E1, E2 in *.
  assert (0 < 2 ^ e) by (apply Z.pow_pos_nonneg; lia).
  assert (2 ^ (p - 1) <= n / 2 ^ e) by (apply Z.div_le_lower_bound; lia).
  assert (n / 2 ^ e < 2 ^ p) by (apply Z.div_lt_upper_bound; lia).
  split; case_if; nia.
Qed.

Lemma round_sig_mono n m : 0 <= n <= m -> round_sig p n <= round_sig p m.
Proof.
  intros [Hn Hnm].
  destruct (decide (n = 0)) as [->|].
  { rewrite (round_sig_exact 0) by (split; [lia|]; apply Z.pow_pos_nonneg; lia).
    destruct (decide (m = 0)) as [->|].
    - rewrite round_sig_exact; [lia|]. split; [lia|]. apply Z.pow_pos_nonneg; lia.
    - pose proof (round_sig_bounds m ltac:(lia)). pose proof (Z.pow_nonneg 2 (Z.log2 m) ltac:(lia)). lia. }
  pose proof (Z.log2_le_mono n m Hnm).
  destruct (decide (Z.log2 n = Z.log2 m)) as [Hl|Hl].
  2:{ pose proof (round_sig_bounds n ltac:(lia)). pose proof (round_sig_bounds m ltac:(lia)).
      pose proof (Z.pow_le_mono_r 2 (Z.log2 n + 1) (Z.log2 m)). lia. }
  unfold round_sig. rewrite <- Hl. set (e := Z.max 0 _).
  destruct (Z.eqb_spec e 0); [lia|].
  assert (0 < 2 ^ e) by (apply Z.pow_pos_nonneg; lia).
  apply Z.mul_le_mono_nonneg_r; [lia|].
  pose proof (Z.div_le_mono n m (2 ^ e) ltac:(lia) Hnm).
  destruct (decide (n / 2 ^ e = m / 2 ^ e)) as [Hq|]; [|repeat case_if; lia].
  rewrite Hq. pose proof (Z.div_mod n (2 ^ e)). pose proof (Z.div_mod m (2 ^ e)).
  destruct (Z.ltb_spec (2 * (n mod 2 ^ e)) (2 ^ e)), (Z.eqb_spec (2 * (n mod 2 ^ e)) (2 ^ e)),
    (Z.ltb_spec (2 * (m mod 2 ^ e)) (2 ^ e)), (Z.eqb_spec (2 * (m mod 2 ^ e)) (2 ^ e)),
    (Z.even (m / 2 ^ e)); simpl; nia.
Qed.
End round_sig_facts.
