(* ===== verification/Double.v ===== *)
(** * IEEE 754 numbers

    The [double] values of the engine (CFG deviation, fragility, fitness,
    damage) are Stdlib's executable specification of binary64 numbers, so the
    rounding of every operation is the one of the hardware.  The lemmas cover
    what the engine does with them: a quotient of two counters is zero exactly
    when the numerator is, positive otherwise, and at most one when the
    numerator is at most the denominator.  The hash maps of the subject programs
    compare a [float] quotient with one half, which is exact for counters. *)

From Stdlib Require Import SpecFloat.
From S2P Require Import Prelude.

Definition double : Type := spec_float.

Definition double_of_Z (z : Z) : double := binary_normalize 53 1024 z 0 false.
Definition dadd : double -> double -> double := SFadd 53 1024.
Definition dsub : double -> double -> double := SFsub 53 1024.
Definition dmul : double -> double -> double := SFmul 53 1024.
Definition ddiv : double -> double -> double := SFdiv 53 1024.
Definition dlt : double -> double -> bool := SFltb.
Definition deq : double -> double -> bool := SFeqb.
Definition dle : double -> double -> bool := SFleb.

#[global] Arguments double_of_Z : simpl never.
#[global] Arguments ddiv : simpl never.
#[global] Arguments dmul : simpl never.
#[global] Arguments dadd : simpl never.

Definition d0 : double := S754_zero false.
Definition d1 : double := double_of_Z 1.

(** The integer part of a finite double, truncated toward zero. *)
Definition dtrunc (x : double) : option Z :=
  match x with
  | S754_zero _ => Some 0
  | S754_finite s m e =>
      let a := if 0 <=? e then Z.pos m * 2 ^ e else Z.pos m / 2 ^ (- e) in
      Some (if s then - a else a)
  | _ => None
  end.

(** Conversion of a [double] to [int]: undefined when the integer part does
    not fit. *)
Definition double_to_int (x : double) : res Z :=
  match dtrunc x with
  | Some z => if decide (in_int z) then Ok z else Undef
  | None => Undef
  end.

#[global] Instance double_eq_dec : EqDecision double.
Proof. intros x y. unfold Decision. repeat decide equality. Defined.

(** A double that is a positive finite number. *)
Definition dpos (x : double) : Prop :=
  match x with S754_finite false _ _ => True | _ => False end.

(** ** Facts on the rounding functions *)

Lemma digits2_log2 p : Z.pos (digits2_pos p) = Z.log2 (Z.pos p) + 1.
Proof.
  induction p as [p IH|p IH|]; [| |done].
  - simpl digits2_pos. rewrite Pos2Z.inj_succ, IH, (Pos2Z.inj_xI p), Z.log2_succ_double; lia.
  - simpl digits2_pos. rewrite Pos2Z.inj_succ, IH, (Pos2Z.inj_xO p), Z.log2_double; lia.
Qed.

Lemma digits2_range q n :
  0 < n -> 2 ^ (n - 1) <= q < 2 ^ n -> Zdigits2 q = n.
Proof.
  intros Hn Hq. assert (0 < q) by (pose proof (Z.pow_pos_nonneg 2 (n - 1)); lia).
  destruct q as [|p|]; [lia| |lia]. simpl. rewrite digits2_log2.
  rewrite (Z.log2_unique (Z.pos p) (n - 1)); [lia..|].
  by replace (Z.succ (n - 1)) with n by lia.
Qed.

Lemma Pos_iter_xO p k : Z.pos (Pos.iter xO p k) = Z.pos p * 2 ^ Z.pos k.
Proof.
  induction k as [|k IH] using Pos.peano_ind; [simpl; lia|].
  rewrite Pos.iter_succ, Pos2Z.inj_xO, IH, Pos2Z.inj_succ, Z.pow_succ_r by lia. ring.
Qed.

(** ** Quotients of counters, in any format *)

Section format.
(** A format with [p] bits of significand and exponents up to [emax]. *)
Context (p emax : Z) (Hp : 2 < p) (Hemax : 4 * p + 8 <= emax).

Definition of_Z (z : Z) : spec_float := binary_normalize p emax z 0 false.

Lemma pow_p : 2 ^ p = 2 * 2 ^ (p - 1).
Proof. rewrite <- Z.pow_succ_r by lia. f_equal. lia. Qed.

Lemma pow_p1 : 2 ^ (p + 1) = 2 * 2 ^ p.
Proof. rewrite <- Z.pow_succ_r by lia. f_equal. Qed.

Lemma pow_pm1_pos : 4 <= 2 ^ (p - 1).
Proof. change 4 with (2 ^ 2). apply Z.pow_le_mono_r; lia. Qed.

(** [fexp] away from the subnormal range. *)
Lemma fexp_normal e : 3 - emax <= e -> fexp p emax e = e - p.
Proof. intros H. unfold fexp, emin. lia. Qed.

(** No shift when the significand has [p] bits. *)
Lemma shr_fexp_fit m e l :
  2 ^ (p - 1) <= m < 2 ^ p -> 3 - emax - p <= e ->
  shr_fexp p emax m e l = (shr_record_of_loc m l, e).
Proof.
  intros Hm He. unfold shr_fexp. rewrite (digits2_range m p) by lia.
  rewrite fexp_normal by lia. by replace (p + e - p - e) with 0 by lia.
Qed.

(** One shift when it has one more. *)
Lemma shr_fexp_one m e l :
  2 ^ p <= m < 2 ^ (p + 1) -> 3 - emax - p <= e ->
  shr_fexp p emax m e l = (shr_1 (shr_record_of_loc m l), e + 1).
Proof.
  intros Hm He. unfold shr_fexp.
  rewrite (digits2_range m (p + 1)) by (rewrite ?Z.add_simpl_r; lia).
  rewrite fexp_normal by lia. by replace (p + 1 + e - p - e) with 1 by lia.
Qed.

Lemma shr_m_record m l : shr_m (shr_record_of_loc m l) = m.
Proof. by destruct l as [|[]]. Qed.

Lemma shr_m_shr_1 r : 0 <= shr_m r -> shr_m (shr_1 r) = shr_m r / 2.
Proof.
  destruct r as [m r s]. simpl. intros Hm. destruct m as [|[q|q|]|]; simpl; [done| | |done|lia].
  - rewrite Pos2Z.inj_xI. replace (2 * Z.pos q + 1) with (1 + Z.pos q * 2) by lia.
    rewrite Z.div_add by lia. done.
  - rewrite Pos2Z.inj_xO, Z.mul_comm, Z.div_mul; done.
Qed.

Lemma round_nearest_even_range m l :
  m <= round_nearest_even m l <= m + 1.
Proof. destruct l as [|[]]; simpl; try case_match; lia. Qed.

(** The second half of the rounding: the rounded significand is in
    [2^(p-1) .. 2^p]. *)
Lemma round_tail s m e :
  2 ^ (p - 1) <= m <= 2 ^ p -> 3 - emax - p <= e < emax - p ->
  exists m' e',
    (let '(mrs, e'') := shr_fexp p emax m e loc_Exact in
     match shr_m mrs with
     | Z0 => S754_zero s
     | Z.pos m => if e'' <=? emax - p then S754_finite s m e'' else S754_infinity s
     | _ => S754_nan
     end) = S754_finite s m' e' /\
    ((Z.pos m' = m /\ e' = e /\ m < 2 ^ p) \/ (m = 2 ^ p /\ Z.pos m' = 2 ^ (p - 1) /\ e' = e + 1)).
Proof.
  pose proof pow_p. pose proof pow_p1. pose proof pow_pm1_pos. intros Hm He.
  destruct (decide (m = 2 ^ p)) as [->|Hne].
  - rewrite shr_fexp_one by lia. rewrite shr_m_shr_1, shr_m_record by (rewrite shr_m_record; lia).
    replace (2 ^ p / 2) with (2 ^ (p - 1)) by (rewrite pow_p, Z.mul_comm, Z.div_mul; lia).
    destruct (2 ^ (p - 1)) as [|m|] eqn:Em; [lia| |lia]. exists m, (e + 1).
    destruct (Z.leb_spec (e + 1) (emax - p)); [|lia]. split; [done|by right].
  - rewrite shr_fexp_fit by lia. rewrite shr_m_record.
    destruct m as [|m|]; [lia| |lia]. exists m, e.
    destruct (Z.leb_spec e (emax - p)); [|lia]. split; [done|left; lia].
Qed.

(** The exponent grows only when the significand is rounded up to a power. *)
Lemma round_fit s q e l :
  2 ^ (p - 1) <= q < 2 ^ p -> 3 - emax - p <= e < emax - p ->
  exists m e', binary_round_aux p emax s q e l = S754_finite s m e' /\ 2 ^ (p - 1) <= Z.pos m < 2 ^ p /\
    (e' = e \/ (Z.pos m = 2 ^ (p - 1) /\ e' = e + 1 /\ q = 2 ^ p - 1)).
Proof.
  pose proof pow_p. pose proof pow_pm1_pos.
  intros Hq He. unfold binary_round_aux. rewrite shr_fexp_fit by lia. rewrite shr_m_record.
  set (l' := loc_of_shr_record _).
  pose proof (round_nearest_even_range q l') as Hr.
  destruct (round_tail s (round_nearest_even q l') e) as (m & e' & E & Hm); [lia..|].
  exists m, e'. split; [exact E|]. lia.
Qed.

Lemma round_one s q e l :
  2 ^ p <= q < 2 ^ (p + 1) -> 3 - emax - p <= e < emax - p - 1 ->
  exists m e', binary_round_aux p emax s q e l = S754_finite s m e' /\ 2 ^ (p - 1) <= Z.pos m < 2 ^ p /\
    (e' = e + 1 \/ (Z.pos m = 2 ^ (p - 1) /\ e' = e + 2 /\ q / 2 = 2 ^ p - 1)).
Proof.
  pose proof pow_p. pose proof pow_p1. pose proof pow_pm1_pos.
  intros Hq He. unfold binary_round_aux. rewrite shr_fexp_one by lia.
  rewrite shr_m_shr_1, shr_m_record by (rewrite shr_m_record; lia).
  set (l' := loc_of_shr_record _).
  pose proof (round_nearest_even_range (q / 2) l') as Hr.
  assert (2 ^ (p - 1) <= q / 2 < 2 ^ p).
  { split; [apply Z.div_le_lower_bound|apply Z.div_lt_upper_bound]; lia. }
  destruct (round_tail s (round_nearest_even (q / 2) l') (e + 1)) as (m & e' & E & Hm); [lia..|].
  exists m, e'. split; [exact E|]. lia.
Qed.

(** A counter below [2^p] is represented exactly, with a significand of [p] bits. *)
Lemma of_pos z :
  0 < z < 2 ^ p ->
  exists m k, of_Z z = S754_finite false m (- k) /\ 0 <= k <= p - 1 /\
    Z.pos m = z * 2 ^ k /\ 2 ^ (p - 1) <= Z.pos m < 2 ^ p.
Proof.
  intros [Hz1 Hz2]. destruct z as [|n|]; [lia| |lia].
  pose proof (Z.log2_spec (Z.pos n) Hz1) as [Hl1 Hl2].
  pose proof (Z.log2_nonneg (Z.pos n)).
  assert (Z.log2 (Z.pos n) <= p - 1) as Hl.
  { apply Z.lt_succ_r, Z.log2_lt_pow2; [done|]. by replace (Z.succ (p - 1)) with p by lia. }
  unfold of_Z, binary_normalize, binary_round. rewrite Z.add_0_r, digits2_log2.
  rewrite fexp_normal by lia. unfold shl_align. rewrite Z.sub_0_r.
  set (k := p - 1 - Z.log2 (Z.pos n)).
  replace (Z.log2 (Z.pos n) + 1 - p) with (- k) by lia.
  assert (2 ^ (p - 1) <= Z.pos n * 2 ^ k < 2 ^ p) as Hm.
  { replace (2 ^ (p - 1)) with (2 ^ Z.log2 (Z.pos n) * 2 ^ k) by (rewrite <- Z.pow_add_r; [f_equal|..]; lia).
    replace (2 ^ p) with (2 ^ Z.succ (Z.log2 (Z.pos n)) * 2 ^ k)
      by (rewrite <- Z.pow_add_r; [f_equal|..]; lia).
    pose proof (Z.pow_pos_nonneg 2 k). nia. }
  assert (exists mm, (match - k with Z.neg d => (Pos.iter xO n d, - k) | _ => (n, 0) end) = (mm, - k)
            /\ Z.pos mm = Z.pos n * 2 ^ k) as (mm & -> & Hmm).
  { destruct k as [|d|] eqn:Ek; [|simpl|lia].
    - exists n. split; [done|]. simpl. lia.
    - eexists. split; [done|]. by rewrite Pos_iter_xO. }
  exists mm, k. rewrite Hmm. split; [|lia].
  unfold binary_round_aux. rewrite <- Hmm in *.
  rewrite shr_fexp_fit by lia. cbn [shr_record_of_loc shr_m loc_of_shr_record round_nearest_even].
  rewrite shr_fexp_fit by lia. cbn [shr_m shr_record_of_loc].
  destruct (Z.leb_spec (- k) (emax - p)); [done|lia].
Qed.

(** The quotient of two counters before it is rounded: a significand of [p] or
    [p + 1] bits and a remainder. *)
Lemma div_form a b :
  0 < a < 2 ^ p -> 0 < b < 2 ^ p ->
  exists m1 k1 m2 k2 q r,
    SFdiv p emax (of_Z a) (of_Z b) =
      binary_round_aux p emax false q (k2 - k1 - p) (new_location m2 r) /\
    0 <= k1 <= p - 1 /\ 0 <= k2 <= p - 1 /\ m1 = a * 2 ^ k1 /\ m2 = b * 2 ^ k2 /\
    2 ^ (p - 1) <= m1 < 2 ^ p /\ 2 ^ (p - 1) <= m2 < 2 ^ p /\
    m1 * 2 ^ p = m2 * q + r /\ 0 <= r < m2 /\ 2 ^ (p - 1) <= q < 2 ^ (p + 1).
Proof.
  intros Ha Hb.
  destruct (of_pos a Ha) as (m1 & k1 & -> & Hk1 & E1 & Hm1).
  destruct (of_pos b Hb) as (m2 & k2 & -> & Hk2 & E2 & Hm2).
  pose proof (Z_div_mod (Z.shiftl (Z.pos m1) p) (Z.pos m2) ltac:(lia)) as Hdiv.
  destruct (Z.div_eucl (Z.shiftl (Z.pos m1) p) (Z.pos m2)) as [q r] eqn:Hqr.
  rewrite Z.shiftl_mul_pow2 in Hdiv by lia.
  exists (Z.pos m1), k1, (Z.pos m2), k2, q, r. split.
  - unfold SFdiv, SFdiv_core_binary.
    rewrite (digits2_range (Z.pos m1) p), (digits2_range (Z.pos m2) p) by lia.
    rewrite fexp_normal by lia.
    replace (Z.min _ _) with (k2 - k1 - p) by lia.
    replace (- k1 - - k2 - (k2 - k1 - p)) with p by lia.
    destruct p as [|p'|] eqn:Ep; [lia| |lia]. cbv beta iota zeta. by rewrite Hqr.
  - pose proof pow_p. pose proof pow_p1. pose proof pow_pm1_pos. split_and!; try lia; nia.
Qed.

(** Where the exponent of the rounded quotient lies. *)
Lemma div_exponent a b :
  0 < a < 2 ^ p -> 0 < b < 2 ^ p ->
  exists m e m1 k1 m2 k2 q, SFdiv p emax (of_Z a) (of_Z b) = S754_finite false m e /\
    2 ^ (p - 1) <= Z.pos m < 2 ^ p /\
    m1 = a * 2 ^ k1 /\ m2 = b * 2 ^ k2 /\ 0 <= k1 <= p - 1 /\ 0 <= k2 <= p - 1 /\
    2 ^ (p - 1) <= m1 < 2 ^ p /\ 2 ^ (p - 1) <= m2 < 2 ^ p /\
    q * m2 <= m1 * 2 ^ p < (q + 1) * m2 /\
    ((q < 2 ^ p /\ (e = k2 - k1 - p \/ Z.pos m = 2 ^ (p - 1) /\ e = k2 - k1 - p + 1 /\ q = 2 ^ p - 1)) \/
     (2 ^ p <= q /\ (e = k2 - k1 - p + 1 \/
        Z.pos m = 2 ^ (p - 1) /\ e = k2 - k1 - p + 2 /\ 2 ^ (p + 1) - 2 <= q))).
Proof.
  intros Ha Hb.
  destruct (div_form a b Ha Hb) as (m1 & k1 & m2 & k2 & q & r & -> & H).
  set (l := new_location m2 r). pose proof pow_p1.
  destruct (decide (q < 2 ^ p)).
  - destruct (round_fit false q (k2 - k1 - p) l) as (m & e & -> & Hm & He); [lia..|].
    exists m, e, m1, k1, m2, k2, q. split_and!; try tauto; lia.
  - destruct (round_one false q (k2 - k1 - p) l) as (m & e & -> & Hm & He); [lia..|].
    exists m, e, m1, k1, m2, k2, q. split_and!; try tauto; try lia.
    right. split; [lia|]. destruct He as [He|(? & ? & Hq)]; [by left|right].
    pose proof (Z.div_mod q 2). pose proof (Z.mod_pos_bound q 2). lia.
Qed.

(** Scaling compares as the counters do. *)
Lemma scaled_lt a b k1 k2 m1 m2 :
  0 < a -> 0 < b -> m1 = a * 2 ^ k1 -> m2 = b * 2 ^ k2 -> 0 <= k1 -> 0 <= k2 ->
  2 ^ (p - 1) <= m1 < 2 ^ p -> 2 ^ (p - 1) <= m2 < 2 ^ p ->
  (a < b -> k2 < k1 \/ k1 = k2 /\ m1 < m2) /\ (b <= a -> k1 < k2 \/ k1 = k2 /\ m2 <= m1).
Proof.
  intros Ha Hb -> -> Hk1 Hk2 Hm1 Hm2. pose proof pow_p.
  destruct (Z.lt_trichotomy k1 k2) as [Hlt|[->|Hlt]].
  - pose proof (Z.pow_add_r 2 k1 (k2 - k1)). replace (k1 + (k2 - k1)) with k2 in * by lia.
    pose proof (Z.pow_le_mono_r 2 1 (k2 - k1)). pose proof (Z.pow_pos_nonneg 2 k1). split; [nia|auto].
  - pose proof (Z.pow_pos_nonneg 2 k2). split; intros; right; nia.
  - pose proof (Z.pow_add_r 2 k2 (k1 - k2)). replace (k2 + (k1 - k2)) with k1 in * by lia.
    pose proof (Z.pow_le_mono_r 2 1 (k1 - k2)). pose proof (Z.pow_pos_nonneg 2 k2). split; [auto|nia].
Qed.

(** A power of two in the format. *)
Definition power (e : Z) : spec_float := S754_finite false (Z.to_pos (2 ^ (p - 1))) (e - (p - 1)).

Lemma compare_power m e e0 :
  2 ^ (p - 1) <= Z.pos m ->
  SFltb (S754_finite false m e) (power e0) = (e <? e0 - (p - 1)).
Proof.
  intros Hm. unfold SFltb, SFcompare, power. pose proof pow_pm1_pos.
  destruct (Z.ltb_spec e (e0 - (p - 1))); destruct (Z.compare_spec e (e0 - (p - 1))); try done; try lia.
  change (Pos.compare_cont Eq m (Z.to_pos (2 ^ (p - 1)))) with (m ?= Z.to_pos (2 ^ (p - 1)))%positive.
  destruct (Pos.compare_spec m (Z.to_pos (2 ^ (p - 1)))); done || lia.
Qed.

(** Bounds of a quotient of significands. *)
Lemma quot_below P q m1 m2 : m1 < m2 -> m2 < P -> q * m2 <= m1 * P -> 0 < m2 -> q < P - 1.
Proof.
  intros H1 H2 Hq Hm. apply Z.lt_nge. intros Hge.
  assert ((P - 1) * m2 <= q * m2) by (apply Z.mul_le_mono_nonneg_r; lia).
  assert (m1 * P <= (m2 - 1) * P) by (apply Z.mul_le_mono_nonneg_r; lia). lia.
Qed.

Lemma quot_above P q m1 m2 : m2 <= m1 -> 0 < m2 -> 0 <= P -> m1 * P < (q + 1) * m2 -> P <= q.
Proof.
  intros H1 Hm HP Hq. apply Z.nlt_ge. intros Hlt.
  assert (m2 * P <= m1 * P) by (apply Z.mul_le_mono_nonneg_r; lia).
  assert ((q + 1) * m2 <= P * m2) by (apply Z.mul_le_mono_nonneg_r; lia). lia.
Qed.

Lemma quot_even H q m1 m2 :
  m1 <= 2 * H - 2 -> H <= m2 -> 1 <= H -> q * m2 <= m1 * (2 * H) -> q < 2 * (2 * H) - 2.
Proof.
  intros H1 H2 HH Hq. apply Z.lt_nge. intros Hge.
  assert ((2 * (2 * H) - 2) * H <= (2 * (2 * H) - 2) * m2) by (apply Z.mul_le_mono_nonneg_l; lia).
  assert ((2 * (2 * H) - 2) * m2 <= q * m2) by (apply Z.mul_le_mono_nonneg_r; lia).
  assert (m1 * (2 * H) <= (2 * H - 2) * (2 * H)) by (apply Z.mul_le_mono_nonneg_r; lia). lia.
Qed.

(** A quotient of counters is below one half exactly when the counters say so. *)
Lemma div_lt_half a b :
  0 <= a < 2 ^ (p - 1) -> 0 < b < 2 ^ p ->
  SFltb (SFdiv p emax (of_Z a) (of_Z b)) (power (-1)) = (2 * a <? b).
Proof.
  intros Ha Hb. pose proof pow_p. pose proof pow_p1. pose proof pow_pm1_pos.
  destruct (decide (a = 0)) as [->|Hne].
  { destruct (of_pos b Hb) as (m & k & -> & _). symmetry. apply Z.ltb_lt. lia. }
  destruct (div_exponent a b) as (m & e & m1 & k1 & m2 & k2 & q & -> & Hm & E1 & E2 & Hk1 & Hk2 & Hm1 & Hm2 & Hq & He);
    [lia..|].
  rewrite compare_power by lia.
  assert (1 <= k1) as Hk1' by (destruct (decide (k1 = 0)) as [->|]; [rewrite Z.pow_0_r in E1; lia|lia]).
  assert (m1 = 2 * a * 2 ^ (k1 - 1)) as E1'.
  { rewrite E1. replace k1 with (1 + (k1 - 1)) at 1 by lia. rewrite Z.pow_add_r by lia. lia. }
  destruct (scaled_lt (2 * a) b (k1 - 1) k2 m1 m2) as [Hlt Hge]; [lia..|].
  assert (m1 <= 2 ^ p - 2) as Hev by (rewrite pow_p, E1' in *; pose proof (Z.pow_pos_nonneg 2 (k1 - 1)); lia).
  destruct (Z.ltb_spec (2 * a) b) as [Hc|Hc].
  - apply Z.ltb_lt. specialize (Hlt Hc).
    assert (m1 < m2 -> q < 2 ^ p - 1) by (intros; eapply quot_below; eauto; lia).
    assert (q < 2 * (2 * 2 ^ (p - 1)) - 2) by (apply (quot_even _ _ m1 m2); rewrite <- ?pow_p; lia). lia.
  - apply Z.ltb_ge. specialize (Hge Hc).
    assert (m2 <= m1 -> 2 ^ p <= q) by (intros; eapply quot_above; eauto; lia). lia.
Qed.
(** ** Products *)

(** Shifting drops the low bits, and remembers whether they were zero. *)
Definition exact (r : shr_record) : Prop := shr_r r = false /\ shr_s r = false.

Lemma shr_1_exact r : 0 <= shr_m r -> exact (shr_1 r) <-> exact r /\ shr_m r mod 2 = 0.
Proof.
  destruct r as [m r s]. unfold exact. simpl. intros Hm. destruct m as [|[q|q|]|]; simpl; [|..|lia].
  - destruct r, s; naive_solver.
  - rewrite Pos2Z.inj_xI, Z.add_comm, Z.mul_comm, Z_mod_plus_full. naive_solver.
  - rewrite Pos2Z.inj_xO, Z.mul_comm, Z_mod_mult. destruct r, s; naive_solver.
  - naive_solver.
Qed.

Lemma iter_pos_iter {A} (f : A -> A) k x : SpecFloat.iter_pos f k x = Pos.iter f x k.
Proof. revert x. induction k as [k IH|k IH|]; intros x; simpl; rewrite ?IH; [|done..]. by rewrite <- !Pos.iter_swap. Qed.

Lemma shr_iter r k : 0 <= shr_m r ->
  shr_m (Pos.iter shr_1 r k) = shr_m r / 2 ^ Z.pos k /\ (exact (Pos.iter shr_1 r k) <-> exact r /\ shr_m r mod 2 ^ Z.pos k = 0).
Proof.
  intros Hr. induction k as [|k IH] using Pos.peano_ind; simpl.
  { rewrite shr_m_shr_1 by done. split; [done|]. by apply shr_1_exact. }
  rewrite Pos.iter_succ. destruct IH as [Hm He]. pose proof (Z.pow_pos_nonneg 2 (Z.pos k)). assert (0 <= shr_m (Pos.iter shr_1 r k)) as H0 by (rewrite Hm; apply Z.div_pos; lia).
  rewrite shr_m_shr_1, shr_1_exact by done. rewrite He, Hm, Pos2Z.inj_succ, Z.pow_succ_r, (Z.mul_comm 2), Z.div_div by lia. split; [done|].
  rewrite (Z.rem_mul_r _ (2 ^ Z.pos k) 2) by lia. pose proof (Z.mod_pos_bound (shr_m r) (2 ^ Z.pos k)). pose proof (Z.mod_pos_bound (shr_m r / 2 ^ Z.pos k) 2).
  split; [intros [[??] ?]; split; [done|]; lia|]. intros [? ?]. split; [split; [done|]|]; nia.
Qed.

Lemma round_exact m r : exact r -> round_nearest_even m (loc_of_shr_record r) = m.
Proof. destruct r as [? [] []]; unfold exact; simpl; intros [??]; done. Qed.

(** A significand with [d] bits too many. *)
Lemma round_wide q e d :
  0 <= d -> 2 ^ (p - 1) <= q / 2 ^ d < 2 ^ p -> 3 - emax - p <= e + d < emax - p ->
  exists m e', binary_round_aux p emax false q e loc_Exact = S754_finite false m e' /\ 2 ^ (p - 1) <= Z.pos m < 2 ^ p /\
    e + d <= e' <= e + d + 1 /\ Z.pos m * 2 ^ (e' - (e + d)) <= q / 2 ^ d + (if q mod 2 ^ d =? 0 then 0 else 1).
Proof.
  intros Hd Hq He. pose proof pow_p. pose proof pow_pm1_pos. assert (0 < 2 ^ d) as Hp2 by (apply Z.pow_pos_nonneg; lia).
  assert (0 < q) as Hq0. { apply Z.lt_nge. intros Hn. assert (q / 2 ^ d <= 0) by (apply Z.div_le_upper_bound; lia). lia. }
  assert (Zdigits2 q = p + d) as Hdig.
  { apply digits2_range; [lia|]. pose proof (Z.div_mod q (2 ^ d)). pose proof (Z.mod_pos_bound q (2 ^ d)). replace (p + d - 1) with (p - 1 + d) by lia. rewrite !Z.pow_add_r by lia. nia. }
  assert (exists mrs, shr_fexp p emax q e loc_Exact = (mrs, e + d) /\ shr_m mrs = q / 2 ^ d /\ (exact mrs <-> q mod 2 ^ d = 0)) as (mrs & E & Hm & Hx).
  { unfold shr_fexp. rewrite Hdig, fexp_normal by lia. replace (p + d + e - p - e) with d by lia. unfold shr. destruct d as [|k|]; [| |lia].
    - exists (shr_record_of_loc q loc_Exact). rewrite Z.add_0_r, Z.div_1_r, Z.mod_1_r. done.
    - rewrite iter_pos_iter. eexists. split; [done|]. destruct (shr_iter (shr_record_of_loc q loc_Exact) k) as [-> ->]; simpl; [lia|]. split; [done|]. unfold exact. simpl. tauto. }
  unfold binary_round_aux. rewrite E, Hm. set (f := q / 2 ^ d) in *. pose proof (round_nearest_even_range f (loc_of_shr_record mrs)) as Hr.
  destruct (round_tail false (round_nearest_even f (loc_of_shr_record mrs)) (e + d)) as (m & e' & -> & Hmm); [lia|lia|].
  exists m, e'. split; [done|]. assert (round_nearest_even f (loc_of_shr_record mrs) <= f + (if q mod 2 ^ d =? 0 then 0 else 1)) as Hle.
  { destruct (Z.eqb_spec (q mod 2 ^ d) 0); [|lia]. rewrite round_exact by tauto. lia. }
  set (c := if _ =? 0 then 0 else 1) in *. clearbody c. destruct Hmm as [(Hm1 & -> & Hlt)|(Hm1 & Hm2 & ->)].
  - rewrite Z.sub_diag, Z.pow_0_r. lia.
  - replace (e + d + 1 - (e + d)) with 1 by lia. rewrite Z.pow_1_r. lia.
Qed.
(** A counter divided by itself. *)
Lemma div_same a : 0 < a < 2 ^ p -> SFdiv p emax (of_Z a) (of_Z a) = power 0.
Proof.
  intros Ha. destruct (div_form a a Ha Ha) as (m1 & k1 & m2 & k2 & q & r & -> & H). pose proof pow_p. pose proof pow_pm1_pos.
  destruct (scaled_lt a a k1 k2 m1 m2) as [_ Hle1]; [lia..|]. destruct (scaled_lt a a k2 k1 m2 m1) as [_ Hle2]; [lia..|].
  assert (k1 = k2 /\ m1 = m2) as [-> ->] by lia. assert (q = 2 ^ p) as -> by nia. assert (r = 0) as -> by lia.
  replace (k2 - k2 - p) with (- p) by lia. replace (new_location m2 0) with loc_Exact by (unfold new_location; by case_match).
  assert (2 ^ p / 2 ^ 1 = 2 ^ (p - 1)) as Hd by (rewrite pow_p, Z.pow_1_r, Z.mul_comm, Z.div_mul; lia).
  assert (2 ^ p mod 2 ^ 1 = 0) as Hmod by (rewrite pow_p, Z.pow_1_r, Z.mul_comm, Z_mod_mult; done).
  destruct (round_wide (2 ^ p) (- p) 1) as (m & e & -> & Hm & He & Hle); [lia..|]. rewrite Hd, Hmod, Z.eqb_refl in Hle.
  assert (e = - p + 1) as ->. { destruct (decide (e = - p + 1)) as [|Hne]; [done|]. replace (e - (- p + 1)) with 1 in Hle by lia. lia. }
  rewrite Z.sub_diag in Hle. unfold power. f_equal; [|lia]. assert (Z.pos m = 2 ^ (p - 1)) as <- by lia. done.
Qed.
End format.

(** ** The two formats *)

(** A quotient of positive counters is a positive finite double. *)
Lemma ddiv_pos a b :
  0 < a < 2 ^ 53 -> 0 < b < 2 ^ 53 -> dpos (ddiv (double_of_Z a) (double_of_Z b)).
Proof.
  intros Ha Hb.
  destruct (div_exponent 53 1024 eq_refl ltac:(lia) a b Ha Hb) as (m & e & m1 & k1 & m2 & k2 & q & E & _).
  unfold ddiv, double_of_Z. unfold of_Z in E. by rewrite E.
Qed.

(** Numbers with a smaller exponent, and [2^52] at exponent [-52] itself, are
    at most one. *)
Lemma dle_one_finite m e :
  (e <= -53 /\ Z.pos m < 2 ^ 53) \/ (Z.pos m = 2 ^ 52 /\ e <= -52) ->
  dle (S754_finite false m e) d1 = true.
Proof.
  intros H. unfold dle, SFleb, SFcompare.
  change d1 with (S754_finite false (2 ^ 52) (-52)). cbv iota beta.
  destruct (Z.compare_spec e (-52)); [|done|lia].
  assert (m = (2 ^ 52)%positive) as -> by lia. reflexivity.
Qed.

Lemma ddiv_same a : 0 < a < 2 ^ 53 -> ddiv (double_of_Z a) (double_of_Z a) = d1.
Proof. intros Ha. apply (div_same 53 1024 eq_refl ltac:(lia) a Ha). Qed.

(** A part of a whole is at most one. *)
Lemma ddiv_le_one a b :
  0 < a <= b -> b < 2 ^ 53 -> dle (ddiv (double_of_Z a) (double_of_Z b)) d1 = true.
Proof.
  intros Ha Hb. destruct (decide (a = b)) as [->|Hne]; [by rewrite ddiv_same by lia|].
  destruct (div_exponent 53 1024 eq_refl ltac:(lia) a b ltac:(lia) ltac:(lia))
    as (m & e & m1 & k1 & m2 & k2 & q & E & Hm & H).
  destruct (scaled_lt 53 eq_refl a b k1 k2 m1 m2) as [Hlt _]; [lia..|].
  unfold ddiv, double_of_Z. unfold of_Z in E. rewrite E. apply dle_one_finite.
  assert (k1 = k2 -> q < 2 ^ 53) by (intros; nia). lia.
Qed.

(** [float]: single precision. *)
Definition float : Type := spec_float.
Definition float_of_Z (z : Z) : float := of_Z 24 128 z.
Definition fdiv : float -> float -> float := SFdiv 24 128.
Definition flt : float -> float -> bool := SFltb.
Definition f_half : float := power 24 (-1).

#[global] Arguments float_of_Z : simpl never.
#[global] Arguments fdiv : simpl never.

Definition fmul : float -> float -> float := SFmul 24 128.

#[global] Arguments fmul : simpl never.

Lemma fdiv_lt_half a b :
  0 <= a < 2 ^ 23 -> 0 < b < 2 ^ 24 -> flt (fdiv (float_of_Z a) (float_of_Z b)) f_half = (2 * a <? b).
Proof. intros Ha Hb. by apply (div_lt_half 24 128). Qed.

(** A part of a whole is at most one: its exponent says so. *)
Lemma fdiv_le_one a b :
  0 < a <= b -> b < 2 ^ 24 ->
  exists m e, fdiv (float_of_Z a) (float_of_Z b) = S754_finite false m e /\ 2 ^ 23 <= Z.pos m < 2 ^ 24 /\ (e <= -24 \/ (Z.pos m = 2 ^ 23 /\ e <= -23)) /\ -48 <= e.
Proof.
  intros Ha Hb. destruct (decide (a = b)) as [->|Hne].
  { exists (2 ^ 23)%positive, (-23). split; [apply (div_same 24 128 eq_refl ltac:(lia) b); lia|]. lia. }
  destruct (div_exponent 24 128 eq_refl ltac:(lia) a b ltac:(lia) ltac:(lia)) as (m & e & m1 & k1 & m2 & k2 & q & E & Hm & E1 & E2 & Hk1 & Hk2 & Hm1 & Hm2 & Hq & He).
  exists m, e. split; [exact E|]. split; [lia|]. destruct (scaled_lt 24 eq_refl a b k1 k2 m1 m2) as [Hlt _]; [lia..|].
  assert (k1 = k2 -> m1 < m2 -> q < 2 ^ 24) by (intros; nia). lia.
Qed.

(** The percentage of a part lies between 0 and 100. *)
Lemma percentage a b :
  0 <= a <= b -> 0 < b < 2 ^ 24 -> exists z, double_to_int (fmul (fdiv (float_of_Z a) (float_of_Z b)) (float_of_Z 100)) = Ok z /\ 0 <= z <= 100.
Proof.
  intros Ha Hb. destruct (decide (a = 0)) as [->|Hne].
  { exists 0. split; [|lia]. destruct (of_pos 24 128 eq_refl ltac:(lia) b Hb) as (m & k & E & _). unfold fdiv, float_of_Z. rewrite E. done. }
  destruct (fdiv_le_one a b) as (m & e & -> & Hm & He & He'); [lia..|]. change (float_of_Z 100) with (S754_finite false 13107200 (-17)). unfold fmul, SFmul. cbn [xorb].
  rewrite Pos2Z.inj_mul. set (q := Z.pos m * 13107200).
  assert (exists d, 0 <= d <= 24 /\ 2 ^ 23 <= q / 2 ^ d < 2 ^ 24) as (d & Hd & Hq).
  { destruct (decide (q < 2 ^ 47)).
    - exists 23. split; [lia|]. split; [apply Z.div_le_lower_bound|apply Z.div_lt_upper_bound]; lia.
    - exists 24. split; [lia|]. split; [apply Z.div_le_lower_bound|apply Z.div_lt_upper_bound]; lia. }
  destruct (round_wide 24 128 eq_refl ltac:(lia) q (e + -17) d) as (m' & e' & -> & Hm' & He1 & Hle); [lia..|].
  set (E := e + -17 + d) in *. assert (Z.pos m' * 2 ^ (e' - E) <= 100 * 2 ^ (- E)) as Hb100.
  { etrans; [exact Hle|]. pose proof (Z.pow_pos_nonneg 2 d ltac:(lia) ltac:(lia)). pose proof (Z.div_mod q (2 ^ d) ltac:(lia)). pose proof (Z.mod_pos_bound q (2 ^ d) ltac:(lia)).
    assert (Z.pos m <= 2 ^ (- e)) as Hme.
    { destruct He as [He|[-> He]]; [etrans; [|apply (Z.pow_le_mono_r 2 24); lia]; lia|apply Z.pow_le_mono_r; lia]. }
    assert (q <= 100 * 2 ^ (- E) * 2 ^ d) as HqM.
    { rewrite <- Z.mul_assoc, <- Z.pow_add_r by lia. replace (- E + d) with (17 + - e) by lia. rewrite Z.pow_add_r by lia. change (2 ^ 17) with 131072. lia. }
    destruct (Z.eqb_spec (q mod 2 ^ d) 0); nia. }
  exists (Z.pos m' / 2 ^ (- e')). assert (0 < 2 ^ (- e')) by (apply Z.pow_pos_nonneg; lia). assert (0 <= Z.pos m' / 2 ^ (- e') <= 100) as Hz.
  { split; [apply Z.div_pos; lia|]. apply Z.div_le_upper_bound; [done|]. replace (- E) with (- e' + (e' - E)) in Hb100 by lia. rewrite Z.pow_add_r in Hb100 by lia.
    pose proof (Z.pow_pos_nonneg 2 (e' - E) ltac:(lia) ltac:(lia)). nia. }
  split; [|done]. unfold double_to_int, dtrunc. rewrite (proj2 (Z.leb_gt 0 e')) by lia. rewrite decide_True; [done|]. unfold in_int, int_min, int_max. lia.
Qed.

(** ** Comparing a quotient of counters with zero *)

Lemma dpos_gt0 x : dpos x -> dlt d0 x = true /\ deq x d0 = false.
Proof. by destruct x as [| | |[]]. Qed.

Lemma ddiv_zero b : 0 < b < 2 ^ 53 -> ddiv (double_of_Z 0) (double_of_Z b) = d0.
Proof.
  intros Hb. destruct (of_pos 53 1024 eq_refl ltac:(lia) b Hb) as (m & k & E & _).
  unfold ddiv, double_of_Z. unfold of_Z in E. by rewrite E.
Qed.

#[export] Hint Resolve ddiv_pos ddiv_zero ddiv_le_one : cres.
