(* ===== verification/Hashset.v ===== *)
(** * The hash set of addresses (src/hashset/hashset.c, hashset_itr.c)

    An open-addressing set of non-zero, non-one [size_t] values: slot 0 is
    empty, slot 1 is a deleted entry.  The engine uses it to count the tests
    that kill the first-order mutants of a higher-order mutant.

    [Module Hashset] models hashset.c operation by operation, with the probe
    loops bounded by the capacity (the probe sequence visits every slot once in
    that many steps, see [slot_onto]; a loop that exhausts the bound never
    ends, see [find_loop_hangs]).  [wf] is the representation invariant and
    [elems] the abstraction to a finite set.  [Module HashsetItr] models the
    iterator. *)

From S2P Require Import Prelude Double.
From Stdlib Require Import SpecFloat.

Module Hashset.

Definition prime_1 : Z := 73.
Definition prime_2 : Z := 5009.

Record hashset_st := mk_hashset {
  nbits : Z;
  mask : Z;
  capacity : Z;
  items : list Z;
  nitems : Z
}.

(** [1 << n] in [int]. *)
Definition shl1_int (n : Z) : res Z := if decide (0 <= n < 31) then Ok (2 ^ n) else Undef.

Section allocation.
(** Whether an allocation of a number of bytes succeeds. *)
Context (calloc_ok : Z -> bool).

Definition sizeof_hashset_st : Z := 40.
Definition sizeof_size_t : Z := 8.

Definition hashset_create : option hashset_st :=
  if calloc_ok sizeof_hashset_st then
    let nbits := 3 in
    let capacity := 2 ^ nbits in
    let mask := capacity - 1 in
    if calloc_ok (capacity * sizeof_size_t) then
      Some (mk_hashset nbits mask capacity (replicate (Z.to_nat capacity) 0) 0)
    else None
  else None.

Definition hashset_num_items (set : hashset_st) : Z := nitems set.

(** The probe loop of [hashset_add_member]: [Ok (true, ii)] when slot [ii]
    holds the value, [Ok (false, ii)] when [ii] is the first free slot. *)
Fixpoint add_loop (fuel : nat) (set : hashset_st) (value ii : Z) : res (bool * Z) :=
  match fuel with
  | O => OutOfFuel
  | S fuel =>
      x ← load (items set) ii;
      if negb (x =? 0) && negb (x =? 1) then
        if x =? value then Ok (true, ii)
        else add_loop fuel set value (Z.land (mask set) (wrap_size (ii + prime_2)))
      else Ok (false, ii)
  end.

Definition hashset_add_member (set : hashset_st) (item : Z) : res (Z * hashset_st) :=
  let value := item in
  if (value =? 0) || (value =? 1) then Ok (-1, set)
  else
    let ii := Z.land (mask set) (wrap_size (prime_1 * value)) in
    '(found, ii) ← add_loop (Z.to_nat (capacity set)) set value ii;
    if found : bool then Ok (0, set)
    else
      items' ← store (items set) ii value;
      Ok (1, mk_hashset (nbits set) (mask set) (capacity set) items'
               (wrap_size (nitems set + 1))).

(** The insertion of the old slots into the new table. *)
Fixpoint rehash_loop (old : list Z) (set : hashset_st) : res hashset_st :=
  match old with
  | [] => Ok set
  | x :: old =>
      '(_, set) ← hashset_add_member set x;
      rehash_loop old set
  end.

(** [(size_t) ((double) capacity * 0.85)] *)
Definition load_limit (capacity : Z) : option Z :=
  dtrunc (dmul (double_of_Z capacity) (S754_finite false 7656119366529843 (-53))).

Definition maybe_rehash (set : hashset_st) : res hashset_st :=
  match load_limit (capacity set) with
  | None => Undef
  | Some limit =>
      if float_of_size limit <=? float_of_size (nitems set) then
        let old_items := items set in
        let nbits' := wrap_size (nbits set + 1) in
        capacity' ← shl1_int nbits';
        if calloc_ok (capacity' * sizeof_size_t) then
          rehash_loop old_items
            (mk_hashset nbits' (capacity' - 1) capacity' (replicate (Z.to_nat capacity') 0) 0)
        else Exit 134
      else Ok set
  end.

Definition hashset_add (set : hashset_st) (item : Z) : res (Z * hashset_st) :=
  '(rv, set) ← hashset_add_member set item;
  set ← maybe_rehash set;
  Ok (rv, set).

(** The probe loop of [hashset_remove] and [hashset_is_member]: the slot of the
    value, or [None] at the first empty slot. *)
Fixpoint find_loop (fuel : nat) (set : hashset_st) (value ii : Z) : res (option Z) :=
  match fuel with
  | O => OutOfFuel
  | S fuel =>
      x ← load (items set) ii;
      if negb (x =? 0) then
        if x =? value then Ok (Some ii)
        else find_loop fuel set value (Z.land (mask set) (wrap_size (ii + prime_2)))
      else Ok None
  end.

Definition hashset_remove (set : hashset_st) (item : Z) : res (Z * hashset_st) :=
  let value := item in
  let ii := Z.land (mask set) (wrap_size (prime_1 * value)) in
  found ← find_loop (Z.to_nat (capacity set)) set value ii;
  match found with
  | Some ii =>
      items' ← store (items set) ii 1;
      Ok (1, mk_hashset (nbits set) (mask set) (capacity set) items'
               (wrap_size (nitems set - 1)))
  | None => Ok (0, set)
  end.

Definition hashset_is_member (set : hashset_st) (item : Z) : res Z :=
  let value := item in
  let ii := Z.land (mask set) (wrap_size (prime_1 * value)) in
  found ← find_loop (Z.to_nat (capacity set)) set value ii;
  match found with
  | Some _ => Ok 1
  | None => Ok 0
  end.

(** A sequence of insertions, as the engine performs them. *)
Fixpoint hashset_add_all (set : hashset_st) (values : list Z) : res hashset_st :=
  match values with
  | [] => Ok set
  | v :: values => '(_, set) ← hashset_add set v; hashset_add_all set values
  end.

End allocation.

(** ** Representation invariant and abstraction *)

(** A slot that holds a value. *)
Definition live (x : Z) : Prop := x <> 0 /\ x <> 1.
#[global] Instance live_dec x : Decision (live x).
Proof. unfold live. apply _. Defined.

Definition lives (l : list Z) : list Z := filter live l.
Definition elems (s : hashset_st) : gset Z := list_to_set (lives (items s)).

(** The [j]-th slot the loops look at for a value. *)
Definition slot (k v j : Z) : Z := (prime_1 * v + prime_2 * j) mod 2 ^ k.

(** Every slot before the [j]-th one of the value's probe sequence is in use. *)
Definition path (k : Z) (l : list Z) (v j : Z) : Prop :=
  forall j', 0 <= j' < j -> l !! Z.to_nat (slot k v j') <> Some 0.

Record wf (s : hashset_st) : Prop := {
  wf_nbits : 3 <= nbits s <= 30;
  wf_capacity : capacity s = 2 ^ nbits s;
  wf_mask : mask s = capacity s - 1;
  wf_length : length (items s) = Z.to_nat (capacity s);
  wf_nitems : nitems s = Z.of_nat (length (lives (items s)));
  wf_room : nitems s < capacity s;
  wf_reach : forall i v, items s !! i = Some v -> live v ->
    exists j, 0 <= j < capacity s /\ Z.to_nat (slot (nbits s) v j) = i /\
      path (nbits s) (items s) v j
}.

(** No deleted entry, and no value stored twice. *)
Definition clean (s : hashset_st) : Prop := 1 ∉ items s.
Definition nodup (s : hashset_st) : Prop := NoDup (lives (items s)).

(** ** The probe sequence *)

Lemma slot_range k v j : 0 <= k -> 0 <= slot k v j < 2 ^ k.
Proof. intros Hk. apply Z.mod_pos_bound. apply Z.pow_pos_nonneg; lia. Qed.

(** The first slot and the step of the loops. *)
Lemma slot_start k v :
  0 <= k <= 64 -> Z.land (2 ^ k - 1) (wrap_size (prime_1 * v)) = slot k v 0.
Proof. intros Hk. rewrite land_mask_wrap by done. unfold slot. f_equal. lia. Qed.

Lemma slot_next k v j :
  0 <= k <= 64 ->
  Z.land (2 ^ k - 1) (wrap_size (slot k v j + prime_2)) = slot k v (j + 1).
Proof.
  intros Hk. rewrite land_mask_wrap by done. unfold slot.
  rewrite Z.add_mod_idemp_l by (pose proof (Z.pow_pos_nonneg 2 k); lia). f_equal. lia.
Qed.

(** [prime_2] is odd, so the probe sequence of any value visits every slot
    within [2 ^ k] steps. *)
Lemma slot_onto k v i :
  0 <= k -> 0 <= i < 2 ^ k -> exists j, 0 <= j < 2 ^ k /\ slot k v j = i.
Proof.
  intros Hk Hi.
  assert (Z.Bezout prime_2 (2 ^ k) 1) as (a & b & Hab).
  { apply Z.Bezout_coprime, Z.coprime_pow_r; [lia|]. reflexivity. }
  assert (0 < 2 ^ k) by lia.
  exists ((a * (i - prime_1 * v)) mod 2 ^ k). split; [by apply Z.mod_pos_bound|].
  unfold slot. rewrite Z.add_mod, Z.mul_mod_idemp_r, <- Z.add_mod by lia.
  replace (prime_1 * v + prime_2 * (a * (i - prime_1 * v)))
    with (i + (b * (prime_1 * v - i)) * 2 ^ k) by (unfold prime_1, prime_2 in *; nia).
  rewrite Z.mod_add by lia. by apply Z.mod_small.
Qed.

(** ** The load limit *)

(** The double product truncates to 85% of every capacity the table can have. *)
Lemma load_limit_spec k :
  3 <= k <= 30 -> load_limit (2 ^ k) = Some (2 ^ k * 17 / 20).
Proof.
  intros Hk.
  assert (forallb (fun k => bool_decide (load_limit (2 ^ k) = Some (2 ^ k * 17 / 20)))
            (seqZ 3 28) = true) as Hall by (vm_compute; reflexivity).
  rewrite forallb_forall in Hall.
  apply (bool_decide_eq_true_1 _), Hall. apply list_elem_of_In, elem_of_seqZ. lia.
Qed.

(** ** The slots as a multiset *)

#[global] Instance lives_proper : Proper ((≡ₚ) ==> (≡ₚ)) lives.
Proof. intros l1 l2 E. unfold lives. by rewrite E. Qed.

Lemma lives_cons_live x l : live x -> lives (x :: l) = x :: lives l.
Proof. apply filter_cons_True. Qed.

Lemma lives_cons_free x l : ~ live x -> lives (x :: l) = lives l.
Proof. apply filter_cons_False. Qed.

Lemma lives_free l i x v :
  l !! i = Some x -> ~ live x -> live v -> lives (<[i := v]> l) ≡ₚ v :: lives l.
Proof.
  intros Hl Hx Hv. destruct (insert_split l i x v Hl) as [E1 E2].
  apply lives_proper in E1, E2. rewrite E1, E2.
  by rewrite lives_cons_live, lives_cons_free.
Qed.

Lemma lives_delete l i v :
  l !! i = Some v -> live v -> lives l ≡ₚ v :: lives (<[i := 1]> l).
Proof.
  intros Hl Hv. destruct (insert_split l i v 1 Hl) as [E1 E2].
  apply lives_proper in E1, E2. rewrite E1, E2.
  rewrite lives_cons_live, lives_cons_free; [done| |done]. by intros [].
Qed.

Lemma elem_of_lives l v : v ∈ lives l <-> live v /\ v ∈ l.
Proof. unfold lives. by rewrite list_elem_of_filter. Qed.

Lemma elem_of_elems s v : v ∈ elems s <-> live v /\ v ∈ items s.
Proof. unfold elems. by rewrite elem_of_list_to_set, elem_of_lives. Qed.

(** A table with fewer values than slots has a free slot. *)
Lemma free_slot_exists l :
  (length (lives l) < length l)%nat -> exists i x, l !! i = Some x /\ ~ live x.
Proof.
  induction l as [|x l IH]; simpl; [lia|]. unfold lives. intros H.
  destruct (decide (live x)) as [Hx|Hx].
  - rewrite filter_cons_True in H by done. simpl in H.
    destruct IH as (i & y & Hy); [unfold lives; lia|]. by exists (S i), y.
  - by exists O, x.
Qed.

(** ** The loops *)

Section loops.
Context (s : hashset_st) (Hwf : wf s).
#[local] Abbreviation k := (nbits s).

Lemma slot_lookup v j :
  exists x, load (items s) (slot k v j) = Ok x /\ items s !! Z.to_nat (slot k v j) = Some x.
Proof.
  destruct Hwf. pose proof (slot_range k v j). apply load_in_range.
  rewrite wf_length0. lia.
Qed.

Lemma mask_next v j : Z.land (mask s) (wrap_size (slot k v j + prime_2)) = slot k v (j + 1).
Proof. destruct Hwf. rewrite wf_mask0, wf_capacity0. apply slot_next. lia. Qed.

Lemma mask_start v : Z.land (mask s) (wrap_size (prime_1 * v)) = slot k v 0.
Proof. destruct Hwf. rewrite wf_mask0, wf_capacity0. apply slot_start. lia. Qed.

(** The insertion loop stops at the first slot that is free or holds the
    value. *)
Lemma add_loop_stops v n d j :
  (d < n)%nat ->
  (forall j', j <= j' < j + Z.of_nat d ->
     exists x, items s !! Z.to_nat (slot k v j') = Some x /\ live x /\ x <> v) ->
  (exists x, items s !! Z.to_nat (slot k v (j + Z.of_nat d)) = Some x /\ (~ live x \/ x = v)) ->
  exists x, items s !! Z.to_nat (slot k v (j + Z.of_nat d)) = Some x /\
    add_loop n s v (slot k v j) = Ok (bool_decide (live x), slot k v (j + Z.of_nat d)).
Proof.
  revert d j. induction n as [|n IH]; intros d j Hd Hbefore (y & Hy & Hstop); [lia|].
  exists y. split; [done|]. simpl.
  destruct (slot_lookup v j) as (x & -> & Hx). simpl.
  destruct d as [|d].
  - rewrite Z.add_0_r in *. rewrite Hx in Hy. injection Hy as ->. unfold live in *.
    destruct (Z.eqb_spec y 0), (Z.eqb_spec y 1); simpl;
      try (rewrite bool_decide_false by tauto; done).
    rewrite bool_decide_true by done. destruct (Z.eqb_spec y v); [done|tauto].
  - destruct (Hbefore j ltac:(lia)) as (x' & Hx' & Hlive & Hne).
    rewrite Hx in Hx'. injection Hx' as <-. unfold live in Hlive.
    destruct (Z.eqb_spec x 0), (Z.eqb_spec x 1), (Z.eqb_spec x v); try tauto; simpl.
    rewrite mask_next. replace (j + Z.of_nat (S d)) with ((j + 1) + Z.of_nat d) in * by lia.
    destruct (IH d (j + 1)) as (z & Hz & ->); [lia| |by eauto|].
    + intros j' Hj'. apply Hbefore. lia.
    + rewrite Hz in Hy. by injection Hy as ->.
Qed.

(** The first slot of a probe sequence with a decidable property, if any. *)
Lemma first_slot (P : Z -> Prop) `{forall x, Decision (P x)} v n :
  (exists d x, (d < n)%nat /\ items s !! Z.to_nat (slot k v (Z.of_nat d)) = Some x /\ P x /\
    forall j', 0 <= j' < Z.of_nat d ->
      exists x, items s !! Z.to_nat (slot k v j') = Some x /\ ~ P x) \/
  (forall j', 0 <= j' < Z.of_nat n ->
      exists x, items s !! Z.to_nat (slot k v j') = Some x /\ ~ P x).
Proof.
  induction n as [|n [(d & x & Hd & Hx)|IH]]; [right; lia| |].
  - left. exists d, x. split; [lia|done].
  - destruct (slot_lookup v (Z.of_nat n)) as (x & _ & Hx).
    destruct (decide (P x)) as [HP|HP].
    + left. exists n, x. split; [lia|done].
    + right. intros j' Hj'. destruct (decide (j' = Z.of_nat n)) as [->|]; [by exists x|].
      apply IH. lia.
Qed.

(** The insertion loop, whole: it finds the value, or the first free slot of
    a path on which the value is not. *)
Lemma add_loop_spec v :
  live v ->
  exists j x, 0 <= j < capacity s /\ items s !! Z.to_nat (slot k v j) = Some x /\
    add_loop (Z.to_nat (capacity s)) s v (slot k v 0) = Ok (bool_decide (live x), slot k v j) /\
    (live x -> x = v) /\
    forall j', 0 <= j' < j ->
      exists y, items s !! Z.to_nat (slot k v j') = Some y /\ live y /\ y <> v.
Proof.
  intros Hv. pose proof Hwf as [].
  destruct (first_slot (fun x => ~ live x \/ x = v) v (Z.to_nat (capacity s)))
    as [(d & x & Hd & Hx & HP & Hb)|Hnone].
  - destruct (add_loop_stops v (Z.to_nat (capacity s)) d 0) as (y & Hy & E); rewrite ?Z.add_0_l.
    + lia.
    + intros j' Hj'. destruct (Hb j' ltac:(lia)) as (y & Hy & Hn). exists y.
      split; [done|]. destruct (decide (live y)); [|tauto]. split; [done|tauto].
    + by exists x.
    + rewrite Z.add_0_l in *. rewrite Hx in Hy. injection Hy as <-.
      exists (Z.of_nat d), x. split; [lia|]. split; [done|]. split; [done|]. split; [tauto|].
      intros j' Hj'. destruct (Hb j' ltac:(lia)) as (y & Hy & Hn). exists y.
      split; [done|]. destruct (decide (live y)); [|tauto]. split; [done|tauto].
  - exfalso. destruct (free_slot_exists (items s)) as (i & x & Hx & Hfree); [lia|].
    apply lookup_lt_Some in Hx as Hlt.
    destruct (slot_onto k v (Z.of_nat i)) as (j & Hj & Hij); [lia..|].
    destruct (Hnone j ltac:(lia)) as (y & Hy & Hn). rewrite Hij, Nat2Z.id in Hy.
    rewrite Hx in Hy. injection Hy as <-. tauto.
Qed.

(** The search loop stops at the first slot that is empty or holds the
    value; it runs out of steps when there is no such slot within them. *)
Lemma find_loop_stops v n d j :
  (d < n)%nat ->
  (forall j', j <= j' < j + Z.of_nat d ->
     exists x, items s !! Z.to_nat (slot k v j') = Some x /\ ~ (x = 0 \/ x = v)) ->
  forall x, items s !! Z.to_nat (slot k v (j + Z.of_nat d)) = Some x -> x = 0 \/ x = v ->
  find_loop n s v (slot k v j) =
    Ok (if decide (x = 0) then None else Some (slot k v (j + Z.of_nat d))).
Proof.
  revert d j. induction n as [|n IH]; intros d j Hd Hb y Hy Hstop; [lia|].
  simpl. destruct (slot_lookup v j) as (x & -> & Hx). simpl. destruct d as [|d].
  - rewrite Z.add_0_r in *. rewrite Hx in Hy. injection Hy as ->.
    destruct (Z.eqb_spec y 0), (decide (y = 0)); try done; simpl.
    destruct (Z.eqb_spec y v); [done|tauto].
  - destruct (Hb j ltac:(lia)) as (x' & Hx' & Hne). rewrite Hx in Hx'. injection Hx' as <-.
    destruct (Z.eqb_spec x 0), (Z.eqb_spec x v); try tauto; simpl.
    rewrite mask_next. replace (j + Z.of_nat (S d)) with ((j + 1) + Z.of_nat d) in * by lia.
    apply IH; [lia| |done..]. intros j' Hj'. apply Hb. lia.
Qed.

Lemma find_loop_fuel v n j :
  (forall j', j <= j' < j + Z.of_nat n ->
     exists x, items s !! Z.to_nat (slot k v j') = Some x /\ ~ (x = 0 \/ x = v)) ->
  find_loop n s v (slot k v j) = OutOfFuel.
Proof.
  revert j. induction n as [|n IH]; intros j Hb; [done|]. simpl.
  destruct (slot_lookup v j) as (x & -> & Hx). simpl.
  destruct (Hb j ltac:(lia)) as (x' & Hx' & Hne). rewrite Hx in Hx'. injection Hx' as <-.
  destruct (Z.eqb_spec x 0), (Z.eqb_spec x v); try tauto; simpl.
  rewrite mask_next. apply IH. intros j' Hj'. apply Hb. lia.
Qed.

(** A stored value is found. *)
Lemma find_loop_member v :
  live v -> v ∈ items s ->
  exists j, 0 <= j < capacity s /\ items s !! Z.to_nat (slot k v j) = Some v /\
    find_loop (Z.to_nat (capacity s)) s v (slot k v 0) = Ok (Some (slot k v j)).
Proof.
  intros Hv (i & Hi)%list_elem_of_lookup. destruct Hwf.
  destruct (wf_reach0 i v Hi Hv) as (j & Hj & Hij & Hpath).
  destruct (first_slot (fun x => x = 0 \/ x = v) v (Z.to_nat (capacity s)))
    as [(d & x & Hd & Hx & HP & Hb)|Hnone].
  - pose proof (find_loop_stops v (Z.to_nat (capacity s)) d 0) as E.
    rewrite Z.add_0_l in E. rewrite (E Hd Hb x Hx HP).
    assert (x <> 0) as Hx0.
    { intros ->. destruct (decide (Z.of_nat d < j)) as [Hlt|Hge].
      - by apply (Hpath (Z.of_nat d)); [lia|].
      - destruct (decide (Z.of_nat d = j)) as [Hdj|Hdj].
        + rewrite Hdj, Hij, Hi in Hx. injection Hx as ->. by destruct Hv.
        + destruct (Hb j ltac:(lia)) as (y & Hy & Hn). rewrite Hij, Hi in Hy.
          injection Hy as <-. tauto. }
    destruct (decide (x = 0)); [done|]. destruct HP as [| ->]; [done|].
    exists (Z.of_nat d). split; [lia|]. done.
  - destruct (Hnone j ltac:(lia)) as (y & Hy & Hn). rewrite Hij, Hi in Hy.
    injection Hy as <-. tauto.
Qed.

(** An absent value is reported absent as long as one slot is empty. *)
Lemma find_loop_absent v :
  v ∉ items s -> 0 ∈ items s ->
  find_loop (Z.to_nat (capacity s)) s v (slot k v 0) = Ok None.
Proof.
  intros Hv (i & Hi)%list_elem_of_lookup. destruct Hwf.
  apply lookup_lt_Some in Hi as Hlt.
  destruct (slot_onto k v (Z.of_nat i)) as (j & Hj & Hij); [lia..|].
  destruct (first_slot (fun x => x = 0 \/ x = v) v (Z.to_nat (capacity s)))
    as [(d & x & Hd & Hx & HP & Hb)|Hnone].
  - pose proof (find_loop_stops v (Z.to_nat (capacity s)) d 0) as E.
    rewrite Z.add_0_l in E. rewrite (E Hd Hb x Hx HP).
    destruct HP as [->| ->]; [done|]. by apply list_elem_of_lookup_2 in Hx.
  - destruct (Hnone j ltac:(lia)) as (y & Hy & Hn). rewrite Hij, Nat2Z.id, Hi in Hy.
    injection Hy as <-. tauto.
Qed.
End loops.

(** ** Single insertions *)

Lemma path_insert k l v j i y : y <> 0 -> path k l v j -> path k (<[i := y]> l) v j.
Proof.
  intros Hy Hp j' Hj'. specialize (Hp j' Hj'). rewrite list_lookup_insert.
  case_decide; [|done]. congruence.
Qed.

(** Writing a non-empty mark into a slot keeps the other values reachable. *)
Lemma reach_insert s i y :
  wf s -> y <> 0 ->
  forall i' w, i' <> i -> <[i := y]> (items s) !! i' = Some w -> live w ->
  exists j, 0 <= j < capacity s /\ Z.to_nat (slot (nbits s) w j) = i' /\
    path (nbits s) (<[i := y]> (items s)) w j.
Proof.
  intros [] Hy i' w Hne Hw Hlive. rewrite list_lookup_insert_ne in Hw by done.
  destruct (wf_reach0 i' w Hw Hlive) as (j & Hj & Hij & Hp).
  exists j. eauto using path_insert.
Qed.

Lemma add_member_spec s v :
  wf s -> nitems s + 1 < capacity s -> live v ->
  exists rv s', hashset_add_member s v = Ok (rv, s') /\
    ((rv = 0 /\ s' = s /\ v ∈ items s) \/
     (rv = 1 /\ wf s' /\ nbits s' = nbits s /\ nitems s' = nitems s + 1 /\
      lives (items s') ≡ₚ v :: lives (items s) /\
      (clean s -> clean s' /\ v ∉ items s))).
Proof.
  intros Hwf Hroom Hv. pose proof Hwf as [].
  destruct (add_loop_spec s Hwf v Hv) as (j & x & Hj & Hx & Hloop & Hxv & Hb).
  unfold hashset_add_member. destruct Hv as [Hv0 Hv1].
  destruct (Z.eqb_spec v 0), (Z.eqb_spec v 1); [done..|]. simpl.
  rewrite mask_start, Hloop by done. simpl.
  destruct (decide (live x)) as [Hlive|Hfree].
  { rewrite bool_decide_true by done. eexists _, _. split; [done|]. left.
    split_and!; [done..|]. rewrite <- (Hxv Hlive). by eapply list_elem_of_lookup_2. }
  rewrite bool_decide_false by done.
  pose proof (slot_range (nbits s) v j ltac:(lia)) as Hsl.
  rewrite store_ok by lia. simpl. eexists _, _. split; [done|]. right.
  assert (lives (<[Z.to_nat (slot (nbits s) v j):=v]> (items s)) ≡ₚ v :: lives (items s)) as Hperm
    by (by eapply lives_free).
  rewrite wrap_size_id by (pose proof (Z.pow_le_mono_r 2 (nbits s) 30); lia).
  split_and!; [done| |done..|].
  - split; simpl; rewrite ?length_insert; try done.
    + rewrite Hperm. simpl. lia.
    + intros i w Hw Hlive. destruct (decide (i = Z.to_nat (slot (nbits s) v j))) as [->|Hne].
      * rewrite list_lookup_insert_eq in Hw by lia. injection Hw as <-.
        exists j. split_and!; [lia..|]. apply path_insert; [done|].
        intros j' Hj'. destruct (Hb j' ltac:(lia)) as (y & -> & [? ?] & _). congruence.
      * by apply (reach_insert s _ v Hwf).
  - intros Hclean. unfold clean in *. simpl. split.
    + intros Hin%list_elem_of_In. apply list_elem_of_In, list_elem_of_lookup in Hin as (i & Hi).
      rewrite list_lookup_insert in Hi. case_decide; [congruence|].
      by apply list_elem_of_lookup_2 in Hi.
    + intros (i & Hi)%list_elem_of_lookup.
      destruct (wf_reach0 i v Hi ltac:(done)) as (j0 & Hj0 & Hij & Hp).
      assert (x = 0) as ->.
      { destruct (decide (x = 0)); [done|]. exfalso. apply Hclean.
        apply list_elem_of_lookup_2 in Hx. destruct (decide (x = 1)) as [->|]; [done|].
        by exfalso; apply Hfree. }
      destruct (Z.lt_trichotomy j0 j) as [Hlt|[->|Hgt]].
      * destruct (Hb j0 ltac:(lia)) as (y & Hy & _ & Hne). rewrite Hij, Hi in Hy. congruence.
      * rewrite Hij, Hi in Hx. congruence.
      * apply (Hp j); [lia|done].
Qed.

Lemma nodup_size s : wf s -> nodup s -> nitems s = Z.of_nat (size (elems s)).
Proof. intros [] Hnd. unfold elems. by rewrite size_list_to_set. Qed.

Lemma add_member_elems s s' v :
  live v -> lives (items s') ≡ₚ v :: lives (items s) -> elems s' = {[v]} ∪ elems s.
Proof.
  intros Hv Hp. apply set_eq. intros w.
  rewrite elem_of_union, elem_of_singleton. unfold elems.
  rewrite !elem_of_list_to_set, Hp. by rewrite elem_of_cons.
Qed.

Lemma add_member_nodup s s' v :
  nodup s -> v ∉ items s -> lives (items s') ≡ₚ v :: lives (items s) -> nodup s'.
Proof.
  intros Hnd Hv Hp. unfold nodup in *. rewrite Hp. constructor; [|done].
  rewrite elem_of_lives. tauto.
Qed.

(** ** Rehashing *)

(** Re-inserting slots into a table without deleted entries. *)
Lemma rehash_loop_spec l s :
  wf s -> clean s -> nodup s -> nitems s + Z.of_nat (length (lives l)) < capacity s ->
  exists s', rehash_loop l s = Ok s' /\ wf s' /\ clean s' /\ nodup s' /\ nbits s' = nbits s /\
    elems s' = elems s ∪ list_to_set (lives l) /\
    nitems s' <= nitems s + Z.of_nat (length (lives l)).
Proof.
  revert s. induction l as [|x l IH]; intros s Hwf Hclean Hnd Hroom.
  { exists s. simpl in *. split_and!; [done..| |lia]. by rewrite (right_id_L ∅ (∪)). }
  simpl. destruct (decide (live x)) as [Hx|Hx].
  - rewrite lives_cons_live in * by done. simpl in *.
    destruct (add_member_spec s x Hwf ltac:(lia) Hx) as (rv & s' & -> & Hcase). simpl.
    assert (wf s' /\ clean s' /\ nodup s' /\ nbits s' = nbits s /\
            elems s' = {[x]} ∪ elems s /\ nitems s' <= nitems s + 1) as (? & ? & ? & Hb & He & ?).
    { destruct Hcase as [(_ & -> & Hin)|(_ & ? & ? & ? & Hp & Hc)].
      - split_and!; try done; [|lia]. apply set_eq. intros w.
        rewrite elem_of_union, elem_of_singleton. split; [tauto|].
        intros [->|]; [|done]. by apply elem_of_elems.
      - destruct (Hc Hclean) as [? ?]. split_and!; [done|done| |done| |lia].
        + by eapply add_member_nodup.
        + by eapply add_member_elems. }
    destruct (IH s') as (s'' & -> & ? & ? & ? & ? & He'' & ?); [done..| |].
    { rewrite (wf_capacity s') by done. rewrite Hb, <- (wf_capacity s Hwf). lia. }
    exists s''. split_and!; [done..|congruence| |lia].
    rewrite He'', He. clear. set_solver.
  - rewrite lives_cons_free in * by done.
    assert (hashset_add_member s x = Ok (-1, s)) as ->.
    { unfold hashset_add_member. destruct (Z.eqb_spec x 0), (Z.eqb_spec x 1); try done.
      by exfalso; apply Hx. }
    simpl. by apply IH.
Qed.

(** The load invariant the operations keep. *)
Definition below_limit (s : hashset_st) : Prop := nitems s < 2 ^ nbits s * 17 / 20.
Definition inv (s : hashset_st) : Prop := wf s /\ below_limit s.

Lemma empty_table_wf k :
  3 <= k <= 30 ->
  let s := mk_hashset k (2 ^ k - 1) (2 ^ k) (replicate (Z.to_nat (2 ^ k)) 0) 0 in
  wf s /\ clean s /\ nodup s /\ elems s = ∅.
Proof.
  intros Hk s. assert (lives (replicate (Z.to_nat (2 ^ k)) 0) = []) as Hl.
  { generalize (Z.to_nat (2 ^ k)). induction n as [|n IH]; [done|].
    simpl. rewrite lives_cons_free; [done|]. by intros []. }
  pose proof (Z.pow_pos_nonneg 2 k).
  assert (forall i w, replicate (Z.to_nat (2 ^ k)) 0 !! i = Some w -> w = 0) as H0.
  { by intros i w [-> _]%lookup_replicate. }
  split_and!.
  - split; simpl; rewrite ?length_replicate, ?Hl; try done; [lia|].
    intros i w Hw [Hlive _]. by apply H0 in Hw.
  - intros (i & Hi)%list_elem_of_lookup. by apply H0 in Hi.
  - unfold nodup. simpl. rewrite Hl. constructor.
  - unfold elems. simpl. by rewrite Hl.
Qed.

Section operations.
Context (calloc_ok : Z -> bool) (Hcalloc : forall n, calloc_ok n = true).

Lemma maybe_rehash_spec s :
  wf s -> nitems s <= 2 ^ nbits s * 17 / 20 -> nitems s <= 2 ^ 29 ->
  exists s', maybe_rehash calloc_ok s = Ok s' /\ inv s' /\ elems s' = elems s /\
    nitems s' <= nitems s /\ (s' = s \/ (clean s' /\ nodup s')).
Proof.
  intros Hwf Hle Hsmall. pose proof Hwf as []. unfold maybe_rehash.
  rewrite wf_capacity0, load_limit_spec by done.
  destruct (Z.leb_spec (float_of_size (2 ^ nbits s * 17 / 20)) (float_of_size (nitems s)))
    as [Hge|Hlt].
  - assert (nbits s <= 29) as Hn.
    { destruct (decide (nbits s = 30)) as [E|]; [|lia]. exfalso. rewrite E in Hge.
      pose proof (round_sig_mono 24 eq_refl (nitems s) (2 ^ 29) ltac:(lia)) as Hmono.
      unfold float_of_size in *.
      assert (round_sig 24 (2 ^ 29) < round_sig 24 (2 ^ 30 * 17 / 20)) by (vm_compute; done).
      lia. }
    rewrite wrap_size_id by lia. unfold shl1_int. rewrite decide_True by lia. simpl.
    rewrite Hcalloc.
    destruct (empty_table_wf (nbits s + 1) ltac:(lia)) as (? & ? & ? & He).
    assert (2 ^ 3 <= 2 ^ nbits s) by (apply Z.pow_le_mono_r; lia).
    assert (2 ^ (nbits s + 1) = 2 * 2 ^ nbits s) as Epow by (rewrite Z.pow_add_r; lia).
    assert (2 ^ nbits s * 17 / 20 < 2 ^ (nbits s + 1) * 17 / 20) as Hgrow.
    { apply Z.div_lt_upper_bound; [lia|].
      pose proof (Z.mod_pos_bound (2 ^ (nbits s + 1) * 17) 20 eq_refl).
      pose proof (Z.div_mod (2 ^ (nbits s + 1) * 17) 20). lia. }
    edestruct (rehash_loop_spec (items s)) as (s' & -> & ? & ? & ? & Hb & He' & ?); [done..| |].
    { simpl. rewrite Epow. pose proof (Z.div_lt_upper_bound (2 ^ nbits s * 17) 20 (2 ^ nbits s)). lia. }
    simpl in *. exists s'. split; [done|]. split_and!; [split; [done|]|..].
    + unfold below_limit. rewrite Hb. lia.
    + rewrite He', He. by rewrite (left_id_L ∅ (∪)).
    + lia.
    + by right.
  - exists s. split; [done|]. split_and!; [|done|lia|by left]. split; [done|].
    unfold below_limit. destruct (Z.lt_ge_cases (nitems s) (2 ^ nbits s * 17 / 20)) as [|Hge]; [done|].
    pose proof (round_sig_mono 24 eq_refl (2 ^ nbits s * 17 / 20) (nitems s)) as Hmono.
    unfold float_of_size in *. pose proof (Z.pow_pos_nonneg 2 (nbits s)).
    pose proof (Z.div_pos (2 ^ nbits s * 17) 20). lia.
Qed.

Lemma inv_room s : inv s -> nitems s + 1 <= 2 ^ nbits s * 17 / 20 < capacity s.
Proof.
  intros [[] Hbelow]. unfold below_limit in Hbelow. rewrite wf_capacity0.
  pose proof (Z.pow_pos_nonneg 2 (nbits s)). split; [lia|].
  apply Z.div_lt_upper_bound; lia.
Qed.

(** An insertion, on any state the operations reach. *)
Lemma hashset_add_gen s v :
  inv s -> nitems s < 2 ^ 29 -> live v ->
  exists rv s', hashset_add calloc_ok s v = Ok (rv, s') /\ inv s' /\
    elems s' = {[v]} ∪ elems s /\ nitems s' <= nitems s + 1 /\
    (clean s -> nodup s -> clean s' /\ nodup s' /\ rv = if decide (v ∈ elems s) then 0 else 1).
Proof.
  intros Hinv Hsmall Hv. pose proof (inv_room s Hinv) as Hroom. destruct Hinv as [Hwf Hbelow].
  unfold hashset_add.
  destruct (add_member_spec s v Hwf ltac:(lia) Hv) as (rv & s1 & -> & Hcase). simpl.
  assert (wf s1 /\ nbits s1 = nbits s /\ nitems s1 <= nitems s + 1 /\
    elems s1 = {[v]} ∪ elems s /\
    (clean s -> nodup s -> clean s1 /\ nodup s1 /\ rv = if decide (v ∈ elems s) then 0 else 1))
    as (Hwf1 & Hb1 & Hn1 & He1 & Hc1).
  { destruct Hcase as [(-> & -> & Hin)|(-> & ? & ? & ? & Hp & Hc)].
    - assert (v ∈ elems s) by (by apply elem_of_elems). split_and!; [done..|lia|set_solver|].
      intros. by rewrite decide_True.
    - split_and!; [done..|lia|by apply add_member_elems|]. intros Hcl Hnd.
      destruct (Hc Hcl) as [? Hni]. split_and!; [done|by eapply add_member_nodup|].
      rewrite decide_False; [done|]. rewrite elem_of_elems. tauto. }
  destruct (maybe_rehash_spec s1 Hwf1) as (s2 & -> & Hinv2 & He2 & Hn2 & Hsame);
    [rewrite Hb1; lia|lia|].
  simpl. exists rv, s2. split_and!; [done..|by rewrite He2|lia|].
  intros Hcl Hnd. destruct (Hc1 Hcl Hnd) as (? & ? & ?).
  by destruct Hsame as [->|[? ?]].
Qed.

(** Inserting the two reserved values is refused. *)
Lemma hashset_add_reserved s v :
  inv s -> nitems s < 2 ^ 29 -> ~ live v ->
  exists s', hashset_add calloc_ok s v = Ok (-1, s') /\ inv s' /\ elems s' = elems s /\
    nitems s' <= nitems s /\ (clean s -> nodup s -> clean s' /\ nodup s').
Proof.
  intros Hinv Hsmall Hv. pose proof (inv_room s Hinv). destruct Hinv as [Hwf ?].
  unfold hashset_add, hashset_add_member.
  assert ((v =? 0) || (v =? 1) = true) as ->.
  { destruct (Z.eqb_spec v 0), (Z.eqb_spec v 1); try done. exfalso. by apply Hv. }
  simpl. destruct (maybe_rehash_spec s Hwf) as (s' & -> & ? & ? & ? & Hsame); [lia..|].
  exists s'. split_and!; [done..|]. by destruct Hsame as [->|[? ?]].
Qed.

Lemma hashset_create_inv :
  exists s, hashset_create calloc_ok = Some s /\ inv s /\ clean s /\ nodup s /\ elems s = ∅ /\
    nitems s = 0.
Proof.
  unfold hashset_create. rewrite !Hcalloc. eexists. split; [done|].
  destruct (empty_table_wf 3 ltac:(lia)) as (? & ? & ? & ?).
  by split_and!.
Qed.

Lemma hashset_add_all_spec vs s :
  inv s -> clean s -> nodup s -> nitems s + Z.of_nat (length vs) < 2 ^ 29 ->
  exists s', hashset_add_all calloc_ok s vs = Ok s' /\ inv s' /\ clean s' /\ nodup s' /\
    elems s' = elems s ∪ list_to_set (lives vs).
Proof.
  revert s. induction vs as [|v vs IH]; intros s Hinv Hcl Hnd Hlen.
  { exists s. split_and!; try done. change (elems s = elems s ∪ ∅). by rewrite (right_id_L ∅ (∪)). }
  simpl in *.
  assert (exists rv s1, hashset_add calloc_ok s v = Ok (rv, s1) /\ inv s1 /\ clean s1 /\ nodup s1 /\
    nitems s1 <= nitems s + 1 /\ elems s1 ∪ list_to_set (lives vs) =
    elems s ∪ list_to_set (lives (v :: vs))) as (rv & s1 & -> & ? & ? & ? & ? & He).
  { destruct (decide (live v)) as [Hv|Hv].
    - destruct (hashset_add_gen s v Hinv ltac:(lia) Hv) as (rv & s1 & E & ? & He & ? & Hc).
      destruct (Hc Hcl Hnd) as (? & ? & _). exists rv, s1. split_and!; try done.
      rewrite lives_cons_live, He by done. clear. set_solver.
    - destruct (hashset_add_reserved s v Hinv ltac:(lia) Hv) as (s1 & E & ? & He & ? & Hc).
      destruct (Hc Hcl Hnd) as (? & ?). exists (-1), s1. split_and!; try done; [lia|].
      by rewrite lives_cons_free, He. }
  simpl. destruct (IH s1) as (s' & -> & ? & ? & ? & He'); [done..|lia|].
  exists s'. split_and!; try done. by rewrite He', He.
Qed.
End operations.

(** A table without deleted entries always has an empty slot. *)
Lemma clean_empty_slot s : inv s -> clean s -> 0 ∈ items s.
Proof.
  intros Hinv Hcl. pose proof (inv_room s Hinv). destruct Hinv as [[] _].
  destruct (free_slot_exists (items s)) as (i & x & Hx & Hfree); [lia|].
  apply list_elem_of_lookup_2 in Hx. destruct (decide (x = 0)) as [->|]; [done|].
  destruct (decide (x = 1)) as [->|]; [done|]. exfalso. by apply Hfree.
Qed.

Lemma is_member_present s v :
  wf s -> live v -> v ∈ items s -> hashset_is_member s v = Ok 1.
Proof.
  intros Hwf Hv Hin. destruct (find_loop_member s Hwf v Hv Hin) as (j & _ & _ & E).
  unfold hashset_is_member. by rewrite mask_start, E.
Qed.

Lemma is_member_absent s v :
  wf s -> 0 ∈ items s -> v ∉ items s -> hashset_is_member s v = Ok 0.
Proof.
  intros Hwf H0 Hin. unfold hashset_is_member.
  by rewrite mask_start, (find_loop_absent s Hwf v Hin H0).
Qed.

(** Removing a stored value marks one slot deleted. *)
Lemma hashset_remove_present s v :
  inv s -> live v -> v ∈ items s ->
  exists s', hashset_remove s v = Ok (1, s') /\ inv s' /\ nitems s' = nitems s - 1 /\
    lives (items s) ≡ₚ v :: lives (items s').
Proof.
  intros [Hwf Hbelow] Hv Hin.
  destruct (find_loop_member s Hwf v Hv Hin) as (j & Hj & Hlk & E). pose proof Hwf as [].
  unfold hashset_remove. rewrite mask_start, E by done. simpl.
  pose proof (slot_range (nbits s) v j ltac:(lia)).
  rewrite store_ok by lia. simpl. eexists. split; [done|].
  pose proof (lives_delete _ _ _ Hlk Hv) as Hp.
  assert (length (lives (items s)) = S (length (lives
    (<[Z.to_nat (slot (nbits s) v j):=1]> (items s))))) as Hlen by (by rewrite Hp).
  rewrite wrap_size_id by (pose proof (Z.pow_le_mono_r 2 (nbits s) 30); lia).
  split_and!; [|done..]. split; [split|]; simpl; rewrite ?length_insert; try done.
  - lia.
  - lia.
  - intros i w Hw Hlive. destruct (decide (i = Z.to_nat (slot (nbits s) v j))) as [->|Hne].
    + rewrite list_lookup_insert_eq in Hw by lia. injection Hw as <-. by destruct Hlive.
    + by apply (reach_insert s _ 1 Hwf).
  - unfold below_limit in *. simpl. lia.
Qed.

Lemma hashset_remove_absent s v :
  wf s -> 0 ∈ items s -> v ∉ items s -> hashset_remove s v = Ok (0, s).
Proof.
  intros Hwf H0 Hin. unfold hashset_remove.
  by rewrite mask_start, (find_loop_absent s Hwf v Hin H0).
Qed.

(** ** Properties *)

(** C4: [hashset_add] implements set insertion on a table that never had a removal.  On a
    table that satisfies the invariant, has no deleted entry, no value twice and fewer than
    2^29 items, and when the allocation succeeds, inserting a value other than the two
    reserved ones returns (the probe loop and the rehash terminate), yields the set with
    the value added, answers 1 for a new value and 0 for a stored one, and keeps all of
    these conditions but the bound.  (With deleted entries a value can be stored twice, see
    [readd_after_remove_duplicates].) *)
Theorem hashset_add_refines calloc_ok s v :
  (forall n, calloc_ok n = true) ->
  inv s -> clean s -> nodup s -> nitems s < 2 ^ 29 -> live v ->
  exists s', hashset_add calloc_ok s v = Ok ((if decide (v ∈ elems s) then 0 else 1), s') /\
    inv s' /\ clean s' /\ nodup s' /\ elems s' = {[v]} ∪ elems s.
Proof.
  intros Hcalloc Hinv Hcl Hnd Hsmall Hv.
  destruct (hashset_add_gen calloc_ok Hcalloc s v Hinv Hsmall Hv)
    as (rv & s' & E & ? & ? & ? & Hc).
  destruct (Hc Hcl Hnd) as (? & ? & ->). by exists s'.
Qed.

(** The count the engine reads.  Starting from [hashset_create], after any
    sequence of fewer than [2 ^ 29] insertions [hashset_num_items] is the number
    of distinct values inserted, the reserved ones left out. *)
Theorem hashset_num_items_counts calloc_ok vs :
  (forall n, calloc_ok n = true) -> Z.of_nat (length vs) < 2 ^ 29 ->
  exists s0 s, hashset_create calloc_ok = Some s0 /\ hashset_add_all calloc_ok s0 vs = Ok s /\
    hashset_num_items s = Z.of_nat (size (list_to_set (lives vs) : gset Z)).
Proof.
  intros Hcalloc Hlen.
  destruct (hashset_create_inv calloc_ok Hcalloc) as (s0 & Hs0 & Hinv & Hcl & Hnd & He & Hn0).
  destruct (hashset_add_all_spec calloc_ok Hcalloc vs s0) as (s & E & Hinv' & _ & Hnd' & He');
    [done..|lia|].
  exists s0, s. split_and!; [done..|]. unfold hashset_num_items.
  rewrite nodup_size by (done || by apply Hinv'). by rewrite He', He, (left_id_L ∅ (∪)).
Qed.

(** [hashset_is_member] decides membership: on a table with at least one
    empty slot, and for a value that is not reserved, it returns 1 for the
    stored values and 0 for the others. *)
Theorem hashset_is_member_correct s v :
  inv s -> 0 ∈ items s -> live v ->
  hashset_is_member s v = Ok (if decide (v ∈ elems s) then 1 else 0).
Proof.
  intros [Hwf _] H0 Hv. case_decide as Hin; rewrite elem_of_elems in Hin.
  - apply is_member_present; tauto.
  - apply is_member_absent; tauto.
Qed.

(** [hashset_remove] implements set deletion on a table without repeated
    values: it answers whether the value was stored, takes it out, decrements
    the count and keeps the invariant. *)
Theorem hashset_remove_refines s v :
  inv s -> nodup s -> 0 ∈ items s -> live v ->
  exists s', hashset_remove s v = Ok ((if decide (v ∈ elems s) then 1 else 0), s') /\
    inv s' /\ nodup s' /\ elems s' = elems s ∖ {[v]}.
Proof.
  intros Hinv Hnd H0 Hv. case_decide as Hin; rewrite elem_of_elems in Hin.
  - destruct (hashset_remove_present s v Hinv Hv ltac:(tauto)) as (s' & E & ? & _ & Hp).
    exists s'. unfold nodup in *. rewrite Hp, NoDup_cons in Hnd. destruct Hnd as [Hni Hnd].
    split_and!; [done..|]. unfold elems. apply set_eq. intros w.
    rewrite elem_of_difference, !elem_of_list_to_set, Hp, elem_of_cons, elem_of_singleton.
    split; [|tauto]. intros Hw. split; [tauto|]. by intros ->.
  - exists s. rewrite hashset_remove_absent by (done || apply Hinv || tauto).
    split_and!; [done..|]. apply set_eq. intros w.
    rewrite elem_of_difference, elem_of_singleton. split; [|tauto]. intros Hw.
    split; [done|]. intros ->. apply Hin. by rewrite elem_of_elems in Hw.
Qed.

(** ** Histories of insertions and deletions *)

Inductive op := OpAdd (v : Z) | OpRemove (v : Z).

(** One call on a value that is not reserved; the deletion of an absent value
    is taken only where it returns. *)
Inductive step (calloc_ok : Z -> bool) : hashset_st -> op -> hashset_st -> Prop :=
| step_add s v rv s' :
    live v -> nitems s < 2 ^ 29 -> hashset_add calloc_ok s v = Ok (rv, s') ->
    step calloc_ok s (OpAdd v) s'
| step_remove s v rv s' :
    live v -> hashset_remove s v = Ok (rv, s') -> step calloc_ok s (OpRemove v) s'.

Inductive reachable (calloc_ok : Z -> bool) : hashset_st -> Prop :=
| reach_create s : hashset_create calloc_ok = Some s -> reachable calloc_ok s
| reach_step s o s' : reachable calloc_ok s -> step calloc_ok s o s' -> reachable calloc_ok s'.

Lemma hashset_remove_cases s v rv s' :
  inv s -> live v -> hashset_remove s v = Ok (rv, s') -> inv s' /\ nitems s' <= nitems s.
Proof.
  intros Hinv Hv E. destruct (decide (v ∈ items s)) as [Hin|Hin].
  - destruct (hashset_remove_present s v Hinv Hv Hin) as (s1 & E1 & Hinv1 & ? & _).
    rewrite E1 in E. simplify_eq. split; [done|lia].
  - unfold hashset_remove in E.
    apply res_bind_inv in E as (found & Hfound & E).
    destruct found as [ii|]; [|simplify_eq; split; [done|lia]].
    exfalso. apply Hin. revert Hfound. generalize (Z.land (mask s) (wrap_size (prime_1 * v))).
    induction (Z.to_nat (capacity s)) as [|n IH]; intros i; simpl; [done|]. intros Hf.
    apply res_bind_inv in Hf as (x & Hx & Hf). apply load_inv in Hx as [_ Hx].
    destruct (Z.eqb_spec x 0), (Z.eqb_spec x v); simpl in Hf; try done; [|by eapply IH].
    subst. by eapply list_elem_of_lookup_2.
Qed.

Lemma reachable_inv calloc_ok s :
  (forall n, calloc_ok n = true) -> reachable calloc_ok s -> inv s.
Proof.
  intros Hcalloc. induction 1 as [s Hs|s o s' _ IH Hstep].
  - destruct (hashset_create_inv calloc_ok Hcalloc) as (s0 & Hs0 & Hinv & _). congruence.
  - destruct Hstep as [s v rv s' Hv Hsmall E|s v rv s' Hv E].
    + destruct (hashset_add_gen calloc_ok Hcalloc s v IH Hsmall Hv) as (? & ? & E' & ? & _).
      congruence.
    + by apply (hashset_remove_cases s v rv s').
Qed.

(** In every state reached from [hashset_create] by insertions and
    deletions in any order, the representation invariant holds (sizes and mask
    agree with the number of bits, the counter equals the number of occupied
    slots, the table is filled below 85%, every stored value is reachable along
    its probe sequence), and a further insertion returns and makes its value a
    member without losing another one. *)
Theorem reachable_insert calloc_ok s :
  (forall n, calloc_ok n = true) -> reachable calloc_ok s ->
  inv s /\
  (nitems s < 2 ^ 29 -> forall v, live v ->
     exists rv s', hashset_add calloc_ok s v = Ok (rv, s') /\ elems s' = {[v]} ∪ elems s /\
       forall w, w ∈ elems s' -> hashset_is_member s' w = Ok 1).
Proof.
  intros Hcalloc Hr. pose proof (reachable_inv calloc_ok s Hcalloc Hr) as Hinv.
  split; [done|]. intros Hsmall v Hv.
  destruct (hashset_add_gen calloc_ok Hcalloc s v Hinv Hsmall Hv) as (rv & s' & E & [Hwf _] & He & _).
  exists rv, s'. split_and!; [done..|]. intros w [? ?]%elem_of_elems. by apply is_member_present.
Qed.

(** ** What deleted entries break *)

(** The calls of a history, one after the other. *)
Fixpoint run_ops (calloc_ok : Z -> bool) (s : hashset_st) (ops : list op) : res (list Z * hashset_st) :=
  match ops with
  | [] => Ok ([], s)
  | o :: ops =>
      '(rv, s) ← match o with
                 | OpAdd v => hashset_add calloc_ok s v
                 | OpRemove v => hashset_remove s v
                 end;
      '(rvs, s) ← run_ops calloc_ok s ops;
      Ok (rv :: rvs, s)
  end.

Definition op_value (o : op) : Z := match o with OpAdd v | OpRemove v => v end.

Lemma run_ops_reachable calloc_ok s ops rvs s' :
  (forall n, calloc_ok n = true) -> reachable calloc_ok s -> Forall (fun o => live (op_value o)) ops ->
  nitems s + Z.of_nat (length ops) < 2 ^ 29 ->
  run_ops calloc_ok s ops = Ok (rvs, s') -> reachable calloc_ok s'.
Proof.
  intros Hcalloc. revert s rvs.
  induction ops as [|o ops IH]; intros s rvs Hr Hlive Hsmall E; simpl in *.
  { by injection E as _ <-. }
  apply Forall_cons in Hlive as [Hl Hlive].
  apply res_bind_inv in E as ([rv s1] & E1 & E). apply res_bind_inv in E as ([rvs1 s2] & E2 & E).
  injection E as _ <-. pose proof (reachable_inv calloc_ok s Hcalloc Hr) as Hinv.
  destruct o as [v|v]; simpl in *.
  - destruct (hashset_add_gen calloc_ok Hcalloc s v Hinv ltac:(lia) Hl) as (? & ? & E' & _ & _ & ? & _).
    rewrite E' in E1. simplify_eq. eapply IH; [|done| |exact E2]; [|lia].
    eapply reach_step; [done|]. eapply (step_add _ _ v); [done|lia|done].
  - destruct (hashset_remove_cases s v rv s1 Hinv Hl E1) as [_ ?].
    eapply IH; [|done| |exact E2]; [|lia].
    eapply reach_step; [done|]. by eapply (step_remove _ _ v).
Qed.

Definition malloc_succeeds (n : Z) : bool := true.

(** Inserting a value again after another value of its probe sequence was
    deleted stores it twice: the insertion stops at the deleted slot and answers
    that the value is new, the counter says 2 for a set of one value, and the
    value is still a member after it has been removed. *)
Theorem readd_after_remove_duplicates :
  exists s0 s1 s2,
    hashset_create malloc_succeeds = Some s0 /\
    run_ops malloc_succeeds s0 [OpAdd 2; OpAdd 10; OpRemove 2; OpAdd 10] = Ok ([1; 1; 1; 1], s1) /\
    elems s1 = {[10]} /\ hashset_num_items s1 = 2 /\
    hashset_remove s1 10 = Ok (1, s2) /\ hashset_is_member s2 10 = Ok 1.
Proof. do 3 eexists. repeat split; vm_compute; reflexivity. Qed.

(** A value and its removal, for every residue modulo the first capacity. *)
Definition fill_with_deleted : list op :=
  concat (map (fun v => [OpAdd v; OpRemove v]) (seqZ 8 8)).

Lemma all_deleted_hangs s v n :
  wf s -> Forall (eq 1) (items s) -> live v ->
  find_loop n s v (Z.land (mask s) (wrap_size (prime_1 * v))) = OutOfFuel.
Proof.
  intros Hwf Hall [Hv0 Hv1]. rewrite mask_start by done. apply find_loop_fuel; [done|].
  intros j' _. destruct (slot_lookup s Hwf v j') as (x & _ & Hx). exists x. split; [done|].
  rewrite Forall_lookup in Hall. specialize (Hall _ _ Hx). subst. lia.
Qed.

(** The tables before and after these calls. *)
Definition empty_table : hashset_st := mk_hashset 3 7 8 (replicate 8 0) 0.
Definition deleted_table : hashset_st := mk_hashset 3 7 8 (replicate 8 1) 0.

Lemma fill_with_deleted_run :
  run_ops malloc_succeeds empty_table fill_with_deleted = Ok (replicate 16 1, deleted_table).
Proof. vm_compute. reflexivity. Qed.

Lemma deleted_table_reachable : reachable malloc_succeeds deleted_table.
Proof.
  apply (run_ops_reachable malloc_succeeds empty_table fill_with_deleted (replicate 16 1));
    [done| | | |apply fill_with_deleted_run].
  - by apply reach_create.
  - repeat (constructor; [by vm_compute|]). constructor.
  - vm_compute. reflexivity.
Qed.

(** Deletions can make the table hang.  After eight insertions, each
    followed by the deletion of the value, the set is empty and its counter 0,
    so no rehash happens, but no slot is empty any more: the search for any
    value that is not reserved never ends, whatever number of steps it is
    given. *)
Theorem deleted_slots_hang :
  exists s0 s rvs,
    hashset_create malloc_succeeds = Some s0 /\
    run_ops malloc_succeeds s0 fill_with_deleted = Ok (rvs, s) /\
    reachable malloc_succeeds s /\ elems s = ∅ /\ nitems s = 0 /\
    forall v n, live v ->
      find_loop n s v (Z.land (mask s) (wrap_size (prime_1 * v))) = OutOfFuel.
Proof.
  exists empty_table, deleted_table, (replicate 16 1).
  split; [reflexivity|]. split; [apply fill_with_deleted_run|].
  split; [apply deleted_table_reachable|]. split; [reflexivity|]. split; [reflexivity|].
  intros v n Hv. apply all_deleted_hangs; [|by repeat constructor|done].
  by apply (reachable_inv malloc_succeeds), deleted_table_reachable.
Qed.

(** ** Witnesses *)

Lemma empty_table_inv : inv empty_table /\ clean empty_table /\ nodup empty_table.
Proof.
  destruct (empty_table_wf 3 ltac:(lia)) as (? & ? & ? & _). split_and!; try done.
Qed.

Lemma hashset_add_refines_witness :
  exists s', hashset_add malloc_succeeds empty_table 42 = Ok (1, s') /\ elems s' = {[42]} ∪ ∅.
Proof.
  destruct empty_table_inv as (Hinv & Hcl & Hnd).
  destruct (hashset_add_refines malloc_succeeds empty_table 42 (fun _ => eq_refl) Hinv Hcl Hnd)
    as (s' & E & _ & _ & _ & He); [reflexivity|done|].
  exists s'. by rewrite decide_False in E by (vm_compute; inversion 1).
Defined.

Lemma hashset_num_items_counts_witness :
  exists s0 s, hashset_create malloc_succeeds = Some s0 /\
    hashset_add_all malloc_succeeds s0 [5; 13; 5; 0; 21; 13] = Ok s /\ hashset_num_items s = 3.
Proof.
  destruct (hashset_num_items_counts malloc_succeeds [5; 13; 5; 0; 21; 13] (fun _ => eq_refl) eq_refl)
    as (s0 & s & Hs0 & Hs & E).
  exists s0, s. split_and!; [done..|]. rewrite E. vm_compute. reflexivity.
Defined.

Lemma hashset_is_member_correct_witness : hashset_is_member empty_table 42 = Ok 0.
Proof.
  destruct empty_table_inv as (Hinv & _).
  rewrite (hashset_is_member_correct empty_table 42 Hinv); [|simpl; constructor|done].
  by rewrite decide_False by (vm_compute; inversion 1).
Defined.

Lemma hashset_remove_refines_witness :
  exists s', hashset_remove empty_table 42 = Ok (0, s') /\ inv s'.
Proof.
  destruct empty_table_inv as (Hinv & _ & Hnd).
  destruct (hashset_remove_refines empty_table 42 Hinv Hnd) as (s' & E & ? & _ & _);
    [simpl; constructor|done|].
  exists s'. by rewrite decide_False in E by (vm_compute; inversion 1).
Defined.

Lemma reachable_insert_witness :
  exists rv s', hashset_add malloc_succeeds deleted_table 42 = Ok (rv, s') /\
    hashset_is_member s' 42 = Ok 1.
Proof.
  destruct (reachable_insert malloc_succeeds deleted_table (fun _ => eq_refl)
              deleted_table_reachable) as [_ H].
  destruct (H eq_refl 42 ltac:(done)) as (rv & s' & E & He & Hm).
  exists rv, s'. split; [done|]. apply Hm. rewrite He. set_solver.
Defined.

End Hashset.

(** * The iterator *)
Module HashsetItr.
Import Hashset.

Record hashset_itr_st := mk_itr { set : hashset_st; index : Z }.

(** The loop of [hashset_iterator_has_next]: [index] is not advanced in its
    body. *)
Fixpoint peek_loop (fuel : nat) (itr : hashset_itr_st) (index : Z) : res Z :=
  match fuel with
  | O => OutOfFuel
  | S fuel =>
      if index <=? wrap_size (capacity (set itr) - 1) then
        value ← load (items (set itr)) index;
        if negb (value =? 0) then Ok 1 else peek_loop fuel itr index
      else Ok 0
  end.

Definition hashset_iterator_has_next (fuel : nat) (itr : hashset_itr_st) : res Z :=
  if (nitems (set itr) =? 0) || (index itr =? wrap_size (capacity (set itr) - 1)) then Ok 0
  else peek_loop fuel itr (index itr).

(** The loop of [hashset_iterator_next]: the slot is read before the bound is
    tested. *)
Fixpoint skip_loop (fuel : nat) (s : hashset_st) (index : Z) : res Z :=
  match fuel with
  | O => OutOfFuel
  | S fuel =>
      x ← load (items s) index;
      if (x =? 0) && (index <? capacity s) then skip_loop fuel s (wrap_size (index + 1))
      else Ok index
  end.

Definition hashset_iterator_next (fuel : nat) (itr : hashset_itr_st) : res (Z * hashset_itr_st) :=
  more ← hashset_iterator_has_next fuel itr;
  if more =? 0 then Ok (-1, itr)
  else
    index' ← skip_loop fuel (set itr) (wrap_size (index itr + 1));
    Ok (wrap_int index', mk_itr (set itr) index').

Definition hashset_iterator (fuel : nat) (s : hashset_st) : res hashset_itr_st :=
  let itr := mk_itr s 0 in
  if 0 <? nitems s then
    '(_, itr) ← hashset_iterator_next fuel itr; Ok itr
  else Ok itr.

Definition hashset_iterator_value (fuel : nat) (itr : hashset_itr_st) : res (Z * hashset_itr_st) :=
  x ← load (items (set itr)) (index itr);
  if x =? 0 then
    '(_, itr) ← hashset_iterator_next fuel itr;
    v ← load (items (set itr)) (index itr);
    Ok (v, itr)
  else
    v ← load (items (set itr)) (index itr);
    Ok (v, itr).

Lemma peek_loop_empty itr i fuel :
  0 <= i < capacity (set itr) -> capacity (set itr) < 2 ^ 64 -> load (items (set itr)) i = Ok 0 ->
  peek_loop fuel itr i = OutOfFuel.
Proof.
  intros Hi Hc E. induction fuel as [|fuel IH]; [done|]. simpl.
  rewrite wrap_size_id by lia. destruct (Z.leb_spec i (capacity (set itr) - 1)); [|lia].
  by rewrite E.
Qed.

(** [hashset_iterator_has_next] on an iterator inside a table that
    satisfies the invariant: 0 for an empty set or at the last slot, 1 on an
    occupied slot, and on an empty slot of a non-empty set it never returns,
    because the peeking loop does not advance. *)
Theorem has_next_spec itr x fuel :
  inv (set itr) -> 0 <= index itr < capacity (set itr) ->
  load (items (set itr)) (index itr) = Ok x ->
  hashset_iterator_has_next (S fuel) itr =
    if decide (nitems (set itr) = 0 \/ index itr = capacity (set itr) - 1) then Ok 0
    else if decide (x = 0) then OutOfFuel else Ok 1.
Proof.
  intros [[] _] Hi Hx. pose proof (Z.pow_le_mono_r 2 (nbits (set itr)) 30).
  assert (wrap_size (capacity (set itr) - 1) = capacity (set itr) - 1) as Ew
    by (apply wrap_size_id; lia).
  unfold hashset_iterator_has_next. rewrite Ew.
  destruct (Z.eqb_spec (nitems (set itr)) 0), (Z.eqb_spec (index itr) (capacity (set itr) - 1));
    simpl orb; cbv iota; try (rewrite decide_True by tauto; done).
  rewrite decide_False by tauto. case_decide.
  - subst. apply peek_loop_empty; [done|lia|done].
  - simpl. rewrite Ew. destruct (Z.leb_spec (index itr) (capacity (set itr) - 1)); [|lia].
    rewrite Hx. simpl. by destruct (Z.eqb_spec x 0).
Qed.

(** Creating an iterator over a non-empty set whose first slot is empty
    never returns. *)
Theorem iterator_create_hangs s fuel :
  inv s -> 0 < nitems s -> load (items s) 0 = Ok 0 -> hashset_iterator fuel s = OutOfFuel.
Proof.
  intros [[] _] Hn H0. pose proof (Z.pow_le_mono_r 2 (nbits s) 30).
  pose proof (Z.pow_le_mono_r 2 3 (nbits s)).
  unfold hashset_iterator. destruct (Z.ltb_spec 0 (nitems s)); [|lia].
  unfold hashset_iterator_next, hashset_iterator_has_next. cbn [set index].
  destruct (Z.eqb_spec (nitems s) 0); [lia|]. rewrite (wrap_size_id (capacity s - 1)) by lia.
  destruct (Z.eqb_spec 0 (capacity s - 1)); [lia|]. simpl orb. cbv iota.
  by rewrite (peek_loop_empty (mk_itr s 0) 0 fuel) by (cbn [set index]; lia || done).
Qed.

(** A table with 9 in slot 1 only. *)
Definition one_value : hashset_st := mk_hashset 3 7 8 [0; 9; 0; 0; 0; 0; 0; 0] 1.

Lemma one_value_inv : inv one_value.
Proof.
  destruct (hashset_add_gen malloc_succeeds (fun _ => eq_refl) empty_table 9)
    as (rv & s' & E & Hinv & _); [apply empty_table_inv|done..|].
  vm_compute in E. injection E as _ <-. exact Hinv.
Qed.

Lemma has_next_spec_witness :
  hashset_iterator_has_next 5 (mk_itr one_value 1) = Ok 1 /\
  hashset_iterator_has_next 5 (mk_itr one_value 2) = OutOfFuel.
Proof.
  split.
  - rewrite (has_next_spec (mk_itr one_value 1) 9 4 one_value_inv); [done|simpl; lia|done].
  - rewrite (has_next_spec (mk_itr one_value 2) 0 4 one_value_inv); [done|simpl; lia|done].
Defined.

Lemma iterator_create_hangs_witness : hashset_iterator 1000 one_value = OutOfFuel.
Proof. apply iterator_create_hangs; [apply one_value_inv|done|done]. Defined.

End HashsetItr.
