(* ===== verification/CString.v ===== *)
(** * C strings and the standard library functions the engine calls on them

    Strings are Stdlib strings (the characters before the terminating NUL).
    The file models [atoi], [sprintf("%d")], the [scanf] family for the
    directives the engine uses (literal characters, white space, [%d] and
    [%s]), [strrchr]/[strndup], [strtok] and the line reading of [getline]. *)

From Stdlib Require Import Ascii String.
From S2P Require Import Prelude.

#[global] Open Scope string_scope.
#[global] Open Scope Z_scope.

#[global] Arguments String.append : simpl nomatch.

(** ** Characters *)

Definition nl : ascii := "010"%char.

Definition is_space (c : ascii) : bool :=
  let n := nat_of_ascii c in ((n =? 32)%nat || ((9 <=? n)%nat && (n <=? 13)%nat))%bool.

Definition is_digit (c : ascii) : bool :=
  let n := nat_of_ascii c in ((48 <=? n)%nat && (n <=? 57)%nat)%bool.

Definition digit_val (c : ascii) : Z := Z.of_nat (nat_of_ascii c) - 48.
Definition digit_char (d : Z) : ascii := ascii_of_nat (Z.to_nat (d + 48)).

Definition strlen (s : string) : Z := Z.of_nat (String.length s).

(** A character pointer: uninitialised, NULL, or a string. *)
Inductive cptr := Indet | Null | Str (s : string).

Definition of_option (s : option string) : cptr := match s with Some s => Str s | None => Null end.

(** ** Decimal integers *)

(** The value of the leading digits, accumulated onto [acc], and what follows
    them. *)
Fixpoint parse_digits (acc : Z) (s : string) : Z * string :=
  match s with
  | String c s' => if is_digit c then parse_digits (10 * acc + digit_val c) s' else (acc, s)
  | EmptyString => (acc, s)
  end.

Fixpoint skip_spaces (s : string) : string :=
  match s with
  | String c s' => if is_space c then skip_spaces s' else s
  | EmptyString => s
  end.

Definition starts_with_digit (s : string) : bool :=
  match s with String c _ => is_digit c | EmptyString => false end.

(** [strtol] in base 10: [None] when there is no number. The value is clamped
    to the range of [long]. *)
Definition long_min : Z := - 2 ^ 63.
Definition long_max : Z := 2 ^ 63 - 1.
Definition clamp_long (z : Z) : Z := Z.max long_min (Z.min long_max z).

Definition strtol (s : string) : option (Z * string) :=
  match skip_spaces s with
  | String "-" s' =>
      if starts_with_digit s' then
        let '(v, rest) := parse_digits 0 s' in Some (clamp_long (- v), rest)
      else None
  | String "+" s' =>
      if starts_with_digit s' then
        let '(v, rest) := parse_digits 0 s' in Some (clamp_long v, rest)
      else None
  | s' =>
      if starts_with_digit s' then
        let '(v, rest) := parse_digits 0 s' in Some (clamp_long v, rest)
      else None
  end.

Definition atoi (s : string) : Z :=
  match strtol s with Some (v, _) => wrap_int v | None => 0 end.

(** [sprintf("%d", z)] *)
Fixpoint print_digits (fuel : nat) (n : Z) (acc : string) : string :=
  match fuel with
  | O => acc
  | S fuel =>
      let acc := String (digit_char (n mod 10)) acc in
      if n / 10 =? 0 then acc else print_digits fuel (n / 10) acc
  end.

Definition print_nat (n : Z) : string := print_digits (S (Z.to_nat (Z.log2 n))) n "".
Definition print_int (z : Z) : string :=
  if z <? 0 then String "-" (print_nat (- z)) else print_nat z.

(** ** The [scanf] directives *)

Inductive directive := DSpace | DLit (c : ascii) | DInt | DStr.
Inductive conv := CInt (z : Z) | CStr (s : string).

(** The characters up to the next white space. *)
Fixpoint take_word (s : string) : string * string :=
  match s with
  | String c s' =>
      if is_space c then ("", s)
      else let '(w, rest) := take_word s' in (String c w, rest)
  | EmptyString => ("", s)
  end.

(** The conversions made before the first failure, and whether the failure is
    the end of the input. *)
Fixpoint scan_loop (fmt : list directive) (s : string) : list conv * bool :=
  match fmt with
  | [] => ([], false)
  | DSpace :: fmt => scan_loop fmt (skip_spaces s)
  | DLit c :: fmt =>
      match s with
      | EmptyString => ([], true)
      | String c' s' => if Ascii.eqb c c' then scan_loop fmt s' else ([], false)
      end
  | DInt :: fmt =>
      match skip_spaces s with
      | EmptyString => ([], true)
      | s' =>
          match strtol s' with
          | Some (v, rest) =>
              let '(cs, eof) := scan_loop fmt rest in (CInt (wrap_int v) :: cs, eof)
          | None => ([], false)
          end
      end
  | DStr :: fmt =>
      match skip_spaces s with
      | EmptyString => ([], true)
      | s' =>
          let '(w, rest) := take_word s' in
          let '(cs, eof) := scan_loop fmt rest in (CStr w :: cs, eof)
      end
  end.

(** The return value of [sscanf]/[fscanf], -1 being [EOF], with the values it
    stores. *)
Definition sscanf (s : string) (fmt : list directive) : Z * list conv :=
  let '(cs, eof) := scan_loop fmt s in
  match cs with
  | [] => ((if eof : bool then -1 else 0), [])
  | _ => (Z.of_nat (List.length cs), cs)
  end.

(** The directives of a format made of literal characters. *)
Fixpoint lits (s : string) : list directive :=
  match s with
  | EmptyString => []
  | String c s' => (if is_space c then DSpace else DLit c) :: lits s'
  end.

(** ** Searching and splitting *)

(** [strrchr]: the offset of the last occurrence. *)
Fixpoint strrchr_from (n : Z) (s : string) (c : ascii) : option Z :=
  match s with
  | EmptyString => None
  | String c' s' =>
      match strrchr_from (n + 1) s' c with
      | Some k => Some k
      | None => if Ascii.eqb c c' then Some n else None
      end
  end.
Definition strrchr (s : string) (c : ascii) : option Z := strrchr_from 0 s c.

(** [strndup(s, n)] with an unsigned [n]. *)
Definition strndup (s : string) (n : Z) : string := String.substring 0 (Z.to_nat (wrap_size n)) s.

(** The suffix [s + n]. *)
Definition str_from (s : string) (n : Z) : string :=
  String.substring (Z.to_nat n) (String.length s - Z.to_nat n) s.

(** The tokens of [strtok] for one separator: the maximal runs of other
    characters. *)
Fixpoint strtok_all (sep : ascii) (cur : string) (s : string) : list string :=
  match s with
  | EmptyString => match cur with EmptyString => [] | _ => [cur] end
  | String c s' =>
      if Ascii.eqb c sep then
        match cur with
        | EmptyString => strtok_all sep "" s'
        | _ => cur :: strtok_all sep "" s'
        end
      else strtok_all sep (cur ++ String c "")%string s'
  end.
Definition strtok (sep : ascii) (s : string) : list string := strtok_all sep "" s.

(** The lines [getline] returns one after the other, each with its newline. *)
Fixpoint lines_of (s : string) : list string :=
  match s with
  | EmptyString => []
  | String c s' =>
      if Ascii.eqb c nl then String c "" :: lines_of s'
      else match lines_of s' with
           | [] => [String c ""]
           | l :: ls => String c l :: ls
           end
  end.

(** ** Printing and parsing integers *)

Lemma digit_cases d : 0 <= d < 10 -> exists n, (n < 10)%nat /\ d = Z.of_nat n.
Proof. intros Hd. exists (Z.to_nat d). lia. Qed.

Lemma digit_char_spec d :
  0 <= d < 10 ->
  is_digit (digit_char d) = true /\ digit_val (digit_char d) = d /\
  is_space (digit_char d) = false /\
  Ascii.eqb (digit_char d) "-" = false /\ Ascii.eqb (digit_char d) "+" = false.
Proof.
  intros (n & Hn & ->)%digit_cases. do 10 (destruct n as [|n]; [done|]). lia.
Qed.

Lemma string_app_nil_r s : (s ++ "")%string = s.
Proof. induction s as [|c s IH]; simpl; congruence. Qed.

Lemma string_app_assoc s t u : ((s ++ t) ++ u = s ++ (t ++ u))%string.
Proof. induction s as [|c s IH]; simpl; congruence. Qed.

Lemma string_app_length s t :
  String.length (s ++ t) = (String.length s + String.length t)%nat.
Proof. induction s as [|c s IH]; simpl; congruence. Qed.

Lemma print_digits_app fuel n acc rest :
  (print_digits fuel n acc ++ rest)%string = print_digits fuel n (acc ++ rest).
Proof.
  revert n acc. induction fuel as [|fuel IH]; intros n acc; simpl; [done|].
  case_match; [done|]. by rewrite IH.
Qed.

(** Reading back the digits of [n] yields [n]. *)
Lemma parse_print_digits fuel n acc :
  0 <= n < 2 ^ Z.of_nat fuel ->
  parse_digits 0 (print_digits fuel n acc) = parse_digits n acc.
Proof.
  revert n acc. induction fuel as [|fuel IH]; intros n acc Hn.
  { simpl in Hn. assert (n = 0) as -> by lia. done. }
  simpl print_digits. pose proof (Z.mod_pos_bound n 10 eq_refl) as Hm.
  destruct (digit_char_spec (n mod 10) Hm) as (Hd & Hv & _).
  pose proof (Z.div_mod n 10 ltac:(lia)) as Hdm.
  destruct (Z.eqb_spec (n / 10) 0) as [Hz|Hz].
  - simpl. rewrite Hd, Hv. f_equal. lia.
  - rewrite IH.
    + simpl. rewrite Hd, Hv. f_equal. lia.
    + rewrite Nat2Z.inj_succ, Z.pow_succ_r in Hn by lia.
      split; [apply Z.div_pos; lia|]. apply Z.div_lt_upper_bound; lia.
Qed.

Lemma print_digits_head fuel n acc :
  0 <= n -> exists d s, 0 <= d < 10 /\ print_digits (S fuel) n acc = String (digit_char d) s.
Proof.
  revert n acc. induction fuel as [|fuel IH]; intros n acc Hn; simpl.
  - pose proof (Z.mod_pos_bound n 10 eq_refl). case_match; eauto.
  - pose proof (Z.mod_pos_bound n 10 eq_refl).
    destruct (Z.eqb_spec (n / 10) 0); [eauto|]. apply (IH (n / 10)). apply Z.div_pos; lia.
Qed.

Lemma print_nat_head n rest :
  0 <= n -> exists d s, 0 <= d < 10 /\ (print_nat n ++ rest)%string = String (digit_char d) s.
Proof.
  intros Hn. unfold print_nat. rewrite print_digits_app. by apply print_digits_head.
Qed.

Lemma parse_print_nat n rest :
  0 <= n -> parse_digits 0 (print_nat n ++ rest) = parse_digits n rest.
Proof.
  intros Hn. unfold print_nat. rewrite print_digits_app. simpl (_ ++ rest)%string.
  apply parse_print_digits. split; [done|].
  rewrite Nat2Z.inj_succ, Z2Nat.id by apply Z.log2_nonneg.
  destruct (decide (n = 0)) as [->|]; [done|]. apply Z.log2_spec. lia.
Qed.

Lemma parse_digits_stop n s : starts_with_digit s = false -> parse_digits n s = (n, s).
Proof. destruct s as [|c s]; simpl; [done|]. by intros ->. Qed.

Lemma print_int_no_space z rest :
  skip_spaces (print_int z ++ rest) = (print_int z ++ rest)%string /\
  (print_int z ++ rest)%string <> "".
Proof.
  unfold print_int. case_if; simpl; [done|].
  destruct (print_nat_head z rest ltac:(lia)) as (d & s & Hd & ->). simpl.
  destruct (digit_char_spec d Hd) as (_ & _ & -> & _). done.
Qed.

Lemma in_int_long z : in_int z -> clamp_long z = z.
Proof. unfold in_int, clamp_long, int_min, int_max, long_min, long_max. lia. Qed.

(** [strtol] reads back what [sprintf("%d")] printed. *)
Lemma strtol_print_int z rest :
  in_int z -> starts_with_digit rest = false ->
  strtol (print_int z ++ rest) = Some (z, rest).
Proof.
  intros Hz Hrest. unfold strtol. rewrite (proj1 (print_int_no_space z rest)).
  unfold print_int. destruct (Z.ltb_spec z 0) as [Hneg|Hpos].
  - simpl. destruct (print_nat_head (- z) rest ltac:(lia)) as (d & s & Hd & E).
    replace (starts_with_digit (print_nat (- z) ++ rest)) with true
      by (rewrite E; symmetry; apply (digit_char_spec d Hd)).
    rewrite parse_print_nat, parse_digits_stop by (lia || done).
    by rewrite Z.opp_involutive, in_int_long.
  - destruct (print_nat_head z rest ltac:(lia)) as (d & s & Hd & E). rewrite E.
    destruct (digit_char_spec d Hd) as (Hdig & _ & _ & Hm & Hp).
    assert (parse_digits 0 (String (digit_char d) s) = (z, rest)) as Hparse
      by (rewrite <- E; rewrite parse_print_nat, parse_digits_stop by (lia || done); done).
    destruct (digit_char d) as [b0 b1 b2 b3 b4 b5 b6 b7].
    destruct b0, b1, b2, b3, b4, b5, b6, b7; try discriminate Hm; try discriminate Hp;
      cbv beta iota delta [starts_with_digit]; rewrite Hdig, Hparse;
      by rewrite in_int_long.
Qed.

Lemma atoi_print_int z rest :
  in_int z -> starts_with_digit rest = false -> atoi (print_int z ++ rest) = z.
Proof.
  intros Hz Hr. unfold atoi. rewrite strtol_print_int by done. by apply wrap_int_id.
Qed.

(** The round trip of a counter through its decimal form. *)
Lemma atoi_print_int_id z : in_int z -> atoi (print_int z) = z.
Proof. intros Hz. rewrite <- (string_app_nil_r (print_int z)). by apply atoi_print_int. Qed.

(** Printed integers contain no white space. *)
Definition no_space (s : string) : Prop :=
  List.Forall (fun c => is_space c = false) (list_ascii_of_string s).

Lemma no_space_app s t : no_space (s ++ t) <-> no_space s /\ no_space t.
Proof.
  unfold no_space. induction s as [|c s IH]; simpl; [intuition constructor|].
  rewrite !Forall_cons, IH. tauto.
Qed.

(** Printed integers consist of digits and the sign. *)
Lemma print_digits_forall (P : ascii -> Prop) fuel n acc :
  (forall d, 0 <= d < 10 -> P (digit_char d)) -> 0 <= n ->
  List.Forall P (list_ascii_of_string acc) ->
  List.Forall P (list_ascii_of_string (print_digits fuel n acc)).
Proof.
  intros HP. revert n acc. induction fuel as [|fuel IH]; intros n acc Hn Hacc; simpl; [done|].
  assert (List.Forall P (list_ascii_of_string (String (digit_char (n mod 10)) acc))).
  { constructor; [|done]. apply HP. by apply Z.mod_pos_bound. }
  case_match; [done|]. apply IH; [|done]. apply Z.div_pos; lia.
Qed.

Lemma print_int_forall (P : ascii -> Prop) z :
  (forall d, 0 <= d < 10 -> P (digit_char d)) -> P "-"%char ->
  List.Forall P (list_ascii_of_string (print_int z)).
Proof.
  intros HP Hm. unfold print_int, print_nat. case_if; [constructor; [done|]|];
    apply print_digits_forall; (done || lia || constructor).
Qed.

Lemma print_int_chars z : no_space (print_int z).
Proof. apply print_int_forall; [|done]. intros d Hd. by apply digit_char_spec. Qed.

Lemma print_digits_length fuel n acc :
  (String.length (print_digits fuel n acc) <= fuel + String.length acc)%nat.
Proof.
  revert n acc. induction fuel as [|fuel IH]; intros n acc; simpl; [lia|].
  case_match; simpl; [lia|]. etrans; [apply IH|]. simpl. lia.
Qed.

Lemma print_int_length z : in_int z -> strlen (print_int z) <= 33.
Proof.
  unfold in_int, int_min, int_max, strlen. intros Hz.
  assert (forall n, 0 <= n <= 2 ^ 31 -> (String.length (print_nat n) <= 32)%nat) as Hn.
  { intros n Hn. unfold print_nat. etrans; [apply print_digits_length|]. simpl.
    pose proof (Z.log2_le_mono n (2 ^ 31) ltac:(lia)) as Hl. change (Z.log2 (2 ^ 31)) with 31 in Hl.
    pose proof (Z.log2_nonneg n). lia. }
  unfold print_int. destruct (Z.ltb_spec z 0); simpl.
  - pose proof (Hn (- z)). lia.
  - pose proof (Hn z). lia.
Qed.

(** ** Lines *)

Definition no_newline (s : string) : Prop :=
  List.Forall (fun c => Ascii.eqb c nl = false) (list_ascii_of_string s).

Lemma no_space_no_newline s : no_space s -> no_newline s.
Proof.
  unfold no_space, no_newline. intros H. eapply Forall_impl; [exact H|]. intros c Hc.
  destruct (Ascii.eqb_spec c nl) as [->|]; done.
Qed.

Lemma no_newline_app s t : no_newline s -> no_newline t -> no_newline (s ++ t).
Proof.
  unfold no_newline. induction s as [|c s IH]; simpl; [done|].
  intros [? ?]%Forall_cons ?. constructor; [done|]. by apply IH.
Qed.

Lemma lines_of_line s rest :
  no_newline s -> lines_of (s ++ String nl rest) = (s ++ String nl "")%string :: lines_of rest.
Proof.
  unfold no_newline. induction s as [|c s IH]; simpl; [by intros _|].
  intros [-> Hs]%Forall_cons. by rewrite IH.
Qed.

(** ** Scanning *)

Lemma scan_lits s fmt rest :
  List.Forall (fun c => is_space c = false) (list_ascii_of_string s) ->
  scan_loop (app (lits s) fmt) (s ++ rest) = scan_loop fmt rest.
Proof.
  induction s as [|c s IH]; simpl; [done|]. intros [Hc Hs]%Forall_cons.
  rewrite Hc. simpl. rewrite Ascii.eqb_refl. by apply IH.
Qed.

Lemma scan_int z fmt rest :
  in_int z -> starts_with_digit rest = false ->
  scan_loop (DInt :: fmt) (print_int z ++ rest) =
    (CInt z :: (scan_loop fmt rest).1, (scan_loop fmt rest).2).
Proof.
  intros Hz Hr. destruct (print_int_no_space z rest) as [E Hne]. simpl. rewrite E.
  destruct (print_int z ++ rest)%string as [|c s] eqn:Es; [done|]. rewrite <- Es.
  rewrite strtol_print_int, wrap_int_id by done.
  by destruct (scan_loop fmt rest).
Qed.

Lemma sscanf_convs s fmt c cs eof :
  scan_loop fmt s = (c :: cs, eof) -> sscanf s fmt = (Z.of_nat (List.length (c :: cs)), c :: cs).
Proof. intros E. unfold sscanf. by rewrite E. Qed.

#[export] Hint Resolve atoi_print_int_id : cres.
