(* ===== verification/CFGEval.v ===== *)
(** * Control-flow deviation of a mutant (src/CFGEval.c)

    The engine compares the branch lines gcov reports for the original program
    with those of the mutant.  [calculateCFGBranchDeviation] is the fraction of
    lines whose "taken" counts differ, 1 when one of the files is missing or
    has more lines, 0 when both are missing or empty.  A file system is a map
    from paths to contents. *)

From Stdlib Require Import Ascii String.
From S2P Require Import Prelude Double CString.

Module CFGEval.

(** ["branch  %d taken %d"] and ["branch  %d never executed"] *)
Definition taken_format : list directive :=
  (lits "branch" ++ [DSpace; DSpace; DInt; DSpace] ++ lits "taken" ++ [DSpace; DInt])%list.
Definition never_format : list directive :=
  (lits "branch" ++ [DSpace; DSpace; DInt; DSpace] ++ lits "never" ++ [DSpace] ++ lits "executed")%list.

Record branch_line := mk_branch { result : Z; branch_num : Z; taken_count : Z }.

(** The integers stored by [sscanf] through its two arguments, both -1
    before the call. *)
Definition stored (cs : list conv) : Z * Z :=
  match cs with
  | [CInt b] => (b, -1)
  | CInt b :: CInt t :: _ => (b, t)
  | _ => (-1, -1)
  end.

Definition parse_line (line : string) : branch_line :=
  let '(r, cs) := sscanf line taken_format in
  let '(b, t) := stored cs in
  if r =? 1 then
    let '(r', cs') := sscanf line never_format in
    mk_branch r' (stored cs').1 t
  else mk_branch r b t.

(** The reading loop: the counters at its end and whether each [getline]
    reported the end of its file. *)
Fixpoint cfg_loop (f1 f2 : list string) (deviated_branches total_branches : Z) :
    res (Z * Z * bool * bool) :=
  match f1, f2 with
  | line_f1 :: f1, line_f2 :: f2 =>
      deviated_branches ←
        (if negb (taken_count (parse_line line_f1) =? taken_count (parse_line line_f2))
         then chk (deviated_branches + 1) else Ok deviated_branches);
      total_branches ← chk (total_branches + 1);
      cfg_loop f1 f2 deviated_branches total_branches
  | [], [] => Ok (deviated_branches, total_branches, true, true)
  | [], _ :: _ => Ok (deviated_branches, total_branches, true, false)
  | _ :: _, [] => Ok (deviated_branches, total_branches, false, true)
  end.

Definition calculateCFGBranchDeviation (fs : gmap string string) (source1 source2 : string) :
    res double :=
  match fs !! source1, fs !! source2 with
  | None, None => Ok d0
  | None, Some _ | Some _, None => Ok d1
  | Some c1, Some c2 =>
      '(deviated_branches, total_branches, eof1, eof2) ←
        cfg_loop (lines_of c1) (lines_of c2) 0 0;
      if negb eof1 || negb eof2 then Ok d1
      else if total_branches =? 0 then Ok d0
      else Ok (ddiv (double_of_Z deviated_branches) (double_of_Z total_branches))
  end.

(** ** Reference definition *)

(** The number of positions at which two sequences of counts differ. *)
Definition differing (l1 l2 : list Z) : Z :=
  Z.of_nat (List.length (filter (fun p : Z * Z => p.1 <> p.2) (zip l1 l2))).

Definition counts (content : string) : list Z := taken_count ∘ parse_line <$> lines_of content.

Lemma differing_bounds l1 l2 : 0 <= differing l1 l2 <= Z.of_nat (List.length l1).
Proof.
  unfold differing. split; [lia|]. apply inj_le.
  etrans; [apply length_filter|]. rewrite length_zip_with. lia.
Qed.

Lemma differing_cons x y l1 l2 :
  differing (x :: l1) (y :: l2) = (if decide (x <> y) then 1 else 0) + differing l1 l2.
Proof. unfold differing. simpl. rewrite filter_cons. simpl. case_decide; simpl; lia. Qed.

Lemma differing_comm l1 l2 : differing l1 l2 = differing l2 l1.
Proof.
  revert l2. induction l1 as [|x l1 IH]; intros [|y l2]; try done.
  rewrite !differing_cons, IH. repeat case_decide; congruence.
Qed.

Lemma differing_zero l1 l2 :
  List.length l1 = List.length l2 -> differing l1 l2 = 0 <-> l1 = l2.
Proof.
  revert l2. induction l1 as [|x l1 IH]; intros [|y l2]; try done. simpl. intros [= Hlen].
  rewrite differing_cons. pose proof (differing_bounds l1 l2). case_decide.
  - split; [lia|]. congruence.
  - assert (x = y) as -> by (by destruct (decide (x = y))).
    rewrite Z.add_0_l, IH by done. split; congruence.
Qed.

Lemma cfg_loop_spec f1 f2 dev tot :
  let t1 := taken_count ∘ parse_line <$> f1 in
  let t2 := taken_count ∘ parse_line <$> f2 in
  0 <= dev <= tot -> tot + Z.of_nat (List.length f1 `min` List.length f2) <= int_max ->
  cfg_loop f1 f2 dev tot =
    Ok (dev + differing t1 t2, tot + Z.of_nat (List.length f1 `min` List.length f2),
        bool_decide (List.length f1 <= List.length f2)%nat,
        bool_decide (List.length f2 <= List.length f1)%nat).
Proof.
  revert f2 dev tot. induction f1 as [|x f1 IH]; intros [|y f2] dev tot t1 t2 Hdev Hmax; unfold t1, t2;
    simpl in *; rewrite ?Z.add_0_r; try done.
  change (list_fmap string Z) with (@fmap list _ string Z). rewrite differing_cons. unfold compose in *.
  destruct (Z.eqb_spec (taken_count (parse_line x)) (taken_count (parse_line y))) as [E|E]; cbn [negb mbind res_bind].
  - rewrite chk_ok by (unfold in_int, int_min; lia). cbn [mbind res_bind]. rewrite IH by lia.
    rewrite decide_False by tauto. do 4 f_equal; try lia; apply bool_decide_ext; lia.
  - rewrite chk_ok by (unfold in_int, int_min; lia). cbn [mbind res_bind].
    rewrite chk_ok by (unfold in_int, int_min; lia). cbn [mbind res_bind]. rewrite IH by lia.
    rewrite decide_True by done. do 4 f_equal; try lia; apply bool_decide_ext; lia.
Qed.

(** The deviation of two existing files, in terms of the counts of their lines. *)
Lemma deviation_spec fs s1 s2 c1 c2 :
  fs !! s1 = Some c1 -> fs !! s2 = Some c2 ->
  Z.of_nat (List.length (counts c1) `min` List.length (counts c2)) <= int_max ->
  calculateCFGBranchDeviation fs s1 s2 =
    Ok (if decide (List.length (counts c1) = List.length (counts c2)) then
          if decide (counts c1 = []) then d0
          else ddiv (double_of_Z (differing (counts c1) (counts c2)))
                    (double_of_Z (Z.of_nat (List.length (counts c1))))
        else d1).
Proof.
  intros H1 H2 Hmax. unfold calculateCFGBranchDeviation. rewrite H1, H2. unfold counts in *.
  rewrite !length_fmap in *. rewrite cfg_loop_spec by lia. cbn [mbind res_bind].
  rewrite !Z.add_0_l. repeat case_bool_decide; simpl negb; cbn [orb]; try lia.
  - assert (List.length (lines_of c1) = List.length (lines_of c2)) as E by lia.
    rewrite decide_True by done. rewrite <- E, Nat.min_id.
    destruct (lines_of c1); simpl length; [done|]. rewrite decide_False by done. done.
  - by rewrite decide_False by lia.
  - by rewrite decide_False by lia.
Qed.

(** Whenever the loop ends its counters are in range. *)
Lemma cfg_loop_range f1 f2 dev tot dev' n e1 e2 :
  cfg_loop f1 f2 dev tot = Ok (dev', n, e1, e2) -> 0 <= dev <= tot -> tot <= int_max ->
  0 <= dev' <= n /\ n <= int_max.
Proof.
  revert f2 dev tot. induction f1 as [|x f1 IH]; intros [|y f2] dev tot; simpl.
  1-3: intros [= <- <- <- <-]; auto.
  intros (d' & Ed & (t' & Et & E)%res_bind_inv)%res_bind_inv Hdev Hmax.
  apply chk_inv in Et as [-> Ht]. unfold in_int in Ht. eapply IH; [exact E| |lia].
  destruct (negb _); [apply chk_inv in Ed as [-> _]|injection Ed as <-]; lia.
Qed.

(** The deviation is zero or a positive number at most one. *)
Lemma deviation_value fs s1 s2 d :
  calculateCFGBranchDeviation fs s1 s2 = Ok d -> d = d0 \/ (dpos d /\ dle d d1 = true).
Proof.
  unfold calculateCFGBranchDeviation.
  destruct (fs !! s1) as [c1|], (fs !! s2) as [c2|]; [|intros [= <-]; auto; by right..].
  destruct (cfg_loop (lines_of c1) (lines_of c2) 0 0) as [[[[dev n] e1] e2]| | |] eqn:E; try done.
  cbn [mbind res_bind]. destruct (cfg_loop_range _ _ _ _ _ _ _ _ E) as [Hd Hn]; [lia|unfold int_max; lia|].
  destruct (negb e1 || negb e2); [intros [= <-]; by right|].
  destruct (Z.eqb_spec n 0); intros [= <-]; [by left|]. unfold int_max in *.
  destruct (decide (dev = 0)) as [->|].
  - left. apply ddiv_zero. lia.
  - right. split; [apply ddiv_pos|apply ddiv_le_one]; lia.
Qed.

(** ** The lines gcov writes *)

(** What gcov may add to the line of a branch. *)
Inductive branch_note := no_note | fallthrough | throw.

Definition note_text (n : branch_note) : string :=
  match n with no_note => "" | fallthrough => " (fallthrough)" | throw => " (throw)" end.

(** A branch with its execution count, or one that was never executed, and its note. *)
Definition gcov_line (branch : Z * option Z * branch_note) : string :=
  match branch with
  | (b, Some t, n) => "branch  " ++ print_int b ++ " taken " ++ print_int t ++ note_text n
  | (b, None, n) => "branch  " ++ print_int b ++ " never executed" ++ note_text n
  end.

Definition gcov_file (branches : list (Z * option Z * branch_note)) : string :=
  foldr (fun b rest => gcov_line b ++ String nl rest)%string "" branches.

Definition branch_ok (branch : Z * option Z * branch_note) : Prop :=
  in_int branch.1.1 /\ match branch.1.2 with Some t => in_int t | None => True end.

Definition reported (branch : Z * option Z * branch_note) : Z := default (-1) branch.1.2.

Lemma note_no_digit n rest : starts_with_digit rest = false -> starts_with_digit (note_text n ++ rest) = false.
Proof. by destruct n. Qed.

Lemma gcov_line_no_newline b : no_newline (gcov_line b).
Proof.
  destruct b as [[b [t|]] n]; unfold gcov_line; repeat apply no_newline_app;
    auto using no_space_no_newline, print_int_chars; try (by repeat constructor); destruct n; by repeat constructor.
Qed.

(** [sscanf] with the "taken" format on both kinds of line. *)
Lemma scan_branch b fmt rest :
  in_int b ->
  scan_loop (lits "branch" ++ [DSpace; DSpace; DInt; DSpace] ++ fmt)%list
    ("branch  " ++ print_int b ++ String " " rest) =
    (CInt b :: (scan_loop fmt (skip_spaces rest)).1, (scan_loop fmt (skip_spaces rest)).2).
Proof.
  intros Hb. change ("branch  " ++ ?s)%string with ("branch" ++ ("  " ++ s))%string.
  rewrite (scan_lits "branch") by (by repeat constructor). simpl app.
  change (scan_loop (DSpace :: DSpace :: DInt :: DSpace :: fmt) ("  " ++ ?s))
    with (scan_loop (DInt :: DSpace :: fmt) (skip_spaces (skip_spaces s))).
  rewrite !(proj1 (print_int_no_space _ _)). by rewrite scan_int.
Qed.

Lemma parse_gcov_line branch rest :
  branch_ok branch -> starts_with_digit rest = false ->
  taken_count (parse_line (gcov_line branch ++ rest)) = reported branch.
Proof.
  destruct branch as [[b [t|]] n]; intros [Hb Ht] Hrest; simpl in Hb, Ht; apply (note_no_digit n) in Hrest;
    unfold parse_line, gcov_line, taken_format.
  - rewrite !string_app_assoc.
    change (" taken " ++ ?s)%string with (String " " ("taken" ++ String " " s)).
    erewrite (sscanf_convs _ _ (CInt b) [CInt t]); [done|].
    rewrite scan_branch by done.
    change (skip_spaces ("taken" ++ ?s)) with ("taken" ++ s)%string.
    rewrite (scan_lits "taken") by (by repeat constructor).
    change (scan_loop [DSpace; DInt] (String " " ?s)) with (scan_loop [DInt] (skip_spaces s)).
    rewrite (proj1 (print_int_no_space _ _)), scan_int by done. reflexivity.
  - rewrite !string_app_assoc.
    change (" never executed" ++ ?s)%string with (String " " ("never executed" ++ s)).
    erewrite (sscanf_convs _ _ (CInt b) []).
    + simpl. by case_match.
    + rewrite scan_branch by done. reflexivity.
Qed.

Lemma counts_gcov_file branches :
  Forall branch_ok branches -> counts (gcov_file branches) = reported <$> branches.
Proof.
  unfold counts. induction branches as [|b bs IH]; [done|]. intros [Hb Hbs]%Forall_cons.
  simpl gcov_file. rewrite lines_of_line by apply gcov_line_no_newline. csimpl.
  unfold compose at 1. rewrite parse_gcov_line by done. f_equal. by apply IH.
Qed.

(** ** Properties *)

(** Fewer lines than an [int] counts, in one of the files. *)
Definition countable (fs : gmap string string) (s1 s2 : string) : Prop :=
  forall c1 c2, fs !! s1 = Some c1 -> fs !! s2 = Some c2 ->
    Z.of_nat (List.length (counts c1) `min` List.length (counts c2)) <= int_max.

(** Unless both files have more lines than an [int] can count, the deviation
    is computed and is a number between 0 and 1, never a NaN or a negative one,
    so the engine's tests [== 0] and [> 0] are complementary. *)
Theorem deviation_bounds fs s1 s2 :
  countable fs s1 s2 ->
  exists d, calculateCFGBranchDeviation fs s1 s2 = Ok d /\
    dle d0 d = true /\ dle d d1 = true /\ deq d d0 = negb (dlt d0 d).
Proof.
  intros Hsmall. assert (exists d, calculateCFGBranchDeviation fs s1 s2 = Ok d) as [d Hd].
  { destruct (fs !! s1) as [c1|] eqn:H1, (fs !! s2) as [c2|] eqn:H2.
    2-4: unfold calculateCFGBranchDeviation; rewrite H1, H2; eauto.
    rewrite (deviation_spec fs s1 s2 c1 c2) by auto. eauto. }
  exists d. split; [done|]. destruct (deviation_value fs s1 s2 d Hd) as [->|[Hp Hle]]; [done|].
  destruct (dpos_gt0 d Hp) as [Hgt Heq]. rewrite Hgt, Heq, Hle. split_and!; try done.
  by destruct d as [| | |[]].
Qed.

(** The deviation is zero exactly when neither file exists, or both exist and
    their lines report the same sequence of taken counts. *)
Theorem deviation_zero_iff fs s1 s2 :
  countable fs s1 s2 ->
  calculateCFGBranchDeviation fs s1 s2 = Ok d0 <->
    (fs !! s1 = None /\ fs !! s2 = None) \/
    (exists c1 c2, fs !! s1 = Some c1 /\ fs !! s2 = Some c2 /\ counts c1 = counts c2).
Proof.
  intros Hsmall. destruct (fs !! s1) as [c1|] eqn:H1, (fs !! s2) as [c2|] eqn:H2.
  2-4: unfold calculateCFGBranchDeviation; rewrite H1, H2; naive_solver.
  specialize (Hsmall c1 c2 H1 H2). rewrite (deviation_spec fs s1 s2 c1 c2) by done.
  assert ((Some c1 = None /\ Some c2 = None) \/
    (exists c1' c2', Some c1 = Some c1' /\ Some c2 = Some c2' /\ counts c1' = counts c2')
    <-> counts c1 = counts c2) as -> by naive_solver.
  destruct (decide (List.length (counts c1) = List.length (counts c2))) as [Hlen|Hlen].
  2:{ split; [done|]. by intros E; rewrite E in Hlen. }
  destruct (decide (counts c1 = [])) as [E|Hne].
  { rewrite E in *. split; [|done]. by destruct (counts c2). }
  rewrite <- (differing_zero _ _ Hlen). unfold int_max in *.
  assert (0 < Z.of_nat (List.length (counts c1))) by (destruct (counts c1); simpl in *; [done|lia]).
  pose proof (differing_bounds (counts c1) (counts c2)). split.
  - intros [= E]. destruct (decide (differing (counts c1) (counts c2) = 0)) as [|Hd]; [done|].
    pose proof (ddiv_pos (differing (counts c1) (counts c2))
      (Z.of_nat (List.length (counts c1))) ltac:(lia) ltac:(lia)) as Hp.
    by rewrite E in Hp.
  - intros ->. f_equal. apply ddiv_zero. lia.
Qed.

Lemma cfg_loop_sym f1 f2 dev tot :
  cfg_loop f2 f1 dev tot = '(dev, tot, e1, e2) ← cfg_loop f1 f2 dev tot; Ok (dev, tot, e2, e1).
Proof.
  revert f2 dev tot. induction f1 as [|x f1 IH]; intros [|y f2] dev tot; [done..|]. simpl.
  rewrite Z.eqb_sym. destruct (_ =? _); simpl; repeat (case_match; try done); simpl; try apply IH.
  all: repeat match goal with |- context [chk ?z] => destruct (chk z); simpl; try done end; apply IH.
Qed.

(** The deviation does not depend on which of the two files is the original. *)
Theorem deviation_symmetric fs s1 s2 :
  calculateCFGBranchDeviation fs s1 s2 = calculateCFGBranchDeviation fs s2 s1.
Proof.
  unfold calculateCFGBranchDeviation. destruct (fs !! s1) as [c1|], (fs !! s2) as [c2|]; try done.
  rewrite (cfg_loop_sym (lines_of c1) (lines_of c2)).
  destruct (cfg_loop (lines_of c1) (lines_of c2) 0 0) as [[[[dev n] e1] e2]| | |]; try done.
  cbn [mbind res_bind]. by rewrite orb_comm.
Qed.

(** C31: On gcov's own output the deviation is what the engine means by it: for
    two reports of the same number of branches it is the fraction of branches
    whose execution counts differ, a branch that was never executed being
    different from one taken any number of times. *)
Theorem deviation_of_gcov_reports fs s1 s2 bs1 bs2 :
  fs !! s1 = Some (gcov_file bs1) -> fs !! s2 = Some (gcov_file bs2) ->
  Forall branch_ok bs1 -> Forall branch_ok bs2 ->
  List.length bs1 = List.length bs2 -> bs1 <> [] -> Z.of_nat (List.length bs1) <= int_max ->
  calculateCFGBranchDeviation fs s1 s2 =
    Ok (ddiv (double_of_Z (differing (reported <$> bs1) (reported <$> bs2)))
             (double_of_Z (Z.of_nat (List.length bs1)))).
Proof.
  intros H1 H2 Hok1 Hok2 Hlen Hne Hmax. rewrite (deviation_spec fs s1 s2 _ _ H1 H2);
    rewrite !counts_gcov_file, !length_fmap by done; [|lia]. rewrite decide_True by done.
  destruct bs1; [done|]. by rewrite decide_False.
Qed.

(** ** Witnesses *)

Definition put_branches : list (Z * option Z * branch_note) := [(0, Some 3, fallthrough); (1, Some 7, no_note); (0, None, no_note)].
Definition mutant_branches : list (Z * option Z * branch_note) := [(0, Some 3, fallthrough); (1, Some 8, no_note); (0, Some 1, throw)].
Definition example_fs : gmap string string :=
  <["put" := gcov_file put_branches]> (<["mutant" := gcov_file mutant_branches]> ∅).

Lemma example_countable s1 s2 : countable example_fs s1 s2.
Proof.
  intros c1 c2 H1 _. apply (Z.le_trans _ (Z.of_nat (List.length (counts c1)))); [lia|].
  unfold example_fs in H1. rewrite !lookup_insert_Some in H1.
  destruct H1 as [[_ <-]|[_ [[_ <-]|[_ H1]]]]; [by vm_compute..|]. by rewrite lookup_empty in H1.
Qed.

Lemma deviation_bounds_witness :
  exists d, calculateCFGBranchDeviation example_fs "put" "mutant" = Ok d /\ dle d0 d = true.
Proof.
  destruct (deviation_bounds example_fs "put" "mutant" (example_countable _ _)) as (d & E & Hd & _).
  exists d. split; [exact E|exact Hd].
Defined.

Lemma deviation_zero_iff_witness : calculateCFGBranchDeviation example_fs "put" "put" = Ok d0.
Proof.
  apply (deviation_zero_iff example_fs "put" "put" (example_countable _ _)).
  right. exists (gcov_file put_branches), (gcov_file put_branches). done.
Defined.

Lemma deviation_of_gcov_reports_witness :
  calculateCFGBranchDeviation example_fs "put" "mutant" = Ok (ddiv (double_of_Z 2) (double_of_Z 3)).
Proof.
  rewrite (deviation_of_gcov_reports example_fs "put" "mutant" put_branches mutant_branches);
    [vm_compute; reflexivity|reflexivity|reflexivity| | |reflexivity|done|done].
  - repeat constructor; by vm_compute.
  - repeat constructor; by vm_compute.
Defined.

End CFGEval.
