(* ===== verification/System.v ===== *)
(** * The operating system as the engine sees it

    A file system maps paths to contents, an environment maps variables to
    values, and a process has a current directory and makes directories; all are
    threaded explicitly through the code that uses them. *)

From Stdlib Require Import Ascii String.
From S2P Require Import Prelude CString.

(** [made] lists the directories that the process made. *)
Record World := mk_World { fs : gmap string string; env : gmap string string; pwd : string; made : list string }.

(** A process that has just been started in the root directory. *)
Definition world_of (files vars : gmap string string) : World := mk_World files vars "/" [].
Definition with_fs (w : World) (files : gmap string string) : World := mk_World files (env w) (pwd w) (made w).

Definition getenv (w : World) (v : string) : option string := env w !! v.
Definition setenv (w : World) (v x : string) : World := mk_World (fs w) (<[v := x]> (env w)) (pwd w) (made w).
Definition read_file (w : World) (path : string) : option string := fs w !! path.
Definition write_file (w : World) (path content : string) : World := with_fs w (<[path := content]> (fs w)).
(** Opening with mode "a+" creates the file; what is printed goes to its end. *)
Definition append_file (w : World) (path text : string) : World :=
  write_file w path (default "" (read_file w path) ++ text).
Definition remove_file (w : World) (path : string) : World := with_fs w (delete path (fs w)).

(** A path that does not start at the root starts at the current directory. *)
Definition resolve (w : World) (path : string) : string :=
  match path with String "/" _ => path | _ => pwd w ++ "/" ++ path end.

(** The directory that a path without links lies in. *)
Definition parent (path : string) : string :=
  match strrchr path "/" with Some k => if k =? 0 then "/" else String.substring 0 (Z.to_nat k) path | None => path end.

(** A directory that is there can be entered. *)
Definition chdir (w : World) (path : string) : World :=
  mk_World (fs w) (env w) (if String.eqb path ".." then parent (pwd w) else resolve w path) (made w).
Definition mkdir (w : World) (path : string) : World := mk_World (fs w) (env w) (pwd w) (made w ++ [resolve w path]).

Lemma read_write_eq w p c : read_file (write_file w p c) p = Some c.
Proof. apply lookup_insert_eq. Qed.

Lemma read_write_ne w p q c : p <> q -> read_file (write_file w p c) q = read_file w q.
Proof. intros H. by apply lookup_insert_ne. Qed.

Lemma read_append_ne w p q c : p <> q -> read_file (append_file w p c) q = read_file w q.
Proof. apply read_write_ne. Qed.

Lemma getenv_write w p c v : getenv (write_file w p c) v = getenv w v.
Proof. reflexivity. Qed.

#[export] Hint Rewrite read_write_eq getenv_write : cres.
#[export] Hint Rewrite read_write_ne read_append_ne using congruence : cres.
