(* ===== verification/CuTest.v ===== *)
(** * The forked CuTest library (src/CuTest/CuTest.forked.c)

    The engine replaces the CuTest library of the program under test by this
    one, which runs a suite and reports its failures through two files.

    [CuString] is the growing character buffer, modelled byte by byte: the
    allocation has [size] bytes, the text ends at the first NUL, and an access
    beyond the allocation is undefined.  A test function is the sequence of
    assertions it makes; a failing assertion leaves the function ([longjmp]).
    [CuSuiteRun] works on a file system and an environment, both maps. *)

From Stdlib Require Import Ascii String.
From Stdlib Require Import SpecFloat.
From S2P Require Import Prelude Double CString System.

Module CuTest.

Definition HUGE_STRING_LEN : Z := 8192.
Definition STRING_MAX : Z := 256.
Definition STRING_INC : Z := 256.
Definition MAX_TEST_CASES : Z := 1024.

Definition NUL : ascii := "000"%char.

(** ** Memory operations on a buffer *)

(** Writing bytes at a position. *)
Definition write_bytes (buf : list ascii) (pos : Z) (bytes : list ascii) : res (list ascii) :=
  if decide (0 <= pos /\ pos + Z.of_nat (List.length bytes) <= Z.of_nat (List.length buf)) then
    Ok (take (Z.to_nat pos) buf ++ bytes ++ drop (Z.to_nat pos + List.length bytes) buf)%list
  else Undef.

(** Reading [n] bytes from a position. *)
Definition read_bytes (buf : list ascii) (pos n : Z) : res (list ascii) :=
  if decide (0 <= pos /\ 0 <= n /\ pos + n <= Z.of_nat (List.length buf)) then
    Ok (take (Z.to_nat n) (drop (Z.to_nat pos) buf))
  else Undef.

(** The position of the terminating NUL. *)
Fixpoint find_nul (buf : list ascii) : option Z :=
  match buf with
  | [] => None
  | c :: buf => if decide (c = NUL) then Some 0 else (fun n => n + 1) <$> find_nul buf
  end.

Definition bytes (s : string) : list ascii := list_ascii_of_string s.

Definition strcat (buf : list ascii) (text : string) : res (list ascii) :=
  match find_nul buf with
  | Some p => write_bytes buf p (bytes text ++ [NUL])%list
  | None => Undef
  end.

(** ** CuString *)

Record CuString := mk_CuString { length : Z; size : Z; buffer : list ascii }.

Section CuString.
(** The content of fresh memory. *)
Context (junk : ascii).

Definition malloc_bytes (n : Z) : list ascii := replicate (Z.to_nat n) junk.

Definition CuStringInit : CuString :=
  mk_CuString 0 STRING_MAX (<[0%nat := NUL]> (malloc_bytes STRING_MAX)).

Definition CuStringNew : CuString :=
  mk_CuString 0 STRING_MAX (<[0%nat := NUL]> (malloc_bytes STRING_MAX)).

Definition CuStringResize (str : CuString) (newSize : Z) : res CuString :=
  if decide (0 <= newSize) then
    let added := (Z.to_nat newSize - List.length (buffer str))%nat in
    Ok (mk_CuString (length str) newSize
          (take (Z.to_nat newSize) (buffer str) ++ replicate added junk)%list)
  else Undef.

(** The growth step shared by [CuStringAppend] and [CuStringInsert]. *)
Definition CuStringGrow (str : CuString) (len : Z) : res CuString :=
  need ← chk (length str + len + 1);
  if size str <=? need then
    newSize ← chk (need + STRING_INC);
    CuStringResize str newSize
  else Ok str.

Definition CuStringAppend (str : CuString) (text : option string) : res CuString :=
  let text := default "NULL" text in
  let len := wrap_int (strlen text) in
  str ← CuStringGrow str len;
  length' ← chk (length str + len);
  buffer' ← strcat (buffer str) text;
  Ok (mk_CuString length' (size str) buffer').

Definition CuStringAppendChar (str : CuString) (ch : ascii) : res CuString :=
  CuStringAppend str (Some (if decide (ch = NUL) then "" else String ch "")).

(** [formatted] is what [vsprintf] produces; it goes through a buffer on the
    stack. *)
Definition CuStringAppendFormat (str : CuString) (formatted : string) : res CuString :=
  if strlen formatted <? HUGE_STRING_LEN then CuStringAppend str (Some formatted) else Undef.

Definition CuStringInsert (str : CuString) (text : string) (pos : Z) : res CuString :=
  let len := wrap_int (strlen text) in
  let pos := if length str <? pos then length str else pos in
  str ← CuStringGrow str len;
  moved ← read_bytes (buffer str) pos (length str - pos + 1);
  buffer' ← write_bytes (buffer str) (pos + len) moved;
  length' ← chk (length str + len);
  text_bytes ← read_bytes (bytes text) 0 len;
  buffer'' ← write_bytes buffer' pos text_bytes;
  Ok (mk_CuString length' (size str) buffer'').

(** ** Representation *)

Definition no_nul (l : list ascii) : Prop := NUL ∉ l.

(** The buffer holds the text: its length, a NUL, and unused space. *)
Definition repr (str : CuString) (content : list ascii) : Prop :=
  length str = Z.of_nat (List.length content) /\ no_nul content /\
  Z.of_nat (List.length (buffer str)) = size str /\
  exists rest, buffer str = (content ++ NUL :: rest)%list.

Lemma find_nul_repr content rest :
  no_nul content -> find_nul (content ++ NUL :: rest)%list = Some (Z.of_nat (List.length content)).
Proof.
  unfold no_nul. induction content as [|c content IH]; intros Hn.
  - reflexivity.
  - apply not_elem_of_cons in Hn as [Hc Hn]. simpl. rewrite decide_False by done.
    rewrite IH by done. simpl. f_equal. lia.
Qed.

Lemma write_bytes_mid pre old new post :
  List.length old = List.length new ->
  write_bytes (pre ++ old ++ post) (Z.of_nat (List.length pre)) new = Ok (pre ++ new ++ post)%list.
Proof.
  intros Hlen. unfold write_bytes. rewrite !length_app, decide_True by lia.
  rewrite Nat2Z.id, take_app_length.
  replace (List.length pre + List.length new)%nat with (List.length (pre ++ old))
    by (rewrite length_app; lia).
  by rewrite (app_assoc pre old post), drop_app_length.
Qed.

Lemma read_bytes_mid pre mid post :
  read_bytes (pre ++ mid ++ post) (Z.of_nat (List.length pre)) (Z.of_nat (List.length mid)) = Ok mid.
Proof.
  unfold read_bytes. rewrite !length_app, decide_True by lia.
  by rewrite !Nat2Z.id, drop_app_length, take_app_length.
Qed.

(** Any buffer that is long enough splits off a block of a given size. *)
Lemma split_block (l : list ascii) n :
  (n <= List.length l)%nat -> exists a b, l = (a ++ b)%list /\ List.length a = n.
Proof.
  intros Hn. exists (take n l), (drop n l). rewrite take_drop. split; [done|].
  rewrite length_take. lia.
Qed.

(** Growing keeps the text and makes room for [len] more characters. *)
Lemma CuStringGrow_spec str content len :
  repr str content -> 0 <= len ->
  Z.of_nat (List.length content) + len + 1 + STRING_INC <= int_max ->
  exists str', CuStringGrow str len = Ok str' /\ repr str' content /\
    Z.of_nat (List.length content) + len + 1 <= size str'.
Proof.
  intros (Hl & Hn & Hs & rest & Hb) Hlen Hmax. unfold CuStringGrow, chk, STRING_INC in *.
  assert (forall z, 0 <= z <= int_max -> in_int z) as Hin by (unfold in_int, int_min; lia).
  rewrite decide_True by (apply Hin; lia). simpl.
  destruct (Z.leb_spec (size str) (length str + len + 1)).
  - rewrite decide_True by (apply Hin; lia). simpl. unfold CuStringResize.
    rewrite decide_True by lia. eexists. split; [done|]. unfold repr. simpl.
    assert (List.length (buffer str) = S (List.length content + List.length rest))%nat as Hbl
      by (rewrite Hb, length_app; simpl; lia).
    split; [|lia]. split_and!; [done..| |].
    + rewrite length_app, length_take, length_replicate. lia.
    + rewrite take_ge by lia. rewrite Hb. eexists. by rewrite <- app_assoc.
  - exists str. split; [done|]. split; [|lia]. split_and!; try done. by exists rest.
Qed.

Lemma bytes_length s : List.length (bytes s) = String.length s.
Proof. unfold bytes. induction s; simpl; congruence. Qed.

Lemma string_length_int s : strlen s <= int_max -> wrap_int (strlen s) = strlen s.
Proof.
  intros H. apply wrap_int_id. unfold in_int, strlen, int_min in *. lia.
Qed.

(** ** Properties of the buffer *)

Lemma CuStringAppend_repr str content text :
  repr str content -> no_nul (bytes (default "NULL" text)) ->
  Z.of_nat (List.length content) + strlen (default "NULL" text) + 1 + STRING_INC <= int_max ->
  exists str', CuStringAppend str text = Ok str' /\
    repr str' (content ++ bytes (default "NULL" text))%list.
Proof.
  intros Hr Hnul Hmax. set (t := default "NULL" text) in *. unfold CuStringAppend. fold t.
  pose proof (bytes_length t) as Hbl. unfold STRING_INC in *.
  rewrite string_length_int by (unfold strlen in *; lia).
  destruct (CuStringGrow_spec str content (strlen t)) as (s1 & -> & (Hl & Hn & Hs & rest & Hb) & Hroom);
    [done|unfold strlen; lia|unfold STRING_INC; lia|].
  simpl. rewrite Hl. unfold chk. unfold strlen in *. rewrite <- Hbl in *.
  rewrite decide_True by (unfold in_int, int_min; lia). simpl. unfold strcat.
  rewrite Hb, find_nul_repr by done.
  assert (List.length (buffer s1) = List.length content + S (List.length rest))%nat as Hlen
    by (rewrite Hb, length_app; simpl; lia).
  destruct (split_block (NUL :: rest) (S (List.length (bytes t)))) as (a & b & Hab & Ha);
    [simpl; lia|].
  rewrite Hab, write_bytes_mid by (rewrite length_app; simpl; lia). simpl.
  eexists. split; [done|]. unfold repr. simpl. rewrite !length_app. simpl. split_and!.
  - lia.
  - unfold no_nul in *. rewrite elem_of_app. tauto.
  - assert (List.length (NUL :: rest) = List.length a + List.length b)%nat as Hx
      by (by rewrite Hab, length_app). simpl in Hx. lia.
  - exists b. by rewrite <- !app_assoc.
Qed.

Lemma CuStringInsert_repr str content text pos :
  repr str content -> no_nul (bytes text) -> 0 <= pos ->
  Z.of_nat (List.length content) + strlen text + 1 + STRING_INC <= int_max ->
  exists str', CuStringInsert str text pos = Ok str' /\
    repr str' (take (Z.to_nat pos) content ++ bytes text ++ drop (Z.to_nat pos) content)%list.
Proof.
  intros Hr Hnul Hpos Hmax. unfold CuStringInsert.
  pose proof (bytes_length text) as Hbl. unfold STRING_INC in *.
  rewrite string_length_int by (unfold strlen in *; lia).
  destruct Hr as (Hl0 & Hrest). set (p := if length str <? pos then length str else pos).
  destruct (CuStringGrow_spec str content (strlen text))
    as (s1 & -> & (Hl & Hn & Hs & rest & Hb) & Hroom);
    [by split|unfold strlen; lia|unfold STRING_INC; lia|]. simpl.
  set (A := take (Z.to_nat pos) content). set (B := drop (Z.to_nat pos) content).
  assert (content = (A ++ B)%list) as HAB
    by (unfold A, B; by rewrite take_drop).
  assert (p = Z.of_nat (List.length A)) as Hp.
  { unfold p, A. rewrite length_take, Hl0.
    destruct (Z.ltb_spec (Z.of_nat (List.length content)) pos); lia. }
  assert (List.length content = List.length A + List.length B)%nat as HlenAB
    by (rewrite HAB at 1; by rewrite length_app).
  unfold strlen in *. rewrite <- Hbl in *. clearbody A B p. subst content p.
  assert (List.length (buffer s1) = List.length A + List.length B + S (List.length rest))%nat as Hlen
    by (rewrite Hb, !length_app; simpl; lia).
  destruct (split_block (B ++ NUL :: rest)%list (List.length (bytes text) + S (List.length B)))
    as (X & X3 & HX & HXl); [rewrite length_app; simpl; lia|].
  destruct (split_block X (List.length (bytes text))) as (X1 & X2 & -> & HX1); [lia|].
  rewrite length_app in HXl.
  assert (buffer s1 = A ++ (B ++ [NUL]) ++ rest)%list as Hb1
    by (rewrite Hb; by rewrite <- !app_assoc).
  assert (buffer s1 = (A ++ X1) ++ X2 ++ X3)%list as Hb2
    by (rewrite Hb, <- !app_assoc, HX; by rewrite <- !app_assoc).
  assert (read_bytes (buffer s1) (Z.of_nat (List.length A)) (length s1 - Z.of_nat (List.length A) + 1)
    = Ok (B ++ [NUL])%list) as ->.
  { rewrite Hb1. replace (length s1 - _ + 1) with (Z.of_nat (List.length (B ++ [NUL])%list))
      by (rewrite length_app; simpl; lia). apply read_bytes_mid. }
  simpl. rewrite Hb2.
  replace (Z.of_nat (List.length A) + Z.of_nat (List.length (bytes text)))
    with (Z.of_nat (List.length (A ++ X1)%list)) by (rewrite length_app; lia).
  rewrite write_bytes_mid by (rewrite length_app; simpl; lia). simpl.
  rewrite Hl. unfold chk. rewrite decide_True by (unfold in_int, int_min; lia). simpl.
  assert (read_bytes (bytes text) 0 (Z.of_nat (List.length (bytes text))) = Ok (bytes text)) as ->.
  { pose proof (read_bytes_mid [] (bytes text) []) as E. by rewrite app_nil_r in E. }
  simpl. rewrite <- (app_assoc A X1), write_bytes_mid by lia. simpl.
  eexists. split; [done|]. unfold repr. simpl. rewrite !length_app. simpl. split_and!.
  - lia.
  - unfold no_nul in *. rewrite !elem_of_app in *. tauto.
  - rewrite Hb2, !length_app in Hs. lia.
  - exists X3. by rewrite <- !app_assoc.
Qed.
End CuString.

(** ** Assertions and tests *)

(** A call of one of the assertion functions. *)
Inductive assertion :=
| AFail (file : string) (line : Z) (message2 message : option string)
| AAssert (file : string) (line : Z) (message : option string) (condition : bool)
| AStrEquals (file : string) (line : Z) (message expected actual : option string)
| AIntEquals (file : string) (line : Z) (message : option string) (expected actual : Z)
| ADblEquals (file : string) (line : Z) (message : option string) (expected actual delta : double)
| APtrEquals (file : string) (line : Z) (message : option string) (expected actual : Z).

Record CuTest := mk_CuTest {
  name : string;
  function : list assertion;
  failed : Z;
  ran : Z;
  message : option string;
  jumpBuf : bool
}.

Definition CuTestInit (name : string) (function : list assertion) : CuTest :=
  mk_CuTest name function 0 0 None false.

(** The text of a buffer. *)
Fixpoint text_of (buf : list ascii) : string :=
  match buf with
  | [] => ""
  | c :: buf => if decide (c = NUL) then "" else String c (text_of buf)
  end.

Section CuTestRun.
Context (junk : ascii).
(** The formats [%lf] and [%p]. *)
Context (print_lf : double -> string) (print_ptr : Z -> string).

(** The state of the test and whether the function was left by [longjmp];
    without a jump buffer the caller goes on to free an object on its stack. *)
Definition CuFailInternal (tc : CuTest) (file : string) (line : Z) (str : CuString) :
    res (CuTest * bool) :=
  let buf := file ++ ":" ++ print_int line ++ ": " in
  if strlen buf <? HUGE_STRING_LEN then
    str ← CuStringInsert junk str buf 0;
    if jumpBuf tc then
      Ok (mk_CuTest (name tc) (function tc) 1 (ran tc) (Some (text_of (buffer str))) (jumpBuf tc),
          true)
    else Undef
  else Undef.

Definition CuFail_Line (tc : CuTest) (file : string) (line : Z) (message2 message : option string) :
    res (CuTest * bool) :=
  let str := CuStringInit junk in
  str ← match message2 with
        | Some m2 => str ← CuStringAppend junk str (Some m2); CuStringAppend junk str (Some ": ")
        | None => Ok str
        end;
  str ← CuStringAppend junk str message;
  CuFailInternal tc file line str.

Definition CuAssert_Line (tc : CuTest) (file : string) (line : Z) (message : option string)
    (condition : bool) : res (CuTest * bool) :=
  if condition then Ok (tc, false) else CuFail_Line tc file line None message.

Definition str_equal (expected actual : option string) : bool :=
  match expected, actual with
  | None, None => true
  | Some e, Some a => String.eqb e a
  | _, _ => false
  end.

Definition CuAssertStrEquals_LineMsg (tc : CuTest) (file : string) (line : Z)
    (message expected actual : option string) : res (CuTest * bool) :=
  if str_equal expected actual then Ok (tc, false)
  else
    let str := CuStringInit junk in
    str ← match message with
          | Some m => str ← CuStringAppend junk str (Some m); CuStringAppend junk str (Some ": ")
          | None => Ok str
          end;
    str ← CuStringAppend junk str (Some "expected <");
    str ← CuStringAppend junk str expected;
    str ← CuStringAppend junk str (Some "> but was <");
    str ← CuStringAppend junk str actual;
    str ← CuStringAppend junk str (Some ">");
    CuFailInternal tc file line str.

(** [sprintf] into a buffer of [STRING_MAX] bytes. *)
Definition short_buf (text : string) : res string :=
  if strlen text <? STRING_MAX then Ok text else Undef.

Definition CuAssertIntEquals_LineMsg (tc : CuTest) (file : string) (line : Z)
    (message : option string) (expected actual : Z) : res (CuTest * bool) :=
  if expected =? actual then Ok (tc, false)
  else
    buf ← short_buf ("expected <" ++ print_int expected ++ "> but was <" ++ print_int actual ++ ">");
    CuFail_Line tc file line message (Some buf).

Definition CuAssertDblEquals_LineMsg (tc : CuTest) (file : string) (line : Z)
    (message : option string) (expected actual delta : double) : res (CuTest * bool) :=
  if dle (SFabs (dsub expected actual)) delta then Ok (tc, false)
  else
    buf ← short_buf ("expected <" ++ print_lf expected ++ "> but was <" ++ print_lf actual ++ ">");
    CuFail_Line tc file line message (Some buf).

Definition CuAssertPtrEquals_LineMsg (tc : CuTest) (file : string) (line : Z)
    (message : option string) (expected actual : Z) : res (CuTest * bool) :=
  if expected =? actual then Ok (tc, false)
  else
    buf ← short_buf ("expected pointer <0x" ++ print_ptr expected ++ "> but was <0x" ++
                     print_ptr actual ++ ">");
    CuFail_Line tc file line message (Some buf).

Definition do_assert (a : assertion) (tc : CuTest) : res (CuTest * bool) :=
  match a with
  | AFail file line m2 m => CuFail_Line tc file line m2 m
  | AAssert file line m c => CuAssert_Line tc file line m c
  | AStrEquals file line m e a => CuAssertStrEquals_LineMsg tc file line m e a
  | AIntEquals file line m e a => CuAssertIntEquals_LineMsg tc file line m e a
  | ADblEquals file line m e a d => CuAssertDblEquals_LineMsg tc file line m e a d
  | APtrEquals file line m e a => CuAssertPtrEquals_LineMsg tc file line m e a
  end.

(** The test function, up to its end or to the first jump. *)
Fixpoint run_body (body : list assertion) (tc : CuTest) : res CuTest :=
  match body with
  | [] => Ok tc
  | a :: body =>
      '(tc, jumped) ← do_assert a tc;
      if jumped : bool then Ok tc else run_body body tc
  end.

Definition CuTestRun (tc : CuTest) : res CuTest :=
  let tc := mk_CuTest (name tc) (function tc) (failed tc) 1 (message tc) true in
  tc ← run_body (function tc) tc;
  Ok (mk_CuTest (name tc) (function tc) (failed tc) (ran tc) (message tc) false).

(** ** Suites *)

Record CuSuite := mk_CuSuite { tests : list CuTest; failCount : Z }.
Definition count (s : CuSuite) : Z := Z.of_nat (List.length (tests s)).

Definition CuSuiteInit : CuSuite := mk_CuSuite [] 0.

(** The assertion on the array bound ends the process. *)
Definition CuSuiteAdd (s : CuSuite) (tc : CuTest) : res CuSuite :=
  if count s <? MAX_TEST_CASES then Ok (mk_CuSuite (tests s ++ [tc])%list (failCount s))
  else Exit 134.

Fixpoint CuSuiteAddAll (s : CuSuite) (tcs : list CuTest) : res CuSuite :=
  match tcs with
  | [] => Ok s
  | tc :: tcs => s ← CuSuiteAdd s tc; CuSuiteAddAll s tcs
  end.
Definition CuSuiteAddSuite (s s2 : CuSuite) : res CuSuite := CuSuiteAddAll s (tests s2).

(** The first loop of [CuSuiteRun]. *)
Fixpoint run_tests (tcs : list CuTest) (failCount : Z) : res (list CuTest * Z) :=
  match tcs with
  | [] => Ok ([], failCount)
  | tc :: tcs =>
      tc ← CuTestRun tc;
      let failCount := if failed tc =? 0 then failCount else failCount + 1 in
      '(tcs, failCount) ← run_tests tcs failCount;
      Ok (tc :: tcs, failCount)
  end.

(** The second loop: the identifiers of the failed tests and the text of the
    report. *)
Fixpoint report_loop (tcs : list CuTest) (j k failCount : Z) (killed_by_tests : list Z)
    (log : string) : res (list Z * Z * string) :=
  match tcs with
  | [] => Ok (killed_by_tests, failCount, log)
  | tc :: tcs =>
      if failed tc =? 0 then report_loop tcs (j + 1) k failCount killed_by_tests log
      else
        killed_by_tests ← store killed_by_tests k (j + 1);
        let failCount := failCount + 1 in
        report_loop tcs (j + 1) (k + 1) failCount killed_by_tests
          (log ++ print_int failCount ++ ") " ++ name tc ++ ": " ++
           default "(null)" (message tc) ++ String nl "")
  end.

(** The third loop: the identifiers separated by commas. *)
Fixpoint ids_loop (killed_by_tests : list Z) (i : Z) (buf : string) : string :=
  match killed_by_tests with
  | [] => buf
  | x :: rest =>
      if x =? 0 then buf
      else ids_loop rest (i + 1) (buf ++ (if i =? 0 then "" else ",") ++ print_int x)
  end.

(** [mutant_kill_count], 0 unless [fscanf] stores a number. *)
Definition stored_kill_count (tmp_results : string) : Z :=
  match sscanf tmp_results [DInt] with
  | (_, CInt n :: _) => n
  | _ => 0
  end.

Definition CuSuiteRun (w : World) (s : CuSuite) : res (World * CuSuite) :=
  match getenv w "MUTATION_RESULTS_PATH", getenv w "IS_MUTATE" with
  | Some mutation_results_path, Some is_mutate_value =>
      let is_mutate := String.eqb is_mutate_value "true" in
      let w := append_file w mutation_results_path "" in
      '(tcs, fails) ← run_tests (tests s) (failCount s);
      let s := mk_CuSuite tcs fails in
      if negb is_mutate then Ok (w, s)
      else if failCount s =? 0 then
        Ok (append_file w mutation_results_path ("status: (survived!!)" ++ String nl ""), s)
      else
        let w := append_file w mutation_results_path
          ("status: (killed)" ++ String nl ("description: (" ++ print_int (failCount s) ++ ") of (" ++
           print_int (count s) ++ ") tests failed:" ++ String nl "")) in
        '(killed_by_tests, fails, log) ←
          report_loop tcs 0 0 0 (replicate (List.length tcs) 0) "";
        let w := append_file w mutation_results_path log in
        let buf := ids_loop killed_by_tests 0 "" in
        if strlen buf <? 1024 then
          match getenv w "TEMP_RESULTS_PATH" with
          | Some temp_results_path =>
              match read_file w temp_results_path with
              | Some tmp_results =>
                  killed ← chk (stored_kill_count tmp_results + 1);
                  Ok (write_file w temp_results_path
                        (print_int killed ++ " " ++ print_int fails ++ " " ++
                         print_int (count s) ++ " " ++ buf), s)
              | None => Undef
              end
          | None => Undef
          end
        else Undef
  | _, _ => Undef
  end.

(** One character for each test, then an empty line. *)
Fixpoint summary_loop (tcs : list CuTest) (summary : CuString) : res CuString :=
  match tcs with
  | [] => Ok summary
  | tc :: tcs =>
      summary ← CuStringAppend junk summary (Some (if failed tc =? 0 then "." else "F"));
      summary_loop tcs summary
  end.

Definition CuSuiteSummary (s : CuSuite) (summary : CuString) : res CuString :=
  summary ← summary_loop (tests s) summary;
  CuStringAppend junk summary (Some (String nl (String nl ""))).

Fixpoint details_loop (tcs : list CuTest) (failCount : Z) (details : CuString) : res CuString :=
  match tcs with
  | [] => Ok details
  | tc :: tcs =>
      if failed tc =? 0 then details_loop tcs failCount details
      else
        let failCount := failCount + 1 in
        details ← CuStringAppendFormat junk details
          (print_int failCount ++ ") " ++ name tc ++ ": " ++ default "(null)" (message tc) ++
           String nl "");
        details_loop tcs failCount details
  end.

Definition CuSuiteDetails (s : CuSuite) (details : CuString) : res CuString :=
  if failCount s =? 0 then
    let passCount := count s - failCount s in
    let testWord := if passCount =? 1 then "test" else "tests" in
    CuStringAppendFormat junk details
      ("OK (" ++ print_int passCount ++ " " ++ testWord ++ ")" ++ String nl "")
  else
    details ← (if failCount s =? 1 then
                 CuStringAppend junk details (Some ("there was (1) test failure:" ++ String nl ""))
               else
                 CuStringAppendFormat junk details
                   ("there were (" ++ print_int (failCount s) ++ ") test failures:" ++ String nl ""));
    details ← details_loop (tests s) 0 details;
    details ← CuStringAppend junk details (Some (String nl ("!!!FAILURES!!!" ++ String nl "")));
    details ← CuStringAppendFormat junk details ("Runs: " ++ print_int (count s) ++ " ");
    details ← CuStringAppendFormat junk details
      ("Passes: " ++ print_int (count s - failCount s) ++ " ");
    CuStringAppendFormat junk details ("Fails: " ++ print_int (failCount s) ++ String nl "").
End CuTestRun.

(** ** What the assertions do *)

Lemma CuStringInit_repr junk : repr (CuStringInit junk) [].
Proof.
  unfold CuStringInit, repr, malloc_bytes, STRING_MAX. simpl. split_and!; try done.
  - apply not_elem_of_nil.
  - by eexists.
Qed.

Lemma text_of_repr str content :
  repr str content -> text_of (buffer str) = string_of_list_ascii content.
Proof.
  intros (_ & Hn & _ & rest & ->). unfold no_nul in Hn.
  induction content as [|c content IH]; simpl; [done|].
  apply not_elem_of_cons in Hn as [Hc Hn]. rewrite decide_False by done. f_equal. by apply IH.
Qed.

(** A text without NUL of at most [n] characters. *)
Definition ok_text (n : Z) (s : string) : Prop := no_nul (bytes s) /\ strlen s <= n.

#[global] Instance ok_text_dec n s : Decision (ok_text n s).
Proof. unfold ok_text, no_nul. apply _. Defined.

Lemma bytes_app s t : bytes (s ++ t) = (bytes s ++ bytes t)%list.
Proof. unfold bytes. induction s as [|c s IH]; simpl; [done|]. by rewrite IH. Qed.

Lemma ok_text_app n m s t : ok_text n s -> ok_text m t -> ok_text (n + m) (s ++ t).
Proof.
  intros [Hs Hls] [Ht Hlt]. split.
  - unfold no_nul in *. rewrite bytes_app, elem_of_app. tauto.
  - unfold strlen in *. rewrite string_app_length. lia.
Qed.

Lemma ok_text_le n m s : n <= m -> ok_text n s -> ok_text m s.
Proof. intros Hle [? ?]. split; [done|lia]. Qed.

Lemma ok_text_const n s :
  bool_decide (NUL ∉ bytes s) = true -> (strlen s <=? n) = true -> ok_text n s.
Proof. intros Hb%bool_decide_eq_true_1 Hn%Z.leb_le. by split. Qed.

(** Constant texts. *)
Ltac ok_const := by apply ok_text_const; vm_compute.

Lemma print_int_ok z : in_int z -> ok_text 33 (print_int z).
Proof.
  intros Hz. split; [|by apply print_int_length].
  unfold no_nul, bytes. intros Hin.
  pose proof (print_int_forall (fun c => c <> NUL) z) as HF. rewrite Forall_forall in HF.
  eapply HF; [|done|exact Hin|done]. intros d (n & Hn & ->)%digit_cases.
  do 10 (destruct n as [|n]; [done|]). lia.
Qed.

Lemma string_bytes s : string_of_list_ascii (bytes s) = s.
Proof. apply string_of_list_ascii_of_string. Qed.

(** Appending within a mebibyte always succeeds. *)
Lemma append_ok junk str s t :
  repr str (bytes s) -> ok_text (2 ^ 19) s -> ok_text (2 ^ 19) (default "NULL" t) ->
  exists str', CuStringAppend junk str t = Ok str' /\ repr str' (bytes (s ++ default "NULL" t)).
Proof.
  intros Hr [_ Hs] [Ht Hlt].
  destruct (CuStringAppend_repr junk str (bytes s) t) as (str' & E & Hr'); [done..| |].
  { rewrite bytes_length. unfold strlen, STRING_INC, int_max in *. lia. }
  exists str'. by rewrite bytes_app.
Qed.

Section assertions.
Context (junk : ascii) (print_lf : double -> string) (print_ptr : Z -> string).

Definition location (file : string) (line : Z) : string := file ++ ":" ++ print_int line ++ ": ".

(** The text put in front of a message. *)
Definition prefixed (message : option string) (text : string) : string :=
  match message with Some m => m ++ ": " ++ text | None => text end.

Definition ok_message (m : option string) : Prop := ok_text 4000 (default "" m).
#[global] Instance ok_message_dec m : Decision (ok_message m).
Proof. unfold ok_message. apply _. Defined.

Lemma CuFailInternal_spec tc file line str text :
  jumpBuf tc = true -> ok_text 4000 file -> in_int line ->
  repr str (bytes text) -> ok_text (2 ^ 19) text ->
  CuFailInternal junk tc file line str =
    Ok (mk_CuTest (name tc) (function tc) 1 (ran tc) (Some (location file line ++ text)) true, true).
Proof.
  intros Hj Hfile Hline Hr Htext. unfold CuFailInternal. fold (location file line).
  assert (ok_text 5000 (location file line)) as [Hn Hl].
  { apply (ok_text_le (4000 + (1 + (33 + 2)))); [lia|].
    repeat apply ok_text_app; [done|ok_const|by apply print_int_ok|ok_const]. }
  destruct (Z.ltb_spec (strlen (location file line)) HUGE_STRING_LEN); [|unfold HUGE_STRING_LEN in *; lia].
  destruct (CuStringInsert_repr junk str (bytes text) (location file line) 0) as (str' & -> & Hr');
    [done..|lia| |].
  { rewrite bytes_length. destruct Htext as [_ Ht]. unfold strlen, STRING_INC, int_max in *. lia. }
  simpl. rewrite Hj. do 4 f_equal. rewrite (text_of_repr _ _ Hr'). simpl.
  by rewrite drop_0, <- bytes_app, string_bytes.
Qed.

Definition fail_with (tc : CuTest) (file : string) (line : Z) (text : string) : CuTest :=
  mk_CuTest (name tc) (function tc) 1 (ran tc) (Some (location file line ++ text)) true.

Lemma ok_default n m : 4 <= n -> ok_text n (default "" m) -> ok_text n (default "NULL" m).
Proof.
  intros Hn. destruct m as [m|]; [done|]. intros _. apply (ok_text_le 4); [done|]. ok_const.
Qed.

(** The optional message in front, as two appends on the initial buffer. *)
Lemma prefix_spec m :
  ok_message m ->
  exists str,
    (match m with
     | Some m => str ← CuStringAppend junk (CuStringInit junk) (Some m);
                 CuStringAppend junk str (Some ": ")
     | None => Ok (CuStringInit junk)
     end) = Ok str /\ repr str (bytes (prefixed m "")) /\ ok_text 4002 (prefixed m "").
Proof.
  intros Hm. destruct m as [m|]; simpl.
  2:{ eexists. split; [done|]. split; [apply CuStringInit_repr|]. ok_const. }
  unfold ok_message in Hm. simpl in Hm.
  destruct (append_ok junk (CuStringInit junk) "" (Some m)) as (s1 & -> & Hr1).
  { apply CuStringInit_repr. } { ok_const. } { by apply (ok_text_le 4000). }
  simpl in *. destruct (append_ok junk s1 m (Some ": ")) as (s2 & -> & Hr2); [done| |ok_const|].
  { by apply (ok_text_le 4000). }
  eexists. split; [done|]. rewrite ?string_app_nil_r. split; [done|].
  apply (ok_text_app 4000 2); [done|ok_const].
Qed.

Lemma prefixed_app m t : (prefixed m "" ++ t)%string = prefixed m t.
Proof. destruct m as [m|]; simpl; [|done]. by rewrite !string_app_assoc. Qed.

Lemma CuFail_Line_spec tc file line m2 m :
  jumpBuf tc = true -> ok_text 4000 file -> in_int line -> ok_message m2 -> ok_message m ->
  CuFail_Line junk tc file line m2 m =
    Ok (fail_with tc file line (prefixed m2 (default "NULL" m)), true).
Proof.
  intros Hj Hf Hl Hm2 Hm. unfold CuFail_Line.
  destruct (prefix_spec m2 Hm2) as (s1 & -> & Hr1 & Hok1). simpl.
  assert (ok_text 4000 (default "NULL" m)) as Hok by (by apply ok_default).
  destruct (append_ok junk s1 (prefixed m2 "") m) as (s2 & -> & Hr2);
    [done|by apply (ok_text_le 4002)|by apply (ok_text_le 4000)|].
  simpl. rewrite prefixed_app in Hr2. apply CuFailInternal_spec; try done.
  rewrite <- prefixed_app. apply (ok_text_le (4002 + 4000)); [lia|]. by apply ok_text_app.
Qed.

(** Whether an assertion fails, and what it then reports. *)
Definition fails (a : assertion) : bool :=
  match a with
  | AFail _ _ _ _ => true
  | AAssert _ _ _ c => negb c
  | AStrEquals _ _ _ e a => negb (str_equal e a)
  | AIntEquals _ _ _ e a => negb (e =? a)
  | ADblEquals _ _ _ e a d => negb (dle (SFabs (dsub e a)) d)
  | APtrEquals _ _ _ e a => negb (e =? a)
  end.

Definition expected_text (pre e mid a : string) : string :=
  pre ++ e ++ mid ++ a ++ ">".

Definition failure_text (a : assertion) : string :=
  match a with
  | AFail f l m2 m => location f l ++ prefixed m2 (default "NULL" m)
  | AAssert f l m _ => location f l ++ default "NULL" m
  | AStrEquals f l m e a => location f l ++
      prefixed m (expected_text "expected <" (default "NULL" e) "> but was <" (default "NULL" a))
  | AIntEquals f l m e a => location f l ++
      prefixed m (expected_text "expected <" (print_int e) "> but was <" (print_int a))
  | ADblEquals f l m e a _ => location f l ++
      prefixed m (expected_text "expected <" (print_lf e) "> but was <" (print_lf a))
  | APtrEquals f l m e a => location f l ++
      prefixed m (expected_text "expected pointer <0x" (print_ptr e) "> but was <0x" (print_ptr a))
  end.

(** Texts of reasonable size, and numbers printed within the buffer. *)
Definition ok_assertion (a : assertion) : Prop :=
  match a with
  | AFail f l m2 m => ok_text 4000 f /\ in_int l /\ ok_message m2 /\ ok_message m
  | AAssert f l m _ => ok_text 4000 f /\ in_int l /\ ok_message m
  | AStrEquals f l m e a => ok_text 4000 f /\ in_int l /\ ok_message m /\ ok_message e /\ ok_message a
  | AIntEquals f l m e a => ok_text 4000 f /\ in_int l /\ ok_message m /\ in_int e /\ in_int a
  | ADblEquals f l m e a _ => ok_text 4000 f /\ in_int l /\ ok_message m /\
      ok_text 100 (print_lf e) /\ ok_text 100 (print_lf a)
  | APtrEquals f l m e a => ok_text 4000 f /\ in_int l /\ ok_message m /\
      ok_text 100 (print_ptr e) /\ ok_text 100 (print_ptr a)
  end.

Lemma expected_text_ok n pre e mid a :
  ok_text 20 pre -> ok_text n e -> ok_text 20 mid -> ok_text n a ->
  ok_text (41 + 2 * n) (expected_text pre e mid a).
Proof.
  intros. apply (ok_text_le (20 + (n + (20 + (n + 1))))); [lia|].
  repeat apply ok_text_app; try done. ok_const.
Qed.

(** The failing assertions on numbers print into a buffer that is large
    enough. *)
Lemma short_fail tc file line m pre e mid a :
  jumpBuf tc = true -> ok_text 4000 file -> in_int line -> ok_message m ->
  ok_text 20 pre -> ok_text 100 e -> ok_text 20 mid -> ok_text 100 a ->
  (buf ← short_buf (expected_text pre e mid a); CuFail_Line junk tc file line m (Some buf)) =
    Ok (fail_with tc file line (prefixed m (expected_text pre e mid a)), true).
Proof.
  intros Hj Hf Hl Hm Hp He Hmid Ha.
  assert (ok_text 241 (expected_text pre e mid a)) as Hok by (by apply (expected_text_ok 100)).
  unfold short_buf, STRING_MAX. destruct (Z.ltb_spec (strlen (expected_text pre e mid a)) 256) as [|Hge].
  - simpl. apply CuFail_Line_spec; try done. by apply (ok_text_le 241).
  - destruct Hok. lia.
Qed.

Lemma CuAssertStrEquals_fail tc file line m e a :
  jumpBuf tc = true -> ok_text 4000 file -> in_int line -> ok_message m -> ok_message e ->
  ok_message a -> str_equal e a = false ->
  CuAssertStrEquals_LineMsg junk tc file line m e a =
    Ok (fail_with tc file line (prefixed m
          (expected_text "expected <" (default "NULL" e) "> but was <" (default "NULL" a))), true).
Proof.
  intros Hj Hf Hl Hm He Ha Hne. unfold CuAssertStrEquals_LineMsg. rewrite Hne.
  destruct (prefix_spec m Hm) as (s1 & -> & Hr1 & Hok1). simpl.
  assert (ok_text 4000 (default "NULL" e)) as Hoke by (by apply ok_default).
  assert (ok_text 4000 (default "NULL" a)) as Hoka by (by apply ok_default).
  assert (forall k n s t, ok_text k s -> ok_text n t -> k <= 2 ^ 18 -> n <= 4002 ->
    ok_text (k + n) (s ++ t) /\ ok_text (2 ^ 19) s /\ ok_text (2 ^ 19) t) as Hstep.
  { intros k n s t Hs Ht Hk Hn. split; [by apply ok_text_app|].
    split; [by apply (ok_text_le k); [lia|]|by apply (ok_text_le n); [lia|]]. }
  set (p := prefixed m "") in *.
  destruct (Hstep 4002 4002 p "expected <") as (Hk1 & Hx & Hy); [done|ok_const|lia..|].
  destruct (append_ok junk s1 p (Some "expected <")) as (s2 & -> & Hr2); [done..|]. clear Hx Hy. simpl.
  destruct (Hstep _ 4000 _ _ Hk1 Hoke ltac:(lia) ltac:(lia)) as (Hk2 & Hx & Hy).
  destruct (append_ok junk s2 _ e Hr2) as (s3 & -> & Hr3); [done..|]. clear Hx Hy. simpl.
  destruct (Hstep _ 4002 _ "> but was <" Hk2) as (Hk3 & Hx & Hy); [ok_const|lia..|].
  destruct (append_ok junk s3 _ (Some "> but was <") Hr3) as (s4 & -> & Hr4); [done..|]. clear Hx Hy. simpl.
  destruct (Hstep _ 4000 _ _ Hk3 Hoka ltac:(lia) ltac:(lia)) as (Hk4 & Hx & Hy).
  destruct (append_ok junk s4 _ a Hr4) as (s5 & -> & Hr5); [done..|]. clear Hx Hy. simpl.
  destruct (Hstep _ 4002 _ ">" Hk4) as (Hk5 & Hx & Hy); [ok_const|lia..|].
  destruct (append_ok junk s5 _ (Some ">") Hr5) as (s6 & -> & Hr6); [done..|]. clear Hx Hy. simpl.
  simpl default in *. unfold expected_text. rewrite <- prefixed_app. fold p.
  rewrite !string_app_assoc in Hr6, Hk5. apply CuFailInternal_spec; try done.
  by apply (ok_text_le _ (2 ^ 19)) in Hk5; [|lia].
Qed.

(** One assertion: it returns when it holds; when it fails it records its
    message and leaves the test. *)
Lemma do_assert_spec a tc :
  ok_assertion a -> jumpBuf tc = true ->
  do_assert junk print_lf print_ptr a tc =
    if fails a
    then Ok (mk_CuTest (name tc) (function tc) 1 (ran tc) (Some (failure_text a)) true, true)
    else Ok (tc, false).
Proof.
  intros Hok Hj.
  destruct a; cbn [do_assert fails failure_text ok_assertion] in *; destruct_and?.
  - by rewrite CuFail_Line_spec.
  - unfold CuAssert_Line. destruct condition; cbn [negb]; [done|].
    rewrite CuFail_Line_spec; try done. ok_const.
  - destruct (str_equal expected actual) eqn:E; cbn [negb].
    + unfold CuAssertStrEquals_LineMsg. by rewrite E.
    + by rewrite CuAssertStrEquals_fail.
  - unfold CuAssertIntEquals_LineMsg. destruct (Z.eqb_spec expected actual); cbn [negb]; [done|].
    fold (expected_text "expected <" (print_int expected) "> but was <" (print_int actual)).
    assert (forall z, in_int z -> ok_text 100 (print_int z)) as Hp
      by (intros z Hz; apply (ok_text_le 33); [lia|by apply print_int_ok]).
    rewrite short_fail; auto; ok_const.
  - unfold CuAssertDblEquals_LineMsg. destruct (dle _ delta); cbn [negb]; [done|].
    fold (expected_text "expected <" (print_lf expected) "> but was <" (print_lf actual)).
    rewrite short_fail; try done; ok_const.
  - unfold CuAssertPtrEquals_LineMsg. destruct (Z.eqb_spec expected actual); cbn [negb]; [done|].
    fold (expected_text "expected pointer <0x" (print_ptr expected) "> but was <0x" (print_ptr actual)).
    rewrite short_fail; try done; ok_const.
Qed.

#[global] Instance ok_assertion_dec a : Decision (ok_assertion a).
Proof. destruct a; apply _. Defined.

(** ** Running tests *)

Definition test_fails (tc : CuTest) : bool := existsb fails (function tc).

(** The text of the first assertion that fails. *)
Definition first_failure (tc : CuTest) : option string :=
  failure_text <$> List.find fails (function tc).

Definition after_run (tc : CuTest) : CuTest :=
  mk_CuTest (name tc) (function tc) (if test_fails tc then 1 else failed tc) 1
    (if test_fails tc then first_failure tc else message tc) false.

Definition ok_test (tc : CuTest) : Prop := Forall ok_assertion (function tc).
#[global] Instance ok_test_dec tc : Decision (ok_test tc).
Proof. unfold ok_test. apply _. Defined.

Lemma run_body_spec body tc :
  Forall ok_assertion body -> jumpBuf tc = true ->
  run_body junk print_lf print_ptr body tc = Ok
    (mk_CuTest (name tc) (function tc) (if existsb fails body then 1 else failed tc) (ran tc)
       (if existsb fails body then failure_text <$> List.find fails body else message tc) true).
Proof.
  revert tc. induction body as [|a body IH]; intros tc Hok Hj.
  - destruct tc; simpl in *. by subst.
  - apply Forall_cons in Hok as [Ha Hok]. cbn [run_body].
    rewrite do_assert_spec by done. simpl. destruct (fails a) eqn:Hf; [done|]. simpl. by apply IH.
Qed.

Lemma CuTestRun_spec tc :
  ok_test tc -> CuTestRun junk print_lf print_ptr tc = Ok (after_run tc).
Proof.
  intros Hok. unfold CuTestRun. cbn [function]. rewrite run_body_spec by done. done.
Qed.

Definition has_failed (tc : CuTest) : bool := negb (failed tc =? 0).

Lemma run_tests_spec tcs n :
  Forall ok_test tcs ->
  run_tests junk print_lf print_ptr tcs n =
    Ok (after_run <$> tcs, n + Z.of_nat (List.length (List.filter has_failed (after_run <$> tcs)))).
Proof.
  revert n. induction tcs as [|tc tcs IH]; intros n Hok.
  - simpl. by rewrite Z.add_0_r.
  - apply Forall_cons in Hok as [Hok1 Hok]. cbn [run_tests]. rewrite CuTestRun_spec by done.
    cbn [mbind res_bind]. rewrite IH by done. rewrite fmap_cons. generalize (after_run tc).
    intros tc'. cbn [mbind res_bind List.filter]. unfold has_failed at 2.
    destruct (Z.eqb_spec (failed tc') 0); cbn [negb List.length]; do 2 f_equal; lia.
Qed.
End assertions.

(** ** The report of a suite *)

(** The numbers, from 1, of the tests that have failed. *)
Fixpoint failing_ids (tcs : list CuTest) (j : Z) : list Z :=
  match tcs with
  | [] => []
  | tc :: tcs => if failed tc =? 0 then failing_ids tcs (j + 1) else (j + 1) :: failing_ids tcs (j + 1)
  end.

Fixpoint join (l : list string) : string :=
  match l with
  | [] => ""
  | [x] => x
  | x :: l => x ++ "," ++ join l
  end.

Definition ids_text (ids : list Z) : string := join (print_int <$> ids).

(** What the suite writes for the engine. *)
Definition results_text (kills fails count : Z) (ids : list Z) : string :=
  print_int kills ++ " " ++ print_int fails ++ " " ++ print_int count ++ " " ++ ids_text ids.

Lemma failing_ids_length tcs j :
  List.length (failing_ids tcs j) = List.length (List.filter has_failed tcs).
Proof.
  revert j. induction tcs as [|tc tcs IH]; intros j; simpl; [done|]. unfold has_failed at 1.
  destruct (failed tc =? 0); simpl; by rewrite IH.
Qed.

Lemma failing_ids_range tcs j :
  Forall (fun x => j < x <= j + Z.of_nat (List.length tcs)) (failing_ids tcs j).
Proof.
  revert j. induction tcs as [|tc tcs IH]; intros j; simpl; [constructor|].
  assert (Forall (fun x => j < x <= j + Z.of_nat (S (List.length tcs))) (failing_ids tcs (j + 1))).
  { eapply Forall_impl; [apply IH|]. simpl. intros. lia. }
  case_match; [done|]. constructor; [lia|done].
Qed.

Lemma report_loop_spec tcs j n pre zs log :
  (List.length (failing_ids tcs j) <= List.length zs)%nat ->
  exists log', report_loop tcs j (Z.of_nat (List.length pre)) n (pre ++ zs)%list log =
    Ok ((pre ++ failing_ids tcs j ++ drop (List.length (failing_ids tcs j)) zs)%list,
        n + Z.of_nat (List.length (failing_ids tcs j)), log').
Proof.
  revert j n pre zs log. induction tcs as [|tc tcs IH]; intros j n pre zs log Hlen; simpl in *.
  - exists log. by rewrite Z.add_0_r.
  - destruct (Z.eqb_spec (failed tc) 0) as [E|E]; [by apply IH|]. simpl in *.
    destruct zs as [|z zs]; simpl in *; [lia|].
    rewrite store_ok by (rewrite length_app; simpl; lia). simpl.
    rewrite Nat2Z.id, insert_app_r_alt, Nat.sub_diag by done. simpl.
    destruct (IH (j + 1) (n + 1) (pre ++ [j + 1])%list zs
      (log ++ print_int (n + 1) ++ ") " ++ name tc ++ ": " ++ default "(null)" (message tc) ++
       String nl "")%string) as (log' & E'); [lia|].
    rewrite length_app in E'. simpl in E'.
    replace (Z.of_nat (List.length pre + 1)) with (Z.of_nat (List.length pre) + 1) in E' by lia.
    rewrite <- app_assoc in E'. simpl in E'. rewrite E'. exists log'.
    rewrite <- !app_assoc. simpl. do 2 f_equal. f_equal. lia.
Qed.

Lemma ids_loop_spec ids zs i buf :
  Forall (fun x => x <> 0) ids -> Forall (fun x => x = 0) zs -> 0 <= i ->
  ids_loop (ids ++ zs)%list i buf =
    (buf ++ (if Z.eqb i 0 || bool_decide (ids = []) then "" else ",") ++ ids_text ids)%string.
Proof.
  revert i buf. induction ids as [|x ids IH]; intros i buf Hids Hzs Hi.
  - rewrite orb_true_r. unfold ids_text. simpl. rewrite string_app_nil_r.
    destruct zs as [|z zs]; [done|]. apply Forall_cons in Hzs as [-> _]. done.
  - apply Forall_cons in Hids as [Hx Hids]. simpl. destruct (Z.eqb_spec x 0); [done|].
    rewrite IH by (done || lia). destruct (Z.eqb_spec (i + 1) 0); [lia|]. simpl orb.
    rewrite orb_false_r. unfold ids_text.
    destruct ids as [|y ids]; csimpl.
    + rewrite !string_app_nil_r. by destruct (i =? 0).
    + by rewrite !string_app_assoc.
Qed.

Section suite_run.
Context (junk : ascii) (print_lf : double -> string) (print_ptr : Z -> string).
#[local] Abbreviation ran_tests s := (after_run print_lf print_ptr <$> tests s).
#[local] Abbreviation run := (CuSuiteRun junk print_lf print_ptr).

(** The identifiers of the tests of a suite that fail. *)
Definition failing (s : CuSuite) : list Z := failing_ids (ran_tests s) 0.

(** A suite that has not run yet, in an environment set up by the engine. *)
Record run_ready (w : World) (s : CuSuite) (mp tp : string) : Prop := {
  rr_tests : Forall (ok_test print_lf print_ptr) (tests s);
  rr_fresh : failCount s = 0;
  rr_mp : getenv w "MUTATION_RESULTS_PATH" = Some mp;
  rr_tp : getenv w "TEMP_RESULTS_PATH" = Some tp;
  rr_ne : mp <> tp
}.

Lemma run_not_mutating w s mp tp v :
  run_ready w s mp tp -> getenv w "IS_MUTATE" = Some v -> v <> "true" ->
  run w s = Ok (append_file w mp "", mk_CuSuite (ran_tests s) (Z.of_nat (List.length (failing s)))).
Proof.
  intros [] Hm Hv. unfold CuSuiteRun. rewrite rr_mp0, Hm.
  rewrite run_tests_spec, rr_fresh0 by done. cbn [mbind res_bind]. unfold failing.
  rewrite failing_ids_length. destruct (String.eqb_spec v "true"); [done|]. done.
Qed.

Lemma run_survives w s mp tp :
  run_ready w s mp tp -> getenv w "IS_MUTATE" = Some "true" -> failing s = [] ->
  exists w', run w s = Ok (w', mk_CuSuite (ran_tests s) 0) /\
    read_file w' tp = read_file w tp /\ env w' = env w /\
    read_file w' mp =
      Some (default "" (read_file w mp) ++ "status: (survived!!)" ++ String nl "")%string.
Proof.
  intros [] Hm Hf. unfold CuSuiteRun. rewrite rr_mp0, Hm.
  rewrite run_tests_spec, rr_fresh0 by done. cbn [mbind res_bind].
  assert (List.length (List.filter has_failed (ran_tests s)) = 0%nat) as ->
    by (rewrite <- (failing_ids_length _ 0); by unfold failing in Hf; rewrite Hf).
  simpl. eexists. split; [done|]. unfold append_file.
  autorewrite with cres. rewrite string_app_nil_r. done.
Qed.

Lemma run_kills w s mp tp content :
  run_ready w s mp tp -> getenv w "IS_MUTATE" = Some "true" -> failing s <> [] ->
  read_file w tp = Some content -> in_int (stored_kill_count content + 1) ->
  strlen (ids_text (failing s)) < 1024 ->
  exists w', run w s =
      Ok (w', mk_CuSuite (ran_tests s) (Z.of_nat (List.length (failing s)))) /\
    env w' = env w /\
    read_file w' tp = Some (results_text (stored_kill_count content + 1)
      (Z.of_nat (List.length (failing s))) (count s) (failing s)).
Proof.
  intros [] Hm Hf Hc Hint Hlen. unfold CuSuiteRun. rewrite rr_mp0, Hm.
  rewrite run_tests_spec, rr_fresh0 by done. cbn [mbind res_bind]. rewrite Z.add_0_l.
  rewrite <- (failing_ids_length _ 0). fold (failing s). cbn [failCount].
  change (String.eqb "true" "true") with true. cbn [negb].
  destruct (Z.eqb_spec (Z.of_nat (List.length (failing s))) 0) as [E|_].
  { destruct (failing s); [done|]. simpl in E. lia. }
  pose proof (failing_ids_range (ran_tests s) 0) as Hrange. fold (failing s) in Hrange.
  destruct (report_loop_spec (ran_tests s) 0 0 [] (replicate (List.length (ran_tests s)) 0) "")
    as (log & E).
  { rewrite failing_ids_length, length_replicate. apply List.filter_length_le. }
  change (Z.of_nat (List.length [])) with 0 in E. cbn [app] in E. rewrite E. cbn [mbind res_bind]. fold (failing s) in *.
  rewrite ids_loop_spec; [| | |done].
  2:{ eapply Forall_impl; [exact Hrange|]. simpl. intros. lia. }
  2:{ apply Forall_drop, Forall_replicate. done. }
  simpl orb. cbv iota.
  change ("" ++ ("" ++ ids_text (failing s)))%string with (ids_text (failing s)).
  destruct (Z.ltb_spec (strlen (ids_text (failing s))) 1024); [|lia].
  unfold append_file. autorewrite with cres. rewrite rr_tp0. autorewrite with cres.
  rewrite Hc. unfold chk. rewrite decide_True by done. cbn [mbind res_bind].
  eexists. split; [done|]. split; [done|]. autorewrite with cres.
  unfold results_text, count. cbn [tests]. by rewrite length_fmap, Z.add_0_l.
Qed.
End suite_run.

(** ** Buffers as texts *)

(** A call that extends a buffer, and what it does to the text. *)
Inductive buffer_op := BAppend (text : option string) | BInsert (text : string) (pos : Z).

Definition run_op (junk : ascii) (str : CuString) (o : buffer_op) : res CuString :=
  match o with
  | BAppend t => CuStringAppend junk str t
  | BInsert t pos => CuStringInsert junk str t pos
  end.

Fixpoint run_ops (junk : ascii) (str : CuString) (ops : list buffer_op) : res CuString :=
  match ops with
  | [] => Ok str
  | o :: ops => str ← run_op junk str o; run_ops junk str ops
  end.

Definition spec_op (content : list ascii) (o : buffer_op) : list ascii :=
  match o with
  | BAppend t => content ++ bytes (default "NULL" t)
  | BInsert t pos => take (Z.to_nat pos) content ++ bytes t ++ drop (Z.to_nat pos) content
  end%list.

Definition op_text (o : buffer_op) : string :=
  match o with BAppend t => default "NULL" t | BInsert t _ => t end.

Definition ok_op (o : buffer_op) : Prop :=
  no_nul (bytes (op_text o)) /\ match o with BAppend _ => True | BInsert _ pos => 0 <= pos end.

#[global] Instance ok_op_dec o : Decision (ok_op o).
Proof. unfold ok_op, no_nul. destruct o; apply _. Defined.

Definition ops_length (ops : list buffer_op) : Z :=
  foldr (fun o n => strlen (op_text o) + n) 0 ops.

Lemma ops_length_nonneg ops : 0 <= ops_length ops.
Proof. induction ops as [|o ops IH]; simpl; [lia|]. unfold strlen. lia. Qed.

Lemma run_op_spec junk str content o :
  repr str content -> ok_op o ->
  Z.of_nat (List.length content) + strlen (op_text o) + 1 + STRING_INC <= int_max ->
  exists str', run_op junk str o = Ok str' /\ repr str' (spec_op content o) /\
    Z.of_nat (List.length (spec_op content o)) = Z.of_nat (List.length content) + strlen (op_text o).
Proof.
  intros Hr [Hn Hpos] Hmax. destruct o as [t|t pos]; simpl in *.
  - destruct (CuStringAppend_repr junk str content t Hr Hn Hmax) as (str' & E & Hr').
    exists str'. split_and!; [done..|]. rewrite length_app, bytes_length. unfold strlen. lia.
  - destruct (CuStringInsert_repr junk str content t pos Hr Hn Hpos Hmax) as (str' & E & Hr').
    exists str'. split_and!; [done..|].
    rewrite !length_app, bytes_length, length_take, length_drop. unfold strlen. lia.
Qed.

Lemma run_ops_spec junk str content ops :
  repr str content -> Forall ok_op ops ->
  Z.of_nat (List.length content) + ops_length ops + 1 + STRING_INC <= int_max ->
  exists str', run_ops junk str ops = Ok str' /\ repr str' (foldl spec_op content ops).
Proof.
  revert str content. induction ops as [|o ops IH]; intros str content Hr Hok Hmax; simpl in *.
  { by exists str. }
  apply Forall_cons in Hok as [Ho Hok]. pose proof (ops_length_nonneg ops).
  destruct (run_op_spec junk str content o Hr Ho) as (s1 & -> & Hr1 & Hl1); [lia|].
  simpl. apply IH; [done..|lia].
Qed.

(** ** Properties *)

(** A [CuString] behaves as a text.  Starting from [CuStringInit], any
    sequence of [CuStringAppend] and [CuStringInsert] calls with NUL-free texts
    whose total length fits an [int] runs without leaving the allocated buffer
    (which is grown as needed, whatever fresh memory contains) and leaves the
    buffer holding exactly the text obtained by concatenation and insertion at
    the position, a position beyond the end meaning the end. *)
Theorem CuString_refines_text junk ops :
  Forall ok_op ops -> ops_length ops + 1 + STRING_INC <= int_max ->
  exists str, run_ops junk (CuStringInit junk) ops = Ok str /\
    repr str (foldl spec_op [] ops) /\
    text_of (buffer str) = string_of_list_ascii (foldl spec_op [] ops).
Proof.
  intros Hok Hmax.
  destruct (run_ops_spec junk (CuStringInit junk) [] ops) as (str & E & Hr);
    [apply CuStringInit_repr|done|simpl; lia|].
  exists str. split_and!; [done..|]. by apply text_of_repr.
Qed.

(** [CuTestRun] on a test that has not failed yet marks it failed exactly
    when one of its assertions fails, keeps the message of the first one that
    fails (file, line and text), runs none of the later ones, and clears the
    jump buffer. *)
Theorem CuTestRun_outcome junk print_lf print_ptr tc :
  ok_test print_lf print_ptr tc -> failed tc = 0 ->
  exists tc', CuTestRun junk print_lf print_ptr tc = Ok tc' /\
    (failed tc' = 1 <-> Exists (fun a => fails a = true) (function tc)) /\
    (failed tc' = 0 <-> Forall (fun a => fails a = false) (function tc)) /\
    (forall pre a post, function tc = (pre ++ a :: post)%list ->
       Forall (fun a => fails a = false) pre -> fails a = true ->
       message tc' = Some (failure_text print_lf print_ptr a)) /\
    ran tc' = 1 /\ jumpBuf tc' = false.
Proof.
  intros Hok Hf. exists (after_run print_lf print_ptr tc).
  rewrite CuTestRun_spec by done. split; [done|]. unfold after_run, test_fails, first_failure.
  cbn [failed message ran jumpBuf]. rewrite Hf.
  assert (existsb fails (function tc) = true <-> Exists (fun a => fails a = true) (function tc)) as Hex
    by (rewrite existsb_exists, List.Exists_exists; reflexivity).
  split_and!; [| | |done..].
  - rewrite <- Hex. by destruct (existsb _ _).
  - split.
    + destruct (existsb fails (function tc)) eqn:E; [done|]. intros _. apply Forall_forall.
      intros a Ha. destruct (fails a) eqn:Hfa; [|done]. rewrite <- E. symmetry.
      apply existsb_exists. exists a. split; [by apply list_elem_of_In|done].
    + intros Hall. destruct (existsb fails (function tc)) eqn:E; [|done].
      apply existsb_exists in E as (a & Ha & Hfa). rewrite Forall_forall in Hall.
      rewrite Hall in Hfa; [done|]. by apply list_elem_of_In.
  - intros pre a post -> Hpre Ha.
    assert (List.find fails (pre ++ a :: post)%list = Some a) as Hfind.
    { clear -Hpre Ha. induction Hpre as [|b pre Hb _ IH]; simpl; [by rewrite Ha|]. by rewrite Hb. }
    rewrite Hfind. destruct (existsb fails (pre ++ a :: post)%list) eqn:E; [reflexivity|].
    exfalso. apply List.find_some in Hfind as [Hin _].
    rewrite <- not_true_iff_false in E. apply E, existsb_exists. by exists a.
Qed.

(** C29: what a suite run tells the engine.  With the engine's environment, a suite that
    has not run and texts that fit their buffers, [CuSuiteRun] leaves every test marked as
    run, failed exactly where one of its assertions fails and then with the message of the
    first that does.  The temporary results file stays as it was when no test fails, and is
    otherwise replaced by the kill count plus one, the number of failed tests, the number of
    tests, and the numbers of the failed tests in order; the mutation log receives the
    survival line in the first case. *)
Theorem CuSuiteRun_reports junk print_lf print_ptr w s mp tp content :
  run_ready print_lf print_ptr w s mp tp -> getenv w "IS_MUTATE" = Some "true" ->
  read_file w tp = Some content -> in_int (stored_kill_count content + 1) ->
  strlen (ids_text (failing print_lf print_ptr s)) < 1024 ->
  exists w' s', CuSuiteRun junk print_lf print_ptr w s = Ok (w', s') /\
    tests s' = after_run print_lf print_ptr <$> tests s /\
    failCount s' = Z.of_nat (List.length (failing print_lf print_ptr s)) /\
    (failing print_lf print_ptr s = [] ->
       read_file w' tp = Some content /\
       read_file w' mp =
         Some (default "" (read_file w mp) ++ "status: (survived!!)" ++ String nl "")%string) /\
    (failing print_lf print_ptr s <> [] ->
       read_file w' tp = Some (results_text (stored_kill_count content + 1)
         (failCount s') (count s') (failing print_lf print_ptr s))).
Proof.
  intros Hrr Hm Hc Hint Hlen. destruct (decide (failing print_lf print_ptr s = [])) as [E|Hne].
  - destruct (run_survives junk print_lf print_ptr w s mp tp Hrr Hm E) as (w' & -> & Ht & _ & Hmp).
    eexists _, _. split; [done|]. split; [done|]. rewrite E. split; [done|]. split; [|done].
    intros _. by rewrite Ht, Hmp.
  - destruct (run_kills junk print_lf print_ptr w s mp tp content Hrr Hm Hne Hc Hint Hlen)
      as (w' & -> & _ & Ht).
    eexists _, _. split; [done|]. split; [done|]. split; [done|]. split; [done|]. intros _. rewrite Ht.
    unfold count. cbn [failCount tests]. by rewrite length_fmap.
Qed.

(** ** Witnesses *)

Definition no_lf (x : double) : string := "".
Definition no_ptr (x : Z) : string := "".

Lemma CuString_refines_text_witness :
  exists str, run_ops "x" (CuStringInit "x") [BAppend (Some "b"); BAppend None; BInsert "a:" 0] = Ok str /\
    text_of (buffer str) = "a:bNULL".
Proof.
  destruct (CuString_refines_text "x" [BAppend (Some "b"); BAppend None; BInsert "a:" 0])
    as (str & E & _ & Ht).
  - apply (bool_decide_unpack _). vm_compute. exact I.
  - by vm_compute.
  - exists str. split; [done|]. by rewrite Ht.
Defined.

Definition passing_test : CuTest := CuTestInit "pass" [AIntEquals "t.c" 3 None 4 4].
Definition failing_test : CuTest :=
  CuTestInit "fail" [AAssert "t.c" 7 (Some "first") true; AAssert "t.c" 8 (Some "second") false].

Lemma failing_test_ok : ok_test no_lf no_ptr failing_test.
Proof. apply (bool_decide_unpack _). vm_compute. exact I. Qed.

Lemma passing_test_ok : ok_test no_lf no_ptr passing_test.
Proof. apply (bool_decide_unpack _). vm_compute. exact I. Qed.

Lemma CuTestRun_outcome_witness :
  exists tc, CuTestRun "x" no_lf no_ptr failing_test = Ok tc /\ failed tc = 1 /\
    message tc = Some "t.c:8: second".
Proof.
  destruct (CuTestRun_outcome "x" no_lf no_ptr failing_test failing_test_ok eq_refl)
    as (tc & E & Hf & _ & Hmsg & _).
  exists tc. split; [done|]. split; [apply Hf; right; left; done|].
  apply (Hmsg [AAssert "t.c" 7 (Some "first") true] (AAssert "t.c" 8 (Some "second") false) []);
    [done|by repeat constructor|done].
Defined.

Definition example_world : World :=
  world_of (<["tmp" := "4"]> ∅)
    (<["IS_MUTATE" := "true"]> (<["TEMP_RESULTS_PATH" := "tmp"]>
      (<["MUTATION_RESULTS_PATH" := "log"]> ∅))).
Definition example_suite : CuSuite := mk_CuSuite [passing_test; failing_test] 0.

Lemma example_ready : run_ready no_lf no_ptr example_world example_suite "log" "tmp".
Proof.
  split; try done. constructor; [apply passing_test_ok|constructor; [apply failing_test_ok|constructor]].
Qed.

Lemma CuSuiteRun_reports_witness :
  exists w s, CuSuiteRun "x" no_lf no_ptr example_world example_suite = Ok (w, s) /\
    failCount s = 1 /\ read_file w "tmp" = Some (results_text 5 1 (count s) [2]).
Proof.
  destruct (CuSuiteRun_reports "x" no_lf no_ptr example_world example_suite "log" "tmp" "4"
              example_ready eq_refl eq_refl) as (w & s & E & _ & Hf & _ & Hk);
    [by vm_compute|by vm_compute|].
  exists w, s. split; [done|]. split; [exact Hf|]. rewrite Hk by done. by rewrite Hf.
Defined.

End CuTest.
