(* ===== verification/Stats.v ===== *)
(** * Reading a suite's report (src/controller.c, [get_non_trivial_FOM_stats])

    The engine learns what a test run did from the temporary results file the
    forked CuTest library writes.  The theorems connect the two sides: the
    numbers read back are the ones the suite wrote, and the engine's test for a
    kill ([stats[0]] grew by one) holds exactly when a test failed. *)

From Stdlib Require Import Ascii String.
From S2P Require Import Prelude Double CString System CuTest.

Module Stats.
Import CuTest.

Section stats.
(** The content of memory that [realloc] adds. *)
Context (junk : Z).

(** ["%d %d %d %s"] *)
Definition results_format : list directive := [DInt; DSpace; DInt; DSpace; DInt; DSpace; DStr].

(** What [fscanf] stores into [stats] and [killed_test_id]. *)
Definition scanned (cs : list conv) : Z * Z * Z * string :=
  match cs with
  | CInt a :: CInt b :: CInt c :: CStr s :: _ => (a, b, c, s)
  | [CInt a; CInt b; CInt c] => (a, b, c, "")
  | [CInt a; CInt b] => (a, b, 0, "")
  | [CInt a] => (a, 0, 0, "")
  | _ => (0, 0, 0, "")
  end.

(** The loop over the comma separated identifiers; the array doubles when it is
    full. *)
Definition grow_stats (counter lstats : Z) (stats : list Z) : list Z * Z :=
  if lstats <=? counter then
    ((stats ++ replicate (Z.to_nat (2 * lstats) - List.length stats) junk)%list, 2 * lstats)
  else (stats, lstats).

Fixpoint parse_ids (tokens : list string) (counter lstats : Z) (stats : list Z) : res (list Z) :=
  match tokens with
  | [] => Ok stats
  | pt :: tokens =>
      let '(stats, lstats) := grow_stats counter lstats stats in
      stats ← store stats counter (atoi pt);
      parse_ids tokens (counter + 1) lstats stats
  end.

Definition get_non_trivial_FOM_stats (w : World) (temp_results_path : string) : res (list Z) :=
  let lstats := 20 in
  match read_file w temp_results_path with
  | None => Undef
  | Some content =>
      let '(a, b, c, killed_test_id) := scanned (sscanf content results_format).2 in
      let stats := ([a; b; c] ++ replicate 17 0)%list in
      if strlen killed_test_id <? 1024 then
        parse_ids (strtok "," killed_test_id) 3 lstats stats
      else Undef
  end.

(** ** Splitting what was joined *)

Definition no_comma (s : string) : Prop :=
  List.Forall (fun c => Ascii.eqb c "," = false) (list_ascii_of_string s).

Lemma strtok_token cur x rest :
  no_comma x ->
  strtok_all "," cur (x ++ rest) = strtok_all "," (cur ++ x) rest.
Proof.
  unfold no_comma. revert cur. induction x as [|c x IH]; intros cur Hx; simpl.
  - by rewrite string_app_nil_r.
  - apply Forall_cons in Hx as [Hc Hx]. rewrite Hc, IH by done. by rewrite string_app_assoc.
Qed.

Lemma strtok_join l :
  Forall no_comma l -> Forall (fun x => x <> "") l -> strtok "," (join l) = l.
Proof.
  unfold strtok. induction l as [|x l IH]; intros Hc Hn; [done|].
  apply Forall_cons in Hc as [Hx Hc]. apply Forall_cons in Hn as [Hxn Hn]. destruct l as [|y l].
  - simpl. rewrite <- (string_app_nil_r x) at 1. rewrite strtok_token by done. simpl. by destruct x.
  - change (join (x :: y :: l)) with (x ++ ("," ++ join (y :: l)))%string.
    rewrite strtok_token by done.
    assert (strtok_all "," ("" ++ x) ("," ++ join (y :: l)) = x :: strtok_all "," "" (join (y :: l)))
      as -> by (by destruct x). by rewrite IH.
Qed.

Lemma print_int_token z : no_comma (print_int z) /\ print_int z <> "".
Proof.
  split.
  - apply print_int_forall; [|done]. intros d (n & Hn & ->)%digit_cases.
    do 10 (destruct n as [|n]; [done|]). lia.
  - destruct (print_int_no_space z "") as [_ H]. by rewrite string_app_nil_r in H.
Qed.

Lemma strtok_ids ids : strtok "," (ids_text ids) = print_int <$> ids.
Proof.
  apply strtok_join; apply Forall_fmap, Forall_true; intros z; apply print_int_token.
Qed.

Lemma take_word_no_space s : no_space s -> take_word s = (s, "").
Proof.
  unfold no_space. induction s as [|c s IH]; simpl; [done|].
  intros [-> Hs]%Forall_cons. by rewrite IH.
Qed.

Lemma ids_text_no_space ids : no_space (ids_text ids).
Proof.
  unfold ids_text. induction ids as [|x ids IH]; [constructor|].
  destruct ids as [|y ids]; [apply print_int_chars|].
  change (join (print_int <$> x :: y :: ids))
    with (print_int x ++ ("," ++ join (print_int <$> y :: ids)))%string.
  apply no_space_app. split; [apply print_int_chars|]. apply no_space_app.
  split; [by repeat constructor|done].
Qed.

Lemma ids_text_ne x ids : ids_text (x :: ids) <> "".
Proof.
  intros E. apply (proj2 (print_int_token x)). unfold ids_text in E. csimpl in E.
  destruct (print_int <$> ids); [done|]. by destruct (print_int x).
Qed.

(** A word that ends the input. *)
Lemma scan_word word fmt :
  no_space word -> word <> "" ->
  skip_spaces word = word /\
  scan_loop (DStr :: fmt) word = (CStr word :: (scan_loop fmt "").1, (scan_loop fmt "").2).
Proof.
  intros Hns Hne. assert (skip_spaces word = word) as Hsk.
  { destruct word as [|c s]; [done|]. apply Forall_cons in Hns as [Hc _]. simpl. by rewrite Hc. }
  split; [done|]. cbn [scan_loop]. rewrite Hsk. destruct word; [done|].
  rewrite take_word_no_space by done. by destruct (scan_loop fmt "").
Qed.

Lemma sscanf_results k f n x ids :
  in_int k -> in_int f -> in_int n ->
  (sscanf (results_text k f n (x :: ids)) results_format).2 =
    [CInt k; CInt f; CInt n; CStr (ids_text (x :: ids))].
Proof.
  intros Hk Hf Hn. unfold results_text, results_format.
  erewrite sscanf_convs; [done|].
  rewrite scan_int by done.
  change (scan_loop (DSpace :: ?fmt) (" " ++ ?s)) with (scan_loop fmt (skip_spaces s)).
  rewrite (proj1 (print_int_no_space _ _)), scan_int by done.
  change (scan_loop (DSpace :: ?fmt) (" " ++ ?s)) with (scan_loop fmt (skip_spaces s)).
  rewrite (proj1 (print_int_no_space _ _)), scan_int by done.
  change (scan_loop (DSpace :: ?fmt) (" " ++ ?s)) with (scan_loop fmt (skip_spaces s)).
  destruct (scan_word (ids_text (x :: ids)) []) as [-> ->];
    [apply ids_text_no_space|apply ids_text_ne|done].
Qed.

(** After growing there is a cell for the next identifier. *)
Lemma grow_stats_spec pre tail :
  pre <> [] ->
  exists z tail', grow_stats (Z.of_nat (List.length pre)) (Z.of_nat (List.length (pre ++ tail)%list))
      (pre ++ tail)%list =
    ((pre ++ z :: tail')%list, Z.of_nat (List.length (pre ++ z :: tail')%list)).
Proof.
  intros Hpre. assert (0 < List.length pre)%nat by (destruct pre; simpl; [done|lia]).
  unfold grow_stats. destruct (Z.leb_spec (Z.of_nat (List.length (pre ++ tail)%list))
    (Z.of_nat (List.length pre))) as [Hle|Hlt]; rewrite length_app in *.
  - destruct tail; simpl in Hle; [|lia]. rewrite app_nil_r. change (List.length []) with 0%nat.
    rewrite Nat.add_0_r.
    destruct (Z.to_nat (2 * Z.of_nat (List.length pre)) - List.length pre)%nat as [|m] eqn:Em; [lia|].
    exists junk, (replicate m junk). simpl replicate. f_equal.
    rewrite length_app. simpl. rewrite length_replicate. lia.
  - destruct tail as [|z tail]; simpl in *; [lia|]. exists z, tail. by rewrite length_app.
Qed.

Lemma parse_ids_spec ids pre tail :
  Forall in_int ids -> pre <> [] ->
  exists rest, parse_ids (print_int <$> ids) (Z.of_nat (List.length pre))
      (Z.of_nat (List.length (pre ++ tail)%list)) (pre ++ tail)%list =
    Ok (pre ++ ids ++ rest)%list.
Proof.
  revert pre tail. induction ids as [|x ids IH]; intros pre tail Hids Hpre.
  { by exists tail. }
  apply Forall_cons in Hids as [Hx Hids]. rewrite fmap_cons. cbn [parse_ids].
  destruct (grow_stats_spec pre tail Hpre) as (z & tail' & ->).
  rewrite store_ok by (rewrite length_app; simpl; lia). cbn [mbind res_bind].
  rewrite atoi_print_int_id by done.
  rewrite Nat2Z.id, insert_app_r_alt, Nat.sub_diag by done. cbn [insert list_insert].
  destruct (IH (pre ++ [x])%list tail') as (rest & E); [done|by destruct pre|].
  rewrite <- !app_assoc in E. cbn [app] in E. rewrite !length_app in E. simpl in E.
  exists rest. rewrite length_app. simpl. rewrite <- E. f_equal. lia.
Qed.

(** ** Files the two sides exchange *)

(** A temporary results file that records [k] kills: the one the engine starts
    with, or the one a suite wrote. *)
Definition temp_ok (content : string) (k : Z) : Prop :=
  in_int k /\
  (content = print_int k \/
   exists f n ids, ids <> [] /\ in_int f /\ in_int n /\ Forall in_int ids /\
     strlen (ids_text ids) < 1024 /\ content = results_text k f n ids).

Lemma get_stats_results w tp k f n ids :
  read_file w tp = Some (results_text k f n ids) ->
  ids <> [] -> in_int k -> in_int f -> in_int n -> Forall in_int ids ->
  strlen (ids_text ids) < 1024 ->
  exists rest, get_non_trivial_FOM_stats w tp = Ok (k :: f :: n :: ids ++ rest)%list.
Proof.
  intros Hr Hne Hk Hf Hn Hids Hlen. unfold get_non_trivial_FOM_stats. rewrite Hr.
  destruct ids as [|x ids]; [done|]. rewrite sscanf_results by done. cbn [scanned].
  destruct (Z.ltb_spec (strlen (ids_text (x :: ids))) 1024); [|lia].
  rewrite strtok_ids. by apply (parse_ids_spec (x :: ids) [k; f; n] (replicate 17 0)).
Qed.

Lemma sscanf_number z fmt :
  in_int z -> fmt = [DInt] \/ fmt = results_format ->
  (sscanf (print_int z) fmt).2 = [CInt z].
Proof.
  intros Hz Hfmt. rewrite <- (string_app_nil_r (print_int z)).
  destruct Hfmt as [->| ->].
  - rewrite (sscanf_convs _ _ (CInt z) [] false); [done|]. by rewrite scan_int.
  - rewrite (sscanf_convs _ _ (CInt z) [] true); [done|]. unfold results_format. by rewrite scan_int.
Qed.

Lemma get_stats_number w tp k :
  read_file w tp = Some (print_int k) -> in_int k ->
  get_non_trivial_FOM_stats w tp = Ok (k :: replicate 19 0).
Proof.
  intros Hr Hk. unfold get_non_trivial_FOM_stats. rewrite Hr.
  rewrite sscanf_number by auto. done.
Qed.

Lemma stored_kill_count_ok content k : temp_ok content k -> stored_kill_count content = k.
Proof.
  intros [Hk [->|(f & n & ids & Hne & Hf & Hn & _ & _ & ->)]]; unfold stored_kill_count.
  - pose proof (sscanf_number k [DInt] Hk (or_introl eq_refl)) as E.
    destruct (sscanf (print_int k) [DInt]) as [r cs]. simpl in E. by subst cs.
  - unfold results_text. rewrite (sscanf_convs _ _ (CInt k) [] false); [done|]. by rewrite scan_int.
Qed.

(** The first number read is the recorded number of kills. *)
Lemma get_stats_kills w tp content k :
  read_file w tp = Some content -> temp_ok content k ->
  exists rest, get_non_trivial_FOM_stats w tp = Ok (k :: rest).
Proof.
  intros Hr [Hk [->|(f & n & ids & Hne & Hf & Hn & Hids & Hlen & ->)]].
  - rewrite (get_stats_number w tp k) by done. eauto.
  - destruct (get_stats_results w tp k f n ids) as (rest & ->); try done. eauto.
Qed.
End stats.

(** ** Properties *)

Lemma ids_in_int tcs : Z.of_nat (List.length tcs) <= MAX_TEST_CASES -> Forall in_int (failing_ids tcs 0).
Proof.
  intros Hlen. eapply Forall_impl; [apply failing_ids_range|]. simpl. intros x Hx.
  unfold in_int, int_min, int_max, MAX_TEST_CASES in *. lia.
Qed.

(** C2: The engine's kill test is right.  It reads the report before and after a
    run of a suite (of at most [MAX_TEST_CASES] tests) that has not run: the
    first number grows by exactly one when some test fails and is unchanged
    otherwise, so [stats[0] - prev == 1] holds exactly for killed mutants; and
    after a kill the engine reads the number of failed tests, the size of the
    suite and the numbers of the failed tests as the suite determined them. *)
Theorem kill_detected junk cjunk print_lf print_ptr w s mp tp content k :
  run_ready print_lf print_ptr w s mp tp -> getenv w "IS_MUTATE" = Some "true" ->
  read_file w tp = Some content -> temp_ok content k -> 0 <= k < int_max ->
  count s <= MAX_TEST_CASES -> strlen (ids_text (failing print_lf print_ptr s)) < 1024 ->
  exists before w' s' k' after,
    get_non_trivial_FOM_stats junk w tp = Ok (k :: before) /\
    CuSuiteRun cjunk print_lf print_ptr w s = Ok (w', s') /\
    get_non_trivial_FOM_stats junk w' tp = Ok (k' :: after) /\
    (k' - k = 1 <-> failing print_lf print_ptr s <> []) /\
    (k' - k = 0 <-> failing print_lf print_ptr s = []) /\
    (failing print_lf print_ptr s <> [] ->
       exists rest, after = (Z.of_nat (List.length (failing print_lf print_ptr s)) :: count s ::
                             failing print_lf print_ptr s ++ rest)%list).
Proof.
  intros Hrr Hm Hc Hok Hk Hcount Hlen.
  pose proof (stored_kill_count_ok content k Hok) as Hstored.
  assert (in_int (k + 1)) as Hk1 by (unfold in_int, int_min, int_max in *; lia).
  destruct (get_stats_kills junk w tp content k Hc Hok) as (before & Hbefore).
  destruct (decide (failing print_lf print_ptr s = [])) as [E|Hne].
  - destruct (run_survives cjunk print_lf print_ptr w s mp tp Hrr Hm E) as (w' & Erun & Ht & _).
    rewrite Hc in Ht. destruct (get_stats_kills junk w' tp content k Ht Hok) as (after & Hafter).
    exists before, w', (mk_CuSuite (after_run print_lf print_ptr <$> tests s) 0), k, after.
    split_and!; [done..| | |]; rewrite E; [|split; [done|lia]|done]. split; [lia|done].
  - destruct (run_kills cjunk print_lf print_ptr w s mp tp content Hrr Hm Hne Hc)
      as (w' & Erun & _ & Ht); [by rewrite Hstored|done|]. rewrite Hstored in Ht.
    assert (Forall in_int (failing print_lf print_ptr s)) as Hids.
    { unfold failing. apply ids_in_int. by rewrite length_fmap. }
    assert (0 <= Z.of_nat (List.length (failing print_lf print_ptr s)) <= MAX_TEST_CASES) as Hf.
    { split; [lia|]. etrans; [|exact Hcount]. unfold count, failing. apply inj_le.
      rewrite failing_ids_length. etrans; [apply List.filter_length_le|]. by rewrite length_fmap. }
    unfold MAX_TEST_CASES in *.
    destruct (get_stats_results junk w' tp _ _ _ _ Ht Hne) as (rest & Hafter);
      [done|unfold in_int, int_min, int_max, count in *; lia..|done|done|].
    eexists before, w', _, (k + 1), _. split; [done|]. split; [exact Erun|].
    split; [exact Hafter|]. split_and!; [split; [done|lia]|split; [lia|done]|].
    intros _. by exists rest.
Qed.

(** Several suites in one test program defeat the kill test.  When two
    suites that both fail run one after the other, the number of kills the
    engine reads grows by two, so its test [stats[0] - prev == 1] fails and the
    mutant counts as a survivor. *)
Theorem two_failing_suites_survive junk cjunk print_lf print_ptr w s1 s2 mp tp content k :
  run_ready print_lf print_ptr w s1 mp tp ->
  Forall (ok_test print_lf print_ptr) (tests s2) -> failCount s2 = 0 ->
  getenv w "IS_MUTATE" = Some "true" ->
  read_file w tp = Some content -> temp_ok content k -> 0 <= k < int_max - 1 ->
  count s1 <= MAX_TEST_CASES -> strlen (ids_text (failing print_lf print_ptr s1)) < 1024 ->
  count s2 <= MAX_TEST_CASES -> strlen (ids_text (failing print_lf print_ptr s2)) < 1024 ->
  failing print_lf print_ptr s1 <> [] -> failing print_lf print_ptr s2 <> [] ->
  exists w1 s1' w2 s2' after,
    CuSuiteRun cjunk print_lf print_ptr w s1 = Ok (w1, s1') /\
    CuSuiteRun cjunk print_lf print_ptr w1 s2 = Ok (w2, s2') /\
    get_non_trivial_FOM_stats junk w2 tp = Ok (k + 2 :: after).
Proof.
  intros Hrr Hok2 Hfresh2 Hm Hc Hok Hk Hc1 Hl1 Hc2 Hl2 Hne1 Hne2.
  pose proof (stored_kill_count_ok content k Hok) as Hst.
  assert (in_int (k + 1) /\ in_int (k + 2)) as [Hk1 Hk2] by (unfold in_int, int_min, int_max in *; lia).
  destruct (run_kills cjunk print_lf print_ptr w s1 mp tp content Hrr Hm Hne1 Hc)
    as (w1 & E1 & Henv & Ht1); [by rewrite Hst|done|]. rewrite Hst in Ht1.
  assert (stored_kill_count (results_text (k + 1) (Z.of_nat (List.length (failing print_lf print_ptr s1)))
    (count s1) (failing print_lf print_ptr s1)) = k + 1) as Hst1.
  { unfold stored_kill_count, results_text.
    rewrite (sscanf_convs _ _ (CInt (k + 1)) [] false); [done|]. by rewrite scan_int. }
  assert (run_ready print_lf print_ptr w1 s2 mp tp) as Hrr2.
  { destruct Hrr. split; try done; unfold getenv in *; by rewrite Henv. }
  assert (getenv w1 "IS_MUTATE" = Some "true") as Hm1 by (unfold getenv in *; by rewrite Henv).
  destruct (run_kills cjunk print_lf print_ptr w1 s2 mp tp _ Hrr2 Hm1 Hne2 Ht1) as (w2 & E2 & _ & Ht2);
    [rewrite Hst1; by replace (k + 1 + 1) with (k + 2) by lia|done|].
  rewrite Hst1 in Ht2. replace (k + 1 + 1) with (k + 2) in Ht2 by lia.
  assert (Forall in_int (failing print_lf print_ptr s2)) as Hids.
  { unfold failing. apply ids_in_int. by rewrite length_fmap. }
  assert (Z.of_nat (List.length (failing print_lf print_ptr s2)) <= MAX_TEST_CASES) as Hf.
  { etrans; [|exact Hc2]. unfold count, failing. apply inj_le.
    rewrite failing_ids_length. etrans; [apply List.filter_length_le|]. by rewrite length_fmap. }
  unfold MAX_TEST_CASES in *.
  destruct (get_stats_results junk w2 tp _ _ _ _ Ht2 Hne2) as (rest & Hafter);
    [done|unfold in_int, int_min, int_max, count in *; lia..|done|done|].
  do 5 eexists. split; [exact E1|]. split; [exact E2|]. exact Hafter.
Qed.

(** ** Witnesses *)

Lemma example_temp_ok : temp_ok "4" 4.
Proof. split; [by vm_compute|by left]. Qed.

Lemma kill_detected_witness :
  exists before w' s' after,
    get_non_trivial_FOM_stats 0 example_world "tmp" = Ok (4 :: before) /\
    CuSuiteRun "x" no_lf no_ptr example_world example_suite = Ok (w', s') /\
    get_non_trivial_FOM_stats 0 w' "tmp" = Ok (5 :: 1 :: 2 :: 2 :: after).
Proof.
  destruct (kill_detected 0 "x" no_lf no_ptr example_world example_suite "log" "tmp" "4" 4
    example_ready eq_refl eq_refl example_temp_ok) as (before & w' & s' & k' & after & Hb & Hr & Ha & Hk & _ & Hrest);
    [by vm_compute|by vm_compute|by vm_compute|].
  destruct Hrest as (rest & ->); [done|]. exists before, w', s', rest. split; [done|]. split; [done|].
  assert (k' = 5) as -> by (apply proj2 in Hk; specialize (Hk ltac:(done)); lia).
  rewrite Ha. done.
Defined.

Lemma two_failing_suites_survive_witness :
  exists w1 s1' w2 s2' after,
    CuSuiteRun "x" no_lf no_ptr example_world example_suite = Ok (w1, s1') /\
    CuSuiteRun "x" no_lf no_ptr w1 example_suite = Ok (w2, s2') /\
    get_non_trivial_FOM_stats 0 w2 "tmp" = Ok (6 :: after).
Proof.
  apply (two_failing_suites_survive 0 "x" no_lf no_ptr example_world example_suite example_suite
    "log" "tmp" "4" 4 example_ready (rr_tests _ _ _ _ _ _ example_ready) eq_refl eq_refl eq_refl
    example_temp_ok); by vm_compute.
Defined.

End Stats.
