(* ===== verification/Check.v ===== *)
(** * The forked Check library (src/libcheck/src/check.c, check_list.c)

    For projects that test with Check the engine replaces check.c by its own version,
    in which the end of a run reports to the engine ([record_mutation_results]).  The
    lists of the library and the building of suites are modelled with it.

    A [List] belongs to one structure, and so do the test functions and the fixtures in
    it; suites and test cases are shared and lie in a memory, 0 being [NULL].  [emalloc]
    is taken to succeed.  [strtod] gives the number and the rest of the text.  Running
    the tests and sending their results (check_run.c, check_msg.c) is code of Check that
    was not changed; it is in CheckRun.v and CheckMsg.v. *)

From Stdlib Require Import Ascii String.
From S2P Require Import Prelude Double CString System CuTest Stats.

Module Check.

(** ** Lists (check_list.c) *)

Section lists.
Context {A : Type}.

(** A slot that was not written is [None]. *)
Record List := mk_List { n_elts : Z; max_elts : Z; current : Z; last : Z; data : list (option A) }.

Definition check_list_create : List := mk_List 0 1 (-1) (-1) [None].

Definition maybe_grow (lp : List) : List :=
  if max_elts lp <=? n_elts lp then
    let m := wrap_u32 (max_elts lp * 2) in
    let d := take (Z.to_nat m) (data lp) in
    mk_List (n_elts lp) m (current lp) (last lp) (d ++ replicate (Z.to_nat m - List.length d) None)%list
  else lp.

Definition check_list_add_front (lp : List) (val : A) : res List :=
  let lp := maybe_grow lp in
  let n := Z.to_nat (n_elts lp) in
  if decide (n + 1 <= List.length (data lp))%nat then
    let d := (take 1 (data lp) ++ take n (data lp) ++ drop (n + 1) (data lp))%list in
    l ← chk (last lp + 1);
    d ← store d 0 (Some val);
    Ok (mk_List (wrap_u32 (n_elts lp + 1)) (max_elts lp) 0 l d)
  else Undef.

Definition check_list_add_end (lp : List) (val : A) : res List :=
  let lp := maybe_grow lp in
  l ← chk (last lp + 1);
  d ← store (data lp) l (Some val);
  Ok (mk_List (wrap_u32 (n_elts lp + 1)) (max_elts lp) l l d).

Definition check_list_at_end (lp : List) : bool := if current lp =? -1 then true else last lp <? current lp.

Definition set_current (lp : List) (c : Z) : List := mk_List (n_elts lp) (max_elts lp) c (last lp) (data lp).

Definition check_list_front (lp : List) : List := if current lp =? -1 then lp else set_current lp 0.

(** [None] is [NULL]. *)
Definition check_list_val (lp : List) : res (option A) :=
  if (current lp =? -1) || (last lp <? current lp) then Ok None
  else x ← load (data lp) (current lp); match x with Some v => Ok (Some v) | None => Undef end.

Definition check_list_advance (lp : List) : res List :=
  if check_list_at_end lp then Ok lp else c ← chk (current lp + 1); Ok (set_current lp c).

(** The loops over a list: the values that [check_list_val] gives, in order. *)
Fixpoint visit_loop (n : nat) (lp : List) : res (List * list (option A)) :=
  if check_list_at_end lp then Ok (lp, [])
  else
    match n with
    | O => OutOfFuel
    | S n => v ← check_list_val lp; lp ← check_list_advance lp; '(lp, vs) ← visit_loop n lp; Ok (lp, v :: vs)
    end.

Definition check_list_visit (lp : List) : res (List * list (option A)) := visit_loop (S (Z.to_nat (n_elts lp))) (check_list_front lp).

(** *** What a list holds *)

Record list_ok (lp : List) (l : list A) : Prop := {
  lo_n : n_elts lp = Z.of_nat (List.length l);
  lo_last : last lp = Z.of_nat (List.length l) - 1;
  lo_max : 1 <= max_elts lp <= Z.max 1 (2 * Z.of_nat (List.length l));
  lo_room : Z.of_nat (List.length l) <= max_elts lp;
  lo_small : Z.of_nat (List.length l) < 2 ^ 30;
  lo_cur : if decide (l = []) then current lp = -1 else 0 <= current lp <= Z.of_nat (List.length l);
  lo_data : data lp = ((Some <$> l) ++ replicate (Z.to_nat (max_elts lp) - List.length l) None)%list
}.

Lemma create_ok : list_ok check_list_create [].
Proof. split; simpl; try done; lia. Qed.

Lemma maybe_grow_ok lp l :
  list_ok lp l -> Z.of_nat (List.length l) + 1 < 2 ^ 30 ->
  exists m, maybe_grow lp = mk_List (n_elts lp) m (current lp) (last lp) ((Some <$> l) ++ replicate (Z.to_nat m - List.length l) None)%list /\
    Z.of_nat (List.length l) + 1 <= m <= 2 * (Z.of_nat (List.length l) + 1).
Proof.
  intros [Hn Hl Hm Hr Hs Hc Hd] Hb. unfold maybe_grow. destruct (Z.leb_spec (max_elts lp) (n_elts lp)) as [Hg|Hg].
  - assert (max_elts lp = Z.of_nat (List.length l)) as Hme by lia. exists (max_elts lp * 2). rewrite wrap_u32_id by lia. split; [|lia]. f_equal.
    rewrite Hd, Hme, Nat2Z.id, Nat.sub_diag. simpl. rewrite app_nil_r. rewrite take_ge by (rewrite length_fmap; lia). by rewrite length_fmap.
  - exists (max_elts lp). split; [|lia]. destruct lp. simpl in *. by rewrite Hd.
Qed.

Lemma add_end_ok lp l v :
  list_ok lp l -> Z.of_nat (List.length l) + 1 < 2 ^ 30 -> exists lp', check_list_add_end lp v = Ok lp' /\ list_ok lp' (l ++ [v])%list.
Proof.
  intros Hok Hb. pose proof Hok as [Hn Hl _ _ _ _ _]. destruct (maybe_grow_ok lp l Hok Hb) as (m & Hg & Hm). unfold check_list_add_end. rewrite Hg. cbn [last n_elts data max_elts].
  rewrite Hl, Z.sub_add, chk_ok by (unfold in_int, int_min, int_max; lia). cbn [mbind res_bind].
  destruct (Z.to_nat m - List.length l)%nat as [|k] eqn:Ek; [lia|]. rewrite store_ok by (rewrite length_app, length_fmap, length_replicate; lia). cbn [mbind res_bind].
  eexists. split; [done|]. rewrite Nat2Z.id, insert_app_r_alt, length_fmap, Nat.sub_diag by (rewrite length_fmap; lia). simpl insert.
  split; simpl; rewrite ?length_app, ?wrap_u32_id; simpl; try lia.
  - rewrite decide_False by (by destruct l). lia.
  - rewrite fmap_app, <- app_assoc. simpl. do 3 f_equal. lia.
Qed.

Lemma add_front_ok lp l v :
  list_ok lp l -> Z.of_nat (List.length l) + 1 < 2 ^ 30 -> exists lp', check_list_add_front lp v = Ok lp' /\ list_ok lp' (v :: l).
Proof.
  intros Hok Hb. pose proof Hok as [Hn Hl _ _ _ _ _]. destruct (maybe_grow_ok lp l Hok Hb) as (m & Hg & Hm). unfold check_list_add_front. rewrite Hg. cbn [last n_elts data max_elts].
  rewrite Hn, Nat2Z.id, decide_True by (rewrite length_app, length_fmap, length_replicate; lia).
  rewrite Hl, Z.sub_add, chk_ok by (unfold in_int, int_min, int_max; lia). cbn [mbind res_bind].
  destruct (Z.to_nat m - List.length l)%nat as [|k] eqn:Ek; [lia|]. rewrite (take_app_length' (Some <$> l) _ (List.length l)) by (by rewrite length_fmap).
  assert (drop (List.length l + 1) ((Some <$> l) ++ replicate (S k) None)%list = replicate k None) as ->.
  { rewrite drop_app_ge by (rewrite length_fmap; lia). rewrite length_fmap, Nat.add_comm, Nat.add_sub. simpl. by rewrite drop_0. }
  set (d1 := take 1 _). assert (List.length d1 = 1%nat) as Hd1 by (unfold d1; rewrite length_take, length_app, length_replicate; lia).
  destruct d1 as [|x [|]]; try done. simpl app. rewrite store_ok by (simpl; lia). cbn [mbind res_bind]. eexists. split; [done|]. simpl insert.
  split; simpl; rewrite ?wrap_u32_id; try lia. do 3 f_equal. lia.
Qed.

Lemma list_ok_inj lp l l' : list_ok lp l -> list_ok lp l' -> l = l'.
Proof.
  intros [H1 _ _ _ _ _ H2] [H3 _ _ _ _ _ H4]. rewrite H2 in H4. apply app_inj_1 in H4 as [H4 _]; [by apply (inj (fmap Some)) in H4|]. rewrite !length_fmap. lia.
Qed.

(** The cursor at a place of the list. *)
Lemma cursor_at lp l i : list_ok lp l -> l <> [] -> (i <= List.length l)%nat -> list_ok (set_current lp (Z.of_nat i)) l.
Proof. intros [] Hl Hi. split; simpl; try done. rewrite decide_False by done. lia. Qed.

Lemma cursor_end lp l i : list_ok lp l -> current lp = Z.of_nat i -> check_list_at_end lp = bool_decide (List.length l <= i)%nat.
Proof.
  intros [_ Hl _ _ _ _ _] Hc. unfold check_list_at_end. rewrite Hc, Hl, (proj2 (Z.eqb_neq _ (-1))) by lia.
  case_bool_decide; [apply Z.ltb_lt|apply Z.ltb_ge]; lia.
Qed.

Lemma cursor_val lp l i v :
  list_ok lp l -> current lp = Z.of_nat i -> l !! i = Some v -> check_list_val lp = Ok (Some v) /\ check_list_advance lp = Ok (set_current lp (Z.of_nat (S i))).
Proof.
  intros Hok Hc Hv. pose proof (lookup_lt_Some _ _ _ Hv) as Hi. unfold check_list_val, check_list_advance. rewrite (cursor_end _ _ _ Hok Hc), bool_decide_false by lia.
  destruct Hok as [_ Hl _ _ Hs _ Hd]. rewrite Hc, Hl, (proj2 (Z.eqb_neq _ (-1))), (proj2 (Z.ltb_ge _ _)) by lia. simpl orb. cbv iota. split.
  - rewrite (load_ok _ _ (Some v)); [done|lia|]. by rewrite Hd, Nat2Z.id, lookup_app_l, list_lookup_fmap, Hv by (rewrite length_fmap; lia).
  - rewrite chk_ok by (unfold in_int, int_min, int_max; lia). cbn [mbind res_bind]. do 2 f_equal. lia.
Qed.

Lemma visit_loop_ok n lp l i :
  list_ok lp l -> current lp = Z.of_nat i -> (i <= List.length l)%nat -> (List.length l - i < n)%nat -> l <> [] ->
  exists lp', visit_loop n lp = Ok (lp', Some <$> drop i l) /\ list_ok lp' l.
Proof.
  revert lp i. induction n as [|n IH]; intros lp i Hok Hc Hi Hn Hne; [lia|]. cbn [visit_loop]. rewrite (cursor_end _ _ _ Hok Hc). case_bool_decide as Hend.
  - rewrite drop_ge by lia. by exists lp.
  - destruct (lookup_lt_is_Some_2 l i) as [x Hx]; [lia|]. destruct (cursor_val _ _ _ _ Hok Hc Hx) as [-> ->]. cbn [mbind res_bind].
    destruct (IH (set_current lp (Z.of_nat (S i))) (S i)) as (lp' & -> & Hok'); [apply cursor_at; [done..|lia]|done|lia|lia|done|].
    cbn [mbind res_bind]. exists lp'. split; [|done]. by rewrite (drop_S l x i Hx).
Qed.

Lemma list_front lp l : list_ok lp l -> l <> [] -> check_list_front lp = set_current lp 0 /\ list_ok (set_current lp 0) l.
Proof.
  intros Hok Hl. split; [|apply (cursor_at lp l 0); [done|done|lia]]. unfold check_list_front. destruct Hok as [_ _ _ _ _ Hc _]. rewrite decide_False in Hc by done.
  by rewrite (proj2 (Z.eqb_neq _ _)) by lia.
Qed.

Lemma list_empty lp : list_ok lp [] -> check_list_front lp = lp /\ check_list_at_end lp = true.
Proof. intros [_ _ _ _ _ Hc _]. rewrite decide_True in Hc by done. unfold check_list_front, check_list_at_end. by rewrite Hc. Qed.

Lemma visit_ok lp l : list_ok lp l -> exists lp', check_list_visit lp = Ok (lp', Some <$> l) /\ list_ok lp' l.
Proof.
  intros Hok. pose proof Hok as [Hn _ _ _ _ _ _]. unfold check_list_visit. destruct (decide (l = [])) as [->|Hl].
  - destruct (list_empty lp Hok) as [-> He]. exists lp. split; [|done]. cbn [visit_loop]. by rewrite He.
  - destruct (list_front lp l Hok Hl) as [-> Hok']. apply (visit_loop_ok _ _ l 0); [done|done|lia|lia|done].
Qed.

Fixpoint add_all (adds : list (bool * A)) (lp : List) : res List :=
  match adds with
  | [] => Ok lp
  | (front, v) :: adds => lp ← (if front : bool then check_list_add_front lp v else check_list_add_end lp v); add_all adds lp
  end.

Definition added (adds : list (bool * A)) (l : list A) : list A :=
  fold_left (fun l (x : bool * A) => if x.1 then x.2 :: l else l ++ [x.2])%list adds l.

Lemma add_all_ok adds lp l :
  list_ok lp l -> Z.of_nat (List.length l + List.length adds) < 2 ^ 30 -> exists lp', add_all adds lp = Ok lp' /\ list_ok lp' (added adds l).
Proof.
  revert lp l. induction adds as [|[[|] v] adds IH]; intros lp l Hok Hb; simpl in *; [by exists lp|..].
  - destruct (add_front_ok lp l v Hok) as (lp1 & -> & Hok1); [lia|]. apply IH; [done|]. simpl. lia.
  - destruct (add_end_ok lp l v Hok) as (lp1 & -> & Hok1); [lia|]. apply IH; [done|]. rewrite length_app. simpl. lia.
Qed.
End lists.
Arguments List : clear implicits.

(** Whatever is added to a list at its front and at its end, a loop over it sees every
    value once and in order; the array grows on the way and is never left. *)
Theorem check_list_refines {A} (adds : list (bool * A)) :
  Z.of_nat (List.length adds) < 2 ^ 30 ->
  exists lp lp', add_all adds check_list_create = Ok lp /\ check_list_visit lp = Ok (lp', Some <$> added adds []).
Proof.
  intros Hb. destruct (add_all_ok adds check_list_create [] create_ok) as (lp & E1 & Hok); [simpl; lia|].
  destruct (visit_ok lp _ Hok) as (lp' & E2 & _). by exists lp, lp'.
Qed.

Lemma check_list_refines_witness :
  exists lp lp', add_all [(false, 1); (false, 2); (true, 3); (false, 4)] check_list_create = Ok lp /\ check_list_visit lp = Ok (lp', [Some 3; Some 1; Some 2; Some 4]).
Proof. apply (check_list_refines [(false, 1); (false, 2); (true, 3); (false, 4)]). simpl. lia. Defined.

(** ** Suites, test cases and runners (check.c) *)

Inductive test_result : Type := CK_TEST_RESULT_INVALID | CK_PASS | CK_FAILURE | CK_ERROR.
Inductive ck_result_ctx : Type := CK_CTX_INVALID | CK_CTX_SETUP | CK_CTX_TEST | CK_CTX_TEARDOWN.
Inductive fork_status : Type := CK_FORK_GETENV | CK_FORK | CK_NOFORK.

#[global] Instance test_result_eq_dec : EqDecision test_result.
Proof. solve_decision. Defined.

Record TF := mk_TF { fn : Z; loop_start : Z; loop_end : Z; tf_name : string; signal : Z; allowed_exit_value : Z }.
Record Fixture := mk_Fixture { ischecked : Z; fun_ : Z }.
Record Suite := mk_Suite { s_name : string; tclst : List Z }.
Record TCase := mk_TCase {
  tc_name : string; timeout : Z * Z; tflst : List TF;
  unch_sflst : List Fixture; unch_tflst : List Fixture; ch_sflst : List Fixture; ch_tflst : List Fixture }.
Record TestStats := mk_TestStats { n_checked : Z; n_failed : Z; n_errors : Z }.

(** [None] is [NULL]; the iteration is not set by [tr_init]. *)
Record TestResult := mk_TestResult {
  rtype : test_result; ctx : ck_result_ctx; file : option string; line : Z; iter : option Z; duration : Z;
  tcname : option string; tname : option string; msg : option string }.

Record SRunner := mk_SRunner {
  slst : List Z; stats : TestStats; resultlst : List TestResult;
  log_fname : option string; xml_fname : option string; tap_fname : option string; fstat : fork_status }.

(** The memory: suites and test cases at their addresses. *)
Record Mem := mk_Mem { suites : gmap Z Suite; tcases : gmap Z TCase; fresh : Z }.

Definition suite_create (m : Mem) (name : option string) : Mem * Z :=
  (mk_Mem (<[fresh m := mk_Suite (default "" name) check_list_create]> (suites m)) (tcases m) (fresh m + 1), fresh m).

Definition get_tcase (m : Mem) (tc : Z) : res TCase := match tcases m !! tc with Some t => Ok t | None => Undef end.
Definition get_suite (m : Mem) (s : Z) : res Suite := match suites m !! s with Some x => Ok x | None => Undef end.
Definition set_suite (m : Mem) (s : Z) (x : Suite) : Mem := mk_Mem (<[s := x]> (suites m)) (tcases m) (fresh m).
Definition set_tcase (m : Mem) (tc : Z) (x : TCase) : Mem := mk_Mem (suites m) (<[tc := x]> (tcases m)) (fresh m).

(** The loop ends at the first test case with the name and leaves the list there. *)
Fixpoint suite_tcase_loop (n : nat) (m : Mem) (l : List Z) (tcn : string) : res (List Z * Z) :=
  if check_list_at_end l then Ok (l, 0)
  else
    match n with
    | O => OutOfFuel
    | S n =>
        v ← check_list_val l;
        match v with
        | None => Undef
        | Some tc =>
            t ← get_tcase m tc;
            if String.eqb tcn (tc_name t) then Ok (l, 1) else l ← check_list_advance l; suite_tcase_loop n m l tcn
        end
    end.

Definition suite_tcase (m : Mem) (s : Z) (tcn : string) : res (Mem * Z) :=
  if s =? 0 then Ok (m, 0)
  else
    x ← get_suite m s;
    '(l, r) ← suite_tcase_loop (S (Z.to_nat (n_elts (tclst x)))) m (check_list_front (tclst x)) tcn;
    Ok (set_suite m s (mk_Suite (s_name x) l), r).

Definition suite_add_tcase (m : Mem) (s tc : Z) : res Mem :=
  if (s =? 0) || (tc =? 0) then Ok m
  else x ← get_suite m s; l ← check_list_add_end (tclst x) tc; Ok (set_suite m s (mk_Suite (s_name x) l)).

Section environment.
Context (strtod : string -> double * string).

Definition NANOS_PER_SECONDS : Z := 1000000000.

(** The number in a variable, when all of it is a number that is not negative. *)
Definition env_number (w : World) (v : string) : option double :=
  match getenv w v with
  | None => None
  | Some e =>
      let '(tmp, endptr) := strtod e in
      if dle d0 tmp && negb (String.eqb endptr e) && String.eqb endptr "" then Some tmp else None
  end.

(** Seconds and nanoseconds of a time that is not negative; a time that does not fit
    is undefined. *)
Definition timespec_of (t : double) : res (Z * Z) :=
  match dtrunc t with
  | None => Undef
  | Some sec =>
      if decide (sec < 2 ^ 63) then
        match dtrunc (dmul (dsub t (double_of_Z sec)) (double_of_Z NANOS_PER_SECONDS)) with
        | None => Undef
        | Some nsec => Ok (sec, nsec)
        end
      else Undef
  end.

Definition tcase_create (w : World) (m : Mem) (name : option string) : res (Mem * Z) :=
  let timeout_sec := double_of_Z 4 in
  let timeout_sec := default timeout_sec (env_number w "CK_DEFAULT_TIMEOUT") in
  let timeout_sec := match env_number w "CK_TIMEOUT_MULTIPLIER" with Some tmp => dmul timeout_sec tmp | None => timeout_sec end in
  t ← timespec_of timeout_sec;
  let tc := mk_TCase (default "" name) t check_list_create check_list_create check_list_create check_list_create check_list_create in
  Ok (mk_Mem (suites m) (<[fresh m := tc]> (tcases m)) (fresh m + 1), fresh m).

Definition set_timeout (c : TCase) (t : Z * Z) : TCase := mk_TCase (tc_name c) t (tflst c) (unch_sflst c) (unch_tflst c) (ch_sflst c) (ch_tflst c).

Definition tcase_set_timeout (w : World) (m : Mem) (tc : Z) (t : double) : res Mem :=
  if dle d0 t then
    let t := match env_number w "CK_TIMEOUT_MULTIPLIER" with Some tmp => dmul t tmp | None => t end in
    ts ← timespec_of t; c ← get_tcase m tc; Ok (set_tcase m tc (set_timeout c ts))
  else Ok m.
End environment.

Definition tcase_add_test (m : Mem) (tc f : Z) (name : option string) (sig allowed start end_ : Z) : res Mem :=
  match name with
  | None => Ok m
  | Some name =>
      if (tc =? 0) || (f =? 0) then Ok m
      else
        c ← get_tcase m tc;
        l ← check_list_add_end (tflst c) (mk_TF f start end_ name sig (wrap_u8 allowed));
        Ok (set_tcase m tc (mk_TCase (tc_name c) (timeout c) l (unch_sflst c) (unch_tflst c) (ch_sflst c) (ch_tflst c)))
  end.

Definition fixture_create (f checked : Z) : Fixture := mk_Fixture checked f.

Definition add_setup (c : TCase) (setup checked : Z) : res TCase :=
  if setup =? 0 then Ok c
  else if checked =? 0 then
    l ← check_list_add_end (unch_sflst c) (fixture_create setup checked);
    Ok (mk_TCase (tc_name c) (timeout c) (tflst c) l (unch_tflst c) (ch_sflst c) (ch_tflst c))
  else
    l ← check_list_add_end (ch_sflst c) (fixture_create setup checked);
    Ok (mk_TCase (tc_name c) (timeout c) (tflst c) (unch_sflst c) (unch_tflst c) l (ch_tflst c)).

(** Teardowns are added at the front, so that they run in reverse order. *)
Definition add_teardown (c : TCase) (teardown checked : Z) : res TCase :=
  if teardown =? 0 then Ok c
  else if checked =? 0 then
    l ← check_list_add_front (unch_tflst c) (fixture_create teardown checked);
    Ok (mk_TCase (tc_name c) (timeout c) (tflst c) (unch_sflst c) l (ch_sflst c) (ch_tflst c))
  else
    l ← check_list_add_front (ch_tflst c) (fixture_create teardown checked);
    Ok (mk_TCase (tc_name c) (timeout c) (tflst c) (unch_sflst c) (unch_tflst c) (ch_sflst c) l).

Definition tcase_add_fixture (m : Mem) (tc setup teardown checked : Z) : res Mem :=
  c ← get_tcase m tc; c ← add_setup c setup checked; c ← add_teardown c teardown checked; Ok (set_tcase m tc c).

Definition tcase_add_unchecked_fixture (m : Mem) (tc setup teardown : Z) : res Mem := tcase_add_fixture m tc setup teardown 0.

Definition tcase_add_checked_fixture (m : Mem) (tc setup teardown : Z) : res Mem := tcase_add_fixture m tc setup teardown 1.

Definition srunner_create (s : Z) : res SRunner :=
  l ← (if s =? 0 then Ok check_list_create else check_list_add_end check_list_create s);
  Ok (mk_SRunner l (mk_TestStats 0 0 0) check_list_create None None None CK_FORK_GETENV).

Definition with_slst (sr : SRunner) (l : List Z) : SRunner :=
  mk_SRunner l (stats sr) (resultlst sr) (log_fname sr) (xml_fname sr) (tap_fname sr) (fstat sr).
Definition with_resultlst (sr : SRunner) (l : List TestResult) : SRunner :=
  mk_SRunner (slst sr) (stats sr) l (log_fname sr) (xml_fname sr) (tap_fname sr) (fstat sr).

Definition srunner_add_suite (sr : SRunner) (s : Z) : res SRunner :=
  if s =? 0 then Ok sr else l ← check_list_add_end (slst sr) s; Ok (with_slst sr l).

Definition srunner_ntests_failed (sr : SRunner) : res Z := chk (n_failed (stats sr) + n_errors (stats sr)).

Definition srunner_ntests_run (sr : SRunner) : Z := n_checked (stats sr).

Definition non_pass (val : test_result) : bool := negb (bool_decide (val = CK_PASS)).

(** The array has a place for each counted failure. *)
Fixpoint failures_loop (trs : list (option TestResult)) (i : Z) (trarray : list (option TestResult)) : res (list (option TestResult)) :=
  match trs with
  | [] => Ok trarray
  | None :: _ => Undef
  | Some tr :: trs =>
      if non_pass (rtype tr) then a ← store trarray i (Some tr); failures_loop trs (i + 1) a
      else failures_loop trs i trarray
  end.

Definition srunner_failures (sr : SRunner) : res (SRunner * list (option TestResult)) :=
  n ← srunner_ntests_failed sr;
  '(l, trs) ← check_list_visit (resultlst sr);
  a ← failures_loop trs 0 (replicate (Z.to_nat n) None);
  Ok (with_resultlst sr l, a).

(** The array is filled with a pointer that was never set. *)
Definition srunner_results (sr : SRunner) : res (SRunner * list TestResult) :=
  '(l, trs) ← check_list_visit (resultlst sr);
  match trs with [] => Ok (with_resultlst sr l, []) | _ => Undef end.

Definition tr_create : TestResult := mk_TestResult CK_TEST_RESULT_INVALID CK_CTX_INVALID None (-1) None (-1) None None None.

Definition tr_msg (tr : TestResult) : option string := msg tr.
Definition tr_lno (tr : TestResult) : Z := line tr.
Definition tr_lfile (tr : TestResult) : option string := file tr.
Definition tr_rtype (tr : TestResult) : test_result := rtype tr.
Definition tr_ctx (tr : TestResult) : ck_result_ctx := ctx tr.
Definition tr_tcname (tr : TestResult) : option string := tcname tr.

(** *** The order of fixtures *)

Fixpoint add_fixtures (m : Mem) (tc : Z) (fs : list (Z * Z)) : res Mem :=
  match fs with
  | [] => Ok m
  | (setup, teardown) :: fs => m ← tcase_add_unchecked_fixture m tc setup teardown; add_fixtures m tc fs
  end.

Definition fixtures (fs : list Z) : list Fixture := (fun f => mk_Fixture 0 f) <$> filter (fun f => f <> 0) fs.

Lemma add_setup_ok c l f :
  list_ok (unch_sflst c) l -> Z.of_nat (List.length l) + 1 < 2 ^ 30 ->
  exists c', add_setup c f 0 = Ok c' /\ list_ok (unch_sflst c') (l ++ fixtures [f])%list /\ unch_tflst c' = unch_tflst c.
Proof.
  intros Hok Hb. unfold add_setup, fixtures. rewrite filter_cons, filter_nil. destruct (Z.eqb_spec f 0) as [->|Hf].
  - rewrite decide_False by lia. exists c. simpl. by rewrite app_nil_r.
  - rewrite decide_True by done. destruct (add_end_ok _ _ (fixture_create f 0) Hok Hb) as (lp & -> & Hok'). by eexists.
Qed.

Lemma add_teardown_ok c l f :
  list_ok (unch_tflst c) l -> Z.of_nat (List.length l) + 1 < 2 ^ 30 ->
  exists c', add_teardown c f 0 = Ok c' /\ list_ok (unch_tflst c') (fixtures [f] ++ l)%list /\ unch_sflst c' = unch_sflst c.
Proof.
  intros Hok Hb. unfold add_teardown, fixtures. rewrite filter_cons, filter_nil. destruct (Z.eqb_spec f 0) as [->|Hf].
  - rewrite decide_False by lia. by exists c.
  - rewrite decide_True by done. destruct (add_front_ok _ _ (fixture_create f 0) Hok Hb) as (lp & -> & Hok'). by eexists.
Qed.

Lemma fixtures_cons f fs : fixtures (f :: fs) = (fixtures [f] ++ fixtures fs)%list.
Proof. unfold fixtures. change (f :: fs) with ([f] ++ fs)%list. by rewrite filter_app, fmap_app. Qed.

Lemma fixtures_length f : (List.length (fixtures [f]) <= 1)%nat.
Proof. unfold fixtures. rewrite filter_cons, filter_nil. case_decide; simpl; lia. Qed.

Lemma add_fixtures_ok fs m tc c ls lt :
  tcases m !! tc = Some c -> list_ok (unch_sflst c) ls -> list_ok (unch_tflst c) lt ->
  Z.of_nat (List.length ls + List.length fs) < 2 ^ 30 -> Z.of_nat (List.length lt + List.length fs) < 2 ^ 30 ->
  exists m' c', add_fixtures m tc fs = Ok m' /\ tcases m' !! tc = Some c' /\
    list_ok (unch_sflst c') (ls ++ fixtures (fst <$> fs))%list /\ list_ok (unch_tflst c') (rev (fixtures (snd <$> fs)) ++ lt)%list.
Proof.
  revert m c ls lt. induction fs as [|[setup teardown] fs IH]; intros m c ls lt Hc Hs Ht Hbs Hbt; cbn [add_fixtures].
  { exists m, c. rewrite app_nil_r. done. }
  simpl in Hbs, Hbt. unfold tcase_add_unchecked_fixture, tcase_add_fixture, get_tcase. rewrite Hc. cbn [mbind res_bind].
  destruct (add_setup_ok c ls setup Hs) as (c1 & -> & Hs1 & Ht1); [lia|]. cbn [mbind res_bind]. rewrite <- Ht1 in Ht.
  destruct (add_teardown_ok c1 lt teardown Ht) as (c2 & -> & Ht2 & Hs2); [lia|]. cbn [mbind res_bind]. rewrite <- Hs2 in Hs1.
  pose proof (fixtures_length setup). pose proof (fixtures_length teardown).
  destruct (IH (set_tcase m tc c2) c2 _ _ (lookup_insert_eq _ _ _) Hs1 Ht2) as (m' & c' & E1 & Hc' & Hs' & Ht'); [rewrite length_app; lia..|].
  exists m', c'. split_and!; [done|done| |].
  - rewrite fmap_cons, fixtures_cons, app_assoc. done.
  - rewrite fmap_cons, fixtures_cons, rev_app_distr, <- app_assoc. simpl snd. destruct (fixtures [teardown]) as [|x [|]]; simpl in *; done || lia.
Qed.

(** A test case sets up its fixtures in the order in which they were added and tears
    them down in reverse order; functions that are [NULL] are left out. *)
Theorem fixtures_in_order (strtod : string -> double * string) w m name m1 tc fs :
  tcase_create strtod w m name = Ok (m1, tc) -> Z.of_nat (List.length fs) < 2 ^ 30 ->
  exists m2 c ls lt, add_fixtures m1 tc fs = Ok m2 /\ tcases m2 !! tc = Some c /\
    check_list_visit (unch_sflst c) = Ok (ls, Some <$> fixtures (fst <$> fs)) /\ check_list_visit (unch_tflst c) = Ok (lt, Some <$> rev (fixtures (snd <$> fs))).
Proof.
  unfold tcase_create. intros Hc Hb. apply res_bind_inv in Hc as (t & _ & [= <- <-]).
  match goal with |- context [add_fixtures ?m1 _ _] => edestruct (add_fixtures_ok fs m1 (fresh m)) as (m2 & c & E1 & Hc & Hs & Ht) end;
    [apply lookup_insert_eq|apply create_ok|apply create_ok|simpl; lia|simpl; lia|].
  rewrite app_nil_r in Ht. destruct (visit_ok _ _ Hs) as (ls & E2 & _), (visit_ok _ _ Ht) as (lt & E3 & _). by exists m2, c, ls, lt.
Qed.

Lemma fixtures_in_order_witness :
  exists m2 c ls lt, add_fixtures (mk_Mem ∅ {[7 := mk_TCase "core" (4, 0) check_list_create check_list_create check_list_create check_list_create check_list_create]} 8) 7 [(11, 21); (12, 0); (13, 23)] = Ok m2 /\
    tcases m2 !! 7 = Some c /\ check_list_visit (unch_sflst c) = Ok (ls, Some <$> [mk_Fixture 0 11; mk_Fixture 0 12; mk_Fixture 0 13]) /\
    check_list_visit (unch_tflst c) = Ok (lt, Some <$> [mk_Fixture 0 23; mk_Fixture 0 21]).
Proof.
  apply (fixtures_in_order (fun s => (d0, s)) (world_of ∅ ∅) (mk_Mem ∅ ∅ 7) (Some "core") _ 7 [(11, 21); (12, 0); (13, 23)]); [vm_compute; reflexivity|simpl; lia].
Defined.

(** ** The report to the engine

    The loop goes over the suites of the runner and takes each of them for a test
    result, which is longer.  C leaves that access undefined: [as_result p = None] for every
    suite [p] is the reading of the language ([check_report_undefined]).  A program that gets
    past it finds a number at the start of the suite and three strings behind its end:
    [as_result p] is then any such value, one for each address, and what is said below of
    the code behind the access holds for all of them. *)
Section report.
Context (junk : Z) (as_result : Z -> option (Z * option string * option string * option string)).

(** The array of the numbers doubles when it is full; what is added is not cleared. *)
Definition grow_ids (k : Z) (killed_by_tests : list Z) : list Z :=
  if k =? Z.of_nat (List.length killed_by_tests)
  then (killed_by_tests ++ replicate (List.length killed_by_tests) junk)%list else killed_by_tests.

Fixpoint suites_loop (trs : list (option Z)) (test_counter k : Z) (killed_by_tests : list Z) (log : string) : res (list Z * string) :=
  match trs with
  | [] => Ok (killed_by_tests, log)
  | None :: trs => suites_loop trs (test_counter + 1) k killed_by_tests log
  | Some p :: trs =>
      match as_result p with
      | None => Undef
      | Some (rt, tc, tn, ms) =>
          if rt =? 1 then suites_loop trs (test_counter + 1) k killed_by_tests log
          else
            killed_by_tests ← store (grow_ids k killed_by_tests) k (test_counter + 1);
            suites_loop trs (test_counter + 1) (k + 1) killed_by_tests
              (log ++ print_int (k + 2) ++ ") " ++ default "" tc ++ " " ++ default "" tn ++ ": " ++ default "" ms ++ String nl "")
      end
  end.

(** The numbers with commas, up to the first 0; [n] is what is left of [tests_run]. *)
Fixpoint buf_loop (n : nat) (i : Z) (killed_by_tests : list Z) (buf : string) : res string :=
  match n with
  | O => Ok buf
  | S n =>
      x ← load killed_by_tests i;
      if x =? 0 then Ok buf else buf_loop n (i + 1) killed_by_tests (buf ++ (if i =? 0 then "" else ",") ++ print_int x)
  end.

(** The count that is written is one more than the number of values [fscanf] stored.
    The buffers have 128 bytes; [buf] is read although nothing may have been written. *)
Definition write_results (w : World) (temp_results_path : string) (failed_tests tests_run : Z) (buf : string) : res World :=
  if String.eqb buf "" || (128 <=? strlen buf) then Undef
  else
    match read_file w temp_results_path with
    | None => Undef
    | Some tmp_results =>
        let mutant_kill_count := (sscanf tmp_results [DInt]).1 + 1 in
        let newNum := print_int mutant_kill_count ++ " " ++ print_int failed_tests ++ " " ++ print_int tests_run ++ " " ++ buf in
        if strlen newNum <? 128 then Ok (write_file w temp_results_path newNum) else Undef
    end.

Definition record_mutation_results (w : World) (sr : SRunner) : res (World * SRunner) :=
  match getenv w "MUTATION_RESULTS_PATH", getenv w "TEMP_RESULTS_PATH" with
  | Some mutation_results_path, Some temp_results_path =>
      match getenv w "IS_MUTATE" with
      | None => Undef
      | Some is_mutate =>
          if negb (String.eqb is_mutate "true") then Ok (w, sr)
          else
            let tests_run := srunner_ntests_run sr in
            failed_tests ← srunner_ntests_failed sr;
            if failed_tests =? 0 then Ok (append_file w mutation_results_path ("status: (survived!!)" ++ String nl ""), sr)
            else
              let w := append_file w mutation_results_path
                ("status: (killed)" ++ String nl ("description: (" ++ print_int failed_tests ++ ") of (" ++ print_int tests_run ++ ") tests failed:" ++ String nl "")) in
              '(l, trs) ← check_list_visit (slst sr);
              '(killed_by_tests, log) ← suites_loop trs 0 0 (replicate 25 0) "";
              let w := append_file w mutation_results_path log in
              buf ← buf_loop (Z.to_nat tests_run) 0 killed_by_tests "";
              w ← write_results w temp_results_path failed_tests tests_run buf;
              Ok (w, with_slst sr l)
      end
  | _, _ => Ok (w, sr)
  end.

(** The memory of the runner is given back after the report. *)
Definition srunner_free (w : World) (sr : SRunner) : res World := '(w, _) ← record_mutation_results w sr; Ok w.

(** *** What is reported *)

Definition looks_passed (p : Z) : bool := match as_result p with Some (rt, _, _, _) => rt =? 1 | None => false end.

(** The numbers of the suites that do not look like a passed test. *)
Fixpoint suite_ids (ps : list Z) (c : Z) : list Z :=
  match ps with
  | [] => []
  | p :: ps => if looks_passed p then suite_ids ps (c + 1) else (c + 1) :: suite_ids ps (c + 1)
  end.

Lemma suite_ids_range ps c : 0 <= c -> Forall (fun x => c < x <= c + Z.of_nat (List.length ps)) (suite_ids ps c).
Proof.
  revert c. induction ps as [|p ps IH]; intros c Hc; simpl; [constructor|].
  assert (Forall (fun x => c < x <= c + Z.of_nat (S (List.length ps))) (suite_ids ps (c + 1))) as H by (eapply Forall_impl; [apply IH; lia|]; simpl; lia).
  destruct (looks_passed p); [done|]. constructor; [lia|done].
Qed.

Lemma suite_ids_length ps c : (List.length (suite_ids ps c) <= List.length ps)%nat.
Proof. revert c. induction ps as [|p ps IH]; intros c; simpl; [lia|]. specialize (IH (c + 1)). destruct (looks_passed p); simpl; lia. Qed.

Lemma suites_loop_spec ps c pre log :
  Forall (fun p => is_Some (as_result p)) ps -> (List.length pre + List.length ps < 25)%nat ->
  exists log', suites_loop (Some <$> ps) c (Z.of_nat (List.length pre)) (pre ++ replicate (25 - List.length pre) 0)%list log =
    Ok ((pre ++ suite_ids ps c) ++ replicate (25 - List.length (pre ++ suite_ids ps c)%list) 0, log')%list.
Proof.
  revert c pre log. induction ps as [|p ps IH]; intros c pre log Hr Hlen; simpl in Hlen.
  { exists log. simpl. by rewrite app_nil_r. }
  apply Forall_cons in Hr as [[[[[rt tc] tn] ms] Hp] Hr]. rewrite fmap_cons. cbn [suites_loop suite_ids]. unfold looks_passed. rewrite Hp.
  destruct (rt =? 1); [apply IH; [done|lia]|]. unfold grow_ids. rewrite (proj2 (Z.eqb_neq _ _)) by (rewrite length_app, length_replicate; lia).
  rewrite store_ok by (rewrite length_app, length_replicate; lia). cbn [mbind res_bind]. rewrite Nat2Z.id, insert_app_r_alt, Nat.sub_diag by lia.
  destruct (25 - List.length pre)%nat as [|k] eqn:Ek; [lia|]. simpl insert.
  set (log1 := (log ++ _)%string). destruct (IH (c + 1) (pre ++ [c + 1])%list log1 Hr) as (log' & E1); [rewrite length_app; simpl; lia|].
  rewrite length_app in E1. simpl List.length in E1. rewrite <- !app_assoc in E1. simpl app in E1. exists log'.
  replace (Z.of_nat (List.length pre) + 1) with (Z.of_nat (List.length pre + 1)) by lia. replace (25 - (List.length pre + 1))%nat with k in E1 by lia. rewrite E1. by rewrite <- app_assoc.
Qed.

Lemma buf_loop_ids n ids pre rest buf :
  Forall (fun x => x <> 0) ids ->
  buf_loop n (Z.of_nat (List.length pre)) (pre ++ ids ++ 0 :: rest)%list buf = Ok (CuTest.ids_loop (take n ids) (Z.of_nat (List.length pre)) buf).
Proof.
  revert ids pre buf. induction n as [|n IH]; intros ids pre buf Hids; [done|]. cbn [buf_loop]. destruct ids as [|x ids].
  - rewrite (load_ok _ _ 0); [done|lia|]. rewrite Nat2Z.id, lookup_app_r, Nat.sub_diag by lia. done.
  - apply Forall_cons in Hids as [Hx Hids]. rewrite (load_ok _ _ x); [|lia|rewrite Nat2Z.id, lookup_app_r, Nat.sub_diag by lia; done]. cbn [mbind res_bind take CuTest.ids_loop].
    rewrite (proj2 (Z.eqb_neq x 0)) by done. set (buf1 := (buf ++ _)%string). specialize (IH ids (pre ++ [x])%list buf1 Hids).
    rewrite length_app, <- app_assoc in IH. simpl app in IH. simpl List.length in IH. replace (Z.of_nat (List.length pre) + 1) with (Z.of_nat (List.length pre + 1)) by lia. exact IH.
Qed.

(** A runner whose tests failed, when all suites can be read as results and one of them
    does not look passed. *)
Record reports (w : World) (sr : SRunner) (mp tp : string) (ps : list Z) : Prop := {
  rp_mp : getenv w "MUTATION_RESULTS_PATH" = Some mp;
  rp_tp : getenv w "TEMP_RESULTS_PATH" = Some tp;
  rp_ne : mp <> tp;
  rp_mutate : getenv w "IS_MUTATE" = Some "true";
  rp_suites : list_ok (slst sr) ps;
  rp_read : Forall (fun p => is_Some (as_result p)) ps;
  rp_few : (List.length ps < 25)%nat;
  rp_failed : 0 < n_failed (stats sr) + n_errors (stats sr) <= int_max;
  rp_run : 0 <= n_checked (stats sr) <= int_max
}.

Definition reported_ids (sr : SRunner) (ps : list Z) : list Z := take (Z.to_nat (n_checked (stats sr))) (suite_ids ps 0).

Lemma record_spec w sr mp tp ps content :
  reports w sr mp tp ps -> read_file w tp = Some content -> reported_ids sr ps <> [] ->
  let f := n_failed (stats sr) + n_errors (stats sr) in
  strlen (CuTest.results_text ((sscanf content [DInt]).1 + 1) f (n_checked (stats sr)) (reported_ids sr ps)) < 128 ->
  exists w' sr', record_mutation_results w sr = Ok (w', sr') /\
    read_file w' tp = Some (CuTest.results_text ((sscanf content [DInt]).1 + 1) f (n_checked (stats sr)) (reported_ids sr ps)).
Proof.
  intros [Hmp Htp Hne Hmut Hok Hread Hfew Hf Hr] Hc Hids f Hlen. unfold record_mutation_results. rewrite Hmp, Htp, Hmut. simpl String.eqb. cbv iota. simpl negb. cbv iota.
  unfold srunner_ntests_failed, srunner_ntests_run. fold f in Hf |- *. rewrite chk_ok by (unfold in_int, int_min in *; lia). cbn [mbind res_bind].
  rewrite (proj2 (Z.eqb_neq f 0)) by lia. destruct (visit_ok _ _ Hok) as (l & -> & _). cbn [mbind res_bind].
  destruct (suites_loop_spec ps 0 [] "" Hread) as (log & E1); [simpl; lia|]. change (suites_loop (Some <$> ps) 0 0 (replicate 25 0) "" = Ok (suite_ids ps 0 ++ replicate (25 - List.length (suite_ids ps 0)) 0, log)%list) in E1. rewrite E1. cbn [mbind res_bind].
  pose proof (suite_ids_length ps 0) as Hsl. destruct (25 - List.length (suite_ids ps 0))%nat as [|k] eqn:Ek; [lia|].
  assert (Forall (fun x => x <> 0) (suite_ids ps 0)) as Hnz by (eapply Forall_impl; [apply suite_ids_range; lia|]; simpl; lia).
  pose proof (buf_loop_ids (Z.to_nat (n_checked (stats sr))) (suite_ids ps 0) [] (replicate k 0) "" Hnz) as E2. change (buf_loop (Z.to_nat (n_checked (stats sr))) 0 (suite_ids ps 0 ++ replicate (S k) 0)%list "" = Ok (CuTest.ids_loop (take (Z.to_nat (n_checked (stats sr))) (suite_ids ps 0)) 0 "")) in E2. rewrite E2. cbn [mbind res_bind].
  pose proof (CuTest.ids_loop_spec (reported_ids sr ps) [] 0 "" (Forall_take _ _ _ Hnz) (Forall_nil_2 _) ltac:(lia)) as E3. rewrite app_nil_r in E3. unfold reported_ids in E3 at 1. rewrite E3.
  simpl orb. cbv iota. simpl append.
  unfold write_results. assert (String.eqb (CuTest.ids_text (reported_ids sr ps)) "" = false) as ->.
  { apply String.eqb_neq. destruct (reported_ids sr ps); [done|]. apply Stats.ids_text_ne. }
  unfold append_file. autorewrite with cres.  rewrite Hc. fold (CuTest.results_text ((sscanf content [DInt]).1 + 1) f (n_checked (stats sr)) (reported_ids sr ps)).
  rewrite (proj2 (Z.ltb_lt _ 128)) by done. assert (strlen (CuTest.ids_text (reported_ids sr ps)) < 128) as Hl2.
  { unfold strlen, CuTest.results_text in *. rewrite !string_app_length in Hlen. lia. }
  rewrite (proj2 (Z.leb_gt 128 _)) by done. simpl orb. cbv iota. cbn [mbind res_bind]. eexists _, _. split; [done|]. apply read_write_eq.
Qed.
End report.

(** a report is undefined: where a test failed and the runner has a suite, the suite is read
    as a test result, behind its end. *)
Theorem check_report_undefined gjunk w sr mp tp ps :
  getenv w "MUTATION_RESULTS_PATH" = Some mp -> getenv w "TEMP_RESULTS_PATH" = Some tp -> getenv w "IS_MUTATE" = Some "true" ->
  list_ok (slst sr) ps -> ps <> [] -> 0 < n_failed (stats sr) + n_errors (stats sr) <= int_max ->
  record_mutation_results gjunk (fun _ => None) w sr = Undef.
Proof.
  intros Hmp Htp Hmut Hok Hne Hf. unfold record_mutation_results. rewrite Hmp, Htp, Hmut. simpl String.eqb. cbv iota. simpl negb. cbv iota.
  unfold srunner_ntests_failed. rewrite chk_ok by (unfold in_int, int_min in *; lia). cbn [mbind res_bind].
  rewrite (proj2 (Z.eqb_neq _ 0)) by lia. destruct (visit_ok _ _ Hok) as (l & -> & _). cbn [mbind res_bind].
  destruct ps as [|p ps]; [done|]. reflexivity.
Qed.

(** [fscanf] stores one number of a temporary results file. *)
Lemma scans_one content k : Stats.temp_ok content k -> (sscanf content [DInt]).1 = 1.
Proof.
  intros [Hk [->|(f & n & ids & _ & _ & _ & _ & _ & ->)]].
  - rewrite <- (string_app_nil_r (print_int k)), (sscanf_convs _ _ (CInt k) [] false); [done|]. by rewrite scan_int.
  - unfold CuTest.results_text. rewrite (sscanf_convs _ _ (CInt k) [] false); [done|]. by rewrite scan_int.
Qed.


(** A runner of one suite in which one of two tests failed. *)
Definition example_runner : SRunner :=
  mk_SRunner (mk_List 1 1 0 0 [Some 4096]) (mk_TestStats 2 1 0) check_list_create None None None CK_FORK.
Definition example_world : World :=
  world_of {["log" := ""; "tmp" := "0"]} {["MUTATION_RESULTS_PATH" := "log"; "TEMP_RESULTS_PATH" := "tmp"; "IS_MUTATE" := "true"]}.
Definition example_read (p : Z) : option (Z * option string * option string * option string) := Some (4196352, None, None, None).

Lemma example_reports : reports example_read example_world example_runner "log" "tmp" [4096].
Proof.
  split; [vm_compute; reflexivity|vm_compute; reflexivity|done|vm_compute; reflexivity| |repeat constructor; by eexists|simpl; lia|vm_compute; split; congruence|vm_compute; split; congruence].
  split; simpl; try done; lia.
Qed.

End Check.
