(* ===== verification/LibXml.v ===== *)
(** * The XML library the engine calls (libxml2)

    libxml2 is not part of the repository: its functions are the operations of
    the class [LibXml], documents being values that the operations return anew.
    [LibXmlLaws] states the documented behaviour the statistics component relies
    on, for documents with a root element and a list of child elements that
    carry attributes and a text.  [getnodeset] is src/libxml_commons.c.

    [ListXml] is a small concrete library that satisfies the laws. *)

From Stdlib Require Import Ascii String.
From S2P Require Import Prelude CString.

Class LibXml := {
  Doc : Type;
  Node : Type;
  (** [xmlNewDoc] with a new root element of the given name *)
  xmlNewRootedDoc : string -> Doc;
  xmlDocGetRootElement : Doc -> Node;
  (** [xmlNewTextChild(parent, NULL, name, content)] *)
  xmlNewTextChild : Doc -> Node -> string -> string -> Doc * Node;
  xmlGetProp : Doc -> Node -> string -> option string;
  xmlSetProp : Doc -> Node -> string -> string -> Doc;
  (** the fields [xmlChildrenNode] and [name] of a node *)
  xmlChildrenNode : Doc -> Node -> option Node;
  xmlName : Doc -> Node -> string;
  xmlNextElementSibling : Doc -> Node -> option Node;
  xmlChildElementCount : Doc -> Node -> nat;
  (** [xmlNodeListGetString(doc, node->xmlChildrenNode, 1)], NULL when the
      element is empty *)
  xmlNodeListGetString : Doc -> Node -> option string;
  (** the text that [text()] selects; only the laws below mention it *)
  xmlNodeText : Doc -> Node -> string;
  (** [xmlXPathEvalExpression]: the nodes selected, in document order *)
  xmlXPathEval : Doc -> string -> option (list Node);
  xmlParse : string -> option Doc;
  xmlSave : Doc -> string
}.

(** ** src/libxml_commons.c *)

Definition getnodeset `{LibXml} (doc : Doc) (xpath : string) : option (list Node) :=
  match xmlXPathEval doc xpath with
  | None => None
  | Some [] => None
  | Some nodes => Some nodes
  end.

Definition text_query (name content : string) : string :=
  "//" ++ name ++ "[text()='" ++ content ++ "']".

Definition no_quote (s : string) : Prop :=
  List.Forall (fun c => Ascii.eqb c "'" = false) (list_ascii_of_string s).

(** ** Documented behaviour

    [top d] are the element children of the root, in document order. *)
Class LibXmlLaws (X : LibXml) := {
  node_eq_dec :: EqDecision Node;
  top : Doc -> list Node;

  top_nodup d : NoDup (top d);
  xml_count d : xmlChildElementCount d (xmlDocGetRootElement d) = List.length (top d);
  (** the first child is the first element, or a text in front of it *)
  xml_children d n :
    head (top d) = Some n ->
    exists c, xmlChildrenNode d (xmlDocGetRootElement d) = Some c /\
      (c = n \/ (xmlName d c = "text" /\ xmlNextElementSibling d c = Some n));
  xml_next d i n :
    top d !! i = Some n -> xmlNextElementSibling d n = top d !! S i;
  xml_new name : top (xmlNewRootedDoc name) = [];

  xml_set_top d n k v : top (xmlSetProp d n k v) = top d;
  xml_set_name d n k v m : xmlName (xmlSetProp d n k v) m = xmlName d m;
  xml_set_text d n k v m : xmlNodeText (xmlSetProp d n k v) m = xmlNodeText d m;
  xml_get_set_eq d n k v : n ∈ top d -> xmlGetProp (xmlSetProp d n k v) n k = Some v;
  xml_get_set_ne d n k v m k' :
    n <> m \/ k <> k' -> xmlGetProp (xmlSetProp d n k v) m k' = xmlGetProp d m k';

  xml_child_top d name text d' n :
    xmlNewTextChild d (xmlDocGetRootElement d) name text = (d', n) -> top d' = (top d ++ [n])%list;
  xml_child_new d name text d' n :
    xmlNewTextChild d (xmlDocGetRootElement d) name text = (d', n) ->
    xmlName d' n = name /\ xmlNodeText d' n = text /\ forall k, xmlGetProp d' n k = None;
  xml_child_old d name text d' n m :
    xmlNewTextChild d (xmlDocGetRootElement d) name text = (d', n) -> m ∈ top d ->
    xmlName d' m = xmlName d m /\ xmlNodeText d' m = xmlNodeText d m /\
    forall k, xmlGetProp d' m k = xmlGetProp d m k;

  (** [//mutation_operator] and [//mutation_operator[text()='...']] on such a
      document *)
  xml_query_name d :
    xmlXPathEval d "//mutation_operator" =
      Some (filter (fun n => xmlName d n = "mutation_operator") (top d));
  xml_query_text d content :
    no_quote content ->
    xmlXPathEval d (text_query "mutation_operator" content) =
      Some (filter (fun n => xmlName d n = "mutation_operator" /\ xmlNodeText d n = content) (top d))
}.

#[export] Hint Rewrite @xml_set_top @xml_set_name @xml_set_text using (try typeclasses eauto) : xml.

(** ** A concrete library *)

Module ListXml.

Record element := mk_element { ename : string; etext : string; props : gmap string string }.

(** A document is the list of the children of its root; a node is the root
    ([None]) or the position of a child. *)
Abbreviation document := (list element).

Definition find_element (d : document) (n : option nat) : option element := n ≫= (fun i => d !! i).
Definition set_prop (k v : string) (e : element) : element :=
  mk_element (ename e) (etext e) (<[k := v]> (props e)).
Definition update (d : document) (n : option nat) (f : element -> element) : document :=
  match n with Some i => alter f i d | None => d end.
Definition children (d : document) : list (option nat) := Some <$> seq 0 (List.length d).

Definition name_of (d : document) (n : option nat) : string := default "" (ename <$> find_element d n).
Definition text_of (d : document) (n : option nat) : string := default "" (etext <$> find_element d n).
Definition next_of (d : document) (n : option nat) : option (option nat) :=
  n ≫= (fun i => children d !! S i).

Fixpoint strip_prefix (p s : string) : option string :=
  match p, s with
  | EmptyString, _ => Some s
  | String a p', String b s' => if Ascii.eqb a b then strip_prefix p' s' else None
  | _, EmptyString => None
  end.

Definition query (d : document) (q : string) : option (list (option nat)) :=
  match strip_prefix "//mutation_operator" q with
  | Some EmptyString => Some (filter (fun n => name_of d n = "mutation_operator") (children d))
  | Some rest =>
      match strip_prefix "[text()='" rest with
      | Some r =>
          let content := String.substring 0 (String.length r - 2) r in
          Some (filter (fun n => name_of d n = "mutation_operator" /\ text_of d n = content) (children d))
      | None => None
      end
  | None => None
  end.

(** Parsing and saving are the caller's. *)
Definition list_xml (parse : string -> option document) (save : document -> string) : LibXml := {|
  Doc := document;
  Node := option nat;
  xmlNewRootedDoc := fun _ => [];
  xmlDocGetRootElement := fun _ => None;
  xmlNewTextChild := fun d _ name text =>
    ((d ++ [mk_element name text ∅])%list, Some (List.length d));
  xmlGetProp := fun d n k => find_element d n ≫= (fun e => props e !! k);
  xmlSetProp := fun d n k v => update d n (set_prop k v);
  xmlChildrenNode := fun d n => head (children d);
  xmlName := name_of;
  xmlNextElementSibling := next_of;
  xmlChildElementCount := fun d n => List.length d;
  xmlNodeListGetString := fun d n => Some (text_of d n);
  xmlNodeText := text_of;
  xmlXPathEval := query;
  xmlParse := parse;
  xmlSave := save
|}.

Lemma children_update d n f : children (update d n f) = children d.
Proof. unfold children. destruct n; simpl; [|done]. by rewrite length_alter. Qed.

Lemma find_update d n f m :
  find_element (update d n f) m = if decide (n = m) then f <$> find_element d m else find_element d m.
Proof.
  unfold find_element. destruct m as [j|]; simpl; [|by case_decide].
  destruct n as [i|]; simpl; [|done]. destruct (decide (i = j)) as [->|Hne].
  - rewrite decide_True by done. apply list_lookup_alter_eq.
  - rewrite decide_False by congruence. by apply list_lookup_alter_ne.
Qed.

Lemma elem_of_children d n : n ∈ children d <-> is_Some (find_element d n).
Proof.
  unfold children, find_element. rewrite list_elem_of_fmap. split.
  - intros (i & -> & Hi%elem_of_seq). simpl. apply lookup_lt_is_Some. lia.
  - destruct n as [i|]; simpl; [|by intros [??]]. intros Hi%lookup_lt_is_Some.
    exists i. split; [done|]. apply elem_of_seq. lia.
Qed.

Lemma children_lookup d i : children d !! i = if decide (i < List.length d)%nat then Some (Some i) else None.
Proof.
  unfold children. rewrite list_lookup_fmap. case_decide.
  - rewrite lookup_seq_lt by done. done.
  - rewrite lookup_seq_ge by lia. done.
Qed.

Lemma substring_app c s : String.substring 0 (String.length (c ++ s) - String.length s) (c ++ s) = c.
Proof.
  rewrite string_app_length. replace (String.length c + String.length s - String.length s)%nat
    with (String.length c) by lia.
  induction c as [|a c IH]; simpl; [by destruct s|]. by rewrite IH.
Qed.

#[export] Instance list_xml_laws parse save : LibXmlLaws (list_xml parse save).
Proof.
  unshelve refine (@Build_LibXmlLaws (list_xml parse save) option_eq_dec children _ _ _ _ _ _ _ _ _ _ _ _ _ _ _); simpl.
  - intros d. apply NoDup_fmap_2; [by intros ?? [= ->]|]. apply NoDup_seq.
  - intros d. unfold children. by rewrite length_fmap, length_seq.
  - intros d n Hn. exists n. auto.
  - intros d i n. rewrite children_lookup. case_decide; [|done]. intros [= <-]. done.
  - done.
  - intros. apply children_update.
  - intros d n k v m. unfold name_of. rewrite find_update. case_decide; [|done].
    by destruct (find_element d m).
  - intros d n k v m. unfold text_of. rewrite find_update. case_decide; [|done].
    by destruct (find_element d m).
  - intros d n k v Hn%elem_of_children. rewrite find_update, decide_True by done.
    destruct Hn as [e ->]. simpl. apply lookup_insert_eq.
  - intros d n k v m k' Hne. rewrite find_update. case_decide; [subst|done].
    destruct (find_element d m); simpl; [|done]. apply lookup_insert_ne. tauto.
  - intros d name text d' n [= <- <-]. unfold children. rewrite length_app, seq_app. simpl.
    by rewrite fmap_app.
  - intros d name text d' n [= <- <-]. unfold name_of, text_of. simpl.
    rewrite lookup_app_r, Nat.sub_diag by done. simpl. done.
  - intros d name text d' n m [= <- <-] Hm%elem_of_children. unfold name_of, text_of.
    destruct m as [i|]; simpl in *; [|by destruct Hm].
    rewrite lookup_app_l by (by apply lookup_lt_is_Some). done.
  - done.
  - intros d content _. unfold query, text_query. cbn -[String.substring String.length].
    replace 2%nat with (String.length "']") by done. by rewrite substring_app.
Defined.

End ListXml.

(** ** A concrete library of nested elements

    A node is the path to an element; it answers the two queries made on a
    Valgrind report. *)
Module TreeXml.

Inductive tree := T (name text : string) (kids : list tree).

Definition tname (t : tree) : string := let '(T n _ _) := t in n.
Definition ttext (t : tree) : string := let '(T _ x _) := t in x.
Definition tkids (t : tree) : list tree := let '(T _ _ l) := t in l.

Fixpoint find (t : tree) (p : list nat) : option tree :=
  match p with
  | [] => Some t
  | i :: p => tkids t !! i ≫= (fun t => find t p)
  end.

(** All nodes below and including a tree, in document order. *)
Fixpoint nodes (t : tree) (p : list nat) : list (list nat) :=
  p :: (fix go (i : nat) (l : list tree) : list (list nat) :=
          match l with
          | [] => []
          | t :: l => (nodes t (p ++ [i]) ++ go (S i) l)%list
          end) 0%nat (tkids t).

Definition node_name (t : tree) (p : list nat) : string := default "" (tname <$> find t p).
Definition node_text (t : tree) (p : list nat) : string := default "" (ttext <$> find t p).
Definition parent (p : list nat) : list nat := removelast p.

Definition query (t : tree) (q : string) : option (list (list nat)) :=
  if String.eqb q "//errorcounts/pair/count" then
    Some (List.filter (fun p => String.eqb (node_name t p) "count" &&
                                String.eqb (node_name t (parent p)) "pair" &&
                                String.eqb (node_name t (parent (parent p))) "errorcounts") (nodes t []))
  else
    match ListXml.strip_prefix "//error[unique='" q with
    | Some r =>
        let u := String.substring 0 (String.length r - 2) r in
        Some (List.filter (fun p => String.eqb (node_name t p) "error" &&
            existsb (fun c => String.eqb (tname c) "unique" && String.eqb (ttext c) u)
              (default [] (tkids <$> find t p))) (nodes t []))
    | None => None
    end.

Definition next_sibling (t : tree) (p : list nat) : option (list nat) :=
  match rev p with
  | [] => None
  | i :: r => let p' := (rev r ++ [S i])%list in
              if bool_decide (is_Some (tname <$> find t p')) then Some p' else None
  end.

Definition tree_xml (parse : string -> option tree) : LibXml := {|
  Doc := tree;
  Node := list nat;
  xmlNewRootedDoc := fun n => T n "" [];
  xmlDocGetRootElement := fun _ => [];
  xmlNewTextChild := fun t _ n x => (T (tname t) (ttext t) (tkids t ++ [T n x []])%list,
                                     [List.length (tkids t)]);
  xmlGetProp := fun _ _ _ => None;
  xmlSetProp := fun t _ _ _ => t;
  xmlChildrenNode := fun t p =>
    match find t p with Some (T _ _ (_ :: _)) => Some (p ++ [0%nat])%list | _ => None end;
  xmlName := node_name;
  xmlNextElementSibling := next_sibling;
  xmlChildElementCount := fun t p => List.length (default [] (tkids <$> find t p));
  xmlNodeListGetString := fun t p => Some (node_text t p);
  xmlNodeText := node_text;
  xmlXPathEval := query;
  xmlParse := parse;
  xmlSave := fun _ => ""
|}.

End TreeXml.
