(* ===== verification/GStats.v ===== *)
(** * The statistics file (src/gstats.c)

    gstats.xml has a root with one [aggregate_stats] element and one
    [mutation_operator] element per mutation operator, whose text is the
    operator's code and whose attributes are counters.  The component is modelled
    over the [LibXml] interface; [doc] and the aggregate counters are its global
    variables, threaded explicitly.

    The abstract view is a map from a code and a key to a number, 0 where there
    is no entry: [get_gstat_value_mutation] reads it and
    [create_update_gstat_mutation] updates it at one point. *)

From Stdlib Require Import Ascii String.
From S2P Require Import Prelude Double CString System LibXml.

Module GStats.

Definition MUT_QUERY_PREFIX : string := "//mutation_operator[text()='".
Definition MUT_QUERY_SUFFIX : string := "']".

Record aggregates := mk_aggregates {
  total_mutants : Z;
  mutant_kill_count : Z;
  non_trivial_count : Z;
  dumb_count : Z;
  survived_count : Z;
  killed_by_valgrind_count : Z;
  total_tests_run : Z;
  total_infection_count : Z;
  total_valgrind_errors : Z
}.

Definition init_aggregates : aggregates := mk_aggregates 0 0 0 0 0 0 0 0 0.

Section gstats.
Context {X : LibXml}.
(** The format [%G]. *)
Context (print_G : double -> string).

Record gstats := mk_gstats { doc : Doc; aggr : aggregates }.

Definition with_doc (gs : gstats) (d : Doc) : gstats := mk_gstats d (aggr gs).

(** [int_to_char_heap] and [double_to_char_heap] *)
Definition int_to_char_heap (i : Z) : string := print_int i.
Definition double_to_char_heap (d : double) : string := print_G d.

(** ** Files *)

Definition flush_GStats (w : World) (path : string) (gs : gstats) : World :=
  write_file w path (xmlSave (doc gs)).

Definition open_GStats (w : World) (path : string) (ag : aggregates) : World * gstats :=
  let w := append_file w path "" in
  match xmlParse (default "" (read_file w path)) with
  | Some d => (w, mk_gstats d ag)
  | None =>
      let d := xmlNewRootedDoc "gstats" in
      let '(d, aggregate_node) := xmlNewTextChild d (xmlDocGetRootElement d) "aggregate_stats" "" in
      let ag :=
        match xmlGetProp d aggregate_node "total_infection_count" with
        | Some tic =>
            mk_aggregates (total_mutants ag) (mutant_kill_count ag) (non_trivial_count ag)
              (dumb_count ag) (survived_count ag) (killed_by_valgrind_count ag)
              (total_tests_run ag) (atoi tic) (total_valgrind_errors ag)
        | None => ag
        end in
      let gs := mk_gstats d ag in
      (flush_GStats w path gs, gs)
  end.

Definition clear_GStats (w : World) (path : string) : World * Z :=
  match read_file w path with
  | Some _ => (remove_file w path, 0)
  | None => (w, -1)
  end.

(** ** Operators *)

Definition find_mutation_by_code (d : Doc) (mut_code : string) : res (option Node) :=
  let xPath_query := MUT_QUERY_PREFIX ++ mut_code ++ MUT_QUERY_SUFFIX in
  match getnodeset d xPath_query with
  | None => Ok None
  | Some [n] => Ok (Some n)
  | Some _ => Exit 1
  end.

Definition get_gstat_value_mutation (gs : gstats) (mut_code key : string) : res Z :=
  mutation ← find_mutation_by_code (doc gs) mut_code;
  match mutation with
  | None => Ok 0
  | Some mutation =>
      match xmlGetProp (doc gs) mutation key with
      | None => Ok 0
      | Some val => Ok (atoi val)
      end
  end.

(** The walk along the siblings; running off their end dereferences NULL. *)
Fixpoint find_aggregate (fuel : nat) (d : Doc) (n : Node) : res Node :=
  match fuel with
  | O => OutOfFuel
  | S fuel =>
      if String.eqb (xmlName d n) "aggregate_stats" then Ok n
      else
        match xmlNextElementSibling d n with
        | Some n => find_aggregate fuel d n
        | None => Undef
        end
  end.

Definition aggregate_node (d : Doc) : res Node :=
  match xmlChildrenNode d (xmlDocGetRootElement d) with
  | Some n => find_aggregate (S (S (xmlChildElementCount d (xmlDocGetRootElement d)))) d n
  | None => Undef
  end.

Definition get_gstat_value_aggr_results (gs : gstats) (key : string) : res Z :=
  n ← aggregate_node (doc gs);
  match xmlGetProp (doc gs) n key with
  | None => Ok 0
  | Some val => Ok (atoi val)
  end.

Definition set_aggregate (ag : aggregates) (key : string) (value : Z) : aggregates :=
  let '(mk_aggregates tm mk nt dc sc kv tr ti tv) := ag in
  if String.eqb key "total_tests_run" then mk_aggregates tm mk nt dc sc kv value ti tv
  else if String.eqb key "total_mutants" then mk_aggregates value mk nt dc sc kv tr ti tv
  else if String.eqb key "mutant_kill_count" then mk_aggregates tm value nt dc sc kv tr ti tv
  else if String.eqb key "non_trivial_count" then mk_aggregates tm mk value dc sc kv tr ti tv
  else if String.eqb key "dumb_count" then mk_aggregates tm mk nt value sc kv tr ti tv
  else if String.eqb key "survived_count" then mk_aggregates tm mk nt dc value kv tr ti tv
  else if String.eqb key "killed_by_valgrind_count" then mk_aggregates tm mk nt dc sc value tr ti tv
  else if String.eqb key "total_infection_count" then mk_aggregates tm mk nt dc sc kv tr value tv
  else if String.eqb key "total_valgrind_errors" then mk_aggregates tm mk nt dc sc kv tr ti value
  else ag.

Definition create_update_aggr_results (gs : gstats) (key : string) (value : Z) : res gstats :=
  let ag := set_aggregate (aggr gs) key value in
  n ← aggregate_node (doc gs);
  Ok (mk_gstats (xmlSetProp (doc gs) n key (int_to_char_heap value)) ag).

Definition create_update_gstat_mutation (gs : gstats) (mut_code key : string) (value : Z) :
    res gstats :=
  mutation ← find_mutation_by_code (doc gs) mut_code;
  let char_value := int_to_char_heap value in
  let '(d, mutation) :=
    match mutation with
    | None => xmlNewTextChild (doc gs) (xmlDocGetRootElement (doc gs)) "mutation_operator" mut_code
    | Some n => (doc gs, n)
    end in
  let gs := with_doc gs (xmlSetProp d mutation key char_value) in
  if String.eqb key "infection_count" && negb (value =? 0) then
    total ← chk (total_infection_count (aggr gs) + 1);
    create_update_aggr_results
      (mk_gstats (doc gs) (set_aggregate (aggr gs) "total_infection_count" total))
      "total_infection_count" total
  else Ok gs.

(** ** Derived statistics *)

Definition d100 : double := double_of_Z 100.

(** An attribute computed from a raw counter, when both the counter and the
    number of generated mutants are there. *)
Definition derive (d : Doc) (n : Node) (generated : Z) (raw derived : string)
    (f : Z -> double) : Doc :=
  match xmlGetProp d n raw with
  | Some c => if generated =? -1 then d else xmlSetProp d n derived (double_to_char_heap (f (atoi c)))
  | None => d
  end.

(** The share of the survivors among the mutants with a symptom. *)
Definition immunity (d : Doc) (n : Node) (survived killed derived : string) : res Doc :=
  match xmlGetProp d n survived, xmlGetProp d n killed with
  | None, None => Ok (xmlSetProp d n derived "0.0")
  | None, Some _ => Ok (xmlSetProp d n derived "0.0")
  | Some _, None => Ok (xmlSetProp d n derived "1.0")
  | Some s, Some k =>
      let sv := atoi s in
      let kv := atoi k in
      total ← chk (sv + kv);
      Ok (xmlSetProp d n derived
            (double_to_char_heap (ddiv (double_of_Z sv) (double_of_Z total))))
  end.

Definition derive_operator (d : Doc) (n : Node) : res Doc :=
  let generated :=
    match xmlGetProp d n "generated_mutants" with None => -1 | Some gm => atoi gm end in
  let g := double_of_Z generated in
  let d := derive d n generated "damage_raw" "damage"
             (fun c => ddiv (ddiv (double_of_Z c) d100) g) in
  let d := derive d n generated "killed_by_tests" "fragilty"
             (fun c => ddiv (double_of_Z c) g) in
  let d := derive d n generated "cfg_deviation_raw" "average_CFD"
             (fun c => ddiv (ddiv (double_of_Z c) d100) g) in
  let d := derive d n generated "failed_injection" "infectiveness"
             (fun c => dsub d1 (ddiv (double_of_Z c) g)) in
  d ← immunity d n "survived_WD_VE" "killed_WD_VE" "valgrind_immunity";
  immunity d n "survived_WD_CFD" "killed_WD_CFD" "CFD_immunity".

Fixpoint derive_operators (d : Doc) (nodes : list Node) : res Doc :=
  match nodes with
  | [] => Ok d
  | n :: nodes => d ← derive_operator d n; derive_operators d nodes
  end.

Definition generate_derived_stats (gs : gstats) : res gstats :=
  match getnodeset (doc gs) "//mutation_operator" with
  | None => Ok gs
  | Some nodes => d ← derive_operators (doc gs) nodes; Ok (with_doc gs d)
  end.

(** ** Invariant *)

Context {L : LibXmlLaws X}.

Definition is_operator (d : Doc) (code : string) (n : Node) : Prop :=
  xmlName d n = "mutation_operator" /\ xmlNodeText d n = code.
#[global] Instance is_operator_dec d code n : Decision (is_operator d code n).
Proof. unfold is_operator. apply _. Defined.

(** The elements that record an operator. *)
Definition operators (d : Doc) (code : string) : list Node := filter (is_operator d code) (top d).

Record wf_doc (d : Doc) : Prop := {
  wf_unique : forall code, (List.length (operators d code) <= 1)%nat;
  wf_aggregate : exists n, n ∈ top d /\ xmlName d n = "aggregate_stats"
}.

Lemma query_text d code :
  no_quote code -> xmlXPathEval d (MUT_QUERY_PREFIX ++ code ++ MUT_QUERY_SUFFIX) = Some (operators d code).
Proof. intros Hq. exact (xml_query_text d code Hq). Qed.

Lemma find_mutation_spec d code :
  wf_doc d -> no_quote code -> find_mutation_by_code d code = Ok (head (operators d code)).
Proof.
  intros [Hu _] Hq. unfold find_mutation_by_code, getnodeset. rewrite query_text by done.
  specialize (Hu code). destruct (operators d code) as [|n [|m l]]; simpl in *; [done..|lia].
Qed.

(** The element the walk stops at. *)
Definition aggregate_el (d : Doc) : option Node :=
  head (filter (fun n => xmlName d n = "aggregate_stats") (top d)).

Lemma find_aggregate_spec d fuel i n a :
  top d !! i = Some n -> (List.length (top d) - i < fuel)%nat ->
  head (filter (fun n => xmlName d n = "aggregate_stats") (drop i (top d))) = Some a ->
  find_aggregate fuel d n = Ok a.
Proof.
  revert i n. induction fuel as [|fuel IH]; intros i n Hi Hf Ha; [lia|]. simpl.
  rewrite (drop_S _ _ _ Hi), filter_cons in Ha.
  destruct (String.eqb_spec (xmlName d n) "aggregate_stats") as [E|E].
  - rewrite decide_True in Ha by done. naive_solver.
  - rewrite decide_False in Ha by done. rewrite (xml_next d i n Hi).
    apply lookup_lt_Some in Hi. destruct (top d !! S i) as [n'|] eqn:Hn'.
    + apply (IH (S i)); [done|lia|done].
    + apply lookup_ge_None in Hn'. by rewrite drop_ge in Ha.
Qed.

Lemma aggregate_node_spec d :
  wf_doc d -> exists a, aggregate_node d = Ok a /\ aggregate_el d = Some a /\
    a ∈ top d /\ xmlName d a = "aggregate_stats".
Proof.
  intros [_ (m & Hm & Em)].
  assert (exists a l, filter (fun n => xmlName d n = "aggregate_stats") (top d) = a :: l) as (a & l & Hal).
  { destruct (filter _ _) as [|a l] eqn:Hl; [|by eauto].
    assert (m ∈ []) as []%elem_of_nil. rewrite <- Hl. by apply list_elem_of_filter. }
  assert (a ∈ filter (fun n => xmlName d n = "aggregate_stats") (top d)) as [Hname Hin]%list_elem_of_filter.
  { rewrite Hal. constructor. }
  exists a. unfold aggregate_el. split_and!; try done; [|by rewrite Hal].
  destruct (top d) as [|n0 t] eqn:Ht; [by apply elem_of_nil in Hin|].
  destruct (xml_children d n0) as (c & Hc & Hcase); [by rewrite Ht|].
  assert (forall fuel, (List.length (top d) < fuel)%nat -> find_aggregate fuel d n0 = Ok a) as Hwalk.
  { intros fuel Hfuel. apply (find_aggregate_spec d fuel 0); rewrite ?Ht, ?drop_0; try done.
    - rewrite <- Ht. lia.
    - by rewrite Hal. }
  unfold aggregate_node. rewrite Hc, xml_count. destruct Hcase as [->|[Ename Enext]].
  - apply Hwalk. lia.
  - cbn [find_aggregate]. rewrite Ename, Enext. apply (Hwalk (S (List.length (top d)))). lia.
Qed.

(** ** The abstract view *)

(** The number recorded for a code under a key. *)
Definition value_at (d : Doc) (code key : string) : Z :=
  match head (operators d code) with
  | Some n => match xmlGetProp d n key with Some v => atoi v | None => 0 end
  | None => 0
  end.

Lemma get_value gs code key :
  wf_doc (doc gs) -> no_quote code ->
  get_gstat_value_mutation gs code key = Ok (value_at (doc gs) code key).
Proof.
  intros Hwf Hq. unfold get_gstat_value_mutation, value_at. rewrite find_mutation_spec by done.
  simpl. destruct (head _); [|done]. by case_match.
Qed.

Lemma operators_set d n k v code : operators (xmlSetProp d n k v) code = operators d code.
Proof.
  unfold operators. rewrite xml_set_top. apply filter_ext_in. intros x _. unfold is_operator.
  by rewrite xml_set_name, xml_set_text.
Qed.

Lemma wf_set d n k v : wf_doc d -> wf_doc (xmlSetProp d n k v).
Proof.
  intros [Hu (m & Hm & Em)]. split.
  - intros code. by rewrite operators_set.
  - exists m. by rewrite xml_set_top, xml_set_name.
Qed.

Lemma head_operator d code n : head (operators d code) = Some n -> n ∈ top d /\ is_operator d code n.
Proof.
  intros Hn. assert (n ∈ operators d code) as Hin.
  { destruct (operators d code); [done|]. simpl in Hn. injection Hn as ->. constructor. }
  apply list_elem_of_filter in Hin. tauto.
Qed.

(** Setting an attribute of an operator's element changes one point of the view. *)
Lemma value_at_set d code n key v c k :
  head (operators d code) = Some n ->
  value_at (xmlSetProp d n key v) c k =
    if decide (c = code /\ k = key) then atoi v else value_at d c k.
Proof.
  intros Hn. destruct (head_operator d code n Hn) as [Hin [Hname Htext]].
  unfold value_at. rewrite operators_set. destruct (decide (c = code)) as [->|Hc].
  - rewrite Hn. destruct (decide (k = key)) as [->|Hk].
    + rewrite xml_get_set_eq, decide_True by done. done.
    + rewrite xml_get_set_ne, decide_False by naive_solver. done.
  - rewrite decide_False by tauto. destruct (head (operators d c)) as [m|] eqn:Hm; [|done].
    destruct (head_operator d c m Hm) as [_ [_ Htext']].
    rewrite xml_get_set_ne; [done|]. left. intros ->. congruence.
Qed.

(** Setting an attribute of another element changes none. *)
Lemma value_at_set_other d n key v c k :
  xmlName d n <> "mutation_operator" -> value_at (xmlSetProp d n key v) c k = value_at d c k.
Proof.
  intros Hn. unfold value_at. rewrite operators_set.
  destruct (head (operators d c)) as [m|] eqn:Hm; [|done].
  destruct (head_operator d c m Hm) as [_ [Hname _]].
  rewrite xml_get_set_ne; [done|]. left. by intros ->.
Qed.

(** The number recorded under an aggregate key. *)
Definition aggr_at (d : Doc) (key : string) : Z :=
  match aggregate_el d with
  | Some n => match xmlGetProp d n key with Some v => atoi v | None => 0 end
  | None => 0
  end.

Lemma get_aggr gs key :
  wf_doc (doc gs) -> get_gstat_value_aggr_results gs key = Ok (aggr_at (doc gs) key).
Proof.
  intros Hwf. unfold get_gstat_value_aggr_results, aggr_at.
  destruct (aggregate_node_spec _ Hwf) as (a & -> & -> & _). simpl. by case_match.
Qed.

Lemma aggregate_el_set d n k v : aggregate_el (xmlSetProp d n k v) = aggregate_el d.
Proof.
  unfold aggregate_el. rewrite xml_set_top. f_equal. apply filter_ext_in. intros x _.
  by rewrite xml_set_name.
Qed.

Lemma aggr_at_set d a key v k :
  aggregate_el d = Some a -> a ∈ top d ->
  aggr_at (xmlSetProp d a key v) k = if decide (k = key) then atoi v else aggr_at d k.
Proof.
  intros Ha Hin. unfold aggr_at. rewrite aggregate_el_set, Ha. case_decide.
  - subst. by rewrite xml_get_set_eq.
  - rewrite xml_get_set_ne by naive_solver. done.
Qed.

Lemma aggr_at_set_other d n key v k :
  aggregate_el d <> Some n -> aggr_at (xmlSetProp d n key v) k = aggr_at d k.
Proof.
  intros Hn. unfold aggr_at. rewrite aggregate_el_set. destruct (aggregate_el d); [|done].
  rewrite xml_get_set_ne; [done|]. left. congruence.
Qed.

Lemma operator_not_aggregate d code n : head (operators d code) = Some n -> aggregate_el d <> Some n.
Proof.
  intros Hn Ha. destruct (head_operator d code n Hn) as [_ [Hname _]].
  unfold aggregate_el in Ha. apply head_Some_elem_of in Ha. apply list_elem_of_filter in Ha. naive_solver congruence.
Qed.

(** A new operator element. *)
Lemma new_operator d code d' n :
  wf_doc d -> operators d code = [] ->
  xmlNewTextChild d (xmlDocGetRootElement d) "mutation_operator" code = (d', n) ->
  wf_doc d' /\ head (operators d' code) = Some n /\
  (forall c k, value_at d' c k = value_at d c k) /\ forall k, aggr_at d' k = aggr_at d k.
Proof.
  intros Hwf Hnone E. destruct (aggregate_node_spec d Hwf) as (a & _ & Ha & Hina & _).
  destruct Hwf as [Hu (m & Hm & Em)].
  pose proof (xml_child_top _ _ _ _ _ E) as Htop.
  destruct (xml_child_new _ _ _ _ _ E) as (Hname & Htext & Hprops).
  assert (forall c, operators d' c = operators d c ++ (if decide (c = code) then [n] else []))%list as Hops.
  { intros c. unfold operators. rewrite Htop, filter_app. f_equal.
    - apply filter_ext_in. intros x Hx. unfold is_operator.
      destruct (xml_child_old _ _ _ _ _ _ E Hx) as (-> & -> & _). done.
    - rewrite filter_cons, filter_nil. unfold is_operator.
      repeat case_decide; naive_solver. }
  split_and!.
  - split.
    + intros c. rewrite Hops. specialize (Hu c). case_decide as Hc; [subst; by rewrite Hnone|].
      by rewrite app_nil_r.
    + exists m. rewrite Htop, elem_of_app. split; [by left|].
      by destruct (xml_child_old _ _ _ _ _ _ E Hm) as (-> & _).
  - by rewrite Hops, Hnone, decide_True.
  - intros c k. unfold value_at. rewrite Hops. case_decide as Hc.
    + subst. rewrite Hnone. simpl. by rewrite Hprops.
    + rewrite app_nil_r. destruct (head (operators d c)) as [m'|] eqn:Hm'; [|done].
      destruct (head_operator d c m' Hm') as [Hin _].
      destruct (xml_child_old _ _ _ _ _ _ E Hin) as (_ & _ & ->). done.
  - intros k. assert (aggregate_el d' = Some a) as Ha'.
    { revert Ha. unfold aggregate_el. rewrite Htop, filter_app.
      rewrite (filter_ext_in (fun n => xmlName d' n = "aggregate_stats")
                 (fun n => xmlName d n = "aggregate_stats") (top d)).
      - by destruct (filter _ (top d)).
      - intros x Hx. by destruct (xml_child_old _ _ _ _ _ _ E Hx) as (-> & _). }
    unfold aggr_at. rewrite Ha, Ha'. by destruct (xml_child_old _ _ _ _ _ _ E Hina) as (_ & _ & ->).
Qed.

(** The element a counter is written to. *)
Lemma update_target gs code :
  wf_doc (doc gs) -> no_quote code ->
  exists d n, wf_doc d /\ head (operators d code) = Some n /\
    (forall c k, value_at d c k = value_at (doc gs) c k) /\
    (forall k, aggr_at d k = aggr_at (doc gs) k) /\
    forall key value, create_update_gstat_mutation gs code key value =
      (let gs' := with_doc gs (xmlSetProp d n key (int_to_char_heap value)) in
       if String.eqb key "infection_count" && negb (value =? 0) then
         total ← chk (total_infection_count (aggr gs') + 1);
         create_update_aggr_results
           (mk_gstats (doc gs') (set_aggregate (aggr gs') "total_infection_count" total))
           "total_infection_count" total
       else Ok gs').
Proof.
  intros Hwf Hq. unfold create_update_gstat_mutation.
  rewrite find_mutation_spec by done. cbn [mbind res_bind].
  destruct (head (operators (doc gs) code)) as [n|] eqn:Hn.
  - exists (doc gs), n. split_and!; try done.
  - destruct (xmlNewTextChild _ _ _ code) as [d n] eqn:E. exists d, n.
    destruct (new_operator (doc gs) code d n Hwf) as (? & ? & ? & ?); [|done..].
    by destruct (operators (doc gs) code).
Qed.

(** ** The abstract specification

    Two maps from keys to numbers and the number of infections so far. *)
Record spec_state := mk_spec {
  spec_mut : gmap (string * string) Z;
  spec_aggr : gmap string Z;
  spec_infections : Z
}.

Inductive update :=
  | UpdMutation (code key : string) (value : Z)
  | UpdAggregate (key : string) (value : Z).

Definition spec_update_aggr (a : spec_state) (key : string) (v : Z) : spec_state :=
  mk_spec (spec_mut a) (<[key := v]> (spec_aggr a))
    (if String.eqb key "total_infection_count" then v else spec_infections a).

Definition spec_update (a : spec_state) (u : update) : spec_state :=
  match u with
  | UpdAggregate key v => spec_update_aggr a key v
  | UpdMutation code key v =>
      let a' := mk_spec (<[(code, key) := v]> (spec_mut a)) (spec_aggr a) (spec_infections a) in
      if String.eqb key "infection_count" && negb (v =? 0)
      then spec_update_aggr a' "total_infection_count" (spec_infections a + 1)
      else a'
  end.

(** What the engine passes: a code without quotes and an [int]. *)
Definition update_ok (u : update) : Prop :=
  match u with
  | UpdMutation code _ v => no_quote code /\ in_int v
  | UpdAggregate _ v => in_int v
  end.

Definition apply_update (gs : gstats) (u : update) : res gstats :=
  match u with
  | UpdMutation code key v => create_update_gstat_mutation gs code key v
  | UpdAggregate key v => create_update_aggr_results gs key v
  end.

Fixpoint apply_updates (gs : gstats) (us : list update) : res gstats :=
  match us with
  | [] => Ok gs
  | u :: us => gs ← apply_update gs u; apply_updates gs us
  end.

Record refines (gs : gstats) (a : spec_state) : Prop := {
  refines_wf : wf_doc (doc gs);
  refines_mut : forall c k, value_at (doc gs) c k = default 0 (spec_mut a !! (c, k));
  refines_aggr : forall k, aggr_at (doc gs) k = default 0 (spec_aggr a !! k);
  refines_infections : total_infection_count (aggr gs) = spec_infections a
}.

Lemma set_aggregate_infections ag key v :
  total_infection_count (set_aggregate ag key v) =
    if String.eqb key "total_infection_count" then v else total_infection_count ag.
Proof.
  destruct ag. unfold set_aggregate.
  destruct (String.eqb_spec key "total_infection_count"); [subst; done|].
  repeat (case_match; [done|]). done.
Qed.

Lemma update_aggr_refines gs a key v :
  refines gs a -> in_int v ->
  exists gs', create_update_aggr_results gs key v = Ok gs' /\ refines gs' (spec_update_aggr a key v).
Proof.
  intros [Hwf Hm Ha Hi] Hv. unfold create_update_aggr_results.
  destruct (aggregate_node_spec _ Hwf) as (n & -> & Hn & Hin & Hname). cbn [mbind res_bind].
  eexists. split; [done|]. split; cbn [doc aggr spec_mut spec_aggr spec_infections spec_update_aggr].
  - by apply wf_set.
  - intros c k. rewrite value_at_set_other; [apply Hm|by rewrite Hname].
  - intros k. rewrite (aggr_at_set _ n) by done. unfold int_to_char_heap.
    rewrite atoi_print_int_id by done. case_decide as Hk.
    + subst. by rewrite lookup_insert_eq.
    + by rewrite lookup_insert_ne.
  - by rewrite set_aggregate_infections, Hi.
Qed.

Lemma set_mutation_refines gs a d n code key v :
  wf_doc d -> head (operators d code) = Some n ->
  (forall c k, value_at d c k = value_at (doc gs) c k) ->
  (forall k, aggr_at d k = aggr_at (doc gs) k) ->
  refines gs a -> in_int v ->
  refines (with_doc gs (xmlSetProp d n key (int_to_char_heap v)))
    (mk_spec (<[(code, key) := v]> (spec_mut a)) (spec_aggr a) (spec_infections a)).
Proof.
  intros Hwf Hn Hval Hag [_ Hm Ha Hi] Hv.
  split; cbn [with_doc doc aggr spec_mut spec_aggr spec_infections].
  - by apply wf_set.
  - intros c k. rewrite (value_at_set d code n key) by done. unfold int_to_char_heap.
    rewrite atoi_print_int_id by done. case_decide as Hck.
    + destruct Hck; subst. by rewrite lookup_insert_eq.
    + rewrite lookup_insert_ne, Hval by naive_solver. done.
  - intros k. rewrite aggr_at_set_other by (by eapply operator_not_aggregate). by rewrite Hag.
  - done.
Qed.

Lemma update_refines gs a u :
  refines gs a -> update_ok u -> in_int (spec_infections a + 1) ->
  exists gs', apply_update gs u = Ok gs' /\ refines gs' (spec_update a u).
Proof.
  intros HR Hok Hinf. destruct u as [code key v|key v]; simpl in *; [|by apply update_aggr_refines].
  destruct Hok as [Hq Hv].
  destruct (update_target gs code (refines_wf _ _ HR) Hq) as (d & n & Hwf & Hn & Hval & Hag & ->).
  cbv zeta. pose proof (set_mutation_refines gs a d n code key v Hwf Hn Hval Hag HR Hv) as HR'.
  destruct (String.eqb key "infection_count" && negb (v =? 0)); [|by eauto].
  pose proof (refines_infections _ _ HR') as Hi. cbn [spec_infections] in Hi. rewrite Hi.
  rewrite chk_ok by done. cbn [mbind res_bind].
  destruct (update_aggr_refines _ _ "total_infection_count" (spec_infections a + 1) HR' Hinf)
    as (gs' & E & HR''). exists gs'. split; [|done]. rewrite <- E.
  unfold create_update_aggr_results. cbn [doc aggr]. f_equal.
  destruct (aggr _); reflexivity.
Qed.

(** The updates are in range along the run. *)
Fixpoint updates_ok (a : spec_state) (us : list update) : Prop :=
  match us with
  | [] => True
  | u :: us => update_ok u /\ in_int (spec_infections a + 1) /\ updates_ok (spec_update a u) us
  end.

Lemma updates_refine us gs a :
  refines gs a -> updates_ok a us ->
  exists gs', apply_updates gs us = Ok gs' /\ refines gs' (foldl spec_update a us).
Proof.
  revert gs a. induction us as [|u us IH]; intros gs a HR Hok; [by eauto|].
  destruct Hok as (Hu & Hi & Hus). destruct (update_refines gs a u HR Hu Hi) as (gs' & E & HR').
  simpl. rewrite E. by apply IH.
Qed.

Definition spec_empty : spec_state := mk_spec ∅ ∅ 0.

Lemma open_new w path ag :
  xmlParse (default "" (read_file (append_file w path "") path)) = None ->
  aggr (open_GStats w path ag).2 = ag /\ wf_doc (doc (open_GStats w path ag).2) /\
  (forall c k, value_at (doc (open_GStats w path ag).2) c k = 0) /\
  forall k, aggr_at (doc (open_GStats w path ag).2) k = 0.
Proof.
  intros Hp. unfold open_GStats. rewrite Hp.
  destruct (xmlNewTextChild _ _ _ _) as [d n] eqn:E.
  pose proof (xml_child_top _ _ _ _ _ E) as Htop. rewrite xml_new in Htop. simpl in Htop.
  destruct (xml_child_new _ _ _ _ _ E) as (Hname & Htext & Hprops).
  rewrite Hprops. cbn [snd doc aggr].
  assert (forall code, operators d code = []) as Hops.
  { intros code. unfold operators. rewrite Htop, filter_cons, decide_False; [done|].
    unfold is_operator. rewrite Hname. by intros [? _]. }
  split_and!; [done|split| |].
  - intros code. rewrite Hops. simpl. lia.
  - exists n. rewrite Htop. split; [constructor|done].
  - intros c k. unfold value_at. by rewrite Hops.
  - intros k. unfold aggr_at, aggregate_el. rewrite Htop, filter_cons, decide_True by done.
    simpl. by rewrite Hprops.
Qed.

(** ** Derived attributes *)

(** Two documents with the same elements. *)
Record same_shape (d d' : Doc) : Prop := {
  shape_top : top d' = top d;
  shape_name : forall n, xmlName d' n = xmlName d n;
  shape_text : forall n, xmlNodeText d' n = xmlNodeText d n
}.

#[global] Instance same_shape_preorder : PreOrder same_shape.
Proof.
  split; [by intros d; split|].
  intros d1 d2 d3 [T1 N1 X1] [T2 N2 X2]. split; intros; by rewrite ?T2, ?N2, ?X2.
Qed.

Lemma set_same_shape d n k v : same_shape d (xmlSetProp d n k v).
Proof. split; intros; by rewrite ?xml_set_top, ?xml_set_name, ?xml_set_text. Qed.

Lemma same_shape_operators d d' code : same_shape d d' -> operators d' code = operators d code.
Proof.
  intros [T N X']. unfold operators. rewrite T. apply filter_ext_in. intros x _.
  unfold is_operator. by rewrite N, X'.
Qed.

Lemma same_shape_wf d d' : same_shape d d' -> wf_doc d -> wf_doc d'.
Proof.
  intros HS [Hu (m & Hm & Em)]. split.
  - intros code. by rewrite (same_shape_operators d).
  - exists m. by rewrite (shape_top _ _ HS), (shape_name _ _ HS).
Qed.

(** What the attributes of an operator become, given its attributes. *)
Abbreviation attrs := (string -> option string).

Definition generated_of (p : attrs) : Z :=
  match p "generated_mutants" with None => -1 | Some gm => atoi gm end.

Definition derived_from (p : attrs) (raw old : string) (f : double -> double -> double) : option string :=
  match p raw with
  | Some c =>
      if generated_of p =? -1 then p old
      else Some (print_G (f (double_of_Z (atoi c)) (double_of_Z (generated_of p))))
  | None => p old
  end.

Definition immunity_from (p : attrs) (survived killed : string) : string :=
  match p survived, p killed with
  | None, _ => "0.0"
  | Some _, None => "1.0"
  | Some s, Some k => print_G (ddiv (double_of_Z (atoi s)) (double_of_Z (atoi s + atoi k)))
  end.

Definition derived_attr (p : attrs) (k : string) : option string :=
  if String.eqb k "damage" then derived_from p "damage_raw" k (fun c g => ddiv (ddiv c d100) g)
  else if String.eqb k "fragilty" then derived_from p "killed_by_tests" k ddiv
  else if String.eqb k "average_CFD" then
    derived_from p "cfg_deviation_raw" k (fun c g => ddiv (ddiv c d100) g)
  else if String.eqb k "infectiveness" then
    derived_from p "failed_injection" k (fun c g => dsub d1 (ddiv c g))
  else if String.eqb k "valgrind_immunity" then
    Some (immunity_from p "survived_WD_VE" "killed_WD_VE")
  else if String.eqb k "CFD_immunity" then
    Some (immunity_from p "survived_WD_CFD" "killed_WD_CFD")
  else p k.

(** The sums of survivors and killed mutants do not overflow. *)
Definition sum_ok (p : attrs) (survived killed : string) : Prop :=
  forall s k, p survived = Some s -> p killed = Some k -> in_int (atoi s + atoi k).

Definition sums_ok (p : attrs) : Prop :=
  sum_ok p "survived_WD_VE" "killed_WD_VE" /\ sum_ok p "survived_WD_CFD" "killed_WD_CFD".

(** [d'] is [d] with one attribute of one element replaced. *)
Definition one_attr (d : Doc) (n : Node) (key : string) (new : option string) (d' : Doc) : Prop :=
  same_shape d d' /\
  forall m k, xmlGetProp d' m k = if decide (m = n /\ k = key) then new else xmlGetProp d m k.

Lemma one_attr_set d n key v : n ∈ top d -> one_attr d n key (Some v) (xmlSetProp d n key v).
Proof.
  intros Hn. split; [apply set_same_shape|]. intros m k. case_decide as Hk.
  - destruct Hk; subst. by apply xml_get_set_eq.
  - apply xml_get_set_ne. destruct (decide (n = m)); naive_solver.
Qed.

Lemma one_attr_same d n key : one_attr d n key (xmlGetProp d n key) d.
Proof. split; [done|]. intros m k. case_decide; naive_solver. Qed.

Lemma derive_spec d n raw key f :
  n ∈ top d ->
  one_attr d n key (derived_from (xmlGetProp d n) raw key f)
    (derive d n (generated_of (xmlGetProp d n)) raw key
       (fun c => f (double_of_Z c) (double_of_Z (generated_of (xmlGetProp d n))))).
Proof.
  intros Hn. unfold derive, derived_from. destruct (xmlGetProp d n raw); [|apply one_attr_same].
  case_match; [apply one_attr_same|]. by apply one_attr_set.
Qed.

Lemma immunity_spec d n survived killed key :
  n ∈ top d -> sum_ok (xmlGetProp d n) survived killed ->
  exists d', immunity d n survived killed key = Ok d' /\
    one_attr d n key (Some (immunity_from (xmlGetProp d n) survived killed)) d'.
Proof.
  intros Hn Hok. unfold immunity, immunity_from. unfold sum_ok in Hok.
  destruct (xmlGetProp d n survived) as [s|], (xmlGetProp d n killed) as [k|]; cbn [mbind res_bind];
    try (eexists; split; [done|]; by apply one_attr_set).
  rewrite chk_ok by auto. cbn [mbind res_bind]. eexists; split; [done|]. by apply one_attr_set.
Qed.

(** The attributes of [n] under [keys] are derived; nothing else differs. *)
Record derived_upto (d0 : Doc) (n : Node) (keys : list string) (d : Doc) : Prop := {
  upto_shape : same_shape d0 d;
  upto_other : forall m k, m <> n -> xmlGetProp d m k = xmlGetProp d0 m k;
  upto_attr : forall k, xmlGetProp d n k =
    if decide (k ∈ keys) then derived_attr (xmlGetProp d0 n) k else xmlGetProp d0 n k
}.

Lemma upto_raw d0 n keys d k :
  derived_upto d0 n keys d -> k ∉ keys -> xmlGetProp d n k = xmlGetProp d0 n k.
Proof. intros [_ _ ->] ?. by rewrite decide_False. Qed.

Lemma upto_one_attr d0 n keys d key d' :
  derived_upto d0 n keys d -> one_attr d n key (derived_attr (xmlGetProp d0 n) key) d' ->
  derived_upto d0 n (key :: keys) d'.
Proof.
  intros [HS Ho Ha] [HS' Hd']. split.
  - by transitivity d.
  - intros m k Hm. rewrite Hd', decide_False by tauto. auto.
  - intros k. rewrite Hd'. destruct (decide (k = key)) as [->|Hk].
    + rewrite !decide_True by (done || constructor). done.
    + rewrite decide_False by tauto. rewrite Ha. do 2 case_decide; try done; set_solver.
Qed.

Lemma upto_derive d0 n keys d raw key f :
  derived_upto d0 n keys d -> n ∈ top d0 ->
  bool_decide (raw ∉ keys /\ key ∉ keys /\ "generated_mutants" ∉ keys) = true ->
  derived_from (xmlGetProp d0 n) raw key f = derived_attr (xmlGetProp d0 n) key ->
  derived_upto d0 n (key :: keys)
    (derive d n (generated_of (xmlGetProp d0 n)) raw key
       (fun c => f (double_of_Z c) (double_of_Z (generated_of (xmlGetProp d0 n))))).
Proof.
  intros HU Hn (Hr & Hk & Hg)%bool_decide_eq_true_1 E. eapply upto_one_attr; [done|]. rewrite <- E.
  assert (generated_of (xmlGetProp d n) = generated_of (xmlGetProp d0 n)) as Eg.
  { unfold generated_of. by rewrite (upto_raw _ _ _ _ _ HU Hg). }
  pose proof (derive_spec d n raw key f) as HD.
  unfold derived_from in HD |- *. rewrite Eg, !(upto_raw _ _ _ _ _ HU) in HD by done.
  apply HD. by rewrite (shape_top _ _ (upto_shape _ _ _ _ HU)).
Qed.

Lemma upto_immunity d0 n keys d survived killed key :
  derived_upto d0 n keys d -> n ∈ top d0 ->
  bool_decide (survived ∉ keys /\ killed ∉ keys) = true ->
  sum_ok (xmlGetProp d0 n) survived killed ->
  Some (immunity_from (xmlGetProp d0 n) survived killed) = derived_attr (xmlGetProp d0 n) key ->
  exists d', immunity d n survived killed key = Ok d' /\ derived_upto d0 n (key :: keys) d'.
Proof.
  intros HU Hn (Hs & Hk)%bool_decide_eq_true_1 Hok E.
  destruct (immunity_spec d n survived killed key) as (d' & Ed' & HO).
  - by rewrite (shape_top _ _ (upto_shape _ _ _ _ HU)).
  - unfold sum_ok. by rewrite !(upto_raw _ _ _ _ _ HU).
  - exists d'. split; [done|]. eapply upto_one_attr; [done|]. rewrite <- E.
    unfold immunity_from in HO |- *. by rewrite !(upto_raw _ _ _ _ _ HU) in HO by done.
Qed.

Lemma derived_attr_other p k :
  k ∉ ["CFD_immunity"; "valgrind_immunity"; "infectiveness"; "average_CFD"; "fragilty"; "damage"] ->
  derived_attr p k = p k.
Proof.
  intros Hk. unfold derived_attr.
  repeat (match goal with |- context [String.eqb k ?x] =>
    destruct (String.eqb_spec k x) as [->|]; [set_solver|] end). done.
Qed.

Lemma derive_operator_spec d n :
  n ∈ top d -> sums_ok (xmlGetProp d n) ->
  exists d', derive_operator d n = Ok d' /\ same_shape d d' /\
    (forall k, xmlGetProp d' n k = derived_attr (xmlGetProp d n) k) /\
    forall m k, m <> n -> xmlGetProp d' m k = xmlGetProp d m k.
Proof.
  intros Hn [Hv Hc]. unfold derive_operator. cbv zeta.
  change (match xmlGetProp d n "generated_mutants" with None => -1 | Some gm => atoi gm end)
    with (generated_of (xmlGetProp d n)).
  assert (derived_upto d n [] d) as U0 by (by split).
  pose proof (upto_derive _ _ _ _ "damage_raw" "damage"
                (fun c g => ddiv (ddiv c d100) g) U0 Hn eq_refl eq_refl) as U1.
  pose proof (upto_derive _ _ _ _ "killed_by_tests" "fragilty" ddiv U1 Hn eq_refl eq_refl) as U2.
  pose proof (upto_derive _ _ _ _ "cfg_deviation_raw" "average_CFD"
                (fun c g => ddiv (ddiv c d100) g) U2 Hn eq_refl eq_refl) as U3.
  pose proof (upto_derive _ _ _ _ "failed_injection" "infectiveness"
                (fun c g => dsub d1 (ddiv c g)) U3 Hn eq_refl eq_refl) as U4.
  destruct (upto_immunity _ _ _ _ "survived_WD_VE" "killed_WD_VE" "valgrind_immunity"
              U4 Hn eq_refl Hv eq_refl) as (d5 & E5 & U5).
  destruct (upto_immunity _ _ _ _ "survived_WD_CFD" "killed_WD_CFD" "CFD_immunity"
              U5 Hn eq_refl Hc eq_refl) as (d6 & E6 & U6).
  exists d6. rewrite E5. cbn [mbind res_bind]. rewrite E6. destruct U6 as [HS Ho Ha].
  split_and!; try done. intros k. rewrite Ha. case_decide as Hk; [done|].
  by rewrite derived_attr_other.
Qed.

Lemma derive_operators_spec nodes d :
  NoDup nodes -> (forall n, n ∈ nodes -> n ∈ top d /\ sums_ok (xmlGetProp d n)) ->
  exists d', derive_operators d nodes = Ok d' /\ same_shape d d' /\
    forall n k, xmlGetProp d' n k =
      if decide (n ∈ nodes) then derived_attr (xmlGetProp d n) k else xmlGetProp d n k.
Proof.
  revert d. induction nodes as [|n nodes IH]; intros d Hnd Hok; simpl; [by exists d|].
  apply NoDup_cons in Hnd as [Hnin Hnd].
  destruct (Hok n) as [Hn Hs]; [constructor|].
  destruct (derive_operator_spec d n Hn Hs) as (d1 & -> & HS & Hself & Hother). cbn [mbind res_bind].
  destruct (IH d1 Hnd) as (d2 & -> & HS2 & Hd2).
  { intros m Hm. destruct (Hok m) as [Htm Hsm]; [by constructor|].
    rewrite (shape_top _ _ HS). split; [done|]. assert (m <> n) by (by intros ->).
    unfold sums_ok, sum_ok. rewrite !Hother by done. done. }
  exists d2. split_and!; [done|by transitivity d1|]. intros m k. rewrite Hd2.
  destruct (decide (m = n)) as [->|Hmn].
  - rewrite decide_False, decide_True by (done || constructor). apply Hself.
  - assert (m ∈ n :: nodes <-> m ∈ nodes) as Hiff by (rewrite elem_of_cons; tauto).
    destruct (decide (m ∈ nodes)); [rewrite decide_True by tauto|rewrite decide_False by tauto; auto].
    unfold derived_attr, derived_from, immunity_from, generated_of. by rewrite !Hother.
Qed.

(** ** Properties *)

(** C5: A statistics file started afresh behaves as a table of counters.  Any
    sequence of in-range updates through [create_update_gstat_mutation] and
    [create_update_aggr_results] succeeds: no "malformed gstats file" exit, no
    NULL dereference in the search for the aggregate element.  Afterwards
    [get_gstat_value_mutation] returns for every operator code and key the value
    last written there (0 when none was), [get_gstat_value_aggr_results] does so
    for the aggregates, and [total_infection_count] counts the nonzero
    [infection_count] updates. *)
Theorem gstats_refine_counters w path us :
  xmlParse (default "" (read_file (append_file w path "") path)) = None ->
  updates_ok spec_empty us ->
  exists gs, apply_updates (open_GStats w path init_aggregates).2 us = Ok gs /\
    (forall code key, no_quote code ->
       get_gstat_value_mutation gs code key =
         Ok (default 0 (spec_mut (foldl spec_update spec_empty us) !! (code, key)))) /\
    (forall key,
       get_gstat_value_aggr_results gs key =
         Ok (default 0 (spec_aggr (foldl spec_update spec_empty us) !! key))) /\
    total_infection_count (aggr gs) = spec_infections (foldl spec_update spec_empty us).
Proof.
  intros Hp Hok. destruct (open_new w path init_aggregates Hp) as (Hag & Hwf & Hval & Haggr).
  destruct (updates_refine us (open_GStats w path init_aggregates).2 spec_empty) as (gs & E & HR).
  - split; try done. by rewrite Hag.
  - done.
  - exists gs. split_and!; [done| | |apply HR].
    + intros code key Hq. rewrite get_value by (done || apply HR). f_equal. apply HR.
    + intros key. rewrite get_aggr by apply HR. f_equal. apply HR.
Qed.

(** Reopening an existing statistics file does not restore the infection
    total, although the code says it extracts the aggregates of previous runs:
    the first infection after a restart overwrites the recorded total with 1,
    whatever it was. *)
Theorem infection_total_restarts w path d code v :
  xmlParse (default "" (read_file (append_file w path "") path)) = Some d ->
  wf_doc d -> no_quote code -> in_int v -> v <> 0 ->
  exists gs, create_update_gstat_mutation (open_GStats w path init_aggregates).2
               code "infection_count" v = Ok gs /\
    get_gstat_value_mutation gs code "infection_count" = Ok v /\
    get_gstat_value_aggr_results gs "total_infection_count" = Ok 1.
Proof.
  intros Hp Hwf Hq Hv Hnz. unfold open_GStats. rewrite Hp. cbn [snd].
  destruct (update_target (mk_gstats d init_aggregates) code Hwf Hq)
    as (d1 & n & Hwf1 & Hn & _ & _ & ->). cbv zeta.
  apply Z.eqb_neq in Hnz. rewrite Hnz. cbn [String.eqb Ascii.eqb Bool.eqb andb negb].
  rewrite chk_ok by done. cbn [mbind res_bind with_doc doc aggr].
  unfold create_update_aggr_results. cbn [doc aggr].
  pose proof (wf_set d1 n "infection_count" (int_to_char_heap v) Hwf1) as Hwf2.
  destruct (aggregate_node_spec _ Hwf2) as (a & -> & Ha & Hin & Hname). cbn [mbind res_bind].
  eexists. split; [done|]. split.
  - rewrite get_value by (done || by apply wf_set). cbn [doc]. f_equal.
    rewrite value_at_set_other by (by rewrite Hname).
    rewrite (value_at_set d1 code), decide_True by done. by apply atoi_print_int_id.
  - rewrite get_aggr by (by apply wf_set). cbn [doc]. f_equal.
    by rewrite (aggr_at_set _ a), decide_True.
Qed.

(** [generate_derived_stats] visits every operator of the file and changes
    exactly the derived attributes: an operator's damage and average CFD are its
    raw totals over 100 per generated mutant, its fragility the kills per
    generated mutant, its infectiveness one minus the failed injections per
    generated mutant, its immunities the survivors among the mutants with that
    symptom; every raw counter, every other element and the aggregates keep
    their values, and the file stays well formed. *)
Theorem derived_stats_spec gs :
  wf_doc (doc gs) ->
  (forall n, n ∈ top (doc gs) -> sums_ok (xmlGetProp (doc gs) n)) ->
  exists gs', generate_derived_stats gs = Ok gs' /\ wf_doc (doc gs') /\ aggr gs' = aggr gs /\
    top (doc gs') = top (doc gs) /\
    (forall code, operators (doc gs') code = operators (doc gs) code) /\
    forall n k, n ∈ top (doc gs) ->
      xmlGetProp (doc gs') n k =
        if String.eqb (xmlName (doc gs) n) "mutation_operator"
        then derived_attr (xmlGetProp (doc gs) n) k
        else xmlGetProp (doc gs) n k.
Proof.
  intros Hwf Hok. unfold generate_derived_stats, getnodeset. rewrite xml_query_name.
  set (nodes := filter _ (top (doc gs))).
  assert (forall n, n ∈ nodes <-> xmlName (doc gs) n = "mutation_operator" /\ n ∈ top (doc gs)) as Hin.
  { intros n. unfold nodes. by rewrite list_elem_of_filter. }
  destruct (derive_operators_spec nodes (doc gs)) as (d' & E & HS & Hd').
  - apply NoDup_filter, top_nodup.
  - intros n [Hname Hn]%Hin. auto.
  - exists (with_doc gs d'). split_and!; cbn [with_doc doc aggr].
    + destruct nodes; [|by rewrite E]. simpl in E. injection E as <-. by destruct gs.
    + by eapply same_shape_wf.
    + done.
    + apply HS.
    + intros code. by apply same_shape_operators.
    + intros n k Hn. rewrite Hd'.
      destruct (String.eqb_spec (xmlName (doc gs) n) "mutation_operator");
        [rewrite decide_True by (by apply Hin)|rewrite decide_False by (rewrite Hin; tauto)]; done.
Qed.
End gstats.

(** ** Examples *)

Definition example_w : World := world_of ∅ ∅.

Definition example_updates : list update :=
  [UpdMutation "CRCR" "infection_count" 2; UpdMutation "CRCR" "generated_mutants" 4;
   UpdMutation "OEAA" "infection_count" 1; UpdAggregate "total_mutants" 7;
   UpdMutation "CRCR" "infection_count" 0].

Lemma gstats_refine_counters_witness :
  exists gs, apply_updates (X := ListXml.list_xml (fun _ => None) (fun _ => ""))
      (open_GStats example_w "gstats.xml" init_aggregates).2 example_updates = Ok gs /\
    get_gstat_value_mutation gs "CRCR" "generated_mutants" = Ok 4 /\
    get_gstat_value_aggr_results gs "total_infection_count" = Ok 2.
Proof.
  destruct (gstats_refine_counters (X := ListXml.list_xml (fun _ => None) (fun _ => ""))
    (L := ListXml.list_xml_laws _ _) example_w "gstats.xml" example_updates)
    as (gs & E & Hm & Ha & _).
  - reflexivity.
  - repeat split; repeat constructor; done.
  - exists gs. split_and!; [exact E| |].
    + rewrite Hm; [reflexivity|]. repeat constructor.
    + rewrite Ha. reflexivity.
Defined.

(** A file of an earlier run, with five infections. *)
Definition example_doc : list ListXml.element :=
  [ListXml.mk_element "aggregate_stats" "" {[ "total_infection_count" := "5" ]};
   ListXml.mk_element "mutation_operator" "CRCR"
     {[ "generated_mutants" := "4"; "killed_by_tests" := "3"; "infection_count" := "5" ]}].

Lemma example_doc_wf :
  wf_doc (X := ListXml.list_xml (fun _ => Some example_doc) (fun _ => ""))
    (L := ListXml.list_xml_laws _ _) example_doc.
Proof.
  split.
  - intros code. unfold operators. change (top _) with [Some 0%nat; Some 1%nat].
    rewrite !filter_cons, filter_nil. destruct (decide _) as [[Hname _]|]; [done|].
    case_decide; simpl; lia.
  - exists (Some 0%nat). split; [|reflexivity]. cbn. constructor.
Qed.

Lemma infection_total_restarts_witness :
  exists gs, create_update_gstat_mutation
      (X := ListXml.list_xml (fun _ => Some example_doc) (fun _ => ""))
      (open_GStats example_w "gstats.xml" init_aggregates).2 "CRCR" "infection_count" 6 = Ok gs /\
    get_gstat_value_aggr_results gs "total_infection_count" = Ok 1.
Proof.
  destruct (infection_total_restarts (X := ListXml.list_xml (fun _ => Some example_doc) (fun _ => ""))
    (L := ListXml.list_xml_laws _ _) example_w "gstats.xml" example_doc "CRCR" 6)
    as (gs & E & _ & Ha).
  - reflexivity.
  - apply example_doc_wf.
  - repeat constructor.
  - done.
  - done.
  - exists gs. split; [exact E|exact Ha].
Defined.

Lemma derived_stats_spec_witness :
  exists gs', generate_derived_stats (X := ListXml.list_xml (fun _ => Some example_doc) (fun _ => ""))
      (fun d => if deq d (ddiv (double_of_Z 3) (double_of_Z 4)) then "0.75" else "?")
      (mk_gstats (X := ListXml.list_xml (fun _ => Some example_doc) (fun _ => ""))
         example_doc init_aggregates) = Ok gs' /\
    xmlGetProp (doc gs') (Some 1%nat) "fragilty" = Some "0.75" /\
    xmlGetProp (doc gs') (Some 1%nat) "killed_by_tests" = Some "3".
Proof.
  destruct (derived_stats_spec (X := ListXml.list_xml (fun _ => Some example_doc) (fun _ => ""))
    (fun d => if deq d (ddiv (double_of_Z 3) (double_of_Z 4)) then "0.75" else "?")
    (L := ListXml.list_xml_laws _ _)
    (mk_gstats (X := ListXml.list_xml (fun _ => Some example_doc) (fun _ => ""))
       example_doc init_aggregates)) as (gs' & E & _ & _ & _ & _ & Hp).
  - apply example_doc_wf.
  - intros n Hn. cbn in Hn. rewrite !elem_of_cons in Hn.
    destruct Hn as [->|[->|[]%elem_of_nil]]; split; intros s k Hs; vm_compute in Hs; discriminate Hs.
  - exists gs'. split; [exact E|]. split.
    + rewrite Hp; [vm_compute; reflexivity|]. cbn. rewrite !elem_of_cons. auto.
    + rewrite Hp; [vm_compute; reflexivity|]. cbn. rewrite !elem_of_cons. auto.
Defined.

End GStats.
