(* ===== verification/ValgrindEval.v ===== *)
(** * Evaluation of Valgrind's report (src/valgrindEval.c)

    [valgrindXML_evaluate] counts the memory errors of a run from the XML report
    and [evaluate_error_nodes] describes each of them: its kind, its message and
    the functions of its stack, down to the test runner.  A loop
    [while(n != NULL) { ...; n = xmlNextElementSibling(n); }] is a recursion over
    the nodes that [walk] collects. *)

From Stdlib Require Import Ascii String.
From S2P Require Import Prelude Double CString System LibXml.

Module ValgrindEval.

Record error_info := mk_info {
  occurrences : Z;
  kind : cptr;
  what : cptr;
  auxwhat : cptr;
  location : cptr
}.

(** [siblings] is NULL or an array whose cells may be uninitialised; a sibling
    has no siblings of its own. *)
Record ValgrindError := mk_error {
  info : error_info;
  siblings : option (list (option error_info))
}.

Record ValgrindResult := mk_result {
  valgrindErrors : list ValgrindError;
  valgrind_error_count : Z;
  unique_valgrind_error_count : Z
}.

Section eval.
Context {X : LibXml}.

Definition max_location_size : Z := 128.

(** The nodes a sibling walk visits. *)
Fixpoint walk (fuel : nat) (d : Doc) (n : option Node) : res (list Node) :=
  match n with
  | None => Ok []
  | Some n =>
      match fuel with
      | O => OutOfFuel
      | S fuel => l ← walk fuel d (xmlNextElementSibling d n); Ok (n :: l)
      end
  end.

(** The first child may be a text; the others are elements. *)
Definition walk_children (d : Doc) (n : Node) : res (list Node) :=
  walk (S (xmlChildElementCount d n)) d (xmlChildrenNode d n).

(** One function name: what the location becomes. *)
Definition add_function (loc fn_value : string) : string :=
  let total_len := strlen loc + strlen " :: " + strlen fn_value + 1 in
  if max_location_size <? total_len then loc
  else if strlen loc =? 0 then loc ++ fn_value
  else loc ++ " :: " ++ fn_value.

(** The children of a frame; the boolean is [reached_stack_depth]. *)
Fixpoint frame_children (d : Doc) (testing_framework : Z) (loc : string) (l : list Node) :
    res (string * bool) :=
  match l with
  | [] => Ok (loc, false)
  | frame_child :: l =>
      if String.eqb (xmlName d frame_child) "fn" then
        match xmlNodeListGetString d frame_child with
        | None => Undef
        | Some fn_value =>
            if (testing_framework =? 1) && String.prefix "CuTestRun" fn_value then Ok (loc, true)
            else frame_children d testing_framework (add_function loc fn_value) l
        end
      else frame_children d testing_framework loc l
  end.

Fixpoint stack_frames (d : Doc) (testing_framework : Z) (loc : string) (l : list Node) : res string :=
  match l with
  | [] => Ok loc
  | frame_node :: l =>
      if negb (String.eqb (xmlName d frame_node) "frame") then stack_frames d testing_framework loc l
      else
        children ← walk_children d frame_node;
        '(loc, reached_stack_depth) ← frame_children d testing_framework loc children;
        if (reached_stack_depth : bool) then Ok loc else stack_frames d testing_framework loc l
  end.

(** The children of an [error] element. *)
Fixpoint error_children (d : Doc) (testing_framework : Z) (e : error_info) (l : list Node) :
    res error_info :=
  match l with
  | [] => Ok e
  | currentNode :: l =>
      if String.eqb (xmlName d currentNode) "kind" then
        error_children d testing_framework
          (mk_info (occurrences e) (of_option (xmlNodeListGetString d currentNode)) (what e)
             (auxwhat e) (location e)) l
      else if String.eqb (xmlName d currentNode) "what" then
        error_children d testing_framework
          (mk_info (occurrences e) (kind e) (of_option (xmlNodeListGetString d currentNode))
             (auxwhat e) (location e)) l
      else if String.eqb (xmlName d currentNode) "stack" then
        frames ← walk_children d currentNode;
        loc ← stack_frames d testing_framework "" frames;
        let aux :=
          match head l with
          | Some n => if String.eqb (xmlName d n) "auxwhat"
                      then of_option (xmlNodeListGetString d n) else auxwhat e
          | None => auxwhat e
          end in
        Ok (mk_info (occurrences e) (kind e) (what e) aux (Str loc))
      else error_children d testing_framework e l
  end.

Definition evaluate_error (d : Doc) (testing_framework : Z) (e : error_info) (errorNode : Node) :
    res error_info :=
  children ← walk_children d errorNode;
  error_children d testing_framework e children.

Definition first_error (error_count : Z) : error_info := mk_info error_count Null Null Null Null.
(** [what] of a sibling is not initialised. *)
Definition new_sibling : error_info := mk_info 1 Null Indet Null Null.

(** The error nodes from the second on, stored into the siblings. *)
Fixpoint sibling_errors (d : Doc) (testing_framework : Z) (sibs : option (list (option error_info)))
    (i : Z) (nodes : list Node) : res (option (list (option error_info))) :=
  match nodes with
  | [] => Ok sibs
  | n :: nodes =>
      match sibs with
      | None => Undef
      | Some cells =>
          e ← evaluate_error d testing_framework new_sibling n;
          cells ← store cells (i - 1) (Some e);
          sibling_errors d testing_framework (Some cells) (i + 1) nodes
      end
  end.

Definition evaluate_error_nodes (d : Doc) (error_count : Z) (unique_value : string)
    (testing_framework : Z) : res ValgrindError :=
  let xPath_query := "//error[unique='" ++ unique_value ++ "']" in
  let sibs := if 1 <? error_count then Some (replicate (Z.to_nat error_count) None) else None in
  match getnodeset d xPath_query with
  | None => Undef
  | Some [] => Ok (mk_error (first_error error_count) sibs)
  | Some (errorNode :: nodes) =>
      e ← evaluate_error d testing_framework (first_error error_count) errorNode;
      sibs ← sibling_errors d testing_framework sibs 1 nodes;
      Ok (mk_error e sibs)
  end.

(** [(int)strtoumax(s, NULL, 10)]: clamped to [uintmax_t], a minus sign negates
    modulo 2^64. *)
Definition clamp_umax (z : Z) : Z := Z.min (2 ^ 64 - 1) z.
Definition strtoumax (s : string) : Z :=
  match skip_spaces s with
  | String "-" s' => (- clamp_umax (parse_digits 0 s').1) mod 2 ^ 64
  | String "+" s' => clamp_umax (parse_digits 0 s').1
  | s' => clamp_umax (parse_digits 0 s').1
  end.

Fixpoint evaluate_pairs (d : Doc) (testing_framework : Z) (nodes : list Node) (r : ValgrindResult) :
    res ValgrindResult :=
  match nodes with
  | [] => Ok r
  | countNode :: nodes =>
      match xmlNextElementSibling d countNode with
      | None => Undef
      | Some uniqueNode =>
          match xmlNodeListGetString d countNode, xmlNodeListGetString d uniqueNode with
          | Some count_value, Some unique_value =>
              let error_count := wrap_int (strtoumax count_value) in
              total ← chk (valgrind_error_count r + error_count);
              e ← evaluate_error_nodes d error_count unique_value testing_framework;
              evaluate_pairs d testing_framework nodes
                (mk_result (valgrindErrors r ++ [e]) total (unique_valgrind_error_count r))
          | _, _ => Undef
          end
      end
  end.

(** A report that cannot be parsed has no document to query: no result. *)
Definition valgrindXML_evaluate (w : World) (xml_path : string) (testing_framework : Z) :
    res (option ValgrindResult) :=
  match xmlParse (default "" (read_file w xml_path)) with
  | None => Ok None
  | Some d =>
      match getnodeset d "//errorcounts/pair/count" with
      | None => Ok None
      | Some nodes =>
          r ← evaluate_pairs d testing_framework nodes
                (mk_result [] 0 (Z.of_nat (List.length nodes)));
          Ok (Some r)
      end
  end.

(** ** The location string *)

(** Names joined with [" :: "]. *)
Fixpoint join_functions (l : list string) : string :=
  match l with
  | [] => ""
  | [x] => x
  | x :: l => x ++ " :: " ++ join_functions l
  end.

(** The names that go into the location: up to the test runner. *)
Fixpoint until_runner (testing_framework : Z) (l : list string) : list string :=
  match l with
  | [] => []
  | x :: l =>
      if (testing_framework =? 1) && String.prefix "CuTestRun" x then []
      else x :: until_runner testing_framework l
  end.

Lemma add_function_length loc fn :
  strlen loc < max_location_size -> strlen (add_function loc fn) < max_location_size.
Proof.
  intros Hloc. unfold add_function, strlen in *.
  destruct (Z.ltb_spec max_location_size
    (Z.of_nat (String.length loc) + Z.of_nat (String.length " :: ") + Z.of_nat (String.length fn) + 1));
    [done|]. cbn [String.length] in *.
  case_match; rewrite !string_app_length; cbn [String.length]; lia.
Qed.

(** The function names among the children of a frame. *)
Fixpoint names_of (d : Doc) (l : list Node) : option (list string) :=
  match l with
  | [] => Some []
  | n :: l =>
      if String.eqb (xmlName d n) "fn" then
        match xmlNodeListGetString d n, names_of d l with
        | Some x, Some xs => Some (x :: xs)
        | _, _ => None
        end
      else names_of d l
  end.

(** The nodes of a sibling chain. *)
Fixpoint chain (d : Doc) (first : option Node) (l : list Node) : Prop :=
  match l with
  | [] => first = None
  | n :: l => first = Some n /\ chain d (xmlNextElementSibling d n) l
  end.

(** The children of a node: its elements, and a text in front of them. *)
Definition has_children (d : Doc) (n : Node) (l : list Node) : Prop :=
  chain d (xmlChildrenNode d n) l /\ (List.length l <= S (xmlChildElementCount d n))%nat.

Lemma walk_chain d fuel first l : chain d first l -> (List.length l <= fuel)%nat -> walk fuel d first = Ok l.
Proof.
  revert fuel first. induction l as [|n l IH]; intros fuel first H Hl; simpl in H.
  - subst first. by destruct fuel.
  - destruct H as [-> H]. destruct fuel as [|fuel]; [simpl in Hl; lia|]. simpl. by rewrite IH by (done || simpl in Hl; lia).
Qed.

Lemma walk_has_children d n l : has_children d n l -> walk_children d n = Ok l.
Proof. intros [Hc Hl]. by apply walk_chain. Qed.

(** A child of a stack element and the functions it names. *)
Definition frame_has (d : Doc) (n : Node) (fns : list string) : Prop :=
  if String.eqb (xmlName d n) "frame"
  then exists children, has_children d n children /\ names_of d children = Some fns
  else fns = [].

Definition is_runner (testing_framework : Z) (x : string) : bool :=
  (testing_framework =? 1) && String.prefix "CuTestRun" x.

Lemma frame_children_spec d tf l fns loc :
  names_of d l = Some fns ->
  frame_children d tf loc l =
    Ok (foldl add_function loc (until_runner tf fns), existsb (is_runner tf) fns).
Proof.
  revert fns loc. induction l as [|n l IH]; intros fns loc Hn; simpl in *; [by injection Hn as <-|].
  destruct (String.eqb (xmlName d n) "fn"); [|by apply IH].
  destruct (xmlNodeListGetString d n) as [x|]; [|done].
  destruct (names_of d l) as [xs|]; [|done]. injection Hn as <-. simpl. unfold is_runner.
  destruct ((tf =? 1) && String.prefix "CuTestRun" x) eqn:E; [done|]. by apply IH.
Qed.

Lemma until_runner_app tf l1 l2 :
  until_runner tf (l1 ++ l2)%list =
    if existsb (is_runner tf) l1 then until_runner tf l1
    else (until_runner tf l1 ++ until_runner tf l2)%list.
Proof.
  induction l1 as [|x l1 IH]; simpl; [done|]. unfold is_runner in *.
  destruct ((tf =? 1) && String.prefix "CuTestRun" x); simpl; [done|]. rewrite IH. by case_match.
Qed.

(** The location collects the functions of all frames up to the runner. *)
Lemma stack_frames_spec d tf frames fnss loc :
  Forall2 (frame_has d) frames fnss ->
  stack_frames d tf loc frames = Ok (foldl add_function loc (until_runner tf (concat fnss))).
Proof.
  intros HF. revert loc. induction HF as [|n fns frames fnss Hn HF IH]; intros loc; [done|].
  simpl. unfold frame_has in Hn. destruct (String.eqb (xmlName d n) "frame"); simpl.
  - destruct Hn as (children & Hch & Hnames). rewrite (walk_has_children _ _ _ Hch). simpl.
    rewrite (frame_children_spec d tf children fns) by done. simpl. rewrite until_runner_app.
    destruct (existsb (is_runner tf) fns); [done|]. by rewrite IH, foldl_app.
  - subst fns. by rewrite IH.
Qed.

Lemma add_functions_length l loc :
  strlen loc < max_location_size -> strlen (foldl add_function loc l) < max_location_size.
Proof.
  revert loc. induction l as [|x l IH]; intros loc Hloc; [done|]. simpl.
  by apply IH, add_function_length.
Qed.

(** Appending names to a location that is not empty. *)
Definition extend (loc : string) (l : list string) : string :=
  match l with [] => loc | _ => loc ++ " :: " ++ join_functions l end.

Lemma extend_cons loc x l : extend loc (x :: l) = extend (loc ++ " :: " ++ x) l.
Proof. destruct l; simpl; [done|]. by rewrite !string_app_assoc. Qed.

Lemma extend_length loc l : strlen loc <= strlen (extend loc l).
Proof. destruct l; simpl; [done|]. unfold strlen. rewrite string_app_length. lia. Qed.

Lemma add_functions_fit l loc :
  0 < strlen loc -> strlen (extend loc l) < max_location_size ->
  foldl add_function loc l = extend loc l.
Proof.
  revert loc. induction l as [|x l IH]; intros loc Hpos Hfit; [done|].
  rewrite extend_cons in *. cbn [foldl].
  assert (strlen (loc ++ " :: " ++ x) = strlen loc + 4 + strlen x) as Hlen.
  { unfold strlen. rewrite !string_app_length. simpl. lia. }
  pose proof (extend_length (loc ++ " :: " ++ x) l).
  assert (add_function loc x = (loc ++ " :: " ++ x)%string) as ->.
  { unfold add_function. change (strlen " :: ") with 4.
    destruct (Z.ltb_spec max_location_size (strlen loc + 4 + strlen x + 1)); [lia|].
    destruct (Z.eqb_spec (strlen loc) 0); [lia|done]. }
  apply IH; [|done]. rewrite Hlen. unfold strlen. lia.
Qed.

Lemma join_functions_extend x l : join_functions (x :: l) = extend x l.
Proof. by destruct l. Qed.

Lemma add_functions_join l :
  Forall (fun x => x <> "") l -> strlen (join_functions l) + 5 <= max_location_size ->
  foldl add_function "" l = join_functions l.
Proof.
  intros Hne Hfit. destruct l as [|x l]; [done|]. rewrite join_functions_extend in *.
  apply Forall_cons in Hne as [Hx _]. pose proof (extend_length x l). simpl.
  assert (0 < strlen x) by (destruct x; [done|unfold strlen; simpl; lia]).
  assert (add_function "" x = x) as ->.
  { unfold add_function. change (strlen "") with 0. change (strlen " :: ") with 4.
    destruct (Z.ltb_spec max_location_size (0 + 4 + strlen x + 1)); [lia|done]. }
  apply add_functions_fit; [done|lia].
Qed.

Lemma until_runner_forall (P : string -> Prop) tf l : Forall P l -> Forall P (until_runner tf l).
Proof. induction 1 as [|x l Hx Hl IH]; simpl; [constructor|]. case_match; by constructor. Qed.

(** ** The counts *)

Lemma strtoumax_print_int z : 0 <= z <= int_max -> wrap_int (strtoumax (print_int z)) = z.
Proof.
  intros Hz. assert (strtoumax (print_int z) = z) as ->; [|apply wrap_int_id; unfold in_int, int_min; lia].
  unfold strtoumax. rewrite <- (string_app_nil_r (print_int z)).
  rewrite (proj1 (print_int_no_space _ _)). unfold print_int.
  destruct (Z.ltb_spec z 0); [lia|].
  pose proof (parse_print_nat z "" ltac:(lia)) as Hp.
  destruct (print_nat_head z "") as (d & s & Hd & E); [lia|]. rewrite E in *.
  assert (clamp_umax z = z) as Hc by (unfold clamp_umax, int_max in *; lia).
  destruct (digit_char_spec d Hd) as (_ & _ & _ & Hminus & Hplus).
  destruct (digit_char d) as [b0 b1 b2 b3 b4 b5 b6 b7].
  destruct b0, b1, b2, b3, b4, b5, b6, b7; try discriminate Hminus; try discriminate Hplus;
    cbv beta iota; by rewrite Hp.
Qed.

(** ** An error element *)

(** The nodes of a list with some name. *)
Definition named (d : Doc) (name : string) (l : list Node) : list Node :=
  List.filter (fun n => String.eqb (xmlName d n) name) l.

(** An error element as Valgrind writes it: in front of its first stack a kind and perhaps
    a message, then the stack with its frames, then perhaps an auxiliary message. *)
Definition describes (d : Doc) (n : Node) (k : string) (wh aux : option string) (fnss : list (list string)) : Prop :=
  exists before stack rest frames kn,
    has_children d n (before ++ stack :: rest) /\ named d "stack" before = [] /\ xmlName d stack = "stack" /\
    named d "kind" before = [kn] /\ xmlNodeListGetString d kn = Some k /\
    match wh with
    | None => named d "what" before = []
    | Some t => exists wn, named d "what" before = [wn] /\ xmlNodeListGetString d wn = Some t
    end /\
    has_children d stack frames /\ Forall2 (frame_has d) frames fnss /\
    match head rest with
    | Some an => if String.eqb (xmlName d an) "auxwhat" then xmlNodeListGetString d an = aux else aux = None
    | None => aux = None
    end.

(** The text of the last of some nodes. *)
Definition text_of_last (d : Doc) (old : cptr) (l : list Node) : cptr :=
  foldl (fun _ n => of_option (xmlNodeListGetString d n)) old l.

Lemma error_children_before d tf e before l :
  named d "stack" before = [] ->
  error_children d tf e (before ++ l) =
    error_children d tf (mk_info (occurrences e) (text_of_last d (kind e) (named d "kind" before))
      (text_of_last d (what e) (named d "what" before)) (auxwhat e) (location e)) l.
Proof.
  revert e. induction before as [|n before IH]; intros e Hs; [by destruct e|]. cbn [app error_children]. unfold named in *.
  cbn [List.filter] in *. destruct (String.eqb_spec (xmlName d n) "stack"); [done|].
  destruct (String.eqb_spec (xmlName d n) "kind") as [Ek|Ek].
  - rewrite Ek. simpl. by rewrite IH.
  - destruct (String.eqb (xmlName d n) "what"); by rewrite IH.
Qed.

(** The location of an error, where it fits. *)
Definition location_of (tf : Z) (fnss : list (list string)) : string := join_functions (until_runner tf (concat fnss)).

Lemma evaluate_described d tf c n k wh aux fnss :
  describes d n k wh aux fnss -> Forall (fun x => x <> "") (concat fnss) -> strlen (location_of tf fnss) + 5 <= max_location_size ->
  evaluate_error d tf (first_error c) n = Ok (mk_info c (Str k) (of_option wh) (of_option aux) (Str (location_of tf fnss))).
Proof.
  intros (before & stack & rest & frames & kn & Hch & Hns & Hst & Hk & Hkt & Hw & Hsch & Hfr & Haux) Hne Hfit.
  unfold evaluate_error. rewrite (walk_has_children _ _ _ Hch). cbn [mbind res_bind].
  rewrite error_children_before by done. cbn [error_children]. rewrite Hst. simpl.
  rewrite (walk_has_children _ _ _ Hsch). cbn [mbind res_bind]. rewrite (stack_frames_spec d tf frames fnss "" Hfr). cbn [mbind res_bind].
  rewrite add_functions_join by (done || by apply until_runner_forall). rewrite Hk. simpl. rewrite Hkt.
  assert (text_of_last d Null (named d "what" before) = of_option wh) as ->.
  { destruct wh as [t|]; [|by rewrite Hw]. destruct Hw as (wn & -> & Ht). simpl. by rewrite Ht. }
  do 2 f_equal. destruct (head rest) as [an|]; [|by subst aux].
  destruct (String.eqb (xmlName d an) "auxwhat"); [by rewrite Haux|by subst aux].
Qed.

(** One entry of the report: the node of its count, the count, the unique id, the error
    element it names and what that element says. *)
Record entry := mk_entry {
  e_node : Node;
  e_count : Z;
  e_unique : string;
  e_error : Node;
  e_kind : string;
  e_what : option string;
  e_aux : option string;
  e_functions : list (list string)
}.

(** The report has the entry: count and id are adjacent elements, the id names one error
    element, that element says what the entry says, and its functions fit the location. *)
Record entry_ok (d : Doc) (testing_framework : Z) (e : entry) : Prop := {
  eo_count_text : xmlNodeListGetString d (e_node e) = Some (print_int (e_count e));
  eo_unique : exists n, xmlNextElementSibling d (e_node e) = Some n /\
    xmlNodeListGetString d n = Some (e_unique e);
  eo_error : xmlXPathEval d ("//error[unique='" ++ e_unique e ++ "']") = Some [e_error e];
  eo_describes : describes d (e_error e) (e_kind e) (e_what e) (e_aux e) (e_functions e);
  eo_names : Forall (fun x => x <> "") (concat (e_functions e));
  eo_fits : strlen (location_of testing_framework (e_functions e)) + 5 <= max_location_size;
  eo_range : 0 <= e_count e <= int_max
}.

Definition total_count (es : list entry) : Z := foldr (fun e n => e_count e + n) 0 es.

(** The error an entry is turned into. *)
Definition entry_error (testing_framework : Z) (e : entry) : ValgrindError :=
  mk_error (mk_info (e_count e) (Str (e_kind e)) (of_option (e_what e)) (of_option (e_aux e))
              (Str (location_of testing_framework (e_functions e))))
    (if 1 <? e_count e then Some (replicate (Z.to_nat (e_count e)) None) else None).

Lemma total_count_nonneg d tf es : Forall (entry_ok d tf) es -> 0 <= total_count es.
Proof. induction 1 as [|e es He _ IH]; simpl; [done|]. destruct He. lia. Qed.

Lemma evaluate_pairs_spec d tf es r :
  Forall (entry_ok d tf) es -> 0 <= valgrind_error_count r ->
  valgrind_error_count r + total_count es <= int_max ->
  evaluate_pairs d tf (e_node <$> es) r =
    Ok (mk_result (valgrindErrors r ++ (entry_error tf <$> es)) (valgrind_error_count r + total_count es)
          (unique_valgrind_error_count r)).
Proof.
  intros HF. revert r. induction HF as [|e es He HF IH]; intros r Hr Hmax.
  { simpl. rewrite app_nil_r, Z.add_0_r. by destruct r. }
  pose proof (total_count_nonneg d tf es HF).
  destruct He as [Hc (n & Hn & Hu) He Hd Hne Hfit Hrange]. rewrite fmap_cons. cbn [evaluate_pairs].
  rewrite Hn, Hc, Hu, strtoumax_print_int by done. simpl total_count in *.
  rewrite chk_ok by (unfold in_int, int_min; lia). cbn [mbind res_bind].
  unfold evaluate_error_nodes, getnodeset. rewrite He.
  rewrite (evaluate_described d tf _ _ _ _ _ _ Hd Hne Hfit). cbn [mbind res_bind sibling_errors].
  rewrite IH; simpl; [|lia..]. f_equal. f_equal; [|lia]. by rewrite <- app_assoc.
Qed.

(** ** Properties *)

(** The location of an error.  Reading the stack of an error never overruns
    the 128-byte location buffer, and when the names fit the location is the
    functions of the frames in order, joined with " :: ", down to but without
    the frame of CuTest's [CuTestRun]. *)
Theorem stack_location d tf frames fnss :
  Forall2 (frame_has d) frames fnss ->
  exists loc, stack_frames d tf "" frames = Ok loc /\ strlen loc < max_location_size /\
    (Forall (fun x => x <> "") (concat fnss) ->
     strlen (join_functions (until_runner tf (concat fnss))) + 5 <= max_location_size ->
     loc = join_functions (until_runner tf (concat fnss))).
Proof.
  intros HF. eexists. split; [by apply stack_frames_spec|]. split.
  - by apply add_functions_length.
  - intros Hne Hfit. apply add_functions_join; [by apply until_runner_forall|done].
Qed.

(** A function name that does not fit is dropped, although the code
    reallocates the location for it: the frames around it are reported as if
    adjacent. *)
Theorem long_function_dropped d tf frames before long after :
  Forall2 (frame_has d) frames [before; [long]; after] ->
  Forall (fun x => is_runner tf x = false) (before ++ long :: after)%list ->
  max_location_size <= strlen long + 4 ->
  stack_frames d tf "" frames = Ok (foldl add_function "" (before ++ after)%list).
Proof.
  intros HF Hrun Hlong. rewrite (stack_frames_spec d tf frames _ "" HF). f_equal.
  assert (until_runner tf (concat [before; [long]; after]) = (before ++ long :: after)%list) as ->.
  { simpl. rewrite app_nil_r. clear HF. unfold is_runner in Hrun.
    induction Hrun as [|x l Hx _ IH]; [done|]. simpl. by rewrite Hx, IH. }
  rewrite !foldl_app. cbn [foldl]. f_equal. unfold add_function at 1.
  change (strlen " :: ") with 4.
  assert (0 <= strlen (foldl add_function "" before)) by (unfold strlen; lia).
  destruct (Z.ltb_spec max_location_size (strlen (foldl add_function "" before) + 4 + strlen long + 1));
    [done|lia].
Qed.

(** C32: on a report of Valgrind's format the evaluation succeeds: the number of errors is
    the sum of the counts of the report, the number of unique errors the number of its
    entries, and there is one error per entry, in order, with as many occurrences as its
    count, the kind, the message and the auxiliary message its element has, and as location
    the functions of the frames of its first stack, joined with " :: ", down to but without
    the frame of CuTest's [CuTestRun]; a report without entries gives no result.  (Each unique
    id names one error element, its functions fit the location of 128 bytes, and the counts
    add up to an [int].) *)
Theorem valgrind_report_counts w path tf d es :
  xmlParse (default "" (read_file w path)) = Some d ->
  xmlXPathEval d "//errorcounts/pair/count" = Some (e_node <$> es) ->
  Forall (entry_ok d tf) es -> total_count es <= int_max ->
  valgrindXML_evaluate w path tf =
    Ok (if decide (es = []) then None
        else Some (mk_result (entry_error tf <$> es) (total_count es) (Z.of_nat (List.length es)))).
Proof.
  intros Hp Hq HF Hmax. unfold valgrindXML_evaluate, getnodeset. rewrite Hp, Hq.
  destruct es as [|e es]; [done|]. rewrite decide_False by done.
  rewrite fmap_cons. rewrite <- (fmap_cons e_node). 
  rewrite (evaluate_pairs_spec d tf (e :: es)) by (done || simpl; lia).
  simpl. by rewrite length_fmap.
Qed.
End eval.

(** ** Witnesses *)

Definition frame (f : string) : TreeXml.tree := TreeXml.T "frame" "" [TreeXml.T "fn" f []].

Definition example_stack : list TreeXml.tree :=
  [frame "get"; frame "test_get"; frame "CuTestRun"; frame "main"].

Definition long_name : string := String.concat "_" (replicate 16 "long_name").

Definition example_report : TreeXml.tree :=
  TreeXml.T "valgrindoutput" ""
    [TreeXml.T "error" ""
       [TreeXml.T "unique" "0x1" []; TreeXml.T "kind" "InvalidRead" [];
        TreeXml.T "what" "Invalid read" []; TreeXml.T "stack" "" example_stack;
        TreeXml.T "auxwhat" "Address 0x0" []];
     TreeXml.T "stack" "" [frame "get"; frame long_name; frame "test_get"];
     TreeXml.T "errorcounts" ""
       [TreeXml.T "pair" "" [TreeXml.T "count" "3" []; TreeXml.T "unique" "0x1" []]]].

Definition example_xml : LibXml := TreeXml.tree_xml (fun _ => Some example_report).

Lemma chain_walked (X : LibXml) (d : @Doc X) fuel first l : walk fuel d first = Ok l -> chain d first l /\ (List.length l <= fuel)%nat.
Proof.
  revert first l. induction fuel as [|fuel IH]; intros first l H; destruct first as [n|]; simpl in H; try done.
  1, 3: injection H as <-; simpl; split; [done|lia].
  apply res_bind_inv in H as (l' & E & H). injection H as <-. destruct (IH _ _ E) as [Hc Hl]. simpl. split; [done|lia].
Qed.

Lemma children_walked (X : LibXml) (d : @Doc X) n l : walk_children d n = Ok l -> has_children d n l.
Proof. apply chain_walked. Qed.

Lemma frame_has_compute (X : LibXml) (d : @Doc X) n fns :
  String.eqb (xmlName d n) "frame" = true ->
  (walk_children d n ≫= (fun l => match names_of d l with Some x => Ok x | None => Undef end)) = Ok fns ->
  frame_has d n fns.
Proof.
  unfold frame_has. intros ->. destruct (walk_children d n) as [l| | |] eqn:E; try discriminate.
  simpl. intros Hn. exists l. split; [by apply children_walked|]. case_match; congruence.
Qed.

Lemma stack_location_witness :
  stack_frames (X := example_xml) example_report 1 "" [[0; 3; 0]; [0; 3; 1]; [0; 3; 2]; [0; 3; 3]]%nat =
    Ok "get :: test_get".
Proof.
  destruct (stack_location (X := example_xml) example_report 1
    [[0; 3; 0]; [0; 3; 1]; [0; 3; 2]; [0; 3; 3]]%nat [["get"]; ["test_get"]; ["CuTestRun"]; ["main"]])
    as (loc & E & _ & Hloc).
  - repeat constructor; apply frame_has_compute; reflexivity.
  - rewrite E, Hloc; [reflexivity|by repeat constructor|by vm_compute].
Defined.

Lemma long_function_dropped_witness :
  stack_frames (X := example_xml) example_report 1 "" [[1; 0]; [1; 1]; [1; 2]]%nat =
    Ok "get :: test_get".
Proof.
  rewrite (long_function_dropped (X := example_xml) example_report 1 [[1; 0]; [1; 1]; [1; 2]]%nat
    ["get"] long_name ["test_get"]); [reflexivity| | |by vm_compute].
  - repeat constructor; apply frame_has_compute; reflexivity.
  - by repeat constructor.
Defined.

Lemma valgrind_report_counts_witness :
  exists e, valgrindXML_evaluate (X := example_xml) (world_of ∅ ∅) "v.xml" 1 =
    Ok (Some (mk_result [e] 3 1)) /\ location (info e) = Str "get :: test_get".
Proof.
  pose proof (valgrind_report_counts (X := example_xml) (world_of ∅ ∅) "v.xml" 1 example_report
    [mk_entry (X := example_xml) [2; 0; 0]%nat 3 "0x1" [0]%nat "InvalidRead" (Some "Invalid read") (Some "Address 0x0")
       [["get"]; ["test_get"]; ["CuTestRun"]; ["main"]]])
    as E.
  eexists. split; [rewrite E; [reflexivity|reflexivity|reflexivity| |by vm_compute]|reflexivity].
  constructor; [|constructor]. split; try reflexivity.
  - exists [2; 0; 1]%nat. split; reflexivity.
  - exists [[0; 0]; [0; 1]; [0; 2]]%nat, [0; 3]%nat, [[0; 4]]%nat, [[0; 3; 0]; [0; 3; 1]; [0; 3; 2]; [0; 3; 3]]%nat, [0; 1]%nat.
    split_and!; try reflexivity; try (by apply children_walked); [by exists [0; 2]%nat|].
    repeat constructor; apply frame_has_compute; reflexivity.
  - by repeat constructor.
  - by vm_compute.
  - by vm_compute.
Defined.

End ValgrindEval.
