(* ===== verification/Process.v ===== *)
(** * Child processes (src/controller.c)

    The engine runs the compiler, the tests, Valgrind and shell commands as
    child processes and polls for their end every 100 milliseconds.  What a
    child does is a parameter: [os_run] gives the file system it leaves behind
    and, for every poll, what [waitpid] with [WNOHANG] reports.  A child has its
    own environment and its own current directory, so the parent's are unchanged. *)

From Stdlib Require Import Ascii String.
From S2P Require Import Prelude CString System.

Module Process.

(** How a child ended: by [exit] with a code, or by a signal. *)
Inductive wstatus := Exited (code : Z) | Signaled.

(** What a poll reports. *)
Inductive poll := Running | Reaped (status : wstatus) | WaitError.

#[global] Instance wstatus_eq_dec : EqDecision wstatus.
Proof. solve_decision. Defined.
#[global] Instance poll_eq_dec : EqDecision poll.
Proof. solve_decision. Defined.

(** Standard output and error of a child: the parent's, a file, or a stream
    that cannot be written. *)
Inductive stdio := Inherit | ToFile (path : string) | ToNull.

Class OS := {
  os_run : World -> list string -> stdio -> gmap string string * (nat -> poll)
}.

Section process.
Context `{OS}.

Definition SLEEP_UNIT_IN_MS : Z := 100.

(** The polling loop: at most [n] polls. *)
Fixpoint wait_loop (n i : nat) (child : nat -> poll) : poll :=
  match n with
  | O => Running
  | S n => match child i with Running => wait_loop n (S i) child | p => p end
  end.

Definition run_child (w : World) (args : list string) (out : stdio) : World * (nat -> poll) :=
  let '(files, child) := os_run w args out in (with_fs w files, child).

Definition startprogram (w : World) (programparams : list string) (stdoutfd : option string)
    (redirect : Z) : World * Z :=
  let out :=
    if redirect =? 1 then match stdoutfd with Some f => ToFile f | None => ToNull end else Inherit in
  let '(w, child) := run_child w programparams out in
  let WAIT_MAX_IN_MS := 200 * 1000 in
  match wait_loop (Z.to_nat (WAIT_MAX_IN_MS / SLEEP_UNIT_IN_MS)) 0 child with
  | Running => (w, 2)
  | WaitError => (w, 0)
  | Reaped (Exited code) => (w, code)
  | Reaped Signaled => (w, -1)
  end.

Definition cleanUp (w : World) (copyPUTDir : string) : World :=
  (startprogram w ["rm"; "-rf"; copyPUTDir] None 0).1.

Definition copy_file (w : World) (src target : string) : World :=
  (startprogram w ["cp"; src; target] None 0).1.

(** The title goes to the log when the log exists. *)
Definition log_title (w : World) (make_logs_dir currentMutation : string) : World :=
  match read_file w make_logs_dir with
  | Some _ => append_file w make_logs_dir
      (String nl ("--> MUTATION ::" ++ " " ++ currentMutation ++ String nl (String nl "")))
  | None => w
  end.

(** The status of a wait that failed is uninitialised. *)
Definition startMake (w : World) (args : list string) (currentMutation : option string)
    (make_logs_dir : string) : res (World * Z) :=
  let '(w', child) :=
    match currentMutation with
    | Some m =>
        run_child (setenv (log_title w make_logs_dir m) "MALLOC_CHECK_" "0") args (ToFile make_logs_dir)
    | None => run_child (setenv w "MALLOC_CHECK_" "0") args Inherit
    end in
  let w := with_fs w (fs w') in
  let WAIT_MAX_IN_MS := 5 * 60 * 1000 in
  match wait_loop (Z.to_nat (WAIT_MAX_IN_MS / SLEEP_UNIT_IN_MS)) 0 child with
  | Running => Ok (w, 2)
  | WaitError => Undef
  | Reaped (Exited code) => Ok (w, code)
  | Reaped Signaled => Ok (w, -1)
  end.

Definition killed_text : string :=
  "status: (killed)" ++ String nl ("description: mutation caused a runtime error" ++ String nl "").

(** [fopen] of a NULL path is undefined. *)
Definition runMake (w : World) (projectDir : string) (currentMutation : option string)
    (makeTestTarget : option string) (mutation_results_path : option string) (make_logs_dir : string) :
    res (World * Z) :=
  let args_make :=
    (["make"; "-C"; projectDir] ++ match makeTestTarget with Some t => [t] | None => [] end)%list in
  '(w, r) ← startMake w args_make currentMutation make_logs_dir;
  if r =? 2 then
    match mutation_results_path with
    | Some path => Ok (append_file w path killed_text, 2)
    | None => Undef
    end
  else Ok (w, 0).

Definition extractCFGBranches (w : World) (srcDir outputDir : string) (filename : option string) : World :=
  (startprogram w
     (["bash"; "GenCFGBranches.sh"; srcDir; outputDir] ++
      match filename with Some f => [f] | None => [] end)%list None 0).1.

(** ** Properties *)

(** The poll at which a child is found ended. *)
Definition ends_at (child : nat -> poll) (k : nat) (p : poll) : Prop :=
  child k = p /\ p <> Running /\ forall j, (j < k)%nat -> child j = Running.

Lemma wait_loop_running n i child :
  (forall j, (i <= j < i + n)%nat -> child j = Running) -> wait_loop n i child = Running.
Proof.
  revert i. induction n as [|n IH]; intros i Hr; simpl; [done|]. rewrite Hr by lia.
  apply IH. intros j Hj. apply Hr. lia.
Qed.

Lemma wait_loop_ends n i child k p :
  child k = p -> p <> Running -> (i <= k < i + n)%nat ->
  (forall j, (i <= j < k)%nat -> child j = Running) -> wait_loop n i child = p.
Proof.
  revert i. induction n as [|n IH]; intros i Hk Hp Hi Hr; [lia|]. simpl.
  destruct (decide (i = k)) as [->|Hne].
  - rewrite Hk. by destruct p.
  - rewrite Hr by lia. apply IH; [done..|lia|]. intros j Hj. apply Hr. lia.
Qed.

(** What the loop finds: the end of the child, or nothing. *)
Lemma wait_loop_cases n child :
  (exists k p, (k < n)%nat /\ ends_at child k p /\ wait_loop n 0 child = p) \/
  ((forall j, (j < n)%nat -> child j = Running) /\ wait_loop n 0 child = Running).
Proof.
  destruct (decide (Exists (fun j => child j <> Running) (seq 0 n))) as [E|E].
  - left. assert (exists k, (k < n)%nat /\ child k <> Running /\ forall j, (j < k)%nat -> child j = Running)
      as (k & Hk & Hr & Hmin).
    { clear -E. induction n as [|n IH]; [by apply Exists_nil in E|].
      destruct (decide (Exists (fun j => child j <> Running) (seq 0 n))) as [E'|E'].
      - destruct (IH E') as (k & ? & ? & ?). exists k. split_and!; [lia|done..].
      - exists n. split_and!; [lia| |].
        + rewrite seq_S, Exists_app in E. destruct E as [E|E]; [done|].
          by apply Exists_cons in E as [E|E%Exists_nil].
        + intros j Hj. destruct (child j) eqn:Ej; [done|..]; exfalso; apply E', Exists_exists;
            exists j; (split; [apply elem_of_seq; lia|by rewrite Ej]). }
    exists k, (child k). split_and!; [done|by split|].
    apply (wait_loop_ends n 0 child k); [done..|lia|]. intros j Hj. apply Hmin. lia.
  - right. assert (forall j, (j < n)%nat -> child j = Running) as Hr.
    { intros j Hj. destruct (child j) eqn:Ej; [done|..]; exfalso; apply E, Exists_exists;
        exists j; (split; [apply elem_of_seq; lia|by rewrite Ej]). }
    split; [done|]. apply wait_loop_running. intros j Hj. apply Hr. lia.
Qed.

(** [startprogram] always returns, after at most 2000 polls (200 seconds).
    It returns the exit code of a child that exits within them, -1 for one that
    a signal ended, and 2 for one still running at the last poll, which is
    killed; the engine's environment does not change. *)
Theorem startprogram_outcome w args stdoutfd redirect :
  let out :=
    if redirect =? 1 then match stdoutfd with Some f => ToFile f | None => ToNull end else Inherit in
  let child := (os_run w args out).2 in
  let '(w', r) := startprogram w args stdoutfd redirect in
  env w' = env w /\ fs w' = (os_run w args out).1 /\
  ((exists k code, (k < 2000)%nat /\ ends_at child k (Reaped (Exited code)) /\ r = code) \/
   (exists k, (k < 2000)%nat /\ ends_at child k (Reaped Signaled) /\ r = -1) \/
   (exists k, (k < 2000)%nat /\ ends_at child k WaitError /\ r = 0) \/
   ((forall j, (j < 2000)%nat -> child j = Running) /\ r = 2)).
Proof.
  intros out child. unfold startprogram, run_child. fold out. unfold child.
  destruct (os_run w args out) as [files c]. cbn [snd fst].
  change (Z.to_nat (200 * 1000 / SLEEP_UNIT_IN_MS)) with 2000%nat.
  destruct (wait_loop_cases 2000 c) as [(k & p & Hk & He & ->)|[Hr ->]].
  - destruct p as [|[code|]|]; [by destruct He as (_ & [] & _)|..]; (split; [reflexivity|]);
      (split; [reflexivity|]).
    + left. by exists k, code.
    + right; left. by exists k.
    + right; right; left. by exists k.
  - split; [reflexivity|]. split; [reflexivity|]. right; right; right. split; [exact Hr|reflexivity].
Qed.

(** C30: The verdict of a build.  When waiting for make succeeds, [runMake]
    returns within 3000 polls (five minutes), and only 0 or 2.  It returns 2,
    the engine's sign of a mutant killed by a failed run, exactly when make was
    still running at the last poll or exited with status 2 (as it does on any
    build error); then, and only then, the killed status is appended to the
    results the child left. *)
Theorem runMake_verdict w dir mutation target results logs :
  let args := (["make"; "-C"; dir] ++ match target with Some t => [t] | None => [] end)%list in
  let '(files, child) :=
    match mutation with
    | Some m => os_run (setenv (log_title w logs m) "MALLOC_CHECK_" "0") args (ToFile logs)
    | None => os_run (setenv w "MALLOC_CHECK_" "0") args Inherit
    end in
  (forall k, child k <> WaitError) ->
  exists w' r, runMake w dir mutation target (Some results) logs = Ok (w', r) /\ env w' = env w /\
    (r = 2 <-> (forall j, (j < 3000)%nat -> child j = Running) \/
               exists k, (k < 3000)%nat /\ ends_at child k (Reaped (Exited 2))) /\
    (r = 2 \/ r = 0) /\
    w' = (if r =? 2 then append_file (with_fs w files) results killed_text
          else with_fs w files).
Proof.
  intros args. unfold runMake, startMake, run_child. fold args.
  set (call := match mutation with Some m => _ | None => _ end).
  assert (call = match mutation with
    | Some m => os_run (setenv (log_title w logs m) "MALLOC_CHECK_" "0") args (ToFile logs)
    | None => os_run (setenv w "MALLOC_CHECK_" "0") args Inherit
    end) as Ecall by done. clearbody call.
  destruct call as [files child] eqn:Ec. intros Hwait.
  replace (match mutation with
    | Some m => let '(files, child) := os_run (setenv (log_title w logs m) "MALLOC_CHECK_" "0") args (ToFile logs) in
        (with_fs (setenv (log_title w logs m) "MALLOC_CHECK_" "0") files, child)
    | None => let '(files, child) := os_run (setenv w "MALLOC_CHECK_" "0") args Inherit in
        (with_fs (setenv w "MALLOC_CHECK_" "0") files, child)
    end) with (with_fs (match mutation with
      | Some m => setenv (log_title w logs m) "MALLOC_CHECK_" "0"
      | None => setenv w "MALLOC_CHECK_" "0" end) files, child)
    by (destruct mutation; by rewrite <- Ecall).
  cbn [fs with_fs]. change (Z.to_nat (5 * 60 * 1000 / SLEEP_UNIT_IN_MS)) with 3000%nat. generalize 3000%nat. intros N.
  destruct (wait_loop_cases N child) as [(k & p & Hk & He & ->)|[Hr ->]].
  - destruct He as (Hck & Hne & Hmin).
    assert ((forall j, (j < N)%nat -> child j = Running) \/
      (exists k', (k' < N)%nat /\ ends_at child k' (Reaped (Exited 2))) <-> p = Reaped (Exited 2)) as Hiff.
    { split.
      - intros [Hall|(k' & Hk' & Hc' & _ & Hmin')]; [by rewrite Hall in Hck by lia; subst|].
        destruct (Nat.lt_trichotomy k k') as [|[->|]]; [|congruence|].
        + rewrite Hmin' in Hck by done. by subst.
        + by rewrite Hmin in Hc' by done.
      - intros ->. right. exists k. by split. }
    destruct p as [|[code|]|]; [done| | |by edestruct Hwait].
    + cbn [mbind res_bind]. destruct (Z.eqb_spec code 2) as [->|];
        (eexists _, _; split; [done|]; rewrite Hiff; naive_solver).
    + eexists _, _. split; [done|]. rewrite Hiff. naive_solver.
  - eexists _, _. split; [done|]. naive_solver.
Qed.
End process.

(** ** Witnesses *)

(** A child that exits with status 2 at its second poll. *)
Definition failing_make : OS :=
  {| os_run := fun w _ _ => (fs w, fun k => if bool_decide (k < 2)%nat then Running else Reaped (Exited 2)) |}.

Lemma runMake_verdict_witness :
  exists w', runMake (H := failing_make) (world_of ∅ ∅) "put" (Some "m1.c") (Some "test") (Some "log") "mk" =
    Ok (w', 2) /\ read_file w' "log" = Some killed_text.
Proof.
  pose proof (runMake_verdict (H := failing_make) (world_of ∅ ∅) "put" (Some "m1.c") (Some "test")
    "log" "mk") as Hv. cbn [failing_make os_run] in Hv.
  destruct Hv as (w' & r & E & _ & Hr & _ & Hw).
  - intros k. case_bool_decide; discriminate.
  - assert (r = 2) as ->.
    { apply Hr. right. exists 2%nat. split; [lia|]. split_and!; [reflexivity|discriminate|].
      intros j Hj. by rewrite bool_decide_eq_true_2. }
    exists w'. split; [exact E|]. rewrite Hw. reflexivity.
Defined.

End Process.
