(* ===== verification/Config.v ===== *)
(** * The configuration file (src/controller.c, [processConfigFile])

    The file is read by libconfig, which is not part of the repository: the
    class [LibConfig] has its lookups.  A field of the configuration that the
    code does not set is indeterminate. *)

From Stdlib Require Import Ascii String.
From S2P Require Import Prelude CString System.

Module Config.

Class LibConfig := {
  config_t : Type;
  config_read_file : World -> string -> option config_t;
  config_lookup_string : config_t -> string -> option string;
  (** the elements of a list setting; one that is not a string is NULL *)
  config_lookup_elems : config_t -> string -> option (list (option string))
}.

Record Config := mk_Config {
  sourceRootDir : string;
  source : list string;
  testingFramework : Z;
  CuTestLibSource : cptr;
  (** indeterminate outside CuTest *)
  CuTestVersion : option Z;
  CheckTestLibSource : cptr;
  makeTestTarget : option string;
  executablePath : string;
  executableArgs : option string;
  numberOfSource : Z
}.

Section config.
Context `{LibConfig}.

(** The copies of the elements; [strlen] of a NULL element is undefined. *)
Fixpoint copy_elems (l : list (option string)) : res (list string) :=
  match l with
  | [] => Ok []
  | Some filename :: l => rest ← copy_elems l; Ok (filename :: rest)
  | None :: _ => Undef
  end.

(** The fields set for the framework, and whether it is accepted. *)
Definition lookup_framework (cfg : config_t) : option (Z * cptr * option Z * cptr) :=
  match config_lookup_string cfg "testingFramework" with
  | None => None
  | Some str =>
      if String.eqb str "cutest" then
        match config_lookup_string cfg "CuTestLibSource" with
        | None => None
        | Some lib =>
            let version :=
              match config_lookup_string cfg "CuTestVersion" with Some v => atoi v | None => 1 end in
            Some (1, Str lib, Some version, Indet)
        end
      else if String.eqb str "libcheck" then
        match config_lookup_string cfg "CheckTestLibSource" with
        | Some lib => Some (2, Indet, None, Str lib)
        | None => Some (2, Indet, None, Indet)
        end
      else None
  end.

Definition processConfigFile (w : World) (filePath : string) : res (option Config) :=
  match config_read_file w filePath with
  | None => Ok None
  | Some cfg =>
      match config_lookup_string cfg "sourceRootDir" with
      | None => Ok None
      | Some root =>
          match config_lookup_string cfg "executablePath" with
          | None => Ok None
          | Some exe =>
              let exe_args := config_lookup_string cfg "executableArgs" in
              match config_lookup_elems cfg "source" with
              | None => Ok None
              | Some setting =>
                  let count := Z.of_nat (List.length setting) in
                  sources ← copy_elems setting;
                  match lookup_framework cfg with
                  | None => Ok None
                  | Some (fw, cutest_lib, version, check_lib) =>
                      Ok (Some (mk_Config root sources fw cutest_lib version check_lib
                                  (config_lookup_string cfg "makeTestTarget") exe exe_args count))
                  end
              end
          end
      end
  end.

Lemma copy_elems_spec l : copy_elems (Some <$> l) = Ok l.
Proof. induction l as [|x l IH]; [done|]. csimpl. by rewrite IH. Qed.

(** A framework setting the code accepts. *)
Definition framework_ok (cfg : config_t) : Prop :=
  (config_lookup_string cfg "testingFramework" = Some "cutest" /\
     is_Some (config_lookup_string cfg "CuTestLibSource")) \/
  config_lookup_string cfg "testingFramework" = Some "libcheck".

Lemma lookup_framework_some cfg : is_Some (lookup_framework cfg) <-> framework_ok cfg.
Proof.
  unfold lookup_framework, framework_ok.
  destruct (config_lookup_string cfg "testingFramework") as [str|]; [|by split; [intros []|naive_solver]].
  destruct (String.eqb_spec str "cutest") as [->|Hc].
  - destruct (config_lookup_string cfg "CuTestLibSource"); split; try naive_solver; by intros [].
  - destruct (String.eqb_spec str "libcheck") as [->|Hl].
    + split; [by right|]. intros _. case_match; eauto.
    + split; [by intros []|]. naive_solver.
Qed.

(** A configuration is accepted exactly when the file can be read, names the
    source root, the executable and the sources, and selects CuTest with its
    library source or libcheck; every setting that is not a valid combination
    is refused without a result, and what is accepted is what the file says:
    the sources in their order and number, the framework as 1 or 2, version 1
    of CuTest when none is given, no arguments or target when there are none. *)
Theorem config_accepted w path cfg setting :
  config_read_file w path = Some cfg ->
  config_lookup_elems cfg "source" = Some (Some <$> setting) ->
  exists r, processConfigFile w path = Ok r /\
    (is_Some r <-> is_Some (config_lookup_string cfg "sourceRootDir") /\
       is_Some (config_lookup_string cfg "executablePath") /\ framework_ok cfg) /\
    forall c, r = Some c ->
      config_lookup_string cfg "sourceRootDir" = Some (sourceRootDir c) /\
      config_lookup_string cfg "executablePath" = Some (executablePath c) /\
      executableArgs c = config_lookup_string cfg "executableArgs" /\
      makeTestTarget c = config_lookup_string cfg "makeTestTarget" /\
      source c = setting /\ numberOfSource c = Z.of_nat (List.length setting) /\
      (testingFramework c = 1 \/ testingFramework c = 2) /\
      (testingFramework c = 1 ->
         CuTestLibSource c = of_option (config_lookup_string cfg "CuTestLibSource") /\
         CuTestVersion c =
           Some (default 1 (atoi <$> config_lookup_string cfg "CuTestVersion"))).
Proof.
  intros Hr Hs. unfold processConfigFile. rewrite Hr, Hs.
  pose proof (lookup_framework_some cfg) as Hfw.
  destruct (config_lookup_string cfg "sourceRootDir") as [root|];
    [|eexists; split; [done|]; split; [split; [by intros []|naive_solver]|done]].
  destruct (config_lookup_string cfg "executablePath") as [exe|];
    [|eexists; split; [done|]; split; [split; [by intros []|naive_solver]|done]].
  rewrite copy_elems_spec, length_fmap. cbn [mbind res_bind].
  destruct (lookup_framework cfg) as [[[[fw lib] version] check]|] eqn:Ef;
    [|eexists; split; [done|]; split;
      [split; [by intros []|by intros (_ & _ & [? ?]%Hfw)]|done]].
  eexists. split; [done|]. split; [split; [|eauto]; intros _; split_and!; eauto; apply Hfw; eauto|]. intros c [= <-]. simpl.
  do 6 (split; [done|]). revert Ef. unfold lookup_framework.
  destruct (config_lookup_string cfg "testingFramework") as [str|]; [|done].
  destruct (String.eqb str "cutest").
  - destruct (config_lookup_string cfg "CuTestLibSource"); [|done]. intros [= <- <- <- <-].
    split; [by left|]. intros _. split; [done|]. by destruct (config_lookup_string cfg "CuTestVersion").
  - destruct (String.eqb str "libcheck"); [|done].
    case_match; intros [= <- <- <- <-]; (split; [by right|done]).
Qed.

(** For libcheck without a library source, which the engine announces as the
    case of its own libcheck package, the library source of the configuration
    is left uninitialised and not NULL. *)
Theorem libcheck_source_uninitialised w path cfg setting :
  config_read_file w path = Some cfg ->
  config_lookup_elems cfg "source" = Some (Some <$> setting) ->
  is_Some (config_lookup_string cfg "sourceRootDir") ->
  is_Some (config_lookup_string cfg "executablePath") ->
  config_lookup_string cfg "testingFramework" = Some "libcheck" ->
  config_lookup_string cfg "CheckTestLibSource" = None ->
  exists c, processConfigFile w path = Ok (Some c) /\
    testingFramework c = 2 /\ CheckTestLibSource c = Indet.
Proof.
  intros Hr Hs [root Hroot] [exe Hexe] Hf Hc. unfold processConfigFile.
  rewrite Hr, Hroot, Hexe, Hs, copy_elems_spec. cbn [mbind res_bind].
  unfold lookup_framework. rewrite Hf, Hc. simpl. eauto.
Qed.
End config.

(** ** Witnesses *)

(** A configuration as an association of its settings. *)
Definition example_config (settings : gmap string string) (sources : list string) : LibConfig := {|
  config_t := gmap string string;
  config_read_file := fun _ _ => Some settings;
  config_lookup_string := fun c k => c !! k;
  config_lookup_elems := fun _ _ => Some (Some <$> sources)
|}.

Definition cutest_settings : gmap string string :=
  {[ "sourceRootDir" := "PUTs/heap"; "executablePath" := "PUTs/heap/tests";
     "testingFramework" := "cutest"; "CuTestLibSource" := "CuTest.c" ]}.
Definition libcheck_settings : gmap string string :=
  {[ "sourceRootDir" := "PUTs/p"; "executablePath" := "PUTs/p/tests"; "testingFramework" := "libcheck" ]}.

Lemma config_accepted_witness :
  exists c, processConfigFile (H := example_config cutest_settings ["heap.c"]) (world_of ∅ ∅) "c.cfg" =
      Ok (Some c) /\ CuTestVersion c = Some 1 /\ source c = ["heap.c"].
Proof.
  destruct (config_accepted (H := example_config cutest_settings ["heap.c"]) (world_of ∅ ∅) "c.cfg"
    cutest_settings ["heap.c"] eq_refl eq_refl) as (r & E & Hr & Hc).
  assert (is_Some r) as [c ->].
  { apply Hr. split_and!; [vm_compute; eauto|vm_compute; eauto|]. left. split; [reflexivity|].
    vm_compute; eauto. }
  destruct (Hc c eq_refl) as (_ & _ & _ & _ & Hs & _ & Hfw & Hv). exists c. split; [exact E|].
  assert (processConfigFile (H := example_config cutest_settings ["heap.c"]) (world_of ∅ ∅) "c.cfg" =
    Ok (Some (mk_Config "PUTs/heap" ["heap.c"] 1 (Str "CuTest.c") (Some 1) Indet None
                "PUTs/heap/tests" None 1))) as E' by reflexivity.
  rewrite E in E'. injection E' as ->. done.
Defined.

Lemma libcheck_source_uninitialised_witness :
  exists c, processConfigFile (H := example_config libcheck_settings ["p.c"]) (world_of ∅ ∅) "c.cfg" =
      Ok (Some c) /\ CheckTestLibSource c = Indet.
Proof.
  destruct (libcheck_source_uninitialised (H := example_config libcheck_settings ["p.c"])
    (world_of ∅ ∅) "c.cfg" libcheck_settings ["p.c"] eq_refl eq_refl) as (c & E & _ & Hc);
    [vm_compute; eauto|vm_compute; eauto|reflexivity|reflexivity|].
  exists c. split; [exact E|exact Hc].
Defined.

End Config.
