(* ===== verification/Controller.v ===== *)
(** * Evaluation of the first-order mutants (src/controller.c)

    [genResultsFOM] builds and tests one mutant, compares its branch coverage
    and its memory errors with the original program's and records the verdict in
    the [FOMResult] of the source file and in the statistics file;
    [inject_mutations] does so for every mutant of the file.

    The code works on a state: the world (files and environment), the statistics
    document, the results and the sizes of the two result buffers.  It is
    written in a state monad over [res]; text printed on the terminal is not
    modelled. *)

From Stdlib Require Import Ascii String.
From S2P Require Import Prelude Double CString System CFGEval LibXml GStats ValgrindEval Process Config Stats.

Module Controller.
Import GStats ValgrindEval Process Config.

(** ** Data *)

(** What the code does not set is [None]. *)
Record Mutant := mk_Mutant {
  mutation_code : string;
  mutant_source_file : string;
  fragility : option double;
  killed_by_tests : option (list Z);
  killed_by_tests_count : option Z;
  m_valgrindResult : option ValgrindResult;
  cfgDeviation : double;
  damage : double
}.

(** The integer members of [FOMResult]. *)
Inductive counter :=
  | non_trivial_FOM_count | total_mutants | total_tests | killed_by_valgrind
  | caused_CFG_deviation | total_valgrind_errors | survived_caused_CFG_deviation
  | survived_killed_by_valgrind | equivalent_mutants
  | survived_count | survived_SD | survived_WD
  | survived_WD_causedValgrindErrors | survived_WD_caused_CFG_deviation
  | mutant_kill_count | killed_SD | killed_WD
  | killed_WD_causedValgrindErrors | killed_WD_caused_CFG_deviation
  | failed_injection | dumb_mutants.

#[global] Instance counter_eq_dec : EqDecision counter.
Proof. solve_decision. Defined.

Definition counter_id (c : counter) : nat :=
  match c with
  | non_trivial_FOM_count => 0 | total_mutants => 1 | total_tests => 2 | killed_by_valgrind => 3
  | caused_CFG_deviation => 4 | total_valgrind_errors => 5 | survived_caused_CFG_deviation => 6
  | survived_killed_by_valgrind => 7 | equivalent_mutants => 8
  | survived_count => 9 | survived_SD => 10 | survived_WD => 11
  | survived_WD_causedValgrindErrors => 12 | survived_WD_caused_CFG_deviation => 13
  | mutant_kill_count => 14 | killed_SD => 15 | killed_WD => 16
  | killed_WD_causedValgrindErrors => 17 | killed_WD_caused_CFG_deviation => 18
  | failed_injection => 19 | dumb_mutants => 20
  end%nat.

Abbreviation counters := (counter -> Z).

Definition set_counter (c : counter) (v : Z) (f : counters) : counters :=
  fun c' => if Nat.eqb (counter_id c) (counter_id c') then v else f c'.

(** The arrays have as many cells as are allocated. *)
Record FOMResult := mk_FOMResult {
  original_source_file : option string;
  non_trivial_FOMS : list (option Mutant);
  survived : list (option Mutant);
  ints : counters
}.

(** The global variables that a run does not change. *)
Record Globals := mk_Globals {
  PUTValgrindErrors : Z;
  verbose_mode : Z;
  mutation_results_path : string;
  make_logs_dir : string;
  temp_results_path : string;
  GSTATS_PATH : string
}.

(** An entry of a directory: one that [stat] fails on, a directory, or a file. *)
Inductive ftype := NoStat | IsDir | IsFile.

(** [readdir w dir] are the answers of [readdir] and [stat], one after the other, to a
    program that opens [dir] in the world [w] and reads it to its end, whatever it does to
    the directory in between: the operating system may or may not show a name that is added
    after [opendir].  [lstat] does not follow links. *)
Class Dirs := {
  readdir : World -> string -> option (list (string * ftype));
  stat : World -> string -> ftype;
  lstat : World -> string -> ftype
}.

Section controller.
Context {X : LibXml} `{OS} `{Dirs}.
(** The format ["%.2f"], and the content of memory that [realloc] adds. *)
Context (print_f2 : double -> string) (junk : Z).
Context (g : Globals).

Record St := mk_St {
  world : World;
  gs : gstats;
  fom : FOMResult;
  non_trivial_FOM_buffer : Z;
  survived_buffer : Z
}.

(** ** The monad *)

Definition M (A : Type) : Type := St -> res (A * St).
#[export] Instance M_ret : MRet M := fun A a s => Ok (a, s).
#[export] Instance M_bind : MBind M := fun A B f m s => '(a, s) ← m s; f a s.

Definition lift {A} (f : World -> res A) : M A := fun s => a ← f (world s); Ok (a, s).
Definition get (A : Type) (f : St -> A) : M A := fun s => Ok (f s, s).
Arguments get {A} f.

Definition with_world (w : World) (s : St) : St :=
  mk_St w (gs s) (fom s) (non_trivial_FOM_buffer s) (survived_buffer s).
Definition with_gs (d : gstats) (s : St) : St :=
  mk_St (world s) d (fom s) (non_trivial_FOM_buffer s) (survived_buffer s).
Definition with_fom (r : FOMResult) (s : St) : St :=
  mk_St (world s) (gs s) r (non_trivial_FOM_buffer s) (survived_buffer s).
Definition with_ints (f : counters) (s : St) : St :=
  with_fom (mk_FOMResult (original_source_file (fom s)) (non_trivial_FOMS (fom s)) (survived (fom s)) f) s.

(** An action on the world, and one that returns. *)
Definition on_world (f : World -> World) : M unit := fun s => Ok (tt, with_world (f (world s)) s).
Definition run_world {A} (f : World -> res (World * A)) : M A := fun s =>
  '(w, a) ← f (world s); Ok (a, with_world w s).

Definition counter_val (c : counter) : M Z := get (fun s => ints (fom s) c).
Definition set_int (c : counter) (v : Z) : M unit := fun s =>
  Ok (tt, with_ints (set_counter c v (ints (fom s))) s).
(** [mResult->fomResult->c += n] *)
Definition add_int (c : counter) (n : Z) : M unit := fun s =>
  v ← chk (ints (fom s) c + n); set_int c v s.
Definition incr (c : counter) : M unit := add_int c 1.

Definition fprintf (text : string) : M unit :=
  on_world (fun w => append_file w (mutation_results_path g) text).

(** [create_update_gstat_mutation(code, key, get_gstat_value_mutation(code, key) + n)] *)
Definition add_gstat (code key : string) (n : Z) : M unit := fun s =>
  v ← get_gstat_value_mutation (gs s) code key;
  v ← chk (v + n);
  d ← create_update_gstat_mutation (gs s) code key v;
  Ok (tt, with_gs d s).
(** The same with a [double] added, converted to [int]. *)
Definition add_gstat_double (code key : string) (x : double) : M unit := fun s =>
  v ← get_gstat_value_mutation (gs s) code key;
  v ← double_to_int (dadd (double_of_Z v) x);
  d ← create_update_gstat_mutation (gs s) code key v;
  Ok (tt, with_gs d s).

Definition open_stats : M unit := fun s =>
  let '(w, d) := open_GStats (world s) (GSTATS_PATH g) (aggr (gs s)) in
  Ok (tt, with_gs d (with_world w s)).
Definition flush_stats : M unit := fun s =>
  Ok (tt, with_world (flush_GStats (world s) (GSTATS_PATH g) (gs s)) s).

Definition get_stats : M (list Z) :=
  lift (fun w => Stats.get_non_trivial_FOM_stats junk w (temp_results_path g)).

(** ** Valgrind *)

(** Printing a string that is not there prints nothing; the code prints an
    uninitialised pointer without a test. *)
Definition print_field (label : string) (p : cptr) (tail : string) : M unit :=
  match p with
  | Null => mret tt
  | Str s => fprintf (String "009" ("> " ++ label ++ ": " ++ s ++ tail))
  | Indet => fun _ => Undef
  end.

Definition newline : string := String nl "".

Definition printValgrindError (e : error_info) (i : Z) : M unit :=
  match location e with
  | Null => mret tt
  | Str l =>
      fprintf (String "009" ("*** Error(" ++ print_int (i + 1) ++ ") ***" ++ newline)) ;;
      fprintf (String "009" ("> location: " ++ l ++ newline))
  | Indet => fun _ => Undef
  end ;;
  print_field "kind" (kind e) newline ;;
  print_field "what" (what e) newline ;;
  print_field "auxwhat" (auxwhat e) (newline ++ newline).

(** The array of errors has [unique_valgrind_error_count] cells. *)
Fixpoint print_errors (es : list ValgrindError) (i : Z) : M unit :=
  match es with
  | [] => mret tt
  | e :: es => printValgrindError (info e) i ;; print_errors es (i + 1)
  end.

Definition printValgrindResult (code : string) (r : ValgrindResult) : M unit :=
  add_gstat code "valgrind_errors_count" (valgrind_error_count r) ;;
  fprintf ("New Valgrind errors: " ++ print_int (valgrind_error_count r) ++ newline) ;;
  if verbose_mode g =? 1 then print_errors (valgrindErrors r) 0 else mret tt.

Definition genValgrindResult (cwd original_file_Name_dir str : string) (user_config : Config) :
    M (option ValgrindResult) :=
  let xml_file_location :=
    cwd ++ "/mutation_out/" ++ original_file_Name_dir ++ "/valgrind_eval_" ++ str ++ ".xml" in
  let args_valgrind :=
    (["valgrind"; "-q"; "--trace-children=yes"; "--child-silent-after-fork=yes"; "--xml=yes";
      ("--xml-file=" ++ xml_file_location)%string; executablePath user_config] ++
     match executableArgs user_config with Some a => [a] | None => [] end)%list in
  on_world (fun w => setenv w "IS_MUTATE" "false") ;;
  on_world (fun w => (startprogram w args_valgrind None 1).1) ;;
  on_world (fun w => setenv w "IS_MUTATE" "true") ;;
  lift (fun w => valgrindXML_evaluate w xml_file_location (testingFramework user_config)).

(** ** One mutant *)

Definition mutation_code_of (str : string) : string :=
  match strrchr str "_" with
  | None => strndup str (strlen str - 2)
  | Some dif => strndup str dif
  end.

(** [realloc] to twice the size. *)
Definition grow (buffer : Z) (cells : list (option Mutant)) : list (option Mutant) :=
  (take (Z.to_nat (buffer * 2)) cells ++
   replicate (Z.to_nat (buffer * 2) - List.length cells) None)%list.

Definition store_non_trivial (i : Z) (m : Mutant) : M unit := fun s =>
  l ← store (non_trivial_FOMS (fom s)) i (Some m);
  Ok (tt, with_fom (mk_FOMResult (original_source_file (fom s)) l (survived (fom s)) (ints (fom s))) s).

Definition store_survived (i : Z) (m : Mutant) : M unit := fun s =>
  l ← store (survived (fom s)) i (Some m);
  Ok (tt, with_fom (mk_FOMResult (original_source_file (fom s)) (non_trivial_FOMS (fom s)) l
                      (ints (fom s))) s).

Definition grow_non_trivial (kills : Z) : M unit := fun s =>
  if non_trivial_FOM_buffer s <? kills then
    b ← chk (non_trivial_FOM_buffer s * 2);
    Ok (tt, mk_St (world s) (gs s)
      (mk_FOMResult (original_source_file (fom s)) (grow (non_trivial_FOM_buffer s) (non_trivial_FOMS (fom s)))
         (survived (fom s)) (ints (fom s))) b (survived_buffer s))
  else Ok (tt, s).

Definition grow_survived (SMC : Z) : M unit := fun s =>
  if survived_buffer s <? SMC then
    b ← chk (survived_buffer s * 2);
    Ok (tt, mk_St (world s) (gs s)
      (mk_FOMResult (original_source_file (fom s)) (non_trivial_FOMS (fom s))
         (grow (survived_buffer s) (survived (fom s))) (ints (fom s))) (non_trivial_FOM_buffer s) b)
  else Ok (tt, s).

(** [memcpy] of the identifiers after the three numbers. *)
Definition copy_ids (stats : list Z) (n : Z) : res (list Z) :=
  if decide (0 <= n /\ 3 + n <= Z.of_nat (List.length stats)) then
    Ok (take (Z.to_nat n) (drop 3 stats))
  else Undef.

(** Killed by a test. *)
Definition killed_branch (str filename_qfd cwd original_file_Name_dir : string) (user_config : Config)
    (code : string) (cfgDev : double) (stats : list Z) : M unit :=
  add_gstat code "killed_by_tests" 1 ;;
  incr mutant_kill_count ;;
  stats0 ← lift (fun _ => load stats 0);
  stats1 ← lift (fun _ => load stats 1);
  stats2 ← lift (fun _ => load stats 2);
  grow_non_trivial stats0 ;;
  NTFC ← counter_val non_trivial_FOM_count;
  vr ← genValgrindResult cwd original_file_Name_dir str user_config;
  vr ←
    match vr with
    | Some r =>
        let n := if PUTValgrindErrors g <? valgrind_error_count r
                 then valgrind_error_count r - PUTValgrindErrors g else 0 in
        let r := mk_result (valgrindErrors r) n (unique_valgrind_error_count r) in
        add_int total_valgrind_errors n ;;
        printValgrindResult code r ;;
        mret (Some r)
    | None => mret None
    end;
  (if (0 <? stats1) && (stats1 <? stats2) then
     ids ← lift (fun _ => copy_ids stats stats1);
     store_non_trivial NTFC
       (mk_Mutant code filename_qfd (Some (ddiv (double_of_Z stats1) (double_of_Z stats2)))
          (Some ids) (Some stats1) vr cfgDev d1) ;;
     incr non_trivial_FOM_count
   else if (0 <? stats1) && (stats1 =? stats2) then incr dumb_mutants
   else mret tt) ;;
  set_int total_tests stats2 ;;
  let errors :=
    match vr with Some r => negb (valgrind_error_count r =? PUTValgrindErrors g) | None => false end in
  if errors && dlt d0 cfgDev then
    incr killed_SD ;;
    add_gstat code "killed_SD" 1
  else if errors then
    incr killed_WD ;;
    incr killed_WD_causedValgrindErrors ;;
    add_gstat code "killed_WD" 1 ;;
    add_gstat code "killed_WD_VE" 1
  else if dlt d0 cfgDev then
    incr killed_WD ;;
    incr killed_WD_caused_CFG_deviation ;;
    add_gstat code "killed_WD" 1 ;;
    add_gstat code "killed_WD_CFD" 1
  else mret tt.

(** The damage of a mutant that was not killed. *)
Definition judge_survivor (str cwd original_file_Name_dir : string) (user_config : Config)
    (code : string) (cfgDev : double) : M (option ValgrindResult) :=
  vr ← genValgrindResult cwd original_file_Name_dir str user_config;
  let errors :=
    match vr with Some r => negb (valgrind_error_count r =? PUTValgrindErrors g) | None => false end in
  (if negb errors && deq cfgDev d0 then
     incr equivalent_mutants ;;
     add_gstat code "equivalent_mutants" 1
   else if errors && dlt d0 cfgDev then
     incr survived_SD ;;
     add_gstat code "survived_SD" 1
   else if errors then
     incr survived_WD ;;
     incr survived_WD_causedValgrindErrors ;;
     add_gstat code "survived_WD" 1 ;;
     add_gstat code "survived_WD_VE" 1
   else if dlt d0 cfgDev then
     incr survived_WD ;;
     incr survived_WD_caused_CFG_deviation ;;
     add_gstat code "survived_WD" 1 ;;
     add_gstat code "survived_WD_CFD" 1
   else mret tt) ;;
  match vr with
  | Some r =>
      add_int total_valgrind_errors (valgrind_error_count r) ;;
      printValgrindResult code r
  | None => mret tt
  end ;;
  mret vr.

Definition note_deviation (cfgDev : double) : M unit :=
  if negb (deq cfgDev d0) then incr survived_caused_CFG_deviation else mret tt.

(** Not killed. *)
Definition survived_branch (str filename_qfd cwd original_file_Name_dir : string) (user_config : Config)
    (code : string) (cfgDev : double) : M unit :=
  note_deviation cfgDev ;;
  SMC ← counter_val survived_count;
  grow_survived SMC ;;
  vr ← judge_survivor str cwd original_file_Name_dir user_config code cfgDev;
  store_survived SMC
    (mk_Mutant code filename_qfd None None None vr cfgDev
       (dadd (ddiv (double_of_Z 2) (double_of_Z 3)) (ddiv cfgDev (double_of_Z 3)))) ;;
  incr survived_count.

Definition set_original (mv_dir : string) : M unit := fun s =>
  Ok (tt, with_fom (mk_FOMResult (Some mv_dir) (non_trivial_FOMS (fom s)) (survived (fom s))
                      (ints (fom s))) s).

Definition genResultsFOM (str makeDir filename_qfd mv_dir : string) (user_config : Config)
    (txl_original original_file_Name_dir cwd : string) : M unit :=
  let code := mutation_code_of str in
  open_stats ;;
  fprintf (newline ++ "**** Mutant: " ++ str ++ " ****" ++ newline) ;;
  incr total_mutants ;;
  stats ← get_stats;
  prev_killed_by_tests ← lift (fun _ => load stats 0);
  make_result ← run_world (fun w =>
    runMake w makeDir (Some str) (makeTestTarget user_config) (Some (mutation_results_path g))
      (make_logs_dir g));
  add_gstat code "generated_mutants" 1 ;;
  (if make_result =? 2 then
     incr mutant_kill_count ;;
     incr failed_injection ;;
     add_gstat code "failed_injection" 1
   else
     let cfg_out := cwd ++ "/mutation_out/" ++ original_file_Name_dir in
     on_world (fun w => extractCFGBranches w makeDir cfg_out (Some original_file_Name_dir)) ;;
     let cfg_out_file := cfg_out ++ "/" ++ original_file_Name_dir ++ ".c.gcov.branches" in
     let cfg_original_file :=
       cwd ++ "/mutation_out/PUT/" ++ original_file_Name_dir ++ ".c.gcov.branches" in
     cfgDev ← lift (fun w => CFGEval.calculateCFGBranchDeviation (fs w) cfg_original_file cfg_out_file);
     (if dlt d0 cfgDev then
        add_gstat_double code "cfg_deviation_raw" (dmul cfgDev d100) ;;
        incr caused_CFG_deviation
      else mret tt) ;;
     fprintf ("CFG Deviation : " ++ print_f2 (dmul cfgDev d100) ++ "%" ++ newline) ;;
     stats ← get_stats;
     stats0 ← lift (fun _ => load stats 0);
     delta ← lift (fun _ => chk (stats0 - prev_killed_by_tests));
     if delta =? 1
     then killed_branch str filename_qfd cwd original_file_Name_dir user_config code cfgDev stats
     else survived_branch str filename_qfd cwd original_file_Name_dir user_config code cfgDev) ;;
  set_original mv_dir ;;
  (if verbose_mode g =? 1 then
     fprintf "PUT vs. Mutant : " ;;
     on_world (fun w => (startprogram w ["diff"; "-wb"; txl_original; filename_qfd]
                           (Some (mutation_results_path g)) 1).1)
   else mret tt) ;;
  flush_stats.

(** ** All mutants of a source file *)

Definition init_ints : counters := fun _ => 0.

Definition init_FOMResult : FOMResult :=
  mk_FOMResult None (replicate 200 None) (replicate 200 None) init_ints.

(** A directory entry that is a mutant. *)
Definition is_mutant (original_file_Name : string) (e : string * ftype) : bool :=
  match e.2 with
  | NoStat | IsDir => false
  | IsFile =>
      negb (String.eqb original_file_Name e.1) && negb (String.eqb "txl_original.c" e.1) &&
      match strrchr e.1 "." with
      | Some dot => String.eqb (str_from e.1 dot) ".c"
      | None => false
      end
  end.

(** The loop over the answers of [readdir]; the path is built in a buffer of 1024 bytes. *)
Fixpoint inject_loop (srcDir target makeDir original_file_Name mv_dir : string) (user_config : Config)
    (txl_original original_file_Name_dir cwd : string) (entries : list (string * ftype)) : M unit :=
  match entries with
  | [] => mret tt
  | e :: entries =>
      let filename_qfd := srcDir ++ "/" ++ e.1 in
      (if strlen filename_qfd <? 1024 then mret tt else fun _ => Undef) ;;
      (if is_mutant original_file_Name e then
         on_world (fun w => copy_file w filename_qfd target) ;;
         genResultsFOM e.1 makeDir filename_qfd mv_dir user_config txl_original
           original_file_Name_dir cwd
       else mret tt) ;;
      inject_loop srcDir target makeDir original_file_Name mv_dir user_config txl_original
        original_file_Name_dir cwd entries
  end.

Definition inject_mutations (srcDir target makeDir original_file_Name : string) (user_config : Config)
    (txl_original original_file_Name_dir cwd : string) : M unit :=
  (fun s => Ok (tt, mk_St (world s) (gs s) init_FOMResult 200 200)) ;;
  let mv_dir := srcDir ++ "/" ++ original_file_Name ++ ".original" in
  on_world (fun w => copy_file w target mv_dir) ;;
  entries ← get (fun s => readdir (world s) srcDir);
  match entries with
  | None => fun _ => Exit 1
  | Some entries =>
      inject_loop srcDir target makeDir original_file_Name mv_dir user_config txl_original
        original_file_Name_dir cwd entries
  end.

(** ** Damage *)

(** The integer quotient of two counts. *)
Definition int_div (a b : Z) : res Z := if b =? 0 then Undef else Ok (Z.quot a b).

(** The damage of a mutant with its share of the memory errors, recorded in the
    statistics; the mutant itself is a copy. *)
Definition mutant_damage (total_errors : Z) (m : option Mutant) : M double :=
  match m with
  | None => fun _ => Undef
  | Some m =>
      match m_valgrindResult m with
      | None => mret (damage m)
      | Some r =>
          q ← lift (fun _ => int_div (valgrind_error_count r) total_errors);
          let d := dadd (damage m) (ddiv (double_of_Z q) (double_of_Z 3)) in
          add_gstat_double (mutation_code m) "damage_raw" (dmul d d100) ;;
          mret d
      end
  end.

Fixpoint damage_loop (n : nat) (i : Z) (cells : list (option Mutant)) (total_errors : Z)
    (average_damage : double) : M double :=
  match n with
  | O => mret average_damage
  | S n =>
      m ← lift (fun _ => load cells i);
      d ← mutant_damage total_errors m;
      damage_loop n (i + 1) cells total_errors (dadd average_damage d)
  end.

Definition calculate_average_damage : M double :=
  open_stats ;;
  r ← get fom;
  let total_errors := ints r total_valgrind_errors in
  avg ← damage_loop (Z.to_nat (ints r survived_count)) 0 (survived r) total_errors d0;
  avg ← damage_loop (Z.to_nat (ints r non_trivial_FOM_count)) 0 (non_trivial_FOMS r) total_errors avg;
  flush_stats ;;
  n ← lift (fun _ => chk (ints r total_mutants - ints r failed_injection));
  mret (if deq avg d0 then d0 else ddiv avg (double_of_Z n)).

(** ** What actions preserve

    [Preserves P m]: whenever [m] returns from a state with [P], [P] holds again.
    A predicate that does not depend on the world or on the statistics is
    preserved by every action on them. *)

Class Preserves {A} (P : St -> Prop) (m : M A) : Prop :=
  preserves s a s' : m s = Ok (a, s') -> P s -> P s'.

Lemma preserve {A} P (m : M A) s a s' : m s = Ok (a, s') -> Preserves P m -> P s -> P s'.
Proof. intros E Hm. exact (Hm s a s' E). Qed.

Class WorldStep (P : St -> Prop) (f : World -> World) : Prop :=
  world_step s : P s -> P (with_world (f (world s)) s).
Class WorldRun {A} (P : St -> Prop) (f : World -> res (World * A)) : Prop :=
  world_run s w a : f (world s) = Ok (w, a) -> P s -> P (with_world w s).
Class GsFree (P : St -> Prop) : Prop := gs_free d s : P s -> P (with_gs d s).
Class WorldFree (P : St -> Prop) : Prop := world_free w s : P s -> P (with_world w s).

#[export] Instance world_free_step P f : WorldFree P -> WorldStep P f.
Proof. intros HP s. apply world_free. Qed.

#[export] Instance world_free_run {A} P (f : World -> res (World * A)) : WorldFree P -> WorldRun P f.
Proof. intros HP s w a _. apply world_free. Qed.

Lemma M_bind_inv {A B} (m : M A) (k : A -> M B) s b s' :
  (m ≫= k) s = Ok (b, s') -> exists a s1, m s = Ok (a, s1) /\ k a s1 = Ok (b, s').
Proof. intros ([a s1] & Hm & Hk)%res_bind_inv. eauto. Qed.

Section preserves.
Context (P : St -> Prop).

#[export] Instance pres_bind {A B} (m : M A) (k : A -> M B) :
  Preserves P m -> (forall a, Preserves P (k a)) -> Preserves P (m ≫= k).
Proof. intros Hm Hk s b s' (a & s1 & E1 & E2)%M_bind_inv Hs. eapply Hk, Hm; done. Qed.

#[export] Instance pres_ret {A} (a : A) : Preserves P (mret a).
Proof. intros s b s' E. unfold mret, M_ret in E. by injection E as <- <-. Qed.

#[export] Instance pres_undef {A} : Preserves P (fun _ => @Undef (A * St)).
Proof. by intros s b s'. Qed.

#[export] Instance pres_if {A} (b : bool) (m1 m2 : M A) :
  Preserves P m1 -> Preserves P m2 -> Preserves P (if b then m1 else m2).
Proof. by destruct b. Qed.

#[export] Instance pres_lift {A} (f : World -> res A) : Preserves P (lift f).
Proof. by intros s b s' (a & _ & [= <- <-])%res_bind_inv. Qed.

#[export] Instance pres_get {A} (f : St -> A) : Preserves P (get f).
Proof. intros s b s' E. unfold get in E. by injection E as <- <-. Qed.

#[export] Instance pres_counter_val c : Preserves P (counter_val c).
Proof. apply _. Qed.

#[export] Instance pres_on_world f : WorldStep P f -> Preserves P (on_world f).
Proof. intros Hf s b s' E. unfold on_world in E. injection E as <- <-. apply world_step. Qed.

#[export] Instance pres_run_world {A} (f : World -> res (World * A)) :
  WorldRun P f -> Preserves P (run_world f).
Proof. intros Hf s b s' ([w a] & E & [= <- <-])%res_bind_inv. by eapply world_run. Qed.

Context `{!GsFree P}.

#[export] Instance pres_add_gstat code key n : Preserves P (add_gstat code key n).
Proof.
  intros s b s' (v & _ & (v' & _ & (d & _ & [= <- <-])%res_bind_inv)%res_bind_inv)%res_bind_inv.
  apply gs_free.
Qed.

#[export] Instance pres_add_gstat_double code key x : Preserves P (add_gstat_double code key x).
Proof.
  intros s b s' (v & _ & (v' & _ & (d & _ & [= <- <-])%res_bind_inv)%res_bind_inv)%res_bind_inv.
  apply gs_free.
Qed.

(** The files the engine writes itself. *)
Context `{Hlog : !forall t, WorldStep P (fun w => append_file w (mutation_results_path g) t)}.
Context `{Hstats : !forall t, WorldStep P (fun w => write_file w (GSTATS_PATH g) t)}.

#[export] Instance pres_fprintf t : Preserves P (fprintf t).
Proof. apply _. Qed.

#[export] Instance pres_flush : Preserves P flush_stats.
Proof. intros s b s' E. unfold flush_stats in E. injection E as <- <-. exact (Hstats _ s). Qed.

#[export] Instance pres_open : Preserves P open_stats.
Proof.
  intros s b s' E Hs. unfold open_stats, open_GStats in E.
  pose proof (Hstats (default "" (read_file (world s) (GSTATS_PATH g)) ++ "") s Hs) as H1.
  fold (append_file (world s) (GSTATS_PATH g) "") in H1.
  destruct (xmlParse _); [injection E as <- <-; by apply gs_free|].
  destruct (xmlNewTextChild _ _ _ _) as [d n]. injection E as <- <-. apply gs_free.
  exact (Hstats _ _ H1).
Qed.

#[export] Instance pres_print_field l p t : Preserves P (print_field l p t).
Proof. destruct p; apply _. Qed.

#[export] Instance pres_print_error e i : Preserves P (printValgrindError e i).
Proof. unfold printValgrindError. destruct (location e); apply _. Qed.

#[export] Instance pres_print_errors es i : Preserves P (print_errors es i).
Proof. revert i. induction es; intros i; apply _. Qed.

#[export] Instance pres_print_result code r : Preserves P (printValgrindResult code r).
Proof. unfold printValgrindResult. apply _. Qed.

(** Valgrind runs with the environment changed. *)
Context `{Henv : !forall v x, WorldStep P (fun w => setenv w v x)}.
Context `{Hval : !forall args, WorldStep P (fun w => (startprogram w ("valgrind" :: args) None 1).1)}.

#[export] Instance pres_gen_valgrind cwd dir str cfg : Preserves P (genValgrindResult cwd dir str cfg).
Proof. unfold genValgrindResult. apply _. Qed.
End preserves.

(** ** Reasoning about the counters

    [Keeps m]: [m] does not change the counters.  [post f m Q]: from counters
    [f], whenever [m] returns, [Q] holds of its value and the new counters. *)

Definition counters_are (f : counters) (s : St) : Prop := ints (fom s) = f.
Abbreviation Keeps m := (forall f, Preserves (counters_are f) m).

#[export] Instance counters_world f : WorldFree (counters_are f).
Proof. by intros w s. Qed.
#[export] Instance counters_gs f : GsFree (counters_are f).
Proof. by intros d s. Qed.

Definition post {A} (f : counters) (m : M A) (Q : A -> counters -> Prop) : Prop :=
  forall s a s', ints (fom s) = f -> m s = Ok (a, s') -> Q a (ints (fom s')).

Definition bump (c : counter) (n : Z) (f : counters) : counters := set_counter c (f c + n) f.

Lemma post_bind {A B} f (m : M A) (k : A -> M B) R Q :
  post f m R -> (forall a f', R a f' -> post f' (k a) Q) -> post f (m ≫= k) Q.
Proof.
  intros Hm Hk s b s' Hf (a & s1 & E1 & E2)%M_bind_inv. eapply Hk; [by eapply Hm|done|done].
Qed.

Lemma post_mono {A} f (m : M A) (R Q : A -> counters -> Prop) :
  post f m R -> (forall a f', R a f' -> Q a f') -> post f m Q.
Proof. intros Hm HRQ s a s' Hf E. eapply HRQ, Hm; done. Qed.

Lemma post_keeps {A} f (m : M A) (Q : A -> counters -> Prop) :
  Keeps m -> (forall a, Q a f) -> post f m Q.
Proof. intros Hm HQ s a s' Hf E. rewrite (Hm f s a s' E Hf). apply HQ. Qed.

Lemma post_bind_keeps {A B} f (m : M A) (k : A -> M B) Q :
  Keeps m -> (forall a, post f (k a) Q) -> post f (m ≫= k) Q.
Proof.
  intros Hm Hk. eapply (post_bind _ _ _ (fun _ f' => f' = f)); [by apply post_keeps|].
  by intros a f' ->.
Qed.

Lemma post_bind_lift {A B} f (h : World -> res A) (k : A -> M B) Q :
  (forall w a, h w = Ok a -> post f (k a) Q) -> post f (lift h ≫= k) Q.
Proof.
  intros Hk s b s' Hf (a & s1 & E & Ek)%M_bind_inv.
  apply res_bind_inv in E as (a' & Eh & [= <- <-]). by eapply Hk.
Qed.

Lemma post_add_int f c n (Q : unit -> counters -> Prop) : Q tt (bump c n f) -> post f (add_int c n) Q.
Proof.
  intros HQ s [] s' <- (v & (-> & _)%chk_inv & E)%res_bind_inv.
  unfold set_int in E. by injection E as <-.
Qed.

Lemma post_bind_add_int {A} f c n (k : unit -> M A) Q :
  post (bump c n f) (k tt) Q -> post f (add_int c n ≫= k) Q.
Proof.
  intros Hk. eapply (post_bind _ _ _ (fun _ f' => f' = bump c n f)); [by apply post_add_int|].
  by intros [] f' ->.
Qed.

Lemma post_bind_set_int {A} f c v (k : unit -> M A) Q :
  post (set_counter c v f) (k tt) Q -> post f (set_int c v ≫= k) Q.
Proof.
  intros Hk s b s' <- ([] & s1 & E1 & E)%M_bind_inv. unfold set_int in E1. injection E1 as <-.
  refine (Hk _ _ _ _ E). reflexivity.
Qed.

Lemma post_bind_val {A} f c (k : Z -> M A) Q :
  post f (k (f c)) Q -> post f (counter_val c ≫= k) Q.
Proof.
  intros Hk s b s' <- (v & s1 & E1 & E)%M_bind_inv. unfold counter_val, get in E1.
  injection E1 as <- <-. refine (Hk _ _ _ _ E). reflexivity.
Qed.

Lemma post_ret {A} f (a : A) (Q : A -> counters -> Prop) : Q a f -> post f (mret a) Q.
Proof. intros HQ s b s' <- E. unfold mret, M_ret in E. by injection E as <- <-. Qed.

#[export] Instance keeps_grow_non_trivial n f : Preserves (counters_are f) (grow_non_trivial n).
Proof.
  intros s b s'. unfold grow_non_trivial. case_match; [|by intros [= <- <-]].
  by intros (v & _ & [= <- <-])%res_bind_inv.
Qed.

#[export] Instance keeps_grow_survived n f : Preserves (counters_are f) (grow_survived n).
Proof.
  intros s b s'. unfold grow_survived. case_match; [|by intros [= <- <-]].
  by intros (v & _ & [= <- <-])%res_bind_inv.
Qed.

#[export] Instance keeps_store_non_trivial i m f : Preserves (counters_are f) (store_non_trivial i m).
Proof. by intros s b s' (l & _ & [= <- <-])%res_bind_inv. Qed.

#[export] Instance keeps_store_survived i m f : Preserves (counters_are f) (store_survived i m).
Proof. by intros s b s' (l & _ & [= <- <-])%res_bind_inv. Qed.

#[export] Instance keeps_set_original p f : Preserves (counters_are f) (set_original p).
Proof. intros s b s' E. unfold set_original in E. by injection E as <- <-. Qed.

(** ** The accounting of the verdicts *)

Definition nonneg (f : counters) : Prop :=
  forall c, c <> total_valgrind_errors -> c <> total_tests -> 0 <= f c.

(** Every mutant is killed or survives; survivors are equivalent, strongly or
    weakly damaging; weak damage has one cause; the killed ones that failed to
    run, the damaging ones and the trivial ones are among the killed; and the
    deviating ones are those counted under deviation in either verdict. *)
Record accounted (f : counters) : Prop := {
  acc_total : f total_mutants = f mutant_kill_count + f survived_count;
  acc_survived : f survived_count = f equivalent_mutants + f survived_SD + f survived_WD;
  acc_survived_WD : f survived_WD =
    f survived_WD_causedValgrindErrors + f survived_WD_caused_CFG_deviation;
  acc_killed_WD : f killed_WD = f killed_WD_causedValgrindErrors + f killed_WD_caused_CFG_deviation;
  acc_killed : f failed_injection + f killed_SD + f killed_WD <= f mutant_kill_count;
  acc_non_trivial : f failed_injection + f non_trivial_FOM_count + f dumb_mutants <= f mutant_kill_count;
  acc_survived_CFG : f survived_caused_CFG_deviation =
    f survived_SD + f survived_WD_caused_CFG_deviation;
  acc_CFG : f caused_CFG_deviation = f survived_caused_CFG_deviation + f killed_SD +
    f killed_WD_caused_CFG_deviation;
  acc_nonneg : nonneg f
}.


Lemma post_assoc {A B C} f (m : M A) (k1 : A -> M B) (k2 : B -> M C) Q :
  post f (m ≫= fun a => k1 a ≫= k2) Q -> post f ((m ≫= k1) ≫= k2) Q.
Proof.
  intros Hp s c s' Hf (b & s2 & (a & s1 & E1 & E2)%M_bind_inv & E3)%M_bind_inv.
  apply (Hp s c s' Hf). unfold mbind, M_bind in *. rewrite E1. simpl. rewrite E2. simpl. exact E3.
Qed.

Lemma post_bind_ret {A B} f (a : A) (k : A -> M B) Q : post f (k a) Q -> post f (mret a ≫= k) Q.
Proof. intros Hp s b s' Hf E. exact (Hp s b s' Hf E). Qed.

(** One step of a proof about the counters. *)
Ltac post_step :=
  lazymatch goal with
  | |- post _ (add_int _ _ ≫= _) _ => apply post_bind_add_int
  | |- post _ (incr _ ≫= _) _ => apply post_bind_add_int
  | |- post _ (set_int _ _ ≫= _) _ => apply post_bind_set_int
  | |- post _ (counter_val _ ≫= _) _ => apply post_bind_val
  | |- post _ (mret _ ≫= _) _ => apply post_bind_ret
  | |- post _ (lift _ ≫= _) _ => apply post_bind_lift; intros ? ? ?
  | |- post _ ((_ ≫= _) ≫= _) _ => apply post_assoc
  | |- post _ ((if ?b then _ else _) ≫= _) _ => destruct b eqn:?
  | |- post _ (match ?v with Some _ => _ | None => _ end ≫= _) _ => destruct v
  | |- post _ (_ ≫= _) _ => apply post_bind_keeps; [apply _|intros ?]
  | |- post _ (if ?b then _ else _) _ => destruct b eqn:?
  | |- post _ (match ?v with Some _ => _ | None => _ end) _ => destruct v
  | |- post _ (add_int _ _) _ => apply post_add_int
  | |- post _ (incr _) _ => apply post_add_int
  | |- post _ (mret _) _ => apply post_ret
  | |- post _ _ _ => apply post_keeps; [apply _|intros ?]
  end.

Lemma nonneg_set c v f :
  nonneg f -> 0 <= v \/ c = total_valgrind_errors \/ c = total_tests -> nonneg (set_counter c v f).
Proof.
  intros Hf Hv c' H1 H2. unfold set_counter. destruct (Nat.eqb_spec (counter_id c) (counter_id c')) as [E|E].
  - assert (c = c') as -> by (destruct c, c'; done). naive_solver.
  - by apply Hf.
Qed.

Lemma nonneg_bump c f : nonneg f -> nonneg (bump c 1 f).
Proof.
  intros Hf. destruct (decide (c = total_valgrind_errors \/ c = total_tests)) as [Hc|Hc].
  - apply nonneg_set; tauto.
  - apply nonneg_set; [done|]. left. specialize (Hf c). unfold nonneg in Hf. 
    assert (0 <= f c) by (apply Hf; tauto). lia.
Qed.

(** The counters when a mutant that ran is about to be judged. *)
Definition judged (f : counters) (cfgDev : double) : counters :=
  let f := bump total_mutants 1 f in
  if dlt d0 cfgDev then bump caused_CFG_deviation 1 f else f.

(** A mutant more, killed or not. *)
Definition one_more (f : counters) (killed : bool) (f' : counters) : Prop :=
  accounted f' /\ f' total_mutants = f total_mutants + 1 /\
  f' mutant_kill_count = f mutant_kill_count + (if killed then 1 else 0) /\
  f' survived_count = f survived_count + (if killed then 0 else 1).

Ltac account H :=
  let H1 := fresh in
  destruct H as [?? ?? ?? ?? H1];
  split; [split|split; [|split]];
  lazymatch goal with
  | |- nonneg _ => repeat first [exact H1 | apply nonneg_bump | apply nonneg_set; [|by auto]]
  | |- _ => cbv [bump set_counter counter_id Nat.eqb]; lia
  end.

Lemma killed_post f str file cwd dir cfg code cfgDev stats :
  accounted f ->
  post (judged f cfgDev) (killed_branch str file cwd dir cfg code cfgDev stats)
    (fun _ => one_more f true).
Proof.
  intros Ha. unfold killed_branch, judged. destruct (dlt d0 cfgDev); repeat post_step;
    repeat match goal with
    | E : context [_ && true] |- _ => rewrite andb_true_r in E
    | E : context [_ && false] |- _ => rewrite andb_false_r in E
    end; simplify_eq; try congruence; account Ha.
Qed.

Lemma survived_post f str file cwd dir cfg code cfgDev :
  accounted f -> cfgDev = d0 \/ dpos cfgDev ->
  post (judged f cfgDev) (survived_branch str file cwd dir cfg code cfgDev)
    (fun _ => one_more f false).
Proof.
  intros Ha Hdev. unfold survived_branch, note_deviation, judge_survivor, judged.
  assert (deq cfgDev d0 = negb (dlt d0 cfgDev)) as ->.
  { destruct Hdev as [->|Hp]; [done|]. by destruct (dpos_gt0 _ Hp) as [-> ->]. }
  destruct (dlt d0 cfgDev); repeat post_step;
    repeat match goal with
    | E : context [_ && negb true] |- _ => rewrite andb_false_r in E
    | E : context [_ && negb false] |- _ => rewrite andb_true_r in E
    | E : context [_ && true] |- _ => rewrite andb_true_r in E
    | E : context [_ && false] |- _ => rewrite andb_false_r in E
    | E : negb _ = true |- _ => apply negb_true_iff in E
    | E : negb _ = false |- _ => apply negb_false_iff in E
    end; simplify_eq; try congruence; account Ha.
Qed.

Lemma genResultsFOM_post f str makeDir file mv_dir cfg txl dir cwd :
  accounted f ->
  post f (genResultsFOM str makeDir file mv_dir cfg txl dir cwd)
    (fun _ f' => exists killed, one_more f killed f').
Proof.
  intros Ha. unfold genResultsFOM. cbv zeta. do 7 post_step.
  apply (post_bind _ _ _ (fun _ f' => exists killed, one_more f killed f')).
  2:{ intros ? f' Hf'. repeat post_step; exact Hf'. }
  post_step; [repeat post_step; exists true; account Ha|].
  post_step. apply post_bind_lift. intros w0 cfgDev Hdev.
  assert (cfgDev = d0 \/ dpos cfgDev) as Hd by (apply CFGEval.deviation_value in Hdev; tauto).
  apply (post_bind _ _ _ (fun _ f' => f' = judged f cfgDev)).
  { unfold judged. destruct (dlt d0 cfgDev); repeat post_step; done. }
  intros _ f' ->. do 4 post_step. post_step.
  - eapply post_mono; [by apply killed_post|]. intros ? ? ?. by exists true.
  - eapply post_mono; [by apply survived_post|]. intros ? ? ?. by exists false.
Qed.

Lemma inject_loop_post f srcDir target makeDir name mv_dir cfg txl dir cwd entries :
  accounted f ->
  post f (inject_loop srcDir target makeDir name mv_dir cfg txl dir cwd entries)
    (fun _ f' => accounted f' /\
       f' total_mutants = f total_mutants + Z.of_nat (List.length (List.filter (is_mutant name) entries))).
Proof.
  revert f. induction entries as [|e entries IH]; intros f Ha; simpl.
  { apply post_ret. split; [done|]. lia. }
  eapply post_bind_keeps; [apply _|intros _].
  apply (post_bind _ _ _ (fun _ f' => accounted f' /\
    f' total_mutants = f total_mutants + (if is_mutant name e then 1 else 0))).
  - destruct (is_mutant name e).
    + post_step. eapply post_mono; [by apply genResultsFOM_post|].
      intros _ f' (killed & Ha' & Ht & _). auto.
    + apply post_ret. split; [done|lia].
  - intros _ f' [Ha' Ht]. eapply post_mono; [by apply IH|]. intros _ f'' [Ha'' Ht'].
    split; [done|]. rewrite Ht', Ht. destruct (is_mutant name e); simpl; lia.
Qed.

Lemma accounted_init : accounted init_ints.
Proof. split; done. Qed.

(** ** Properties *)

(** C1: One mutant, one verdict.  Whenever [genResultsFOM] returns on results
    whose counters are consistent, they are consistent again with exactly one
    mutant more, counted either as killed or as a survivor: kills and survivors
    add up to the mutants, equivalent, strongly and weakly damaging survivors
    add up to the survivors, each weakly damaging mutant has one cause, and the
    mutants with control-flow deviation are those counted so. *)
Theorem genResultsFOM_accounts str makeDir file mv_dir cfg txl dir cwd s s' :
  accounted (ints (fom s)) ->
  genResultsFOM str makeDir file mv_dir cfg txl dir cwd s = Ok (tt, s') ->
  exists killed, one_more (ints (fom s)) killed (ints (fom s')).
Proof. intros Ha E. exact (genResultsFOM_post _ _ _ _ _ _ _ _ _ Ha s tt s' eq_refl E). Qed.

(** C6: The report of a source file covers its mutants: when [inject_mutations]
    returns, its counters are consistent and the number of mutants is the number
    of C files in the output directory other than the original and TXL's copy
    of it. *)
Theorem inject_mutations_accounts srcDir target makeDir name cfg txl dir cwd s s' entries :
  readdir (copy_file (world s) target (srcDir ++ "/" ++ name ++ ".original")) srcDir = Some entries ->
  inject_mutations srcDir target makeDir name cfg txl dir cwd s = Ok (tt, s') ->
  accounted (ints (fom s')) /\
  ints (fom s') total_mutants = Z.of_nat (List.length (List.filter (is_mutant name) entries)).
Proof.
  intros Hdir E. unfold inject_mutations in E.
  apply M_bind_inv in E as ([] & s1 & [= <-] & E). cbv zeta in E.
  apply M_bind_inv in E as ([] & s2 & E2 & E). unfold on_world in E2. injection E2 as <-.
  apply M_bind_inv in E as (l & s3 & E3 & E). unfold get in E3. injection E3 as <- <-.
  cbn [String.app] in Hdir. rewrite Hdir in E.
  refine (inject_loop_post init_ints _ _ _ _ _ _ _ _ _ _ accounted_init _ tt s' _ E). reflexivity.
Qed.

(** ** Buffers *)

(** The survivors and their number. *)
Definition survivors_are (l : list (option Mutant)) (n : Z) (s : St) : Prop :=
  survived (fom s) = l /\ ints (fom s) survived_count = n.

#[export] Instance survivors_world l n : WorldFree (survivors_are l n).
Proof. by intros w s. Qed.
#[export] Instance survivors_gs l n : GsFree (survivors_are l n).
Proof. by intros d s. Qed.

Lemma survivors_add_int l n c k : c <> survived_count -> Preserves (survivors_are l n) (add_int c k).
Proof.
  intros Hc s [] s' (v & _ & E)%res_bind_inv Hs. unfold set_int in E. injection E as <-.
  destruct Hs as [Hl Hn]. split; [done|]. cbn. unfold set_counter. by destruct c.
Qed.

Hint Extern 2 (Preserves (survivors_are _ _) (incr _)) =>
  (apply survivors_add_int; discriminate) : typeclass_instances.
Hint Extern 2 (Preserves (survivors_are _ _) (add_int _ _)) =>
  (apply survivors_add_int; discriminate) : typeclass_instances.

#[local] Instance survivors_judge l n str cwd dir cfg code cfgDev :
  Preserves (survivors_are l n) (judge_survivor str cwd dir cfg code cfgDev).
Proof.
  unfold judge_survivor. apply pres_bind; [apply _|intros vr]. cbv zeta. apply pres_bind; [apply _|intros ?].
  apply pres_bind; [case_match; apply _|intros ?]. apply _.
Qed.

#[local] Instance survivors_deviation l n cfgDev : Preserves (survivors_are l n) (note_deviation cfgDev).
Proof. unfold note_deviation. apply _. Qed.

(** C36: the buffer of survivors overflows.  It is enlarged when the number of survivors
    exceeds its size, one mutant too late: when the survivors fill the buffer (200 of them
    at first) and another one has been judged, the buffer still has the size it had, the
    record of the mutant is written at the index behind its last cell, and so the evaluation
    has no defined result. *)
Theorem survivor_overflow str file cwd dir cfg code cfgDev s s1 s2 vr :
  ints (fom s) survived_count = survived_buffer s ->
  Z.of_nat (List.length (survived (fom s))) = survived_buffer s ->
  note_deviation cfgDev s = Ok (tt, s1) -> judge_survivor str cwd dir cfg code cfgDev s1 = Ok (vr, s2) ->
  Z.of_nat (List.length (survived (fom s2))) = survived_buffer s /\
  (forall m, store_survived (survived_buffer s) m s2 = Undef) /\
  survived_branch str file cwd dir cfg code cfgDev s = Undef.
Proof.
  intros Hc Hl E1 E2.
  assert (survived_buffer s1 = survived_buffer s) as Hb.
  { unfold note_deviation in E1. destruct (negb (deq cfgDev d0)); [|unfold mret, M_ret in E1; by injection E1 as <-].
    apply res_bind_inv in E1 as (v & _ & E1). unfold set_int in E1. by injection E1 as <-. }
  assert (survivors_are (survived (fom s)) (survived_buffer s) s1) as H1 by (apply (preserve _ _ _ _ _ E1); [apply _|by split]).
  assert (survivors_are (survived (fom s)) (survived_buffer s) s2) as H2 by (apply (preserve _ _ _ _ _ E2); [apply _|done]).
  assert (forall m, store_survived (survived_buffer s) m s2 = Undef) as Hst.
  { intros m. unfold store_survived. rewrite (proj1 H2). unfold store. by rewrite decide_False by lia. }
  split; [by rewrite (proj1 H2)|]. split; [done|].
  unfold survived_branch, mbind, M_bind. rewrite E1. cbn [mbind res_bind]. unfold counter_val, get. cbn [mbind res_bind].
  unfold grow_survived. rewrite Hb, (proj2 H1), Z.ltb_irrefl. cbn [mbind res_bind]. rewrite E2. cbn [mbind res_bind].
  by rewrite Hst.
Qed.

Lemma grow_length b cells :
  0 <= b -> Z.of_nat (List.length cells) = b -> Z.of_nat (List.length (grow b cells)) = b * 2.
Proof.
  intros Hb Hl. unfold grow. rewrite length_app, length_take, length_replicate. lia.
Qed.

(** The buffer of non-trivial mutants does not overflow.  It is enlarged by
    the number of kills, which exceeds the number of non-trivial mutants; so
    when the buffer holds the mutants so far, recording one more succeeds, and
    the buffer keeps holding them. *)
Theorem non_trivial_buffer_safe s kills NTFC m :
  Z.of_nat (List.length (non_trivial_FOMS (fom s))) = non_trivial_FOM_buffer s ->
  0 <= NTFC <= non_trivial_FOM_buffer s -> NTFC < kills ->
  0 < non_trivial_FOM_buffer s -> in_int (non_trivial_FOM_buffer s * 2) ->
  exists s', (grow_non_trivial kills ;; store_non_trivial NTFC m) s = Ok (tt, s') /\
    Z.of_nat (List.length (non_trivial_FOMS (fom s'))) = non_trivial_FOM_buffer s' /\
    NTFC + 1 <= non_trivial_FOM_buffer s' /\
    non_trivial_FOMS (fom s') !! Z.to_nat NTFC = Some (Some m).
Proof.
  intros Hl Hn Hk Hpos Hint. unfold mbind, M_bind, grow_non_trivial.
  destruct (Z.ltb_spec (non_trivial_FOM_buffer s) kills) as [Hlt|Hge].
  - rewrite chk_ok by done. cbn [mbind res_bind]. unfold store_non_trivial. cbn [fom non_trivial_FOMS].
    pose proof (grow_length (non_trivial_FOM_buffer s) (non_trivial_FOMS (fom s)) ltac:(lia) Hl) as Hg.
    rewrite store_ok by lia. cbn [mbind res_bind]. eexists. split; [done|].
    cbn [fom with_fom non_trivial_FOMS non_trivial_FOM_buffer]. rewrite length_insert.
    split_and!; [done|lia|]. rewrite list_lookup_insert_eq; [done|lia].
  - unfold mbind, res_bind, store_non_trivial. rewrite store_ok by lia. cbn [mbind res_bind].
    eexists. split; [done|].
    cbn [fom with_fom non_trivial_FOMS non_trivial_FOM_buffer]. rewrite length_insert.
    split_and!; [done|lia|]. rewrite list_lookup_insert_eq; [done|lia].
Qed.

(** ** Damage *)

Lemma damage_loop_zero n i cells avg s r j m v :
  (j < n)%nat -> 0 <= i -> cells !! (Z.to_nat i + j)%nat = Some (Some m) -> m_valgrindResult m = Some v ->
  damage_loop n i cells 0 avg s <> Ok r.
Proof.
  revert i j avg s. induction n as [|n IH]; intros i j avg s Hj Hi Hc Hv E; [lia|]. simpl in E.
  destruct r as [d s']. apply M_bind_inv in E as (m' & s1 & E1 & E).
  apply res_bind_inv in E1 as (m'' & E1 & [= <- <-]).
  apply M_bind_inv in E as (d' & s2 & E2 & E). destruct j as [|j].
  - rewrite Nat.add_0_r in Hc. rewrite (load_ok _ _ _ Hi Hc) in E1. injection E1 as <-.
    simpl in E2. rewrite Hv in E2. apply M_bind_inv in E2 as (q & s3 & E2 & _). done.
  - revert E. apply (IH (i + 1) j); [lia|lia| |done].
    by replace (Z.to_nat (i + 1) + j)%nat with (Z.to_nat i + S j)%nat by lia.
Qed.

(** The average damage divides by zero.  When the mutants caused no memory
    errors beyond those of the original program, but one of the recorded ones
    has a Valgrind report all the same (the original's own errors suffice),
    computing the average damage is an integer division by zero: it does not
    return. *)
Theorem average_damage_undefined s r i m v :
  ints (fom s) total_valgrind_errors = 0 ->
  (i < Z.to_nat (ints (fom s) non_trivial_FOM_count))%nat ->
  non_trivial_FOMS (fom s) !! i = Some (Some m) -> m_valgrindResult m = Some v ->
  calculate_average_damage s <> Ok r.
Proof.
  intros Ht Hi Hc Hv E. destruct r as [d s']. unfold calculate_average_damage in E.
  apply M_bind_inv in E as (? & s1 & E1 & E).
  assert (fom s1 = fom s) as Hf.
  { unfold open_stats in E1. destruct (open_GStats _ _ _). by injection E1 as _ <-. }
  apply M_bind_inv in E as (r & s2 & E2 & E). unfold get in E2. injection E2 as <- <-. rewrite Hf in E.
  apply M_bind_inv in E as (avg & s3 & E3 & E). apply M_bind_inv in E as (avg' & s4 & E4 & E).
  rewrite Ht in E4. revert E4. by apply (damage_loop_zero _ _ _ _ _ _ i m v).
Qed.

(** Errors of the original program count against a killed mutant.  The
    killed branch subtracts the original's errors and then compares the rest with
    them again: a mutant whose report has exactly the original's errors, and
    whose control flow does not deviate, is recorded as weakly damaging through
    memory errors whenever the original has errors, while one with twice as many
    errors is recorded as harmless. *)
Theorem killed_errors_compared_twice str file cwd dir cfg code stats r s s' :
  (forall w, valgrindXML_evaluate w
     (cwd ++ "/mutation_out/" ++ dir ++ "/valgrind_eval_" ++ str ++ ".xml") (testingFramework cfg) =
     Ok (Some r)) ->
  0 < PUTValgrindErrors g ->
  killed_branch str file cwd dir cfg code d0 stats s = Ok (tt, s') ->
  (valgrind_error_count r = PUTValgrindErrors g ->
     ints (fom s') killed_WD_causedValgrindErrors = ints (fom s) killed_WD_causedValgrindErrors + 1) /\
  (valgrind_error_count r = 2 * PUTValgrindErrors g ->
     ints (fom s') killed_WD = ints (fom s) killed_WD /\
     ints (fom s') killed_SD = ints (fom s) killed_SD).
Proof.
  intros Hr Hpos E.
  assert (post (ints (fom s)) (killed_branch str file cwd dir cfg code d0 stats) (fun _ f' =>
    (valgrind_error_count r = PUTValgrindErrors g ->
       f' killed_WD_causedValgrindErrors = ints (fom s) killed_WD_causedValgrindErrors + 1) /\
    (valgrind_error_count r = 2 * PUTValgrindErrors g ->
       f' killed_WD = ints (fom s) killed_WD /\ f' killed_SD = ints (fom s) killed_SD))) as Hp;
    [|exact (Hp s tt s' eq_refl E)].
  unfold killed_branch. do 7 post_step. unfold genValgrindResult. cbv zeta.
  do 3 (apply post_assoc; apply post_bind_keeps; [apply _|intros _]).
  apply post_bind_lift. intros wv vr Hvr. rewrite Hr in Hvr. injection Hvr as <-.
  change (dlt d0 d0) with false. repeat (cbv zeta; post_step);
    cbn [valgrind_error_count] in *; rewrite ?andb_false_r in *; simplify_eq;
    cbv [bump set_counter counter_id Nat.eqb];
    repeat match goal with
    | E : negb (_ =? _) = true |- _ => apply negb_true_iff, Z.eqb_neq in E
    | E : negb (_ =? _) = false |- _ => apply negb_false_iff, Z.eqb_eq in E
    end;
    destruct (Z.ltb_spec (PUTValgrindErrors g) (valgrind_error_count r)); lia.
Qed.
End controller.
Arguments get {X A} f.

(** ** Witnesses *)

(** The tests write the report of a kill; the other programs do nothing. *)
Definition example_os : OS := {|
  os_run := fun w args _ =>
    (if bool_decide (head args = Some "make") then <["temp" := "1 1 3 2"]> (fs w) else fs w,
     fun _ => Reaped (Exited 0))
|}.

Definition example_dirs : Dirs := {|
  readdir := fun _ _ =>
    Some [("CRCR_1.c", IsFile); (".", IsDir); ("heap.c", IsFile); ("txl_original.c", IsFile);
          ("make_logs.log", IsFile)];
  stat := fun _ _ => IsFile;
  lstat := fun _ _ => IsFile
|}.

Definition no_xml : LibXml := ListXml.list_xml (fun _ => None) (fun _ => "").

Definition example_globals (errors : Z) : Globals := mk_Globals errors 0 "log" "mk" "temp" "gstats.xml".

Definition example_cfg : Config :=
  mk_Config "PUTs/heap" ["heap.c"] 1 (Str "CuTest.c") (Some 1) Indet (Some "test") "put/tests" None 1.

Definition example_state : St (X := no_xml) :=
  mk_St (X := no_xml) (world_of {[ "temp" := "0" ]} ∅) (mk_gstats (X := no_xml) [] init_aggregates)
    init_FOMResult 200 200.

Lemma genResultsFOM_accounts_witness :
  exists s' killed,
    genResultsFOM (X := no_xml) (H := example_os) (fun _ => "0.00") 0 (example_globals 0)
      "CRCR_1.c" "put" "out/CRCR_1.c" "out/heap.c.original" example_cfg "txl" "heap" "/w" example_state =
      Ok (tt, s') /\ one_more (ints (fom example_state)) killed (ints (fom s')).
Proof.
  destruct (is_ok_inv (genResultsFOM (X := no_xml) (H := example_os) (fun _ => "0.00") 0 (example_globals 0)
    "CRCR_1.c" "put" "out/CRCR_1.c" "out/heap.c.original" example_cfg "txl" "heap" "/w" example_state)) as [[[] s'] E];
    [vm_compute; reflexivity|].
  destruct (genResultsFOM_accounts (X := no_xml) (H := example_os) (fun _ => "0.00") 0 (example_globals 0)
    _ _ _ _ _ _ _ _ example_state s' accounted_init E) as [killed Hk].
  exists s', killed. split; [exact E|exact Hk].
Defined.

Lemma inject_mutations_accounts_witness :
  exists s', inject_mutations (X := no_xml) (H := example_os) (H0 := example_dirs) (fun _ => "0.00") 0
      (example_globals 0) "out" "put/heap.c" "put" "heap.c" example_cfg "txl" "heap" "/w" example_state =
      Ok (tt, s') /\ ints (fom s') total_mutants = 1 /\
      ints (fom s') mutant_kill_count + ints (fom s') survived_count = 1.
Proof.
  destruct (is_ok_inv (inject_mutations (X := no_xml) (H := example_os) (H0 := example_dirs) (fun _ => "0.00") 0
    (example_globals 0) "out" "put/heap.c" "put" "heap.c" example_cfg "txl" "heap" "/w" example_state)) as [[[] s'] E];
    [vm_compute; reflexivity|].
  destruct (inject_mutations_accounts (X := no_xml) (H := example_os) (H0 := example_dirs)
    (fun _ => "0.00") 0 (example_globals 0) _ _ _ _ _ _ _ _ example_state s' _ eq_refl E) as [Ha Ht].
  exists s'. split; [exact E|]. split; [exact Ht|].
  rewrite <- (acc_total _ Ha). exact Ht.
Defined.

(** 200 survivors. *)
Definition full_state : St (X := no_xml) :=
  mk_St (X := no_xml) (world_of {[ "temp" := "0" ]} ∅) (mk_gstats (X := no_xml) [] init_aggregates)
    (mk_FOMResult None (replicate 200 None) (replicate 200 None)
       (set_counter survived_count 200 init_ints)) 200 200.

Lemma survivor_overflow_witness :
  survived_branch (X := no_xml) (H := example_os) (example_globals 0)
    "CRCR_1.c" "out/CRCR_1.c" "/w" "heap" example_cfg "CRCR" d0 full_state = Undef.
Proof.
  destruct (judge_survivor (X := no_xml) (H := example_os) (example_globals 0) "CRCR_1.c" "/w" "heap" example_cfg "CRCR" d0 full_state)
    as [[vr s2]| | |] eqn:E; [|vm_compute in E; discriminate E..].
  apply (survivor_overflow (X := no_xml) (H := example_os) (example_globals 0) "CRCR_1.c" "out/CRCR_1.c" "/w" "heap" example_cfg
    "CRCR" d0 full_state full_state s2 vr); [reflexivity|reflexivity|reflexivity|exact E].
Defined.

Definition example_mutant (v : option ValgrindResult) : Mutant :=
  mk_Mutant "CRCR" "out/CRCR_1.c" (Some d1) (Some [2]) (Some 1) v d0 d1.

Lemma non_trivial_buffer_safe_witness :
  exists s', (M_bind _ _ (fun _ => store_non_trivial 0 (example_mutant None)) (grow_non_trivial 1))
    example_state = Ok (tt, s') /\
    non_trivial_FOMS (fom s') !! 0%nat = Some (Some (example_mutant None)).
Proof.
  destruct (non_trivial_buffer_safe (X := no_xml) example_state 1 0 (example_mutant None))
    as (s' & E & _ & _ & Hm); [reflexivity|cbn; lia|lia|cbn; lia|by vm_compute|].
  exists s'. split; [exact E|exact Hm].
Defined.

(** One non-trivial mutant, with a report that has no errors of its own. *)
Definition damage_state : St (X := no_xml) :=
  mk_St (X := no_xml) (world_of ∅ ∅) (mk_gstats (X := no_xml) [] init_aggregates)
    (mk_FOMResult None [Some (example_mutant (Some (mk_result [] 0 1)))] []
       (set_counter total_mutants 1 (set_counter non_trivial_FOM_count 1 init_ints))) 1 1.

Lemma average_damage_undefined_witness :
  is_ok (calculate_average_damage (X := no_xml) (example_globals 1) damage_state) = false.
Proof.
  apply not_ok. intros r. apply (average_damage_undefined (X := no_xml) (example_globals 1) damage_state r 0%nat
    (example_mutant (Some (mk_result [] 0 1))) (mk_result [] 0 1)); [reflexivity|cbn; lia|reflexivity..].
Defined.

(** The report of Valgrind with three errors, for an original with three. *)
Definition report_state : St (X := example_xml) :=
  mk_St (X := example_xml) (world_of ∅ ∅) (mk_gstats (X := example_xml) example_report init_aggregates)
    init_FOMResult 200 200.

Lemma killed_errors_compared_twice_witness :
  exists s', killed_branch (X := example_xml) (H := example_os) (example_globals 3)
      "CRCR_1.c" "out/CRCR_1.c" "/w" "heap" example_cfg "CRCR" d0 [1; 1; 3; 2] report_state = Ok (tt, s') /\
    ints (fom s') killed_WD_causedValgrindErrors = 1.
Proof.
  destruct (is_ok_inv (killed_branch (X := example_xml) (H := example_os) (example_globals 3)
    "CRCR_1.c" "out/CRCR_1.c" "/w" "heap" example_cfg "CRCR" d0 [1; 1; 3; 2] report_state)) as [[[] s'] E];
    [vm_compute; reflexivity|].
  destruct (killed_errors_compared_twice (X := example_xml) (H := example_os) (example_globals 3)
    "CRCR_1.c" "out/CRCR_1.c" "/w" "heap" example_cfg "CRCR" [1; 1; 3; 2]
    (mk_result [mk_error (mk_info 3 (Str "InvalidRead") (Str "Invalid read") (Str "Address 0x0")
       (Str "get :: test_get")) (Some [None; None; None])] 3 1) report_state s') as [H1 _];
    [intros w; reflexivity|reflexivity|exact E|].
  exists s'. split; [exact E|]. exact (H1 eq_refl).
Defined.

End Controller.
