(* ===== verification/Engine.v ===== *)
(** * The engine on a project (src/controller.c, [process_source_file] to [main])

    [main] reads the configuration, copies the project, measures the original
    program and then mutates every source file in place.  Text printed on the
    terminal is not modelled. *)

From Stdlib Require Import Ascii String.
From S2P Require Import Prelude Double CString System CFGEval LibXml GStats ValgrindEval Process Config Controller.

Module Engine.
Import GStats ValgrindEval Process Config Controller.

Section engine.
Context {X : LibXml} `{OS} `{Dirs} `{LibConfig}.
Context (print_f2 print_G : double -> string) (junk : Z).

(** ** One source file *)

(** The command is built in a buffer of 200 bytes and run by the shell. *)
Definition filterMutants (cwd : string) : M unit :=
  let args_filter := cwd ++ "/avoidDeadMutants.sh" in
  if strlen args_filter <? 200 then
    on_world (fun w => (run_child w ["sh"; "-c"; args_filter] Inherit).1)
  else fun _ => Undef.

Definition with_make_logs (g : Globals) (path : string) : Globals :=
  mk_Globals (PUTValgrindErrors g) (verbose_mode g) (mutation_results_path g) path
    (temp_results_path g) (GSTATS_PATH g).

(** [create_update_aggr_results(key, get_gstat_value_aggr_results(key) + n)] *)
Definition add_aggr (key : string) (n : Z) : M unit := fun s =>
  v ← get_gstat_value_aggr_results (gs s) key;
  v ← chk (v + n);
  d ← create_update_aggr_results (gs s) key v;
  Ok (tt, with_gs d s).

Definition derive_stats : M unit := fun s =>
  d ← generate_derived_stats print_G (gs s); Ok (tt, with_gs d s).

(** What follows the injections when there were mutants. *)
Definition report_results (g : Globals) (target : string) : M unit :=
  r ← get fom;
  match original_source_file r with
  | None => fun _ => Undef
  | Some original =>
      on_world (fun w => copy_file w original target) ;;
      average_damage ← calculate_average_damage g;
      open_stats g ;;
      add_aggr "total_tests_run" (ints r total_tests) ;;
      flush_stats g ;;
      derive_stats ;;
      flush_stats g ;;
      on_world (fun w => (startprogram w ["cat"; mutation_results_path g] None 0).1)
  end.

Definition process_source_file (g : Globals) (cwd copy_put target : string) (user_config : Config) :
    M unit :=
  on_world (fun w => remove_file w (mutation_results_path g)) ;;
  on_world (fun w => write_file w (temp_results_path g) "0") ;;
  match strrchr target "/" with
  | None => fun _ => Undef
  | Some dif =>
      let original_file_Name := strndup (str_from target (dif + 1)) (strlen target - dif) in
      let original_file_Name_dir := strndup (str_from target (dif + 1)) (strlen target - (dif + 3)) in
      let makeDir := cwd ++ "/" ++ copy_put in
      let mut_out_dir := cwd ++ "/mutation_out/" ++ original_file_Name_dir in
      let args3 := mut_out_dir ++ "/txl_original.c" in
      let args_txl := ["txl"; (cwd ++ "/mutator.Txl")%string; "-size"; "2048"; "-o"; args3; target;
                       "-"; "-mut_out"; mut_out_dir] in
      on_world (fun w => mkdir w mut_out_dir) ;;
      on_world (fun w => (startprogram w args_txl None 0).1) ;;
      filterMutants cwd ;;
      let g := with_make_logs g (mut_out_dir ++ "/make_logs.log") in
      on_world (fun w => append_file w (make_logs_dir g) "") ;;
      inject_mutations print_f2 junk g mut_out_dir target makeDir original_file_Name user_config
        args3 original_file_Name_dir cwd ;;
      total ← counter_val total_mutants;
      if 0 <? total then report_results g target else mret tt
  end.

(** ** Directories *)

Definition is_c_file (name : string) : bool :=
  match strrchr name "." with
  | Some dot => String.eqb (str_from name dot) ".c"
  | None => false
  end.

(** The entries of a directory, [sub] being the treatment of a subdirectory.  The names
    are looked up in the current directory; the result of a failing [lstat] is not
    checked. *)
Fixpoint directory_entries (g : Globals) (cwd copy_put : string) (user_config : Config)
    (dir : string) (sub : string -> M unit) (entries : list (string * ftype)) : M unit :=
  match entries with
  | [] => mret tt
  | (name, _) :: entries =>
      ty ← get (fun s => lstat (world s) (resolve (world s) name));
      match ty with
      | NoStat => fun _ => Undef
      | IsDir =>
          if String.eqb "." name || String.eqb ".." name then mret tt
          else sub (dir ++ "/" ++ name)%string
      | IsFile =>
          if is_c_file name then
            process_source_file g cwd copy_put (dir ++ "/" ++ name) user_config
          else mret tt
      end ;;
      directory_entries g cwd copy_put user_config dir sub entries
  end.

Fixpoint process_source_directory (fuel : nat) (g : Globals) (cwd copy_put : string)
    (user_config : Config) (dir : string) : M unit :=
  match fuel with
  | O => fun _ => OutOfFuel
  | S fuel =>
      entries ← get (fun s => readdir (world s) dir);
      match entries with
      | None => mret tt
      | Some entries =>
          on_world (fun w => chdir w dir) ;;
          directory_entries g cwd copy_put user_config dir
            (process_source_directory fuel g cwd copy_put user_config) entries ;;
          on_world (fun w => chdir w "..")
      end
  end.

(** ** The project *)

(** The test library of the copy is replaced by the engine's. *)
Definition install_library (copy_put : string) (preset_project : Z) (user_config : Config) : M unit :=
  if testingFramework user_config =? 1 then
    match CuTestLibSource user_config with
    | Str lib =>
        let cutest_source := copy_put ++ "/" ++ lib in
        match CuTestVersion user_config with
        | Some v =>
            if v =? 1 then on_world (fun w => copy_file w "CuTest/CuTest.forked.c" cutest_source)
            else on_world (fun w => copy_file w "CuTest/CuTest.forked2.c" cutest_source)
        | None => fun _ => Undef
        end
    | _ => fun _ => Undef
    end
  else if testingFramework user_config =? 2 then
    match CheckTestLibSource user_config with
    | Indet => fun _ => Undef
    | Null => mret tt
    | Str lib =>
        let check_source := copy_put ++ "/" ++ lib in
        if preset_project =? 1
        then on_world (fun w => copy_file w "libcheck-presets/check.c.gstreamer" check_source)
        else on_world (fun w => copy_file w "libcheck/src/check.c" check_source)
    end
  else mret tt.

Fixpoint process_sources (fuel : nat) (g : Globals) (cwd copy_put : string) (user_config : Config)
    (sources : list string) : M unit :=
  match sources with
  | [] => mret tt
  | source :: sources =>
      let path := cwd ++ "/" ++ copy_put ++ "/" ++ source in
      ty ← get (fun s => stat (world s) path);
      match ty with
      | NoStat => mret tt
      | IsDir => process_source_directory fuel g cwd copy_put user_config path
      | IsFile => process_source_file g cwd copy_put path user_config
      end ;;
      process_sources fuel g cwd copy_put user_config sources
  end.

Definition run_project (fuel : nat) (cwd : string) (preset_project verbose : Z) (user_config : Config) :
    M Z :=
  match strrchr (sourceRootDir user_config) "/" with
  | None => fun _ => Undef
  | Some dif =>
      let copy_put := strndup (str_from (sourceRootDir user_config) (dif + 1))
                        (strlen (sourceRootDir user_config) - dif) in
      on_world (fun w => cleanUp w copy_put) ;;
      on_world (fun w => cleanUp w "mutation_out") ;;
      on_world (fun w => mkdir w "mutation_out") ;;
      on_world (fun w => mkdir w "mutation_out/PUT") ;;
      on_world (fun w => (startprogram w ["cp"; "-r"; sourceRootDir user_config; copy_put] None 0).1) ;;
      on_world (fun w => setenv w "IS_MUTATE" "false") ;;
      run_world (fun w => runMake w copy_put None (makeTestTarget user_config) None "") ;;
      on_world (fun w => extractCFGBranches w copy_put "mutation_out/PUT" None) ;;
      valgrindResultPUT ← genValgrindResult cwd "PUT" "PUT" user_config;
      let errors := match valgrindResultPUT with Some r => valgrind_error_count r | None => 0 end in
      on_world (fun w => setenv w "IS_MUTATE" "true") ;;
      install_library copy_put preset_project user_config ;;
      let results := cwd ++ "/" ++ copy_put ++ "/mutation_results.log" in
      let temp := cwd ++ "/" ++ copy_put ++ "/temp_results.log" in
      on_world (fun w => setenv w "MUTATION_RESULTS_PATH" results) ;;
      on_world (fun w => setenv w "TEMP_RESULTS_PATH" temp) ;;
      on_world (fun w => setenv w "IS_MUTATE" "true") ;;
      process_sources fuel
        (mk_Globals errors verbose results "" temp (cwd ++ "/gstats.xml")) cwd copy_put user_config
        (source user_config) ;;
      on_world (fun w => cleanUp w copy_put) ;;
      mret 0
  end.

(** [argv[i]], read as a string. *)
Definition arg (argv : list string) (i : nat) : M string :=
  match argv !! i with Some a => mret a | None => fun _ => Undef end.

Definition exit {A} (code : Z) : M A := fun _ => Exit code.

(** The commands on the statistics file; both end the process. *)
Definition gstats_command (cwd a : string) : M unit :=
  let g := mk_Globals 0 0 "" "" "" (cwd ++ "/gstats.xml") in
  open_stats g ;;
  if String.eqb a "--gstats-clear" then
    rv ← get (fun s => (clear_GStats (world s) (GSTATS_PATH g)).2);
    if rv =? 0 then exit 0 else exit 1
  else if String.eqb a "--gstats-collect" then
    on_world (fun w => (startprogram w ["cat"; GSTATS_PATH g] None 0).1) ;;
    exit 0
  else mret tt.

(** [getcwd] is taken to succeed. *)
Definition main (fuel : nat) (argv : list string) : M Z :=
  cwd ← get (fun s => pwd (world s));
  (if Nat.eqb (List.length argv) 2 then
     a ← arg argv 1;
     gstats_command cwd a
   else mret tt) ;;
  a ← arg argv 1;
  let preset := String.eqb a "--gstreamer" in
  let args_index := if preset then 2%nat else 1%nat in
  a ← arg argv args_index;
  let verbose := String.eqb a "-v" in
  (if verbose then p ← arg argv 2; lift (fun w => processConfigFile w p) else mret None) ;;
  let args_index := if verbose then S args_index else args_index in
  path ← arg argv args_index;
  user_config ← lift (fun w => processConfigFile w path);
  match user_config with
  | None => exit 1
  | Some user_config =>
      run_project fuel cwd (if preset then 1 else 0) (if verbose then 1 else 0) user_config
  end.

(** ** The source file is restored *)

(** The content of a file. *)
Definition holds (p c : string) (s : St) : Prop := fs (world s) !! p = Some c.

(** [cp] copies a file; the other programs leave the source file and its backup
    alone, and the engine's own files are other files. *)
Record frame (g : Globals) (target backup : string) : Prop := {
  fr_cp : forall w a b, (os_run w ["cp"; a; b] Inherit).1 =
    match fs w !! a with Some c => <[b := c]> (fs w) | None => fs w end;
  fr_others : forall w args out p, p = target \/ p = backup -> head args <> Some "cp" ->
    (os_run w args out).1 !! p = fs w !! p;
  fr_backup : target <> backup;
  fr_files : forall p q, p = target \/ p = backup ->
    q = mutation_results_path g \/ q = make_logs_dir g \/ q = temp_results_path g \/ q = GSTATS_PATH g ->
    q <> p
}.

(** The files that the engine writes itself. *)
Definition own (g : Globals) (q : string) : Prop :=
  q = mutation_results_path g \/ q = make_logs_dir g \/ q = temp_results_path g \/ q = GSTATS_PATH g.

(** The programs that are called during an evaluation: none copies, and bash is given the
    script by its name in the current directory. *)
Definition called (a : string) (args : list string) : bool :=
  negb (String.eqb a "cp") &&
  (negb (String.eqb a "bash") || match args with x :: _ => String.eqb x "GenCFGBranches.sh" | [] => false end).

(** What the evaluation of a mutant does to the world does not end [P]. *)
Record respects (g : Globals) (P : World -> Prop) : Prop := {
  re_same : forall w w', fs w' = fs w -> pwd w' = pwd w -> P w -> P w';
  re_program : forall w a args out, called a args = true -> P w -> P (with_fs w (os_run w (a :: args) out).1);
  re_write : forall w q t, own g q -> P w -> P (write_file w q t);
  re_remove : forall w, P w -> P (remove_file w (mutation_results_path g))
}.

Lemma startprogram_world w args out r :
  exists o, (startprogram w args out r).1 = with_fs w (os_run w args o).1.
Proof.
  unfold startprogram, run_child. set (o := if r =? 1 then _ else _). exists o.
  destruct (os_run w args o). repeat case_match; reflexivity.
Qed.

(** [P] holds, and, if that is asked for, no mutant was found equivalent. *)
Definition kept (P : World -> Prop) (b : bool) (s : St) : Prop :=
  P (world s) /\ (b = true -> ints (fom s) equivalent_mutants = 0).

Section keeping.
Context (g : Globals) (P : World -> Prop) (HP : respects g P) (b : bool).

#[local] Instance kept_gs : GsFree (kept P b).
Proof. by intros d s. Qed.

Lemma kept_world f : (forall w, P w -> P (f w)) -> WorldStep (kept P b) f.
Proof. intros Hf s [Hw Hb]. split; [by apply Hf|done]. Qed.

#[local] Instance kept_env v x : WorldStep (kept P b) (fun w => setenv w v x).
Proof. apply kept_world. intros w. by apply (re_same _ _ HP). Qed.

#[local] Instance kept_mkdir d : WorldStep (kept P b) (fun w => mkdir w d).
Proof. apply kept_world. intros w. by apply (re_same _ _ HP). Qed.

#[local] Instance kept_program a args out r :
  TCEq (called a args) true -> WorldStep (kept P b) (fun w => (startprogram w (a :: args) out r).1).
Proof.
  intros Ha%TCEq_eq. apply kept_world. intros w Hw. destruct (startprogram_world w (a :: args) out r) as [o ->].
  by apply (re_program _ _ HP).
Qed.

#[local] Instance kept_log t : WorldStep (kept P b) (fun w => append_file w (mutation_results_path g) t).
Proof. apply kept_world. intros w. apply (re_write _ _ HP). by left. Qed.

#[local] Instance kept_make_log t : WorldStep (kept P b) (fun w => append_file w (make_logs_dir g) t).
Proof. apply kept_world. intros w. apply (re_write _ _ HP). by right; left. Qed.

#[local] Instance kept_stats t : WorldStep (kept P b) (fun w => write_file w (GSTATS_PATH g) t).
Proof. apply kept_world. intros w. apply (re_write _ _ HP). by do 3 right. Qed.

#[local] Instance kept_temp t : WorldStep (kept P b) (fun w => write_file w (temp_results_path g) t).
Proof. apply kept_world. intros w. apply (re_write _ _ HP). by do 2 right; left. Qed.

#[local] Instance kept_remove : WorldStep (kept P b) (fun w => remove_file w (mutation_results_path g)).
Proof. apply kept_world, (re_remove _ _ HP). Qed.

Lemma kept_fom {A} (m : M A) :
  (forall s a s', m s = Ok (a, s') -> world s' = world s /\ ints (fom s') equivalent_mutants = ints (fom s) equivalent_mutants) -> Preserves (kept P b) m.
Proof. intros Hm s a s' E [Hs Hb]. destruct (Hm _ _ _ E) as [Ew Ei]. split; by rewrite ?Ew, ?Ei. Qed.

Lemma other_counter k v s : Nat.eqb (counter_id k) (counter_id equivalent_mutants) = false -> set_counter k v (ints (fom s)) equivalent_mutants = ints (fom s) equivalent_mutants.
Proof. intros Hk. unfold set_counter. by rewrite Hk. Qed.

#[local] Instance kept_set_int k v : TCEq (Nat.eqb (counter_id k) (counter_id equivalent_mutants)) false -> Preserves (kept P b) (set_int k v).
Proof. intros Hk%TCEq_eq. apply kept_fom. intros s a s' E. unfold set_int in E. injection E as <- <-. split; [done|]. by apply other_counter. Qed.

#[local] Instance kept_add_int k n : TCEq (Nat.eqb (counter_id k) (counter_id equivalent_mutants)) false -> Preserves (kept P b) (add_int k n).
Proof.
  intros Hk%TCEq_eq. apply kept_fom. intros s a s' (v & _ & E)%res_bind_inv. unfold set_int in E. injection E as <- <-. split; [done|]. by apply other_counter.
Qed.

#[local] Instance kept_incr k : TCEq (Nat.eqb (counter_id k) (counter_id equivalent_mutants)) false -> Preserves (kept P b) (incr k).
Proof. apply kept_add_int. Qed.

#[local] Instance kept_grow_nt n : Preserves (kept P b) (grow_non_trivial n).
Proof.
  apply kept_fom. intros s a s'. unfold grow_non_trivial. case_match; [|by intros [= <- <-]].
  by intros (v & _ & [= <- <-])%res_bind_inv.
Qed.

#[local] Instance kept_grow_sv n : Preserves (kept P b) (grow_survived n).
Proof.
  apply kept_fom. intros s a s'. unfold grow_survived. case_match; [|by intros [= <- <-]].
  by intros (v & _ & [= <- <-])%res_bind_inv.
Qed.

#[local] Instance kept_store_nt i m : Preserves (kept P b) (store_non_trivial i m).
Proof. apply kept_fom. by intros s a s' (l & _ & [= <- <-])%res_bind_inv. Qed.

#[local] Instance kept_store_sv i m : Preserves (kept P b) (store_survived i m).
Proof. apply kept_fom. by intros s a s' (l & _ & [= <- <-])%res_bind_inv. Qed.

#[local] Instance kept_set_original q : Preserves (kept P b) (set_original q).
Proof. apply kept_fom. intros s a s' E. unfold set_original in E. by injection E as <- <-. Qed.

(** A build. *)
#[local] Instance kept_make dir str t :
  WorldRun (kept P b) (fun w => runMake w dir (Some str) t (Some (mutation_results_path g)) (make_logs_dir g)).
Proof.
  intros s w r ([w1 r1] & E1 & E2)%res_bind_inv [Hs Hb].
  assert (P w1) as Hw1.
  { unfold startMake, run_child in E1. cbn [app] in E1.
    assert (P (setenv (log_title (world s) (make_logs_dir g) str) "MALLOC_CHECK_" "0")) as Ht.
    { apply (re_same _ _ HP (log_title (world s) (make_logs_dir g) str)); [done..|]. unfold log_title. destruct (read_file _ _); [|done]. apply (re_write _ _ HP); [by right; left|done]. }
    match type of E1 with context [os_run ?w2 ("make" :: ?args) ?o] =>
      pose proof (re_program _ _ HP w2 "make" args o eq_refl Ht) as Ho; destruct (os_run w2 ("make" :: args) o) as [files child] end.
    apply (re_same _ _ HP _ (with_fs (world s) files)) in Ho; [|done|cbn; unfold log_title; by destruct (read_file _ _)].
    destruct (wait_loop _ _ _) as [|[code|]|]; [..|done]; by injection E1 as <- <-. }
  split; [|done]. cbn. destruct (r1 =? 2); [|by injection E2 as <- <-].
  injection E2 as <- <-. apply (re_write _ _ HP); [by left|done].
Qed.

#[local] Instance kept_cfg d e f : WorldStep (kept P b) (fun w => extractCFGBranches w d e f).
Proof. unfold extractCFGBranches. apply _. Qed.

#[local] Instance kept_get_stats t j : Preserves (kept P b) (get_stats j t).
Proof. unfold get_stats. apply _. Qed.

#[local] Instance kept_killed str file cwd dir cfg code dev stats :
  Preserves (kept P b) (killed_branch g str file cwd dir cfg code dev stats).
Proof.
  unfold killed_branch. repeat (apply pres_bind; [apply _|intros ?]).
  apply pres_bind; [case_match; apply _|intros ?]. apply _.
Qed.

(** A mutant that deviates is not counted as equivalent. *)
Lemma kept_survived str file cwd dir cfg code dev :
  (b = true -> deq dev d0 = false) -> Preserves (kept P b) (survived_branch g str file cwd dir cfg code dev).
Proof.
  intros Hdev. unfold survived_branch, note_deviation, judge_survivor. do 3 (apply pres_bind; [apply _|intros ?]).
  apply pres_bind; [|intros ?; apply _]. apply pres_bind; [apply _|intros ?].
  apply pres_bind; [|intros ?; apply pres_bind; [case_match; apply _|intros ?]; apply _].
  destruct (decide (b = true)) as [Hb|Hb]; [rewrite (Hdev Hb), andb_false_r; apply _|]. apply pres_if; [|apply _]. apply pres_bind; [|intros ?; apply _].
  intros s c s' (v & _ & E)%res_bind_inv [Hs _]. unfold set_int in E. by injection E as <- <-.
Qed.

Lemma kept_genResults str makeDir file mv_dir cfg txl dir cwd :
  (b = true -> forall w dev, P w -> CFGEval.calculateCFGBranchDeviation (fs w)
     (cwd ++ "/mutation_out/PUT/" ++ dir ++ ".c.gcov.branches") ((cwd ++ "/mutation_out/" ++ dir) ++ "/" ++ dir ++ ".c.gcov.branches") = Ok dev -> deq dev d0 = false) ->
  Preserves (kept P b) (genResultsFOM print_f2 junk g str makeDir file mv_dir cfg txl dir cwd).
Proof.
  intros Hcfg. unfold genResultsFOM. cbv zeta. do 7 (apply pres_bind; [apply _|intros ?]). apply pres_bind; [|intros ?; apply _].
  apply pres_if; [apply _|]. apply pres_bind; [apply _|intros _].
  intros s u s' (dev & s1 & E1 & E)%M_bind_inv Hs. apply res_bind_inv in E1 as (dev' & Ed & E1). assert (dev' = dev) as -> by congruence. assert (s1 = s) as -> by congruence.
  assert (b = true -> deq dev d0 = false) as Hdev by (intros Hb; apply (Hcfg Hb (world s)); [by destruct Hs|done]).
  pose proof (fun a c d e f h => kept_survived a c d e f h dev Hdev) as Hsv. exact (preserve _ _ _ _ _ E _ Hs).
Qed.

#[local] Instance kept_damage e m : Preserves (kept P b) (mutant_damage e m).
Proof. unfold mutant_damage. destruct m as [m|]; [destruct (m_valgrindResult m)|]; apply _. Qed.

#[local] Instance kept_damage_loop n i l e d : Preserves (kept P b) (damage_loop n i l e d).
Proof. revert i d. induction n; intros i d; simpl; apply _. Qed.

#[local] Instance kept_average : Preserves (kept P b) (calculate_average_damage g).
Proof. unfold calculate_average_damage. apply _. Qed.

#[local] Instance kept_add_aggr k n : Preserves (kept P b) (add_aggr k n).
Proof.
  by intros s c s' (v & _ & (v' & _ & (d & _ & [= <- <-])%res_bind_inv)%res_bind_inv)%res_bind_inv.
Qed.

#[local] Instance kept_derive : Preserves (kept P b) derive_stats.
Proof. by intros s c s' (v & _ & [= <- <-])%res_bind_inv. Qed.

(** What the report does after the copy back. *)
#[local] Instance kept_report_tail n :
  Preserves (kept P b)
    (calculate_average_damage g ≫= fun _ =>
     open_stats g ;; add_aggr "total_tests_run" n ;; flush_stats g ;; derive_stats ;; flush_stats g ;;
     on_world (fun w => (startprogram w ["cat"; mutation_results_path g] None 0).1)).
Proof. apply _. Qed.

#[local] Instance kept_filter cwd : Preserves (kept P b) (filterMutants cwd).
Proof.
  unfold filterMutants. apply pres_if; [|apply _]. apply pres_on_world, kept_world. intros w Hw. unfold run_child.
  pose proof (re_program _ _ HP w "sh" ["-c"; (cwd ++ "/avoidDeadMutants.sh")%string] Inherit ltac:(done) Hw) as Ho.
  by destruct (os_run _ _ _).
Qed.
End keeping.

(** The content of the source file and of its backup. *)
Section restore.
Context (g : Globals) (target backup : string) (Hfr : frame g target backup).
Context (p c : string) (Hp : p = target \/ p = backup).

Lemma frame_respects : respects g (fun w => fs w !! p = Some c).
Proof.
  split.
  - intros w w' -> _. done.
  - intros w a args out Ha Hw. cbn. rewrite (fr_others _ _ _ Hfr); [done|done|]. intros [= ->]. discriminate Ha.
  - intros w q t Hq Hw. cbn. rewrite lookup_insert_ne; [done|]. by apply (fr_files _ _ _ Hfr).
  - intros w Hw. cbn. rewrite lookup_delete_ne; [done|]. apply (fr_files _ _ _ Hfr); auto.
Qed.

Lemma holds_of {A} (m : M A) s a s' :
  m s = Ok (a, s') -> Preserves (kept (fun w => fs w !! p = Some c) false) m -> holds p c s -> holds p c s'.
Proof. intros E Hm Hs. by apply (preserve _ _ _ _ _ E Hm). Qed.

Lemma holds_step f s s' :
  on_world f s = Ok (tt, s') -> WorldStep (kept (fun w => fs w !! p = Some c) false) f -> holds p c s -> holds p c s'.
Proof. intros E Hf. apply (holds_of _ _ _ _ E). by apply pres_on_world. Qed.
End restore.

Lemma copy_file_fs g target backup w a b :
  frame g target backup ->
  fs (copy_file w a b) = match fs w !! a with Some c => <[b := c]> (fs w) | None => fs w end.
Proof.
  intros Hfr. unfold copy_file, startprogram, run_child. change (0 =? 1) with false. cbv iota.
  rewrite <- (fr_cp _ _ _ Hfr). destruct (os_run w ["cp"; a; b] Inherit). repeat case_match; reflexivity.
Qed.

(** [genResultsFOM] records the backup. *)
Definition original_is (o : option string) (s : St) : Prop := original_source_file (fom s) = o.
#[local] Instance original_world o : WorldFree (original_is o).
Proof. by intros w s. Qed.
#[local] Instance original_gs o : GsFree (original_is o).
Proof. by intros d s. Qed.

Lemma genResults_original g str makeDir file mv_dir cfg txl dir cwd s s' :
  genResultsFOM print_f2 junk g str makeDir file mv_dir cfg txl dir cwd s = Ok (tt, s') ->
  original_is (Some mv_dir) s'.
Proof.
  unfold genResultsFOM. cbv zeta. intros E.
  do 8 (apply M_bind_inv in E as (? & ? & _ & E)).
  apply M_bind_inv in E as (? & s1 & E1 & E).
  assert (original_is (Some mv_dir) s1) as H1'.
  { unfold set_original in E1. by injection E1 as _ <-. }
  exact (preserve _ _ _ _ _ E _ H1').
Qed.

(** The state of the loop over the mutants: the backup is there, and the source
    is untouched or the backup is recorded. *)
Definition injecting (target backup c : string) (s : St) : Prop :=
  holds backup c s /\ accounted (ints (fom s)) /\
  ((ints (fom s) total_mutants = 0 /\ holds target c s) \/
   (0 < ints (fom s) total_mutants /\ original_is (Some backup) s)).

Lemma injecting_mutant g target backup c file str makeDir cfg txl dir cwd s s1 s' :
  frame g target backup ->
  injecting target backup c s ->
  on_world (fun w => copy_file w file target) s = Ok (tt, s1) ->
  genResultsFOM print_f2 junk g str makeDir file backup cfg txl dir cwd s1 = Ok (tt, s') ->
  injecting target backup c s'.
Proof.
  intros Hfr (Hb & Ha & _) E1 E. unfold on_world in E1. injection E1 as <-.
  set (s1 := with_world (copy_file (world s) file target) s) in *.
  assert (holds backup c s1) as Hb1.
  { unfold holds, s1 in *. cbn. rewrite (copy_file_fs g target backup) by done.
    case_match; [|done]. rewrite lookup_insert_ne; [done|]. apply (fr_backup _ _ _ Hfr). }
  split_and!.
  - refine (holds_of _ _ _ _ _ _ E (kept_genResults g _ (frame_respects g target backup Hfr backup c (or_intror eq_refl)) false
      _ _ _ _ _ _ _ _ _) Hb1). done.
  - destruct (genResultsFOM_post print_f2 junk g (ints (fom s1)) str makeDir file backup cfg txl dir cwd
      Ha s1 tt s' eq_refl E) as (k & Ha' & _). done.
  - right. destruct (genResultsFOM_post print_f2 junk g (ints (fom s1)) str makeDir file backup cfg txl
      dir cwd Ha s1 tt s' eq_refl E) as (k & _ & Ht & _).
    pose proof (acc_nonneg _ Ha total_mutants ltac:(done) ltac:(done)) as Hn.
    split; [|by eapply genResults_original]. rewrite Ht. unfold s1. cbn. lia.
Qed.

Lemma injecting_loop g target backup c srcDir makeDir name cfg txl dir cwd entries s s' :
  frame g target backup -> injecting target backup c s ->
  inject_loop print_f2 junk g srcDir target makeDir name backup cfg txl dir cwd entries s = Ok (tt, s') ->
  injecting target backup c s'.
Proof.
  intros Hfr. revert s. induction entries as [|e entries IH]; intros s Hs E; simpl in E.
  { unfold mret, M_ret in E. by injection E as <-. }
  apply M_bind_inv in E as (? & s1 & E1 & E).
  assert (s1 = s) as ->.
  { destruct (strlen _ <? 1024); [|done]. unfold mret, M_ret in E1. by injection E1 as _ <-. }
  apply M_bind_inv in E as ([] & s2 & E2 & E). apply (IH s2); [|exact E].
  destruct (is_mutant name e).
  - apply M_bind_inv in E2 as ([] & s3 & E3 & E2). by eapply injecting_mutant.
  - unfold mret, M_ret in E2. by injection E2 as <-.
Qed.

Lemma injecting_inject g target c srcDir makeDir name cfg txl dir cwd s s' :
  frame g target (srcDir ++ "/" ++ name ++ ".original") -> holds target c s ->
  inject_mutations print_f2 junk g srcDir target makeDir name cfg txl dir cwd s = Ok (tt, s') ->
  injecting target (srcDir ++ "/" ++ name ++ ".original") c s'.
Proof.
  intros Hfr Hs E. unfold inject_mutations in E.
  apply M_bind_inv in E as ([] & s1 & [= <-] & E). cbv zeta in E.
  set (backup := (srcDir ++ "/" ++ name ++ ".original")%string) in *.
  apply M_bind_inv in E as ([] & s2 & E2 & E). unfold on_world in E2. injection E2 as <-.
  apply M_bind_inv in E as (l & s3 & E3 & E). unfold get in E3. injection E3 as _ <-.
  destruct l as [entries|]; [|done]. eapply injecting_loop; [done| |exact E].
  unfold injecting, holds in *. cbn. rewrite (copy_file_fs g target backup) by done. rewrite Hs.
  split_and!; [apply lookup_insert_eq|apply accounted_init|]. left. split; [done|].
  rewrite lookup_insert_ne; [done|]. apply not_eq_sym, (fr_backup _ _ _ Hfr).
Qed.

(** C3: The engine leaves the source file as it found it.  When [process_source_file]
    returns, the source file it mutated in place has its original content: the backup made
    before the first injection is not written by the engine until it is copied back, and
    without mutants the file is never touched.  This is about the engine and not about the
    programs it calls: it assumes ([frame]) that [cp] copies, that no other program (make,
    TXL, Valgrind, the scripts) writes the source file or its backup, and that these two
    are different files and none of the four files the engine writes itself. *)
Theorem source_restored g cwd copy_put target cfg c dif s s' :
  let name := strndup (str_from target (dif + 1)) (strlen target - dif) in
  let name_dir := strndup (str_from target (dif + 1)) (strlen target - (dif + 3)) in
  let mut_out_dir := cwd ++ "/mutation_out/" ++ name_dir in
  strrchr target "/" = Some dif ->
  frame (with_make_logs g (mut_out_dir ++ "/make_logs.log")) target
    (mut_out_dir ++ "/" ++ name ++ ".original") ->
  holds target c s ->
  process_source_file g cwd copy_put target cfg s = Ok (tt, s') ->
  holds target c s'.
Proof.
  intros name name_dir mut_out_dir Hdif Hfr Hs E. unfold process_source_file in E. rewrite Hdif in E.
  fold name name_dir in E. cbv zeta in E. fold mut_out_dir in E.
  set (g' := with_make_logs g (mut_out_dir ++ "/make_logs.log")) in *.
  set (backup := (mut_out_dir ++ "/" ++ name ++ ".original")%string) in *.
  pose proof (frame_respects g' target backup Hfr target c (or_introl eq_refl)) as Hre.
  apply M_bind_inv in E as ([] & s1 & E1 & E).
  assert (holds target c s1) as H1'.
  { exact (holds_step _ _ _ _ _ E1 (kept_remove g' _ Hre false) Hs). }
  apply M_bind_inv in E as ([] & s2 & E2 & E).
  assert (holds target c s2) as H2'.
  { exact (holds_step _ _ _ _ _ E2 (kept_temp g' _ Hre false "0") H1'). }
  apply M_bind_inv in E as ([] & s2' & E2' & E).
  assert (holds target c s2') as H2''.
  { exact (holds_step _ _ _ _ _ E2' (kept_mkdir g' _ Hre false _) H2'). }
  apply M_bind_inv in E as ([] & s3 & E3 & E).
  assert (holds target c s3) as H3'.
  { exact (holds_step _ _ _ _ _ E3 (kept_program g' _ Hre false _ _ _ _ _) H2''). }
  apply M_bind_inv in E as ([] & s4 & E4 & E).
  assert (holds target c s4) as H4'.
  { exact (holds_of _ _ _ _ _ _ E4 (kept_filter g' _ Hre false cwd) H3'). }
  apply M_bind_inv in E as ([] & s5 & E5 & E).
  assert (holds target c s5) as H5'.
  { exact (holds_step _ _ _ _ _ E5 (kept_make_log g' _ Hre false "") H4'). }
  apply M_bind_inv in E as ([] & s6 & E6 & E).
  destruct (injecting_inject g' target c _ _ _ _ _ _ _ _ _ Hfr H5' E6) as (Hb & _ & Hcase).
  apply M_bind_inv in E as (total & s7 & E7 & E). unfold counter_val, get in E7. injection E7 as <- <-.
  destruct Hcase as [[H0' Htc]|[Hpos Ho]].
  { rewrite H0' in E. unfold mret, M_ret in E. by injection E as <-. }
  apply Z.ltb_lt in Hpos. rewrite Hpos in E. unfold report_results in E.
  apply M_bind_inv in E as (r & s8 & E8 & E). unfold get in E8. injection E8 as <- <-.
  unfold original_is in Ho. fold backup in Ho. rewrite Ho in E. apply M_bind_inv in E as ([] & s9 & E9 & E).
  assert (holds target c s9) as H9'.
  { assert (s9 = with_world (copy_file (world s6) backup target) s6) as ->
      by (unfold on_world in E9; congruence).
    unfold holds in Hb |- *. cbn [with_world world]. rewrite (copy_file_fs g' target backup) by done.
    fold backup in Hb. rewrite Hb. apply lookup_insert_eq. }
  exact (holds_of _ _ _ _ _ _ E (kept_report_tail g' _ Hre false _) H9').
Qed.

(** ** The current directory *)

(** The copy of the source file that is made before the first injection. *)
Definition backup_of (cwd target : string) (dif : Z) : string :=
  (cwd ++ "/mutation_out/" ++ strndup (str_from target (dif + 1)) (strlen target - (dif + 3))) ++ "/" ++ strndup (str_from target (dif + 1)) (strlen target - dif) ++ ".original".

(** What also survives the copies survives a whole source file. *)
Section copying.
Context (g : Globals) (P : World -> Prop) (b : bool).
Context (Hg : forall d, respects (with_make_logs g (d ++ "/make_logs.log")) P).
(** The files that are copied to. *)
Context (dest : string -> Prop) (Hcopy : forall w x y, dest y -> P w -> P (copy_file w x y)).

Lemma kept_copy x y : dest y -> WorldStep (kept P b) (fun w => copy_file w x y).
Proof. intros Hy. apply kept_world. intros w. by apply Hcopy. Qed.

(** With [b], the coverage of the mutants of [dir] deviates. *)
Definition deviates (cwd dir : string) : Prop :=
  forall w dev, P w -> CFGEval.calculateCFGBranchDeviation (fs w)
     (cwd ++ "/mutation_out/PUT/" ++ dir ++ ".c.gcov.branches") ((cwd ++ "/mutation_out/" ++ dir) ++ "/" ++ dir ++ ".c.gcov.branches") = Ok dev -> deq dev d0 = false.

Lemma kept_inject_loop d srcDir target makeDir name mv cfg txl dir cwd entries :
  (b = true -> deviates cwd dir) -> dest target ->
  Preserves (kept P b) (inject_loop print_f2 junk (with_make_logs g (d ++ "/make_logs.log")) srcDir target makeDir name mv cfg txl dir cwd entries).
Proof.
  intros Hd Ht. pose proof (fun x => kept_copy x target Ht) as Hc. pose proof (fun str file => kept_genResults _ P (Hg d) b str makeDir file mv cfg txl dir cwd Hd) as Hgen.
  induction entries as [|e entries IH]; simpl; [apply _|]. repeat (apply pres_bind; [|intros ?; try done]); apply _.
Qed.

Lemma kept_inject d srcDir target makeDir name cfg txl dir cwd s a s' :
  (b = true -> deviates cwd dir) -> dest target -> dest (srcDir ++ "/" ++ name ++ ".original") -> kept P false s ->
  inject_mutations print_f2 junk (with_make_logs g (d ++ "/make_logs.log")) srcDir target makeDir name cfg txl dir cwd s = Ok (a, s') -> kept P b s'.
Proof.
  intros Hd Ht Hb [Hs _] E. unfold inject_mutations in E. apply M_bind_inv in E as ([] & s1 & E1 & E). injection E1 as <-. cbv zeta in E.
  refine (preserve _ _ _ _ _ E _ _); [|by split]. apply pres_bind; [by apply pres_on_world, kept_copy|intros _]. apply pres_bind; [apply _|intros l]. destruct l; [|by intros ? ? ?]. by apply kept_inject_loop.
Qed.

(** No mutant of a file is found equivalent when all deviate, whatever was found before. *)
Lemma kept_source_file cwd copy_put target cfg s s' :
  (b = true -> forall dif, strrchr target "/" = Some dif -> deviates cwd (strndup (str_from target (dif + 1)) (strlen target - (dif + 3)))) ->
  (forall dif, strrchr target "/" = Some dif -> dest (backup_of cwd target dif)) -> dest target ->
  P (world s) -> process_source_file g cwd copy_put target cfg s = Ok (tt, s') -> kept P b s'.
Proof.
  intros Hd Hb Ht Hw E. assert (kept P false s) as Hs by done. clear Hw. unfold process_source_file in E.
  apply M_bind_inv in E as ([] & s1 & E1 & E). apply (preserve _ _ _ _ _ E1 (pres_on_world _ _ (kept_remove _ P (Hg "") _))) in Hs.
  apply M_bind_inv in E as ([] & s2 & E2 & E). apply (preserve _ _ _ _ _ E2 (pres_on_world _ _ (kept_temp _ P (Hg "") _ "0"))) in Hs.
  destruct (strrchr target "/") as [dif|] eqn:Edif; [|done]. cbv zeta in E.
  set (name := strndup (str_from target (dif + 1)) (strlen target - (dif + 3))) in *. set (out := (cwd ++ "/mutation_out/" ++ name)%string) in *.
  apply M_bind_inv in E as ([] & s3 & E3 & E). apply (preserve _ _ _ _ _ E3 (pres_on_world _ _ (kept_mkdir _ P (Hg "") _ _))) in Hs.
  apply M_bind_inv in E as ([] & s4 & E4 & E). apply (preserve _ _ _ _ _ E4 (pres_on_world _ _ (kept_program _ P (Hg "") _ _ _ _ _ _))) in Hs.
  apply M_bind_inv in E as ([] & s5 & E5 & E). apply (preserve _ _ _ _ _ E5 (kept_filter _ P (Hg "") _ _)) in Hs.
  apply M_bind_inv in E as ([] & s6 & E6 & E). apply (preserve _ _ _ _ _ E6 (pres_on_world _ _ (kept_make_log _ P (Hg out) _ _))) in Hs.
  apply M_bind_inv in E as ([] & s7 & E7 & E). assert (kept P b s7) as H7 by (refine (kept_inject _ _ _ _ _ _ _ _ _ _ _ _ _ Ht (Hb _ eq_refl) Hs E7); intros Hbt; by apply (Hd Hbt)).
  refine (preserve _ _ _ _ _ E _ H7). apply pres_bind; [apply _|intros n]. apply pres_if; [|apply _]. unfold report_results. apply pres_bind; [apply _|intros r].
  destruct (original_source_file r); [|apply _]. apply pres_bind; [by apply pres_on_world, kept_copy|intros _]. apply (kept_report_tail _ P (Hg out)).
Qed.
End copying.

(** A project whose own build fails crashes the engine.  The build of the
    original program happens before the path of the results file is set: when
    make times out or exits with status 2 there, recording the failure opens a
    NULL path, and the engine never returns. *)
Theorem original_build_failure_undefined fuel cwd preset verbose cfg dif s r :
  strrchr (sourceRootDir cfg) "/" = Some dif ->
  (forall w args out k, head args = Some "make" -> (os_run w args out).2 k = Reaped (Exited 2)) ->
  run_project fuel cwd preset verbose cfg s <> Ok r.
Proof.
  intros Hdif Hmake E. destruct r as [v s']. unfold run_project in E. rewrite Hdif in E. cbv zeta in E.
  do 6 (apply M_bind_inv in E as (? & ? & _ & E)).
  apply M_bind_inv in E as (z & s5 & E5 & _).
  apply res_bind_inv in E5 as ([w1 r1] & E5 & _). unfold runMake, startMake, run_child in E5.
  match type of E5 with context [os_run ?w ?args ?o] =>
    pose proof (Hmake w args o 0%nat eq_refl) as Hk; destruct (os_run w args o) as [files child] end.
  cbn [snd] in Hk.
  assert (wait_loop (Z.to_nat (5 * 60 * 1000 / SLEEP_UNIT_IN_MS)) 0 child = Reaped (Exited 2)) as Hw.
  { apply (wait_loop_ends _ 0 child 0); [exact Hk|discriminate|split; [lia|]; apply Nat.ltb_lt; vm_compute; reflexivity|lia]. }
  rewrite Hw in E5. done.
Qed.
End engine.

(** ** Witnesses *)

(** [cp] copies, make writes the report of a kill, the others do nothing. *)
Definition project_os (code : Z) : OS := {|
  os_run := fun w args _ =>
    (if bool_decide (head args = Some "cp") then
       match args with
       | [_; a; b] => match fs w !! a with Some c => <[b := c]> (fs w) | None => fs w end
       | _ => fs w
       end
     else if bool_decide (head args = Some "make") then <["/w/put/temp" := "1 1 3 2"]> (fs w) else fs w,
     fun _ => Reaped (Exited code))
|}.

Definition project_dirs : Dirs := {|
  readdir := fun _ _ => Some [("CRCR_1.c", IsFile); ("heap.c", IsFile)];
  stat := fun _ _ => IsFile;
  lstat := fun _ _ => IsFile
|}.

Definition project_globals : Globals :=
  mk_Globals 0 0 "/w/put/log" "" "/w/put/temp" "/w/gstats.xml".

Definition project_state : St (X := no_xml) :=
  mk_St (X := no_xml)
    (world_of {[ "/w/put/heap.c" := "int heap;"; "/w/mutation_out/heap/CRCR_1.c" := "int pile;" ]} ∅)
    (mk_gstats (X := no_xml) [] init_aggregates) init_FOMResult 200 200.

Lemma project_frame :
  frame (H := project_os 0) (with_make_logs project_globals "/w/mutation_out/heap/make_logs.log")
    "/w/put/heap.c" "/w/mutation_out/heap/heap.c.original".
Proof.
  split.
  - intros w a b. reflexivity.
  - intros w args out p Hp Ha. cbn. rewrite bool_decide_eq_false_2 by done.
    case_bool_decide; [|done]. rewrite lookup_insert_ne; [done|]. by destruct Hp as [->| ->].
  - done.
  - intros p q Hp Hq. destruct Hp as [->| ->], Hq as [->|[->|[->| ->]]]; done.
Qed.

Lemma source_restored_witness :
  exists s', process_source_file (X := no_xml) (H := project_os 0) (H0 := project_dirs)
      (fun _ => "0.00") (fun _ => "0") 0 project_globals "/w" "put" "/w/put/heap.c" example_cfg
      project_state = Ok (tt, s') /\ holds "/w/put/heap.c" "int heap;" s'.
Proof.
  destruct (is_ok_inv (process_source_file (X := no_xml) (H := project_os 0) (H0 := project_dirs)
    (fun _ => "0.00") (fun _ => "0") 0 project_globals "/w" "put" "/w/put/heap.c" example_cfg
    project_state)) as [[[] s'] E]; [vm_compute; reflexivity|].
  exists s'. split; [exact E|].
  refine (source_restored (X := no_xml) (H := project_os 0) (H0 := project_dirs)
    (fun _ => "0.00") (fun _ => "0") 0 project_globals "/w" "put" "/w/put/heap.c" example_cfg
    "int heap;" 6 project_state s' _ project_frame _ E); reflexivity.
Defined.

Lemma original_build_failure_undefined_witness :
  is_ok (run_project (X := no_xml) (H := project_os 2) (H0 := project_dirs)
    (fun _ => "0.00") (fun _ => "0") 0 3 "/w" 0 0 example_cfg project_state) = false.
Proof.
  apply not_ok. intros r.
  apply (original_build_failure_undefined (X := no_xml) (H := project_os 2) (H0 := project_dirs)
    (fun _ => "0.00") (fun _ => "0") 0 3 "/w" 0 0 example_cfg 4 project_state r); [reflexivity|].
  intros w args out k _. reflexivity.
Defined.

End Engine.
