(* ===== verification/EngineDir.v ===== *)
(** * The current directory of the engine (src/controller.c)

    [process_source_directory] enters the directories it reads and looks their entries up
    by name.  It finds the right ones ([directory_lookup]), but it leaves the engine in
    another directory than it found it in ([source_directory_moves]): the copy of the
    project is not removed ([copy_left_behind]), and the script that extracts the
    coverage, which is called by its name, is not found, so that no mutant of the
    directory counts as equivalent ([directory_never_equivalent]). *)

From Stdlib Require Import Ascii String.
From S2P Require Import Prelude Double CString System CFGEval LibXml GStats ValgrindEval Process Config Controller Engine.

Module EngineDir.
Import GStats ValgrindEval Process Config Controller Engine.

(** ** Paths *)

Lemma strrchr_shift n s c : strrchr_from n s c = Z.add n <$> strrchr_from 0 s c.
Proof.
  revert n. induction s as [|a s IH]; intros n; [done|]. cbn [strrchr_from]. rewrite (IH (n + 1)), (IH (0 + 1)).
  destruct (strrchr_from 0 s c); simpl; [f_equal; lia|]. case_match; [|done]. simpl. f_equal. lia.
Qed.

Lemma strrchr_last d name c : strrchr name c = None -> strrchr (d ++ String c name) c = Some (strlen d).
Proof.
  unfold strrchr, strlen. intros Hn. induction d as [|a d IH]; cbn [append strrchr_from String.length].
  - rewrite strrchr_shift, Hn. simpl. by rewrite Ascii.eqb_refl.
  - rewrite strrchr_shift, IH. simpl. f_equal. lia.
Qed.

Lemma substring_prefix d s : String.substring 0 (String.length d) (d ++ s) = d.
Proof. induction d as [|a d IH]; simpl; [by destruct s|]. by rewrite IH. Qed.

Definition absolute (p : string) : Prop := exists r, p = String "/" r.

Lemma absolute_app p q : absolute p -> absolute (p ++ q).
Proof. intros [r ->]. by eexists. Qed.

Lemma resolve_absolute w p : absolute p -> resolve w p = p.
Proof. by intros [r ->]. Qed.

Lemma parent_entry d name : absolute d -> strrchr name "/" = None -> parent (d ++ "/" ++ name) = d.
Proof.
  intros [r ->] Hn. unfold parent. change ("/" ++ name)%string with (String "/" name). rewrite strrchr_last by done. unfold strlen.
  rewrite (proj2 (Z.eqb_neq _ _)) by (simpl; lia). by rewrite Nat2Z.id, substring_prefix.
Qed.

Section directories.
Context {X : LibXml} `{OS} `{Dirs} `{LibConfig}.
Context (print_f2 print_G : double -> string) (junk : Z).
(** A name in a directory has no slash. *)
Context (names_plain : forall w d l, readdir w d = Some l -> Forall (fun e => strrchr e.1 "/" = None) l).

Lemma in_dir_respects g d : respects g (fun w => pwd w = d).
Proof. split; try done. by intros w w' _ ->. Qed.

Lemma in_dir_copy d w x y : pwd w = d -> pwd (copy_file w x y) = d.
Proof. intros Hw. unfold copy_file. by destruct (startprogram_world w ["cp"; x; y] None 0) as [o ->]. Qed.

Lemma source_file_pwd g cwd copy_put target cfg s s' :
  process_source_file print_f2 print_G junk g cwd copy_put target cfg s = Ok (tt, s') -> pwd (world s') = pwd (world s).
Proof.
  intros E. refine (proj1 (kept_source_file print_f2 print_G junk g (fun w => pwd w = pwd (world s)) false _ (fun _ => True) _ cwd copy_put target cfg s s' _ _ _ eq_refl E)); try done.
  - intros d. apply in_dir_respects.
  - intros. by apply in_dir_copy.
Qed.

(** ** Where a directory leaves the engine *)

Lemma directory_entries_pwd g cwd copy_put cfg dir sub entries s s' :
  absolute dir -> Forall (fun e => strrchr e.1 "/" = None) entries ->
  (forall name s s', strrchr name "/" = None -> sub (dir ++ "/" ++ name)%string s = Ok (tt, s') -> pwd (world s) = dir -> pwd (world s') = dir) ->
  directory_entries print_f2 print_G junk g cwd copy_put cfg dir sub entries s = Ok (tt, s') -> pwd (world s) = dir -> pwd (world s') = dir.
Proof.
  intros Hd Hn Hsub. revert s. induction Hn as [|[name ty0] entries Hname _ IH]; intros s E Hs; cbn [directory_entries] in E.
  { unfold mret, M_ret in E. by injection E as <-. }
  apply M_bind_inv in E as (ty & s1 & E1 & E). unfold get in E1. injection E1 as <- <-.
  apply M_bind_inv in E as ([] & s2 & E2 & E). apply (IH s2 E). destruct (lstat _ _); [done| |].
  - destruct (_ || _); [unfold mret, M_ret in E2; by injection E2 as <-|]. by apply (Hsub name s).
  - destruct (is_c_file name); [|unfold mret, M_ret in E2; by injection E2 as <-]. by rewrite (source_file_pwd _ _ _ _ _ _ _ E2).
Qed.

Lemma directory_pwd fuel g cwd copy_put cfg dir s s' :
  absolute dir -> process_source_directory print_f2 print_G junk fuel g cwd copy_put cfg dir s = Ok (tt, s') ->
  pwd (world s') = match readdir (world s) dir with Some _ => parent dir | None => pwd (world s) end.
Proof.
  revert dir s s'. induction fuel as [|fuel IH]; intros dir s s' Hd E; cbn [process_source_directory] in E; [done|].
  apply M_bind_inv in E as (l & s1 & E1 & E). unfold get in E1. injection E1 as <- <-. destruct (readdir (world s) dir) as [l|] eqn:Er.
  2: { unfold mret, M_ret in E. by injection E as <-. }
  apply M_bind_inv in E as ([] & s2 & E2 & E). unfold on_world in E2. injection E2 as <-. apply M_bind_inv in E as ([] & s3 & E3 & E). unfold on_world in E. injection E as <-. cbn.
  f_equal. refine (directory_entries_pwd _ _ _ _ _ _ _ _ _ Hd (names_plain _ _ _ Er) _ E3 _).
  - intros name s0 s4 Hn E4 Hs. rewrite (IH _ _ _ (absolute_app _ _ Hd) E4). destruct (readdir (world s0) _); [by apply parent_entry|done].
  - cbn. destruct Hd as [r ->]. by destruct r.
Qed.

(** A source directory that can be read leaves the engine in the directory above it,
    wherever it was before. *)
Theorem source_directory_moves fuel g cwd copy_put cfg dir s s' :
  absolute dir -> readdir (world s) dir <> None ->
  process_source_directory print_f2 print_G junk fuel g cwd copy_put cfg dir s = Ok (tt, s') -> pwd (world s') = parent dir.
Proof. intros Hd Hr E. rewrite (directory_pwd _ _ _ _ _ _ _ _ Hd E). by destruct (readdir _ _). Qed.

(** ** Names are looked up in the right directory *)

(** The same with the whole path of every entry. *)
Fixpoint entries_at (g : Globals) (cwd copy_put : string) (user_config : Config) (dir : string) (sub : string -> M unit) (entries : list (string * ftype)) : M unit :=
  match entries with
  | [] => mret tt
  | (name, _) :: entries =>
      ty ← get (fun s => lstat (world s) (dir ++ "/" ++ name));
      match ty with
      | NoStat => fun _ => Undef
      | IsDir => if String.eqb "." name || String.eqb ".." name then mret tt else sub (dir ++ "/" ++ name)%string
      | IsFile => if is_c_file name then process_source_file print_f2 print_G junk g cwd copy_put (dir ++ "/" ++ name) user_config else mret tt
      end ;;
      entries_at g cwd copy_put user_config dir sub entries
  end.

Fixpoint directory_at (fuel : nat) (g : Globals) (cwd copy_put : string) (user_config : Config) (dir : string) : M unit :=
  match fuel with
  | O => fun _ => OutOfFuel
  | S fuel =>
      entries ← get (fun s => readdir (world s) dir);
      match entries with
      | None => mret tt
      | Some entries =>
          on_world (fun w => chdir w dir) ;;
          entries_at g cwd copy_put user_config dir (directory_at fuel g cwd copy_put user_config) entries ;;
          on_world (fun w => chdir w "..")
      end
  end.

Lemma resolve_entry w dir name : pwd w = dir -> strrchr name "/" = None -> resolve w name = (dir ++ "/" ++ name)%string.
Proof.
  intros <- Hn. destruct name as [|c name]; [done|]. unfold resolve. destruct (Ascii.eqb_spec c "/") as [->|Hc]; [|destruct c as [[] [] [] [] [] [] [] []]; first [reflexivity|by destruct Hc]].
  exfalso. unfold strrchr in Hn. cbn [strrchr_from] in Hn. destruct (strrchr_from (0 + 1) name _); [done|]. by rewrite Ascii.eqb_refl in Hn.
Qed.

Lemma M_bind_eq {A B} (m1 m2 : M A) (k1 k2 : A -> M B) s :
  m1 s = m2 s -> (forall a s', m2 s = Ok (a, s') -> k1 a s' = k2 a s') -> (m1 ≫= k1) s = (m2 ≫= k2) s.
Proof. intros Hm Hk. unfold mbind, M_bind. rewrite Hm. destruct (m2 s) as [[a s']| | |]; [|done..]. by apply Hk. Qed.

Lemma entries_eq g cwd copy_put cfg dir sub sub' entries s :
  Forall (fun e => strrchr e.1 "/" = None) entries ->
  (forall name s, strrchr name "/" = None -> pwd (world s) = dir -> sub (dir ++ "/" ++ name)%string s = sub' (dir ++ "/" ++ name)%string s) ->
  (forall name s s', strrchr name "/" = None -> sub (dir ++ "/" ++ name)%string s = Ok (tt, s') -> pwd (world s) = dir -> pwd (world s') = dir) ->
  pwd (world s) = dir -> directory_entries print_f2 print_G junk g cwd copy_put cfg dir sub entries s = entries_at g cwd copy_put cfg dir sub' entries s.
Proof.
  intros Hn Heq Hsub. revert s. induction Hn as [|[name ty0] entries Hname _ IH]; intros s Hs; cbn [directory_entries entries_at]; [done|].
  simpl in Hname. apply M_bind_eq; [unfold get; by rewrite (resolve_entry (world s) dir)|]. intros ty s1 E1. unfold get in E1. injection E1 as <- <-.
  apply M_bind_eq.
  - destruct (lstat _ _); [done| |done]. destruct (_ || _); [done|]. by apply Heq.
  - intros [] s2 E2. apply IH. destruct (lstat _ _); [done| |].
    + destruct (_ || _); [unfold mret, M_ret in E2; by injection E2 as <-|]. rewrite <- Heq in E2 by done. by apply (Hsub name s).
    + destruct (is_c_file name); [|unfold mret, M_ret in E2; by injection E2 as <-]. by rewrite (source_file_pwd _ _ _ _ _ _ _ E2).
Qed.

(** The entries that are looked up by name in the current directory are those of the
    directory that is read, also after a subdirectory was visited. *)
Theorem directory_lookup fuel g cwd copy_put cfg dir s :
  absolute dir -> process_source_directory print_f2 print_G junk fuel g cwd copy_put cfg dir s = directory_at fuel g cwd copy_put cfg dir s.
Proof.
  revert dir s. induction fuel as [|fuel IH]; intros dir s Hd; cbn [process_source_directory directory_at]; [done|].
  apply M_bind_eq; [done|]. intros l s1 E1. unfold get in E1. injection E1 as <- <-. destruct (readdir (world s) dir) as [l|] eqn:Er; [|done].
  apply M_bind_eq; [done|]. intros [] s2 E2. unfold on_world in E2. injection E2 as <-. apply M_bind_eq; [|done].
  apply (entries_eq _ _ _ _ _ _ _ _ _ (names_plain _ _ _ Er)).
  - intros name s0 _ _. apply IH. by apply absolute_app.
  - intros name s0 s4 Hn E4 Hs. rewrite (directory_pwd _ _ _ _ _ _ _ _ (absolute_app _ _ Hd) E4). destruct (readdir (world s0) _); [by apply parent_entry|done].
  - cbn. destruct Hd as [r ->]. by destruct r.
Qed.

(** ** What the other directory breaks *)

Lemma sources_last fuel g cwd copy_put cfg srcs src s s' :
  process_sources print_f2 print_G junk fuel g cwd copy_put cfg (srcs ++ [src]) s = Ok (tt, s') ->
  exists s1, process_sources print_f2 print_G junk fuel g cwd copy_put cfg [src] s1 = Ok (tt, s').
Proof.
  revert s. induction srcs as [|x srcs IH]; intros s E; cbn [app] in E; [by eexists|]. cbn [process_sources] in E.
  apply M_bind_inv in E as (? & ? & _ & E). apply M_bind_inv in E as (? & ? & _ & E). by apply (IH _ E).
Qed.

(** When the last source is a directory of the project, the engine removes its copy of the
    project from within that copy: the command names a directory that is not there. *)
Theorem copy_left_behind fuel cwd preset verbose cfg dif srcs src s v s' :
  let copy_put := strndup (str_from (sourceRootDir cfg) (dif + 1)) (strlen (sourceRootDir cfg) - dif) in
  let path := (cwd ++ "/" ++ copy_put ++ "/" ++ src)%string in
  absolute cwd -> strrchr (sourceRootDir cfg) "/" = Some dif -> source cfg = (srcs ++ [src])%list -> strrchr src "/" = None ->
  (forall w, stat w path = IsDir) -> (forall w, readdir w path <> None) ->
  run_project print_f2 print_G junk fuel cwd preset verbose cfg s = Ok (v, s') ->
  exists w, pwd w = (cwd ++ "/" ++ copy_put)%string /\ world s' = cleanUp w copy_put.
Proof.
  intros copy_put path Ha Hdif Hsrc Hn Hst Hrd E. unfold run_project in E. rewrite Hdif in E. cbv zeta in E. fold copy_put in E. rewrite Hsrc in E.
  do 14 (apply M_bind_inv in E as (? & ? & _ & E)). apply M_bind_inv in E as ([] & s1 & E1 & E).
  apply M_bind_inv in E as ([] & s2 & E2 & E). unfold on_world in E2. injection E2 as <-. unfold mret, M_ret in E. injection E as _ <-.
  exists (world s1). split; [|done]. apply sources_last in E1 as [s0 E1]. cbn [process_sources] in E1. fold path in E1.
  apply M_bind_inv in E1 as (ty & s3 & E3 & E1). unfold get in E3. injection E3 as <- <-. rewrite Hst in E1. apply M_bind_inv in E1 as ([] & s4 & E4 & E1). unfold mret, M_ret in E1. injection E1 as <-.
  assert (absolute path) as Hp by by apply absolute_app. rewrite (directory_pwd _ _ _ _ _ _ _ _ Hp E4). destruct (readdir (world s0) path) eqn:Er; [|by destruct (Hrd (world s0))].
  unfold path. rewrite <- (string_app_assoc "/"), <- (string_app_assoc cwd). apply parent_entry; [by apply absolute_app|done].
Qed.

(** The script is found in the directory the engine was started in and nowhere else; the
    branches of a mutant are written by the script only, those of the original program
    by nothing any more.  The copies of the engine go to the source file and its backup. *)
Record script_missing (g : Globals) (cwd target backup out orig : string) : Prop := {
  sm_script : forall w args o, pwd w <> cwd -> (os_run w ("bash" :: "GenCFGBranches.sh" :: args) o).1 = fs w;
  sm_others : forall w args o p, p = out \/ p = orig -> head args <> Some "bash" -> head args <> Some "cp" -> (os_run w args o).1 !! p = fs w !! p;
  sm_copies : forall w a y o p, p = out \/ p = orig -> y = target \/ y = backup -> (os_run w ["cp"; a; y] o).1 !! p = fs w !! p;
  sm_own : forall d q, own (with_make_logs g (d ++ "/make_logs.log")) q -> q <> out /\ q <> orig
}.

Lemma script_missing_respects g cwd target backup out orig c d e :
  script_missing g cwd target backup out orig -> d <> cwd ->
  respects (with_make_logs g (e ++ "/make_logs.log")) (fun w => pwd w = d /\ fs w !! out = None /\ fs w !! orig = Some c).
Proof.
  intros [Hs Ho _ Hf] Hd. split.
  - by intros w w' -> ->.
  - intros w a args o Hc (Hp & Hn & Hor). cbn. destruct (String.eqb_spec a "bash") as [->|Ha].
    + destruct args as [|x args]; [done|]. destruct (String.eqb_spec x "GenCFGBranches.sh") as [->|Hx]; [|by apply String.eqb_neq in Hx; unfold called in Hc; rewrite Hx in Hc].
      rewrite Hs by congruence. done.
    + rewrite !Ho by (auto; intros [= ->]; done). done.
  - intros w q t Hq (Hp & Hn & Hor). destruct (Hf e q Hq) as [H1' H2']. cbn. by rewrite !lookup_insert_ne by done.
  - intros w (Hp & Hn & Hor). destruct (Hf e (mutation_results_path g)) as [H1' H2']; [by left|]. cbn. by rewrite !lookup_delete_ne by done.
Qed.

(** C39: A file that is evaluated while the engine is in another directory has no equivalent
    mutant: the branches of a mutant are never extracted, and a missing file counts as
    a deviation of 1. *)
Theorem directory_never_equivalent g cwd copy_put target cfg dif c s s' :
  let name := strndup (str_from target (dif + 1)) (strlen target - (dif + 3)) in
  let orig := (cwd ++ "/mutation_out/PUT/" ++ name ++ ".c.gcov.branches")%string in
  let out := ((cwd ++ "/mutation_out/" ++ name) ++ "/" ++ name ++ ".c.gcov.branches")%string in
  strrchr target "/" = Some dif -> script_missing g cwd target (backup_of cwd target dif) out orig -> pwd (world s) <> cwd ->
  fs (world s) !! out = None -> fs (world s) !! orig = Some c ->
  process_source_file print_f2 print_G junk g cwd copy_put target cfg s = Ok (tt, s') -> ints (fom s') equivalent_mutants = 0.
Proof.
  intros name orig out Hdif Hm Hpwd Hn Ho E.
  refine (proj2 (kept_source_file print_f2 print_G junk g (fun w => pwd w = pwd (world s) /\ fs w !! out = None /\ fs w !! orig = Some c) true _
    (fun y => y = target \/ y = backup_of cwd target dif) _ cwd copy_put target cfg s s' _ _ _ _ E) eq_refl).
  - intros e. by apply (script_missing_respects g cwd target (backup_of cwd target dif)).
  - intros w x y Hy (Hp & H1' & H2'). unfold copy_file. destruct (startprogram_world w ["cp"; x; y] None 0) as [o ->]. cbn. rewrite !(sm_copies _ _ _ _ _ _ Hm) by auto. done.
  - intros _ dif' Hd' w dev (_ & H1' & H2'). assert (dif' = dif) as -> by congruence. fold name orig out. unfold CFGEval.calculateCFGBranchDeviation. rewrite H1', H2'. intros [= <-]. reflexivity.
  - intros dif' Hd'. assert (dif' = dif) as -> by congruence. by right.
  - by left.
  - done.
Qed.
End directories.

(** ** An example

    A project with the directory src; the script is in /w, and no test notices the mutant. *)
Module Demo.
Definition branches : string := "/w/mutation_out/heap/heap.c.gcov.branches".
Definition os : OS := {|
  os_run := fun w args _ =>
    (match args with
     | ["cp"; a; y] => match fs w !! a with Some c => <[y := c]> (fs w) | None => fs w end
     | "bash" :: _ => if String.eqb (pwd w) "/w" then <[branches := "branch  0 taken 1"]> (fs w) else fs w
     | _ => fs w
     end, fun _ => Reaped (Exited 0))
|}.

Definition dirs : Dirs := {|
  readdir := fun _ d =>
    if String.eqb d "/w/heap/src" then Some [("heap.c", IsFile); ("README", IsFile)]
    else Some [("CRCR_1.c", IsFile); ("heap.c.original", IsFile)];
  stat := fun _ p => if String.eqb p "/w/heap/src" then IsDir else IsFile;
  lstat := fun _ _ => IsFile
|}.

Definition cfg : Config := mk_Config "PUTs/heap" ["src"] 1 (Str "CuTest.c") (Some 1) Indet (Some "test") "put/tests" None 1.
Definition globals : Globals := mk_Globals 0 0 "/w/heap/mutation_results.log" "" "/w/heap/temp_results.log" "/w/gstats.xml".

Definition state (d : string) : St (X := no_xml) :=
  mk_St (X := no_xml)
    (mk_World {[ "/w/heap/src/heap.c" := "int heap;"; "/w/mutation_out/heap/CRCR_1.c" := "int pile;";
                 "/w/mutation_out/PUT/heap.c.gcov.branches" := "branch  0 taken 1" ]} ∅ d [])
    (mk_gstats (X := no_xml) [] init_aggregates) init_FOMResult 200 200.

Lemma plain w d l : readdir (Dirs := dirs) w d = Some l -> Forall (fun e => strrchr e.1 "/" = None) l.
Proof. cbn. case_match; intros [= <-]; by repeat constructor. Qed.

Fixpoint last_of (s : string) : option ascii :=
  match s with EmptyString => None | String c EmptyString => Some c | String _ s => last_of s end.

Lemma last_of_app d s : s <> "" -> last_of (d ++ s) = last_of s.
Proof. intros Hs. induction d as [|a d IH]; [done|]. cbn [append last_of]. rewrite <- IH. destruct d; [|done]. by destruct s. Qed.

Lemma missing :
  script_missing (H := os) globals "/w" "/w/heap/src/heap.c" "/w/mutation_out/heap/heap.c.original" branches "/w/mutation_out/PUT/heap.c.gcov.branches".
Proof.
  split.
  - intros w args o Hw. cbn. by apply String.eqb_neq in Hw as ->.
  - intros w args o p _ Hb Hc. cbn. by destruct args as [|a args]; [|repeat case_match; simplify_eq].
  - intros w a y o p Hp Hy. cbn. destruct (fs w !! a); [|done]. rewrite lookup_insert_ne; [done|]. destruct Hp as [->| ->], Hy as [->| ->]; done.
  - intros d q Hq. unfold own in Hq. cbn in Hq. destruct Hq as [->|[->|[->| ->]]]; [done| |done..].
    split; intros E; apply (f_equal last_of) in E; by rewrite last_of_app in E.
Qed.
End Demo.

Lemma source_directory_moves_witness :
  exists s', process_source_directory (X := no_xml) (H := Demo.os) (H0 := Demo.dirs) (fun _ => "0.00") (fun _ => "0") 0 1 Demo.globals "/w" "heap" Demo.cfg
    "/w/heap/src" (Demo.state "/w") = Ok (tt, s') /\ pwd (world s') = "/w/heap".
Proof.
  destruct (is_ok_inv (process_source_directory (X := no_xml) (H := Demo.os) (H0 := Demo.dirs) (fun _ => "0.00") (fun _ => "0") 0 1 Demo.globals "/w" "heap" Demo.cfg
    "/w/heap/src" (Demo.state "/w"))) as [[[] s'] E]; [vm_compute; reflexivity|]. exists s'. split; [exact E|].
  apply (source_directory_moves (X := no_xml) (H := Demo.os) (H0 := Demo.dirs) (fun _ => "0.00") (fun _ => "0") 0 Demo.plain 1 Demo.globals "/w" "heap" Demo.cfg
    "/w/heap/src" (Demo.state "/w") s'); [by eexists|discriminate|exact E].
Defined.

Lemma directory_lookup_witness :
  process_source_directory (X := no_xml) (H := Demo.os) (H0 := Demo.dirs) (fun _ => "0.00") (fun _ => "0") 0 1 Demo.globals "/w" "heap" Demo.cfg "/w/heap/src" (Demo.state "/w") =
  directory_at (X := no_xml) (H := Demo.os) (H0 := Demo.dirs) (fun _ => "0.00") (fun _ => "0") 0 1 Demo.globals "/w" "heap" Demo.cfg "/w/heap/src" (Demo.state "/w").
Proof.
  apply (directory_lookup (X := no_xml) (H := Demo.os) (H0 := Demo.dirs) (fun _ => "0.00") (fun _ => "0") 0 Demo.plain 1). by eexists.
Defined.

Lemma copy_left_behind_witness :
  exists v s' w, run_project (X := no_xml) (H := Demo.os) (H0 := Demo.dirs) (fun _ => "0.00") (fun _ => "0") 0 1 "/w" 0 0 Demo.cfg (Demo.state "/w") = Ok (v, s') /\
    pwd w = "/w/heap" /\ world s' = cleanUp (H := Demo.os) w "heap".
Proof.
  destruct (is_ok_inv (run_project (X := no_xml) (H := Demo.os) (H0 := Demo.dirs) (fun _ => "0.00") (fun _ => "0") 0 1 "/w" 0 0 Demo.cfg (Demo.state "/w"))) as [[v s'] E]; [vm_compute; reflexivity|].
  exists v, s'. destruct (copy_left_behind (X := no_xml) (H := Demo.os) (H0 := Demo.dirs) (fun _ => "0.00") (fun _ => "0") 0 Demo.plain 1 "/w" 0 0 Demo.cfg 4 [] "src" (Demo.state "/w") v s') as (w & Hw & Hc);
    [by eexists|reflexivity..|discriminate|exact E|]. exists w. split; [exact E|]. split; [exact Hw|exact Hc].
Defined.

Lemma directory_never_equivalent_witness :
  exists s', process_source_file (X := no_xml) (H := Demo.os) (H0 := Demo.dirs) (fun _ => "0.00") (fun _ => "0") 0 Demo.globals "/w" "heap" "/w/heap/src/heap.c" Demo.cfg (Demo.state "/w/heap/src") = Ok (tt, s') /\
    ints (fom s') survived_count = 1 /\ ints (fom s') equivalent_mutants = 0.
Proof.
  destruct (is_ok_inv (process_source_file (X := no_xml) (H := Demo.os) (H0 := Demo.dirs) (fun _ => "0.00") (fun _ => "0") 0 Demo.globals "/w" "heap" "/w/heap/src/heap.c" Demo.cfg (Demo.state "/w/heap/src"))) as [[[] s'] E]; [vm_compute; reflexivity|].
  exists s'. split; [exact E|]. split.
  - vm_compute in E. injection E as <-. reflexivity.
  - apply (directory_never_equivalent (X := no_xml) (H := Demo.os) (H0 := Demo.dirs) (fun _ => "0.00") (fun _ => "0") 0 Demo.globals "/w" "heap" "/w/heap/src/heap.c" Demo.cfg 11 "branch  0 taken 1" (Demo.state "/w/heap/src") s');
      [reflexivity|exact Demo.missing|discriminate|reflexivity|reflexivity|exact E].
Defined.

(** The same file from the directory the engine was started in: the mutant is equivalent. *)
Example file_equivalent :
  exists s', process_source_file (X := no_xml) (H := Demo.os) (H0 := Demo.dirs) (fun _ => "0.00") (fun _ => "0") 0 Demo.globals "/w" "heap" "/w/heap/src/heap.c" Demo.cfg (Demo.state "/w") = Ok (tt, s') /\
    ints (fom s') equivalent_mutants = 1.
Proof.
  destruct (is_ok_inv (process_source_file (X := no_xml) (H := Demo.os) (H0 := Demo.dirs) (fun _ => "0.00") (fun _ => "0") 0 Demo.globals "/w" "heap" "/w/heap/src/heap.c" Demo.cfg (Demo.state "/w"))) as [[[] s'] E]; [vm_compute; reflexivity|].
  exists s'. split; [exact E|]. vm_compute in E. injection E as <-. reflexivity.
Qed.
End EngineDir.
