(* ===== verification/Hom.v ===== *)
(** * Higher-order mutants (src/controller.c)

    [genHOMFitness] combines first-order mutants, evaluates the combination and
    rates it; [generateSubsumingHOMs] searches for good combinations.  The
    engine's call of the search is commented out, but the code is there.

    The set of killing tests holds addresses of array cells, not test numbers;
    [address m] is where the array [killed_by_tests] of a mutant lies.  [uninit]
    is the content of a pointer cell that was never written. *)

From Stdlib Require Import Ascii String.
From S2P Require Import Prelude Double CString System Hashset ValgrindEval Process Config Stats Controller.

Module Hom.
Import Hashset Process Config Controller.

(** The members [HOMutant_source_file], [cfgDeviation] and [damage] are never read. *)
Record HOMutant := mk_HOM {
  FOMutants : list Mutant;
  hom_fragility : double;
  fitness : double
}.

Definition FOMutants_count (h : HOMutant) : Z := Z.of_nat (List.length (FOMutants h)).

Record HOMResult := mk_HOMResult { hom_total_mutants : Z; hom_kill_count : Z }.

Section hom.
Context `{OS} (junk : Z) (calloc_ok : Z -> bool) (uninit : cptr) (address : Mutant -> Z).
Context (g : Globals).

(** ** Fitness *)

Definition set_cell (i : nat) (p : cptr) (cells : list cptr) : list cptr := <[i := p]> cells.

Fixpoint set_files (i : nat) (foms : list Mutant) (cells : list cptr) : list cptr :=
  match foms with
  | [] => cells
  | m :: foms => set_files (S i) foms (set_cell (i + 3) (Str (mutant_source_file m)) cells)
  end.

Definition args_combineFOM (original_source : string) (foms : list Mutant) : list cptr :=
  let n := List.length foms in
  set_files 0 foms
    (set_cell (n + 2) Null
       (set_cell 2 (Str original_source)
          (set_cell 1 (Str "combineFOM.sh") (set_cell 0 (Str "bash") (replicate (n + 4) uninit))))).

(** The arguments a program gets: up to the first NULL. *)
Fixpoint exec_args (cells : list cptr) : res (list string) :=
  match cells with
  | Str s :: cells => l ← exec_args cells; Ok (s :: l)
  | Null :: _ => Ok []
  | Indet :: _ | [] => Undef
  end.

(** The addresses put into the set of killing tests. *)
Definition killing_addresses (m : Mutant) : res (list Z) :=
  match killed_by_tests_count m with
  | Some n => Ok ((fun c => address m + 4 * Z.of_nat c) <$> seq 0 (Z.to_nat n))
  | None => Undef
  end.

Fixpoint all_addresses (foms : list Mutant) : res (list Z) :=
  match foms with
  | [] => Ok []
  | m :: foms => l ← killing_addresses m; l' ← all_addresses foms; Ok (l ++ l')%list
  end.

(** The number of items of the set filled with them. *)
Definition killed_set_size (foms : list Mutant) : res Z :=
  match hashset_create calloc_ok with
  | None => Exit 134
  | Some set =>
      addresses ← all_addresses foms;
      set ← hashset_add_all calloc_ok set addresses;
      Ok (hashset_num_items set)
  end.

Definition dminus1 : double := dsub d0 d1.

Definition genHOMFitness (w : World) (rs : HOMResult) (srcDir target makeDir : string)
    (user_config : Config) (original_source : string) (hom : HOMutant) :
    res (World * HOMResult * HOMutant * double) :=
  args ← exec_args (args_combineFOM original_source (FOMutants hom));
  let w := (startprogram w args None 0).1 in
  match read_file w (srcDir ++ "/hom_dir.log") with
  | None => Ok (w, rs, hom, dminus1)
  | Some content =>
      match (sscanf content [DStr; DSpace; DStr]).2 with
      | [CStr hom_file_name; CStr hom_dir_loc] =>
          if (strlen hom_file_name <? strlen srcDir + 20) && (strlen hom_dir_loc <? strlen srcDir + 20) then
            let w := copy_file w hom_dir_loc target in
            let w := append_file w (mutation_results_path g)
                       (newline ++ "**** Mutant: " ++ hom_file_name ++ " ****" ++ newline) in
            total ← chk (hom_total_mutants rs + 1);
            stats ← Stats.get_non_trivial_FOM_stats junk w (temp_results_path g);
            prev_killed_by_tests ← load stats 0;
            '(w, r) ← runMake w makeDir (Some hom_file_name) (makeTestTarget user_config)
                        (Some (mutation_results_path g)) (make_logs_dir g);
            kills ← (if r =? 2 then chk (hom_kill_count rs + 1) else Ok (hom_kill_count rs));
            stats ← Stats.get_non_trivial_FOM_stats junk w (temp_results_path g);
            stats0 ← load stats 0;
            stats1 ← load stats 1;
            stats2 ← load stats 2;
            delta ← chk (stats0 - prev_killed_by_tests);
            kills ← (if delta =? 1 then chk (kills + 1) else Ok kills);
            let frag := ddiv (double_of_Z stats1) (double_of_Z stats2) in
            n ← killed_set_size (FOMutants hom);
            let fit := ddiv frag (ddiv (double_of_Z n) (double_of_Z stats2)) in
            Ok (w, mk_HOMResult total kills, mk_HOM (FOMutants hom) frag fit, fit)
          else Undef
      | _ => Undef
      end
  end.

(** ** Search *)

(** The state of the search: the world, the results, the archive and its
    capacity, and the number of evaluations without an optimum. *)
Record search := mk_search {
  s_world : World;
  s_results : HOMResult;
  hom_list : list HOMutant;
  hom_list_size : Z;
  no_new_optimum : Z
}.

(** The combination tried with the mutant [fom]; its array has [count] cells. *)
Definition combine (count : Z) (optimum : option HOMutant) (rand_fom fom : Mutant) : res HOMutant :=
  match optimum with
  | Some h =>
      if FOMutants_count h <? count then Ok (mk_HOM (FOMutants h ++ [fom]) d0 d0) else Undef
  | None => if 1 <? count then Ok (mk_HOM [rand_fom; fom] d0 d0) else Undef
  end.

(** Which of the old optimum and the new combination is kept. *)
Definition better (optimum : option HOMutant) (tmp_hom : HOMutant) (f : double) : option HOMutant :=
  if negb (deq f dminus1) then
    match optimum with
    | None => Some tmp_hom
    | Some o =>
        if dlt d0 f && dlt f d1 then if dlt (fitness o) f then Some tmp_hom else optimum
        else optimum
    end
  else optimum.

Section search.
Context (srcDir target makeDir : string) (user_config : Config) (original_source : string).
Context (count : Z) (r : Z) (rand_fom : Mutant).

Fixpoint try_foms (i : Z) (foms : list Mutant) (optimum : option HOMutant) (st : search) : res search :=
  match foms with
  | [] => Ok st
  | fom :: foms =>
      if i =? r then try_foms (i + 1) foms optimum st
      else
        tmp_hom ← combine count optimum rand_fom fom;
        '(w, rs, tmp_hom, f) ← genHOMFitness (s_world st) (s_results st) srcDir target makeDir
                                 user_config original_source tmp_hom;
        let optimum := better optimum tmp_hom f in
        nno ← (match optimum with None => chk (no_new_optimum st + 1) | Some _ => Ok (no_new_optimum st) end);
        size ← (if Z.of_nat (List.length (hom_list st)) =? hom_list_size st
                then chk (hom_list_size st * 2) else Ok (hom_list_size st));
        let archive := if negb (deq f dminus1) then (hom_list st ++ [tmp_hom])%list else hom_list st in
        try_foms (i + 1) foms optimum (mk_search w rs archive size nno)
  end.
End search.

(** The cells of the non-trivial mutants; the code reads them all. *)
Fixpoint read_cells (cells : list (option Mutant)) : res (list Mutant) :=
  match cells with
  | [] => Ok []
  | Some m :: cells => l ← read_cells cells; Ok (m :: l)
  | None :: _ => Undef
  end.

Fixpoint search_loop (fuel : nat) (rand : nat -> Z) (k : nat) (srcDir target makeDir : string)
    (user_config : Config) (original_source : string) (foms : list Mutant) (st : search) : res search :=
  let count := Z.of_nat (List.length foms) in
  match fuel with
  | O => OutOfFuel
  | S fuel =>
      limit ← chk (count * 2);
      if no_new_optimum st <? limit then
        let r := rand k mod count in
        rand_fom ← load foms r;
        st ← try_foms srcDir target makeDir user_config original_source count r rand_fom 0 foms None st;
        search_loop fuel rand (S k) srcDir target makeDir user_config original_source foms st
      else Ok st
  end.

(** [rand k] is the k-th value of [rand()]. *)
Definition generateSubsumingHOMs (fuel : nat) (rand : nat -> Z) (w : World) (rs : HOMResult)
    (srcDir target makeDir : string) (user_config : Config) (original_source : string)
    (fomResult : FOMResult) : res (World * HOMResult) :=
  let count := ints fomResult non_trivial_FOM_count in
  if negb (negb (ints fomResult mutant_kill_count =? ints fomResult total_mutants) && negb (count =? 0))
  then Ok (w, rs)
  else
    hom_list_size ← shl1_int count;
    foms ← read_cells (take (Z.to_nat count) (non_trivial_FOMS fomResult));
    st ← search_loop fuel rand 0 srcDir target makeDir user_config original_source foms
           (mk_search w rs [] hom_list_size 0);
    Ok (s_world st, s_results st).

(** ** Properties *)

(** The kills of all mutants of a combination, each test counted per mutant. *)
Definition kill_sum (foms : list Mutant) : Z :=
  foldr (fun m n => Z.max 0 (default 0 (killed_by_tests_count m)) + n) 0 foms.

Lemma killing_addresses_length m l :
  killing_addresses m = Ok l -> Z.of_nat (List.length l) = Z.max 0 (default 0 (killed_by_tests_count m)).
Proof.
  unfold killing_addresses. destruct (killed_by_tests_count m); [|done]. intros [= <-].
  rewrite length_fmap, length_seq. simpl. lia.
Qed.

Lemma all_addresses_length foms l :
  all_addresses foms = Ok l -> Z.of_nat (List.length l) = kill_sum foms.
Proof.
  revert l. induction foms as [|m foms IH]; intros l; simpl; [by intros [= <-]|].
  intros (l1 & E1 & (l2 & E2 & [= <-])%res_bind_inv)%res_bind_inv.
  rewrite length_app, Nat2Z.inj_add, (killing_addresses_length _ _ E1), (IH _ E2). done.
Qed.

(** The fitness of a combination does not rest on the tests that kill it.
    The set that should hold the tests killing any of its mutants is filled with
    the addresses of the array cells: since the arrays do not overlap, its size is
    the sum of the mutants' kills, so a test that kills several mutants counts
    several times. *)
Theorem fitness_counts_cells foms addrs :
  (forall n, calloc_ok n = true) ->
  all_addresses foms = Ok addrs -> NoDup addrs -> Forall live addrs ->
  Z.of_nat (List.length addrs) < 2 ^ 29 ->
  killed_set_size foms = Ok (kill_sum foms).
Proof.
  intros Hcalloc Ha Hnd Hlive Hlen. unfold killed_set_size.
  destruct (hashset_create_inv calloc_ok Hcalloc) as (s0 & -> & Hinv & Hcl & Hnd0 & He & Hn0).
  rewrite Ha. cbn [mbind res_bind].
  destruct (hashset_add_all_spec calloc_ok Hcalloc addrs s0) as (s & -> & Hinv' & _ & Hnd' & He');
    [done..|lia|]. cbn [mbind res_bind]. f_equal. unfold hashset_num_items.
  rewrite nodup_size by (done || apply Hinv'). rewrite He', He, (left_id_L ∅ (∪)).
  assert (lives addrs = addrs) as ->.
  { clear -Hlive. induction Hlive as [|x l Hx Hl IH]; [done|]. by rewrite lives_cons_live, IH. }
  rewrite size_list_to_set by done. by apply all_addresses_length.
Qed.

(** C38: The search does not end for a single non-trivial mutant.  There is
    nothing to combine it with, so no evaluation takes place and the count of
    evaluations without an optimum, which ends the search, never grows: for
    every number of iterations the search is still running. *)
Theorem single_fom_search_diverges fuel rand w rs srcDir target makeDir cfg original r m :
  ints r non_trivial_FOM_count = 1 -> ints r mutant_kill_count <> ints r total_mutants ->
  head (non_trivial_FOMS r) = Some (Some m) ->
  generateSubsumingHOMs fuel rand w rs srcDir target makeDir cfg original r = OutOfFuel.
Proof.
  intros Hc Hk Hm. unfold generateSubsumingHOMs. rewrite Hc. apply Z.eqb_neq in Hk. rewrite Hk.
  cbn [negb andb Z.eqb]. change (shl1_int 1) with (Ok (A := Z) 2). cbn [mbind res_bind].
  change (Z.to_nat 1) with 1%nat.
  destruct (non_trivial_FOMS r) as [|c l]; [done|]. injection Hm as ->. cbn [take read_cells mbind res_bind].
  rewrite take_0. cbn [read_cells mbind res_bind].
  enough (forall k st, no_new_optimum st = 0 ->
    search_loop fuel rand k srcDir target makeDir cfg original [m] st = OutOfFuel) as Hs.
  { by rewrite Hs. }
  induction fuel as [|fuel IH]; intros k st Hst; [done|]. cbn [search_loop List.length].
  change (chk (Z.of_nat 1 * 2)) with (Ok (A := Z) 2). cbn [mbind res_bind]. rewrite Hst.
  change (0 <? 2) with true. cbv iota. rewrite Z.mod_1_r. cbn [load decide].
  change (load [m] 0) with (Ok m). cbn [mbind res_bind try_foms Z.eqb]. by apply IH.
Qed.
End hom.

(** ** Witnesses *)

Definition two_foms : list Mutant :=
  [mk_Mutant "CRCR" "a.c" None (Some [2]) (Some 1) None d0 d1;
   mk_Mutant "OEAA" "b.c" None (Some [2]) (Some 1) None d0 d1].

(** Both are killed by the second test only, and the set has two items. *)
Lemma fitness_counts_cells_witness :
  killed_set_size malloc_succeeds (fun m => if String.eqb (mutant_source_file m) "a.c" then 64 else 96)
    two_foms = Ok 2.
Proof.
  apply (fitness_counts_cells malloc_succeeds
    (fun m => if String.eqb (mutant_source_file m) "a.c" then 64 else 96) two_foms [64; 96]);
    [done|reflexivity| | |by vm_compute].
  - repeat constructor; set_solver.
  - repeat constructor; done.
Defined.

Lemma single_fom_search_diverges_witness :
  generateSubsumingHOMs (H := example_os) 0 malloc_succeeds Null (fun _ => 64) (example_globals 0)
    1000 (fun _ => 7) (world_of ∅ ∅) (mk_HOMResult 0 0) "d" "t" "m" example_cfg "o"
    (mk_FOMResult None [Some (example_mutant None)] []
       (set_counter total_mutants 3 (set_counter mutant_kill_count 1
          (set_counter non_trivial_FOM_count 1 init_ints)))) = OutOfFuel.
Proof.
  apply (single_fom_search_diverges (H := example_os) 0 malloc_succeeds Null (fun _ => 64)
    (example_globals 0) 1000 (fun _ => 7) (world_of ∅ ∅) (mk_HOMResult 0 0) "d" "t" "m" example_cfg "o"
    _ (example_mutant None)); [reflexivity|done|reflexivity].
Defined.

End Hom.
