(* ===== verification/History.v ===== *)
(** * Histories of calls

    A data structure implements an abstract one when every call, from related
    states, returns, answers what the abstract step allows and leads to related
    states again.  [rel] carries a budget of calls, because a counter of the
    implementation may be full after so many.  The theorems lift one call to a
    history, for abstract steps given as a relation and as a function. *)

From S2P Require Import Prelude.

(** What a hash map asks of its two functions: keys are the same to the comparison
    when they stand for the same thing, [repr], and the hash depends on that only. *)
Class KeyLaws (f : Z -> Z) (cmp : Z -> Z -> Z) (repr : Z -> Z) : Prop := {
  compare_repr : forall x y, cmp x y = 0 <-> repr x = repr y;
  hash_repr : forall x y, repr x = repr y -> f x = f y
}.

Section history.
Context {S C R A : Type}.
Context (exec : C -> S -> res (S * R)).

(** The calls one after the other, and their results. *)
Fixpoint exec_all (cs : list C) (s : S) : res (S * list R) :=
  match cs with
  | [] => Ok (s, [])
  | c :: cs => '(s, r) ← exec c s; '(s, rs) ← exec_all cs s; Ok (s, r :: rs)
  end.

Section relation.
Context (step : A -> C -> R -> A -> Prop).

Inductive run : A -> list C -> list R -> A -> Prop :=
  | run_nil a : run a [] [] a
  | run_cons a c r b cs rs d : step a c r b -> run b cs rs d -> run a (c :: cs) (r :: rs) d.

Class Implements (valid : C -> bool) (rel : nat -> S -> A -> Prop) : Prop :=
  implements : forall n c s a, rel (Datatypes.S n) s a -> valid c = true ->
    exists s' r a', exec c s = Ok (s', r) /\ step a c r a' /\ rel n s' a'.

Lemma history_implements valid rel `{!Implements valid rel} cs n s a :
  rel (List.length cs + n)%nat s a -> forallb valid cs = true ->
  exists s' rs a', exec_all cs s = Ok (s', rs) /\ run a cs rs a' /\ rel n s' a'.
Proof.
  revert s a. induction cs as [|c cs IH]; intros s a Hrel Hv; cbn [exec_all].
  { exists s, [], a. split_and!; [done|constructor|done]. }
  simpl in Hv. apply andb_true_iff in Hv as [Hc Hcs].
  destruct (implements _ c s a Hrel Hc) as (s1 & r & a1 & -> & Hstep & Hrel1). cbn [mbind res_bind].
  destruct (IH s1 a1 Hrel1 Hcs) as (s2 & rs & a2 & -> & Hrun & Hrel2). cbn [mbind res_bind].
  exists s2, (r :: rs), a2. split_and!; [done|by econstructor|done].
Qed.
End relation.

Section function.
Context (apply : C -> A -> A * R).

Fixpoint apply_all (cs : list C) (a : A) : A * list R :=
  match cs with
  | [] => (a, [])
  | c :: cs => let '(a, r) := apply c a in let '(a, rs) := apply_all cs a in (a, r :: rs)
  end.

Definition fun_step (a : A) (c : C) (r : R) (b : A) : Prop := apply c a = (b, r).

Lemma run_apply a cs rs b : run fun_step a cs rs b -> apply_all cs a = (b, rs).
Proof. induction 1 as [|a c r b cs rs d Hs _ IH]; simpl; [done|]. by rewrite Hs, IH. Qed.

Lemma history_applies valid rel `{!Implements fun_step valid rel} cs n s a :
  rel (List.length cs + n)%nat s a -> forallb valid cs = true ->
  exists s', exec_all cs s = Ok (s', (apply_all cs a).2) /\ rel n s' (apply_all cs a).1.
Proof.
  intros Hrel Hv. destruct (history_implements fun_step valid rel cs n s a Hrel Hv)
    as (s' & rs & a' & E & Hrun & Hrel'). apply run_apply in Hrun. rewrite Hrun. eauto.
Qed.

(** Calls that are only made in some states. *)
Section guarded.
Context (allowed : C -> A -> bool).

Fixpoint allowed_all (cs : list C) (a : A) : bool :=
  match cs with
  | [] => true
  | c :: cs => allowed c a && allowed_all cs (apply c a).1
  end.

Class ImplementsWhen (rel : nat -> S -> A -> Prop) : Prop :=
  implements_when : forall n c s a, rel (Datatypes.S n) s a -> allowed c a = true ->
    exists s', exec c s = Ok (s', (apply c a).2) /\ rel n s' (apply c a).1.

Lemma history_when rel `{!ImplementsWhen rel} cs n s a :
  rel (List.length cs + n)%nat s a -> allowed_all cs a = true ->
  exists s', exec_all cs s = Ok (s', (apply_all cs a).2) /\ rel n s' (apply_all cs a).1.
Proof.
  revert s a. induction cs as [|c cs IH]; intros s a Hrel Hal; [by exists s|].
  simpl in Hal. apply andb_true_iff in Hal as [Hc Hcs].
  destruct (implements_when _ c s a Hrel Hc) as (s1 & E & Hrel1). destruct (IH s1 _ Hrel1 Hcs) as (s2 & E2 & Hrel2).
  exists s2. cbn [exec_all apply_all]. rewrite E. cbn [mbind res_bind]. destruct (apply c a) as [b r]. simpl in *.
  rewrite E2. cbn [mbind res_bind]. by destruct (apply_all cs b).
Qed.
End guarded.
End function.
End history.
