(* ===== verification/Bitfield.v ===== *)
(** * The bit field (src/PUTs/16CBitfield/bitfield.c)

    A field of [size] bits in an array of bytes, the first bit being the highest
    of the first byte.  A failed [assert] ends the process.  Pointers have 8
    bytes, so the structure has 16. *)

From Stdlib Require Import Ascii String.
From S2P Require Import Prelude CString.

Module Bitfield.

Record bitfield_t := mk_bitfield { bits : list Z; size : Z }.

Definition sizeof_pointer : Z := 8.
Definition sizeof_bitfield_t : Z := 16.

(** [unsigned int] arithmetic *)
Definition bytes_required_for_bits (nbits : Z) : Z :=
  wrap_u32 ((if 0 <? nbits mod 8 then 1 else 0) + nbits / 8).

Definition bitfield_init (nbits : Z) : bitfield_t :=
  mk_bitfield (replicate (Z.to_nat (bytes_required_for_bits nbits)) 0) nbits.

(** The block allocated has the size of a pointer. *)
Definition bitfield_new (nbits : Z) : res bitfield_t :=
  if sizeof_bitfield_t <=? sizeof_pointer then Ok (bitfield_init nbits) else Undef.

Definition bitfield_clone (me : bitfield_t) : res bitfield_t :=
  let n := Z.to_nat (bytes_required_for_bits (size me)) in
  if decide (n <= List.length (bits me))%nat
  then Ok (mk_bitfield (take n (bits me)) (size me)) else Undef.

(** [1u << (8u - 1u - bit % 8u)] *)
Definition mask_of (bit : Z) : Z := Z.shiftl 1 (7 - bit mod 8).

Definition bitfield_mark (me : bitfield_t) (bit : Z) : res bitfield_t :=
  if negb (bit <? size me) then Exit 134
  else
    let cint := bit / 8 in
    b ← load (bits me) cint;
    bits' ← store (bits me) cint (wrap_u8 (Z.lor b (mask_of bit)));
    Ok (mk_bitfield bits' (size me)).

Definition bitfield_unmark (me : bitfield_t) (bit : Z) : res bitfield_t :=
  if negb (bit <? size me) then Exit 134
  else
    let cint := bit / 8 in
    b ← load (bits me) cint;
    bits' ← store (bits me) cint (wrap_u8 (Z.land b (wrap_u32 (Z.lnot (mask_of bit)))));
    Ok (mk_bitfield bits' (size me)).

Definition bitfield_is_marked (me : bitfield_t) (bit : Z) : res Z :=
  if negb (bit <? size me) then Exit 134
  else
    let cint := bit / 8 in
    b ← load (bits me) cint;
    Ok (if Z.land b (mask_of bit) =? 0 then 0 else 1).

(** The structure is read for its bits after it was freed. *)
Definition bitfield_free (me : bitfield_t) : res unit :=
  let freed : option bitfield_t := None in
  match freed with Some _ => Ok tt | None => Undef end.

Definition bitfield_get_length (me : bitfield_t) : Z := size me.

Fixpoint str_loop (me : bitfield_t) (n : nat) (i : Z) : res string :=
  match n with
  | O => Ok ""
  | S n =>
      m ← bitfield_is_marked me i;
      rest ← str_loop me n (i + 1);
      Ok (String (if m =? 0 then "0" else "1") rest)
  end.

Definition bitfield_str (me : bitfield_t) : res string := str_loop me (Z.to_nat (size me)) 0.

(** ** The set of marked bits *)

Record wf (me : bitfield_t) : Prop := {
  wf_size : 0 <= size me < 2 ^ 32;
  wf_bytes : Z.of_nat (List.length (bits me)) = bytes_required_for_bits (size me);
  wf_range : Forall (fun b => 0 <= b < 2 ^ 8) (bits me)
}.

(** Whether a bit is set. *)
Definition marked (me : bitfield_t) (i : Z) : bool :=
  Z.testbit (default 0 (bits me !! Z.to_nat (i / 8))) (7 - i mod 8).

Lemma bytes_enough nbits i :
  0 <= nbits < 2 ^ 32 -> 0 <= i < nbits -> 0 <= i / 8 < bytes_required_for_bits nbits.
Proof.
  intros Hn Hi. unfold bytes_required_for_bits, wrap_u32.
  assert (nbits = 8 * (nbits / 8) + nbits mod 8) as E by (apply Z.div_mod; lia).
  pose proof (Z.mod_pos_bound nbits 8 ltac:(lia)).
  assert (i / 8 <= nbits / 8) by (apply Z.div_le_mono; lia).
  assert (nbits / 8 < 2 ^ 29) by (apply Z.div_lt_upper_bound; lia).
  split; [apply Z.div_pos; lia|].
  rewrite Z.mod_small by (case_match; lia).
  destruct (Z.ltb_spec 0 (nbits mod 8)); [lia|].
  assert (i / 8 < nbits / 8) by (apply Z.div_lt_upper_bound; lia). lia.
Qed.

Lemma byte_at me i :
  wf me -> 0 <= i < size me ->
  exists b, bits me !! Z.to_nat (i / 8) = Some b /\ 0 <= b < 2 ^ 8 /\ load (bits me) (i / 8) = Ok b.
Proof.
  intros [Hs Hb Hr] Hi. destruct (bytes_enough (size me) i Hs Hi).
  destruct (lookup_lt_is_Some_2 (bits me) (Z.to_nat (i / 8))) as [b Hbi]; [lia|].
  exists b. split; [done|]. split; [by eapply (Forall_lookup_1 _ _ _ _ Hr)|by apply load_ok].
Qed.

Lemma mask_bits i k : Z.testbit (mask_of i) k = bool_decide (k = 7 - i mod 8).
Proof.
  unfold mask_of. pose proof (Z.mod_pos_bound i 8 ltac:(lia)).
  destruct (Z.ltb_spec k 0).
  { rewrite Z.testbit_neg_r by done. symmetry. apply bool_decide_eq_false_2. lia. }
  rewrite Z.shiftl_spec by lia. case_bool_decide as Hk.
  - subst. by rewrite Z.sub_diag.
  - destruct (Z.ltb_spec k (7 - i mod 8)).
    + by rewrite Z.testbit_neg_r by lia.
    + change 1 with (2 ^ 0). apply Z.pow2_bits_false. lia.
Qed.

Lemma u8_bit z k : 0 <= k < 8 -> Z.testbit (wrap_u8 z) k = Z.testbit z k.
Proof. intros Hk. unfold wrap_u8. by rewrite Z.mod_pow2_bits_low by lia. Qed.

Lemma u8_range z : 0 <= wrap_u8 z < 2 ^ 8.
Proof. apply Z.mod_pos_bound. lia. Qed.

(** The byte after marking or unmarking. *)
Lemma new_byte_bit b i k (on : bool) :
  0 <= k < 8 ->
  Z.testbit (if on then wrap_u8 (Z.lor b (mask_of i))
             else wrap_u8 (Z.land b (wrap_u32 (Z.lnot (mask_of i))))) k =
  if decide (k = 7 - i mod 8) then on else Z.testbit b k.
Proof.
  intros Hk. destruct on; rewrite u8_bit by done.
  - rewrite Z.lor_spec, mask_bits. case_decide; case_bool_decide; try done.
    + by rewrite orb_true_r.
    + by rewrite orb_false_r.
  - rewrite Z.land_spec. unfold wrap_u32. rewrite Z.mod_pow2_bits_low, Z.lnot_spec, mask_bits by lia.
    case_decide; case_bool_decide; try done.
    + by rewrite andb_false_r.
    + by rewrite andb_true_r.
Qed.

(** Writing a byte changes one bit. *)
Lemma write_bit me i (on : bool) b :
  wf me -> 0 <= i < size me -> bits me !! Z.to_nat (i / 8) = Some b ->
  let b' := if on then wrap_u8 (Z.lor b (mask_of i))
            else wrap_u8 (Z.land b (wrap_u32 (Z.lnot (mask_of i)))) in
  store (bits me) (i / 8) b' = Ok (<[Z.to_nat (i / 8) := b']> (bits me)) /\
  wf (mk_bitfield (<[Z.to_nat (i / 8) := b']> (bits me)) (size me)) /\
  forall j, 0 <= j < size me ->
    marked (mk_bitfield (<[Z.to_nat (i / 8) := b']> (bits me)) (size me)) j =
      if decide (j = i) then on else marked me j.
Proof.
  intros Hwf Hi Hb b'. destruct (bytes_enough (size me) i (wf_size _ Hwf) Hi) as [H0 Hlt].
  pose proof (wf_bytes _ Hwf) as Hlen. split_and!.
  - apply store_ok. lia.
  - destruct Hwf as [Hs _ Hr]. split; simpl; [done|by rewrite length_insert|].
    apply Forall_insert; [done|]. unfold b'. destruct on; apply u8_range.
  - intros j Hj. unfold marked. simpl bits.
    pose proof (Z.mod_pos_bound j 8 ltac:(lia)). pose proof (Z.mod_pos_bound i 8 ltac:(lia)).
    destruct (decide (j / 8 = i / 8)) as [Ej|Ej].
    + rewrite Ej, list_lookup_insert_eq by lia. simpl default. unfold b'.
      rewrite new_byte_bit by lia. rewrite Hb. simpl default.
      assert (j = i <-> 7 - j mod 8 = 7 - i mod 8) as Hiff.
      { pose proof (Z.div_mod j 8 ltac:(lia)). pose proof (Z.div_mod i 8 ltac:(lia)). lia. }
      repeat case_decide; try done; tauto.
    + rewrite list_lookup_insert_ne.
      * rewrite decide_False; [done|]. by intros ->.
      * intros E. apply Ej. apply Z2Nat.inj in E; [done|lia|apply Z.div_pos; lia].
Qed.

Lemma mark_spec me i :
  wf me -> 0 <= i < size me ->
  exists me', bitfield_mark me i = Ok me' /\ wf me' /\ size me' = size me /\
    forall j, 0 <= j < size me -> marked me' j = if decide (j = i) then true else marked me j.
Proof.
  intros Hwf Hi. destruct (byte_at me i Hwf Hi) as (b & Hb & _ & Hl).
  destruct (write_bit me i true b Hwf Hi Hb) as (Hst & Hwf' & Hm).
  unfold bitfield_mark. destruct (Z.ltb_spec i (size me)); [|lia]. cbn [negb]. rewrite Hl.
  cbn [mbind res_bind]. rewrite Hst. eexists. split; [done|]. by split_and!.
Qed.

Lemma unmark_spec me i :
  wf me -> 0 <= i < size me ->
  exists me', bitfield_unmark me i = Ok me' /\ wf me' /\ size me' = size me /\
    forall j, 0 <= j < size me -> marked me' j = if decide (j = i) then false else marked me j.
Proof.
  intros Hwf Hi. destruct (byte_at me i Hwf Hi) as (b & Hb & _ & Hl).
  destruct (write_bit me i false b Hwf Hi Hb) as (Hst & Hwf' & Hm).
  unfold bitfield_unmark. destruct (Z.ltb_spec i (size me)); [|lia]. cbn [negb]. rewrite Hl.
  cbn [mbind res_bind]. rewrite Hst. eexists. split; [done|]. by split_and!.
Qed.

Lemma is_marked_spec me i :
  wf me -> 0 <= i < size me -> bitfield_is_marked me i = Ok (if marked me i then 1 else 0).
Proof.
  intros Hwf Hi. destruct (byte_at me i Hwf Hi) as (b & Hb & _ & Hl).
  unfold bitfield_is_marked. destruct (Z.ltb_spec i (size me)); [|lia]. cbn [negb]. rewrite Hl.
  cbn [mbind res_bind]. unfold marked. rewrite Hb. simpl default. f_equal.
  pose proof (Z.mod_pos_bound i 8 ltac:(lia)).
  destruct (Z.eqb_spec (Z.land b (mask_of i)) 0) as [E|E].
  - assert (Z.testbit (Z.land b (mask_of i)) (7 - i mod 8) = false) as Ht
      by (rewrite E; apply Z.testbit_0_l).
    rewrite Z.land_spec, mask_bits, bool_decide_eq_true_2, andb_true_r in Ht by done. by rewrite Ht.
  - destruct (Z.testbit b (7 - i mod 8)) eqn:Ht; [done|]. exfalso. apply E, Z.bits_inj'. intros k Hk.
    rewrite Z.land_spec, mask_bits, Z.testbit_0_l. case_bool_decide; subst; [by rewrite Ht|].
    apply andb_false_r.
Qed.

Lemma init_spec nbits :
  0 <= nbits < 2 ^ 32 -> wf (bitfield_init nbits) /\ forall i, marked (bitfield_init nbits) i = false.
Proof.
  intros Hn. split.
  - split; simpl; [done| |by apply Forall_replicate].
    rewrite length_replicate, Z2Nat.id; [done|]. unfold bytes_required_for_bits, wrap_u32.
    apply Z.mod_pos_bound. lia.
  - intros i. unfold marked, bitfield_init. simpl bits.
    destruct (replicate _ 0 !! _) as [b|] eqn:E; simpl; [|by rewrite Z.testbit_0_l].
    apply lookup_replicate in E as [-> _]. by rewrite Z.testbit_0_l.
Qed.

(** ** Histories *)

Inductive op := Mark (i : Z) | Unmark (i : Z).

Definition op_bit (o : op) : Z := match o with Mark i | Unmark i => i end.

Fixpoint run (me : bitfield_t) (ops : list op) : res bitfield_t :=
  match ops with
  | [] => Ok me
  | o :: ops =>
      me ← match o with Mark i => bitfield_mark me i | Unmark i => bitfield_unmark me i end;
      run me ops
  end.

Definition spec_op (s : gset Z) (o : op) : gset Z :=
  match o with Mark i => {[i]} ∪ s | Unmark i => s ∖ {[i]} end.

Lemma run_spec ops me (s : gset Z) :
  wf me -> Forall (fun o => 0 <= op_bit o < size me) ops ->
  (forall j, 0 <= j < size me -> marked me j = bool_decide (j ∈ s)) ->
  exists me', run me ops = Ok me' /\ wf me' /\ size me' = size me /\
    forall j, 0 <= j < size me -> marked me' j = bool_decide (j ∈ foldl spec_op s ops).
Proof.
  intros Hwf Hops Hs. revert me s Hwf Hops Hs.
  induction ops as [|o ops IH]; intros me s Hwf Hops Hs; [by exists me|].
  apply Forall_cons in Hops as [Ho Hops]. simpl.
  assert (exists me1, match o with Mark i => bitfield_mark me i | Unmark i => bitfield_unmark me i end =
      Ok me1 /\ wf me1 /\ size me1 = size me /\
      forall j, 0 <= j < size me -> marked me1 j = bool_decide (j ∈ spec_op s o))
    as (me1 & -> & Hwf1 & Hsz & Hm).
  { destruct o as [i|i]; simpl in *.
    - destruct (mark_spec me i Hwf Ho) as (me1 & E & ? & ? & Hm). exists me1. split_and!; try done.
      intros j Hj. rewrite Hm by done. case_decide; subst.
      + symmetry. apply bool_decide_eq_true_2. set_solver.
      + rewrite Hs by done. apply bool_decide_ext. set_solver.
    - destruct (unmark_spec me i Hwf Ho) as (me1 & E & ? & ? & Hm). exists me1. split_and!; try done.
      intros j Hj. rewrite Hm by done. case_decide; subst.
      + symmetry. apply bool_decide_eq_false_2. set_solver.
      + rewrite Hs by done. apply bool_decide_ext. set_solver. }
  cbn [mbind res_bind]. destruct (IH me1 (spec_op s o)) as (me' & E & ? & ? & Hm');
    rewrite ?Hsz; try done.
  exists me'. split_and!; try done; [congruence|]. intros j Hj. apply Hm'. by rewrite Hsz.
Qed.

(** The text of a set of bits. *)
Fixpoint set_text (n : nat) (i : Z) (s : gset Z) : string :=
  match n with
  | O => ""
  | S n => String (if decide (i ∈ s) then "1" else "0") (set_text n (i + 1) s)
  end.

Lemma str_loop_spec me n i (s : gset Z) :
  wf me -> 0 <= i -> i + Z.of_nat n <= size me ->
  (forall j, 0 <= j < size me -> marked me j = bool_decide (j ∈ s)) ->
  str_loop me n i = Ok (set_text n i s).
Proof.
  intros Hwf. revert i. induction n as [|n IH]; intros i Hi Hn Hs; [done|].
  cbn [str_loop]. rewrite is_marked_spec by (done || lia). cbn [mbind res_bind].
  rewrite IH by (done || lia). cbn [mbind res_bind set_text]. rewrite Hs by lia.
  case_bool_decide; case_decide; done.
Qed.

(** C26: The bit field implements a set.  From a new field of [n] bits, after any
    sequence of in-range marks and unmarks every operation has succeeded, no
    access was outside the bytes, and [bitfield_is_marked] answers 1 exactly for
    the bits marked since they were last unmarked; [bitfield_str] writes their
    characteristic string. *)
Theorem bitfield_refines_set n ops :
  0 <= n < 2 ^ 32 -> Forall (fun o => 0 <= op_bit o < n) ops ->
  exists me, run (bitfield_init n) ops = Ok me /\ bitfield_get_length me = n /\
    bitfield_str me = Ok (set_text (Z.to_nat n) 0 (foldl spec_op ∅ ops)) /\
    forall i, 0 <= i < n ->
      bitfield_is_marked me i = Ok (if decide (i ∈ foldl spec_op ∅ ops) then 1 else 0).
Proof.
  intros Hn Hops. destruct (init_spec n Hn) as [Hwf Hm].
  destruct (run_spec ops (bitfield_init n) ∅ Hwf Hops) as (me & E & Hwf' & Hsz & Hm').
  { intros j _. by rewrite Hm. }
  exists me. simpl size in *. split_and!; try done.
  { unfold bitfield_str. rewrite Hsz. apply str_loop_spec; [done|lia|lia|by rewrite Hsz]. }
  intros i Hi. rewrite is_marked_spec by (done || by rewrite Hsz). rewrite Hm' by done.
  case_bool_decide; case_decide; done.
Qed.

(** Allocating a bit field writes outside the block: [bitfield_new] allocates
    the size of a pointer for the structure. *)
Theorem bitfield_new_undefined n : bitfield_new n = Undef.
Proof. reflexivity. Qed.

Lemma bitfield_refines_set_witness :
  exists me, run (bitfield_init 20) [Mark 3; Mark 17; Unmark 3; Mark 9] = Ok me /\
    bitfield_is_marked me 17 = Ok 1 /\ bitfield_is_marked me 3 = Ok 0.
Proof.
  destruct (bitfield_refines_set 20 [Mark 3; Mark 17; Unmark 3; Mark 9]) as (me & E & _ & _ & Hm);
    [done|by repeat constructor|].
  exists me. split; [exact E|]. rewrite !Hm by done. split; reflexivity.
Defined.

End Bitfield.
