(* ===== verification/LLQueue.v ===== *)
(** * The linked-list queue (src/PUTs/14CLinkedListQueue/linked_list_queue.c)

    The nodes live in a store of memory blocks; 0 is the NULL pointer.  [malloc]
    picks an address that is not in use, [free] removes the block, and reading a
    freed block is undefined.  [queue] relates a queue to the list of its items,
    in order. *)

From S2P Require Import Prelude History.

Module LLQueue.

Record llqnode_t := mk_node { next : Z; item : Z }.
Abbreviation store_t := (gmap Z llqnode_t).

Record linked_list_queue_t := mk_queue { head : Z; tail : Z; count : Z }.

Section queue.
(** The address of a new block. *)
Context (malloc : store_t -> Z).

Definition deref (h : store_t) (p : Z) : res llqnode_t :=
  match h !! p with Some n => Ok n | None => Undef end.

Lemma deref_ok h p n : h !! p = Some n -> deref h p = Ok n.
Proof. unfold deref. by intros ->. Qed.

Definition llqueue_new : linked_list_queue_t := mk_queue 0 0 0.

(** The chain of nodes that [llqueue_free] releases. *)
Fixpoint free_loop (fuel : nat) (h : store_t) (node : Z) : res store_t :=
  match fuel with
  | O => OutOfFuel
  | S fuel =>
      if node =? 0 then Ok h
      else n ← deref h node; free_loop fuel (delete node h) (next n)
  end.

Definition llqueue_free (h : store_t) (qu : linked_list_queue_t) : res store_t :=
  free_loop (S (size h)) h (head qu).

Definition llqueue_poll (h : store_t) (qu : linked_list_queue_t) :
    res (store_t * linked_list_queue_t * Z) :=
  if head qu =? 0 then Ok (h, qu, 0)
  else
    n ← deref h (head qu);
    let tl := if tail qu =? head qu then 0 else tail qu in
    c ← chk (count qu - 1);
    Ok (delete (head qu) h, mk_queue (next n) tl c, item n).

Definition llqueue_offer (h : store_t) (qu : linked_list_queue_t) (x : Z) :
    res (store_t * linked_list_queue_t) :=
  let node := malloc h in
  if node =? 0 then Undef
  else
    let h := <[node := mk_node 0 x]> h in
    h ← (if tail qu =? 0 then Ok h
         else t ← deref h (tail qu); Ok (<[tail qu := mk_node node (item t)]> h));
    let hd := if head qu =? 0 then node else head qu in
    c ← chk (count qu + 1);
    Ok (h, mk_queue hd node c).

(** The search and removal shared by [llqueue_remove_item] and
    [llqueue_remove_item_via_cmpfunction]: [found] is the test on the item. *)
Fixpoint remove_loop (fuel : nat) (found : Z -> bool) (h : store_t) (qu : linked_list_queue_t)
    (prev node : Z) : res (store_t * linked_list_queue_t * Z) :=
  match fuel with
  | O => OutOfFuel
  | S fuel =>
      if node =? 0 then Ok (h, qu, 0)
      else
        n ← deref h node;
        if found (item n) then
          if node =? head qu then llqueue_poll h qu
          else
            p ← deref h prev;
            let h := <[prev := mk_node (next n) (item p)]> h in
            let tl := if node =? tail qu then prev else tail qu in
            c ← chk (count qu - 1);
            Ok (delete node h, mk_queue (head qu) tl c, item n)
        else remove_loop fuel found h qu node (next n)
  end.

Definition llqueue_remove_item (h : store_t) (qu : linked_list_queue_t) (x : Z) :=
  remove_loop (S (size h)) (fun y => y =? x) h qu 0 (head qu).

Definition llqueue_remove_item_via_cmpfunction (h : store_t) (qu : linked_list_queue_t) (x : Z)
    (cmp : option (Z -> Z -> Z)) : res (store_t * linked_list_queue_t * Z) :=
  match cmp with
  | None => Exit 134
  | Some cmp =>
  if x =? 0 then Exit 134
  else remove_loop (S (size h)) (fun y => cmp y x =? 0) h qu 0 (head qu)
  end.

Fixpoint get_loop (fuel : nat) (found : Z -> bool) (h : store_t) (node : Z) : res Z :=
  match fuel with
  | O => OutOfFuel
  | S fuel =>
      if node =? 0 then Ok 0
      else n ← deref h node; if found (item n) then Ok (item n) else get_loop fuel found h (next n)
  end.

Definition llqueue_get_item_via_cmpfunction (h : store_t) (qu : linked_list_queue_t) (x : Z)
    (cmp : option (Z -> Z -> Z)) : res Z :=
  match cmp with
  | None => Exit 134
  | Some cmp =>
  if x =? 0 then Exit 134
  else get_loop (S (size h)) (fun y => cmp y x =? 0) h (head qu)
  end.

Definition llqueue_count (qu : linked_list_queue_t) : Z := count qu.

(** ** The list a queue represents *)

(** From [p] there is a chain of the nodes [addrs] with the items [xs], ending
    in [q]. *)
Fixpoint chain (h : store_t) (p : Z) (addrs : list Z) (xs : list Z) (q : Z) : Prop :=
  match addrs, xs with
  | [], [] => p = q
  | a :: addrs, x :: xs => p = a /\ a <> 0 /\ exists nx, h !! a = Some (mk_node nx x) /\ chain h nx addrs xs q
  | _, _ => False
  end.

(** The part of a store outside a list of blocks. *)
Definition outside (addrs : list Z) (h : store_t) : store_t :=
  base.filter (fun kv => kv.1 ∉ addrs) h.

Lemma outside_lookup addrs h a :
  outside addrs h !! a = if decide (a ∈ addrs) then None else h !! a.
Proof.
  unfold outside. destruct (decide (a ∈ addrs)) as [Ha|Ha].
  - apply map_lookup_filter_None. right. intros n _ Hn. by apply Hn.
  - rewrite map_lookup_filter. destruct (h !! a); simpl; [|done].
    by rewrite option_guard_True.
Qed.

(** The queue's nodes are the blocks [addrs], holding [xs]; the rest of the
    store is [h0]. *)
Record queue_at (h0 h : store_t) (qu : linked_list_queue_t) (addrs xs : list Z) : Prop := {
  q_chain : chain h (head qu) addrs xs 0;
  q_nodup : NoDup addrs;
  q_tail : tail qu = default 0 (last addrs);
  q_count : count qu = Z.of_nat (List.length xs);
  q_frame : outside addrs h = h0
}.

Definition queue (h0 h : store_t) (qu : linked_list_queue_t) (xs : list Z) : Prop :=
  exists addrs, queue_at h0 h qu addrs xs.

Lemma chain_length h p addrs xs q : chain h p addrs xs q -> List.length addrs = List.length xs.
Proof.
  revert p xs. induction addrs as [|a addrs IH]; intros p [|x xs]; simpl; try done.
  intros (_ & _ & nx & _ & Hc). f_equal. by eapply IH.
Qed.

Lemma chain_in h p addrs xs q a : chain h p addrs xs q -> a ∈ addrs -> is_Some (h !! a).
Proof.
  revert p xs. induction addrs as [|b addrs IH]; intros p [|x xs]; simpl; try done.
  - by intros _ ?%elem_of_nil.
  - intros (_ & _ & nx & Hb & Hc) [->|Ha]%elem_of_cons; [by eexists|by eapply IH].
Qed.

Lemma chain_app h p addrs1 addrs2 xs1 xs2 q :
  List.length addrs1 = List.length xs1 ->
  chain h p (addrs1 ++ addrs2) (xs1 ++ xs2) q <->
  exists r, chain h p addrs1 xs1 r /\ chain h r addrs2 xs2 q.
Proof.
  revert p xs1. induction addrs1 as [|a addrs1 IH]; intros p [|x xs1] Hl; simpl in *; try done.
  - naive_solver.
  - injection Hl as Hl. split.
    + intros (-> & Ha & nx & Hh & (r & H1 & H2)%IH); [|done]. exists r. eauto 10.
    + intros (r & (-> & Ha & nx & Hh & H1) & H2). split_and!; [done..|]. exists nx. split; [done|].
      apply IH; eauto.
Qed.

(** A chain is not affected by a write outside it. *)
Lemma chain_frame h h' p addrs xs q :
  chain h p addrs xs q -> (forall a, a ∈ addrs -> h' !! a = h !! a) -> chain h' p addrs xs q.
Proof.
  revert p xs. induction addrs as [|b addrs IH]; intros p [|x xs]; simpl; try done.
  intros (-> & Hb & nx & Hn & Hc) Hf. split_and!; [done..|]. exists nx. split.
  - rewrite Hf; [done|constructor].
  - apply IH; [done|]. intros a Ha. apply Hf. by constructor.
Qed.

Lemma chain_nonzero h p addrs xs q a : chain h p addrs xs q -> a ∈ addrs -> a <> 0.
Proof.
  revert p xs. induction addrs as [|b addrs IH]; intros p [|x xs]; simpl; try done.
  - by intros _ ?%elem_of_nil.
  - intros (_ & Hb & nx & _ & Hc) [->|Ha]%elem_of_cons; [done|by eapply IH].
Qed.

Lemma chain_size h p addrs xs q : chain h p addrs xs q -> NoDup addrs -> (List.length addrs <= size h)%nat.
Proof.
  intros Hc Hnd. rewrite <- (size_list_to_set addrs (C := gset Z)) by done.
  rewrite <- size_dom. apply subseteq_size. intros a Ha%elem_of_list_to_set.
  apply elem_of_dom. by eapply chain_in.
Qed.

Ltac frame := apply map_eq; intros ?; rewrite !outside_lookup;
  repeat destruct (decide _); rewrite ?lookup_delete, ?lookup_insert; repeat case_decide; set_solver.

Lemma new_queue h : queue h h llqueue_new [].
Proof. exists []. split; simpl; try done; [constructor|]. apply map_eq. intros a. rewrite outside_lookup.
  destruct (decide _); set_solver. Qed.

Lemma queue_poll h0 h qu xs :
  queue h0 h qu xs -> in_int (count qu - 1) ->
  exists h' qu', llqueue_poll h qu = Ok (h', qu', default 0 (hd_error xs)) /\ queue h0 h' qu' (List.tl xs).
Proof.
  intros (addrs & [Hc Hnd Ht Hn Hfr]) Hi. unfold llqueue_poll.
  destruct addrs as [|a addrs], xs as [|x xs]; simpl in Hc; try done.
  - rewrite Hc. simpl. exists h, qu. split; [done|]. exists []. by split.
  - destruct Hc as (Hh & Ha & nx & Hl & Hc). apply NoDup_cons in Hnd as [Hnin Hnd].
    rewrite Hh. destruct (Z.eqb_spec a 0); [done|]. unfold deref. rewrite Hl. cbn [mbind res_bind].
    rewrite chk_ok by done. cbn [mbind res_bind]. do 2 eexists. split; [done|]. exists addrs.
    split; simpl; [|done| | |].
    + eapply chain_frame; [done|]. intros b Hb. apply lookup_delete_ne. by intros ->.
    + rewrite Ht. destruct addrs as [|b addrs]; simpl.
      * by rewrite Z.eqb_refl.
      * destruct (Z.eqb_spec (default 0 (last (b :: addrs))) a) as [E|E]; [|by destruct addrs].
        exfalso. apply Hnin. destruct (last (b :: addrs)) as [c|] eqn:El; [|by apply last_None in El].
        simpl in E. subst c. apply last_Some in El as [l ->]. set_solver.
    + rewrite Hn. simpl. lia.
    + rewrite <- Hfr. frame.
Qed.

(** [malloc] returns a block that is not in use. *)
Context (Hmalloc : forall h, malloc h <> 0 /\ h !! malloc h = None).

Lemma queue_offer h0 h qu xs x :
  queue h0 h qu xs -> in_int (count qu + 1) ->
  exists h' qu', llqueue_offer h qu x = Ok (h', qu') /\ queue h0 h' qu' (xs ++ [x]).
Proof.
  intros (addrs & [Hc Hnd Ht Hn Hfr]) Hi. unfold llqueue_offer. destruct (Hmalloc h) as [Hnz Hfresh].
  set (node := malloc h) in *. destruct (Z.eqb_spec node 0); [done|].
  assert (forall a, a ∈ addrs -> a <> node) as Hne.
  { intros a Ha ->. destruct (chain_in _ _ _ _ _ _ Hc Ha) as [nd0 Hn']. congruence. }
  pose proof (chain_length _ _ _ _ _ Hc) as Hlen.
  assert (Z.of_nat (List.length (xs ++ [x])) = count qu + 1) as Hcount.
  { rewrite length_app, Hn. simpl. lia. }
  destruct addrs as [|t pre _] using rev_ind.
  - destruct xs; [|done]. simpl in Hc, Ht. rewrite Ht, Hc. cbn [Z.eqb mbind res_bind].
    rewrite chk_ok by done. cbn [mbind res_bind]. do 2 eexists. split; [done|]. exists [node].
    split; simpl; [|apply NoDup_singleton|done|done|].
    + split_and!; [done..|]. exists 0. by rewrite lookup_insert_eq.
    + rewrite <- Hfr. frame.
  - rewrite last_snoc in Ht. simpl in Ht.
    destruct xs as [|y ys _] using rev_ind; [rewrite length_app in Hlen; simpl in Hlen; lia|].
    assert (List.length pre = List.length ys) as Hlen' by (rewrite !length_app in Hlen; simpl in Hlen; lia).
    apply chain_app in Hc as (r & Hc1 & Hc2); [|done]. simpl in Hc2.
    destruct Hc2 as (-> & Htnz & nx & Hth & ->).
    assert (t <> node) as Htn by (apply Hne; set_solver).
    rewrite Ht. destruct (Z.eqb_spec t 0); [done|]. unfold deref. rewrite lookup_insert_ne by done.
    rewrite Hth. cbn [mbind res_bind item]. rewrite chk_ok by done. cbn [mbind res_bind].
    do 2 eexists. split; [done|]. exists ((pre ++ [t]) ++ [node])%list.
    split; cbn [head tail count].
    + assert ((if head qu =? 0 then node else head qu) = head qu) as ->.
      { destruct (Z.eqb_spec (head qu) 0) as [E|]; [|done]. exfalso.
        destruct pre as [|a pre], ys as [|z ys]; simpl in Hc1; try done; [congruence|].
        destruct Hc1 as (E2 & ? & _). congruence. }
      apply chain_app; [by rewrite !length_app, Hlen'|]. exists node. split.
      * apply chain_app; [done|]. exists t. split; [|].
        -- eapply chain_frame; [exact Hc1|]. intros a Ha.
           apply NoDup_app in Hnd as (_ & Hd & _).
           rewrite !lookup_insert_ne; [done| |].
           ++ apply not_eq_sym, Hne. set_solver.
           ++ intros ->. apply (Hd a Ha). set_solver.
        -- simpl. split_and!; [done..|]. exists node. by rewrite lookup_insert_eq.
      * simpl. split_and!; [done..|]. exists 0. by rewrite lookup_insert_ne, lookup_insert_eq.
    + apply NoDup_app. split_and!; [done| |apply NoDup_singleton].
      intros a Ha ->%list_elem_of_singleton. by apply (Hne node Ha).
    + by rewrite last_snoc.
    + done.
    + rewrite <- Hfr. frame.
Qed.

(** ** Removal *)

Fixpoint remove_first (f : Z -> bool) (xs : list Z) : list Z :=
  match xs with [] => [] | x :: xs => if f x then xs else x :: remove_first f xs end.

(** Unlinking the node behind [b]. *)
Lemma unlink_spec h0 h qu pre b xs1 y a x rest xs2 nx :
  chain h (head qu) pre xs1 b -> chain h b (b :: a :: rest) (y :: x :: xs2) 0 ->
  NoDup (pre ++ b :: a :: rest) -> tail qu = default 0 (last (b :: a :: rest)) ->
  List.length pre = List.length xs1 ->
  h !! a = Some (mk_node nx x) ->
  count qu = Z.of_nat (List.length (xs1 ++ y :: x :: xs2)) ->
  outside (pre ++ b :: a :: rest) h = h0 ->
  queue_at h0 (delete a (<[b := mk_node nx y]> h))
    (mk_queue (head qu) (if a =? tail qu then b else tail qu) (count qu - 1))
    (pre ++ b :: rest) (xs1 ++ y :: xs2).
Proof.
  intros Hc1 Hc2 Hnd Ht Hlen Ha Hn <-. simpl in Hc2.
  destruct Hc2 as (_ & Hb0 & nb & Hb & (-> & Ha0 & nx' & Ha' & Hc2)).
  rewrite Ha' in Ha. injection Ha as ->.
  apply NoDup_app in Hnd as (Hnd1 & Hd & Hnd2).
  apply NoDup_cons in Hnd2 as [Hbn Hnd2]. apply NoDup_cons in Hnd2 as [Han Hnd2].
  assert (a <> b) by set_solver.
  split; cbn [head tail count].
  - apply chain_app; [done|]. exists b. split.
    + eapply chain_frame; [exact Hc1|]. intros c Hc.
      rewrite lookup_delete_ne, lookup_insert_ne; [done| |]; intros ->; apply (Hd c Hc); set_solver.
    + simpl. split_and!; [done..|]. exists nx. rewrite lookup_delete_ne, lookup_insert_eq by done.
      split; [done|]. eapply chain_frame; [exact Hc2|]. intros c Hc.
      rewrite lookup_delete_ne, lookup_insert_ne; [done| |]; set_solver.
  - apply NoDup_app. split_and!; [done| |].
    + intros c Hc [->|Hc']%elem_of_cons; apply (Hd _ Hc); set_solver.
    + apply NoDup_cons. set_solver.
  - rewrite Ht, last_app, !last_cons. destruct (last rest) as [e|] eqn:El; simpl.
    + destruct (Z.eqb_spec a e) as [->|]; [|done]. exfalso. apply Han.
      apply last_Some in El as [l ->]. set_solver.
    + by rewrite Z.eqb_refl.
  - rewrite Hn, !length_app. simpl. lia.
  - frame.
Qed.

Lemma remove_loop_spec fuel f h0 h qu pre addrs xs1 xs2 node :
  chain h (head qu) pre xs1 node -> chain h node addrs xs2 0 ->
  NoDup (pre ++ addrs) -> tail qu = default 0 (last (pre ++ addrs)) ->
  count qu = Z.of_nat (List.length (xs1 ++ xs2)) -> outside (pre ++ addrs) h = h0 -> in_int (count qu - 1) ->
  (List.length addrs < fuel)%nat -> existsb f xs1 = false ->
  exists h' qu', remove_loop fuel f h qu (default 0 (last pre)) node =
      Ok (h', qu', default 0 (List.find f xs2)) /\ queue h0 h' qu' (xs1 ++ remove_first f xs2).
Proof.
  revert pre addrs xs1 xs2 node. induction fuel as [|fuel IH];
    intros pre addrs xs1 xs2 node Hc1 Hc2 Hnd Ht Hn Hfr Hi Hf Hx1; [lia|].
  pose proof (chain_length _ _ _ _ _ Hc1) as Hlen1. cbn [remove_loop].
  destruct addrs as [|a addrs], xs2 as [|x xs2]; simpl in Hc2; try done.
  { subst node. simpl. exists h, qu. split; [done|]. exists (pre ++ [])%list. split; try done.
    apply chain_app; eauto. simpl. eauto. }
  destruct Hc2 as (-> & Ha & nx & Hh & Hc2). destruct (Z.eqb_spec a 0); [done|].
  rewrite (deref_ok _ _ _ Hh). cbn [mbind res_bind item next]. cbn [List.find remove_first].
  destruct (f x) eqn:Hfx.
  - destruct pre as [|b pre' _] using rev_ind.
    + destruct xs1; [|done]. simpl in Hc1. rewrite <- Hc1, Z.eqb_refl.
      destruct (queue_poll h0 h qu (x :: xs2)) as (h' & qu' & E & HQ); [|done|].
      { exists (a :: addrs). split; [|done..]. simpl. eauto 10. }
      rewrite E. exists h', qu'. done.
    + destruct xs1 as [|y ys _] using rev_ind; [rewrite length_app in Hlen1; simpl in Hlen1; lia|].
      assert (List.length pre' = List.length ys) as Hlen' by (rewrite !length_app in Hlen1; simpl in Hlen1; lia).
      apply chain_app in Hc1 as (r & Hp & Hb); [|done]. simpl in Hb.
      destruct Hb as (-> & Hb0 & nb & Hb & ->).
      rewrite last_snoc. simpl default. rewrite <- !app_assoc in *. simpl in Hnd, Ht, Hn.
      assert (a <> head qu) as Hah.
      { intros ->. apply NoDup_app in Hnd as (_ & Hd & Hnd2). destruct pre' as [|c pre'], ys; simpl in Hp; try done.
        - subst b. apply NoDup_cons in Hnd2 as [Hnd2 _]. set_solver.
        - destruct Hp as (E & _). apply (Hd c); rewrite <- ?E; set_solver. }
      destruct (Z.eqb_spec a (head qu)); [done|]. rewrite (deref_ok _ _ _ Hb). cbn [mbind res_bind item].
      rewrite chk_ok by done. cbn [mbind res_bind]. do 2 eexists. split; [done|].
      exists (pre' ++ b :: addrs)%list.
      apply (unlink_spec h0 h qu pre' b ys y a x addrs xs2 nx); try done.
      * simpl. eauto 15.
      * rewrite Ht, last_app. by rewrite !last_cons; destruct (last addrs).
  - destruct (IH (pre ++ [a])%list addrs (xs1 ++ [x])%list xs2 nx) as (h' & qu' & E & HQ).
    + apply chain_app; [done|]. exists a. split; [done|]. simpl. eauto.
    + done.
    + by rewrite <- app_assoc.
    + by rewrite <- app_assoc.
    + rewrite Hn, !length_app. simpl. lia.
    + by rewrite <- app_assoc.
    + done.
    + simpl in Hf. lia.
    + rewrite existsb_app, Hx1. simpl. by rewrite Hfx.
    + rewrite last_snoc in E. simpl default in E. exists h', qu'. split; [exact E|].
      by rewrite <- app_assoc in HQ.
Qed.

Lemma queue_remove f h0 h qu xs :
  queue h0 h qu xs -> in_int (count qu - 1) ->
  exists h' qu', remove_loop (S (size h)) f h qu 0 (head qu) =
      Ok (h', qu', default 0 (List.find f xs)) /\ queue h0 h' qu' (remove_first f xs).
Proof.
  intros (addrs & [Hc Hnd Ht Hn Hfr]) Hi.
  apply (remove_loop_spec (S (size h)) f h0 h qu [] addrs [] xs (head qu)); try done.
  pose proof (chain_size _ _ _ _ _ Hc Hnd). lia.
Qed.

Lemma get_loop_spec fuel f h node addrs xs :
  chain h node addrs xs 0 -> (List.length addrs < fuel)%nat ->
  get_loop fuel f h node = Ok (default 0 (List.find f xs)).
Proof.
  revert node addrs xs. induction fuel as [|fuel IH]; intros node addrs xs Hc Hf; [lia|].
  destruct addrs as [|a addrs], xs as [|x xs]; simpl in Hc; try done; simpl.
  - by subst.
  - destruct Hc as (-> & Ha & nx & Hh & Hc). destruct (Z.eqb_spec a 0); [done|].
    unfold deref. rewrite Hh. cbn [mbind res_bind item next]. destruct (f x); [done|].
    apply (IH nx addrs xs); [done|]. simpl in Hf. lia.
Qed.

Lemma free_loop_spec fuel h node addrs xs :
  chain h node addrs xs 0 -> NoDup addrs -> (List.length addrs < fuel)%nat ->
  free_loop fuel h node = Ok (outside addrs h).
Proof.
  revert h node addrs xs. induction fuel as [|fuel IH]; intros h node addrs xs Hc Hnd Hf; [lia|].
  destruct addrs as [|a addrs], xs as [|x xs]; simpl in Hc; try done; simpl.
  - subst. simpl. f_equal. frame.
  - destruct Hc as (-> & Ha & nx & Hh & Hc). apply NoDup_cons in Hnd as [Hnin Hnd].
    destruct (Z.eqb_spec a 0); [done|]. rewrite (deref_ok _ _ _ Hh). cbn [mbind res_bind next].
    rewrite (IH (delete a h) nx addrs xs); [| |done|simpl in Hf; lia].
    + f_equal. frame.
    + eapply chain_frame; [done|]. intros b Hb. apply lookup_delete_ne. by intros ->.
Qed.
(** ** Histories *)

Inductive command : Type :=
  | Offer (x : Z)
  | Poll
  | Remove (x : Z)
  | RemoveVia (x : Z) (cmp : Z -> Z -> Z)
  | GetVia (x : Z) (cmp : Z -> Z -> Z)
  | Count.

(** One call of the code; the result is 0 where the function returns nothing. *)
Definition exec (c : command) (s : store_t * linked_list_queue_t) :
    res (store_t * linked_list_queue_t * Z) :=
  let '(h, qu) := s in
  match c with
  | Offer x => '(h, qu) ← llqueue_offer h qu x; Ok (h, qu, 0)
  | Poll => llqueue_poll h qu
  | Remove x => llqueue_remove_item h qu x
  | RemoveVia x cmp => llqueue_remove_item_via_cmpfunction h qu x (Some cmp)
  | GetVia x cmp => r ← llqueue_get_item_via_cmpfunction h qu x (Some cmp); Ok (h, qu, r)
  | Count => Ok (h, qu, llqueue_count qu)
  end.

(** What the call means on the list of the items. *)
Definition apply_list (c : command) (xs : list Z) : list Z * Z :=
  match c with
  | Offer x => (xs ++ [x], 0)
  | Poll => (List.tl xs, default 0 (hd_error xs))
  | Remove x => let f := fun y => y =? x in (remove_first f xs, default 0 (List.find f xs))
  | RemoveVia x cmp => let f := fun y => cmp y x =? 0 in (remove_first f xs, default 0 (List.find f xs))
  | GetVia x cmp => (xs, default 0 (List.find (fun y => cmp y x =? 0) xs))
  | Count => (xs, Z.of_nat (List.length xs))
  end.

(** The calls that look for an item by comparison need one. *)
Definition valid (c : command) : bool :=
  match c with RemoveVia x _ | GetVia x _ => negb (x =? 0) | _ => true end.

Lemma remove_first_length f xs : (List.length (remove_first f xs) <= List.length xs)%nat.
Proof. induction xs as [|x xs IH]; simpl; [lia|]. destruct (f x); simpl; lia. Qed.

Lemma apply_list_length c xs : (List.length (apply_list c xs).1 <= S (List.length xs))%nat.
Proof.
  destruct c; simpl; try lia.
  - rewrite length_app. simpl. lia.
  - destruct xs; simpl; lia.
  - pose proof (remove_first_length (fun y => y =? x) xs). lia.
  - pose proof (remove_first_length (fun y => cmp y x =? 0) xs). lia.
Qed.

(** The queue holds the items, and there is room for [n] more. *)
Definition holds (h0 : store_t) (n : nat) (s : store_t * linked_list_queue_t) (xs : list Z) : Prop :=
  queue h0 s.1 s.2 xs /\ Z.of_nat (List.length xs) + Z.of_nat n <= int_max.

Lemma queue_call c h0 h qu xs :
  queue h0 h qu xs -> valid c = true -> Z.of_nat (List.length xs) < int_max ->
  exists h' qu', exec c (h, qu) = Ok (h', qu', (apply_list c xs).2) /\ queue h0 h' qu' (apply_list c xs).1.
Proof.
  intros HQ Hv Hlen. assert (count qu = Z.of_nat (List.length xs)) as Hc by (by destruct HQ as (? & [])).
  assert (in_int (count qu - 1)) by (unfold in_int, int_min, int_max in *; lia).
  assert (in_int (count qu + 1)) by (unfold in_int, int_min, int_max in *; lia).
  destruct c as [x| |x|x cmp|x cmp|]; cbn [exec apply_list valid fst snd] in *.
  - destruct (queue_offer h0 h qu xs x HQ) as (h' & qu' & -> & HQ'); [done|]. simpl. unfold queue in *. eauto.
  - by apply queue_poll.
  - by apply queue_remove.
  - unfold llqueue_remove_item_via_cmpfunction. destruct (x =? 0); [done|].
    by apply (queue_remove (fun y => cmp y x =? 0)).
  - unfold llqueue_get_item_via_cmpfunction. destruct (x =? 0); [done|].
    destruct HQ as (addrs & HQ). pose proof (q_chain _ _ _ _ _ HQ) as Hch.
    rewrite (get_loop_spec _ _ _ _ addrs xs Hch); [simpl; unfold queue; eauto|].
    pose proof (chain_size _ _ _ _ _ Hch (q_nodup _ _ _ _ _ HQ)). lia.
  - unfold llqueue_count. rewrite Hc. eauto.
Qed.

#[local] Instance queue_implements h0 : Implements exec (fun_step apply_list) valid (holds h0).
Proof.
  intros n c [h qu] xs [HQ Hlen] Hv. simpl in HQ.
  destruct (queue_call c h0 h qu xs HQ Hv) as (h' & qu' & E & HQ'); [lia|].
  pose proof (apply_list_length c xs) as Hl. unfold fun_step.
  destruct (apply_list c xs) as [ys r]. simpl in *.
  exists (h', qu'), r, ys. split_and!; [done|done|]. split; simpl; [done|lia].
Qed.

Lemma free_spec h0 h qu xs : queue h0 h qu xs -> llqueue_free h qu = Ok h0.
Proof.
  intros (addrs & [Hc Hnd _ _ <-]). eapply free_loop_spec; [done|done|].
  pose proof (chain_size _ _ _ _ _ Hc Hnd). lia.
Qed.

(** C23: any history of calls on a new queue answers as the list of the items does
    ([llqueue_offer] appends, [llqueue_poll] takes the first, the removals take the
    first match, [llqueue_count] is the length), and [llqueue_free] then gives back
    exactly the blocks the queue took: the store is the one it started from. *)
Theorem llqueue_refines_list (cs : list command) (h0 : store_t) :
  forallb valid cs = true -> Z.of_nat (List.length cs) <= int_max ->
  exists h qu, exec_all exec cs (h0, llqueue_new) = Ok (h, qu, (apply_all apply_list cs []).2) /\
    llqueue_count qu = Z.of_nat (List.length (apply_all apply_list cs []).1) /\
    llqueue_free h qu = Ok h0.
Proof.
  intros Hv Hlen.
  destruct (history_applies exec apply_list valid (holds h0) cs 0 (h0, llqueue_new) [])
    as ([h qu] & E & HQ & _); [split; [apply new_queue|simpl; lia]|done|].
  exists h, qu. split_and!; [done| |by eapply free_spec]. by destruct HQ as (? & []).
Qed.
End queue.

(** An allocator that takes the address behind the largest one in use. *)
Definition bump (h : store_t) : Z := 1 + set_fold Z.max 0 (dom h : gset Z).

Lemma bump_max (X : gset Z) a : a ∈ X -> a <= set_fold Z.max 0 X.
Proof.
  revert a. apply (set_fold_ind_L (fun r Y => forall a, a ∈ Y -> a <= r)); [set_solver|].
  intros b Y r Hb IH a [->%elem_of_singleton|Ha]%elem_of_union; [lia|]. specialize (IH a Ha). lia.
Qed.

Lemma bump_nonneg (X : gset Z) : 0 <= set_fold Z.max 0 X.
Proof. apply (set_fold_ind_L (fun r _ => 0 <= r)); lia. Qed.

Lemma bump_fresh h : bump h <> 0 /\ h !! bump h = None.
Proof.
  unfold bump. pose proof (bump_nonneg (dom h)). split; [lia|].
  destruct (h !! _) eqn:E; [|done]. apply mk_is_Some, elem_of_dom, (bump_max (dom h)) in E. lia.
Qed.

Lemma llqueue_refines_list_witness :
  let cs := [Offer 5; Offer 6; Offer 7; Remove 7; Offer 8; Poll; Count; GetVia 8 Z.sub; Poll; Poll; Poll] in
  (apply_all apply_list cs []).2 = [0; 0; 0; 7; 0; 5; 2; 8; 6; 8; 0] /\
  exists h qu, exec_all (exec bump) cs (∅, llqueue_new) = Ok (h, qu, (apply_all apply_list cs []).2) /\
    llqueue_count qu = 0 /\ llqueue_free h qu = Ok ∅.
Proof.
  intros cs. split; [vm_compute; reflexivity|].
  apply (llqueue_refines_list bump bump_fresh cs ∅); [reflexivity|]. vm_compute. discriminate.
Defined.
End LLQueue.
