(* ===== verification/Heap.v ===== *)
(** * The array heap (src/PUTs/12heap-master/heap.c)

    The heap is one block: the header and the array behind it, whose cells are
    the list [array].  [malloc] and [realloc] give the cells of the block, or
    nothing when they fail.  [heap_ok] is the order the array keeps; under it
    the poll takes a greatest item, and the items are a multiset. *)

From S2P Require Import Prelude History.

Module Heap.

Definition DEFAULT_CAPACITY : Z := 13.

Record heap_t := mk_heap {
  size : Z;
  count : Z;
  udata : Z;
  cmp : Z -> Z -> Z -> Z;
  array : list Z
}.

Definition set_array (h : heap_t) (a : list Z) : heap_t :=
  mk_heap (size h) (count h) (udata h) (cmp h) a.
Definition set_count (h : heap_t) (c : Z) : heap_t :=
  mk_heap (size h) c (udata h) (cmp h) (array h).

(** The header has 24 bytes and a cell 8. *)
Definition heap_sizeof (n : Z) : Z := wrap_size (24 + n * 8).

(** [const int idx]: the callers' unsigned index is converted. *)
Definition child_left (idx : Z) : res Z := t ← chk (wrap_int idx * 2); chk (t + 1).
Definition child_right (idx : Z) : res Z := t ← chk (wrap_int idx * 2); chk (t + 2).
Definition parent (idx : Z) : res Z := t ← chk (wrap_int idx - 1); Ok (Z.quot t 2).

Definition heap_init (a : list Z) (f : Z -> Z -> Z -> Z) (u n : Z) : heap_t := mk_heap n 0 u f a.

Section allocation.
(** The cells of the block of so many bytes that [malloc] returns, or that
    [realloc] returns for the block with these cells. *)
Context (malloc : Z -> option (list Z)) (realloc : list Z -> Z -> option (list Z)).

Definition heap_new (f : Z -> Z -> Z -> Z) (u : Z) : option heap_t :=
  match malloc (heap_sizeof DEFAULT_CAPACITY) with
  | None => None
  | Some a => Some (heap_init a f u DEFAULT_CAPACITY)
  end.

Definition ensurecapacity (h : heap_t) : option heap_t :=
  if count h <? size h then Some h
  else
    let n := wrap_u32 (size h * 2) in
    match realloc (array h) (heap_sizeof n) with
    | None => None
    | Some a => Some (mk_heap n (count h) (udata h) (cmp h) a)
    end.

Definition swap (h : heap_t) (i1 i2 : Z) : res heap_t :=
  tmp ← load (array h) i1;
  y ← load (array h) i2;
  a ← store (array h) i1 y;
  a ← store a i2 tmp;
  Ok (set_array h a).

(** [h->cmp(h->array[i], h->array[j], h->udata)]. *)
Definition compare_at (h : heap_t) (i j : Z) : res Z :=
  x ← load (array h) i; y ← load (array h) j; Ok (cmp h x y (udata h)).

Fixpoint pushup (fuel : nat) (h : heap_t) (idx : Z) : res (heap_t * Z) :=
  match fuel with
  | O => OutOfFuel
  | S fuel =>
      if idx =? 0 then Ok (h, 0)
      else
        p ← parent idx;
        c ← compare_at h idx p;
        if c <? 0 then Ok (h, -1)
        else h ← swap h idx p; pushup fuel h (wrap_u32 p)
  end.

(** The child [__pushdown] compares with, if there is one. *)
Definition pick_child (h : heap_t) (idx : Z) : res (option Z) :=
  childl ← child_left idx;
  childr ← child_right idx;
  let childl := wrap_u32 childl in
  let childr := wrap_u32 childr in
  if count h <=? childr then
    if count h <=? childl then Ok None else Ok (Some childl)
  else
    c ← compare_at h childl childr;
    Ok (Some (if c <? 0 then childr else childl)).

Fixpoint pushdown (fuel : nat) (h : heap_t) (idx : Z) : res heap_t :=
  match fuel with
  | O => OutOfFuel
  | S fuel =>
      ch ← pick_child h idx;
      match ch with
      | None => Ok h
      | Some child =>
          c ← compare_at h idx child;
          if c <? 0 then h ← swap h idx child; pushdown fuel h child else Ok h
      end
  end.

(** The fuel of the loops: an index above [pushup]'s gets smaller with every
    turn, one below [pushdown]'s larger. *)
Definition heap_offerx_unchecked (h : heap_t) (item : Z) : res heap_t :=
  a ← store (array h) (count h) item;
  let idx := count h in
  let h := set_count (set_array h a) (wrap_u32 (count h + 1)) in
  '(h, _) ← pushup (S (Z.to_nat idx)) h idx;
  Ok h.

Definition heap_offerx (h : heap_t) (item : Z) : res (heap_t * Z) :=
  if count h =? size h then Ok (h, -1)
  else h ← heap_offerx_unchecked h item; Ok (h, 0).

(** [*h] after the call and the result. *)
Definition heap_offer (h : heap_t) (item : Z) : res (option heap_t * Z) :=
  match ensurecapacity h with
  | None => Ok (None, -1)
  | Some h => h ← heap_offerx_unchecked h item; Ok (Some h, 0)
  end.

Definition heap_count (h : heap_t) : Z := wrap_int (count h).
Definition heap_size (h : heap_t) : Z := wrap_int (size h).

(** The result is 0, the NULL pointer, on an empty heap. *)
Definition heap_poll (h : heap_t) : res (heap_t * Z) :=
  if heap_count h =? 0 then Ok (h, 0)
  else
    item ← load (array h) 0;
    lst ← load (array h) (wrap_u32 (count h - 1));
    a ← store (array h) 0 lst;
    let h := set_count (set_array h a) (wrap_u32 (count h - 1)) in
    h ← (if 1 <? count h then pushdown (S (Z.to_nat (count h))) h 0 else Ok h);
    Ok (h, item).

Definition heap_peek (h : heap_t) : res Z :=
  if heap_count h =? 0 then Ok 0 else load (array h) 0.

Definition heap_clear (h : heap_t) : heap_t := set_count h 0.

(** From [idx] on; the result is an [int]. *)
Fixpoint item_get_idx (fuel : nat) (h : heap_t) (item idx : Z) : res Z :=
  match fuel with
  | O => OutOfFuel
  | S fuel =>
      if idx <? count h then
        x ← load (array h) idx;
        if cmp h x item (udata h) =? 0 then Ok (wrap_int idx)
        else item_get_idx fuel h item (wrap_u32 (idx + 1))
      else Ok (-1)
  end.

Definition find_item (h : heap_t) (item : Z) : res Z := item_get_idx (S (Z.to_nat (count h))) h item 0.

Definition heap_remove_item (h : heap_t) (item : Z) : res (heap_t * Z) :=
  idx ← find_item h item;
  if idx =? -1 then Ok (h, 0)
  else
    ret_item ← load (array h) idx;
    lst ← load (array h) (wrap_u32 (count h - 1));
    a ← store (array h) idx lst;
    a ← store a (wrap_u32 (count h - 1)) 0;
    let h := set_count (set_array h a) (wrap_u32 (count h - 1)) in
    '(h, _) ← pushup (S (Z.to_nat idx)) h (wrap_u32 idx);
    Ok (h, ret_item).

Definition heap_contains_item (h : heap_t) (item : Z) : res Z :=
  idx ← find_item h item; Ok (if idx =? -1 then 0 else 1).
End allocation.

(** ** The heap order *)

(** The comparison is a total preorder: [ge x y] when [x] is not smaller. *)
Definition ge (f : Z -> Z -> Z -> Z) (u x y : Z) : Prop := 0 <= f x y u.

Class TotalCmp (f : Z -> Z -> Z -> Z) (u : Z) : Prop := {
  ge_total : forall x y, ge f u x y \/ ge f u y x;
  ge_trans : forall x y z, ge f u x y -> ge f u y z -> ge f u x z
}.

Definition get (a : list Z) (i : Z) : Z := a !!! Z.to_nat i.
Definition par (i : Z) : Z := (i - 1) / 2.

#[local] Ltac div_lia := unfold par in *; Z.to_euclidean_division_equations; lia.

Lemma load_get (a : list Z) i : 0 <= i < Z.of_nat (List.length a) -> load a i = Ok (get a i).
Proof.
  intros Hi. destruct (load_in_range a i Hi) as (x & -> & Hx). unfold get.
  by rewrite (list_lookup_total_correct _ _ _ Hx).
Qed.

(** The array after [swap]. *)
Definition swapped (a : list Z) (i j : Z) : list Z :=
  <[Z.to_nat j := get a i]> (<[Z.to_nat i := get a j]> a).

Lemma get_insert (a : list Z) (i k x : Z) :
  0 <= i < Z.of_nat (List.length a) -> 0 <= k ->
  get (<[Z.to_nat i := x]> a) k = if decide (k = i) then x else get a k.
Proof.
  intros Hi Hk. unfold get. case_decide as E.
  - subst. apply list_lookup_total_insert_eq. lia.
  - apply list_lookup_total_insert_ne. lia.
Qed.

Lemma swapped_length a i j : List.length (swapped a i j) = List.length a.
Proof. unfold swapped. by rewrite !length_insert. Qed.

Lemma get_swapped a i j k :
  0 <= i < Z.of_nat (List.length a) -> 0 <= j < Z.of_nat (List.length a) -> 0 <= k ->
  get (swapped a i j) k = if decide (k = j) then get a i else if decide (k = i) then get a j else get a k.
Proof.
  intros Hi Hj Hk. unfold swapped. rewrite get_insert by (rewrite ?length_insert; lia).
  case_decide; [done|]. by rewrite get_insert.
Qed.

Lemma swap_ok h i j :
  0 <= i < Z.of_nat (List.length (array h)) -> 0 <= j < Z.of_nat (List.length (array h)) ->
  swap h i j = Ok (set_array h (swapped (array h) i j)).
Proof.
  intros Hi Hj. unfold swap. rewrite !load_get by lia. cbn [mbind res_bind].
  rewrite store_ok by lia. cbn [mbind res_bind]. rewrite store_ok by (rewrite length_insert; lia). done.
Qed.

Lemma swap_perm (l : list Z) i j :
  (i < List.length l)%nat -> (j < List.length l)%nat -> i <> j ->
  <[j := l !!! i]> (<[i := l !!! j]> l) ≡ₚ l.
Proof.
  intros Hi Hj Hne.
  destruct (insert_split l i (l !!! i) (l !!! j)) as [P1 P2]; [by apply list_lookup_lookup_total_lt|].
  destruct (insert_split (<[i := l !!! j]> l) j (l !!! j) (l !!! i)) as [P3 P4].
  { rewrite list_lookup_insert_ne by done. by apply list_lookup_lookup_total_lt. }
  etrans; [exact P3|]. symmetry. etrans; [exact P2|]. constructor.
  apply (Permutation_cons_inv (a := l !!! j)). by rewrite <- P1.
Qed.

(** A swap within the first [n] cells permutes them. *)
Lemma swapped_perm a i j n :
  0 <= i < n -> 0 <= j < n -> i <> j -> n <= Z.of_nat (List.length a) ->
  take (Z.to_nat n) (swapped a i j) ≡ₚ take (Z.to_nat n) a.
Proof.
  intros Hi Hj Hne Hn. unfold swapped, get. rewrite !take_insert_lt by lia.
  rewrite <- (swap_perm (take (Z.to_nat n) a) (Z.to_nat i) (Z.to_nat j)) at 2
    by (rewrite ?length_take; lia).
  by rewrite !lookup_total_take_lt by lia.
Qed.

Section order.
Context (f : Z -> Z -> Z -> Z) (u : Z) `{!TotalCmp f u}.

Local Notation "x >=c y" := (ge f u x y) (at level 70).

Definition ordered (a : list Z) (n : Z) : Prop :=
  forall i, 0 < i < n -> get a (par i) >=c get a i.

(** The order with the item at [idx] possibly greater than its ancestors. *)
Definition almost_up (a : list Z) (n idx : Z) : Prop :=
  (forall i, 0 < i < n -> i <> idx -> get a (par i) >=c get a i) /\
  (0 < idx -> forall i, 0 < i < n -> par i = idx -> get a (par idx) >=c get a i).

(** The order with the item at [idx] possibly smaller than its descendants. *)
Definition almost_down (a : list Z) (n idx : Z) : Prop :=
  (forall i, 0 < i < n -> par i <> idx -> get a (par i) >=c get a i) /\
  (0 < idx -> forall i, 0 < i < n -> par i = idx -> get a (par idx) >=c get a i).

Record uses (h : heap_t) : Prop := { uses_cmp : cmp h = f; uses_udata : udata h = u }.

Lemma compare_at_ok h i j :
  uses h -> 0 <= i < Z.of_nat (List.length (array h)) -> 0 <= j < Z.of_nat (List.length (array h)) ->
  compare_at h i j = Ok (f (get (array h) i) (get (array h) j) u).
Proof. intros [Ec Eu] Hi Hj. unfold compare_at. rewrite !load_get by lia. simpl. by rewrite Ec, Eu. Qed.

Lemma parent_ok i : 0 < i <= 2 ^ 30 -> parent i = Ok (par i).
Proof.
  intros Hi. unfold parent. rewrite wrap_int_id by (unfold in_int, int_min, int_max; lia).
  rewrite chk_ok by (unfold in_int, int_min, int_max; lia). simpl. f_equal. unfold par.
  apply Z.quot_div_nonneg; lia.
Qed.

Lemma ge_of_not x y : f x y u < 0 -> y >=c x.
Proof. intros H. destruct (ge_total x y) as [H'|H']; [unfold ge in H'; lia|done]. Qed.

Lemma ge_refl x : x >=c x.
Proof. by destruct (ge_total x x). Qed.

Lemma almost_up_ordered a n idx :
  almost_up a n idx -> (0 < idx < n -> get a (par idx) >=c get a idx) -> ordered a n.
Proof.
  intros [H1 _] H2 i Hi. destruct (decide (i = idx)) as [->|]; [by apply H2|by apply H1].
Qed.

Lemma almost_up_swap a n idx :
  0 < idx < n -> n <= Z.of_nat (List.length a) ->
  almost_up a n idx -> get a idx >=c get a (par idx) -> almost_up (swapped a idx (par idx)) n (par idx).
Proof.
  intros Hidx Hn [H1 H2] Hge. assert (0 <= par idx < idx) by div_lia.
  assert (forall i, 0 < i -> 0 <= par i) by (intros; div_lia).
  split.
  - intros i Hi Hne. rewrite !get_swapped by (try apply H0; lia).
    destruct (decide (i = par idx)); [done|]. destruct (decide (i = idx)) as [->|].
    + by rewrite decide_True.
    + destruct (decide (par i = par idx)) as [E|].
      * eapply ge_trans; [exact Hge|]. rewrite <- E. apply H1; lia.
      * destruct (decide (par i = idx)); [apply H2; lia|]. apply H1; lia.
  - intros Hp i Hi E. rewrite !get_swapped by (try apply H0; lia).
    assert (par (par idx) < par idx) by div_lia. assert (par i < i) by div_lia.
    rewrite (decide_False (P := par (par idx) = par idx)), (decide_False (P := par (par idx) = idx)) by lia.
    rewrite (decide_False (P := i = par idx)) by lia.
    destruct (decide (i = idx)) as [->|].
    + apply H1; lia.
    + eapply ge_trans; [apply H1; lia|]. rewrite <- E. apply H1; lia.
Qed.

(** What a rearrangement of the first [count] cells of a heap keeps. *)
Record arranged (h h' : heap_t) : Prop := {
  ar_size : size h' = size h;
  ar_count : count h' = count h;
  ar_uses : uses h';
  ar_length : List.length (array h') = List.length (array h);
  ar_perm : take (Z.to_nat (count h)) (array h') ≡ₚ take (Z.to_nat (count h)) (array h)
}.

Lemma arranged_refl h : uses h -> arranged h h.
Proof. by split. Qed.

Lemma arranged_swap h h' i j :
  uses h -> 0 <= i < count h -> 0 <= j < count h -> i <> j -> count h <= Z.of_nat (List.length (array h)) ->
  arranged (set_array h (swapped (array h) i j)) h' -> arranged h h'.
Proof.
  intros [] ????[]. split; simpl in *; [done..|by rewrite swapped_length in *|].
  etrans; [done|]. by apply swapped_perm.
Qed.

Lemma pushup_spec fuel h idx :
  uses h -> count h <= Z.of_nat (List.length (array h)) -> count h <= 2 ^ 30 ->
  0 <= idx < count h -> almost_up (array h) (count h) idx -> idx < Z.of_nat fuel ->
  exists h' r, pushup fuel h idx = Ok (h', r) /\ arranged h h' /\ ordered (array h') (count h).
Proof.
  revert h idx. induction fuel as [|fuel IH]; intros h idx Hu Hl Hc Hidx Hup Hf; [lia|]. cbn [pushup].
  destruct (Z.eqb_spec idx 0) as [->|].
  { exists h, 0. split_and!; [done|by apply arranged_refl|]. eapply almost_up_ordered; [done|lia]. }
  assert (0 <= par idx < idx) by div_lia.
  rewrite parent_ok by lia. cbn [mbind res_bind]. rewrite compare_at_ok by (done || lia). cbn [mbind res_bind].
  destruct (Z.ltb_spec (f (get (array h) idx) (get (array h) (par idx)) u) 0) as [Hlt|Hge].
  { exists h, (-1). split_and!; [done|by apply arranged_refl|]. eapply almost_up_ordered; [done|].
    intros _. by apply ge_of_not. }
  rewrite swap_ok by lia. cbn [mbind res_bind].
  replace (wrap_u32 (par idx)) with (par idx) by (unfold wrap_u32; rewrite Z.mod_small; lia).
  destruct (IH (set_array h (swapped (array h) idx (par idx))) (par idx)) as (h' & r & E & Har & Ho).
  - by destruct Hu.
  - simpl. by rewrite swapped_length.
  - done.
  - simpl. lia.
  - cbn [array count set_array]. apply almost_up_swap; [lia|done..].
  - lia.
  - exists h', r. split_and!; [done| |done]. apply (arranged_swap h h' idx (par idx)); [done|lia|lia|lia|done|done].
Qed.

Lemma almost_down_swap a n idx c :
  0 <= idx -> 0 < c < n -> par c = idx -> n <= Z.of_nat (List.length a) ->
  almost_down a n idx -> get a c >=c get a idx ->
  (forall i, 0 < i < n -> par i = idx -> get a c >=c get a i) ->
  almost_down (swapped a idx c) n c.
Proof.
  intros Hidx Hc Hp Hn [H1 H2] Hge Hmax. assert (idx < c) by div_lia.
  assert (forall i, 0 < i -> 0 <= par i < i) as Hpar by (intros; div_lia).
  split.
  - intros i Hi Hne. pose proof (Hpar i). rewrite !get_swapped by lia.
    rewrite (decide_False (P := par i = c)) by done.
    destruct (decide (par i = idx)) as [E|Hpi].
    + destruct (decide (i = c)); [done|]. destruct (decide (i = idx)); [lia|]. by apply Hmax.
    + destruct (decide (i = c)) as [->|]; [done|].
      destruct (decide (i = idx)) as [->|]; [|by apply H1].
      apply H2; [lia|lia|done].
  - intros _ i Hi E. pose proof (Hpar i). rewrite Hp, !get_swapped by lia.
    rewrite (decide_False (P := idx = c)), decide_True by lia.
    rewrite !decide_False by lia. rewrite <- E. apply H1; lia.
Qed.

Lemma child_ok idx : 0 <= idx < 2 ^ 30 - 1 ->
  child_left idx = Ok (2 * idx + 1) /\ child_right idx = Ok (2 * idx + 2).
Proof.
  intros Hi. unfold child_left, child_right.
  rewrite wrap_int_id by (unfold in_int, int_min, int_max; lia).
  rewrite chk_ok by (unfold in_int, int_min, int_max; lia). cbn [mbind res_bind].
  rewrite !chk_ok by (unfold in_int, int_min, int_max; lia). split; f_equal; lia.
Qed.

(** The child that is picked is a greatest one. *)
Lemma pick_child_ok h idx :
  uses h -> count h <= Z.of_nat (List.length (array h)) -> count h < 2 ^ 30 -> 0 <= idx < count h ->
  match pick_child h idx with
  | Ok None => forall i, 0 < i < count h -> par i <> idx
  | Ok (Some c) => 0 < c < count h /\ par c = idx /\
      forall i, 0 < i < count h -> par i = idx -> get (array h) c >=c get (array h) i
  | _ => False
  end.
Proof.
  intros Hu Hl Hc Hidx. unfold pick_child. destruct (child_ok idx) as [-> ->]; [lia|]. cbn [mbind res_bind].
  replace (wrap_u32 (2 * idx + 1)) with (2 * idx + 1) by (unfold wrap_u32; rewrite Z.mod_small; lia).
  replace (wrap_u32 (2 * idx + 2)) with (2 * idx + 2) by (unfold wrap_u32; rewrite Z.mod_small; lia).
  assert (forall i, 0 < i -> par i = idx -> i = 2 * idx + 1 \/ i = 2 * idx + 2) as Hch by (intros; div_lia).
  destruct (Z.leb_spec (count h) (2 * idx + 2)).
  - destruct (Z.leb_spec (count h) (2 * idx + 1)).
    + intros i Hi E. destruct (Hch i); lia.
    + split_and!; [lia|lia|div_lia|]. intros i Hi E. destruct (Hch i) as [->| ->]; [lia|done|apply ge_refl|lia].
  - rewrite compare_at_ok by (done || lia). cbn [mbind res_bind].
    destruct (Z.ltb_spec (f (get (array h) (2 * idx + 1)) (get (array h) (2 * idx + 2)) u) 0).
    + split_and!; [lia|lia|div_lia|]. intros i Hi E.
      destruct (Hch i) as [->| ->]; [lia|done|by apply ge_of_not|apply ge_refl].
    + split_and!; [lia|lia|div_lia|]. intros i Hi E.
      destruct (Hch i) as [->| ->]; [lia|done|apply ge_refl|done].
Qed.

Lemma pushdown_spec fuel h idx :
  uses h -> count h <= Z.of_nat (List.length (array h)) -> count h < 2 ^ 30 ->
  0 <= idx < count h -> almost_down (array h) (count h) idx -> count h - idx <= Z.of_nat fuel ->
  exists h', pushdown fuel h idx = Ok h' /\ arranged h h' /\ ordered (array h') (count h).
Proof.
  revert h idx. induction fuel as [|fuel IH]; intros h idx Hu Hl Hc Hidx Hdn Hf; [lia|]. cbn [pushdown].
  pose proof (pick_child_ok h idx Hu Hl Hc Hidx) as Hch.
  destruct (pick_child h idx) as [[c|]| | |]; try done; cbn [mbind res_bind].
  2:{ exists h. split_and!; [done|by apply arranged_refl|]. intros i Hi. by apply Hdn, Hch. }
  destruct Hch as (Hc1 & Hp & Hmax). assert (idx < c) by div_lia.
  rewrite compare_at_ok by (done || lia). cbn [mbind res_bind].
  destruct (Z.ltb_spec (f (get (array h) idx) (get (array h) c) u) 0) as [Hlt|Hge].
  - rewrite swap_ok by lia. cbn [mbind res_bind].
    destruct (IH (set_array h (swapped (array h) idx c)) c) as (h' & E & Har & Ho).
    + by destruct Hu.
    + simpl. by rewrite swapped_length.
    + done.
    + simpl. lia.
    + cbn [array count set_array]. apply almost_down_swap; try done; [lia|]. by apply ge_of_not.
    + simpl. lia.
    + exists h'. split_and!; [done| |done]. apply (arranged_swap h h' idx c); [done|lia|lia|lia|done|done].
  - exists h. split_and!; [done|by apply arranged_refl|]. intros i Hi.
    destruct (decide (par i = idx)) as [E|]; [|by apply Hdn].
    rewrite E. eapply ge_trans; [exact Hge|]. by apply Hmax.
Qed.

(** ** The operations *)

Definition items (h : heap_t) : list Z := take (Z.to_nat (count h)) (array h).

(** A heap of at least [cap] cells, below the size at which an index could
    overflow. *)
Context (cap : Z) (Hcap : 0 < cap).

Record heap_ok (h : heap_t) : Prop := {
  ok_uses : uses h;
  ok_count : 0 <= count h <= size h;
  ok_small : count h < 2 ^ 30;
  ok_size : cap <= size h;
  ok_length : Z.of_nat (List.length (array h)) = size h;
  ok_order : ordered (array h) (count h)
}.

Lemma heap_ok_arranged h h' :
  uses h -> 0 <= count h <= size h -> count h < 2 ^ 30 -> cap <= size h ->
  Z.of_nat (List.length (array h)) = size h ->
  arranged h h' -> ordered (array h') (count h) -> heap_ok h' /\ items h' ≡ₚ items h.
Proof.
  intros ????? [Hs Hc Hu Hl Hp] Ho. unfold items. rewrite Hc. split; [|done].
  split; rewrite ?Hs, ?Hc, ?Hl; done.
Qed.

Lemma items_length h : heap_ok h -> Z.of_nat (List.length (items h)) = count h.
Proof. intros []. unfold items. rewrite length_take. lia. Qed.

Lemma offerx_unchecked_spec h x :
  heap_ok h -> count h < size h -> count h + 1 < 2 ^ 30 ->
  exists h', heap_offerx_unchecked h x = Ok h' /\ heap_ok h' /\ items h' ≡ₚ x :: items h.
Proof.
  intros [Hu Hc Hsm Hs Hl Ho] Hlt Hb. unfold heap_offerx_unchecked. rewrite store_ok by lia.
  cbn [mbind res_bind]. rewrite wrap_u32_id by lia.
  set (a := <[Z.to_nat (count h) := x]> (array h)).
  set (h1 := set_count (set_array h a) (count h + 1)).
  assert (List.length a = List.length (array h)) as Ha by (unfold a; by rewrite length_insert).
  assert (uses h1) as Hu1 by (by destruct Hu).
  destruct (pushup_spec (S (Z.to_nat (count h))) h1 (count h)) as (h' & r & E & Har & Hor);
    [done|simpl; lia|simpl; lia|simpl; lia| |lia|].
  { split; simpl.
    - intros i Hi Hne. assert (0 <= par i < i) by div_lia. unfold a.
      rewrite !get_insert by lia. rewrite !decide_False by lia. apply Ho. lia.
    - intros Hpos i Hi Hp. exfalso. div_lia. }
  rewrite E. cbn [mbind res_bind]. exists h'. split; [done|].
  destruct (heap_ok_arranged h1 h') as [Hok Hp]; [done|simpl; lia|simpl; lia|done|simpl; lia|done..|].
  split; [done|]. rewrite Hp. unfold items, h1. simpl.
  replace (Z.to_nat (count h + 1)) with (S (Z.to_nat (count h))) by lia.
  rewrite (take_S_r a _ x) by (apply list_lookup_insert_eq; lia).
  unfold a. rewrite take_insert_ge by lia. by rewrite Permutation_app_comm.
Qed.

(** The root is a greatest item. *)
Lemma root_max a n i : ordered a n -> 0 <= i < n -> get a 0 >=c get a i.
Proof.
  intros Ho Hi. destruct Hi as [H0 Hn]. revert i H0 Hn.
  apply (Z_lt_induction (fun i => i < n -> get a 0 >=c get a i)). intros i IH Hn.
  destruct (decide (i <= 0)) as [|].
  { unfold get. replace (Z.to_nat i) with (Z.to_nat 0) by lia. apply ge_refl. }
  assert (0 <= par i < i) by div_lia. eapply ge_trans; [apply (IH (par i)); lia|]. apply Ho. lia.
Qed.

Lemma items_in h y : heap_ok h -> y ∈ items h <-> exists i, 0 <= i < count h /\ y = get (array h) i.
Proof.
  intros [_ Hc _ _ Hl _]. unfold items. split.
  - intros (i & Hi)%list_elem_of_lookup. apply lookup_take_Some in Hi as [Hi Hlt].
    exists (Z.of_nat i). split; [lia|]. unfold get. rewrite Nat2Z.id. symmetry. by apply list_lookup_total_correct.
  - intros (i & Hi & ->). apply list_elem_of_lookup. exists (Z.to_nat i). apply lookup_take_Some.
    split; [|lia]. apply list_lookup_lookup_total_lt. lia.
Qed.

Lemma items_max h y : heap_ok h -> y ∈ items h -> get (array h) 0 >=c y.
Proof. intros Hok (i & Hi & ->)%items_in; [|done]. by eapply root_max; [apply Hok|]. Qed.

Lemma heap_count_ok h : heap_ok h -> heap_count h = count h.
Proof. intros [_ ? ? _ _ _]. apply wrap_int_id. unfold in_int, int_min, int_max. lia. Qed.

(** Moving the last item over the first. *)
Lemma take_last_over_first (a : list Z) (n : nat) :
  (0 < n <= List.length a)%nat ->
  a !!! 0%nat :: take (n - 1) (<[0%nat := a !!! (n - 1)%nat]> a) ≡ₚ take n a.
Proof.
  intros Hn. destruct a as [|x a]; simpl in Hn; [lia|]. destruct n as [|[|n]]; [lia|done|].
  simpl. constructor. rewrite (take_S_r a n (a !!! n)) by (apply list_lookup_lookup_total_lt; lia).
  by rewrite Permutation_app_comm.
Qed.

Lemma heap_poll_max h :
  heap_ok h -> 0 < count h ->
  exists h', heap_poll h = Ok (h', get (array h) 0) /\ heap_ok h' /\ get (array h) 0 :: items h' ≡ₚ items h.
Proof.
  intros Hok Hpos. unfold heap_poll. rewrite heap_count_ok by done.
  destruct (Z.eqb_spec (count h) 0); [lia|]. destruct Hok as [Hu Hc Hsm Hs Hl Ho].
  rewrite wrap_u32_id by lia. rewrite !load_get by lia. cbn [mbind res_bind].
  rewrite store_ok by lia. cbn [mbind res_bind].
  set (a := <[Z.to_nat 0 := get (array h) (count h - 1)]> (array h)).
  set (h1 := set_count (set_array h a) (count h - 1)).
  assert (List.length a = List.length (array h)) as Ha by (unfold a; by rewrite length_insert).
  assert (uses h1) as Hu1 by (by destruct Hu).
  assert (exists h', (if 1 <? count h1 then pushdown (S (Z.to_nat (count h1))) h1 0 else Ok h1) = Ok h' /\
    arranged h1 h' /\ ordered (array h') (count h1)) as (h' & -> & Har & Hor).
  { destruct (Z.ltb_spec 1 (count h1)) as [H1|H1]; simpl in H1.
    - apply pushdown_spec; [done|simpl; lia|simpl; lia|simpl; lia| |simpl; lia].
      split; [|lia]. simpl. intros i Hi Hne. assert (0 <= par i < i) by div_lia. unfold a.
      rewrite !get_insert by lia. rewrite !decide_False by lia. apply Ho. lia.
    - exists h1. split_and!; [done|by apply arranged_refl|]. intros i Hi. simpl in Hi. lia. }
  cbn [mbind res_bind]. exists h'. split; [done|].
  destruct (heap_ok_arranged h1 h') as [Hok Hp]; [done|simpl; lia|simpl; lia|done|simpl; lia|done..|].
  split; [done|]. rewrite Hp. unfold items, h1. simpl.
  replace (Z.to_nat (count h - 1)) with (Z.to_nat (count h) - 1)%nat by lia.
  rewrite <- (take_last_over_first (array h) (Z.to_nat (count h))) by lia.
  unfold a, get. by replace (Z.to_nat (count h - 1)) with (Z.to_nat (count h) - 1)%nat by lia.
Qed.

Lemma find_item_spec h x :
  heap_ok h ->
  exists r, find_item h x = Ok r /\
    (r = -1 /\ (forall i, 0 <= i < count h -> f (get (array h) i) x u <> 0) \/
     0 <= r < count h /\ f (get (array h) r) x u = 0).
Proof.
  intros [[Ef Eu] Hc Hsm Hs Hl _]. unfold find_item.
  assert (forall fuel idx, 0 <= idx <= count h -> count h - idx < Z.of_nat fuel ->
    (forall i, 0 <= i < idx -> f (get (array h) i) x u <> 0) ->
    exists r, item_get_idx fuel h x idx = Ok r /\
    (r = -1 /\ (forall i, 0 <= i < count h -> f (get (array h) i) x u <> 0) \/
     0 <= r < count h /\ f (get (array h) r) x u = 0)) as Hloop.
  { induction fuel as [|fuel IH]; intros idx Hi Hf Hpre; [lia|]. cbn [item_get_idx].
    destruct (Z.ltb_spec idx (count h)).
    - rewrite load_get by lia. cbn [mbind res_bind]. rewrite Ef, Eu.
      destruct (Z.eqb_spec (f (get (array h) idx) x u) 0) as [E|E].
      + eexists. split; [done|]. right. rewrite wrap_int_id by (unfold in_int, int_min, int_max; lia). split; [lia|done].
      + rewrite wrap_u32_id by lia. apply IH; [lia..|]. intros i Hi'.
        destruct (decide (i = idx)) as [->|]; [done|]. apply Hpre. lia.
    - exists (-1). split; [done|]. left. split; [done|]. intros i Hi'. apply Hpre. lia. }
  apply Hloop; lia.
Qed.

(** ** Histories *)

Inductive command : Type :=
  | Offer (x : Z)
  | Offerx (x : Z)
  | Poll
  | Peek
  | Contains (x : Z)
  | Count
  | Clear.

(** What a call may answer on a bag of items, and the bag behind it: the poll
    and the peek give a greatest item, [heap_offerx] may refuse once there are
    [cap] items. *)
Inductive bag_step : list Z -> command -> Z -> list Z -> Prop :=
  | bag_offer xs x : bag_step xs (Offer x) 0 (x :: xs)
  | bag_offerx xs x : bag_step xs (Offerx x) 0 (x :: xs)
  | bag_full xs x : cap <= Z.of_nat (List.length xs) -> bag_step xs (Offerx x) (-1) xs
  | bag_poll xs x xs' :
      xs ≡ₚ x :: xs' -> (forall y, y ∈ xs -> x >=c y) -> bag_step xs Poll x xs'
  | bag_poll_empty : bag_step [] Poll 0 []
  | bag_peek xs x : x ∈ xs -> (forall y, y ∈ xs -> x >=c y) -> bag_step xs Peek x xs
  | bag_peek_empty : bag_step [] Peek 0 []
  | bag_contains xs x y : y ∈ xs -> f y x u = 0 -> bag_step xs (Contains x) 1 xs
  | bag_lacks xs x : (forall y, y ∈ xs -> f y x u <> 0) -> bag_step xs (Contains x) 0 xs
  | bag_count xs : bag_step xs Count (Z.of_nat (List.length xs)) xs
  | bag_clear xs : bag_step xs Clear 0 [].

Section history.
Context (realloc : list Z -> Z -> option (list Z)).

Definition exec (c : command) (h : heap_t) : res (heap_t * Z) :=
  match c with
  | Offer x =>
      '(h, r) ← heap_offer realloc h x;
      match h with Some h => Ok (h, r) | None => Undef end
  | Offerx x => heap_offerx h x
  | Poll => heap_poll h
  | Peek => r ← heap_peek h; Ok (h, r)
  | Contains x => r ← heap_contains_item h x; Ok (h, r)
  | Count => Ok (h, heap_count h)
  | Clear => Ok (heap_clear h, 0)
  end.

(** [realloc] succeeds and keeps the cells of the block. *)
Context (Hrealloc : forall a n, 0 <= n < 2 ^ 32 -> Z.of_nat (List.length a) <= n ->
  exists b, realloc a (heap_sizeof n) = Some b /\ Z.of_nat (List.length b) = n /\ take (List.length a) b = a).

Lemma ensurecapacity_spec h :
  heap_ok h -> exists h', ensurecapacity realloc h = Some h' /\ heap_ok h' /\ items h' = items h /\
    count h' < size h' /\ count h' = count h.
Proof.
  intros Hok. unfold ensurecapacity. destruct (Z.ltb_spec (count h) (size h)); [by exists h|].
  destruct Hok as [Hu Hc Hsm Hs Hl Ho]. rewrite wrap_u32_id by lia.
  destruct (Hrealloc (array h) (size h * 2)) as (b & -> & Hb & Hpre); [lia..|].
  eexists. split; [done|].
  assert (forall i, 0 <= i < count h -> get b i = get (array h) i) as Hget.
  { intros i Hi. unfold get. rewrite <- Hpre. rewrite lookup_total_take_lt by lia. done. }
  split_and!; simpl; [|unfold items; simpl|lia|done].
  - split; simpl; [by destruct Hu|lia|done|lia|lia|]. intros i Hi. assert (0 <= par i < i) by div_lia.
    rewrite !Hget by lia. by apply Ho.
  - transitivity (take (Z.to_nat (count h)) (take (List.length (array h)) b)); [|by rewrite Hpre].
    rewrite take_take. f_equal. lia.
Qed.

Lemma bag_call c h xs :
  heap_ok h -> items h ≡ₚ xs -> count h + 1 < 2 ^ 30 ->
  exists h' r ys, exec c h = Ok (h', r) /\ bag_step xs c r ys /\ heap_ok h' /\ items h' ≡ₚ ys.
Proof.
  intros Hok Hxs Hb. pose proof (items_length h Hok) as Hlen. rewrite Hxs in Hlen.
  assert (forall y, y ∈ xs <-> y ∈ items h) as Hin by (intros y; by rewrite Hxs).
  pose proof (ok_count h Hok).
  assert (count h = 0 -> xs = []) as Hemp by (destruct xs; simpl in *; [done|lia]).
  assert (0 < count h -> get (array h) 0 ∈ items h) as Hroot
    by (intros; apply items_in; [done|]; exists 0; split; [lia|done]).
  destruct c as [x|x| | |x| |]; cbn [exec].
  - unfold heap_offer. destruct (ensurecapacity_spec h Hok) as (h1 & -> & Hok1 & Hi1 & Hlt & Hc1).
    destruct (offerx_unchecked_spec h1 x) as (h' & -> & Hok' & Hi'); [done|done|lia|].
    exists h', 0, (x :: xs). split_and!; [done|constructor|done|]. by rewrite Hi', Hi1, Hxs.
  - unfold heap_offerx. destruct (Z.eqb_spec (count h) (size h)) as [E|].
    + exists h, (-1), xs. split_and!; [done| |done..]. apply bag_full. pose proof (ok_size h Hok). lia.
    + destruct (offerx_unchecked_spec h x) as (h' & -> & Hok' & Hi'); [done|lia|lia|].
      exists h', 0, (x :: xs). split_and!; [done|constructor|done|]. by rewrite Hi', Hxs.
  - destruct (decide (count h = 0)) as [E|].
    + exists h, 0, []. rewrite (Hemp E) in *. split_and!; [|apply bag_poll_empty|done|done].
      unfold heap_poll. by rewrite heap_count_ok, E.
    + destruct (heap_poll_max h) as (h' & -> & Hok' & Hi'); [done|lia|].
      exists h', (get (array h) 0), (items h'). split_and!; [done| |done..].
      constructor; [by rewrite Hi'|]. intros y Hy%Hin. by apply items_max.
  - unfold heap_peek. rewrite heap_count_ok by done. destruct (Z.eqb_spec (count h) 0) as [E|].
    + exists h, 0, []. rewrite (Hemp E) in *. by split_and!; [|apply bag_peek_empty|..].
    + pose proof (ok_length h Hok). rewrite load_get by lia.
      exists h, (get (array h) 0), xs. split_and!; [done| |done..].
      constructor; [apply Hin, Hroot; lia|]. intros y Hy%Hin. by apply items_max.
  - unfold heap_contains_item. destruct (find_item_spec h x Hok) as (r & -> & Hr). cbn [mbind res_bind].
    destruct Hr as [[-> Hno]|[Hr Hyes]].
    + exists h, 0, xs. split_and!; [done| |done..]. apply bag_lacks.
      intros y (i & Hi & ->)%Hin%items_in; [by apply Hno|done].
    + exists h, 1, xs. split_and!; [by destruct (Z.eqb_spec r (-1)); [lia|]| |done..].
      apply (bag_contains _ _ (get (array h) r)); [|done]. apply Hin, items_in; eauto.
  - rewrite heap_count_ok by done. rewrite <- Hlen. exists h. eauto 10 using bag_step.
  - exists (heap_clear h), 0, []. split_and!; [done|constructor| |done].
    destruct Hok as [[] ? ? ? ? ?]. split; simpl; try done; [lia|]. intros i Hi. simpl in Hi. lia.
Qed.

Lemma bag_step_length xs c r ys : bag_step xs c r ys -> (List.length ys <= S (List.length xs))%nat.
Proof. destruct 1 as [| | |? ? ? Hp| | | | | | |]; simpl; try lia. rewrite Hp. simpl. lia. Qed.

(** The heap holds the bag, and there is room for [n] more items. *)
Definition holds (n : nat) (h : heap_t) (xs : list Z) : Prop :=
  heap_ok h /\ items h ≡ₚ xs /\ count h + Z.of_nat n < 2 ^ 30.

#[local] Instance bag_implements : Implements exec bag_step (fun _ => true) holds.
Proof.
  intros n c h xs (Hok & Hxs & Hn) _. destruct (bag_call c h xs) as (h' & r & ys & E & Hstep & Hok' & Hi'); [done|done|lia|].
  exists h', r, ys. split_and!; [done..|]. split_and!; [done..|].
  pose proof (items_length h Hok) as L. pose proof (items_length h' Hok') as L'.
  rewrite Hxs in L. rewrite Hi' in L'. pose proof (bag_step_length _ _ _ _ Hstep). lia.
Qed.

Lemma bag_history cs h xs :
  holds (List.length cs) h xs ->
  exists h' rs ys, exec_all exec cs h = Ok (h', rs) /\ run bag_step xs cs rs ys /\ heap_ok h' /\ items h' ≡ₚ ys.
Proof.
  intros Hh. destruct (history_implements exec bag_step (fun _ => true) holds cs 0 h xs) as (h' & rs & ys & E & Hr & Hh').
  - by rewrite Nat.add_0_r.
  - by apply forallb_forall.
  - exists h', rs, ys. split_and!; [done|done|apply Hh'..].
Qed.
End history.
End order.

(** C22: any history of offers, polls, peeks, membership tests, counts and clears on
    a new heap runs without undefined behaviour and answers as a bag of items
    does: a poll takes an item that no other one exceeds, [heap_offerx] refuses only
    when the initial capacity is used up, and [heap_offer] never does.  The array
    keeps the heap order.  (The comparison is a total preorder, the allocations succeed and
    there are fewer than 2^30 calls.  [heap_remove_item], which can lose the heap order, is
    not among the calls, see [heap_remove_item_flaws].) *)
Theorem heap_refines_bag (malloc : Z -> option (list Z)) (realloc : list Z -> Z -> option (list Z))
    (f : Z -> Z -> Z -> Z) (u : Z) (cs : list command) :
  TotalCmp f u ->
  (exists a, malloc (heap_sizeof DEFAULT_CAPACITY) = Some a /\ Z.of_nat (List.length a) = DEFAULT_CAPACITY) ->
  (forall a n, 0 <= n < 2 ^ 32 -> Z.of_nat (List.length a) <= n ->
    exists b, realloc a (heap_sizeof n) = Some b /\ Z.of_nat (List.length b) = n /\ take (List.length a) b = a) ->
  Z.of_nat (List.length cs) < 2 ^ 30 ->
  exists h0 h rs ys, heap_new malloc f u = Some h0 /\ exec_all (exec realloc) cs h0 = Ok (h, rs) /\
    run (bag_step f u DEFAULT_CAPACITY) [] cs rs ys /\ items h ≡ₚ ys /\ ordered f u (array h) (count h).
Proof.
  intros Hf (a & Ha & Hl) Hr Hn. unfold heap_new. rewrite Ha. eexists.
  destruct (bag_history f u DEFAULT_CAPACITY eq_refl realloc Hr cs (heap_init a f u DEFAULT_CAPACITY) [])
    as (h & rs & ys & E & Hrun & Hok & Hi).
  - split_and!; [|done|simpl; lia]. split; simpl; try done. intros i Hi. simpl in Hi. lia.
  - exists h, rs, ys. split_and!; [done..|]. apply Hok.
Qed.

(** The comparison of numbers. *)
Definition diff (x y _ : Z) : Z := x - y.

#[global] Instance diff_total u : TotalCmp diff u.
Proof. split; unfold ge, diff; lia. Qed.

(** Blocks whose new cells are zero. *)
Definition zero_cells (bytes : Z) : list Z := replicate (Z.to_nat ((bytes - 24) / 8)) 0.
Definition zmalloc (bytes : Z) : option (list Z) := Some (zero_cells bytes).
Definition zrealloc (a : list Z) (bytes : Z) : option (list Z) :=
  Some (a ++ drop (List.length a) (zero_cells bytes)).

Lemma zrealloc_keeps a n : 0 <= n < 2 ^ 32 -> Z.of_nat (List.length a) <= n ->
  exists b, zrealloc a (heap_sizeof n) = Some b /\ Z.of_nat (List.length b) = n /\ take (List.length a) b = a.
Proof.
  intros Hn Hl. unfold zrealloc, zero_cells, heap_sizeof. eexists. split; [done|].
  rewrite wrap_size_id by lia. replace ((24 + n * 8 - 24) / 8) with n by (Z.to_euclidean_division_equations; lia).
  rewrite length_app, length_drop, length_replicate. split; [lia|]. by rewrite take_app_length.
Qed.

Lemma heap_refines_bag_witness :
  let cs := [Offer 3; Offer 9; Offer 5; Poll; Peek; Contains 3; Count; Poll; Poll; Poll] in
  exists h0 h rs ys, heap_new zmalloc diff 0 = Some h0 /\ exec_all (exec zrealloc) cs h0 = Ok (h, rs) /\
    run (bag_step diff 0 DEFAULT_CAPACITY) [] cs rs ys /\ items h ≡ₚ ys /\ ordered diff 0 (array h) (count h).
Proof.
  intros cs. apply (heap_refines_bag zmalloc zrealloc diff 0 cs).
  - apply _.
  - eexists. split; reflexivity.
  - apply zrealloc_keeps.
  - reflexivity.
Defined.

(** The answers of that history. *)
Example history_answers :
  match heap_new zmalloc diff 0 with
  | Some h => exec_all (exec zrealloc) [Offer 3; Offer 9; Offer 5; Poll; Peek; Contains 3; Count; Poll; Poll; Poll] h
      ≫= (fun '(_, rs) => Ok rs) = Ok [0; 0; 0; 9; 5; 1; 2; 5; 3; 0]
  | None => False
  end.
Proof. vm_compute. reflexivity. Qed.

(** ** Removal of an item *)

Definition filled (xs : list Z) : heap_t := mk_heap 13 (Z.of_nat (List.length xs)) 0 diff (xs ++ replicate (13 - List.length xs) 0).

(** [heap_remove_item] puts the last item in the place of the removed one and
    only pushes it up: where that item is smaller than the children of the place
    the heap order is lost, and a later poll returns an item that is not the
    greatest.  Removing the item of the last cell pushes up the NULL the cell was
    just given: the item of the root is lost and NULL stays in the heap. *)
Theorem heap_remove_item_flaws :
  (let h := filled [10; 9; 3; 8; 7; 2; 1] in
   ordered diff 0 (array h) (count h) /\
   exists h', heap_remove_item h 9 = Ok (h', 9) /\ ~ ordered diff 0 (array h') (count h') /\
     exists h'', heap_poll h' = Ok (h'', 10) /\ 8 ∈ items h'' /\
       exists h3, heap_poll h'' = Ok (h3, 3)) /\
  (let h := filled [-1; -2] in
   ordered diff 0 (array h) (count h) /\
   exists h', heap_remove_item h (-2) = Ok (h', -2) /\ items h' = [0]).
Proof.
  assert (forall xs, forallb (fun i => 0 <=? diff (get xs (par (Z.of_nat i))) (get xs (Z.of_nat i)) 0)
    (seq 1 (List.length xs - 1)) = true -> ordered diff 0 (array (filled xs)) (count (filled xs))) as Hord.
  { intros xs Hall i Hi. simpl in Hi. apply forallb_forall with (x := Z.to_nat i) in Hall; [|apply in_seq; lia].
    rewrite Z2Nat.id in Hall by lia. apply Z.leb_le in Hall. unfold ge, filled, get in *. simpl.
    rewrite !lookup_total_app_l; [done|lia|]. unfold par. Z.to_euclidean_division_equations. lia. }
  split; (split; [apply Hord; reflexivity|]).
  - eexists. split; [vm_compute; reflexivity|]. split.
    + intros Ho. specialize (Ho 3 ltac:(simpl; lia)). vm_compute in Ho. by apply Ho.
    + eexists. split; [vm_compute; reflexivity|]. split; [|eexists; vm_compute; reflexivity].
      vm_compute. repeat constructor.
  - eexists. split; vm_compute; reflexivity.
Qed.
End Heap.
