(* ===== verification/Bipbuffer.v ===== *)
(** * The bip buffer (src/PUTs/15bipbuffer-master/bipbuffer.c)

    The cursors are [unsigned int], the size an [unsigned long] and the results
    [int]; the block holds the bytes [data].  A pointer into the block is its
    offset.  [contents] is region A followed by region B. *)

From S2P Require Import Prelude.

Module Bipbuffer.

Record bipbuf_t := mk_bip {
  size : Z;
  a_start : Z;
  a_end : Z;
  b_end : Z;
  b_inuse : Z;
  data : list Z
}.

Definition bipbuf_sizeof (n : Z) : Z := wrap_size (24 + n).

Definition bipbuf_unused (me : bipbuf_t) : Z :=
  if b_inuse me =? 1 then wrap_int (wrap_u32 (a_start me - b_end me))
  else wrap_int (wrap_size (size me - a_end me)).

Definition bipbuf_size (me : bipbuf_t) : Z := wrap_int (size me).

Definition bipbuf_used (me : bipbuf_t) : Z :=
  wrap_int (wrap_u32 (wrap_u32 (a_end me - a_start me) + b_end me)).

Definition bipbuf_init (block : list Z) (n : Z) : bipbuf_t := mk_bip n 0 0 0 0 block.

(** [malloc] gives the bytes behind the header. *)
Definition bipbuf_new (malloc : Z -> option (list Z)) (n : Z) : option bipbuf_t :=
  match malloc (bipbuf_sizeof n) with None => None | Some block => Some (bipbuf_init block n) end.

Definition bipbuf_is_empty (me : bipbuf_t) : bool := a_start me =? a_end me.

Definition check_for_switch_to_b (me : bipbuf_t) : bipbuf_t :=
  if wrap_size (size me - a_end me) <? wrap_u32 (a_start me - b_end me)
  then mk_bip (size me) (a_start me) (a_end me) (b_end me) 1 (data me)
  else me.

(** [memcpy(dst + off, src, n)]: both ranges have to be inside their blocks. *)
Definition memcpy (dst : list Z) (off : Z) (src : list Z) (n : Z) : res (list Z) :=
  if decide (0 <= n <= Z.of_nat (List.length src) /\ 0 <= off /\ off + n <= Z.of_nat (List.length dst)) then
    Ok (take (Z.to_nat off) dst ++ take (Z.to_nat n) src ++ drop (Z.to_nat (off + n)) dst)
  else Undef.

Definition bipbuf_offer (me : bipbuf_t) (src : list Z) (n : Z) : res (bipbuf_t * Z) :=
  if bipbuf_unused me <? n then Ok (me, 0)
  else
    me ← (if b_inuse me =? 1 then
            d ← memcpy (data me) (b_end me) src n;
            Ok (mk_bip (size me) (a_start me) (a_end me) (wrap_u32 (b_end me + n)) (b_inuse me) d)
          else
            d ← memcpy (data me) (a_end me) src n;
            Ok (mk_bip (size me) (a_start me) (wrap_u32 (a_end me + n)) (b_end me) (b_inuse me) d));
    Ok (check_for_switch_to_b me, n).

Definition bipbuf_peek (me : bipbuf_t) (n : Z) : option Z :=
  if size me <? wrap_u32 (a_start me + n) then None
  else if bipbuf_is_empty me then None
  else Some (a_start me).

Definition bipbuf_poll (me : bipbuf_t) (n : Z) : bipbuf_t * option Z :=
  if bipbuf_is_empty me then (me, None)
  else if size me <? wrap_u32 (a_start me + n) then (me, None)
  else
    let start := wrap_u32 (a_start me + n) in
    let me' :=
      if start =? a_end me then
        if b_inuse me =? 1 then mk_bip (size me) 0 (b_end me) 0 0 (data me)
        else mk_bip (size me) 0 0 (b_end me) (b_inuse me) (data me)
      else mk_bip (size me) start (a_end me) (b_end me) (b_inuse me) (data me) in
    (check_for_switch_to_b me', Some (a_start me)).

(** ** The invariant and the contents *)

Definition slice (l : list Z) (i j : Z) : list Z := take (Z.to_nat (j - i)) (drop (Z.to_nat i) l).

Definition contents (me : bipbuf_t) : list Z :=
  slice (data me) (a_start me) (a_end me) ++ slice (data me) 0 (b_end me).

Record wf (me : bipbuf_t) : Prop := {
  wf_a : 0 <= a_start me <= a_end me;
  wf_size : a_end me <= size me < 2 ^ 31;
  wf_b : b_inuse me = 0 /\ b_end me = 0 \/ b_inuse me = 1 /\ 0 <= b_end me <= a_start me;
  wf_empty : a_start me = a_end me -> a_start me = 0 /\ b_inuse me = 0;
  wf_data : Z.of_nat (List.length (data me)) = size me
}.

(** Removes the wrap-arounds that do not happen. *)
Ltac unwrap := repeat first
  [ rewrite wrap_u32_id by lia | rewrite wrap_size_id by lia
  | rewrite wrap_int_id by (unfold in_int, int_min, int_max; lia) ].

Lemma slice_length l i j :
  0 <= i <= j -> j <= Z.of_nat (List.length l) -> Z.of_nat (List.length (slice l i j)) = j - i.
Proof. intros. unfold slice. rewrite length_take, length_drop. lia. Qed.

Lemma slice_split l i j k : 0 <= i <= j -> j <= k -> slice l i k = slice l i j ++ slice l j k.
Proof.
  intros. unfold slice. replace (Z.to_nat (k - i)) with (Z.to_nat (j - i) + Z.to_nat (k - j))%nat by lia.
  rewrite <- take_take_drop. rewrite drop_drop. do 2 f_equal. f_equal. lia.
Qed.

Lemma slice_nil l i : slice l i i = [].
Proof. unfold slice. by rewrite Z.sub_diag. Qed.

(** The bytes a copy leaves and the ones it writes. *)
Lemma memcpy_ok dst off src :
  0 <= off -> off + Z.of_nat (List.length src) <= Z.of_nat (List.length dst) ->
  exists d, memcpy dst off src (Z.of_nat (List.length src)) = Ok d /\
    List.length d = List.length dst /\
    slice d off (off + Z.of_nat (List.length src)) = src /\
    (forall i j, 0 <= i <= j -> j <= off -> slice d i j = slice dst i j) /\
    (forall i j, off + Z.of_nat (List.length src) <= i -> slice d i j = slice dst i j).
Proof.
  intros Ho Hl. unfold memcpy. rewrite decide_True by lia. rewrite Nat2Z.id, firstn_all.
  eexists. split; [done|]. split_and!.
  - rewrite !length_app, length_take, length_drop. lia.
  - unfold slice. rewrite drop_app_le by (rewrite length_take; lia).
    rewrite drop_ge by (rewrite length_take; lia). simpl. apply take_app_length'. lia.
  - intros i j Hij Hj. unfold slice. rewrite drop_app_le by (rewrite length_take; lia).
    rewrite take_app_le by (rewrite length_drop, length_take; lia).
    rewrite skipn_firstn_comm, take_take. f_equal. lia.
  - intros i j Hi. unfold slice. f_equal.
    rewrite drop_app_ge by (rewrite length_take; lia). rewrite drop_app_ge by (rewrite length_take; lia).
    rewrite length_take, drop_drop. f_equal. lia.
Qed.

Lemma switch_wf me : wf me -> wf (check_for_switch_to_b me) /\ contents (check_for_switch_to_b me) = contents me.
Proof.
  intros Hwf. unfold check_for_switch_to_b.
  destruct (Z.ltb_spec (wrap_size (size me - a_end me)) (wrap_u32 (a_start me - b_end me))) as [Hlt|]; [|done].
  split; [|done].
  destruct Hwf as [Ha Hs Hb He Hd]. revert Hlt.
  assert (0 <= b_end me <= a_start me) by lia. unwrap. intros Hlt.
  split; simpl; [lia|lia|lia| |done]. intros E. destruct (He E). lia.
Qed.

Lemma unused_value me : wf me ->
  bipbuf_unused me = (if b_inuse me =? 1 then a_start me - b_end me else size me - a_end me) /\
  0 <= bipbuf_unused me.
Proof. intros [Ha Hs Hb He Hd]. unfold bipbuf_unused. case_if; unwrap; lia. Qed.

(** [bipbuf_offer] takes all the bytes behind the contents, or none of them where
    the free space of the region in use is too small. *)
Lemma bip_offer me xs :
  wf me -> Z.of_nat (List.length xs) < 2 ^ 31 ->
  exists me', bipbuf_offer me xs (Z.of_nat (List.length xs)) =
    (if bipbuf_unused me <? Z.of_nat (List.length xs) then Ok (me, 0) else Ok (me', Z.of_nat (List.length xs))) /\
    (Z.of_nat (List.length xs) <= bipbuf_unused me -> wf me' /\ contents me' = contents me ++ xs /\ size me' = size me).
Proof.
  intros Hwf Hlen. unfold bipbuf_offer. destruct (unused_value me Hwf) as [Hun Hun0].
  destruct (Z.ltb_spec (bipbuf_unused me) (Z.of_nat (List.length xs))); [exists me; split; [done|lia]|].
  assert (forall m, wf m -> size m = size me -> contents m = contents me ++ xs ->
    wf (check_for_switch_to_b m) /\ contents (check_for_switch_to_b m) = contents me ++ xs /\
    size (check_for_switch_to_b m) = size me) as Hend.
  { intros m Hm Hsz Hcm. destruct (switch_wf m Hm) as [? ->]. split_and!; [done|done|].
    rewrite <- Hsz. unfold check_for_switch_to_b. by case_if. }
  destruct Hwf as [Ha Hs Hb He Hd]. rewrite Hun in *.
  destruct (Z.eqb_spec (b_inuse me) 1) as [Eb|Eb].
  - destruct (memcpy_ok (data me) (b_end me) xs) as (d & -> & Hl & Hnew & Hlo & Hhi); [lia..|].
    cbn [mbind res_bind]. eexists. split; [done|]. intros _. apply Hend; [|done|].
    + split; simpl; unwrap; lia.
    + unfold contents. simpl. unwrap. rewrite Hhi by lia. rewrite <- app_assoc. f_equal.
      rewrite (slice_split d 0 (b_end me)) by lia. rewrite Hlo by lia. by rewrite Hnew.
  - destruct (memcpy_ok (data me) (a_end me) xs) as (d & -> & Hl & Hnew & Hlo & Hhi); [lia..|].
    cbn [mbind res_bind]. eexists. split; [done|]. intros _. apply Hend; [|done|].
    + split; simpl; unwrap; lia.
    + unfold contents. simpl. unwrap. replace (b_end me) with 0 by lia. rewrite !slice_nil, !app_nil_r.
      rewrite (slice_split d _ (a_end me)) by lia. rewrite Hlo by lia. by rewrite Hnew.
Qed.

(** A poll of at most region A gives its first bytes. *)
Lemma bip_poll me n :
  wf me -> a_start me < a_end me -> 0 <= n <= a_end me - a_start me ->
  exists me', bipbuf_poll me n = (me', Some (a_start me)) /\ wf me' /\ data me' = data me /\ size me' = size me /\
    contents me = slice (data me) (a_start me) (a_start me + n) ++ contents me'.
Proof.
  intros Hwf Hne Hn. unfold bipbuf_poll, bipbuf_is_empty. destruct Hwf as [Ha Hs Hb He Hd].
  destruct (Z.eqb_spec (a_start me) (a_end me)); [lia|]. unwrap.
  destruct (Z.ltb_spec (size me) (a_start me + n)); [lia|].
  set (m := if a_start me + n =? a_end me then _ else _).
  assert (wf m /\ data m = data me /\ size m = size me /\
    contents me = slice (data me) (a_start me) (a_start me + n) ++ contents m) as (Hm & Hmd & Hms & Hmc).
  { unfold m. destruct (Z.eqb_spec (a_start me + n) (a_end me)) as [E|E].
    - destruct (Z.eqb_spec (b_inuse me) 1); split_and!; try done.
      + split; simpl; lia.
      + unfold contents. simpl. by rewrite E, slice_nil, app_nil_r.
      + split; simpl; lia.
      + unfold contents. simpl. rewrite E. replace (b_end me) with 0 by lia. by rewrite !slice_nil.
    - split_and!; try done.
      + split; simpl; lia.
      + unfold contents. simpl. rewrite app_assoc, <- slice_split by lia. done. }
  exists (check_for_switch_to_b m). split; [done|]. destruct (switch_wf m Hm) as [Hw ->].
  split_and!; [done| | |done]; rewrite <- ?Hmd, <- ?Hms; unfold check_for_switch_to_b; by case_if.
Qed.

Lemma used_value me : wf me -> bipbuf_used me = Z.of_nat (List.length (contents me)).
Proof.
  intros [Ha Hs Hb He Hd]. unfold bipbuf_used, contents. rewrite length_app, Nat2Z.inj_add.
  rewrite !slice_length by lia. rewrite (wrap_u32_id (a_end me - a_start me)) by lia. unwrap. lia.
Qed.

(** ** Histories *)

Inductive command : Type :=
  | Offer (xs : list Z)
  | Poll (n : Z).

(** One call: the bytes that were taken in and the ones the caller reads at the
    pointer it is given. *)
Definition exec (c : command) (me : bipbuf_t) : res (bipbuf_t * list Z * list Z) :=
  match c with
  | Offer xs =>
      '(me, r) ← bipbuf_offer me xs (Z.of_nat (List.length xs));
      Ok (me, take (Z.to_nat r) xs, [])
  | Poll n =>
      match bipbuf_poll me n with
      | (me, Some p) => Ok (me, [], slice (data me) p (p + n))
      | (me, None) => Ok (me, [], [])
      end
  end.

Fixpoint exec_all (cs : list command) (me : bipbuf_t) : res (bipbuf_t * list Z * list Z) :=
  match cs with
  | [] => Ok (me, [], [])
  | c :: cs =>
      '(me, i, o) ← exec c me; '(me, ins, outs) ← exec_all cs me; Ok (me, i ++ ins, o ++ outs)
  end.

(** The call a client may make: at most 2^31 - 1 bytes are offered, and a poll asks
    for no more than region A holds. *)
Definition allowed (c : command) (me : bipbuf_t) : bool :=
  match c with
  | Offer xs => Z.of_nat (List.length xs) <? 2 ^ 31
  | Poll n => (0 <=? n) && (n <=? a_end me - a_start me)
  end.

Fixpoint allowed_all (cs : list command) (me : bipbuf_t) : bool :=
  match cs with
  | [] => true
  | c :: cs => allowed c me && match exec c me with Ok (me, _, _) => allowed_all cs me | _ => false end
  end.

Lemma bip_call c me :
  wf me -> allowed c me = true ->
  exists me' i o, exec c me = Ok (me', i, o) /\ wf me' /\ size me' = size me /\ contents me ++ i = o ++ contents me'.
Proof.
  intros Hwf Hal. destruct c as [xs|n]; simpl in *.
  - apply Z.ltb_lt in Hal. destruct (bip_offer me xs Hwf Hal) as (me' & -> & Hme').
    destruct (Z.ltb_spec (bipbuf_unused me) (Z.of_nat (List.length xs))); cbn [mbind res_bind].
    + exists me, [], []. split_and!; try done. by rewrite app_nil_r.
    + destruct Hme' as (? & E & ?); [done|]. rewrite Nat2Z.id, firstn_all. exists me', xs, []. by rewrite E.
  - apply andb_true_iff in Hal as [H1%Z.leb_le H2%Z.leb_le].
    destruct (decide (a_start me = a_end me)) as [E|E].
    + unfold bipbuf_poll, bipbuf_is_empty. rewrite E, Z.eqb_refl. exists me, [], [].
      split_and!; try done. by rewrite app_nil_r.
    + destruct (bip_poll me n Hwf) as (me' & -> & Hwf' & Hd & Hsz & Hc); [destruct Hwf; lia|lia|].
      exists me', [], (slice (data me') (a_start me) (a_start me + n)). rewrite Hd, app_nil_r. done.
Qed.

Lemma bip_history cs me :
  wf me -> allowed_all cs me = true ->
  exists me' i o, exec_all cs me = Ok (me', i, o) /\ wf me' /\ size me' = size me /\ contents me ++ i = o ++ contents me'.
Proof.
  revert me. induction cs as [|c cs IH]; intros me Hwf Hal; simpl in *.
  { exists me, [], []. split_and!; try done. by rewrite app_nil_r. }
  apply andb_true_iff in Hal as [H1 H2].
  destruct (bip_call c me Hwf H1) as (m1 & i & o & E & Hw1 & Hs1 & Hc1). rewrite E in *. cbn [mbind res_bind].
  destruct (IH m1 Hw1 H2) as (m2 & ins & outs & -> & Hw2 & Hs2 & Hc2). cbn [mbind res_bind].
  exists m2, (i ++ ins), (o ++ outs). split_and!; [done|done|congruence|].
  rewrite app_assoc, Hc1, <- app_assoc, Hc2. by rewrite app_assoc.
Qed.

(** in any history of offers and of polls within region A on a new buffer, every
    byte comes out once and in order: the bytes taken in are the bytes read
    followed by the ones still in the buffer, whose number [bipbuf_used] reports and
    which never exceed the size. *)
Theorem bipbuf_fifo (malloc : Z -> option (list Z)) (n : Z) (block : list Z) (cs : list command) :
  0 <= n < 2 ^ 31 -> malloc (bipbuf_sizeof n) = Some block -> Z.of_nat (List.length block) = n ->
  allowed_all cs (bipbuf_init block n) = true ->
  exists me0 me i o, bipbuf_new malloc n = Some me0 /\ exec_all cs me0 = Ok (me, i, o) /\
    i = o ++ contents me /\ bipbuf_used me = Z.of_nat (List.length (contents me)) /\
    Z.of_nat (List.length (contents me)) <= n.
Proof.
  intros Hn Hm Hl Hal. unfold bipbuf_new. rewrite Hm.
  assert (wf (bipbuf_init block n)) as Hwf by (split; simpl; lia).
  destruct (bip_history cs _ Hwf Hal) as (me & i & o & E & Hw & Hs & Hc).
  exists (bipbuf_init block n), me, i, o. split_and!; [done|done|done|by apply used_value|].
  destruct Hw. simpl in Hs. unfold contents. rewrite length_app, Nat2Z.inj_add, !slice_length by lia. lia.
Qed.

Lemma bipbuf_fifo_witness :
  let cs := [Offer [1; 2; 3; 4; 5; 6]; Poll 5; Offer [7; 8]; Poll 1; Offer [9; 10; 11; 12; 13]; Offer [14]; Poll 2] in
  exists me0 me i o, bipbuf_new (fun b => Some (replicate (Z.to_nat (b - 24)) 0)) 8 = Some me0 /\
    exec_all cs me0 = Ok (me, i, o) /\
    i = o ++ contents me /\ bipbuf_used me = Z.of_nat (List.length (contents me)) /\
    Z.of_nat (List.length (contents me)) <= 8.
Proof.
  intros cs. apply (bipbuf_fifo _ 8 (replicate 8 0) cs); [lia|reflexivity|reflexivity|vm_compute; reflexivity].
Defined.

(** [bipbuf_poll] compares the request with the size of the buffer and not with
    the bytes region A holds: a request for more than region A has, up to the end
    of the buffer, is given a pointer, the cursor passes the end of the region,
    and the buffer is then not empty although [bipbuf_used] is negative. *)
Theorem bipbuf_poll_overrun (me : bipbuf_t) (n : Z) :
  wf me -> b_inuse me = 0 -> a_start me < a_end me -> a_end me < a_start me + n <= size me ->
  a_start me + n <= size me - a_end me ->
  exists me', bipbuf_poll me n = (me', Some (a_start me)) /\ bipbuf_is_empty me' = false /\
    bipbuf_used me' = a_end me - a_start me - n.
Proof.
  intros [Ha Hs Hb He Hd] Eb Hne Hn Hsw. unfold bipbuf_poll, bipbuf_is_empty.
  destruct (Z.eqb_spec (a_start me) (a_end me)); [lia|]. unwrap.
  destruct (Z.ltb_spec (size me) (a_start me + n)); [lia|].
  destruct (Z.eqb_spec (a_start me + n) (a_end me)); [lia|]. replace (b_end me) with 0 by lia.
  eexists. split; [done|]. unfold check_for_switch_to_b, bipbuf_used. simpl. unwrap.
  destruct (Z.ltb_spec (size me - a_end me) (a_start me + n - 0)); [lia|]. simpl.
  split; [apply Z.eqb_neq; lia|]. rewrite Z.add_0_r. unfold wrap_int, wrap_u32. rewrite Z.mod_mod by lia.
  rewrite Zplus_mod_idemp_l. rewrite Z.mod_small; lia.
Qed.

Lemma bipbuf_poll_overrun_witness :
  exists me', bipbuf_poll (mk_bip 16 0 4 0 0 (replicate 16 0)) 6 = (me', Some 0) /\ bipbuf_is_empty me' = false /\
    bipbuf_used me' = -2.
Proof.
  apply (bipbuf_poll_overrun (mk_bip 16 0 4 0 0 (replicate 16 0)) 6); simpl; try lia. split; simpl; lia.
Defined.
End Bipbuffer.
