(* ===== verification/Farraylist.v ===== *)
(** * The fixed array list (src/PUTs/03farraylist-master/fixed_arraylist.c)

    Items stay at the index they were put at.  An item is a pointer, 0 is [NULL] and an
    empty slot.  The parts for a hash map and for a heap of open slots are not compiled:
    neither [HASHMAP_AVAILABLE] nor [HEAP_AVAILABLE] is defined.  [calloc] is taken to
    succeed. *)

From S2P Require Import Prelude History.

Module Farraylist.

Record farraylist_t := mk_alist { arraySize : Z; count : Z; array : list Z }.

Definition farraylist_new (initial_capacity : Z) : farraylist_t :=
  let n := wrap_int initial_capacity in mk_alist n 0 (replicate (Z.to_nat n) 0).

(** The slots in use among the first [n]. *)
Definition in_use (l : list Z) : Z := Z.of_nat (List.length (filter (.≠ 0) l)).

Definition farraylist_count (alist : farraylist_t) : Z := count alist.
Definition farraylist_get_size (alist : farraylist_t) : Z := arraySize alist.

(** The copy into the new array reads as many slots as the old one has. *)
Definition ensurecap (alist : farraylist_t) (idx : Z) : res farraylist_t :=
  if arraySize alist <=? 0 then Exit 134
  else if (count alist <? arraySize alist) && (idx <? arraySize alist) then Ok alist
  else
    size_n ← chk (arraySize alist * 2);
    size_n ← (if size_n <=? idx then chk (idx + 1) else Ok size_n);
    if decide (Z.of_nat (List.length (array alist)) = arraySize alist) then
      if in_use (array alist) =? farraylist_count alist then
        Ok (mk_alist size_n (count alist) (array alist ++ replicate (Z.to_nat (size_n - arraySize alist)) 0))
      else Exit 134
    else Undef.

Definition farraylist_insert (alist : farraylist_t) (item idx : Z) : res farraylist_t :=
  if item =? 0 then Exit 134
  else
    alist ← ensurecap alist idx;
    old ← load (array alist) idx;
    c ← (if old =? 0 then chk (count alist + 1) else Ok (count alist));
    a ← store (array alist) idx item;
    Ok (mk_alist (arraySize alist) c a).

Definition probecheck (alist : farraylist_t) (idx : Z) : bool := negb (arraySize alist <=? idx) && negb (idx <? 0).

Definition farraylist_get (alist : farraylist_t) (idx : Z) : res Z :=
  if probecheck alist idx then load (array alist) idx else Ok 0.

Definition farraylist_remove (alist : farraylist_t) (idx : Z) : res (farraylist_t * Z) :=
  if probecheck alist idx then
    tmp ← load (array alist) idx;
    if tmp =? 0 then Exit 134
    else
      a ← store (array alist) idx 0;
      c ← chk (count alist - 1);
      Ok (mk_alist (arraySize alist) c a, tmp)
  else Ok (alist, 0).

(** The first empty slot, or the number of slots. *)
Fixpoint open_slot (l : list Z) : Z :=
  match l with
  | [] => 0
  | x :: l => if x =? 0 then 0 else 1 + open_slot l
  end.

Definition farraylist_add (alist : farraylist_t) (item : Z) : res (farraylist_t * Z) :=
  let idx := open_slot (take (Z.to_nat (arraySize alist)) (array alist)) in
  '(alist, idx) ← (if idx <? arraySize alist then Ok (alist, idx)
                   else alist ← ensurecap alist (count alist); Ok (alist, count alist));
  x ← load (array alist) idx;
  if x =? 0 then alist ← farraylist_insert alist item idx; Ok (alist, idx) else Exit 134.

Fixpoint clear_loop (n : nat) (i : Z) (a : list Z) : res (list Z) :=
  match n with
  | O => Ok a
  | S n => a ← store a i 0; clear_loop n (i + 1) a
  end.

(** Only the first [count] slots are cleared. *)
Definition farraylist_clear (alist : farraylist_t) : res farraylist_t :=
  a ← clear_loop (Z.to_nat (count alist)) 0 (array alist);
  Ok (mk_alist (arraySize alist) 0 a).

(** ** Calls *)

Inductive command : Type := Insert (item idx : Z) | Get (idx : Z) | Remove (idx : Z) | Add (item : Z) | Count | Clear.

Definition exec (c : command) (l : farraylist_t) : res (farraylist_t * Z) :=
  match c with
  | Insert x i => l ← farraylist_insert l x i; Ok (l, 0)
  | Get i => x ← farraylist_get l i; Ok (l, x)
  | Remove i => farraylist_remove l i
  | Add x => farraylist_add l x
  | Count => Ok (l, farraylist_count l)
  | Clear => l ← farraylist_clear l; Ok (l, 0)
  end.

(** ** A map from indices to items *)

(** The least index that is not in use. *)
Fixpoint least_free (fuel : nat) (i : Z) (m : gmap Z Z) : Z :=
  match fuel with
  | O => i
  | S fuel => match m !! i with None => i | Some _ => least_free fuel (i + 1) m end
  end.
Definition free_index (m : gmap Z Z) : Z := least_free (S (base.size m)) 0 m.

Definition apply_map (c : command) (m : gmap Z Z) : gmap Z Z * Z :=
  match c with
  | Insert x i => (<[i := x]> m, 0)
  | Get i => (m, default 0 (m !! i))
  | Remove i => (delete i m, default 0 (m !! i))
  | Add x => (<[free_index m := x]> m, free_index m)
  | Count => (m, Z.of_nat (base.size m))
  | Clear => (∅, 0)
  end.

(** Items are not [NULL], indices are not negative, what is removed is there, and only a
    list without gaps is cleared. *)
Definition allowed (c : command) (m : gmap Z Z) : bool :=
  match c with
  | Insert x i => negb (x =? 0) && (0 <=? i) && (i <? 2 ^ 29)
  | Get _ | Count => true
  | Remove i => bool_decide (is_Some (m !! i))
  | Add x => negb (x =? 0)
  | Clear => free_index m =? Z.of_nat (base.size m)
  end.

(** ** The map an array stands for *)

Fixpoint items (i : Z) (l : list Z) : gmap Z Z :=
  match l with
  | [] => ∅
  | x :: l => if x =? 0 then items (i + 1) l else <[i := x]> (items (i + 1) l)
  end.

Lemma items_lookup i l j x : items i l !! j = Some x <-> i <= j /\ l !! Z.to_nat (j - i) = Some x /\ x <> 0.
Proof.
  revert i. induction l as [|y l IH]; intros i; simpl; [rewrite lookup_empty; split; [done|intros (_ & ? & _); done]|].
  assert (i < j -> (y :: l) !! Z.to_nat (j - i) = l !! Z.to_nat (j - (i + 1))) as Hcons.
  { intros Hj. by replace (Z.to_nat (j - i)) with (S (Z.to_nat (j - (i + 1)))) by lia. }
  assert (items (i + 1) l !! j = Some x <-> i + 1 <= j /\ (y :: l) !! Z.to_nat (j - i) = Some x /\ x <> 0) as IH'.
  { rewrite IH. split; intros (H1 & H2 & H3); (split_and!; [done| |done]); rewrite Hcons in * by lia; done. }
  destruct (decide (i = j)) as [->|Hij].
  - rewrite Z.sub_diag. simpl. destruct (Z.eqb_spec y 0) as [->|Hy].
    + rewrite IH'. split; [lia|]. intros (_ & [= <-] & ?). done.
    + rewrite lookup_insert_eq. split; [intros [= ->]; split_and!; [lia|done|done]|]. by intros (_ & ? & _).
  - destruct (y =? 0); rewrite ?lookup_insert_ne by done; rewrite IH'; split; intros (H1 & H2); (split; [lia|done]).
Qed.

Lemma items_size i l : Z.of_nat (base.size (items i l)) = in_use l.
Proof.
  unfold in_use. revert i. induction l as [|x l IH]; intros i; [done|]. cbn [items].
  destruct (Z.eqb_spec x 0) as [->|Hx]; [by rewrite filter_cons_False by lia|]. rewrite filter_cons_True by done. simpl. rewrite map_size_insert_None.
  - specialize (IH (i + 1)). lia.
  - destruct (items (i + 1) l !! i) as [v|] eqn:E; [|done]. apply items_lookup in E. lia.
Qed.

Lemma items_store l i x : (i < List.length l)%nat -> items 0 (<[i := x]> l) = if x =? 0 then delete (Z.of_nat i) (items 0 l) else <[Z.of_nat i := x]> (items 0 l).
Proof.
  intros Hi. apply map_eq. intros j. apply option_eq. intros v. rewrite items_lookup, Z.sub_0_r. destruct (decide (Z.of_nat i = j)) as [<-|Hij].
  - rewrite Nat2Z.id, list_lookup_insert_eq by done. destruct (Z.eqb_spec x 0) as [->|]; rewrite ?lookup_delete_eq, ?lookup_insert_eq.
    + split; [intros (_ & [= <-] & ?); done|done].
    + split; [by intros (_ & ? & _)|]. intros [= ->]. split_and!; [lia|done|done].
  - assert (0 <= j -> <[i := x]> l !! Z.to_nat j = l !! Z.to_nat j) as E by (intros; apply list_lookup_insert_ne; lia).
    assert (items 0 l !! j = Some v <-> 0 <= j /\ <[i := x]> l !! Z.to_nat j = Some v /\ v <> 0) as <-.
    { rewrite items_lookup, Z.sub_0_r. split; intros (H1 & H2 & H3); (split_and!; [done| |done]); rewrite E in * by done; done. }
    destruct (x =? 0); by rewrite ?lookup_delete_ne, ?lookup_insert_ne by done.
Qed.

Lemma items_pad i l n : items i (l ++ replicate n 0) = items i l.
Proof.
  revert i. induction l as [|x l IH]; intros i; simpl; [|by rewrite IH]. revert i. induction n; intros i; simpl; [done|by rewrite IHn].
Qed.

(** ** The first open slot *)

Lemma open_slot_spec l : 0 <= open_slot l <= Z.of_nat (List.length l) /\
  (forall j, 0 <= j < open_slot l -> exists x, l !! Z.to_nat j = Some x /\ x <> 0) /\
  (open_slot l < Z.of_nat (List.length l) -> l !! Z.to_nat (open_slot l) = Some 0).
Proof.
  induction l as [|x l (H1 & H2 & H3)]; simpl; [split_and!; [done|done|lia|lia]|]. destruct (Z.eqb_spec x 0) as [->|Hx]; [split_and!; [done|lia|lia|done]|].
  split_and!; [lia|lia| |].
  - intros j Hj. destruct (decide (j = 0)) as [->|]; [by exists x|]. replace (Z.to_nat j) with (S (Z.to_nat (j - 1))) by lia. apply H2. lia.
  - intros Hl. replace (Z.to_nat (1 + open_slot l)) with (S (Z.to_nat (open_slot l))) by lia. apply H3. lia.
Qed.

Lemma least_free_spec fuel i k m :
  i <= k -> (forall j, i <= j < k -> is_Some (m !! j)) -> m !! k = None -> k - i < Z.of_nat fuel -> least_free fuel i m = k.
Proof.
  revert i. induction fuel as [|fuel IH]; intros i Hi Hm Hk Hf; [lia|]. simpl. destruct (decide (i = k)) as [->|]; [by rewrite Hk|].
  destruct (Hm i) as [x ->]; [lia|]. apply IH; [lia| |done|lia]. intros j Hj. apply Hm. lia.
Qed.

(** Indices below [k] are all in use: there are [k] items at least. *)
Lemma prefix_size (m : gmap Z Z) k : (forall j, 0 <= j < k -> is_Some (m !! j)) -> k <= Z.of_nat (base.size m).
Proof.
  intros Hm. destruct (decide (0 <= k)); [|lia]. rewrite <- size_dom.
  assert (base.size (list_to_set (C := gset Z) (seqZ 0 k)) <= base.size (dom m))%nat as H.
  { apply subseteq_size. intros j. rewrite elem_of_list_to_set, elem_of_seqZ, elem_of_dom. intros Hj. apply Hm. lia. }
  rewrite size_list_to_set, length_seqZ in H by apply NoDup_seqZ. lia.
Qed.

Lemma free_index_slot l : free_index (items 0 l) = open_slot l.
Proof.
  destruct (open_slot_spec l) as (H1 & H2 & H3). unfold free_index.
  assert (forall j, 0 <= j < open_slot l -> is_Some (items 0 l !! j)) as Hin.
  { intros j Hj. destruct (H2 j Hj) as (x & Hx & Hx0). exists x. apply items_lookup. rewrite Z.sub_0_r. split_and!; [lia|done|done]. }
  apply least_free_spec; [lia|done| |apply prefix_size in Hin; lia].
  destruct (items 0 l !! open_slot l) as [v|] eqn:E; [|done]. apply items_lookup in E as (_ & E & Hv). rewrite Z.sub_0_r in E.
  apply lookup_lt_Some in E as Hlt. rewrite H3 in E by lia. congruence.
Qed.

(** ** The operations *)

Record wf (l : farraylist_t) : Prop := {
  wf_length : Z.of_nat (List.length (array l)) = arraySize l;
  wf_size : 0 < arraySize l <= 2 ^ 30;
  wf_count : count l = in_use (array l)
}.

Definition contents (l : farraylist_t) : gmap Z Z := items 0 (array l).

Lemma in_use_le l : 0 <= in_use l <= Z.of_nat (List.length l).
Proof. unfold in_use. pose proof (length_filter (.≠ 0) l). lia. Qed.

Lemma in_use_full l : (forall j, 0 <= j < Z.of_nat (List.length l) -> exists x, l !! Z.to_nat j = Some x /\ x <> 0) -> in_use l = Z.of_nat (List.length l).
Proof.
  intros H. pose proof (in_use_le l). rewrite <- (items_size 0 l). pose proof (prefix_size (items 0 l) (Z.of_nat (List.length l))) as Hp.
  rewrite items_size in Hp |- *. assert (Z.of_nat (List.length l) <= in_use l); [|lia]. apply Hp. intros j Hj. destruct (H j Hj) as (x & Hx & Hx0).
  exists x. apply items_lookup. rewrite Z.sub_0_r. split_and!; [lia|done|done].
Qed.

Lemma ensurecap_spec l idx :
  wf l -> count l <= 2 ^ 29 -> idx <= 2 ^ 29 ->
  exists l', ensurecap l idx = Ok l' /\ wf l' /\ contents l' = contents l /\ count l' = count l /\ idx < arraySize l'.
Proof.
  intros [Hl Hs Hc] Hcnt Hidx. unfold ensurecap. pose proof (in_use_le (array l)). rewrite (proj2 (Z.leb_gt _ _)) by lia.
  destruct ((count l <? arraySize l) && (idx <? arraySize l)) eqn:E.
  { apply andb_true_iff in E as [_ E%Z.ltb_lt]. exists l. done. }
  assert (arraySize l <= 2 ^ 29) as Hs'.
  { apply andb_false_iff in E as [E|E]; apply Z.ltb_ge in E; lia. }
  rewrite (chk_ok (arraySize l * 2)) by (unfold in_int, int_min, int_max; lia). cbn [mbind res_bind].
  assert (exists n, (if arraySize l * 2 <=? idx then chk (idx + 1) else Ok (arraySize l * 2)) = Ok n /\ arraySize l < n <= 2 ^ 30 /\ idx < n) as (n & -> & Hn & Hin).
  { destruct (Z.leb_spec (arraySize l * 2) idx); [|exists (arraySize l * 2); split_and!; [done|lia..]].
    rewrite chk_ok by (unfold in_int, int_min, int_max; lia). exists (idx + 1). split_and!; [done|lia..]. }
  cbn [mbind res_bind]. rewrite decide_True by done. unfold farraylist_count. rewrite (proj2 (Z.eqb_eq _ _)) by done.
  eexists. split; [done|]. unfold contents. simpl. rewrite items_pad. split_and!; try done.
  split; simpl; [rewrite length_app, length_replicate; lia|lia|]. by rewrite Hc, <- !(items_size 0), items_pad.
Qed.

Lemma store_wf l i x l' c :
  wf l -> store (array l) i x = Ok l' -> c = Z.of_nat (base.size (items 0 l')) -> wf (mk_alist (arraySize l) c l').
Proof.
  intros [Hl Hs Hc] [Hi ->]%store_inv ->. split; simpl; [by rewrite length_insert|done|]. by rewrite items_size.
Qed.

Lemma contents_at l i : wf l -> 0 <= i < arraySize l -> load (array l) i = Ok (default 0 (contents l !! i)).
Proof.
  intros [Hl Hs Hc] Hi. destruct (load_in_range (array l) i) as (x & -> & Hx); [lia|]. f_equal. unfold contents.
  destruct (items 0 (array l) !! i) as [v|] eqn:E; simpl.
  - apply items_lookup in E as (_ & E & _). rewrite Z.sub_0_r in E. congruence.
  - destruct (decide (x = 0)) as [|Hx0]; [done|]. assert (items 0 (array l) !! i = Some x); [|congruence].
    apply items_lookup. rewrite Z.sub_0_r. split_and!; [lia|done|done].
Qed.

Lemma fal_insert_spec l x i :
  wf l -> x <> 0 -> 0 <= i <= 2 ^ 29 -> count l < 2 ^ 29 ->
  exists l', farraylist_insert l x i = Ok l' /\ wf l' /\ contents l' = <[i := x]> (contents l).
Proof.
  intros Hwf Hx Hi Hc. unfold farraylist_insert. rewrite (proj2 (Z.eqb_neq x 0)) by done.
  destruct (ensurecap_spec l i Hwf) as (l1 & -> & Hwf1 & Hm & Hc1 & Hi1); [lia|lia|]. cbn [mbind res_bind].
  rewrite (contents_at l1 i) by (done || lia). cbn [mbind res_bind]. pose proof Hwf1 as [Hl Hs Hcnt]. pose proof (in_use_le (array l1)).
  assert (items 0 (<[Z.to_nat i := x]> (array l1)) = <[i := x]> (contents l1)) as Ei.
  { rewrite items_store by lia. rewrite (proj2 (Z.eqb_neq x 0)), Z2Nat.id by (done || lia). done. }
  assert (exists c, (if default 0 (contents l1 !! i) =? 0 then chk (count l1 + 1) else Ok (count l1)) = Ok c /\ c = Z.of_nat (base.size (<[i := x]> (contents l1)))) as (c & -> & Ec).
  { unfold contents in *. rewrite Hcnt, <- (items_size 0). destruct (items 0 (array l1) !! i) as [v|] eqn:Ev; simpl.
    - apply items_lookup in Ev as Hv. rewrite (proj2 (Z.eqb_neq v 0)) by apply Hv. eexists. split; [done|]. by rewrite map_size_insert_Some.
    - rewrite items_size, <- Hcnt, chk_ok by (unfold in_int, int_min, int_max; lia). eexists. split; [done|]. rewrite map_size_insert_None by done.
      pose proof (items_size 0 (array l1)). lia. }
  cbn [mbind res_bind]. rewrite store_ok by lia. cbn [mbind res_bind]. eexists. split; [done|]. split.
  - eapply store_wf; [done|apply store_ok; lia|by rewrite Ei].
  - unfold contents at 1. simpl. by rewrite Ei, Hm.
Qed.

Lemma fal_get_spec l i : wf l -> farraylist_get l i = Ok (default 0 (contents l !! i)).
Proof.
  intros Hwf. unfold farraylist_get, probecheck. destruct (Z.leb_spec (arraySize l) i), (Z.ltb_spec i 0); simpl; try (apply contents_at; [done|lia]);
  (destruct (contents l !! i) as [v|] eqn:E; [|done]; apply items_lookup in E as (H1 & E & _); apply lookup_lt_Some in E; pose proof (wf_length l Hwf); lia).
Qed.

Lemma fal_remove_spec l i v :
  wf l -> contents l !! i = Some v ->
  exists l', farraylist_remove l i = Ok (l', v) /\ wf l' /\ contents l' = delete i (contents l).
Proof.
  intros Hwf Hv. pose proof Hwf as [Hl Hs Hc]. apply items_lookup in Hv as Hv'. rewrite Z.sub_0_r in Hv'. destruct Hv' as (Hi & Hlk & Hv0). apply lookup_lt_Some in Hlk as Hlt.
  unfold farraylist_remove, probecheck. rewrite (proj2 (Z.leb_gt _ _)), (proj2 (Z.ltb_ge _ _)) by lia. simpl.
  rewrite (contents_at l i), Hv by (done || lia). cbn [mbind res_bind]. simpl default. rewrite (proj2 (Z.eqb_neq v 0)) by done. rewrite store_ok by lia. cbn [mbind res_bind].
  assert (items 0 (<[Z.to_nat i := 0]> (array l)) = delete i (contents l)) as Ei by (rewrite items_store by lia; simpl; by rewrite Z2Nat.id by lia).
  assert (Z.of_nat (base.size (delete i (contents l))) = count l - 1) as Esz.
  { rewrite map_size_delete_Some by eauto. rewrite Hc, <- (items_size 0). unfold contents.
    assert (base.size (items 0 (array l)) <> 0)%nat; [|lia]. intros E0. apply map_size_empty_inv in E0. unfold contents in Hv. rewrite E0 in Hv. done. }
  rewrite chk_ok by (pose proof (in_use_le (array l)); unfold in_int, int_min, int_max; lia). cbn [mbind res_bind]. eexists. split; [done|]. split; [|done].
  eapply store_wf; [done|apply store_ok; lia|by rewrite Ei].
Qed.

Lemma add_spec l x :
  wf l -> x <> 0 -> count l < 2 ^ 29 ->
  exists l', farraylist_add l x = Ok (l', free_index (contents l)) /\ wf l' /\ contents l' = <[free_index (contents l) := x]> (contents l).
Proof.
  intros Hwf Hx Hc. pose proof Hwf as [Hl Hs Hcnt]. unfold farraylist_add. rewrite take_ge by lia. unfold contents. rewrite free_index_slot.
  destruct (open_slot_spec (array l)) as (H1 & H2 & H3). pose proof (in_use_le (array l)).
  assert (exists l1, (if open_slot (array l) <? arraySize l then Ok (l, open_slot (array l)) else l1 ← ensurecap l (count l); Ok (l1, count l1)) = Ok (l1, open_slot (array l)) /\
    wf l1 /\ contents l1 = contents l /\ count l1 = count l /\ open_slot (array l) < arraySize l1 /\ open_slot (array l) <= 2 ^ 29) as (l1 & -> & Hwf1 & Hm & Hc1 & Hlt & Hle).
  { destruct (Z.ltb_spec (open_slot (array l)) (arraySize l)).
    - exists l. split_and!; try done. assert (open_slot (array l) <= in_use (array l)); [|lia]. rewrite <- (items_size 0). apply prefix_size.
      intros j Hj. destruct (H2 j Hj) as (y & Hy & Hy0). exists y. apply items_lookup. rewrite Z.sub_0_r. split_and!; [lia|done|done].
    - assert (in_use (array l) = Z.of_nat (List.length (array l))) as Hfull by (apply in_use_full; intros j Hj; apply H2; lia).
      destruct (ensurecap_spec l (count l) Hwf) as (l1 & -> & Hw1 & Hm1 & Hc1 & Hi1); [lia|lia|]. cbn [mbind res_bind]. exists l1.
      assert (open_slot (array l) = count l) as E by lia. rewrite Hc1, E. split_and!; try done. lia. }
  cbn [mbind res_bind]. assert (contents l1 !! open_slot (array l) = None) as Hnone.
  { rewrite Hm. destruct (contents l !! open_slot (array l)) as [v|] eqn:E; [|done]. apply items_lookup in E as (_ & E & Hv). rewrite Z.sub_0_r in E.
    apply lookup_lt_Some in E as Hl'. rewrite H3 in E by lia. congruence. }
  rewrite (contents_at l1), Hnone by (done || lia). cbn [mbind res_bind]. simpl. destruct (fal_insert_spec l1 x (open_slot (array l))) as (l2 & -> & Hw2 & Hm2); [done|done|lia|lia|].
  cbn [mbind res_bind]. exists l2. split_and!; [done|done|]. unfold contents in Hm2, Hm. by rewrite Hm2, Hm.
Qed.

Lemma fal_clear_loop_spec n i a :
  0 <= i -> (Z.to_nat i + n <= List.length a)%nat ->
  clear_loop n i a = Ok (take (Z.to_nat i) a ++ replicate n 0 ++ drop (Z.to_nat i + n) a).
Proof.
  revert i a. induction n as [|n IH]; intros i a Hi Hl; simpl; [by rewrite Nat.add_0_r, take_drop|]. rewrite store_ok by lia. cbn [mbind res_bind].
  rewrite IH by (rewrite ?length_insert; lia). f_equal. replace (Z.to_nat (i + 1)) with (S (Z.to_nat i)) by lia.
  erewrite take_S_r by (apply list_lookup_insert_eq; lia). rewrite take_insert_ge, drop_insert_lt by lia.
  rewrite <- app_assoc. simpl. do 3 f_equal. f_equal. lia.
Qed.

(** A list without gaps is emptied. *)
Lemma fal_clear_spec l :
  wf l -> free_index (contents l) = Z.of_nat (base.size (contents l)) ->
  exists l', farraylist_clear l = Ok l' /\ wf l' /\ contents l' = ∅.
Proof.
  intros Hwf Hd. pose proof Hwf as [Hl Hs Hc]. unfold contents in *. rewrite free_index_slot, items_size in Hd. pose proof (in_use_le (array l)).
  unfold farraylist_clear. rewrite fal_clear_loop_spec by lia. cbn [mbind res_bind]. eexists. split; [done|]. simpl.
  destruct (open_slot_spec (array l)) as (H1 & H2 & _). set (k := Z.to_nat (count l)).
  assert (filter (.≠ 0) (drop k (array l)) = []) as Hz.
  { apply nil_length_inv. pose proof Hc as Hc0. rewrite <- (take_drop k (array l)) in Hc. unfold in_use in Hc. rewrite filter_app, length_app in Hc.
    assert (in_use (take k (array l)) = Z.of_nat k) as E; [|unfold in_use in E; lia]. rewrite in_use_full; [rewrite length_take; lia|].
    intros j Hj. rewrite length_take in Hj. rewrite lookup_take_lt by lia. apply H2. rewrite Hd, <- Hc0. lia. }
  assert (items 0 (replicate k 0 ++ drop k (array l)) = ∅) as He.
  { apply map_size_empty_inv. assert (in_use (replicate k 0 ++ drop k (array l)) = 0) as E; [|pose proof (items_size 0 (replicate k 0 ++ drop k (array l))); lia].
    unfold in_use. rewrite filter_app, Hz, app_nil_r. clear. induction k; [done|]. simpl. by rewrite filter_cons_False by lia. }
  split; [|done]. split; simpl; [rewrite length_app, length_replicate, length_drop; lia|done|]. by rewrite <- (items_size 0), He.
Qed.

(** ** Histories *)

Definition holds (n : nat) (l : farraylist_t) (m : gmap Z Z) : Prop := wf l /\ contents l = m /\ count l + Z.of_nat n <= 2 ^ 29.

Lemma count_size l : wf l -> count l = Z.of_nat (base.size (contents l)).
Proof. intros [_ _ ->]. by rewrite <- (items_size 0). Qed.

Lemma apply_size c m : (base.size (apply_map c m).1 <= S (base.size m))%nat.
Proof.
  destruct c; simpl; try lia.
  - destruct (m !! idx) eqn:E; [rewrite map_size_insert_Some by eauto|rewrite map_size_insert_None by done]; lia.
  - destruct (m !! idx) eqn:E; [rewrite map_size_delete_Some by eauto|rewrite map_size_delete_None by done]; lia.
  - destruct (m !! free_index m) eqn:E; [rewrite map_size_insert_Some by eauto|rewrite map_size_insert_None by done]; lia.
  - rewrite map_size_empty. lia.
Qed.

#[export] Instance alist_implements : ImplementsWhen exec apply_map allowed holds.
Proof.
  intros n c l m (Hwf & <- & Hn) Hal. assert (exists l', exec c l = Ok (l', (apply_map c (contents l)).2) /\ wf l' /\ contents l' = (apply_map c (contents l)).1) as (l' & E & Hwf' & Hm).
  { destruct c as [x i|i|i|x| |]; simpl in *.
    - apply andb_true_iff in Hal as [[Hx Hi]%andb_true_iff Hi'%Z.ltb_lt]. apply negb_true_iff, Z.eqb_neq in Hx. apply Z.leb_le in Hi.
      destruct (fal_insert_spec l x i) as (l' & -> & H); [done|done|lia|lia|]. exists l'. done.
    - rewrite fal_get_spec by done. by exists l.
    - apply bool_decide_eq_true in Hal as [v Hv]. rewrite Hv. by apply fal_remove_spec.
    - apply negb_true_iff, Z.eqb_neq in Hal. apply add_spec; [done|done|lia].
    - exists l. unfold farraylist_count. by rewrite count_size.
    - apply Z.eqb_eq in Hal. destruct (fal_clear_spec l) as (l' & -> & H); [done|done|]. exists l'. done. }
  exists l'. split; [done|]. split_and!; [done|done|]. pose proof (apply_size c (contents l)). rewrite count_size in * by done. rewrite Hm. lia.
Qed.

(** C25: In any history of calls in which no item is 0, an insert names an index below 2^29,
    only indices with an item are removed and only a list without gaps is cleared, the list
    answers as a map from indices to items: an insert takes exactly the index it names,
    [farraylist_add] the least index that is free, growing moves no item, and the count is
    the number of items.  (A list with gaps keeps items when it is cleared.  There are at
    most 2^29 calls, and the capacity is at most 2^30.) *)
Theorem farraylist_refines_map (capacity : Z) (cs : list command) :
  0 < capacity <= 2 ^ 30 -> Z.of_nat (List.length cs) <= 2 ^ 29 -> allowed_all apply_map allowed cs ∅ = true ->
  exists l, exec_all exec cs (farraylist_new capacity) = Ok (l, (apply_all apply_map cs ∅).2) /\
    forall i, farraylist_get l i = Ok (default 0 ((apply_all apply_map cs ∅).1 !! i)).
Proof.
  intros Hcap Hcs Hal. assert (items 0 (replicate (Z.to_nat capacity) 0) = ∅) as He by apply (items_pad 0 []).
  destruct (history_when exec apply_map allowed holds cs 0 (farraylist_new capacity) ∅) as (l & E & Hwf & Hm & _); [|done|].
  - unfold farraylist_new. rewrite wrap_int_id by (unfold in_int, int_min, int_max; lia). split_and!; [|done|simpl; lia].
    split; simpl; [rewrite length_replicate; lia|done|]. by rewrite <- (items_size 0), He.
  - exists l. split; [done|]. intros i. by rewrite fal_get_spec, Hm.
Qed.

Lemma farraylist_refines_map_witness :
  let cs := [Add 50; Add 51; Insert 57 9; Add 52; Remove 1; Add 53; Count; Get 9; Get 1; Remove 9; Clear; Get 0] in
  (apply_all apply_map cs ∅).2 = [0; 1; 0; 2; 51; 1; 4; 57; 53; 57; 0; 0] /\
  exists l, exec_all exec cs (farraylist_new 2) = Ok (l, (apply_all apply_map cs ∅).2) /\
    forall i, farraylist_get l i = Ok (default 0 ((apply_all apply_map cs ∅).1 !! i)).
Proof. intros cs. split; [vm_compute; reflexivity|]. apply (farraylist_refines_map 2 cs); [lia|simpl; lia|vm_compute; reflexivity]. Defined.

(** A list with a gap keeps the items behind the first [count] slots when it is cleared,
    and says that it is empty; the next growth then ends the process. *)
Theorem clear_leaves_items (x : Z) :
  x <> 0 ->
  exists l, exec_all exec [Insert x 3; Clear; Get 3; Count] (farraylist_new 4) = Ok (l, [0; 0; x; 0]) /\ farraylist_insert l x 4 = Exit 134.
Proof.
  intros Hx. eexists. split.
  - simpl. unfold farraylist_insert. by rewrite (proj2 (Z.eqb_neq x 0)) by done.
  - unfold farraylist_insert. rewrite (proj2 (Z.eqb_neq x 0)) by done. simpl. unfold ensurecap. simpl. unfold in_use. by rewrite !filter_cons_False, filter_cons_True by lia.
Qed.
End Farraylist.
