(* ===== verification/Cbuffer.v ===== *)
(** * The circular buffer (src/PUTs/13cbuffer-master/cbuffer.c)

    The block of [size] bytes is mapped twice, one behind the other, so that address
    [a] of the mapping is byte [a mod size] of the block; [mmap] is taken to succeed.
    The size is an [unsigned long], the cursors are [unsigned int] and the results
    [int].  A pointer into the mapping is its offset. *)

From S2P Require Import Prelude.

Module Cbuffer.

Record cbuf_t := mk_cbuf { size : Z; head : Z; tail : Z; data : list Z }.

(** The block as it was mapped. *)
Definition cbuf_new (block : list Z) (order : Z) : cbuf_t := mk_cbuf (wrap_size (Z.shiftl 1 order)) 0 0 block.

Definition cbuf_is_empty (me : cbuf_t) : bool := head me =? tail me.

Definition cbuf_size (me : cbuf_t) : Z := wrap_int (size me).

Definition cbuf_usedspace (me : cbuf_t) : Z :=
  if head me <=? tail me then wrap_int (wrap_u32 (tail me - head me))
  else wrap_int (wrap_size (size me - wrap_u32 (head me - tail me))).

Definition cbuf_unusedspace (me : cbuf_t) : Z := wrap_int (wrap_size (size me - cbuf_usedspace me)).

(** Bytes written from address [a] on, through either mapping. *)
Fixpoint mirror_write (d : list Z) (n a : Z) (bs : list Z) : list Z :=
  match bs with
  | [] => d
  | b :: bs => mirror_write (<[Z.to_nat (a mod n) := b]> d) n (a + 1) bs
  end.

Definition memcpy (me : cbuf_t) (a : Z) (src : list Z) (n : Z) : res (list Z) :=
  if decide (0 <= n <= Z.of_nat (List.length src) /\ a + n <= 2 * size me)
  then Ok (mirror_write (data me) (size me) a (take (Z.to_nat n) src)) else Undef.

Definition cbuf_offer (me : cbuf_t) (src : list Z) (n : Z) : res (cbuf_t * Z) :=
  if cbuf_unusedspace me <=? n then Ok (me, 0)
  else
    let written := cbuf_unusedspace me in
    let written := if n <? written then n else written in
    d ← memcpy me (tail me) src written;
    let t := wrap_u32 (tail me + written) in
    Ok (mk_cbuf (size me) (head me) (if size me <? t then t mod size me else t) d, written).

Definition cbuf_peek (me : cbuf_t) : option Z := if cbuf_is_empty me then None else Some (head me).

Definition cbuf_poll (me : cbuf_t) (n : Z) : cbuf_t * option Z :=
  if cbuf_is_empty me then (me, None)
  else (mk_cbuf (size me) (wrap_u32 (head me + n)) (tail me) (data me), Some (head me)).

(** [n] bytes read from address [a] on, through either mapping. *)
Definition mirror_read (me : cbuf_t) (a n : Z) : list Z :=
  (fun k => data me !!! Z.to_nat ((a + k) mod size me)) <$> seqZ 0 n.

Definition read (me : cbuf_t) (a n : Z) : res (list Z) :=
  if decide (0 <= a /\ a + n <= 2 * size me) then Ok (mirror_read me a n) else Undef.

(** ** The mirror *)

Lemma mod_neq n a b : 0 < n -> 0 <= a - b < n -> a mod n = b mod n -> a = b.
Proof.
  intros Hn Hab E. pose proof (Z.div_mod a n ltac:(lia)) as Ha. pose proof (Z.div_mod b n ltac:(lia)) as Hb.
  assert (a - b = n * (a / n - b / n)) by lia. assert (a / n - b / n = 0) by nia. lia.
Qed.

Lemma mirror_write_length d n a bs : List.length (mirror_write d n a bs) = List.length d.
Proof. revert d a. induction bs as [|b bs IH]; intros d a; simpl; [done|]. by rewrite IH, length_insert. Qed.

(** A byte that is not written. *)
Lemma mirror_write_other d n a bs c :
  0 < n -> (forall k, 0 <= k < Z.of_nat (List.length bs) -> c mod n <> (a + k) mod n) ->
  mirror_write d n a bs !!! Z.to_nat (c mod n) = d !!! Z.to_nat (c mod n).
Proof.
  intros Hn. revert d a. induction bs as [|b bs IH]; intros d a H; simpl; [done|].
  pose proof (Z.mod_pos_bound a n Hn). pose proof (Z.mod_pos_bound c n Hn).
  rewrite IH.
  - apply list_lookup_total_insert_ne. specialize (H 0 ltac:(simpl; lia)). rewrite Z.add_0_r in H. lia.
  - intros k Hk. rewrite <- Z.add_assoc. apply H. simpl. lia.
Qed.

(** The bytes that are written. *)
Lemma mirror_write_read d n a bs :
  0 < n -> Z.of_nat (List.length d) = n -> Z.of_nat (List.length bs) <= n ->
  (fun k => mirror_write d n a bs !!! Z.to_nat ((a + k) mod n)) <$> seqZ 0 (Z.of_nat (List.length bs)) = bs.
Proof.
  intros Hn. revert d a. induction bs as [|b bs IH]; intros d a Hd Hl; [done|]. simpl List.length in *.
  rewrite seqZ_cons by lia. rewrite fmap_cons. cbn [mirror_write]. pose proof (Z.mod_pos_bound a n Hn). f_equal.
  - rewrite Z.add_0_r, mirror_write_other; [apply list_lookup_total_insert_eq; lia|done|].
    intros k Hk E. assert (a + 1 + k = a) as E'; [|lia]. apply (mod_neq n); [done|lia|done].
  - transitivity ((fun k => mirror_write (<[Z.to_nat (a mod n) := b]> d) n (a + 1) bs !!! Z.to_nat ((a + 1 + k) mod n)) <$> seqZ 0 (Z.of_nat (List.length bs)));
      [|apply IH; [rewrite length_insert; lia|lia]].
    replace (Z.pred (Z.of_nat (S (List.length bs)))) with (Z.of_nat (List.length bs)) by lia.
    change (Z.succ 0) with (0 + 1). rewrite <- (fmap_add_seqZ 1 0), <- list_fmap_compose. apply list_fmap_ext. intros i k _. simpl.
    do 3 f_equal. lia.
Qed.

(** ** The first lap *)

Definition used (me : cbuf_t) : Z := if head me <=? tail me then tail me - head me else size me - (head me - tail me).

Record wf (me : cbuf_t) : Prop := {
  wf_size : 0 < size me <= 2 ^ 30;
  wf_data : Z.of_nat (List.length (data me)) = size me;
  wf_head : 0 <= head me <= size me;
  wf_tail : 0 <= tail me <= size me;
  wf_used : used me < size me;
  wf_zero : tail me = 0 -> head me = 0
}.

Definition contents (me : cbuf_t) : list Z := mirror_read me (head me) (used me).

Lemma cbuf_used_nonneg me : wf me -> 0 <= used me.
Proof. intros []. unfold used. destruct (Z.leb_spec (head me) (tail me)); lia. Qed.

Lemma usedspace_eq me : wf me -> cbuf_usedspace me = used me.
Proof.
  intros []. unfold cbuf_usedspace, used in *. destruct (Z.leb_spec (head me) (tail me)).
  - rewrite wrap_u32_id by lia. apply wrap_int_id. unfold in_int, int_min, int_max. lia.
  - rewrite wrap_u32_id by lia. rewrite wrap_size_id by lia. apply wrap_int_id. unfold in_int, int_min, int_max. lia.
Qed.

Lemma unusedspace_eq me : wf me -> cbuf_unusedspace me = size me - used me.
Proof.
  intros Hwf. unfold cbuf_unusedspace. rewrite usedspace_eq by done. pose proof (cbuf_used_nonneg me Hwf). destruct Hwf.
  rewrite wrap_size_id by lia. apply wrap_int_id. unfold in_int, int_min, int_max. lia.
Qed.

Lemma contents_length me : wf me -> Z.of_nat (List.length (contents me)) = used me.
Proof. intros Hwf. unfold contents, mirror_read. rewrite length_fmap, length_seqZ. pose proof (cbuf_used_nonneg me Hwf). lia. Qed.

(** The position of the tail. *)
Lemma tail_position me : wf me -> exists q, tail me = head me + used me + q * size me.
Proof. intros []. unfold used. destruct (Z.leb_spec (head me) (tail me)); [exists 0|exists (-1)]; lia. Qed.

Lemma empty_iff me : wf me -> cbuf_is_empty me = (used me =? 0).
Proof.
  intros []. unfold cbuf_is_empty, used in *. destruct (Z.leb_spec (head me) (tail me)), (Z.eqb_spec (head me) (tail me)); symmetry;
    rewrite ?Z.eqb_eq, ?Z.eqb_neq; lia.
Qed.

Lemma mod_shift n a q : 0 < n -> (a + q * n) mod n = a mod n.
Proof. intros Hn. apply Z.mod_add. lia. Qed.

(** Bytes that fit are appended. *)
Lemma offer_room me bs :
  wf me -> used me + Z.of_nat (List.length bs) < size me ->
  exists me', cbuf_offer me bs (Z.of_nat (List.length bs)) = Ok (me', Z.of_nat (List.length bs)) /\ wf me' /\
    size me' = size me /\ head me' = head me /\ contents me' = contents me ++ bs.
Proof.
  intros Hwf Hn. pose proof (cbuf_used_nonneg me Hwf) as H0. destruct (tail_position me Hwf) as [q Hq].
  unfold cbuf_offer. rewrite unusedspace_eq by done. pose proof Hwf as [Hs Hd Hh Ht Hu Hz]. set (n := Z.of_nat (List.length bs)) in *.
  rewrite (proj2 (Z.leb_gt _ _)), (proj2 (Z.ltb_lt n _)) by lia. unfold memcpy. rewrite decide_True by lia. cbn [mbind res_bind].
  rewrite take_ge by lia. rewrite (wrap_u32_id (tail me + n)) by lia.
  set (t := if size me <? tail me + n then _ else _). eexists. split; [done|].
  assert ((t = tail me + n \/ t = tail me + n - size me /\ 0 < t) /\ 0 <= t <= size me) as [Ht' Htr].
  { unfold t. destruct (Z.ltb_spec (size me) (tail me + n)); [|lia].
    assert ((tail me + n) mod size me = tail me + n - size me) as -> by (symmetry; apply (Z.mod_unique _ _ 1); lia). lia. }
  set (me' := mk_cbuf _ _ _ _). assert (used me' = used me + n) as Hu'.
  { unfold used, me' in *. simpl. destruct (Z.leb_spec (head me) (tail me)), (Z.leb_spec (head me) t); lia. }
  split_and!; try done.
  - split; simpl; try done; [rewrite mirror_write_length; done|by rewrite Hu'|]. unfold used in *.
    destruct (Z.leb_spec (head me) (tail me)); lia.
  - unfold contents, mirror_read. rewrite Hu', seqZ_app, fmap_app by lia. cbn [head size data me']. f_equal.
    + apply list_fmap_ext. intros i k Hk. apply list_elem_of_lookup_2, elem_of_seqZ in Hk. apply mirror_write_other; [lia|].
      intros j Hj E. rewrite Hq in E. replace (head me + used me + q * size me + j) with (head me + used me + j + q * size me) in E by lia.
      rewrite mod_shift in E by lia. symmetry in E. apply mod_neq in E; lia.
    + etrans; [|apply (mirror_write_read (data me) (size me) (tail me) bs); lia]. fold n.
      replace (seqZ (0 + used me) n) with (seqZ (used me + 0) n) by (f_equal; lia).
      rewrite <- fmap_add_seqZ, <- list_fmap_compose. apply list_fmap_ext. intros i k _. simpl. do 2 f_equal. rewrite Hq.
      replace (head me + used me + q * size me + k) with (head me + (used me + k) + q * size me) by lia. by rewrite mod_shift by lia.
Qed.

(** Too many bytes are refused, all of them. *)
Lemma offer_full me bs :
  wf me -> size me <= used me + Z.of_nat (List.length bs) -> cbuf_offer me bs (Z.of_nat (List.length bs)) = Ok (me, 0).
Proof. intros Hwf Hn. unfold cbuf_offer. rewrite unusedspace_eq by done. by rewrite (proj2 (Z.leb_le _ _)) by lia. Qed.

(** Bytes of the first lap are taken from the front. *)
Lemma poll_spec me n :
  wf me -> 0 <= n <= used me -> used me <> 0 -> head me + n <= size me ->
  exists me', cbuf_poll me n = (me', Some (head me)) /\ wf me' /\ size me' = size me /\ head me' = head me + n /\
    read me (head me) n = Ok (take (Z.to_nat n) (contents me)) /\ contents me' = drop (Z.to_nat n) (contents me).
Proof.
  intros Hwf Hn Hu0 Hlap. unfold cbuf_poll. rewrite empty_iff by done. rewrite (proj2 (Z.eqb_neq _ _)) by done.
  pose proof Hwf as [Hs Hd Hh Ht Hu Hz]. rewrite wrap_u32_id by lia. eexists. split; [done|]. set (me' := mk_cbuf _ _ _ _).
  assert (used me' = used me - n) as Hu'.
  { unfold used, me' in *. simpl. destruct (Z.leb_spec (head me) (tail me)), (Z.leb_spec (head me + n) (tail me)); lia. }
  assert (contents me = mirror_read me (head me) n ++ mirror_read me (head me + n) (used me - n)) as Ec.
  { unfold contents, mirror_read. replace (used me) with (n + (used me - n)) at 1 by lia. rewrite seqZ_app, fmap_app by lia. f_equal.
    replace (seqZ (0 + n) (used me - n)) with (seqZ (n + 0) (used me - n)) by (f_equal; lia).
    rewrite <- fmap_add_seqZ, <- list_fmap_compose. apply list_fmap_ext.
    intros i k _. simpl. do 3 f_equal. lia. }
  assert (List.length (mirror_read me (head me) n) = Z.to_nat n) as El by (unfold mirror_read; by rewrite length_fmap, length_seqZ).
  split_and!; try done.
  - split; simpl; try done; [lia|rewrite Hu'; lia|]. intros E. exfalso. apply Hu0. unfold used. rewrite E, (Hz E). done.
  - unfold read. rewrite decide_True by lia. rewrite Ec, take_app_length' by done. done.
  - rewrite Ec, drop_app_length' by done. unfold contents. by rewrite Hu'.
Qed.

(** ** Histories *)

Inductive command : Type := Offer (bs : list Z) | Poll (n : Z).

(** The bytes taken in and the bytes read. *)
Definition exec (c : command) (me : cbuf_t) : res (cbuf_t * list Z * list Z) :=
  match c with
  | Offer bs =>
      '(me, n) ← cbuf_offer me bs (Z.of_nat (List.length bs));
      Ok (me, take (Z.to_nat n) bs, [])
  | Poll n =>
      match cbuf_poll me n with
      | (me', None) => Ok (me', [], [])
      | (me', Some a) => out ← read me a n; Ok (me', [], out)
      end
  end.

(** A poll takes no more than there is, and no byte of a second lap. *)
Definition allowed (c : command) (me : cbuf_t) : bool :=
  match c with
  | Offer _ => true
  | Poll n => (0 <=? n) && (n <=? cbuf_usedspace me) && (head me + n <=? size me)
  end.

Fixpoint exec_all (cs : list command) (me : cbuf_t) : res (cbuf_t * list Z * list Z) :=
  match cs with
  | [] => Ok (me, [], [])
  | c :: cs => '(me, i, o) ← exec c me; '(me, i', o') ← exec_all cs me; Ok (me, i ++ i', o ++ o')
  end.

Fixpoint allowed_all (cs : list command) (me : cbuf_t) : bool :=
  match cs with
  | [] => true
  | c :: cs => allowed c me && match exec c me with Ok (me, _, _) => allowed_all cs me | _ => false end
  end.

Lemma cbuf_call c me :
  wf me -> allowed c me = true ->
  exists me' i o, exec c me = Ok (me', i, o) /\ wf me' /\ size me' = size me /\ contents me ++ i = o ++ contents me'.
Proof.
  intros Hwf Hal. destruct c as [bs|n]; simpl in Hal |- *.
  - destruct (decide (used me + Z.of_nat (List.length bs) < size me)).
    + destruct (offer_room me bs) as (me' & -> & Hw & Hs & _ & Hc); [done|done|]. cbn [mbind res_bind].
      eexists _, _, _. split_and!; [done|done|done|]. simpl. by rewrite take_ge, Hc by lia.
    + rewrite offer_full by (done || lia). cbn [mbind res_bind]. eexists _, _, _. split_and!; [done|done|done|]. simpl. by rewrite app_nil_r.
  - rewrite usedspace_eq in Hal by done. apply andb_true_iff in Hal as [Hal H3]. apply andb_true_iff in Hal as [H1 H2].
    apply Z.leb_le in H1, H2, H3. destruct (decide (used me = 0)) as [E|E].
    + unfold cbuf_poll. rewrite empty_iff, E by done. simpl. eexists _, _, _. split_and!; [done|done|done|]. by rewrite app_nil_r.
    + destruct (poll_spec me n Hwf) as (me' & -> & Hw & Hs & _ & -> & Hc); [lia|done|lia|]. cbn [mbind res_bind].
      eexists _, _, _. split_and!; [done|done|done|]. by rewrite app_nil_r, Hc, take_drop.
Qed.

Lemma cbuf_history cs me :
  wf me -> allowed_all cs me = true ->
  exists me' i o, exec_all cs me = Ok (me', i, o) /\ wf me' /\ size me' = size me /\ contents me ++ i = o ++ contents me'.
Proof.
  revert me. induction cs as [|c cs IH]; intros me Hwf Hal; simpl in Hal |- *.
  { exists me, [], []. split_and!; try done. by rewrite app_nil_r. }
  apply andb_true_iff in Hal as [H1 H2]. destruct (cbuf_call c me Hwf H1) as (m1 & i & o & E & Hw1 & Hs1 & Hc1).
  rewrite E in *. cbn [mbind res_bind]. destruct (IH m1 Hw1 H2) as (m2 & i2 & o2 & -> & Hw2 & Hs2 & Hc2). cbn [mbind res_bind].
  exists m2, (i ++ i2), (o ++ o2). split_and!; [done|done|congruence|]. rewrite app_assoc, Hc1, <- app_assoc, Hc2. by rewrite app_assoc.
Qed.

(** In any history of offers, and of polls that take no more than there is and stay
    within the first lap, every byte comes out once and in order, across the end of the
    block too: the bytes taken in are the bytes read followed by the ones still in the
    buffer, whose number [cbuf_usedspace] reports. *)
Theorem cbuf_fifo (order : Z) (block : list Z) (cs : list command) :
  0 <= order <= 30 -> Z.of_nat (List.length block) = 2 ^ order -> allowed_all cs (cbuf_new block order) = true ->
  exists me i o, exec_all cs (cbuf_new block order) = Ok (me, i, o) /\ i = o ++ contents me /\
    cbuf_usedspace me = Z.of_nat (List.length (contents me)) /\ Z.of_nat (List.length (contents me)) < 2 ^ order.
Proof.
  intros Ho Hb Hal. assert (0 < 2 ^ order <= 2 ^ 30) as Hp by (split; [apply Z.pow_pos_nonneg; lia|apply Z.pow_le_mono_r; lia]).
  assert (size (cbuf_new block order) = 2 ^ order) as Es.
  { simpl. rewrite Z.shiftl_mul_pow2, Z.mul_1_l by lia. apply wrap_size_id. lia. }
  assert (wf (cbuf_new block order)) as Hwf by (split; rewrite ?Es; unfold used; simpl; lia).
  destruct (cbuf_history cs _ Hwf Hal) as (me & i & o & E & Hw & Hs & Hc). exists me, i, o. split_and!; [done|done| |].
  - rewrite contents_length by done. by apply usedspace_eq.
  - rewrite contents_length by done. rewrite <- Es, <- Hs. apply Hw.
Qed.

(** Eight bytes, across the end of the block. *)
Lemma cbuf_fifo_witness :
  let cs := [Offer [1; 2; 3; 4; 5; 6]; Poll 5; Offer [7; 8; 9; 10]; Offer [11; 12; 13]; Poll 2] in
  exists me i o, exec_all cs (cbuf_new (replicate 8 0) 3) = Ok (me, i, o) /\ i = o ++ contents me /\
    cbuf_usedspace me = Z.of_nat (List.length (contents me)) /\ Z.of_nat (List.length (contents me)) < 2 ^ 3.
Proof. apply cbuf_fifo; [lia|reflexivity|vm_compute; reflexivity]. Defined.

(** [cbuf_poll] never brings the head back into the block.  Once a poll has crossed the
    end of the block the buffer is never seen as empty again: all bytes are read, no
    space is used, and a poll still hands out a pointer. *)
Theorem cbuf_never_empty_again (me : cbuf_t) (n : Z) :
  0 < size me <= 2 ^ 30 -> 0 < tail me <= size me -> head me = size me + tail me -> 0 <= n < size me ->
  cbuf_usedspace me = 0 /\ cbuf_is_empty me = false /\ exists me', cbuf_poll me n = (me', Some (head me)).
Proof.
  intros Hs Ht Hh Hn. assert (cbuf_is_empty me = false) as He by (apply Z.eqb_neq; lia). split_and!; [|done|].
  - unfold cbuf_usedspace. rewrite (proj2 (Z.leb_gt _ _)) by lia. rewrite wrap_u32_id by lia.
    replace (size me - (head me - tail me)) with 0 by lia. done.
  - unfold cbuf_poll. rewrite He. eauto.
Qed.

(** Seven bytes in and out, five bytes in and out. *)
Lemma cbuf_never_empty_again_witness :
  exists me i o, exec_all [Offer [1; 2; 3; 4; 5; 6; 7]; Poll 7; Offer [8; 9; 10; 11; 12]; Poll 5] (cbuf_new (replicate 8 0) 3) = Ok (me, i, o) /\
    i = o /\ cbuf_usedspace me = 0 /\ cbuf_is_empty me = false /\ exists me', cbuf_poll me 1 = (me', Some (head me)).
Proof.
  eexists _, _, _. split; [vm_compute; reflexivity|]. split; [reflexivity|]. apply cbuf_never_empty_again; simpl; lia.
Defined.
End Cbuffer.
