(* ===== verification/Bencode.v ===== *)
(** * The streaming bencode reader (src/PUTs/10streaming-bencode-master/bencode.c)

    The reader takes one character at a time and tells what it sees to callbacks.  A
    callback is present or [NULL]; the calls it gets are recorded in order, and it is
    taken not to change the reader.  A byte that was allocated and not written is
    [None].  Allocation is taken to succeed; characters are numbers. *)

From S2P Require Import Prelude.

Module Bencode.

Inductive tok : Type :=
| BENCODE_TOK_NONE | BENCODE_TOK_LIST | BENCODE_TOK_DICT_KEYLEN | BENCODE_TOK_DICT_KEY | BENCODE_TOK_DICT_VAL
| BENCODE_TOK_INT | BENCODE_TOK_STR_LEN | BENCODE_TOK_STR | BENCODE_TOK_DICT.

Abbreviation block := (list (option Z)).

Record bencode_frame_t := mk_frame {
  key : option block; k_size : Z;
  strval : option block; sv_size : Z;
  intval : Z; len : Z; pos : Z; type : tok
}.

(** Which callbacks are set. *)
Record bencode_callbacks_t := mk_cbs {
  hit_int : bool; hit_str : bool; dict_enter : bool; dict_leave : bool;
  list_enter : bool; list_leave : bool; list_next : bool; dict_next : bool
}.

Record bencode_t := mk_bencode { stk : list bencode_frame_t; nframes : Z; d : Z; cb : bencode_callbacks_t }.

(** A call of a callback; [K] is what it is given as the key. *)
Inductive event (K : Type) : Type :=
| HitInt (k : K) (val : Z)
| HitStr (k : K) (v_total_len : Z) (val : option block) (v_len : Z)
| DictEnter (k : K) | DictLeave (k : K) | ListEnter (k : K) | ListLeave (k : K)
| ListNext | DictNext.
Arguments HitInt {K}. Arguments HitStr {K}. Arguments DictEnter {K}. Arguments DictLeave {K}.
Arguments ListEnter {K}. Arguments ListLeave {K}. Arguments ListNext {K}. Arguments DictNext {K}.

Definition when {A} (b : bool) (e : A) : list A := if b then [e] else [].

Definition calloc_frame : bencode_frame_t := mk_frame None 0 None 0 0 0 0 BENCODE_TOK_NONE.

Definition bencode_set_callbacks (me : bencode_t) (c : bencode_callbacks_t) : bencode_t := mk_bencode (stk me) (nframes me) (d me) c.

Definition bencode_new (expected_depth : Z) (c : bencode_callbacks_t) : res bencode_t :=
  n ← chk (10 + expected_depth);
  Ok (mk_bencode (replicate (Z.to_nat n) calloc_frame) (wrap_u32 expected_depth) 0 c).

Definition bencode_init (me : bencode_t) : bencode_t :=
  mk_bencode [] 0 0 (mk_cbs false false false false false false false false).

(** The frame at the current depth. *)
Definition cur (me : bencode_t) : res bencode_frame_t := load (stk me) (d me).
Definition put (me : bencode_t) (f : bencode_frame_t) : bencode_t :=
  mk_bencode (<[Z.to_nat (d me) := f]> (stk me)) (nframes me) (d me) (cb me).
Definition set_d (me : bencode_t) (n : Z) : bencode_t := mk_bencode (stk me) (nframes me) n (cb me).

Definition set_type (f : bencode_frame_t) (t : tok) : bencode_frame_t :=
  mk_frame (key f) (k_size f) (strval f) (sv_size f) (intval f) (len f) (pos f) t.
Definition set_pos (f : bencode_frame_t) (p : Z) : bencode_frame_t :=
  mk_frame (key f) (k_size f) (strval f) (sv_size f) (intval f) (len f) p (type f).
Definition set_len (f : bencode_frame_t) (l : Z) : bencode_frame_t :=
  mk_frame (key f) (k_size f) (strval f) (sv_size f) (intval f) l (pos f) (type f).
Definition set_intval (f : bencode_frame_t) (v : Z) : bencode_frame_t :=
  mk_frame (key f) (k_size f) (strval f) (sv_size f) v (len f) (pos f) (type f).

Definition malloc (n : Z) : block := replicate (Z.to_nat n) None.
Definition realloc (b : option block) (n : Z) : block :=
  take (Z.to_nat n) (default [] b) ++ replicate (Z.to_nat n - List.length (default [] b)) None.

Definition reset_frame (s : bencode_frame_t) : bencode_frame_t :=
  let '(sv, svn) := if 0 =? sv_size s then (Some (malloc 20), 20) else (strval s, sv_size s) in
  let '(k, kn) := if 0 =? k_size s then (Some (malloc 20), 20) else (key s, k_size s) in
  mk_frame k kn sv svn 0 0 0 BENCODE_TOK_NONE.

Definition push_stack (me : bencode_t) : res bencode_t :=
  if nframes me <=? d me then Exit 134
  else
    let me := set_d me (wrap_u32 (d me + 1)) in
    s ← cur me; Ok (put me (reset_frame s)).

Definition call := event (option block).

Definition pop_stack (me : bencode_t) : res (bencode_t * list call) :=
  f ← cur me;
  let leave :=
    match type f with
    | BENCODE_TOK_LIST => when (list_leave (cb me)) (ListLeave (key f))
    | BENCODE_TOK_DICT => when (dict_leave (cb me)) (DictLeave (key f))
    | _ => []
    end in
  if d me =? 0 then Ok (me, leave)
  else
    let me := set_d me (d me - 1) in
    f ← cur me;
    let next :=
      match type f with
      | BENCODE_TOK_LIST => when (list_next (cb me)) ListNext
      | BENCODE_TOK_DICT => when (dict_next (cb me)) DictNext
      | _ => []
      end in
    Ok (me, leave ++ next).

Definition isdigit (c : Z) : bool := (48 <=? c) && (c <=? 57).

Definition parse_digit (current_value c : Z) : res Z := p ← chk (current_value * 10); chk (c - 48 + p).

Definition start_int (f : bencode_frame_t) : bencode_frame_t := set_pos (set_type f BENCODE_TOK_INT) 0.

Definition start_dict (me : bencode_t) : res (bencode_t * list call) :=
  f ← cur me;
  let me := put me (set_pos (set_type f BENCODE_TOK_DICT) 0) in
  let evs := when (dict_enter (cb me)) (DictEnter (key f)) in
  me ← push_stack me;
  f ← cur me;
  Ok (put me (set_type f BENCODE_TOK_DICT_KEYLEN), evs).

Definition start_list (me : bencode_t) : res (bencode_t * list call) :=
  f ← cur me;
  Ok (put me (set_pos (set_type f BENCODE_TOK_LIST) 0), when (list_enter (cb me)) (ListEnter (key f))).

Definition start_str (f : bencode_frame_t) : bencode_frame_t := set_pos (set_type f BENCODE_TOK_STR_LEN) 0.

(** A character stored at [pos], in a block that grows: the block, its size and the
    next position. *)
Definition put_char (b : option block) (size p c : Z) : res (block * Z * Z) :=
  p1 ← chk (p + 1);
  '(b, size) ← (if size <=? p1 then
                  s2 ← chk (size * 2); s4 ← chk (4 + s2); Ok (realloc b s4, s4)
                else match b with Some b => Ok (b, size) | None => Undef end);
  b ← store b p (Some c);
  Ok (b, size, p1).

Definition first_digit (me : bencode_t) (c : Z) : res bencode_t :=
  f ← cur me;
  let f := start_str f in
  n ← parse_digit (len f) c;
  Ok (put me (set_len f n)).

(** The length of a key, and the end of the dictionary. *)
Definition keylen (me : bencode_t) (c : Z) : res (bencode_t * list call * bool) :=
  f ← cur me;
  if c =? 58 then Ok (put me (set_pos (set_type f BENCODE_TOK_DICT_KEY) 0), [], true)
  else if isdigit c then n ← parse_digit (len f) c; Ok (put me (set_len f n), [], true)
  else if c =? 101 then '(me, evs) ← pop_stack me; Ok (me, evs, true)
  else Ok (me, [], false).

(** The characters are [e] 101, [i] 105, [d] 100, [l] 108 and [:] 58. *)
Definition process_tok (me : bencode_t) (c : Z) : res (bencode_t * list call * bool) :=
  f ← cur me;
  match type f with
  | BENCODE_TOK_LIST =>
      if c =? 101 then '(me, evs) ← pop_stack me; Ok (me, evs, true)
      else if c =? 105 then me ← push_stack me; f ← cur me; Ok (put me (start_int f), [], true)
      else if c =? 100 then me ← push_stack me; '(me, evs) ← start_dict me; Ok (me, evs, true)
      else if c =? 108 then me ← push_stack me; '(me, evs) ← start_list me; Ok (me, evs, true)
      else if isdigit c then me ← push_stack me; me ← first_digit me c; Ok (me, [], true)
      else Ok (me, [], false)
  | BENCODE_TOK_DICT_VAL | BENCODE_TOK_NONE =>
      if c =? 105 then Ok (put me (start_int f), [], true)
      else if c =? 100 then '(me, evs) ← start_dict me; Ok (me, evs, true)
      else if c =? 108 then '(me, evs) ← start_list me; Ok (me, evs, true)
      else if isdigit c then me ← first_digit me c; Ok (me, [], true)
      else Ok (me, [], false)
  | BENCODE_TOK_INT =>
      if c =? 101 then
        if hit_int (cb me) then '(me, evs) ← pop_stack me; Ok (me, HitInt (key f) (intval f) :: evs, true) else Undef
      else if isdigit c then n ← parse_digit (wrap_int (intval f)) c; Ok (put me (set_intval f n), [], true)
      else Exit 134
  | BENCODE_TOK_STR_LEN =>
      if c =? 58 then
        if 0 =? len f then
          if hit_str (cb me) then '(me, evs) ← pop_stack me; Ok (me, HitStr (key f) 0 None 0 :: evs, true) else Undef
        else Ok (put me (set_pos (set_type f BENCODE_TOK_STR) 0), [], true)
      else if isdigit c then n ← parse_digit (len f) c; Ok (put me (set_len f n), [], true)
      else Exit 134
  | BENCODE_TOK_STR =>
      '(b, n, p) ← put_char (strval f) (sv_size f) (pos f) c;
      let g b := mk_frame (key f) (k_size f) (Some b) n (intval f) (len f) p (type f) in
      if len f =? p then
        b ← store b p (Some 0);
        let me := put me (g b) in
        if hit_str (cb me) then
          '(me, evs) ← pop_stack me;
          Ok (me, HitStr (key f) (wrap_u32 (len f)) (Some (take (Z.to_nat (len f)) b)) (wrap_u32 (len f)) :: evs, true)
        else Undef
      else Ok (put me (g b), [], true)
  | BENCODE_TOK_DICT =>
      if c =? 101 then '(me, evs) ← pop_stack me; Ok (me, evs, true)
      else
        me ← push_stack me;
        f ← cur me;
        keylen (put me (set_pos (set_type f BENCODE_TOK_DICT_KEYLEN) 0)) c
  | BENCODE_TOK_DICT_KEYLEN => keylen me c
  | BENCODE_TOK_DICT_KEY =>
      '(b, n, p) ← put_char (key f) (k_size f) (pos f) c;
      let g b := mk_frame (Some b) n (strval f) (sv_size f) (intval f) in
      if p =? len f then b ← store b p (Some 0); Ok (put me (g b 0 0 BENCODE_TOK_DICT_VAL), [], true)
      else Ok (put me (g b (len f) p (type f)), [], true)
  end.

Fixpoint dispatch_loop (me : bencode_t) (buf : list Z) : res (bencode_t * list call * bool) :=
  match buf with
  | [] => Ok (me, [], true)
  | c :: buf =>
      '(me, evs, ok) ← process_tok me c;
      if ok : bool then '(me, evs', ok) ← dispatch_loop me buf; Ok (me, evs ++ evs', ok) else Ok (me, evs, false)
  end.

Definition bencode_dispatch_from_buffer (me : bencode_t) (buf : list Z) : res (bencode_t * list call * bool) :=
  if nframes me <=? d me then Ok (me, [], false) else dispatch_loop me buf.

(** Buffers one after the other, up to one that is refused. *)
Fixpoint dispatch_all (me : bencode_t) (bufs : list (list Z)) : res (bencode_t * list call * bool) :=
  match bufs with
  | [] => Ok (me, [], true)
  | b :: bufs =>
      '(me, evs, ok) ← bencode_dispatch_from_buffer me b;
      if ok : bool then '(me, evs', ok) ← dispatch_all me bufs; Ok (me, evs ++ evs', ok) else Ok (me, evs, false)
  end.

(** ** Values and their text *)

Inductive bvalue : Type :=
| BInt (n : Z)
| BStr (s : list Z)
| BList (vs : list bvalue)
| BDict (kvs : list (list Z * bvalue)).

Fixpoint digits (fuel : nat) (n : Z) : list Z :=
  match fuel with
  | O => []
  | S fuel => if n <? 10 then [48 + n] else digits fuel (n / 10) ++ [48 + n mod 10]
  end.
Definition decimal (n : Z) : list Z := digits (S (Z.to_nat (Z.log2 n))) n.
Definition encode_str (s : list Z) : list Z := decimal (Z.of_nat (List.length s)) ++ [58] ++ s.

Fixpoint encode (v : bvalue) : list Z :=
  match v with
  | BInt n => [105] ++ decimal n ++ [101]
  | BStr s => encode_str s
  | BList vs => [108] ++ concat (map encode vs) ++ [101]
  | BDict kvs => [100] ++ concat (map (fun kv => encode_str kv.1 ++ encode kv.2) kvs) ++ [101]
  end.

(** Values the reader takes: numbers of an [int], strings and keys whose blocks have
    [int] sizes, keys and dictionaries that are not empty. *)
Definition str_fits (s : list Z) : Prop := Z.of_nat (List.length s) <= 2 ^ 30 - 4.

Fixpoint readable (v : bvalue) : Prop :=
  match v with
  | BInt n => 0 <= n <= int_max
  | BStr s => str_fits s
  | BList vs => foldr (fun v P => readable v /\ P) True vs
  | BDict kvs => kvs <> [] /\ foldr (fun kv P => (kv.1 <> [] /\ str_fits kv.1 /\ readable kv.2) /\ P) True kvs
  end.

(** The frames a value takes above its own. *)
Fixpoint height (v : bvalue) : Z :=
  match v with
  | BInt _ | BStr _ => 0
  | BList vs => foldr (fun v h => Z.max (1 + height v) h) 0 vs
  | BDict kvs => foldr (fun kv h => Z.max (1 + height kv.2) h) 1 kvs
  end.

(** The calls a value stands for; the key is known within a dictionary. *)
Fixpoint events (c : bencode_callbacks_t) (k : option (list Z)) (v : bvalue) : list (event (option (list Z))) :=
  match v with
  | BInt n => [HitInt k n]
  | BStr s => let n := Z.of_nat (List.length s) in [HitStr k n (if 0 =? n then None else Some (Some <$> s)) n]
  | BList vs =>
      when (list_enter c) (ListEnter k) ++
      concat (map (fun v => events c None v ++ when (list_next c) ListNext) vs) ++
      when (list_leave c) (ListLeave k)
  | BDict kvs =>
      when (dict_enter c) (DictEnter k) ++
      concat (map (fun kv => events c (Some kv.1) kv.2 ++ when (dict_next c) DictNext) kvs) ++
      when (dict_leave c) (DictLeave k)
  end.

(** A known key is in the block as a string. *)
Definition key_is (b : option block) (k : option (list Z)) : Prop :=
  match k with
  | None => True
  | Some k => exists b', b = Some b' /\ take (S (List.length k)) b' = Some <$> (k ++ [0])
  end.

Inductive tells : call -> event (option (list Z)) -> Prop :=
| tells_int b k n : key_is b k -> tells (HitInt b n) (HitInt k n)
| tells_str b k n v m : key_is b k -> tells (HitStr b n v m) (HitStr k n v m)
| tells_dict_enter b k : key_is b k -> tells (DictEnter b) (DictEnter k)
| tells_dict_leave b k : key_is b k -> tells (DictLeave b) (DictLeave k)
| tells_list_enter b k : key_is b k -> tells (ListEnter b) (ListEnter k)
| tells_list_leave b k : key_is b k -> tells (ListLeave b) (ListLeave k)
| tells_list_next : tells ListNext ListNext
| tells_dict_next : tells DictNext DictNext.

Lemma bvalue_ind' (P : bvalue -> Prop) :
  (forall n, P (BInt n)) -> (forall s, P (BStr s)) -> (forall vs, Forall P vs -> P (BList vs)) ->
  (forall kvs, Forall (fun kv => P kv.2) kvs -> P (BDict kvs)) -> forall v, P v.
Proof.
  intros Hi Hs Hl Hd. fix IH 1. intros [n|s|vs|kvs]; [apply Hi|apply Hs|apply Hl|apply Hd].
  - induction vs; constructor; [apply IH|done].
  - induction kvs; constructor; [apply IH|done].
Qed.

(** ** One character *)

Record frame_ok (f : bencode_frame_t) : Prop := {
  fo_key : k_size f = Z.of_nat (List.length (default [] (key f)));
  fo_str : sv_size f = Z.of_nat (List.length (default [] (strval f)))
}.

Record wf (me : bencode_t) : Prop := {
  wf_stk : Z.of_nat (List.length (stk me)) = nframes me + 10;
  wf_frames : Forall frame_ok (stk me);
  wf_d : 0 <= d me < nframes me;
  wf_n : nframes me < 2 ^ 31;
  wf_hit : hit_int (cb me) = true /\ hit_str (cb me) = true
}.

(** The frame at the current depth is [f]. *)
Definition sits (me : bencode_t) (f : bencode_frame_t) : Prop := stk me !! Z.to_nat (d me) = Some f.

Lemma cur_sits me f : wf me -> sits me f -> cur me = Ok f.
Proof. intros [] Hf. apply load_ok; [lia|done]. Qed.

Lemma sits_put me f : wf me -> sits (put me f) f.
Proof. intros []. unfold sits. simpl. apply list_lookup_insert_eq. lia. Qed.

Lemma wf_put me f : wf me -> frame_ok f -> wf (put me f).
Proof. intros [] Hf. split; simpl; rewrite ?length_insert; try done. by apply Forall_insert. Qed.

Lemma sits_ok me f : wf me -> sits me f -> frame_ok f.
Proof. intros [] Hf. by eapply Forall_lookup_1. Qed.

Lemma put_put me f g : put (put me f) g = put me g.
Proof. unfold put. simpl. by rewrite list_insert_insert_eq. Qed.

Lemma put_sits me f : sits me f -> put me f = me.
Proof. destruct me. unfold put, sits. simpl. intros. by rewrite list_insert_id. Qed.

(** The text is read, and there is room for a frame all the time. *)
Fixpoint run (me : bencode_t) (bs : list Z) : res (bencode_t * list call) :=
  match bs with
  | [] => Ok (me, [])
  | c :: bs =>
      if nframes me <=? d me then Undef
      else
        '(me, evs, ok) ← process_tok me c;
        if ok : bool then '(me, evs') ← run me bs; Ok (me, evs ++ evs') else Undef
  end.

Lemma run_app me bs bs' me1 e1 me2 e2 :
  run me bs = Ok (me1, e1) -> run me1 bs' = Ok (me2, e2) -> run me (bs ++ bs') = Ok (me2, e1 ++ e2).
Proof.
  revert me e1. induction bs as [|c bs IH]; intros me e1 H1 H2; simpl in *; [by injection H1 as [= -> <-]|].
  destruct (nframes me <=? d me); [done|]. apply res_bind_inv in H1 as ([[m e] ok] & -> & H1). simpl in H1 |- *. destruct ok; [|done].
  apply res_bind_inv in H1 as ([m' e'] & H & [= <- <-]). rewrite (IH _ _ H H2). simpl. by rewrite app_assoc.
Qed.

Lemma run_cons me c bs me1 e1 me2 e2 :
  d me < nframes me -> process_tok me c = Ok (me1, e1, true) -> run me1 bs = Ok (me2, e2) -> run me (c :: bs) = Ok (me2, e1 ++ e2).
Proof. intros Hd E H. simpl. rewrite (proj2 (Z.leb_gt _ _)) by lia. rewrite E. simpl. by rewrite H. Qed.

Lemma run_one me c me1 e1 : d me < nframes me -> process_tok me c = Ok (me1, e1, true) -> run me [c] = Ok (me1, e1).
Proof. intros Hd E. rewrite <- (app_nil_r e1). by eapply run_cons. Qed.

(** However the text is cut. *)
Lemma run_loop me bs me' evs : run me bs = Ok (me', evs) -> dispatch_loop me bs = Ok (me', evs, true).
Proof.
  revert me evs. induction bs as [|c bs IH]; intros me evs H; simpl in *; [by injection H as [= -> <-]|].
  destruct (nframes me <=? d me); [done|]. apply res_bind_inv in H as ([[m e] ok] & -> & H). simpl in H |- *. destruct ok; [|done].
  apply res_bind_inv in H as ([m' e'] & H & [= <- <-]). by rewrite (IH _ _ H).
Qed.

Lemma run_split me bs bs' me2 e :
  run me (bs ++ bs') = Ok (me2, e) -> exists me1 e1 e2, run me bs = Ok (me1, e1) /\ run me1 bs' = Ok (me2, e2) /\ e = e1 ++ e2.
Proof.
  revert me e. induction bs as [|c bs IH]; intros me e H; simpl in *; [by eauto 10|].
  destruct (nframes me <=? d me); [done|]. apply res_bind_inv in H as ([[m ev] ok] & -> & H). simpl in H |- *. destruct ok; [|done].
  apply res_bind_inv in H as ([m' e'] & H & [= <- <-]). destruct (IH _ _ H) as (m1 & e1 & e2 & -> & H2 & ->).
  eexists _, _, _. simpl. split_and!; [done|done|by rewrite app_assoc].
Qed.

Lemma run_room me bs me' e : d me' < nframes me' -> run me bs = Ok (me', e) -> d me < nframes me.
Proof.
  destruct bs as [|c bs]; simpl; intros Hd H; [by injection H as [= -> _]|]. by destruct (Z.leb_spec (nframes me) (d me)).
Qed.

Lemma run_chunks bufs me me' evs :
  d me' < nframes me' -> run me (concat bufs) = Ok (me', evs) -> dispatch_all me bufs = Ok (me', evs, true).
Proof.
  intros Hd. revert me evs. induction bufs as [|b bufs IH]; intros me evs H; simpl in *; [by injection H as [= -> <-]|].
  apply run_room in H as Hr; [|done]. apply run_split in H as (m1 & e1 & e2 & H1 & H2 & ->).
  unfold bencode_dispatch_from_buffer. rewrite (proj2 (Z.leb_gt _ _)) by lia. rewrite (run_loop _ _ _ _ H1). simpl. by rewrite (IH _ _ H2).
Qed.

(** ** Characters of a block *)

Lemma length_realloc b n : Z.of_nat (List.length (default [] b)) <= n -> Z.of_nat (List.length (realloc b n)) = n.
Proof. intros H. unfold realloc. rewrite length_app, length_take, length_replicate. lia. Qed.

Lemma take_realloc b n p :
  Z.of_nat (List.length (default [] b)) <= n -> (p <= List.length (default [] b))%nat -> take p (realloc b n) = take p (default [] b).
Proof. intros H Hp. unfold realloc. rewrite take_app_le by (rewrite length_take; lia). rewrite take_take. f_equal. lia. Qed.

Lemma put_char_ok (b : option block) (p c : Z) :
  let size := Z.of_nat (List.length (default [] b)) in
  0 <= p <= 2 ^ 30 - 5 -> p < size \/ p = 0 ->
  exists b', put_char b size p c = Ok (b', Z.of_nat (List.length b'), p + 1) /\ p + 1 < Z.of_nat (List.length b') /\
    take (S (Z.to_nat p)) b' = take (Z.to_nat p) (default [] b) ++ [Some c].
Proof.
  intros size Hp Hs. unfold put_char. rewrite (chk_ok (p + 1)) by (unfold in_int, int_min, int_max; lia). cbn [mbind res_bind].
  assert (exists b1, (if size <=? p + 1 then s2 ← chk (size * 2); s4 ← chk (4 + s2); Ok (realloc b s4, s4)
                      else match b with Some b => Ok (b, size) | None => Undef end) = Ok (b1, Z.of_nat (List.length b1)) /\
            p + 1 < Z.of_nat (List.length b1) /\ take (Z.to_nat p) b1 = take (Z.to_nat p) (default [] b)) as (b1 & -> & Hl & Ht).
  { destruct (Z.leb_spec size (p + 1)).
    - rewrite chk_ok by (unfold in_int, int_min, int_max; lia). cbn [mbind res_bind].
      rewrite chk_ok by (unfold in_int, int_min, int_max; lia). cbn [mbind res_bind]. exists (realloc b (4 + size * 2)).
      rewrite length_realloc by lia. split_and!; [done|lia|]. apply take_realloc; lia.
    - destruct b as [b|]; simpl in *; [|lia]. exists b. split_and!; [done|lia|done]. }
  cbn [mbind res_bind]. rewrite store_ok by lia. cbn [mbind res_bind]. eexists. rewrite length_insert. split_and!; [done|lia|].
  erewrite take_S_r by (apply list_lookup_insert_eq; lia). by rewrite take_insert_ge, Ht by lia.
Qed.

(** ** Digits *)

Lemma chk_eq z a : z = a -> in_int a -> chk z = Ok a.
Proof. intros ->. apply chk_ok. Qed.

Lemma parse_digit_ok a c : isdigit c = true -> 0 <= a -> a * 10 + (c - 48) <= int_max -> parse_digit a c = Ok (a * 10 + (c - 48)).
Proof.
  intros Hc Ha Hm. apply andb_true_iff in Hc as [H1%Z.leb_le H2%Z.leb_le]. unfold parse_digit.
  rewrite chk_ok by (unfold in_int, int_min, int_max in *; lia). cbn [mbind res_bind].
  apply chk_eq; unfold in_int, int_min, int_max in *; lia.
Qed.

Lemma isdigit_of n : 0 <= n < 10 -> isdigit (48 + n) = true.
Proof. intros Hn. unfold isdigit. rewrite andb_true_iff, !Z.leb_le. lia. Qed.

Section digits.
Context (me : bencode_t) (F : Z -> bencode_frame_t) (Hroom : d me < nframes me).
Hypothesis HF : forall a c, isdigit c = true -> 0 <= a -> a * 10 + (c - 48) <= int_max ->
  process_tok (put me (F a)) c = Ok (put me (F (a * 10 + (c - 48))), [], true).

Lemma digit_run a n b : 0 <= n < 10 -> 0 <= a -> b = a * 10 + n -> b <= int_max -> run (put me (F a)) [48 + n] = Ok (put me (F b), []).
Proof.
  intros Hn Ha -> Hb. apply run_one; [done|]. replace n with (48 + n - 48) at 2 by lia. apply HF; [by apply isdigit_of|done|lia].
Qed.

Lemma digits_run fuel n :
  0 <= n <= int_max -> n < 2 * 2 ^ Z.of_nat fuel -> run (put me (F 0)) (digits (S fuel) n) = Ok (put me (F n), []).
Proof.
  revert n. induction fuel as [|fuel IH]; intros n Hn Hf.
  { change (2 * 2 ^ Z.of_nat 0) with 2 in Hf. simpl. rewrite (proj2 (Z.ltb_lt _ _)) by lia. apply digit_run; lia. }
  remember (S fuel) as fu. simpl. subst fu. destruct (Z.ltb_spec n 10); [apply digit_run; lia|].
  change (@nil call) with (@nil call ++ []). pose proof (Z.mod_pos_bound n 10 eq_refl). pose proof (Z.div_mod n 10 ltac:(lia)).
  eapply run_app; [apply IH|].
  - split; [apply Z.div_pos; lia|]. lia.
  - rewrite Nat2Z.inj_succ, Z.pow_succ_r in Hf by lia. lia.
  - apply digit_run; [lia|apply Z.div_pos; lia|lia|lia].
Qed.

Lemma decimal_run n : 0 <= n <= int_max -> run (put me (F 0)) (decimal n) = Ok (put me (F n), []).
Proof.
  intros Hn. unfold decimal. apply digits_run; [done|]. destruct (decide (n = 0)) as [->|]; [done|].
  destruct (Z.log2_spec n ltac:(lia)) as [_ Hl]. pose proof (Z.log2_nonneg n). rewrite Z2Nat.id by lia.
  rewrite <- Z.pow_succ_r by lia. done.
Qed.
End digits.

(** ** The stack *)

(** What lies below the current frame is untouched. *)
Record below (me me' : bencode_t) : Prop := {
  bl_stk : take (Z.to_nat (d me)) (stk me') = take (Z.to_nat (d me)) (stk me);
  bl_n : nframes me' = nframes me;
  bl_cb : cb me' = cb me
}.

Lemma below_refl me : below me me.
Proof. done. Qed.

Lemma below_put me f : below me (put me f).
Proof. split; [|done..]. simpl. by rewrite take_insert_ge. Qed.

Lemma below_trans me m1 me' : d m1 = d me -> below me m1 -> below m1 me' -> below me me'.
Proof. intros E [] []. rewrite E in *. split; congruence. Qed.

Definition next_of (me : bencode_t) : list call :=
  if d me =? 0 then []
  else
    match type <$> stk me !! Z.to_nat (d me - 1) with
    | Some BENCODE_TOK_LIST => when (list_next (cb me)) ListNext
    | Some BENCODE_TOK_DICT => when (dict_next (cb me)) DictNext
    | _ => []
    end.

Lemma below_lookup me me' i : below me me' -> (i < Z.to_nat (d me))%nat -> stk me' !! i = stk me !! i.
Proof. intros [Hs _ _] Hi. rewrite <- (lookup_take_lt (stk me) (Z.to_nat (d me))), <- Hs by lia. by rewrite lookup_take_lt. Qed.

Lemma next_of_below me m1 : wf me -> d m1 = d me -> below me m1 -> next_of m1 = next_of me.
Proof.
  intros [] E Hb. unfold next_of. rewrite E. destruct (Z.eqb_spec (d me) 0); [done|].
  rewrite (below_lookup me m1) by (done || lia). by rewrite (bl_cb _ _ Hb).
Qed.

Definition leave_of (c : bencode_callbacks_t) (f : bencode_frame_t) : list call :=
  match type f with
  | BENCODE_TOK_LIST => when (list_leave c) (ListLeave (key f))
  | BENCODE_TOK_DICT => when (dict_leave c) (DictLeave (key f))
  | _ => []
  end.

(** Where a value leaves the reader. *)
Record popped (me me' : bencode_t) : Prop := {
  pp_wf : wf me';
  pp_below : below me me';
  pp_d : d me' = Z.max 0 (d me - 1)
}.

Lemma popped_trans me m1 me' : d m1 = d me -> below me m1 -> popped m1 me' -> popped me me'.
Proof. intros E Hb [H1 H2 H3]. split; [done|by eapply below_trans|by rewrite H3, E]. Qed.

Lemma popped_put me f me' : popped (put me f) me' -> popped me me'.
Proof. apply popped_trans; [done|apply below_put]. Qed.

Lemma pop_ok me f : wf me -> sits me f -> exists me', pop_stack me = Ok (me', leave_of (cb me) f ++ next_of me) /\ popped me me'.
Proof.
  intros Hwf Hf. unfold pop_stack. rewrite (cur_sits me f) by done. cbn [mbind res_bind]. fold (leave_of (cb me) f). unfold next_of.
  pose proof Hwf as [H1 H2 H3 H4 H5]. destruct (Z.eqb_spec (d me) 0) as [E|E].
  { exists me. rewrite app_nil_r. split; [done|]. split; [done|done|lia]. }
  assert (wf (set_d me (d me - 1))) as Hw by (split; simpl; try done; lia).
  destruct (lookup_lt_is_Some_2 (stk me) (Z.to_nat (d me - 1))) as [g Hg]; [lia|].
  rewrite (cur_sits _ g) by done. cbn [mbind res_bind]. exists (set_d me (d me - 1)). split; [|split; [done|done|simpl; lia]].
  rewrite Hg. simpl. by destruct (type g).
Qed.

Definition fresh (f : bencode_frame_t) : Prop := intval f = 0 /\ len f = 0 /\ (type f = BENCODE_TOK_NONE \/ type f = BENCODE_TOK_DICT_VAL).

Lemma length_malloc n : 0 <= n -> Z.of_nat (List.length (malloc n)) = n.
Proof. intros Hn. unfold malloc. rewrite length_replicate. lia. Qed.

Lemma reset_frame_ok s : frame_ok s -> frame_ok (reset_frame s).
Proof. intros [H1 H2]. unfold reset_frame. destruct (0 =? sv_size s), (0 =? k_size s); split; simpl; done. Qed.

Lemma push_ok me :
  wf me -> d me + 1 < nframes me ->
  exists m f, push_stack me = Ok m /\ wf m /\ sits m f /\ frame_ok f /\ intval f = 0 /\ len f = 0 /\ pos f = 0 /\ type f = BENCODE_TOK_NONE /\
    d m = d me + 1 /\ below (set_d me (d me + 1)) m.
Proof.
  intros Hwf Hd. pose proof Hwf as [H1 H2 H3 H4 H5]. unfold push_stack. rewrite (proj2 (Z.leb_gt _ _)) by lia.
  rewrite wrap_u32_id by lia. assert (wf (set_d me (d me + 1))) as Hw by (split; simpl; try done; lia).
  destruct (lookup_lt_is_Some_2 (stk me) (Z.to_nat (d me + 1))) as [s Hs]; [lia|]. rewrite (cur_sits _ s) by done. cbn [mbind res_bind].
  assert (frame_ok (reset_frame s)) by by eapply reset_frame_ok, sits_ok.
  eexists _, (reset_frame s). split; [done|]. split; [by apply wf_put|]. split; [by apply sits_put|]. split; [done|].
  unfold reset_frame. destruct (0 =? sv_size s), (0 =? k_size s); split_and!; try done; apply below_put.
Qed.

(** ** A string *)

(** The characters of a string fill the block; with the last one the string is told and
    the frame is left. *)
Lemma str_run s me f pre :
  wf me -> sits me f -> type f = BENCODE_TOK_STR -> s <> [] -> len f = Z.of_nat (List.length (pre ++ s)) -> str_fits (pre ++ s) ->
  pos f = Z.of_nat (List.length pre) -> pos f < sv_size f \/ pos f = 0 -> take (List.length pre) (default [] (strval f)) = Some <$> pre ->
  exists me', run me s = Ok (me', HitStr (key f) (len f) (Some (Some <$> (pre ++ s))) (len f) :: next_of me) /\ popped me me'.
Proof.
  unfold str_fits. revert me f pre. induction s as [|c s IH]; intros me f pre Hwf Hf Ht Hs Hlen Hfit Hpos Hroom Htake; [done|].
  pose proof (sits_ok me f Hwf Hf) as [Hk Hsv]. pose proof Hwf as [_ _ Hd _ [_ Hhs]].
  rewrite length_app in Hlen, Hfit. simpl List.length in Hlen, Hfit. rewrite Hsv in Hroom.
  destruct (put_char_ok (strval f) (pos f) c) as (b & Eb & Hlb & Htb); [lia|done|].
  rewrite Hpos, Nat2Z.id, Htake in Htb. rewrite <- Hsv in Eb.
  assert (take (S (List.length pre)) b = Some <$> (pre ++ [c])) as Htb' by by rewrite fmap_app.
  set (g := fun b => mk_frame (key f) (k_size f) (Some b) (Z.of_nat (List.length b)) (intval f) (len f) (pos f + 1) (type f)).
  assert (forall b, frame_ok (g b)) as Hg by done.
  destruct s as [|c' s].
  - set (b' := <[Z.to_nat (pos f + 1) := Some 0]> b).
    destruct (pop_ok (put me (g b')) (g b')) as (me' & Ep & Hp); [by apply wf_put|by apply sits_put|].
    exists me'. split.
    + apply run_one; [lia|]. unfold process_tok. rewrite (cur_sits me f) by done. cbn [mbind res_bind]. rewrite Ht, Eb. cbn [mbind res_bind].
      rewrite (proj2 (Z.eqb_eq _ _)) by (simpl in *; lia). rewrite store_ok by lia. cbn [mbind res_bind]. fold b'.
      change (put me _) with (put me (mk_frame (key f) (k_size f) (Some b') (Z.of_nat (List.length b)) (intval f) (len f) (pos f + 1) BENCODE_TOK_STR)).
      replace (mk_frame _ _ _ _ _ _ _ _) with (g b') by (unfold g, b'; rewrite length_insert, Ht; done).
      simpl cb. rewrite Hhs, Ep. cbn [mbind res_bind]. unfold leave_of. simpl type. rewrite Ht. rewrite (next_of_below me) by (done || apply below_put).
      rewrite wrap_u32_id by (simpl in *; lia). unfold b'. rewrite take_insert_ge by (simpl in *; lia).
      replace (Z.to_nat (len f)) with (S (List.length pre)) by (simpl in *; lia). by rewrite Htb'.
    + by eapply popped_put.
  - assert (wf (put me (g b))) as Hw by by apply wf_put.
    destruct (IH (put me (g b)) (g b) (pre ++ [c])) as (me' & Er & Hp); try done.
    + by apply sits_put.
    + rewrite <- app_assoc, length_app. simpl in *. lia.
    + rewrite <- app_assoc, length_app. simpl in *. lia.
    + rewrite length_app. simpl in *. lia.
    + left. simpl in *. lia.
    + rewrite length_app. simpl. by rewrite Nat.add_1_r.
    + exists me'. rewrite <- app_assoc in Er. rewrite (next_of_below me) in Er by (done || apply below_put). split.
      * eapply (run_cons _ _ _ _ []); [lia| |exact Er]. unfold process_tok. rewrite (cur_sits me f) by done. cbn [mbind res_bind].
        rewrite Ht, Eb. cbn [mbind res_bind]. rewrite (proj2 (Z.eqb_neq _ _)) by (simpl in *; lia). unfold g. by rewrite Ht.
      * by eapply popped_put.
Qed.

Lemma frame_ok_set f g :
  frame_ok f -> key g = key f -> k_size g = k_size f -> strval g = strval f -> sv_size g = sv_size f -> frame_ok g.
Proof. intros [H1 H2] E1 E2 E3 E4. split; by rewrite ?E1, ?E2, ?E3, ?E4. Qed.

Lemma digits_head fuel n : 0 <= n -> exists c ds, digits (S fuel) n = c :: ds /\ isdigit c = true.
Proof.
  revert n. induction fuel as [|fuel IH]; intros n Hn.
  - simpl. pose proof (Z.mod_pos_bound n 10 eq_refl). destruct (Z.ltb_spec n 10); eexists _, []; (split; [done|]); apply isdigit_of; lia.
  - remember (S fuel) as fu. simpl. subst fu. destruct (Z.ltb_spec n 10); [eexists _, []; split; [done|]; apply isdigit_of; lia|].
    destruct (IH (n / 10)) as (c & ds & -> & Hc); [apply Z.div_pos; lia|]. by eexists c, _.
Qed.

Lemma isdigit_neq c : isdigit c = true -> c <> 58 /\ c <> 101 /\ c <> 105 /\ c <> 100 /\ c <> 108.
Proof. intros [H1%Z.leb_le H2%Z.leb_le]%andb_true_iff. lia. Qed.

Lemma run_same me m c bs : d m = d me -> nframes m = nframes me -> process_tok me c = process_tok m c -> run me (c :: bs) = run m (c :: bs).
Proof. intros E1 E2 E3. simpl. by rewrite E1, E2, E3. Qed.

(** The first digit of a string starts it. *)
Lemma start_str_run me f c bs :
  wf me -> sits me f -> fresh f -> isdigit c = true -> run me (c :: bs) = run (put me (start_str f)) (c :: bs).
Proof.
  intros Hwf Hf (Hi & Hl & Ht) Hc. pose proof (isdigit_neq c Hc) as Hn. pose proof (sits_ok me f Hwf Hf).
  apply run_same; [done|done|]. unfold process_tok. rewrite (cur_sits me f) by done. rewrite (cur_sits (put me _) (start_str f)) by (by apply sits_put || (apply wf_put; [done|by eapply frame_ok_set])).
  cbn [mbind res_bind]. rewrite (proj2 (Z.eqb_neq c 58)) by lia. change (type (start_str f)) with BENCODE_TOK_STR_LEN. cbn iota.
  destruct Ht as [-> | ->]; rewrite (proj2 (Z.eqb_neq c 105)), (proj2 (Z.eqb_neq c 100)), (proj2 (Z.eqb_neq c 108)), Hc by lia;
    unfold first_digit; rewrite (cur_sits me f) by done; cbn [mbind res_bind]; by destruct (parse_digit _ c); cbn [mbind res_bind]; rewrite ?put_put.
Qed.

(** The digits of the length of a string or of a key. *)
Lemma strlen_run me f n :
  wf me -> frame_ok f -> len f = 0 -> type f = BENCODE_TOK_STR_LEN \/ type f = BENCODE_TOK_DICT_KEYLEN -> 0 <= n <= int_max ->
  run (put me f) (decimal n) = Ok (put me (set_len f n), []).
Proof.
  intros Hwf Hf Hl Ht Hn. pose proof Hwf as [_ _ Hd _ _]. replace f with (set_len f 0) at 1 by (destruct f; unfold set_len; simpl in *; subst; done).
  apply (decimal_run me (set_len f)); [lia| |done]. intros a c Hc Ha Hm. pose proof (isdigit_neq c Hc) as Hn'.
  assert (cur (put me (set_len f a)) = Ok (set_len f a)) as Ec by (apply cur_sits; [apply wf_put; [done|by eapply frame_ok_set]|by apply sits_put]).
  unfold process_tok. rewrite Ec. cbn [mbind res_bind]. change (type (set_len f a)) with (type f).
  destruct Ht as [-> | ->]; unfold keylen; rewrite ?Ec; cbn [mbind res_bind]; rewrite (proj2 (Z.eqb_neq c 58)), Hc by lia; simpl len;
    rewrite parse_digit_ok by done; cbn [mbind res_bind]; by rewrite put_put.
Qed.

Lemma str_fits_int s : str_fits s -> 0 <= Z.of_nat (List.length s) <= int_max.
Proof. unfold str_fits, int_max. lia. Qed.

Lemma decimal_head n : 0 <= n -> exists c ds, decimal n = c :: ds /\ isdigit c = true.
Proof. apply digits_head. Qed.

Lemma str_value me f s :
  wf me -> sits me f -> fresh f -> str_fits s ->
  exists me', run me (encode_str s) = Ok (me', HitStr (key f) (Z.of_nat (List.length s)) (if 0 =? Z.of_nat (List.length s) then None else Some (Some <$> s)) (Z.of_nat (List.length s)) :: next_of me) /\ popped me me'.
Proof.
  intros Hwf Hf Hfr Hs. pose proof (str_fits_int s Hs) as Hi. unfold encode_str. set (n := Z.of_nat (List.length s)) in *.
  pose proof (sits_ok me f Hwf Hf) as Hok. assert (frame_ok (start_str f)) as Hok' by by eapply frame_ok_set.
  destruct (decimal_head n) as (c & ds & Ed & Hc); [lia|]. rewrite Ed. rewrite <- app_comm_cons, (start_str_run me f), app_comm_cons, <- Ed by done.
  set (g := set_len (start_str f) n). assert (frame_ok g) as Hg by by eapply frame_ok_set. assert (wf (put me g)) as Hwg by by apply wf_put.
  assert (run (put me (start_str f)) (decimal n) = Ok (put me g, [])) as Hdec by (apply strlen_run; [done|done|apply Hfr|by left|done]).
  assert (cur (put me g) = Ok g) as Ec by (apply cur_sits; [done|by apply sits_put]). pose proof Hwf as [_ _ Hd _ [_ Hhs]].
  destruct (Z.eqb_spec 0 n) as [E0|E0].
  - destruct (pop_ok (put me g) g) as (me' & Ep & Hp); [done|by apply sits_put|]. exists me'. split; [|by eapply popped_put].
    assert (s = []) as -> by (destruct s; [done|simpl in n; lia]). eapply (run_app _ _ _ _ []); [exact Hdec|]. apply run_one; [done || apply Hd|].
    unfold process_tok. rewrite Ec. cbn [mbind res_bind]. simpl type. cbn iota. rewrite Z.eqb_refl. simpl len. rewrite (proj2 (Z.eqb_eq 0 n)) by done.
    simpl cb. rewrite Hhs, Ep. cbn [mbind res_bind]. rewrite (next_of_below me) by (done || apply below_put). by rewrite <- E0.
  - set (h := set_pos (set_type g BENCODE_TOK_STR) 0). assert (wf (put me h)) as Hwh by (apply wf_put; [done|by eapply frame_ok_set]).
    destruct (str_run s (put me h) h []) as (me' & Er & Hp); try done; [by apply sits_put|by intros ->|by right|].
    exists me'. split; [|by eapply popped_put]. rewrite (next_of_below me) in Er by (done || apply below_put).
    eapply (run_app _ _ _ _ []); [exact Hdec|]. eapply (run_cons _ _ _ _ []); [apply Hd| |exact Er].
    unfold process_tok. rewrite Ec. cbn [mbind res_bind]. simpl type. cbn iota. rewrite Z.eqb_refl. simpl len. rewrite (proj2 (Z.eqb_neq 0 n)) by done.
    by rewrite put_put.
Qed.

(** ** A number *)

Lemma int_value me f n :
  wf me -> sits me f -> fresh f -> 0 <= n <= int_max ->
  exists me', run me ([105] ++ decimal n ++ [101]) = Ok (me', HitInt (key f) n :: next_of me) /\ popped me me'.
Proof.
  intros Hwf Hf (Hi & Hl & Ht) Hn. pose proof (sits_ok me f Hwf Hf) as Hok. pose proof Hwf as [_ _ Hd _ [Hhi _]].
  set (F := set_intval (start_int f)). assert (forall a, wf (put me (F a))) as Hw by (intros; apply wf_put; [done|by eapply frame_ok_set]).
  assert (forall a, cur (put me (F a)) = Ok (F a)) as Ec by (intros; apply cur_sits; [done|by apply sits_put]).
  destruct (pop_ok (put me (F n)) (F n)) as (me' & Ep & Hp); [done|by apply sits_put|]. exists me'. split; [|by eapply popped_put].
  eapply (run_cons _ _ _ (put me (F 0)) []); [lia| |].
  { unfold process_tok. rewrite (cur_sits me f) by done. cbn [mbind res_bind]. replace (F 0) with (start_int f) by (destruct f; simpl in *; subst; done).
    by destruct Ht as [-> | ->]. }
  eapply (run_app _ _ _ _ []).
  - apply (decimal_run me F); [lia| |done]. intros a c Hc Ha Hm. pose proof (isdigit_neq c Hc) as Hn'.
    unfold process_tok. rewrite Ec. cbn [mbind res_bind]. simpl type. cbn iota. rewrite (proj2 (Z.eqb_neq c 101)), Hc by lia. simpl intval.
    pose proof Hc as [H1%Z.leb_le H2%Z.leb_le]%andb_true_iff.
    rewrite wrap_int_id by (unfold in_int, int_min, int_max in *; lia). rewrite parse_digit_ok by done. cbn [mbind res_bind]. by rewrite put_put.
  - apply run_one; [simpl; lia|]. unfold process_tok. rewrite Ec. cbn [mbind res_bind]. simpl type. cbn iota. rewrite Z.eqb_refl. simpl cb. rewrite Hhi, Ep.
    cbn [mbind res_bind]. by rewrite (next_of_below me) by (done || apply below_put).
Qed.

(** ** A key *)

(** The characters of a key fill the block of the frame, which is then ready for the
    value. *)
Lemma key_run s me f pre :
  wf me -> sits me f -> type f = BENCODE_TOK_DICT_KEY -> s <> [] -> intval f = 0 -> len f = Z.of_nat (List.length (pre ++ s)) -> str_fits (pre ++ s) ->
  pos f = Z.of_nat (List.length pre) -> pos f < k_size f \/ pos f = 0 -> take (List.length pre) (default [] (key f)) = Some <$> pre ->
  exists g, run me s = Ok (put me g, []) /\ frame_ok g /\ fresh g /\ key_is (key g) (Some (pre ++ s)).
Proof.
  unfold str_fits. revert me f pre. induction s as [|c s IH]; intros me f pre Hwf Hf Ht Hs Hiv Hlen Hfit Hpos Hroom Htake; [done|].
  pose proof (sits_ok me f Hwf Hf) as [Hk Hsv]. pose proof Hwf as [_ _ Hd _ _].
  rewrite length_app in Hlen, Hfit. simpl List.length in Hlen, Hfit. rewrite Hk in Hroom.
  destruct (put_char_ok (key f) (pos f) c) as (b & Eb & Hlb & Htb); [lia|done|].
  rewrite Hpos, Nat2Z.id, Htake in Htb. rewrite <- Hk in Eb.
  assert (take (S (List.length pre)) b = Some <$> (pre ++ [c])) as Htb' by by rewrite fmap_app.
  assert (process_tok me c = '(b, n, p) ← Ok (b, Z.of_nat (List.length b), pos f + 1);
    let g b := mk_frame (Some b) n (strval f) (sv_size f) (intval f) in
    if p =? len f then b ← store b p (Some 0); Ok (put me (g b 0 0 BENCODE_TOK_DICT_VAL), [], true)
    else Ok (put me (g b (len f) p (type f)), [], true)) as Estep.
  { unfold process_tok. rewrite (cur_sits me f) by done. cbn [mbind res_bind]. by rewrite Ht, Eb. }
  cbn [mbind res_bind] in Estep. destruct s as [|c' s].
  - rewrite (proj2 (Z.eqb_eq _ _)) in Estep by (simpl in *; lia). rewrite store_ok in Estep by lia. cbn [mbind res_bind] in Estep.
    eexists. split; [apply run_one; [lia|exact Estep]|]. split; [split; simpl; [by rewrite length_insert|done]|]. split; [split; [done|split; [done|by right]]|].
    eexists. split; [done|]. rewrite length_app. simpl. rewrite Nat.add_1_r.
    erewrite take_S_r by (replace (S (List.length pre)) with (Z.to_nat (pos f + 1)) by lia; apply list_lookup_insert_eq; lia).
    rewrite take_insert_ge by lia. by rewrite Htb', !fmap_app.
  - rewrite (proj2 (Z.eqb_neq _ _)) in Estep by (simpl in *; lia).
    set (g := mk_frame (Some b) _ _ _ _ _ _ _) in Estep. assert (frame_ok g) as Hg by done. assert (wf (put me g)) as Hw by by apply wf_put.
    destruct (IH (put me g) g (pre ++ [c])) as (h & Er & Hh); try done.
    + by apply sits_put.
    + rewrite <- app_assoc, length_app. simpl in *. lia.
    + rewrite <- app_assoc, length_app. simpl in *. lia.
    + rewrite length_app. simpl in *. lia.
    + left. simpl in *. lia.
    + rewrite length_app. simpl. by rewrite Nat.add_1_r.
    + exists h. rewrite <- app_assoc in Hh. split; [|done]. rewrite put_put in Er. by eapply (run_cons _ _ _ _ []); [lia|exact Estep|].
Qed.

Lemma key_value me f k :
  wf me -> sits me f -> type f = BENCODE_TOK_DICT_KEYLEN -> intval f = 0 -> len f = 0 -> k <> [] -> str_fits k ->
  exists g, run me (encode_str k) = Ok (put me g, []) /\ frame_ok g /\ fresh g /\ key_is (key g) (Some k).
Proof.
  intros Hwf Hf Ht Hi Hl Hk Hs. pose proof (str_fits_int k Hs) as Hn. unfold encode_str. set (n := Z.of_nat (List.length k)) in *.
  pose proof (sits_ok me f Hwf Hf) as Hok. set (g := set_len f n). assert (frame_ok g) as Hg by by eapply frame_ok_set.
  assert (wf (put me g)) as Hwg by by apply wf_put.
  assert (run me (decimal n) = Ok (put me g, [])) as Hdec by (rewrite <- (put_sits me f) at 1 by done; apply strlen_run; [done|done|done|by right|done]).
  assert (cur (put me g) = Ok g) as Ec by (apply cur_sits; [done|by apply sits_put]). pose proof Hwf as [_ _ Hd _ _].
  set (h := set_pos (set_type g BENCODE_TOK_DICT_KEY) 0). assert (wf (put me h)) as Hwh by (apply wf_put; [done|by eapply frame_ok_set]).
  destruct (key_run k (put me h) h []) as (g' & Er & Hg'); try done; [by apply sits_put|by right|].
  exists g'. split; [|done]. rewrite put_put in Er. eapply (run_app _ _ _ _ []); [exact Hdec|]. eapply (run_cons _ _ _ _ []); [apply Hd| |exact Er].
  unfold process_tok. rewrite Ec. cbn [mbind res_bind]. change (type g) with (type f). rewrite Ht. unfold keylen. rewrite Ec. cbn [mbind res_bind].
  rewrite Z.eqb_refl. by rewrite put_put.
Qed.

(** ** Lists and dictionaries *)

(** What the text of a value makes of a reader that is ready for it. *)
Definition reads (v : bvalue) : Prop := forall me f k,
  wf me -> sits me f -> fresh f -> key_is (key f) k -> readable v -> d me + height v < nframes me ->
  exists me' evs, run me (encode v) = Ok (me', evs ++ next_of me) /\ popped me me' /\ Forall2 tells evs (events (cb me) k v).

Definition start_char (c : Z) : bool := (c =? 105) || (c =? 100) || (c =? 108) || isdigit c.

Lemma encode_head v : readable v -> exists c bs, encode v = c :: bs /\ start_char c = true /\ c <> 101.
Proof.
  intros Hv. destruct v as [n|s|vs|kvs]; simpl in *.
  - by eexists _, _.
  - unfold encode_str. destruct (decimal_head (Z.of_nat (List.length s))) as (c & ds & -> & Hc); [lia|]. eexists _, _. split; [done|].
    pose proof (isdigit_neq c Hc). unfold start_char. rewrite Hc, orb_true_r. lia.
  - by eexists _, _.
  - by eexists _, _.
Qed.

Section push.
Context (me m : bencode_t) (f f' : bencode_frame_t).
Context (Hwf : wf me) (Hf : sits me f) (Hpush : push_stack me = Ok m) (Hwf' : wf m) (Hf' : sits m f').
Context (Ht' : type f' = BENCODE_TOK_NONE).

Lemma list_push_tok c : type f = BENCODE_TOK_LIST -> start_char c = true -> c <> 101 -> process_tok me c = process_tok m c.
Proof.
  intros Ht Hc H101. unfold process_tok. rewrite (cur_sits me f), (cur_sits m f') by done. cbn [mbind res_bind]. rewrite Ht, Ht', Hpush. cbn [mbind res_bind].
  rewrite (proj2 (Z.eqb_neq c 101)) by done. rewrite (cur_sits m f') by done. cbn [mbind res_bind].
  unfold start_char in Hc. destruct (c =? 105), (c =? 100), (c =? 108), (isdigit c); done.
Qed.

Lemma dict_push_tok c : type f = BENCODE_TOK_DICT -> c <> 101 -> process_tok me c = process_tok (put m (set_pos (set_type f' BENCODE_TOK_DICT_KEYLEN) 0)) c.
Proof.
  intros Ht H101. unfold process_tok. rewrite (cur_sits me f) by done. cbn [mbind res_bind]. rewrite Ht, Hpush. cbn [mbind res_bind].
  rewrite (proj2 (Z.eqb_neq c 101)) by done. rewrite (cur_sits m f') by done. cbn [mbind res_bind].
  rewrite (cur_sits (put m _) (set_pos (set_type f' BENCODE_TOK_DICT_KEYLEN) 0)) by (by apply sits_put || (apply wf_put; [done|eapply frame_ok_set; [by eapply sits_ok|done..]])).
  done.
Qed.
End push.

(** The reader is back at the frame [f] of a list or of a dictionary. *)
Record back (me : bencode_t) (f : bencode_frame_t) (me' : bencode_t) : Prop := {
  bk_wf : wf me';
  bk_sits : sits me' f;
  bk_d : d me' = d me;
  bk_below : below me me'
}.

Lemma back_refl me f : wf me -> sits me f -> back me f me.
Proof. done. Qed.

Lemma back_trans me f m1 m2 : back me f m1 -> back m1 f m2 -> back me f m2.
Proof. intros [H1 H2 H3 H4] [G1 G2 G3 G4]. split; [done|done|congruence|by eapply below_trans]. Qed.

(** After the value of a pushed frame the reader is back at the frame below. *)
Lemma pushed_back me f m m1 me' :
  wf me -> sits me f -> d m = d me + 1 -> below (set_d me (d me + 1)) m -> d m1 = d m -> below m m1 -> popped m1 me' -> back me f me'.
Proof.
  intros Hwf Hf Hd Hb Hd1 Hb1 Hp. assert (below (set_d me (d me + 1)) me') as Hb'.
  { eapply (below_trans _ m); [done|done|]. eapply below_trans; [|done|apply Hp]. done. }
  destruct Hp as [Hw _ Hd']. pose proof Hwf as [_ _ H0 _ _]. assert (d me' = d me) as Ed by lia. split; [done| |done|].
  - unfold sits. rewrite Ed. rewrite (below_lookup _ _ _ Hb'); [done|]. simpl. lia.
  - destruct Hb' as [Hs Hn Hc]. split; [|done|done]. simpl in Hs. apply (f_equal (take (Z.to_nat (d me)))) in Hs.
    by rewrite !take_take, !Nat.min_l in Hs by lia.
Qed.

Lemma next_of_pushed me f m m1 :
  wf me -> sits me f -> d m = d me + 1 -> below (set_d me (d me + 1)) m -> d m1 = d m -> below m m1 ->
  next_of m1 = match type f with
               | BENCODE_TOK_LIST => when (list_next (cb me)) ListNext
               | BENCODE_TOK_DICT => when (dict_next (cb me)) DictNext
               | _ => []
               end.
Proof.
  intros Hwf Hf Hd Hb Hd1 Hb1. assert (below (set_d me (d me + 1)) m1) as Hb' by by eapply (below_trans _ m).
  pose proof Hwf as [_ _ H0 _ _]. unfold next_of. rewrite (proj2 (Z.eqb_neq _ _)) by lia.
  replace (d m1 - 1) with (d me) by lia. rewrite (below_lookup _ _ _ Hb') by (simpl; lia). simpl. rewrite Hf. simpl.
  rewrite (bl_cb _ _ Hb'). by destruct (type f).
Qed.

Lemma tells_when b e e' : tells e e' -> Forall2 tells (when b e) (when b e').
Proof. destruct b; simpl; auto. Qed.

Lemma height_nonneg v : 0 <= height v.
Proof. destruct v as [| |vs|kvs]; simpl; [lia..| |]; [induction vs|induction kvs]; simpl; lia. Qed.

Lemma list_items vs me f :
  Forall reads vs -> wf me -> sits me f -> type f = BENCODE_TOK_LIST -> foldr (fun v P => readable v /\ P) True vs ->
  d me + foldr (fun v h => Z.max (1 + height v) h) 0 vs < nframes me ->
  exists me' evs, run me (concat (map encode vs)) = Ok (me', evs) /\ back me f me' /\
    Forall2 tells evs (concat (map (fun v => events (cb me) None v ++ when (list_next (cb me)) ListNext) vs)).
Proof.
  intros Hvs. revert me. induction Hvs as [|v vs Hv Hvs IH]; intros me Hwf Hf Ht Hr Hh; simpl in Hr, Hh |- *.
  { exists me, []. split_and!; [done|by apply back_refl|done]. }
  destruct Hr as [Hr Hrs]. pose proof Hwf as [_ _ Hd _ _]. pose proof (height_nonneg v).
  destruct (push_ok me Hwf) as (m & g & Ep & Hwm & Hg & Hgok & Hgi & Hgl & Hgp & Hgt & Hdm & Hbm); [lia|].
  destruct (Hv m g None) as (me1 & e1 & E1 & Hp1 & Ht1); [done|done|split_and!; by try left|done|done|rewrite (bl_n _ _ Hbm); simpl; lia|].
  assert (run me (encode v) = Ok (me1, e1 ++ next_of m)) as E1'.
  { rewrite <- E1. destruct (encode_head v Hr) as (c & bs & -> & Hc & Hc'). pose proof Hwm as [_ _ Hdm' _ _]. simpl.
    rewrite (proj2 (Z.leb_gt _ _)), (proj2 (Z.leb_gt _ _)) by lia. by rewrite (list_push_tok me m f g). }
  assert (back me f me1) as Hb1 by (eapply (pushed_back _ _ m m); done).
  rewrite (next_of_pushed me f m m), Ht in E1' by done. rewrite (bl_cb _ _ Hbm) in Ht1. simpl in Ht1.
  destruct (IH me1) as (me2 & e2 & E2 & Hb2 & Ht2); [apply Hb1|apply Hb1|done|done|rewrite (bk_d _ _ _ Hb1), (bl_n _ _ (bk_below _ _ _ Hb1)); lia|].
  rewrite (bl_cb _ _ (bk_below _ _ _ Hb1)) in Ht2. eexists me2, _. split; [by eapply run_app|]. split; [by eapply back_trans|].
  apply Forall2_app; [|done]. apply Forall2_app; [done|]. apply tells_when. constructor.
Qed.

(** The first key and its value, in the frame that was pushed for them. *)
Lemma dict_entry k v me f m g :
  reads v -> wf me -> sits me f -> type f = BENCODE_TOK_DICT -> k <> [] -> str_fits k -> readable v -> d me + (1 + height v) < nframes me ->
  wf m -> sits m g -> type g = BENCODE_TOK_DICT_KEYLEN -> intval g = 0 -> len g = 0 -> d m = d me + 1 -> below (set_d me (d me + 1)) m ->
  exists me' evs, run m (encode_str k ++ encode v) = Ok (me', evs ++ when (dict_next (cb me)) DictNext) /\ back me f me' /\
    Forall2 tells evs (events (cb me) (Some k) v).
Proof.
  intros Hv Hwf Hf Ht Hk Hks Hr Hh Hwm Hg Hgt Hgi Hgl Hdm Hbm. pose proof (bl_n _ _ Hbm) as En. pose proof (bl_cb _ _ Hbm) as Ec. simpl in En, Ec.
  destruct (key_value m g k) as (h & Eh & Hhok & Hhf & Hhk); try done.
  destruct (Hv (put m h) h (Some k)) as (me1 & e1 & E1 & Hp1 & Ht1); [by apply wf_put|by apply sits_put|done|done|done|simpl; lia|].
  exists me1, e1. split; [|split].
  - rewrite (next_of_pushed me f m), Ht in E1 by (done || apply below_put). by eapply (run_app _ _ _ _ []).
  - eapply (pushed_back _ _ m (put m h)); try done. apply below_put.
  - simpl in Ht1. by rewrite Ec in Ht1.
Qed.

Lemma dict_items kvs me f :
  Forall (fun kv => reads kv.2) kvs -> wf me -> sits me f -> type f = BENCODE_TOK_DICT ->
  foldr (fun kv P => (kv.1 <> [] /\ str_fits kv.1 /\ readable kv.2) /\ P) True kvs ->
  d me + foldr (fun kv h => Z.max (1 + height kv.2) h) 1 kvs < nframes me ->
  exists me' evs, run me (concat (map (fun kv => encode_str kv.1 ++ encode kv.2) kvs)) = Ok (me', evs) /\ back me f me' /\
    Forall2 tells evs (concat (map (fun kv => events (cb me) (Some kv.1) kv.2 ++ when (dict_next (cb me)) DictNext) kvs)).
Proof.
  intros Hvs. revert me. induction Hvs as [|kv kvs Hv Hvs IH]; intros me Hwf Hf Ht Hr Hh; [|destruct kv as [k v]; simpl in Hv]; simpl in Hr, Hh |- *.
  { exists me, []. split_and!; [done|by apply back_refl|done]. }
  destruct Hr as [(Hk & Hks & Hr) Hrs]. pose proof Hwf as [_ _ Hd _ _]. pose proof (height_nonneg v).
  destruct (push_ok me Hwf) as (m & g & Ep & Hwm & Hg & Hgok & Hgi & Hgl & Hgp & Hgt & Hdm & Hbm); [lia|].
  set (g' := set_pos (set_type g BENCODE_TOK_DICT_KEYLEN) 0). assert (frame_ok g') as Hg' by by eapply frame_ok_set.
  assert (below (set_d me (d me + 1)) (put m g')) as Hbm' by (eapply (below_trans _ m); [done|done|apply below_put]).
  destruct (dict_entry k v me f (put m g') g') as (me1 & e1 & E1 & Hb1 & Ht1); try done; [lia|by apply wf_put|by apply sits_put|].
  assert (run me (encode_str k ++ encode v) = Ok (me1, e1 ++ when (dict_next (cb me)) DictNext)) as E1'.
  { rewrite <- E1. unfold encode_str. destruct (decimal_head (Z.of_nat (List.length k))) as (c & bs & -> & Hc); [lia|].
    pose proof (isdigit_neq c Hc). pose proof Hwm as [_ _ Hdm' _ _]. rewrite <- !app_comm_cons. simpl.
    rewrite (proj2 (Z.leb_gt _ _)), (proj2 (Z.leb_gt _ _)) by lia. rewrite (dict_push_tok me m f g) by (done || lia). done. }
  destruct (IH me1) as (me2 & e2 & E2 & Hb2 & Ht2); [apply Hb1|apply Hb1|done|done|rewrite (bk_d _ _ _ Hb1), (bl_n _ _ (bk_below _ _ _ Hb1)); lia|].
  rewrite (bl_cb _ _ (bk_below _ _ _ Hb1)) in Ht2. eexists me2, _. split; [by eapply run_app|]. split; [by eapply back_trans|].
  apply Forall2_app; [|done]. apply Forall2_app; [done|]. apply tells_when. constructor.
Qed.

(** The end of a list or of a dictionary. *)
Lemma close_run me f me1 :
  wf me -> back me f me1 -> type f = BENCODE_TOK_LIST \/ type f = BENCODE_TOK_DICT ->
  exists me', run me1 [101] = Ok (me', leave_of (cb me) f ++ next_of me) /\ popped me me'.
Proof.
  intros Hwf [Hw Hs Hd Hb] Ht. destruct (pop_ok me1 f) as (me' & Ep & Hp); [done|done|]. exists me'. split; [|by eapply popped_trans].
  apply run_one; [apply Hw|]. unfold process_tok. rewrite (cur_sits me1 f) by done. cbn [mbind res_bind].
  rewrite (bl_cb _ _ Hb), (next_of_below me) in Ep by done. destruct Ht as [-> | ->]; by rewrite Z.eqb_refl, Ep.
Qed.

Lemma list_reads vs : Forall reads vs -> reads (BList vs).
Proof.
  intros IH me f k Hwf Hf (Hi & Hl & Ht) Hk Hr Hh. pose proof (sits_ok me f Hwf Hf) as Hok. pose proof Hwf as [_ _ Hd _ _].
  set (g := set_pos (set_type f BENCODE_TOK_LIST) 0). assert (wf (put me g)) as Hw by (apply wf_put; [done|by eapply frame_ok_set]).
  destruct (list_items vs (put me g) g) as (me1 & e1 & E1 & Hb1 & Ht1); [done|done|by apply sits_put|done|done|done|].
  destruct (close_run (put me g) g me1) as (me' & Ec & Hp); [done|done|by left|].
  exists me', (when (list_enter (cb me)) (ListEnter (key f)) ++ e1 ++ leave_of (cb me) g). split; [|split; [by eapply popped_put|]].
  - simpl encode. rewrite (next_of_below me) in Ec by (done || apply below_put).
    rewrite <- !app_assoc. eapply run_cons; [lia| |eapply run_app; [exact E1|exact Ec]].
    unfold process_tok. rewrite (cur_sits me f) by done. cbn [mbind res_bind]. unfold start_list. rewrite (cur_sits me f) by done. by destruct Ht as [-> | ->].
  - simpl. apply Forall2_app; [apply tells_when; by constructor|]. apply Forall2_app; [done|]. apply tells_when. by constructor.
Qed.

Lemma dict_reads kvs : Forall (fun kv => reads kv.2) kvs -> reads (BDict kvs).
Proof.
  intros IH me f k Hwf Hf (Hi & Hl & Ht) Hk Hr Hh. pose proof (sits_ok me f Hwf Hf) as Hok. pose proof Hwf as [_ _ Hd _ _].
  destruct kvs as [|[k1 v1] kvs]; [by destruct Hr|]. apply Forall_cons in IH as [IH1 IH]. destruct Hr as [_ [(Hk1 & Hks1 & Hr1) Hr]]. simpl in IH1, Hk1, Hks1, Hr1, Hr, Hh.
  set (g := set_pos (set_type f BENCODE_TOK_DICT) 0). assert (wf (put me g)) as Hw by (apply wf_put; [done|by eapply frame_ok_set]).
  assert (sits (put me g) g) as Hg by by apply sits_put. pose proof (height_nonneg v1).
  destruct (push_ok (put me g) Hw) as (m & h & Ep & Hwm & Hh' & Hhok & Hhi & Hhl & _ & _ & Hdm & Hbm); [simpl; lia|].
  set (h' := set_type h BENCODE_TOK_DICT_KEYLEN). assert (frame_ok h') as Hok' by by eapply frame_ok_set.
  destruct (dict_entry k1 v1 (put me g) g (put m h') h') as (me1 & e1 & E1 & Hb1 & Ht1); try done;
    [simpl; lia|by apply wf_put|by apply sits_put|eapply (below_trans _ m); [done|done|apply below_put]|].
  destruct (dict_items kvs me1 g) as (me2 & e2 & E2 & Hb2 & Ht2); [done|apply Hb1|apply Hb1|done|done|rewrite (bk_d _ _ _ Hb1), (bl_n _ _ (bk_below _ _ _ Hb1)); simpl; lia|].
  destruct (close_run (put me g) g me2) as (me' & Ec & Hp); [done|by eapply back_trans|by right|].
  eexists me', (when (dict_enter (cb me)) (DictEnter (key f)) ++ (e1 ++ when (dict_next (cb me)) DictNext) ++ e2 ++ leave_of (cb me) g). split; [|split; [by eapply popped_put|]].
  - rewrite (next_of_below me) in Ec by (done || apply below_put). simpl encode. rewrite <- !app_assoc, (app_assoc (encode_str k1)), (app_assoc e1).
    eapply run_cons; [lia| |eapply run_app; [exact E1|eapply run_app; [exact E2|exact Ec]]].
    unfold process_tok. rewrite (cur_sits me f) by done. cbn [mbind res_bind]. unfold start_dict. rewrite (cur_sits me f) by done. cbn [mbind res_bind].
    fold g. rewrite Ep. cbn [mbind res_bind]. rewrite (cur_sits m h) by done. cbn [mbind res_bind]. by destruct Ht as [-> | ->].
  - rewrite (bl_cb _ _ (bk_below _ _ _ Hb1)) in Ht2. simpl in Ht1, Ht2 |- *. apply Forall2_app; [apply tells_when; by constructor|]. rewrite <- (app_assoc (_ ++ _)).
    apply Forall2_app; [apply Forall2_app; [done|apply tells_when; constructor]|]. apply Forall2_app; [done|]. apply tells_when. by constructor.
Qed.

Lemma all_read v : reads v.
Proof.
  induction v as [n|s|vs IH|kvs IH] using bvalue_ind'; [| |by apply list_reads|by apply dict_reads].
  - intros me f k Hwf Hf Hfr Hk Hr _. destruct (int_value me f n) as (me' & E & Hp); try done.
    exists me', [HitInt (key f) n]. split_and!; [done|done|]. repeat constructor. done.
  - intros me f k Hwf Hf Hfr Hk Hr _. destruct (str_value me f s) as (me' & E & Hp); try done.
    eexists me', [_]. split_and!; [exact E|done|]. repeat constructor. done.
Qed.

(** ** The reader *)

(** C12: The text of any readable value with room for its depth, however it is cut into
    buffers, is taken, and the callbacks are told exactly the parts of the value, in order:
    numbers and strings with their contents, where lists and dictionaries begin, continue
    and end, and within dictionaries under which key.  Readable are the values whose numbers
    are not negative and no larger than an [int], whose strings have less than 2^30 bytes,
    and which have no empty dictionary and no empty key: on the others the reader fails.
    The callbacks for numbers and strings are set. *)
Theorem bencode_roundtrip (v : bvalue) (depth : Z) (c : bencode_callbacks_t) (bufs : list (list Z)) :
  readable v -> height v < depth <= int_max - 10 -> hit_int c = true -> hit_str c = true -> concat bufs = encode v ->
  exists me me' evs, bencode_new depth c = Ok me /\ dispatch_all me bufs = Ok (me', evs, true) /\ Forall2 tells evs (events c None v).
Proof.
  intros Hr Hh Hc1 Hc2 Hb. pose proof (height_nonneg v). unfold bencode_new.
  rewrite chk_ok by (unfold in_int, int_min, int_max in *; lia). cbn [mbind res_bind]. rewrite wrap_u32_id by (unfold int_max in *; lia).
  set (me := mk_bencode _ _ _ _). assert (wf me) as Hwf.
  { split; simpl; try done; [rewrite length_replicate; lia|by apply Forall_replicate|lia|unfold int_max in *; lia]. }
  assert (sits me calloc_frame) as Hs by (apply lookup_replicate_2; simpl; lia).
  destruct (all_read v me calloc_frame None) as (me' & evs & E & Hp & Ht); try done; [split_and!; by try left|simpl; lia|].
  exists me, me', evs. split_and!; [done| |done]. apply run_chunks; [apply Hp|]. by rewrite Hb, E, app_nil_r.
Qed.

(** [d4:spaml1:ai42eee], in three pieces. *)
Lemma bencode_roundtrip_witness :
  exists me me' evs, bencode_new 4 (mk_cbs true true true true true true true true) = Ok me /\
    dispatch_all me [[100; 52; 58; 115; 112]; []; [97; 109; 108; 49; 58; 97; 105; 52; 50; 101; 101; 101]] = Ok (me', evs, true) /\
    Forall2 tells evs (events (mk_cbs true true true true true true true true) None (BDict [([115; 112; 97; 109], BList [BStr [97]; BInt 42])])).
Proof.
  apply bencode_roundtrip; [|vm_compute; split; [done|discriminate]|done|done|done].
  simpl. split_and!; try done; unfold str_fits, int_max; simpl; lia.
Defined.

(** An empty dictionary is never closed: the [e] of [de] only leaves the frame of its
    first key, so that the reader stays within the dictionary and does not tell its
    end. *)
Theorem empty_dict_stays_open (depth : Z) (c : bencode_callbacks_t) :
  1 < depth <= int_max - 10 ->
  exists me me', bencode_new depth c = Ok me /\ bencode_dispatch_from_buffer me (encode (BDict [])) =
      Ok (me', when (dict_enter c) (DictEnter None) ++ when (dict_next c) DictNext, true) /\
    d me' = 0 /\ type <$> stk me' !! 0%nat = Some BENCODE_TOK_DICT.
Proof.
  intros Hd. unfold bencode_new. rewrite chk_ok by (unfold in_int, int_min, int_max in *; lia). cbn [mbind res_bind].
  rewrite wrap_u32_id by (unfold int_max in *; lia). replace (Z.to_nat (10 + depth)) with (S (S (Z.to_nat (8 + depth)))) by lia. simpl replicate.
  generalize (replicate (Z.to_nat (8 + depth)) calloc_frame). intros fs. destruct depth as [|p|p]; [lia| |lia].
  eexists _, _. split; [done|]. split; [unfold bencode_dispatch_from_buffer; simpl; by rewrite app_nil_r|done].
Qed.

Lemma empty_dict_stays_open_witness :
  exists me me', bencode_new 16 (mk_cbs true true true true true true true true) = Ok me /\ bencode_dispatch_from_buffer me [100; 101] =
      Ok (me', [DictEnter None; DictNext], true) /\
    d me' = 0 /\ type <$> stk me' !! 0%nat = Some BENCODE_TOK_DICT.
Proof. apply (empty_dict_stays_open 16 (mk_cbs true true true true true true true true)). unfold int_max. lia. Defined.

(** A minus sign, and any other character within a number, ends the process. *)
Theorem negative_number_aborts (depth n : Z) (c : bencode_callbacks_t) :
  0 < depth <= int_max - 10 ->
  exists me, bencode_new depth c = Ok me /\ bencode_dispatch_from_buffer me ([105; 45] ++ decimal n ++ [101]) = Exit 134.
Proof.
  intros Hd. unfold bencode_new. rewrite chk_ok by (unfold in_int, int_min, int_max in *; lia). cbn [mbind res_bind]. rewrite wrap_u32_id by (unfold int_max in *; lia).
  eexists. split; [done|].
  replace (Z.to_nat (10 + depth)) with (S (Z.to_nat (9 + depth))) by lia. unfold bencode_dispatch_from_buffer. simpl.
  by rewrite (proj2 (Z.leb_gt _ _)) by lia.
Qed.
End Bencode.
