(* ===== verification/LLHashmap.v ===== *)
(** * The chained hash map (src/PUTs/04CHashMapViaLinkedList/linked_list_hashmap.c)

    A slot of the array is a node whose entry is in use when its key is not NULL;
    behind it hangs a chain of further nodes, which belong to this slot alone, so
    that a slot is its entry and the list of the chained entries.  [calloc] is
    taken to succeed.  The table doubles when its load reaches one half, and
    moves its entries by calling [hashmap_put] again: [fuel] bounds that
    recursion, and 2 is enough. *)

From S2P Require Import Prelude Double History.

Module LLHashmap.

Record hashmap_entry_t := mk_entry { key : Z; val : Z }.
Record node_t := mk_node { ety : hashmap_entry_t; next : list hashmap_entry_t }.

Record hashmap_t := mk_hashmap {
  count : Z;
  arraySize : Z;
  array : list node_t;
  hash : Z -> Z;
  compare : Z -> Z -> Z
}.

Definition null_entry : hashmap_entry_t := mk_entry 0 0.
Definition null_node : node_t := mk_node null_entry [].

Definition with_array (h : hashmap_t) (a : list node_t) (c : Z) : hashmap_t :=
  mk_hashmap c (arraySize h) a (hash h) (compare h).

Definition allocnodes (n : Z) : list node_t := replicate (Z.to_nat n) null_node.

Definition hashmap_new (hash : Z -> Z) (cmp : Z -> Z -> Z) (initial_capacity : Z) : hashmap_t :=
  let n := wrap_int initial_capacity in mk_hashmap 0 n (allocnodes n) hash cmp.

Definition hashmap_count (h : hashmap_t) : Z := count h.
Definition hashmap_size (h : hashmap_t) : Z := arraySize h.

(** The count after the nodes of a chain are freed. *)
Fixpoint node_empty (chain : list hashmap_entry_t) (c : Z) : res Z :=
  match chain with
  | [] => Ok c
  | _ :: chain => c ← node_empty chain c; chk (c - 1)
  end.

Fixpoint clear_loop (nodes : list node_t) (c : Z) : res (list node_t * Z) :=
  match nodes with
  | [] => Ok ([], c)
  | n :: nodes =>
      if key (ety n) =? 0 then
        '(nodes, c) ← clear_loop nodes c; Ok (n :: nodes, c)
      else
        c ← node_empty (next n) c;
        c ← chk (c - 1);
        if c <? 0 then Exit 134
        else
          '(nodes, c) ← clear_loop nodes c;
          Ok (mk_node (mk_entry 0 (val (ety n))) [] :: nodes, c)
  end.

Definition hashmap_clear (h : hashmap_t) : res hashmap_t :=
  '(a, c) ← clear_loop (array h) (count h);
  if c =? 0 then Ok (with_array h a c) else Exit 134.

Definition hashmap_free (h : hashmap_t) : res hashmap_t := hashmap_clear h.

(** The size is converted to [unsigned long]; division by zero is undefined. *)
Definition doProbe (h : hashmap_t) (k : Z) : res Z :=
  let n := wrap_size (arraySize h) in
  if n =? 0 then Undef else Ok (wrap_u32 (wrap_size (hash h k) mod n)).

(** The walk down a chain: the value of the first entry with this key. *)
Fixpoint get_walk (h : hashmap_t) (k : Z) (l : list hashmap_entry_t) : Z :=
  match l with
  | [] => 0
  | e :: l => if compare h k (key e) =? 0 then val e else get_walk h k l
  end.

Definition hashmap_get (h : hashmap_t) (k : Z) : res Z :=
  if (hashmap_count h =? 0) || (k =? 0) then Ok 0
  else
    probe ← doProbe h k;
    node ← load (array h) probe;
    if key (ety node) =? 0 then Ok 0
    else Ok (get_walk h k (ety node :: next node)).

Definition hashmap_contains_key (h : hashmap_t) (k : Z) : res Z :=
  v ← hashmap_get h k; Ok (if v =? 0 then 0 else 1).

(** The first entry of a chain with this key and the chain without it. *)
Fixpoint remove_walk (h : hashmap_t) (k : Z) (l : list hashmap_entry_t) :
    option (hashmap_entry_t * list hashmap_entry_t) :=
  match l with
  | [] => None
  | e :: l =>
      if compare h k (key e) =? 0 then Some (e, l)
      else match remove_walk h k l with None => None | Some (f, l) => Some (f, e :: l) end
  end.

(** The map and the content of [entry]. *)
Definition hashmap_remove_entry (h : hashmap_t) (k : Z) : res (hashmap_t * hashmap_entry_t) :=
  probe ← doProbe h k;
  n ← load (array h) probe;
  if key (ety n) =? 0 then Ok (h, null_entry)
  else if compare h k (key (ety n)) =? 0 then
    let n' := match next n with
              | e :: rest => mk_node e rest
              | [] => mk_node (mk_entry 0 (val (ety n))) []
              end in
    a ← store (array h) probe n';
    c ← chk (count h - 1);
    Ok (with_array h a c, ety n)
  else
    match remove_walk h k (next n) with
    | None => Ok (h, null_entry)
    | Some (e, rest) =>
        a ← store (array h) probe (mk_node (ety n) rest);
        c ← chk (count h - 1);
        Ok (with_array h a c, e)
    end.

Definition hashmap_remove (h : hashmap_t) (k : Z) : res (hashmap_t * Z) :=
  '(h, entry) ← hashmap_remove_entry h k; Ok (h, val entry).

(** [__nodeassign] of a node whose key is NULL: the count after it. *)
Definition nodeassign (c : Z) : res Z :=
  c ← chk (c + 1); if c <? 32768 then Ok c else Exit 134.

(** The walk of [hashmap_put]: the previous value and the chain with the new one. *)
Fixpoint put_walk (h : hashmap_t) (k v : Z) (l : list hashmap_entry_t) :
    option (Z * list hashmap_entry_t) :=
  match l with
  | [] => None
  | e :: l =>
      if compare h k (key e) =? 0 then Some (val e, mk_entry (key e) v :: l)
      else match put_walk h k v l with None => None | Some (p, l) => Some (p, e :: l) end
  end.

(** What [hashmap_put] does once there is room. *)
Definition put_node (h : hashmap_t) (k val_new : Z) : res (hashmap_t * Z) :=
  probe ← doProbe h k;
  node ← load (array h) probe;
  if key (ety node) =? 0 then
    c ← nodeassign (count h);
    a ← store (array h) probe (mk_node (mk_entry k val_new) (next node));
    Ok (with_array h a c, 0)
  else
    match put_walk h k val_new (ety node :: next node) with
    | Some (val_prev, e :: rest) =>
        a ← store (array h) probe (mk_node e rest);
        Ok (with_array h a (count h), val_prev)
    | _ =>
        c ← nodeassign (count h);
        a ← store (array h) probe (mk_node (ety node) (next node ++ [mk_entry k val_new]));
        Ok (with_array h a c, 0)
    end.

Section growth.
(** The [hashmap_put] the entries are moved with. *)
Context (put : hashmap_t -> Z -> Z -> res (hashmap_t * Z)).

Fixpoint move_chain (l : list hashmap_entry_t) (h : hashmap_t) : res hashmap_t :=
  match l with
  | [] => Ok h
  | e :: l =>
      '(h, _) ← put h (key e) (val e);
      if key e =? 0 then Exit 134 else move_chain l h
  end.

Fixpoint move_nodes (old : list node_t) (h : hashmap_t) : res hashmap_t :=
  match old with
  | [] => Ok h
  | node :: old =>
      if key (ety node) =? 0 then move_nodes old h
      else
        '(h, _) ← put h (key (ety node)) (val (ety node));
        h ← move_chain (next node) h;
        move_nodes old h
  end.

Definition increase_capacity (h : hashmap_t) (factor : Z) : res hashmap_t :=
  let n := wrap_int (wrap_u32 (arraySize h * factor)) in
  move_nodes (take (Z.to_nat (arraySize h)) (array h))
    (mk_hashmap 0 n (allocnodes n) (hash h) (compare h)).

Definition ensurecapacity (h : hashmap_t) : res hashmap_t :=
  if flt (fdiv (float_of_Z (count h)) (float_of_Z (arraySize h))) f_half then Ok h
  else increase_capacity h 2.
End growth.

Fixpoint hashmap_put (fuel : nat) (h : hashmap_t) (k val_new : Z) : res (hashmap_t * Z) :=
  match fuel with
  | O => OutOfFuel
  | S fuel =>
      if (k =? 0) || (val_new =? 0) then Ok (h, 0)
      else
        h ← ensurecapacity (hashmap_put fuel) h;
        put_node h k val_new
  end.

Definition hashmap_put_entry (fuel : nat) (h : hashmap_t) (entry : hashmap_entry_t) : res hashmap_t :=
  '(h, _) ← hashmap_put fuel h (key entry) (val entry); Ok h.

Definition hashmap_increase_capacity (fuel : nat) (h : hashmap_t) (factor : Z) : res hashmap_t :=
  increase_capacity (hashmap_put fuel) h factor.

(** ** The map a table represents *)

Definition bucket (n : node_t) : list hashmap_entry_t :=
  if key (ety n) =? 0 then [] else ety n :: next n.

Definition entries (a : list node_t) : list hashmap_entry_t := concat (bucket <$> a).

Section map.
Context (f : Z -> Z) (cmp : Z -> Z -> Z) (repr : Z -> Z) `{!KeyLaws f cmp repr}.

Definition slot (n : Z) (k : Z) : Z := wrap_size (f k) mod n.

Definition kv (e : hashmap_entry_t) : Z * Z := (repr (key e), val e).
Definition map_of (h : hashmap_t) : gmap Z Z := list_to_map (kv <$> entries (array h)).

Definition entry_ok (n : Z) (i : nat) (e : hashmap_entry_t) : Prop :=
  key e <> 0 /\ val e <> 0 /\ slot n (key e) = Z.of_nat i.

Record wf (h : hashmap_t) : Prop := {
  w_hash : hash h = f;
  w_compare : compare h = cmp;
  w_length : Z.of_nat (List.length (array h)) = arraySize h;
  w_size : 0 < arraySize h <= 2 ^ 17;
  w_null : forall n, n ∈ array h -> key (ety n) = 0 -> next n = [];
  w_nodes : forall i n e, array h !! i = Some n -> e ∈ bucket n -> entry_ok (arraySize h) i e;
  w_nodup : NoDup ((kv <$> entries (array h)).*1);
  w_count : count h = Z.of_nat (List.length (entries (array h)))
}.

Lemma map_size h : wf h -> Z.of_nat (base.size (map_of h)) = count h.
Proof.
  intros Hwf. unfold map_of. rewrite map_size_list_to_map by apply Hwf.
  by rewrite length_fmap, (w_count h Hwf).
Qed.

(** A slot and the rest of the entries. *)
Lemma entries_slot a i n :
  a !! i = Some n ->
  exists rest, entries a ≡ₚ bucket n ++ rest /\ forall n', entries (<[i := n']> a) ≡ₚ bucket n' ++ rest.
Proof.
  intros Hi. exists (concat (bucket <$> delete i a)). unfold entries. split.
  - destruct (insert_split a i n n Hi) as [_ P]. by rewrite P at 1.
  - intros n'. destruct (insert_split a i n n' Hi) as [P _]. by rewrite P.
Qed.

Lemma entries_in a e : e ∈ entries a <-> exists i n, a !! i = Some n /\ e ∈ bucket n.
Proof.
  unfold entries. rewrite list_elem_of_In, in_concat. split.
  - intros (l & Hl%list_elem_of_In & He%list_elem_of_In).
    apply list_elem_of_fmap in Hl as (n & -> & (i & Hi)%list_elem_of_lookup). eauto.
  - intros (i & n & Hi & He). exists (bucket n). split; apply list_elem_of_In; [|done].
    apply list_elem_of_fmap. exists n. split; [done|]. by eapply list_elem_of_lookup_2.
Qed.

Lemma doProbe_ok h k :
  hash h = f -> 0 < arraySize h <= 2 ^ 17 -> doProbe h k = Ok (slot (arraySize h) k) /\
  0 <= slot (arraySize h) k < arraySize h.
Proof.
  intros Hf Hs. unfold doProbe, slot. rewrite (wrap_size_id (arraySize h)) by lia.
  destruct (Z.eqb_spec (arraySize h) 0); [lia|]. rewrite Hf.
  pose proof (Z.mod_pos_bound (wrap_size (f k)) (arraySize h)). split; [|lia].
  f_equal. unfold wrap_u32. rewrite Z.mod_small; lia.
Qed.

(** The node the code looks at. *)
Lemma slot_node h k :
  wf h -> exists n, doProbe h k = Ok (slot (arraySize h) k) /\
    load (array h) (slot (arraySize h) k) = Ok n /\
    array h !! Z.to_nat (slot (arraySize h) k) = Some n /\
    0 <= slot (arraySize h) k < Z.of_nat (List.length (array h)).
Proof.
  intros Hwf. destruct (doProbe_ok h k (w_hash h Hwf) (w_size h Hwf)) as [E Hr].
  pose proof (w_length h Hwf).
  destruct (load_in_range (array h) (slot (arraySize h) k)) as (n & Hn & Hl); [lia|].
  exists n. split_and!; done || lia.
Qed.

(** An entry with this key is in the slot of the key. *)
Lemma entry_in_slot h k e n :
  wf h -> array h !! Z.to_nat (slot (arraySize h) k) = Some n ->
  e ∈ entries (array h) -> repr (key e) = repr k -> e ∈ bucket n.
Proof.
  intros Hwf Hn (i & n' & Hi & He)%entries_in Er. destruct (w_nodes h Hwf i n' e Hi He) as (_ & _ & Hs).
  assert (slot (arraySize h) k = Z.of_nat i) as Hk.
  { rewrite <- Hs. unfold slot. by rewrite (hash_repr (key e) k). }
  rewrite Hk, Nat2Z.id, Hi in Hn. by injection Hn as ->.
Qed.

Lemma map_lookup_entry h e : wf h -> e ∈ entries (array h) -> map_of h !! repr (key e) = Some (val e).
Proof.
  intros Hwf He. unfold map_of. apply elem_of_list_to_map_1; [apply Hwf|].
  apply list_elem_of_fmap. by exists e.
Qed.

Lemma map_lookup_none h k n :
  wf h -> array h !! Z.to_nat (slot (arraySize h) k) = Some n ->
  (forall e, e ∈ bucket n -> repr (key e) <> repr k) -> map_of h !! repr k = None.
Proof.
  intros Hwf Hn Hno. unfold map_of. apply not_elem_of_list_to_map_1. intros Hin.
  apply list_elem_of_fmap in Hin as ([k' v] & Ek & Hin).
  apply list_elem_of_fmap in Hin as (e & E & He). unfold kv in E. injection E as -> ->. simpl in Ek.
  apply (Hno e); [|done]. by eapply entry_in_slot.
Qed.

(** ** Reading *)

Lemma get_walk_found h k l :
  compare h = cmp ->
  (exists e, e ∈ l /\ repr (key e) = repr k /\ get_walk h k l = val e) \/
  (forall e, e ∈ l -> repr (key e) <> repr k) /\ get_walk h k l = 0.
Proof.
  intros Hc. induction l as [|e l IH]; simpl; [right; split; [set_solver|done]|]. rewrite Hc.
  destruct (Z.eqb_spec (cmp k (key e)) 0) as [E%compare_repr|E].
  - left. exists e. split_and!; [set_solver|done|done].
  - destruct IH as [(e' & ? & ? & ?)|[Hno ?]]; [left; exists e'; split_and!; set_solver|right].
    split; [|done]. intros e' [->|He']%elem_of_cons; [|by apply Hno].
    intros Er. apply E, compare_repr. done.
Qed.

Lemma get_spec h k : wf h -> k <> 0 -> hashmap_get h k = Ok (default 0 (map_of h !! repr k)).
Proof.
  intros Hwf Hk. unfold hashmap_get, hashmap_count. rewrite (proj2 (Z.eqb_neq k 0)), orb_false_r by done.
  destruct (Z.eqb_spec (count h) 0) as [E|E].
  { assert (map_of h = ∅) as ->; [|by rewrite lookup_empty]. apply map_size_empty_iff.
    pose proof (map_size h Hwf). lia. }
  destruct (slot_node h k Hwf) as (n & -> & Hl & Hn & _). cbn [mbind res_bind]. rewrite Hl. cbn [mbind res_bind].
  destruct (Z.eqb_spec (key (ety n)) 0) as [Ek|Ek].
  - rewrite (map_lookup_none h k n) by (done || (unfold bucket; rewrite Ek; set_solver)). done.
  - f_equal. assert (bucket n = ety n :: next n) as Hb by (unfold bucket; by destruct (Z.eqb_spec (key (ety n)) 0)).
    rewrite <- Hb. destruct (get_walk_found h k (bucket n) (w_compare h Hwf)) as [(e & He & Er & ->)|[Hno ->]].
    + rewrite <- Er, (map_lookup_entry h e); [done|done|]. apply entries_in. eauto.
    + by rewrite (map_lookup_none h k n).
Qed.

(** ** Writing a slot *)

Lemma wf_slot h i n n' c :
  wf h -> array h !! i = Some n ->
  (key (ety n') = 0 -> next n' = []) ->
  (forall e, e ∈ bucket n' -> entry_ok (arraySize h) i e) ->
  NoDup ((kv <$> entries (<[i := n']> (array h))).*1) ->
  c = Z.of_nat (List.length (entries (<[i := n']> (array h)))) ->
  wf (with_array h (<[i := n']> (array h)) c).
Proof.
  intros [Hf Hc Hl Hs Hnull Hnodes _ _] Hi Hn0 Hok Hnd Hct. split; simpl; try done.
  - by rewrite length_insert.
  - intros m (j & Hj)%list_elem_of_lookup. apply list_lookup_insert_Some in Hj as [(_ & <- & _)|[_ Hj]]; [done|].
    apply Hnull. by eapply list_elem_of_lookup_2.
  - intros j m e Hj He. apply list_lookup_insert_Some in Hj as [(<- & <- & _)|[_ Hj]]; [by apply Hok|by eapply Hnodes].
Qed.

(** The entries change by one at a slot. *)
Lemma wf_add h k v n n' :
  wf h -> k <> 0 -> v <> 0 -> array h !! Z.to_nat (slot (arraySize h) k) = Some n ->
  (forall e, e ∈ bucket n -> repr (key e) <> repr k) ->
  key (ety n') <> 0 -> bucket n' ≡ₚ mk_entry k v :: bucket n ->
  let h' := with_array h (<[Z.to_nat (slot (arraySize h) k) := n']> (array h)) (count h + 1) in
  wf h' /\ map_of h' = <[repr k := v]> (map_of h) /\ map_of h !! repr k = None.
Proof.
  intros Hwf Hk Hv Hn Hno Hk' Hb h'. pose proof (map_lookup_none h k n Hwf Hn Hno) as Hnone.
  destruct (entries_slot _ _ _ Hn) as (rest & P & P'). specialize (P' n').
  assert (entries (<[Z.to_nat (slot (arraySize h) k) := n']> (array h)) ≡ₚ mk_entry k v :: entries (array h)) as Pe.
  { rewrite P', P, Hb. done. }
  assert (NoDup ((kv <$> mk_entry k v :: entries (array h)).*1)) as Hnd.
  { simpl. apply NoDup_cons. split; [|apply Hwf]. by apply not_elem_of_list_to_map_2. }
  assert (NoDup ((kv <$> entries (<[Z.to_nat (slot (arraySize h) k) := n']> (array h))).*1)) as Hnd'
    by (by rewrite Pe).
  split_and!; [|unfold map_of; simpl|done].
  - apply (wf_slot h _ n); try done.
    + intros e. rewrite Hb. intros [->|He]%elem_of_cons.
      * split_and!; [done|done|]. simpl. pose proof (doProbe_ok h k (w_hash h Hwf) (w_size h Hwf)). lia.
      * by eapply (w_nodes h Hwf).
    + rewrite Pe. simpl. rewrite (w_count h Hwf). lia.
  - rewrite (list_to_map_proper _ (kv <$> mk_entry k v :: entries (array h))); [done|done|by rewrite Pe].
Qed.

(** The entries of a slot, one of them apart. *)
Lemma map_split h i n e l :
  wf h -> array h !! i = Some n -> bucket n ≡ₚ e :: l ->
  exists R, (forall n' x, bucket n' ≡ₚ x ++ l -> entries (<[i := n']> (array h)) ≡ₚ x ++ R) /\
    entries (array h) ≡ₚ e :: R /\ repr (key e) ∉ (kv <$> R).*1 /\ NoDup ((kv <$> R).*1) /\
    map_of h = <[repr (key e) := val e]> (list_to_map (kv <$> R)) /\
    count h = Z.of_nat (S (List.length R)).
Proof.
  intros Hwf Hi Hb. destruct (entries_slot _ _ _ Hi) as (rest & P & P'). exists (l ++ rest).
  assert (entries (array h) ≡ₚ e :: (l ++ rest)) as Pe by (by rewrite P, Hb).
  pose proof (w_nodup h Hwf) as Hnd. rewrite Pe in Hnd. simpl in Hnd. apply NoDup_cons in Hnd as [Hn Hnd].
  split_and!; try done.
  - intros n' x Hx. by rewrite P', Hx, <- app_assoc.
  - unfold map_of. rewrite (list_to_map_proper _ (kv <$> e :: (l ++ rest))); [done|apply Hwf|by rewrite Pe].
  - rewrite (w_count h Hwf), Pe. done.
Qed.

Lemma wf_replace h k v n n' e l1 l2 i :
  wf h -> v <> 0 -> array h !! i = Some n ->
  repr (key e) = repr k -> bucket n = l1 ++ e :: l2 -> bucket n' = l1 ++ mk_entry (key e) v :: l2 ->
  key (ety n') <> 0 ->
  let h' := with_array h (<[i := n']> (array h)) (count h) in
  wf h' /\ map_of h' = <[repr k := v]> (map_of h) /\ map_of h !! repr k = Some (val e).
Proof.
  intros Hwf Hv Hn Er Hb Hb' Hk' h'.
  destruct (map_split h i n e (l1 ++ l2) Hwf Hn) as (R & PR & Pe & Hnin & Hnd & Hm & Hc).
  { rewrite Hb. symmetry. apply Permutation_middle. }
  assert (entries (<[i := n']> (array h)) ≡ₚ mk_entry (key e) v :: R) as P'.
  { apply (PR n' [mk_entry (key e) v]). rewrite Hb'. simpl. by rewrite Permutation_middle. }
  assert (NoDup ((kv <$> mk_entry (key e) v :: R).*1)) as Hnd' by (simpl; by apply NoDup_cons).
  assert (NoDup ((kv <$> entries (<[i := n']> (array h))).*1)) as Hnd2 by (by rewrite P').
  split_and!.
  - apply (wf_slot h i n); try done.
    + intros x Hx. rewrite Hb' in Hx.
      assert (entry_ok (arraySize h) i e) as (? & ? & ?) by (apply (w_nodes h Hwf i n); [done|rewrite Hb; set_solver]).
      apply elem_of_app in Hx as [Hx|[->|Hx]%elem_of_cons]; [|done|];
        apply (w_nodes h Hwf i n); try done; rewrite Hb; set_solver.
    + rewrite P'. done.
  - unfold map_of at 1. simpl.
    rewrite (list_to_map_proper _ (kv <$> mk_entry (key e) v :: R)); [|done|by rewrite P'].
    simpl. rewrite Hm, <- Er. by rewrite insert_insert_eq.
  - rewrite Hm, <- Er. apply lookup_insert_eq.
Qed.

Lemma wf_drop h k n n' e i :
  wf h -> array h !! i = Some n -> repr (key e) = repr k -> bucket n ≡ₚ e :: bucket n' ->
  (key (ety n') = 0 -> next n' = []) ->
  let h' := with_array h (<[i := n']> (array h)) (count h - 1) in
  wf h' /\ map_of h' = delete (repr k) (map_of h) /\ map_of h !! repr k = Some (val e).
Proof.
  intros Hwf Hn Er Hb Hn0 h'.
  destruct (map_split h i n e (bucket n') Hwf Hn Hb) as (R & PR & Pe & Hnin & Hnd & Hm & Hc).
  assert (entries (<[i := n']> (array h)) ≡ₚ R) as P' by (by apply (PR n' [])).
  assert (NoDup ((kv <$> entries (<[i := n']> (array h))).*1)) as Hnd2 by (by rewrite P').
  split_and!.
  - apply (wf_slot h i n); try done.
    + intros x Hx. apply (w_nodes h Hwf i n); [done|]. rewrite Hb. set_solver.
    + rewrite P', Hc. lia.
  - unfold map_of at 1. simpl. rewrite (list_to_map_proper _ (kv <$> R)); [|done|by rewrite P'].
    rewrite Hm, <- Er, delete_insert_eq. rewrite delete_id; [done|]. by apply not_elem_of_list_to_map_1.
  - rewrite Hm, <- Er. apply lookup_insert_eq.
Qed.

(** ** The walks *)

Lemma put_walk_spec h k v l :
  compare h = cmp ->
  (put_walk h k v l = None /\ forall e, e ∈ l -> repr (key e) <> repr k) \/
  exists l1 e l2, l = l1 ++ e :: l2 /\ repr (key e) = repr k /\
    put_walk h k v l = Some (val e, l1 ++ mk_entry (key e) v :: l2).
Proof.
  intros Hc. induction l as [|e l IH]; simpl; [left; split; [done|set_solver]|]. rewrite Hc.
  destruct (Z.eqb_spec (cmp k (key e)) 0) as [E%compare_repr|E].
  - right. exists [], e, l. done.
  - destruct IH as [[-> Hno]|(l1 & e' & l2 & -> & Er & ->)]; [left|right; exists (e :: l1), e', l2; done].
    split; [done|]. intros e' [->|He']%elem_of_cons; [|by apply Hno]. intros Er. by apply E, compare_repr.
Qed.

Lemma remove_walk_spec h k l :
  compare h = cmp ->
  (remove_walk h k l = None /\ forall e, e ∈ l -> repr (key e) <> repr k) \/
  exists l1 e l2, l = l1 ++ e :: l2 /\ repr (key e) = repr k /\ remove_walk h k l = Some (e, l1 ++ l2).
Proof.
  intros Hc. induction l as [|e l IH]; simpl; [left; split; [done|set_solver]|]. rewrite Hc.
  destruct (Z.eqb_spec (cmp k (key e)) 0) as [E%compare_repr|E].
  - right. exists [], e, l. done.
  - destruct IH as [[-> Hno]|(l1 & e' & l2 & -> & Er & ->)]; [left|right; exists (e :: l1), e', l2; done].
    split; [done|]. intros e' [->|He']%elem_of_cons; [|by apply Hno]. intros Er. by apply E, compare_repr.
Qed.

Lemma bucket_used n : key (ety n) <> 0 -> bucket n = ety n :: next n.
Proof. intros. unfold bucket. by destruct (Z.eqb_spec (key (ety n)) 0). Qed.

(** ** Writing *)

Lemma put_node_spec h k v :
  wf h -> k <> 0 -> v <> 0 -> count h < 32767 ->
  exists h', put_node h k v = Ok (h', default 0 (map_of h !! repr k)) /\ wf h' /\
    map_of h' = <[repr k := v]> (map_of h) /\ arraySize h' = arraySize h.
Proof.
  intros Hwf Hk Hv Hc. assert (0 <= count h) by (rewrite (w_count h Hwf); lia).
  assert (nodeassign (count h) = Ok (count h + 1)) as Hna.
  { unfold nodeassign. rewrite chk_ok by (unfold in_int, int_min, int_max; lia). cbn [mbind res_bind].
    by destruct (Z.ltb_spec (count h + 1) 32768); [|lia]. }
  unfold put_node. destruct (slot_node h k Hwf) as (n & -> & Hl & Hn & Hr). cbn [mbind res_bind]. rewrite Hl.
  cbn [mbind res_bind]. destruct (Z.eqb_spec (key (ety n)) 0) as [Ek|Ek].
  - rewrite Hna. cbn [mbind res_bind]. rewrite store_ok by done. cbn [mbind res_bind].
    assert (next n = []) as Hnx by (apply (w_null h Hwf); [by eapply list_elem_of_lookup_2|done]). rewrite Hnx.
    assert (bucket n = []) as Hb by (unfold bucket; by rewrite Ek).
    destruct (wf_add h k v n (mk_node (mk_entry k v) [])) as (Hwf' & Hm & ->); try done.
    + rewrite Hb. set_solver.
    + rewrite Hb, bucket_used; done.
    + eauto.
  - pose proof (bucket_used n Ek) as Hb.
    destruct (put_walk_spec h k v (ety n :: next n) (w_compare h Hwf)) as [[-> Hno]|(l1 & e & l2 & El & Er & ->)].
    + rewrite Hna. cbn [mbind res_bind]. rewrite store_ok by done. cbn [mbind res_bind].
      destruct (wf_add h k v n (mk_node (ety n) (next n ++ [mk_entry k v]))) as (Hwf' & Hm & ->); try done.
      * by rewrite Hb.
      * rewrite Hb, bucket_used by done. simpl. by rewrite <- Permutation_cons_append, Permutation_swap.
      * eauto.
    + destruct (l1 ++ mk_entry (key e) v :: l2) as [|r rest] eqn:En; [by destruct l1|].
      rewrite store_ok by done. cbn [mbind res_bind].
      assert (key r <> 0) as Hr0.
      { destruct l1; simplify_eq/=; done. }
      destruct (wf_replace h k v n (mk_node r rest) e l1 l2 (Z.to_nat (slot (arraySize h) k))) as (Hwf' & Hm & ->); try done.
      * by rewrite Hb.
      * by rewrite bucket_used, En.
      * eauto.
Qed.

Lemma map_remove h k :
  wf h -> count h <= 32767 ->
  exists h', hashmap_remove h k = Ok (h', default 0 (map_of h !! repr k)) /\ wf h' /\
    map_of h' = delete (repr k) (map_of h) /\ arraySize h' = arraySize h.
Proof.
  intros Hwf Hcb. assert (0 <= count h) by (rewrite (w_count h Hwf); lia).
  unfold hashmap_remove, hashmap_remove_entry.
  destruct (slot_node h k Hwf) as (n & -> & Hl & Hn & Hr). cbn [mbind res_bind]. rewrite Hl. cbn [mbind res_bind].
  assert (chk (count h - 1) = Ok (count h - 1)) as Hchk by (apply chk_ok; unfold in_int, int_min, int_max; lia).
  destruct (Z.eqb_spec (key (ety n)) 0) as [Ek|Ek].
  { assert (map_of h !! repr k = None) as E.
    { apply (map_lookup_none h k n); try done. unfold bucket. rewrite Ek. set_solver. }
    exists h. rewrite E. split_and!; try done. by rewrite delete_id. }
  pose proof (bucket_used n Ek) as Hb. rewrite (w_compare h Hwf).
  destruct (Z.eqb_spec (cmp k (key (ety n))) 0) as [E%compare_repr|E].
  - rewrite store_ok by done. cbn [mbind res_bind]. rewrite Hchk. cbn [mbind res_bind].
    set (n' := match next n with [] => _ | _ => _ end).
    assert (bucket n' = next n /\ (key (ety n') = 0 -> next n' = [])) as [Hb' Hn0].
    { unfold n'. destruct (next n) as [|e rest] eqn:En; [done|].
      assert (key e <> 0) by (apply (w_nodes h Hwf _ n e Hn); rewrite Hb, ?En; set_solver).
      split; [by apply bucket_used|done]. }
    destruct (wf_drop h k n n' (ety n) (Z.to_nat (slot (arraySize h) k))) as (Hwf' & Hm & ->); try done.
    + by rewrite Hb, Hb'.
    + eauto.
  - destruct (remove_walk_spec h k (next n) (w_compare h Hwf)) as [[-> Hno]|(l1 & e & l2 & El & Er & ->)].
    + assert (map_of h !! repr k = None) as Enone.
      { apply (map_lookup_none h k n); try done. rewrite Hb. intros e [->|He]%elem_of_cons; [|by apply Hno].
        intros Er. by apply E, compare_repr. }
      exists h. rewrite Enone. split_and!; try done. by rewrite delete_id.
    + rewrite store_ok by done. cbn [mbind res_bind]. rewrite Hchk. cbn [mbind res_bind].
      destruct (wf_drop h k n (mk_node (ety n) (l1 ++ l2)) e (Z.to_nat (slot (arraySize h) k))) as (Hwf' & Hm & ->); try done.
      * rewrite Hb, bucket_used, El by done. simpl. by rewrite <- Permutation_middle, Permutation_swap.
      * eauto.
Qed.

(** ** Growth *)

(** The float comparison of the load is exact. *)
Lemma ensure_room put h :
  0 <= count h <= 32767 -> 0 < arraySize h <= 2 ^ 17 ->
  ensurecapacity put h = if 2 * count h <? arraySize h then Ok h else increase_capacity put h 2.
Proof. intros Hc Hs. unfold ensurecapacity. by rewrite fdiv_lt_half by lia. Qed.

Lemma hashmap_put_S fuel h k v :
  hashmap_put (S fuel) h k v =
  if (k =? 0) || (v =? 0) then Ok (h, 0) else h ← ensurecapacity (hashmap_put fuel) h; put_node h k v.
Proof. reflexivity. Qed.

Lemma put_room fuel h k v :
  wf h -> k <> 0 -> v <> 0 -> count h <= 32767 -> 2 * count h < arraySize h ->
  hashmap_put (S fuel) h k v = put_node h k v.
Proof.
  intros Hwf Hk Hv Hc Hl. rewrite hashmap_put_S.
  rewrite (proj2 (Z.eqb_neq k 0)), (proj2 (Z.eqb_neq v 0)) by done. cbn [orb].
  rewrite ensure_room; [|rewrite (w_count h Hwf) in *; lia|apply Hwf].
  by destruct (Z.ltb_spec (2 * count h) (arraySize h)); [|lia].
Qed.

Lemma move_chain_app put l1 l2 h :
  move_chain put (l1 ++ l2) h = h ← move_chain put l1 h; move_chain put l2 h.
Proof.
  revert h. induction l1 as [|e l1 IH]; intros h; [done|]. cbn [app move_chain].
  destruct (put h (key e) (val e)) as [[h' r]| | |]; cbn [mbind res_bind]; try done. by destruct (key e =? 0).
Qed.

Lemma move_nodes_chain put old h : move_nodes put old h = move_chain put (entries old) h.
Proof.
  revert h. induction old as [|n old IH]; intros h; [done|]. cbn [move_nodes].
  change (entries (n :: old)) with (bucket n ++ entries old). unfold bucket.
  destruct (Z.eqb_spec (key (ety n)) 0) as [|Ek]; [by rewrite IH|]. cbn [app move_chain].
  destruct (put h (key (ety n)) (val (ety n))) as [[h' r]| | |]; cbn [mbind res_bind]; try done.
  rewrite (proj2 (Z.eqb_neq _ _) Ek), move_chain_app.
  destruct (move_chain put (next n) h') as [h2| | |]; cbn [mbind res_bind]; try done.
Qed.

(** Moving new entries into a table with room for them. *)
Lemma move_chain_spec fuel l h :
  wf h -> NoDup ((kv <$> l).*1) ->
  (forall e, e ∈ l -> key e <> 0 /\ val e <> 0 /\ map_of h !! repr (key e) = None) ->
  count h + Z.of_nat (List.length l) <= 32767 ->
  2 * (count h + Z.of_nat (List.length l) - 1) < arraySize h ->
  exists h', move_chain (hashmap_put (S fuel)) l h = Ok h' /\ wf h' /\
    map_of h' = list_to_map (kv <$> l) ∪ map_of h /\ arraySize h' = arraySize h.
Proof.
  revert h. induction l as [|e l IH]; intros h Hwf Hnd Hl Hc Hs; cbn [move_chain].
  { exists h. split_and!; try done. simpl. by rewrite (left_id_L ∅ (∪)). }
  destruct (Hl e ltac:(set_solver)) as (Hk & Hv & Hnone). simpl in Hc, Hs, Hnd.
  apply NoDup_cons in Hnd as [Hnin Hnd].
  rewrite put_room by (done || lia).
  destruct (put_node_spec h (key e) (val e)) as (h1 & -> & Hwf1 & Hm1 & Hs1); [done..|lia|]. cbn [mbind res_bind].
  rewrite (proj2 (Z.eqb_neq _ _) Hk).
  assert (count h1 = count h + 1) as Hc1.
  { rewrite <- (map_size h1 Hwf1), <- (map_size h Hwf), Hm1, map_size_insert_None by done. lia. }
  destruct (IH h1) as (h2 & -> & Hwf2 & Hm2 & Hs2); try done; [|lia|lia|].
  { intros x Hx. destruct (Hl x ltac:(set_solver)) as (? & ? & Hx0). split_and!; try done.
    rewrite Hm1, lookup_insert_ne; [done|]. intros E. apply Hnin. rewrite E.
    apply list_elem_of_fmap. exists (kv x). split; [done|]. apply list_elem_of_fmap. by exists x. }
  exists h2. split_and!; try done; [|congruence].
  rewrite Hm2, Hm1. simpl. rewrite <- insert_union_r by (by apply not_elem_of_list_to_map_1).
  by rewrite insert_union_l.
Qed.

Lemma empty_wf n : 0 < n <= 2 ^ 17 -> wf (mk_hashmap 0 n (allocnodes n) f cmp) /\
  map_of (mk_hashmap 0 n (allocnodes n) f cmp) = ∅.
Proof.
  intros Hn.
  assert (entries (allocnodes n) = []) as He.
  { unfold allocnodes, entries. induction (Z.to_nat n) as [|m IH]; [done|]. simpl. done. }
  assert (forall m, m ∈ allocnodes n -> m = null_node) as Hnull.
  { intros m Hm. unfold allocnodes in Hm. by apply elem_of_replicate in Hm as [-> _]. }
  split; [|unfold map_of; simpl; by rewrite He].
  split; simpl; rewrite ?He; try done.
  - unfold allocnodes. rewrite length_replicate. lia.
  - by intros m ->%Hnull _.
  - intros i m e Hm%list_elem_of_lookup_2%Hnull. subst m. unfold bucket. simpl. set_solver.
  - constructor.
Qed.

Lemma increase_spec fuel h :
  wf h -> count h <= 32767 -> count h <= arraySize h -> 2 * arraySize h <= 2 ^ 17 ->
  exists h', increase_capacity (hashmap_put (S fuel)) h 2 = Ok h' /\ wf h' /\
    map_of h' = map_of h /\ arraySize h' = 2 * arraySize h.
Proof.
  intros Hwf Hc Hload Hs. pose proof (w_size h Hwf). pose proof (w_length h Hwf).
  unfold increase_capacity. rewrite (Z.mul_comm (arraySize h)).
  assert (wrap_int (wrap_u32 (2 * arraySize h)) = 2 * arraySize h) as ->.
  { unfold wrap_u32. rewrite Z.mod_small by lia. apply wrap_int_id. unfold in_int, int_min, int_max. lia. }
  rewrite take_ge by lia. rewrite move_nodes_chain, (w_hash h Hwf), (w_compare h Hwf).
  destruct (empty_wf (2 * arraySize h)) as [Hwf0 Hm0]; [lia|].
  pose proof (w_count h Hwf) as Hcount.
  destruct (move_chain_spec fuel (entries (array h)) _ Hwf0 (w_nodup h Hwf)) as (h' & -> & Hwf' & Hm' & Hs').
  - intros e He. rewrite Hm0, lookup_empty. apply entries_in in He as (i & n & Hi & He).
    by destruct (w_nodes h Hwf i n e Hi He) as (? & ? & _).
  - simpl. lia.
  - simpl. lia.
  - exists h'. split_and!; try done. rewrite Hm', Hm0. by rewrite (right_id_L ∅ (∪)).
Qed.

(** A table [hashmap_put] keeps: well-formed, not more entries than slots. *)
Definition table (h : hashmap_t) : Prop := wf h /\ count h <= arraySize h.

Lemma count_nonneg h : wf h -> 0 <= count h.
Proof. intros Hwf. rewrite (w_count h Hwf). lia. Qed.

Lemma put_spec fuel h k v :
  table h -> k <> 0 -> v <> 0 -> count h < 32767 ->
  exists h', hashmap_put (S (S fuel)) h k v = Ok (h', default 0 (map_of h !! repr k)) /\ table h' /\
    map_of h' = <[repr k := v]> (map_of h).
Proof.
  intros [Hwf Hload] Hk Hv Hc. pose proof (count_nonneg h Hwf).
  assert (exists h1, ensurecapacity (hashmap_put (S fuel)) h = Ok h1 /\ wf h1 /\ map_of h1 = map_of h /\
    count h1 + 1 <= arraySize h1) as (h1 & E & Hwf1 & Hm1 & Hl1).
  { rewrite ensure_room; [|lia|apply Hwf]. destruct (Z.ltb_spec (2 * count h) (arraySize h)).
    - exists h. split_and!; try done. lia.
    - destruct (increase_spec fuel h) as (h1 & -> & Hwf1 & Hm1 & Hs1); [done|lia|done|lia|].
      exists h1. split_and!; try done. rewrite <- (map_size h1 Hwf1), Hm1, (map_size h Hwf), Hs1.
      pose proof (w_size h Hwf). lia. }
  assert (count h1 = count h) as Hc1 by (rewrite <- (map_size h1 Hwf1), Hm1; by apply map_size).
  rewrite hashmap_put_S, (proj2 (Z.eqb_neq k 0)), (proj2 (Z.eqb_neq v 0)) by done. cbn [orb].
  rewrite E. cbn [mbind res_bind].
  destruct (put_node_spec h1 k v) as (h' & -> & Hwf' & Hm' & Hs'); [done..|lia|].
  rewrite <- Hm1. exists h'. split_and!; try done. split; [done|]. rewrite Hs'.
  rewrite <- (map_size h' Hwf'), Hm'. rewrite <- (map_size h1 Hwf1) in Hl1.
  destruct (map_of h1 !! repr k) as [w|] eqn:Ew.
  - rewrite map_size_insert_Some by done. lia.
  - rewrite map_size_insert_None by done. lia.
Qed.

(** ** Clearing *)

Lemma node_empty_spec l c :
  0 <= c - Z.of_nat (List.length l) -> c <= int_max ->
  node_empty l c = Ok (c - Z.of_nat (List.length l)).
Proof.
  intros Hl Hc. induction l as [|e l IH]; cbn [node_empty]; [f_equal; simpl; lia|].
  simpl in Hl. rewrite IH by lia. cbn [mbind res_bind]. rewrite chk_ok by (unfold in_int, int_min in *; lia).
  f_equal. simpl. lia.
Qed.

Lemma clear_loop_spec nodes r :
  0 <= r -> r + Z.of_nat (List.length (entries nodes)) <= int_max ->
  (forall n, n ∈ nodes -> key (ety n) = 0 -> next n = []) ->
  exists nodes', clear_loop nodes (r + Z.of_nat (List.length (entries nodes))) = Ok (nodes', r) /\
    List.length nodes' = List.length nodes /\
    forall n, n ∈ nodes' -> key (ety n) = 0 /\ next n = [].
Proof.
  intros Hr. induction nodes as [|n nodes IH]; intros Hm Hnull; cbn [clear_loop].
  { exists []. split_and!; [f_equal; f_equal; simpl; lia|done|set_solver]. }
  change (entries (n :: nodes)) with (bucket n ++ entries nodes) in *. rewrite length_app in *.
  unfold bucket in *. destruct (Z.eqb_spec (key (ety n)) 0) as [Ek|Ek].
  - destruct IH as (nodes' & E & Hl & Hz); [simpl in Hm; lia|set_solver|].
    cbn [List.length Nat.add]. rewrite E. cbn [mbind res_bind]. exists (n :: nodes'). split_and!; [done|simpl; lia|].
    intros m [->|Hm']%elem_of_cons; [|by apply Hz]. split; [done|]. apply Hnull; [set_solver|done].
  - simpl in Hm. simpl List.length. rewrite node_empty_spec by lia. cbn [mbind res_bind].
    rewrite chk_ok by (unfold in_int, int_min in *; lia). cbn [mbind res_bind].
    replace (r + Z.of_nat (S (List.length (next n)) + List.length (entries nodes)) - Z.of_nat (List.length (next n)) - 1)
      with (r + Z.of_nat (List.length (entries nodes))) by lia.
    destruct (Z.ltb_spec (r + Z.of_nat (List.length (entries nodes))) 0); [lia|].
    destruct IH as (nodes' & E & Hl & Hz); [lia|set_solver|].
    rewrite E. cbn [mbind res_bind]. eexists. split_and!; [done|simpl; lia|].
    intros m [->|Hm']%elem_of_cons; [done|by apply Hz].
Qed.

Lemma entries_cleared nodes : (forall n, n ∈ nodes -> key (ety n) = 0) -> entries nodes = [].
Proof.
  induction nodes as [|n nodes IH]; intros Hz; [done|].
  change (entries (n :: nodes)) with (bucket n ++ entries nodes).
  rewrite IH by (intros; apply Hz; set_solver). unfold bucket. by rewrite (Hz n) by set_solver.
Qed.

Lemma clear_spec h :
  table h -> count h <= 32767 -> exists h', hashmap_clear h = Ok h' /\ table h' /\ map_of h' = ∅.
Proof.
  intros [Hwf Hload] Hc. pose proof (w_count h Hwf) as Hcount. unfold hashmap_clear.
  destruct (clear_loop_spec (array h) 0) as (nodes' & E & Hl & Hz);
    [lia|unfold int_max; lia|apply Hwf|].
  rewrite Z.add_0_l in E. rewrite Hcount, E. cbn [mbind res_bind].
  eexists. split; [done|].
  assert (entries nodes' = []) as He by (apply entries_cleared; intros; by apply Hz).
  split; [|unfold map_of; simpl; by rewrite He]. pose proof (w_size h Hwf). split; [|simpl; lia].
  destruct Hwf. split; simpl; rewrite ?He; try done.
  - by rewrite Hl.
  - intros n Hn _. by apply Hz.
  - intros i n e Hn%list_elem_of_lookup_2%Hz. unfold bucket. destruct Hn as [-> _]. set_solver.
  - constructor.
Qed.

(** ** Histories *)

Inductive command : Type :=
  | Put (k v : Z)
  | Get (k : Z)
  | Contains (k : Z)
  | Remove (k : Z)
  | Count
  | Clear.

Definition exec (c : command) (h : hashmap_t) : res (hashmap_t * Z) :=
  match c with
  | Put k v => hashmap_put 2 h k v
  | Get k => v ← hashmap_get h k; Ok (h, v)
  | Contains k => v ← hashmap_contains_key h k; Ok (h, v)
  | Remove k => hashmap_remove h k
  | Count => Ok (h, hashmap_count h)
  | Clear => h ← hashmap_clear h; Ok (h, 0)
  end.

(** What the call means on a finite map. *)
Definition apply_map (c : command) (m : gmap Z Z) : gmap Z Z * Z :=
  match c with
  | Put k v => if (k =? 0) || (v =? 0) then (m, 0) else (<[repr k := v]> m, default 0 (m !! repr k))
  | Get k => (m, if k =? 0 then 0 else default 0 (m !! repr k))
  | Contains k => (m, if k =? 0 then 0 else match m !! repr k with Some _ => 1 | None => 0 end)
  | Remove k => (delete (repr k) m, default 0 (m !! repr k))
  | Count => (m, Z.of_nat (base.size m))
  | Clear => (∅, 0)
  end.

Lemma val_nonzero h k v : wf h -> map_of h !! k = Some v -> v <> 0.
Proof.
  intros Hwf Hm%elem_of_list_to_map_2. apply list_elem_of_fmap in Hm as (e & E & He).
  apply entries_in in He as (i & n & Hi & He). destruct (w_nodes h Hwf i n e Hi He) as (_ & ? & _).
  unfold kv in E. by injection E as -> ->.
Qed.

Lemma map_call c h :
  table h -> count h < 32767 ->
  exists h', exec c h = Ok (h', (apply_map c (map_of h)).2) /\ table h' /\ map_of h' = (apply_map c (map_of h)).1.
Proof.
  intros HT Hc. pose proof HT as [Hwf Hload].
  assert (forall k, hashmap_get h k = Ok (if k =? 0 then 0 else default 0 (map_of h !! repr k))) as Hget.
  { intros k. destruct (Z.eqb_spec k 0) as [->|]; [|by apply get_spec]. unfold hashmap_get. by rewrite orb_true_r. }
  destruct c as [k v|k|k|k| |]; cbn [exec apply_map].
  - destruct ((k =? 0) || (v =? 0)) eqn:E.
    + rewrite hashmap_put_S, E. eauto.
    + apply orb_false_iff in E as [?%Z.eqb_neq ?%Z.eqb_neq]. by apply put_spec.
  - rewrite Hget. cbn [mbind res_bind]. eauto.
  - unfold hashmap_contains_key. rewrite Hget. cbn [mbind res_bind fst snd]. exists h. split_and!; try done.
    do 2 f_equal. destruct (Z.eqb_spec k 0); [done|].
    destruct (map_of h !! repr k) as [v|] eqn:E; [|done]. simpl.
    by destruct (Z.eqb_spec v 0); [destruct (val_nonzero h (repr k) v)|].
  - destruct (map_remove h k Hwf) as (h' & -> & Hwf' & Hm' & Hs'); [lia|]. exists h'. split_and!; try done.
    split; [done|]. rewrite Hs', <- (map_size h' Hwf'), Hm'.
    pose proof (map_size h Hwf). destruct (map_of h !! repr k) as [v|] eqn:E.
    + rewrite map_size_delete_Some by done. lia.
    + rewrite delete_id by done. lia.
  - unfold hashmap_count. rewrite <- (map_size h Hwf). eauto.
  - destruct (clear_spec h HT) as (h' & -> & HT' & Hm'); [lia|]. cbn [mbind res_bind]. eauto.
Qed.

Lemma apply_map_size c m : (base.size (apply_map c m).1 <= S (base.size m))%nat.
Proof.
  destruct c as [k v|k|k|k| |]; simpl; try lia.
  - case_match; simpl; [lia|]. destruct (m !! repr k) as [w|] eqn:E.
    + rewrite map_size_insert_Some by done. lia.
    + rewrite map_size_insert_None by done. lia.
  - rewrite map_size_delete. unfold id. case_match; lia.
  - rewrite map_size_empty. lia.
Qed.

(** The table holds the map, and there is room for [n] more keys. *)
Definition holds (n : nat) (h : hashmap_t) (m : gmap Z Z) : Prop :=
  table h /\ map_of h = m /\ count h + Z.of_nat n <= 32767.

#[export] Instance map_implements : Implements exec (fun_step apply_map) (fun _ => true) holds.
Proof.
  intros n c h m (HT & <- & Hn) _. destruct (map_call c h HT) as (h' & E & HT' & Hm'); [lia|].
  pose proof (apply_map_size c (map_of h)) as Hsz. unfold fun_step.
  destruct (apply_map c (map_of h)) as [m1 r]. simpl in *. exists h', r, m1. split_and!; [done..|].
  split_and!; [done..|]. rewrite <- (map_size h') by apply HT'. rewrite <- (map_size h) in Hn by apply HT.
  rewrite Hm'. lia.
Qed.
End map.

(** A history of calls on a new map. *)
Lemma hashmap_history (f : Z -> Z) (cmp : Z -> Z -> Z) (repr : Z -> Z) (capacity : Z) (cs : list command) :
  KeyLaws f cmp repr -> 0 < capacity <= 2 ^ 17 -> Z.of_nat (List.length cs) <= 32767 ->
  exists h, exec_all exec cs (hashmap_new f cmp capacity) = Ok (h, (apply_all (apply_map repr) cs ∅).2) /\
    holds f cmp repr 0%nat h (apply_all (apply_map repr) cs ∅).1.
Proof.
  intros Hkeys Hcap Hcs. unfold hashmap_new.
  rewrite wrap_int_id by (unfold in_int, int_min, int_max; lia).
  destruct (empty_wf f cmp repr capacity Hcap) as [Hwf Hm].
  apply (history_applies exec (apply_map repr) (fun _ => true) (holds f cmp repr) cs 0
    (mk_hashmap 0 capacity (allocnodes capacity) f cmp) ∅).
  - split_and!; [split; [done|simpl; lia]|done|simpl; lia].
  - by apply forallb_forall.
Qed.

(** C18: any history of up to 32767 calls on a new map answers as a finite map from what
    the keys stand for to the values does: [hashmap_put] returns the value it
    replaces, [hashmap_remove] the value it takes away, and [hashmap_count] is the
    number of keys.  The table grows on the way without losing an entry, its
    assertions hold, and growing never needs to grow again. *)
Theorem hashmap_refines_map (f : Z -> Z) (cmp : Z -> Z -> Z) (repr : Z -> Z) (capacity : Z) (cs : list command) :
  KeyLaws f cmp repr -> 0 < capacity <= 2 ^ 17 -> Z.of_nat (List.length cs) <= 32767 ->
  exists h, exec_all exec cs (hashmap_new f cmp capacity) = Ok (h, (apply_all (apply_map repr) cs ∅).2) /\
    map_of repr h = (apply_all (apply_map repr) cs ∅).1.
Proof.
  intros Hkeys Hcap Hcs. destruct (hashmap_history f cmp repr capacity cs Hkeys Hcap Hcs) as (h & E & _ & Hm & _). eauto.
Qed.

Lemma hashmap_refines_map_witness :
  let cs := [Put 5 50; Put 6 60; Put 7 70; Put (-5) 51; Get 5; Remove 6; Contains 6; Count; Clear; Get 7] in
  (apply_all (apply_map Z.abs) cs ∅).2 = [0; 0; 0; 50; 51; 60; 0; 2; 0; 0] /\
  exists h, exec_all exec cs (hashmap_new Z.abs (fun x y => Z.abs x - Z.abs y) 1) = Ok (h, (apply_all (apply_map Z.abs) cs ∅).2) /\
    map_of Z.abs h = (apply_all (apply_map Z.abs) cs ∅).1.
Proof.
  intros cs. split; [vm_compute; reflexivity|].
  apply (hashmap_refines_map Z.abs (fun x y => Z.abs x - Z.abs y) Z.abs 1 cs).
  - split; lia.
  - lia.
  - simpl. lia.
Defined.
End LLHashmap.
