(* ===== verification/LLIter.v ===== *)
(** * Iterating a chained hash map (src/PUTs/04CHashMapViaLinkedList/linked_list_hashmap.c)

    The iterator keeps the slot it is at and the node of the chain it looks at next;
    a pointer to a node of a chain is its place in the chain of that slot.  The map is
    not changed between the calls. *)

From S2P Require Import Prelude History LLHashmap.
Import LLHashmap.

Module LLIter.

Record hashmap_iterator_t := mk_iter { it_cur : Z; cur_linked : option nat }.

Definition hashmap_iterator (h : hashmap_t) : hashmap_iterator_t := mk_iter 0 None.

(** The loop that looks for a slot in use, from [c] on. *)
Fixpoint seek (fuel : nat) (h : hashmap_t) (c : Z) : res Z :=
  if c <? arraySize h then
    match fuel with
    | O => OutOfFuel
    | S fuel =>
        node ← load (array h) c;
        if key (ety node) =? 0 then c ← chk (c + 1); seek fuel h c else Ok c
    end
  else Ok c.

(** There are at most so many slots from [c] on. *)
Definition seek_fuel (h : hashmap_t) (c : Z) : nat := Z.to_nat (arraySize h - c).

Definition chained (h : hashmap_t) (c : Z) (i : nat) : res hashmap_entry_t :=
  node ← load (array h) c;
  match next node !! i with Some e => Ok e | None => Undef end.

Definition hashmap_iterator_peek (h : hashmap_t) (iter : hashmap_iterator_t) : res (hashmap_iterator_t * Z) :=
  match cur_linked iter with
  | None =>
      c ← seek (seek_fuel h (it_cur iter)) h (it_cur iter);
      if c <? arraySize h then node ← load (array h) c; Ok (mk_iter c None, key (ety node)) else Ok (mk_iter c None, 0)
  | Some i => e ← chained h (it_cur iter) i; Ok (iter, key e)
  end.

Definition hashmap_iterator_peek_value (h : hashmap_t) (iter : hashmap_iterator_t) : res (hashmap_iterator_t * Z) :=
  '(iter, k) ← hashmap_iterator_peek h iter;
  v ← hashmap_get h k; Ok (iter, v).

Definition hashmap_iterator_has_next (h : hashmap_t) (iter : hashmap_iterator_t) : res (hashmap_iterator_t * bool) :=
  '(iter, k) ← hashmap_iterator_peek h iter; Ok (iter, negb (k =? 0)).

Definition hashmap_iterator_next (h : hashmap_t) (iter : hashmap_iterator_t) : res (hashmap_iterator_t * Z) :=
  match cur_linked iter with
  | Some i =>
      n_parent ← load (array h) (it_cur iter);
      match next n_parent with
      | [] => c ← chk (it_cur iter + 1); Ok (mk_iter c None, key (ety n_parent))
      | _ =>
          n ← chained h (it_cur iter) i;
          match next n_parent !! S i with
          | None => c ← chk (it_cur iter + 1); Ok (mk_iter c None, key n)
          | Some _ => Ok (mk_iter (it_cur iter) (Some (S i)), key n)
          end
      end
  | None =>
      c ← seek (seek_fuel h (it_cur iter)) h (it_cur iter);
      if arraySize h =? c then Ok (mk_iter c None, 0)
      else
        n ← load (array h) c;
        match next n with
        | _ :: _ => Ok (mk_iter c (Some O), key (ety n))
        | [] => c ← chk (c + 1); Ok (mk_iter c None, key (ety n))
        end
  end.

Definition hashmap_iterator_next_value (h : hashmap_t) (iter : hashmap_iterator_t) : res (hashmap_iterator_t * Z) :=
  '(iter, k) ← hashmap_iterator_next h iter;
  if k =? 0 then Ok (iter, 0) else v ← hashmap_get h k; Ok (iter, v).

(** The loop of a user: while there is a next entry, its value, and its key. *)
Fixpoint for_each (fuel : nat) (h : hashmap_t) (iter : hashmap_iterator_t) : res (list (Z * Z)) :=
  match fuel with
  | O => OutOfFuel
  | S fuel =>
      '(iter, more) ← hashmap_iterator_has_next h iter;
      if more : bool then
        '(iter, v) ← hashmap_iterator_peek_value h iter;
        '(iter, k) ← hashmap_iterator_next h iter;
        l ← for_each fuel h iter;
        Ok ((k, v) :: l)
      else Ok []
  end.

(** ** What is left to visit *)

Section iter.
Context (f : Z -> Z) (cmp : Z -> Z -> Z) (repr : Z -> Z) `{!KeyLaws f cmp repr} (h : hashmap_t) (Hwf : wf f cmp repr h).

Definition remaining (iter : hashmap_iterator_t) : list hashmap_entry_t :=
  match cur_linked iter with
  | None => entries (drop (Z.to_nat (it_cur iter)) (array h))
  | Some i => from_option (fun n => drop i (next n)) [] (array h !! Z.to_nat (it_cur iter)) ++ entries (drop (S (Z.to_nat (it_cur iter))) (array h))
  end.

(** The iterator points at a node that exists. *)
Definition points (iter : hashmap_iterator_t) : Prop :=
  0 <= it_cur iter <= arraySize h /\
  match cur_linked iter with
  | None => True
  | Some i => exists n, array h !! Z.to_nat (it_cur iter) = Some n /\ key (ety n) <> 0 /\ (i < List.length (next n))%nat
  end.

Lemma entries_cons n ns : entries (n :: ns) = bucket n ++ entries ns.
Proof. done. Qed.

Lemma iter_seek_spec fuel c :
  0 <= c <= arraySize h -> arraySize h - c <= Z.of_nat fuel ->
  exists c', seek fuel h c = Ok c' /\ c <= c' <= arraySize h /\ entries (drop (Z.to_nat c') (array h)) = entries (drop (Z.to_nat c) (array h)) /\
    (c' < arraySize h -> exists n, array h !! Z.to_nat c' = Some n /\ key (ety n) <> 0).
Proof.
  revert c. pose proof (w_length _ _ _ h Hwf) as Hl. pose proof (w_size _ _ _ h Hwf) as Hs.
  induction fuel as [|fuel IH]; intros c Hc Hf; simpl; destruct (Z.ltb_spec c (arraySize h)); [lia| | |].
  { exists c. split_and!; [done|lia|lia|done|lia]. }
  2:{ exists c. split_and!; [done|lia|lia|done|lia]. }
  destruct (load_in_range (array h) c) as (n & -> & Hn); [lia|]. cbn [mbind res_bind].
  destruct (Z.eqb_spec (key (ety n)) 0) as [E|E].
  - rewrite chk_ok by (unfold in_int, int_min, int_max; lia). cbn [mbind res_bind].
    destruct (IH (c + 1)) as (c' & -> & Hr & He & Hu); [lia|lia|]. exists c'. split_and!; [done|lia|lia| |done]. rewrite He.
    rewrite (drop_S (array h) n (Z.to_nat c)) by done. rewrite entries_cons. unfold bucket. rewrite (proj2 (Z.eqb_eq _ _)) by done.
    simpl. f_equal. f_equal. lia.
  - exists c. split_and!; [done|lia|lia|done|]. eauto.
Qed.

Lemma entry_key iter e : e ∈ remaining iter -> points iter -> key e <> 0.
Proof.
  intros He [Hc Hp]. assert (e ∈ entries (array h)) as (i & n & Hn & Hb)%entries_in.
  { unfold remaining in He. destruct (cur_linked iter) as [i|].
    - destruct Hp as (n & Hn & Hk & Hi). rewrite Hn in He. simpl in He.
      rewrite <- (take_drop (Z.to_nat (it_cur iter)) (array h)), (drop_S _ _ _ Hn). unfold entries. rewrite fmap_app, concat_app, fmap_cons. simpl.
      apply elem_of_app. right. apply elem_of_app in He as [He|He]; apply elem_of_app; [left|by right].
      rewrite bucket_used by done. apply list_elem_of_further. rewrite <- (take_drop i (next n)). apply elem_of_app. by right.
    - rewrite <- (take_drop (Z.to_nat (it_cur iter)) (array h)). unfold entries. rewrite fmap_app, concat_app. apply elem_of_app. by right. }
  by apply (w_nodes _ _ _ h Hwf i n e Hn Hb).
Qed.

Lemma peek_spec iter :
  points iter -> exists iter', hashmap_iterator_peek h iter = Ok (iter', from_option key 0 (head (remaining iter))) /\
    points iter' /\ remaining iter' = remaining iter.
Proof.
  intros [Hc Hp]. pose proof (w_length _ _ _ h Hwf) as Hl. unfold hashmap_iterator_peek, remaining at 1. destruct (cur_linked iter) as [i|] eqn:El.
  - destruct Hp as (n & Hn & Hk & Hi). exists iter. unfold chained. rewrite (load_ok _ _ n) by (done || lia). cbn [mbind res_bind]. rewrite Hn. simpl.
    destruct (lookup_lt_is_Some_2 (next n) i Hi) as [e He]. rewrite He. rewrite (drop_S _ e) by done. simpl. split_and!; [done| |done].
    split; [done|]. rewrite El. eauto.
  - destruct (iter_seek_spec (seek_fuel h (it_cur iter)) (it_cur iter)) as (c & -> & Hr & He & Hu); [done|unfold seek_fuel; lia|]. cbn [mbind res_bind].
    rewrite <- He. destruct (Z.ltb_spec c (arraySize h)).
    + destruct Hu as (n & Hn & Hk); [done|]. rewrite (load_ok _ _ n) by (done || lia). cbn [mbind res_bind]. exists (mk_iter c None).
      rewrite (drop_S _ n) by done. rewrite entries_cons, bucket_used by done. split_and!; [done|split; [simpl; lia|done]|].
      unfold remaining. simpl. rewrite El. done.
    + rewrite drop_ge by lia. exists (mk_iter c None). split_and!; [done|split; [simpl; lia|done]|]. unfold remaining. simpl. by rewrite El.
Qed.

Lemma next_spec iter :
  points iter -> exists iter', hashmap_iterator_next h iter = Ok (iter', from_option key 0 (head (remaining iter))) /\
    points iter' /\ remaining iter' = tail (remaining iter).
Proof.
  intros [Hc Hp]. pose proof (w_length _ _ _ h Hwf) as Hl. pose proof (w_size _ _ _ h Hwf) as Hs.
  unfold hashmap_iterator_next. destruct (cur_linked iter) as [i|] eqn:El.
  - destruct Hp as (n & Hn & Hk & Hi). apply lookup_lt_Some in Hn as Hlt. assert (remaining iter = drop i (next n) ++ entries (drop (S (Z.to_nat (it_cur iter))) (array h))) as ->.
    { unfold remaining. by rewrite El, Hn. }
    rewrite (load_ok _ _ n) by (done || lia). cbn [mbind res_bind]. destruct (next n) as [|e0 l] eqn:En; [simpl in Hi; lia|].
    unfold chained. rewrite (load_ok _ _ n) by (done || lia). cbn [mbind res_bind]. rewrite En.
    destruct (lookup_lt_is_Some_2 (e0 :: l) i Hi) as [e He]. rewrite He, (drop_S _ e) by done. cbn [mbind res_bind head app tail from_option option_map].
    destruct ((e0 :: l) !! S i) as [e'|] eqn:Ei.
    + exists (mk_iter (it_cur iter) (Some (S i))). apply lookup_lt_Some in Ei. split_and!; [done| |].
      * split; [done|]. simpl. exists n. rewrite En. done.
      * unfold remaining. simpl cur_linked. simpl it_cur. rewrite Hn. simpl. by rewrite En.
    + rewrite chk_ok by (unfold in_int, int_min, int_max; lia). cbn [mbind res_bind]. exists (mk_iter (it_cur iter + 1) None). split_and!; [done| |].
      * split; [simpl; lia|done].
      * unfold remaining. simpl cur_linked. simpl it_cur. apply lookup_ge_None in Ei. rewrite (drop_ge (e0 :: l) (S i)) by done. simpl. do 2 f_equal. lia.
  - assert (remaining iter = entries (drop (Z.to_nat (it_cur iter)) (array h))) as Hrem by (unfold remaining; by rewrite El). rewrite Hrem.
    destruct (iter_seek_spec (seek_fuel h (it_cur iter)) (it_cur iter)) as (c & -> & Hr & He & Hu); [done|unfold seek_fuel; lia|]. cbn [mbind res_bind].
    rewrite <- He. destruct (Z.eqb_spec (arraySize h) c) as [Ec|Ec].
    { exists (mk_iter c None). rewrite (drop_ge (array h)) by lia. split_and!; [done|split; [simpl; lia|done]|]. unfold remaining. simpl. by rewrite drop_ge by lia. }
    destruct Hu as (n & Hn & Hk); [lia|]. rewrite (load_ok _ _ n) by (done || lia). cbn [mbind res_bind].
    rewrite (drop_S _ n) by done. rewrite entries_cons, bucket_used by done. cbn [head app tail from_option option_map]. destruct (next n) as [|e l] eqn:En.
    + rewrite chk_ok by (unfold in_int, int_min, int_max; lia). cbn [mbind res_bind]. exists (mk_iter (c + 1) None). split_and!; [done|split; [simpl; lia|done]|].
      unfold remaining. simpl. do 2 f_equal. lia.
    + exists (mk_iter c (Some O)). split_and!; [done| |].
      * split; [simpl; lia|]. simpl. exists n. rewrite En. split_and!; [done|done|simpl; lia].
      * unfold remaining. simpl cur_linked. simpl it_cur. rewrite Hn. simpl. by rewrite En.
Qed.

Lemma for_each_spec fuel iter :
  points iter -> (List.length (remaining iter) < fuel)%nat -> (forall e, e ∈ remaining iter -> e ∈ entries (array h)) ->
  for_each fuel h iter = Ok ((fun e => (key e, val e)) <$> remaining iter).
Proof.
  revert iter. induction fuel as [|fuel IH]; intros iter Hp Hf Hin; [lia|]. simpl. unfold hashmap_iterator_has_next, hashmap_iterator_peek_value.
  destruct (peek_spec iter Hp) as (i1 & -> & Hp1 & Hr1). cbn [mbind res_bind]. destruct (remaining iter) as [|e l] eqn:El; [done|]. simpl from_option.
  assert (key e <> 0) as Hk by (apply (entry_key iter); [rewrite El; left|done]). rewrite (proj2 (Z.eqb_neq _ _)) by done. simpl negb. cbn iota.
  destruct (peek_spec i1 Hp1) as (i2 & -> & Hp2 & Hr2). cbn [mbind res_bind]. rewrite Hr1. simpl from_option.
  rewrite (get_spec f cmp repr h) by done. rewrite (map_lookup_entry f cmp repr h) by (done || (apply Hin; left)). cbn [mbind res_bind].
  destruct (next_spec i2 Hp2) as (i3 & -> & Hp3 & Hr3). cbn [mbind res_bind]. rewrite Hr2, Hr1 in *. simpl in Hr3 |- *. simpl in Hf.
  rewrite IH; [by rewrite Hr3|done|rewrite Hr3; lia|]. rewrite Hr3. intros x Hx. apply Hin. by right.
Qed.
End iter.

Lemma visits_all (f : Z -> Z) (cmp : Z -> Z -> Z) (repr : Z -> Z) (h : hashmap_t) :
  KeyLaws f cmp repr -> wf f cmp repr h ->
  exists l, for_each (S (Z.to_nat (count h))) h (hashmap_iterator h) = Ok l /\ NoDup (repr <$> l.*1) /\
    map_of repr h = list_to_map ((fun kv => (repr kv.1, kv.2)) <$> l) /\ Z.of_nat (List.length l) = count h.
Proof.
  intros Hk Hwf. exists ((fun e => (key e, val e)) <$> entries (array h)). pose proof (w_count _ _ _ h Hwf) as Hc. pose proof (w_size _ _ _ h Hwf).
  assert (remaining h (hashmap_iterator h) = entries (array h)) as Hr by done. split_and!.
  - rewrite <- Hr. apply (for_each_spec f cmp repr h Hwf); [split; [simpl; lia|done]|rewrite Hr; lia|by rewrite Hr].
  - pose proof (w_nodup _ _ _ h Hwf) as Hn. by rewrite <- !list_fmap_compose in *.
  - unfold map_of. f_equal. by rewrite <- list_fmap_compose.
  - rewrite length_fmap. lia.
Qed.

(** C20: After any history of up to 32767 calls on a new map, a loop over the iterator ends
    after as many rounds as there are entries and visits every key of the map exactly
    once, with its value. *)
Theorem iterator_visits_all (f : Z -> Z) (cmp : Z -> Z -> Z) (repr : Z -> Z) (capacity : Z) (cs : list command) :
  KeyLaws f cmp repr -> 0 < capacity <= 2 ^ 17 -> Z.of_nat (List.length cs) <= 32767 ->
  exists h rs l, exec_all exec cs (hashmap_new f cmp capacity) = Ok (h, rs) /\
    for_each (S (Z.to_nat (hashmap_count h))) h (hashmap_iterator h) = Ok l /\ NoDup (repr <$> l.*1) /\
    (apply_all (apply_map repr) cs ∅).1 = list_to_map ((fun kv => (repr kv.1, kv.2)) <$> l) /\ Z.of_nat (List.length l) = hashmap_count h.
Proof.
  intros Hk Hcap Hcs. destruct (hashmap_history f cmp repr capacity cs Hk Hcap Hcs) as (h & E & [Hwf _] & Hm & _).
  destruct (visits_all f cmp repr h Hk Hwf) as (l & El & Hn & Hl & Hc). eexists h, _, l. split_and!; [exact E|done|done| |done]. by rewrite <- Hl.
Qed.

(** Three entries in one slot. *)
Lemma iterator_visits_all_witness :
  let cs := [Put 5 50; Put 6 60; Put 7 70; Put (-5) 51; Remove 6; Put 8 80] in
  exists h rs l, exec_all exec cs (hashmap_new (fun _ => 3) (fun x y => Z.abs x - Z.abs y) 8) = Ok (h, rs) /\
    for_each (S (Z.to_nat (hashmap_count h))) h (hashmap_iterator h) = Ok l /\ NoDup (Z.abs <$> l.*1) /\
    (apply_all (apply_map Z.abs) cs ∅).1 = list_to_map ((fun kv => (Z.abs kv.1, kv.2)) <$> l) /\ Z.of_nat (List.length l) = hashmap_count h.
Proof. intros cs. apply (iterator_visits_all (fun _ => 3) (fun x y => Z.abs x - Z.abs y) Z.abs 8 cs); [split; lia|lia|simpl; lia]. Defined.
End LLIter.
