(* ===== verification/Atlas.v ===== *)
(** * The texture atlas (src/PUTs/08texture-atlas/texture_atlas.c)

    The nodes of the tree lie in a store; a pointer is the place of a node plus one,
    and 0 is [NULL].  The textures are found again through the chained hash map.
    [calloc] is taken to succeed, and pixels are written through a callback whose
    calls are recorded.  [insert] is given fuel for the depth of the tree. *)

From S2P Require Import Prelude Double History LLHashmap.
From Stdlib Require Import SpecFloat.
Import LLHashmap.

Module Atlas.

Record rect_t := mk_rect { rx : Z; ry : Z; rw : Z; rh : Z }.
Record texture_t := mk_texture { kid0 : Z; kid1 : Z; rect : rect_t; id : Z }.

(** A call of [write_pixels_to_texture_cb]. *)
Record write := mk_write { w_pixels : Z; w_rect : rect_t; w_texture : Z }.

Record atlas_t := mk_atlas {
  textures : hashmap_t;
  nodes : list texture_t;
  root : Z;
  ntextures : Z;
  texture_handle : Z;
  write_cb : bool
}.

(** The hash of a key that passes the assertion in it: as a [long] the key is not negative. *)
Definition ulong_hash (e : Z) : Z := e.
Definition ulong_hash_assert (e : Z) : res unit := if e <? 2 ^ 63 then Ok tt else Exit 134.
Definition ulong_compare (e1 e2 : Z) : Z := e1 - e2.

Definition calloc_texture : texture_t := mk_texture 0 0 (mk_rect 0 0 0 0) 0.

(** [create_texture_cb] is a parameter, or [NULL]. *)
Definition ren_texture_atlas_init (width : Z) (write_pixels : bool) (create_texture_cb : option (Z -> Z -> Z)) : atlas_t :=
  let r := mk_rect 0 0 width width in
  mk_atlas (hashmap_new ulong_hash ulong_compare 11) [mk_texture 0 0 r 0] 1 0
    match create_texture_cb with Some create => create (rw r) (rh r) | None => 0 end write_pixels.

Definition deref (s : list texture_t) (p : Z) : res texture_t := load s (p - 1).

Definition set_node (s : list texture_t) (p : Z) (t : texture_t) : list texture_t := <[Z.to_nat (p - 1) := t]> s.

(** The two parts a rectangle is cut into for a texture of [w] times [h]. *)
Definition subdivide (r : rect_t) (w h : Z) : res (rect_t * rect_t) :=
  dw ← chk (rw r - w);
  dh ← chk (rh r - h);
  if dh <? dw then x ← chk (rx r + w); Ok (mk_rect (rx r) (ry r) w (rh r), mk_rect x (ry r) dw (rh r))
  else y ← chk (ry r + h); Ok (mk_rect (rx r) (ry r) (rw r) h, mk_rect (rx r) y (rw r) dh).

Fixpoint insert (fuel : nat) (s : list texture_t) (p w h new_id : Z) : res (list texture_t * Z) :=
  match fuel with
  | O => OutOfFuel
  | S fuel =>
      if p =? 0 then Exit 134
      else
        tex ← deref s p;
        if negb (kid0 tex =? 0) then
          '(s, new) ← insert fuel s (kid0 tex) w h new_id;
          if negb (new =? 0) then Ok (s, new) else insert fuel s (kid1 tex) w h new_id
        else if (rw (rect tex) =? w) && (rh (rect tex) =? h) && (id tex =? 0) then
          if kid1 tex =? 0 then Ok (set_node s p (mk_texture 0 0 (rect tex) new_id), p) else Exit 134
        else if (rw (rect tex) <? w) || (rh (rect tex) <? h) || negb (id tex =? 0) then Ok (s, 0)
        else if kid1 tex =? 0 then
          '(r0, r1) ← subdivide (rect tex) w h;
          let n := Z.of_nat (List.length s) in
          let s := set_node s p (mk_texture (n + 1) (n + 2) (rect tex) (id tex)) ++ [mk_texture 0 0 r0 0; mk_texture 0 0 r1 0] in
          insert fuel s (n + 1) w h new_id
        else Exit 134
  end.

(** Enough fuel for any path and two more nodes. *)
Definition insert_fuel (s : list texture_t) : nat := S (S (S (List.length s))).

Definition ren_texture_atlas_push_pixels (at_ : atlas_t) (pixel_data w h : Z) : res (atlas_t * list write * Z) :=
  new_id ← chk (ntextures at_ + 1);
  '(s, tex) ← insert (insert_fuel (nodes at_)) (nodes at_) (root at_) w h new_id;
  if tex =? 0 then Ok (mk_atlas (textures at_) s (root at_) (ntextures at_) (texture_handle at_) (write_cb at_), [], 0)
  else
    _ ← ulong_hash_assert new_id;
    '(ts, _) ← hashmap_put 2 (textures at_) new_id tex;
    t ← deref s tex;
    Ok (mk_atlas ts s (root at_) new_id (texture_handle at_) (write_cb at_),
        if write_cb at_ then [mk_write pixel_data (rect t) (texture_handle at_)] else [], new_id).

(** [hashmap_get], which hashes the key unless the map is empty or the key is 0. *)
Definition get_texture (at_ : atlas_t) (texid : Z) : res Z :=
  _ ← (if (hashmap_count (textures at_) =? 0) || (texid =? 0) then Ok tt else ulong_hash_assert texid);
  hashmap_get (textures at_) texid.

Definition ren_texture_atlas_contains_texid (at_ : atlas_t) (texid : Z) : res bool :=
  p ← get_texture at_ texid; Ok (negb (p =? 0)).

(** The coordinates of a texture, as parts of the whole. *)
Definition ren_texture_atlas_get_coords_from_texid (at_ : atlas_t) (texid : Z) : res ((spec_float * spec_float) * (spec_float * spec_float)) :=
  found ← ren_texture_atlas_contains_texid at_ texid;
  if found : bool then
    p ← get_texture at_ texid;
    tex ← deref (nodes at_) p;
    rt ← deref (nodes at_) (root at_);
    let part a b := fdiv (float_of_Z a) (float_of_Z b) in
    let b0 := part (rx (rect tex)) (rh (rect rt)) in
    let b1 := part (ry (rect tex)) (rh (rect rt)) in
    Ok ((b0, b1), (SFadd 24 128 b0 (part (rw (rect tex)) (rw (rect rt))), SFadd 24 128 b1 (part (rh (rect tex)) (rh (rect rt)))))
  else Exit 134.

Definition ren_texture_atlas_get_texture (at_ : atlas_t) : Z := texture_handle at_.
Definition ren_texture_atlas_get_ntextures (at_ : atlas_t) : Z := ntextures at_.

(** ** Rectangles *)

Definition inside (r : rect_t) (s : rect_t) : Prop :=
  rx s <= rx r /\ ry s <= ry r /\ rx r + rw r <= rx s + rw s /\ ry r + rh r <= ry s + rh s.

Definition disjoint (r s : rect_t) : Prop :=
  rx r + rw r <= rx s \/ rx s + rw s <= rx r \/ ry r + rh r <= ry s \/ ry s + rh s <= ry r.

Definition leaf (t : texture_t) : Prop := kid0 t = 0.

(** A free leaf that is large enough. *)
Definition fits (w h : Z) (t : texture_t) : Prop := leaf t /\ id t = 0 /\ w <= rw (rect t) /\ h <= rh (rect t).

#[global] Instance leaf_dec t : Decision (leaf t).
Proof. unfold leaf. apply _. Defined.
#[global] Instance fits_dec w h t : Decision (fits w h t).
Proof. unfold fits. apply _. Defined.

Definition kids_ok (n i : Z) (t : texture_t) : Prop :=
  (kid0 t = 0 /\ kid1 t = 0) \/ (i + 1 < kid0 t <= n /\ i + 1 < kid1 t <= n /\ id t = 0).

Definition rect_ok (W : Z) (r : rect_t) : Prop := 0 < rw r /\ 0 < rh r /\ inside r (mk_rect 0 0 W W).

Record wf_nodes (W : Z) (s : list texture_t) : Prop := {
  wn_kids : forall i t, s !! i = Some t -> kids_ok (Z.of_nat (List.length s)) (Z.of_nat i) t;
  wn_rect : forall i t, s !! i = Some t -> rect_ok W (rect t);
  wn_disjoint : forall i j t u, s !! i = Some t -> s !! j = Some u -> i <> j -> leaf t -> leaf u -> disjoint (rect t) (rect u)
}.

(** ** Reachability *)

Definition edge (s : list texture_t) (p q : Z) : Prop := exists t, s !! Z.to_nat (p - 1) = Some t /\ kid0 t <> 0 /\ (q = kid0 t \/ q = kid1 t).

Inductive reach (s : list texture_t) : Z -> Z -> Prop :=
| reach_refl p : reach s p p
| reach_step p q r : edge s p q -> reach s q r -> reach s p r.

Lemma reach_mono s s' p q : (forall a b, edge s a b -> edge s' a b) -> reach s p q -> reach s' p q.
Proof. intros He. induction 1 as [|p q r Hpq _ IH]; [constructor|]. econstructor; [by apply He|done]. Qed.

Lemma reach_trans s p q r : reach s p q -> reach s q r -> reach s p r.
Proof. intros H1 H2. induction H1 as [|a b c Hab _ IH]; [done|]. apply (reach_step _ a b); auto. Qed.

(** Every node hangs below the root. *)
Definition connected (s : list texture_t) : Prop := forall i, (i < List.length s)%nat -> reach s 1 (Z.of_nat i + 1).

Lemma lookup_set_node s p t i :
  1 <= p <= Z.of_nat (List.length s) ->
  set_node s p t !! i = if decide (Z.of_nat i = p - 1) then Some t else s !! i.
Proof.
  intros Hp. unfold set_node. case_decide as E.
  - replace i with (Z.to_nat (p - 1)) by lia. apply list_lookup_insert_eq. lia.
  - apply list_lookup_insert_ne. lia.
Qed.

(** ** What a call changes *)

(** Nodes of textures stay, and the only new one is [q]. *)
Record placed (w h new_id : Z) (s s' : list texture_t) (q : Z) : Prop := {
  pl_range : 1 <= q <= Z.of_nat (List.length s');
  pl_node : exists r, s' !! Z.to_nat (q - 1) = Some (mk_texture 0 0 r new_id) /\ rw r = w /\ rh r = h;
  pl_old : forall i t, s !! i = Some t -> id t <> 0 -> s' !! i = Some t;
  pl_new : forall i t, s' !! i = Some t -> id t <> 0 -> Z.of_nat i = q - 1 \/ s !! i = Some t;
  pl_root : rect <$> s' !! 0%nat = rect <$> s !! 0%nat;
  pl_edges : forall a b, edge s a b -> edge s' a b;
  pl_connected : connected s -> connected s'
}.

(** A leaf gets its texture. *)
Lemma place_leaf W w h new_id s p t :
  wf_nodes W s -> 1 <= p <= Z.of_nat (List.length s) -> s !! Z.to_nat (p - 1) = Some t -> leaf t -> id t = 0 ->
  rw (rect t) = w -> rh (rect t) = h ->
  let s' := set_node s p (mk_texture 0 0 (rect t) new_id) in wf_nodes W s' /\ placed w h new_id s s' p.
Proof.
  intros [H1 H2 H3] Hp Ht Hl Hi Hw Hh s'. assert (List.length s' = List.length s) as El by apply length_insert.
  assert (forall i u, s' !! i = Some u -> exists v, s !! i = Some v /\ rect u = rect v /\ kid0 u = kid0 v /\
    ((i = Z.to_nat (p - 1) /\ u = mk_texture 0 0 (rect t) new_id) \/ u = v)) as Hlook.
  { intros i u. unfold s'. rewrite lookup_set_node by done. case_decide as E; [|by eauto 10].
    intros [= <-]. replace i with (Z.to_nat (p - 1)) by lia. exists t. split_and!; [done|done|by rewrite Hl|by left]. }
  assert (forall a b, edge s a b -> edge s' a b) as Hedge.
  { intros a b (u & Hu & Hk & Hb). exists u. split; [|done]. unfold s'. rewrite lookup_set_node by done. case_decide as E; [|done].
    exfalso. apply Hk. replace (Z.to_nat (a - 1)) with (Z.to_nat (p - 1)) in Hu by lia. congruence. }
  split; split.
  - intros i u (v & Hv & _ & _ & [[_ ->] | ->])%Hlook; [by left|]. rewrite El. by apply H1.
  - intros i u (v & Hv & -> & _)%Hlook. by eapply H2.
  - intros i j u v (u' & Hu & -> & Eu & _)%Hlook (v' & Hv & -> & Ev & _)%Hlook Hij Hlu Hlv. unfold leaf in *. eapply (H3 i j); unfold leaf; congruence.
  - by rewrite El.
  - exists (rect t). unfold s'. rewrite lookup_set_node, decide_True by lia. done.
  - intros i u Hu Hid. unfold s'. rewrite lookup_set_node by done. case_decide as E; [|done]. replace i with (Z.to_nat (p - 1)) in Hu by lia. congruence.
  - intros i u. unfold s'. rewrite lookup_set_node by done. case_decide; [by left|by right].
  - unfold s'. rewrite lookup_set_node by done. case_decide as E; [|done]. replace (Z.to_nat (p - 1)) with 0%nat in Ht by lia. by rewrite Ht.
  - done.
  - intros Hc i Hi'. rewrite El in Hi'. eapply reach_mono; [exact Hedge|]. by apply Hc.
Qed.

(** A leaf is cut in two. *)
Definition split_leaf (s : list texture_t) (p : Z) (t : texture_t) (r0 r1 : rect_t) : list texture_t :=
  let n := Z.of_nat (List.length s) in
  set_node s p (mk_texture (n + 1) (n + 2) (rect t) (id t)) ++ [mk_texture 0 0 r0 0; mk_texture 0 0 r1 0].

Record parts (W : Z) (r r0 r1 : rect_t) : Prop := {
  pa_0 : rect_ok W r0 /\ inside r0 r;
  pa_1 : rect_ok W r1 /\ inside r1 r;
  pa_disjoint : disjoint r0 r1
}.

Lemma inside_disjoint r r' s : inside r' r -> disjoint r s -> disjoint r' s.
Proof. unfold inside, disjoint. lia. Qed.

Lemma disjoint_sym r s : disjoint r s -> disjoint s r.
Proof. unfold disjoint. lia. Qed.

Lemma lookup_split s p t r0 r1 i u :
  1 <= p <= Z.of_nat (List.length s) -> s !! Z.to_nat (p - 1) = Some t -> split_leaf s p t r0 r1 !! i = Some u ->
  (i = Z.to_nat (p - 1) /\ u = mk_texture (Z.of_nat (List.length s) + 1) (Z.of_nat (List.length s) + 2) (rect t) (id t)) \/
  (i <> Z.to_nat (p - 1) /\ s !! i = Some u) \/
  (i = List.length s /\ u = mk_texture 0 0 r0 0) \/ (i = S (List.length s) /\ u = mk_texture 0 0 r1 0).
Proof.
  intros Hp Ht Hu. unfold split_leaf in Hu. assert (List.length (set_node s p (mk_texture (Z.of_nat (List.length s) + 1) (Z.of_nat (List.length s) + 2) (rect t) (id t))) = List.length s) as El by apply length_insert.
  destruct (decide (i < List.length s)%nat).
  - rewrite lookup_app_l in Hu by lia. rewrite lookup_set_node in Hu by done. case_decide; [left|right; left].
    + split; [lia|congruence].
    + split; [lia|done].
  - rewrite lookup_app_r, El in Hu by lia. destruct (decide (i = List.length s)) as [->|]; [rewrite Nat.sub_diag in Hu; injection Hu as <-; auto|].
    destruct (decide (i = S (List.length s))) as [->|]; [replace (S (List.length s) - List.length s)%nat with 1%nat in Hu by lia; injection Hu as <-; auto|].
    apply lookup_lt_Some in Hu. simpl in Hu. lia.
Qed.

Lemma length_split s p t r0 r1 : List.length (split_leaf s p t r0 r1) = S (S (List.length s)).
Proof. unfold split_leaf, set_node. rewrite length_app, length_insert. simpl. lia. Qed.

Section split.
Context (W : Z) (s : list texture_t) (p : Z) (t : texture_t) (r0 r1 : rect_t).
Context (Hwf : wf_nodes W s) (Hp : 1 <= p <= Z.of_nat (List.length s)) (Ht : s !! Z.to_nat (p - 1) = Some t).
Context (Hleaf : leaf t) (Hid : id t = 0) (Hparts : parts W (rect t) r0 r1).
Local Abbreviation s' := (split_leaf s p t r0 r1).

Lemma split_lookup_old i : i <> Z.to_nat (p - 1) -> (i < List.length s)%nat -> s' !! i = s !! i.
Proof.
  intros Hi Hl. unfold split_leaf. rewrite lookup_app_l by (unfold set_node; rewrite length_insert; lia).
  rewrite lookup_set_node, decide_False by lia. done.
Qed.

Lemma split_lookup_parent : s' !! Z.to_nat (p - 1) = Some (mk_texture (Z.of_nat (List.length s) + 1) (Z.of_nat (List.length s) + 2) (rect t) (id t)).
Proof.
  unfold split_leaf. rewrite lookup_app_l by (unfold set_node; rewrite length_insert; lia). by rewrite lookup_set_node, decide_True by lia.
Qed.

Lemma split_lookup_first : s' !! List.length s = Some (mk_texture 0 0 r0 0).
Proof. unfold split_leaf, set_node. rewrite lookup_app_r by (rewrite length_insert; lia). by rewrite length_insert, Nat.sub_diag. Qed.

Lemma split_wf : wf_nodes W s'.
Proof.
  destruct Hwf as [H1 H2 H3]. destruct Hparts as [[P0 I0] [P1 I1] D]. split.
  - intros i u Hu. rewrite length_split. apply lookup_lt_Some in Hu as Hlt. apply lookup_split in Hu as [[-> ->]|[[_ Hu]|[[-> ->]|[-> ->]]]]; try done; [| |by left|by left].
    + right. simpl. lia.
    + destruct (H1 i u Hu) as [E|E]; [by left|right; lia].
  - intros i u Hu. apply lookup_split in Hu as [[-> ->]|[[_ Hu]|[[-> ->]|[-> ->]]]]; try done; [by apply (H2 (Z.to_nat (p - 1)) t)|by eapply H2].
  - assert (forall i u r, s !! i = Some u -> i <> Z.to_nat (p - 1) -> leaf u -> inside r (rect t) -> disjoint r (rect u)) as Hd.
    { intros i u r Hu Hi Hlu Hr. eapply inside_disjoint; [exact Hr|]. by eapply (H3 (Z.to_nat (p - 1)) i). }
    intros i j u v Hu Hv Hij Hlu Hlv.
    apply lookup_split in Hu as [[-> ->]|[[Hi Hu]|[[-> ->]|[-> ->]]]]; try done; [unfold leaf in Hlu; simpl in Hlu; lia|..];
    (apply lookup_split in Hv as [[-> ->]|[[Hj Hv]|[[-> ->]|[-> ->]]]]; try done; [unfold leaf in Hlv; simpl in Hlv; lia|..]); simpl; eauto using disjoint_sym.
Qed.

Lemma split_edges a b : edge s a b -> edge s' a b.
Proof.
  intros (u & Hu & Hk & Hb). exists u. split; [|done]. apply lookup_lt_Some in Hu as Hlt.
  rewrite split_lookup_old; [done| |done]. intros E. rewrite E in Hu. apply Hk. unfold leaf in Hleaf. congruence.
Qed.

Lemma split_connected : connected s -> connected s'.
Proof.
  intros Hc i Hi. rewrite length_split in Hi.
  assert (forall j, (j < List.length s)%nat -> reach s' 1 (Z.of_nat j + 1)) as Hold by (intros j Hj; eapply reach_mono; [exact split_edges|by apply Hc]).
  destruct (decide (i < List.length s)%nat); [by apply Hold|]. apply (reach_trans _ _ p).
  - specialize (Hold (Z.to_nat (p - 1)) ltac:(lia)). by replace (Z.of_nat (Z.to_nat (p - 1)) + 1) with p in Hold by lia.
  - apply (reach_step _ _ (Z.of_nat i + 1)); [|constructor]. eexists. split; [apply split_lookup_parent|]. simpl. lia.
Qed.

Lemma split_placed w h new_id s'' q : placed w h new_id s' s'' q -> placed w h new_id s s'' q.
Proof.
  intros [Q1 Q2 Q3 Q4 Q5 Q6 Q7]. split; [done|done|..].
  - intros i u Hu Hiu. apply Q3; [|done]. apply lookup_lt_Some in Hu as Hlt. rewrite split_lookup_old; [done| |done]. intros E. rewrite E in Hu. congruence.
  - intros i u Hu Hiu. destruct (Q4 i u Hu Hiu) as [E|E]; [by left|]. right. by apply lookup_split in E as [[-> ->]|[[_ E]|[[-> ->]|[-> ->]]]].
  - rewrite Q5. destruct (decide (Z.to_nat (p - 1) = 0%nat)) as [E|E].
    + pose proof split_lookup_parent as Hpar. rewrite E in Hpar, Ht. by rewrite Hpar, Ht.
    + rewrite split_lookup_old; [done|done|lia].
  - intros a b Hab. by apply Q6, split_edges.
  - intros Hc. by apply Q7, split_connected.
Qed.
End split.

(** The parts of a rectangle that is too large. *)
Lemma subdivide_ok W w h r :
  W <= int_max -> rect_ok W r -> 0 < w <= rw r -> 0 < h <= rh r -> rw r <> w \/ rh r <> h ->
  exists r0 r1, subdivide r w h = Ok (r0, r1) /\ parts W r r0 r1 /\ w <= rw r0 /\ h <= rh r0 /\ (rw r0 = w \/ rh r0 = h) /\
    (rw r = w \/ rh r = h -> rw r0 = w /\ rh r0 = h).
Proof.
  intros HW (Hw0 & Hh0 & Hi) Hw Hh Hne. unfold inside in Hi. simpl in Hi. unfold subdivide.
  rewrite !chk_ok by (unfold in_int, int_min, int_max in *; lia). cbn [mbind res_bind].
  destruct (Z.ltb_spec (rh r - h) (rw r - w)); eexists _, _;
    (split; [done|]); simpl; (split; [split; unfold rect_ok, inside, disjoint; simpl; lia|lia]).
Qed.

(** ** Inserting *)

Section insert.
Context (W w h new_id : Z) (HW : W <= int_max) (Hw : 0 < w) (Hh : 0 < h).

(** The calls it takes at a leaf that fits. *)
Definition need (r : rect_t) : nat :=
  if (rw r =? w) && (rh r =? h) then 1 else if (rw r =? w) || (rh r =? h) then 2 else 3.

Lemma insert_fits fuel s p t :
  wf_nodes W s -> 1 <= p <= Z.of_nat (List.length s) -> s !! Z.to_nat (p - 1) = Some t -> fits w h t -> (need (rect t) <= fuel)%nat ->
  exists s' q, insert fuel s p w h new_id = Ok (s', q) /\ q <> 0 /\ wf_nodes W s' /\ placed w h new_id s s' q.
Proof.
  revert s p t. induction fuel as [|fuel IH]; intros s p t Hwf Hp Ht (Hl & Hi & Hfw & Hfh) Hn.
  { unfold need in Hn. revert Hn. repeat case_if; lia. }
  assert (kid1 t = 0) as Hk1 by (destruct (wn_kids _ _ Hwf _ _ Ht) as [E|E]; unfold leaf in Hl; lia). pose proof Hl as Hk0. unfold leaf in Hk0.
  simpl. rewrite (proj2 (Z.eqb_neq p 0)) by lia. unfold deref. rewrite (load_ok _ _ t) by (done || lia). cbn [mbind res_bind].
  rewrite Hk0, Hk1, Hi. simpl negb. cbn iota. rewrite andb_true_r. unfold need in Hn. destruct ((rw (rect t) =? w) && (rh (rect t) =? h)) eqn:E.
  { apply andb_true_iff in E as [Ew%Z.eqb_eq Eh%Z.eqb_eq]. eexists _, p. split; [done|]. split; [lia|]. by apply place_leaf. }
  rewrite (proj2 (Z.ltb_ge (rw (rect t)) w)), (proj2 (Z.ltb_ge (rh (rect t)) h)) by lia. simpl orb. cbn iota.
  assert (rw (rect t) <> w \/ rh (rect t) <> h) as Hne.
  { apply andb_false_iff in E as [E|E]; apply Z.eqb_neq in E; auto. }
  destruct (subdivide_ok W w h (rect t)) as (r0 & r1 & Es & Hpa & Hr0 & Hr0' & Hone & Hboth); [done|by apply (wn_rect _ _ Hwf _ _ Ht)|lia|lia|done|].
  rewrite Es. cbn [mbind res_bind].
  match goal with |- context [insert fuel ?x] => replace x with (split_leaf s p t r0 r1) by (unfold split_leaf; by rewrite Hi) end.
  destruct (IH (split_leaf s p t r0 r1) (Z.of_nat (List.length s) + 1) (mk_texture 0 0 r0 0)) as (s' & q & Eq & Hq & Hwf' & Hpl).
  - by apply split_wf.
  - rewrite length_split. lia.
  - replace (Z.to_nat _) with (List.length s) by lia. apply split_lookup_first.
  - done.
  - simpl rect. unfold need. destruct (Z.eqb_spec (rw (rect t)) w), (Z.eqb_spec (rh (rect t)) h); simpl in Hn;
      destruct (Z.eqb_spec (rw r0) w), (Z.eqb_spec (rh r0) h); simpl; lia.
  - exists s', q. split_and!; [done|done|done|by eapply split_placed].
Qed.

(** The first free leaf below [p] that is large enough takes the texture; without one
    nothing changes. *)
Lemma atlas_insert_spec fuel s p :
  wf_nodes W s -> 1 <= p <= Z.of_nat (List.length s) -> Z.of_nat (List.length s) - p + 3 <= Z.of_nat fuel ->
  exists s' q, insert fuel s p w h new_id = Ok (s', q) /\
    ((q = 0 /\ s' = s /\ (forall r t, reach s p r -> s !! Z.to_nat (r - 1) = Some t -> ~ fits w h t)) \/
     (q <> 0 /\ wf_nodes W s' /\ placed w h new_id s s' q /\ exists r t, reach s p r /\ s !! Z.to_nat (r - 1) = Some t /\ fits w h t)).
Proof.
  intros Hwf. revert p. induction fuel as [|fuel IH]; intros p Hp Hf; [lia|].
  destruct (lookup_lt_is_Some_2 s (Z.to_nat (p - 1))) as [t Ht]; [lia|]. destruct (decide (fits w h t)) as [Hfit|Hfit].
  { destruct (insert_fits (S fuel) s p t) as (s' & q & E & Hq & Hwf' & Hpl); try done; [unfold need; repeat case_if; lia|].
    exists s', q. split; [done|]. right. split_and!; [done|done|done|]. exists p, t. split_and!; [constructor|done|done]. }
  simpl. rewrite (proj2 (Z.eqb_neq p 0)) by lia. unfold deref. rewrite (load_ok _ _ t) by (done || lia). cbn [mbind res_bind].
  destruct (decide (leaf t)) as [Hl|Hl].
  - pose proof Hl as Hk0. unfold leaf in Hk0. rewrite Hk0. simpl negb. cbn iota. exists s, 0. split.
    + unfold fits in Hfit. destruct (Z.eqb_spec (rw (rect t)) w), (Z.eqb_spec (rh (rect t)) h), (Z.ltb_spec (rw (rect t)) w), (Z.ltb_spec (rh (rect t)) h), (Z.eqb_spec (id t) 0);
        simpl; try done; exfalso; apply Hfit; split_and!; (done || lia).
    + left. split_and!; [done|done|]. intros r u Hr Hu. inversion Hr as [|p' q' r' (v & Hv & Hkv & _)]; subst; [congruence|]. simplify_eq.
  - pose proof Hl as Hk0. unfold leaf in Hk0. rewrite (proj2 (Z.eqb_neq (kid0 t) 0)) by done. simpl negb. cbn iota.
    destruct (wn_kids _ _ Hwf _ _ Ht) as [E|(K0 & K1 & _)]; [lia|].
    assert (edge s p (kid0 t) /\ edge s p (kid1 t)) as [He0 He1] by (split; exists t; auto).
    destruct (IH (kid0 t)) as (s1 & q1 & -> & [(-> & -> & Hno)|(Hq1 & H1)]); [lia|lia| |]; cbn [mbind res_bind].
    + simpl negb. cbn iota. destruct (IH (kid1 t)) as (s2 & q2 & -> & [(-> & -> & Hno')|(Hq2 & Hwf2 & Hpl2 & r & u & Hr & Hu)]); [lia|lia| |].
      * exists s, 0. split; [done|]. left. split_and!; [done|done|]. intros r u Hr Hu. inversion Hr as [|p' q' r' (v & Hv & _ & [-> | ->]) Hqr]; subst; simplify_eq; eauto.
      * exists s2, q2. split; [done|]. right. split_and!; [done|done|done|]. exists r, u. split; [|done]. by apply (reach_step _ _ (kid1 t)).
    + rewrite (proj2 (Z.eqb_neq q1 0)) by done. simpl negb. cbn iota. exists s1, q1. split; [done|]. right. destruct H1 as (Hwf1 & Hpl1 & r & u & Hr & Hu).
      split_and!; [done|done|done|]. exists r, u. split; [|done]. by apply (reach_step _ _ (kid0 t)).
Qed.
End insert.

(** ** The atlas *)

#[global] Instance ulong_laws : KeyLaws ulong_hash ulong_compare (fun k => k).
Proof. unfold ulong_hash, ulong_compare. split; lia. Qed.

Local Abbreviation texmap := (map_of (fun k => k)).

(** The textures of the atlas lie in these rectangles, in the order of their ids. *)
Record packed (W : Z) (at_ : atlas_t) (rects : list rect_t) : Prop := {
  pk_nodes : wf_nodes W (nodes at_);
  pk_connected : connected (nodes at_);
  pk_root : root at_ = 1 /\ rect <$> nodes at_ !! 0%nat = Some (mk_rect 0 0 W W);
  pk_n : ntextures at_ = Z.of_nat (List.length rects);
  pk_table : table ulong_hash ulong_compare (fun k => k) (textures at_);
  pk_size : base.size (texmap (textures at_)) = List.length rects;
  pk_found : forall i r, rects !! i = Some r -> exists p, texmap (textures at_) !! (Z.of_nat i + 1) = Some p /\ 1 <= p /\
    nodes at_ !! Z.to_nat (p - 1) = Some (mk_texture 0 0 r (Z.of_nat i + 1));
  pk_ids : forall k p, texmap (textures at_) !! k = Some p -> 1 <= k <= Z.of_nat (List.length rects)
}.

Lemma init_packed W cb create :
  0 < W -> packed W (ren_texture_atlas_init W cb create) [].
Proof.
  intros HW. destruct (empty_wf ulong_hash ulong_compare (fun k => k) 11) as [Hh Hm]; [lia|].
  assert (forall i t, [mk_texture 0 0 (mk_rect 0 0 W W) 0] !! i = Some t -> i = 0%nat /\ t = mk_texture 0 0 (mk_rect 0 0 W W) 0) as Hone.
  { intros i t Hi. apply list_lookup_singleton_Some in Hi as [-> <-]. done. }
  split; try done.
  - simpl. split.
    + intros i t [-> ->]%Hone. by left.
    + intros i t [-> ->]%Hone. unfold rect_ok, inside. simpl. lia.
    + intros i j t u [-> ->]%Hone [-> ->]%Hone. done.
  - intros i Hi. simpl in Hi. replace (Z.of_nat i + 1) with 1 by lia. constructor.
Qed.

(** Where the textures lie. *)
Lemma packed_rects W at_ rects :
  packed W at_ rects -> Forall (fun r => inside r (mk_rect 0 0 W W)) rects /\
  (forall i j r s, rects !! i = Some r -> rects !! j = Some s -> i <> j -> disjoint r s).
Proof.
  intros Hp. split.
  - apply Forall_lookup. intros i r Hr. destruct (pk_found _ _ _ Hp i r Hr) as (p & _ & _ & Hn). by apply (wn_rect _ _ (pk_nodes _ _ _ Hp)) in Hn as (_ & _ & ?).
  - intros i j r s Hr Hs Hij. destruct (pk_found _ _ _ Hp i r Hr) as (p & _ & Hp1 & Hn). destruct (pk_found _ _ _ Hp j s Hs) as (q & _ & Hq1 & Hn').
    eapply (wn_disjoint _ _ (pk_nodes _ _ _ Hp) _ _ _ _ Hn Hn'); [|done|done]. intros E. rewrite E in Hn. simplify_eq. lia.
Qed.

(** One push. *)
Lemma push_spec W at_ rects pixels w h :
  W <= int_max -> 0 < w -> 0 < h -> packed W at_ rects -> Z.of_nat (List.length rects) < 32767 ->
  exists at' ws r, ren_texture_atlas_push_pixels at_ pixels w h = Ok (at', ws, r) /\
    texture_handle at' = texture_handle at_ /\ write_cb at' = write_cb at_ /\
    ((r = 0 /\ at' = at_ /\ ws = [] /\ (forall t, t ∈ nodes at_ -> ~ fits w h t)) \/
     (r = Z.of_nat (List.length rects) + 1 /\ (exists t, t ∈ nodes at_ /\ fits w h t) /\ exists q, rw q = w /\ rh q = h /\ packed W at' (rects ++ [q]) /\
      ws = (if write_cb at_ then [mk_write pixels q (texture_handle at_)] else []))).
Proof.
  intros HW Hw Hh Hpk Hlen. pose proof Hpk as [Hn Hc [Hr Hrr] HN Ht Hsz Hf Hids]. unfold ren_texture_atlas_push_pixels.
  rewrite HN, chk_ok by (unfold in_int, int_min, int_max; lia). cbn [mbind res_bind]. rewrite Hr.
  assert (0 < List.length (nodes at_))%nat as Hpos by (destruct (nodes at_ !! 0%nat) eqn:E0; [by eapply lookup_lt_Some|done]).
  destruct (atlas_insert_spec W w h (Z.of_nat (List.length rects) + 1) HW Hw Hh (insert_fuel (nodes at_)) (nodes at_) 1)
    as (s' & q & -> & [(-> & -> & Hno)|(Hq & Hwf' & Hpl & rf & tf & _ & Hrf & Hfit)]); [done|lia|unfold insert_fuel; lia| |]; cbn [mbind res_bind].
  - eexists _, _, _. split; [done|]. split; [done|]. split; [done|]. left. split_and!; [done|by destruct at_; simpl in *; subst|done|].
    intros t [i Hi]%list_elem_of_lookup_1. apply lookup_lt_Some in Hi as Hlt. apply (Hno (Z.of_nat i + 1)); [by apply Hc|]. by replace (Z.to_nat _) with i by lia.
  - rewrite (proj2 (Z.eqb_neq q 0)) by done. unfold ulong_hash_assert. rewrite (proj2 (Z.ltb_lt _ (2 ^ 63))) by lia.
    cbn [mbind res_bind]. destruct Hpl as [Q1 (r & Hrq & Hrw & Hrh) Q3 Q4 Q5 Q6 Q7].
    assert (texmap (textures at_) !! (Z.of_nat (List.length rects) + 1) = None) as Hnone.
    { destruct (texmap (textures at_) !! (Z.of_nat (List.length rects) + 1)) as [v|] eqn:E; [|done]. apply Hids in E. lia. }
    destruct (put_spec ulong_hash ulong_compare (fun k => k) 0 (textures at_) (Z.of_nat (List.length rects) + 1) q) as (ts & -> & Hts & Hm); [done|lia|done| |].
    { rewrite <- (map_size ulong_hash ulong_compare (fun k => k)) by apply Ht. lia. }
    cbn [mbind res_bind]. unfold deref. rewrite (load_ok _ _ (mk_texture 0 0 r (Z.of_nat (List.length rects) + 1))) by (done || lia). cbn [mbind res_bind].
    eexists _, _, _. split; [done|]. split; [done|]. split; [done|]. right. split; [done|]. split; [exists tf; split; [by eapply list_elem_of_lookup_2|done]|]. exists r. split_and!; [done|done| |done].
    split; simpl; [done|by apply Q7|by rewrite Q5|rewrite length_app; simpl; lia|done|..].
    + rewrite Hm, map_size_insert_None, Hsz, length_app by done. simpl. lia.
    + intros i x Hx. rewrite Hm. destruct (decide (i < List.length rects)%nat) as [Hi|Hi].
      * rewrite lookup_app_l in Hx by done. destruct (Hf i x Hx) as (p & Hp & Hp1 & Hnp). exists p. rewrite lookup_insert_ne by lia.
        split_and!; [done|done|]. apply Q3; [done|simpl; lia].
      * rewrite lookup_app_r in Hx by lia. apply list_lookup_singleton_Some in Hx as [Hi' <-]. replace i with (List.length rects) by lia.
        exists q. rewrite lookup_insert_eq. split_and!; [done|lia|done].
    + intros k p. rewrite Hm, length_app. simpl. destruct (decide (k = Z.of_nat (List.length rects) + 1)) as [->|]; [lia|].
      rewrite lookup_insert_ne by done. intros Hk%Hids. lia.
Qed.

(** Pushes one after the other: what was written and what they returned. *)
Fixpoint push_all (at_ : atlas_t) (ps : list (Z * Z * Z)) : res (atlas_t * list write * list Z) :=
  match ps with
  | [] => Ok (at_, [], [])
  | (pixels, w, h) :: ps =>
      '(at_, ws, r) ← ren_texture_atlas_push_pixels at_ pixels w h;
      '(at_, ws', rs) ← push_all at_ ps; Ok (at_, ws ++ ws', r :: rs)
  end.

(** The pushes that were not refused. *)
Definition accepted (ps : list (Z * Z * Z)) (rs : list Z) : list (Z * Z * Z) := (filter (fun pr => pr.2 <> 0) (zip ps rs)).*1.

Definition size_of (r : rect_t) : Z * Z := (rw r, rh r).

Lemma push_all_spec W ps at_ rects :
  W <= int_max -> packed W at_ rects -> Forall (fun '(_, w, h) => 0 < w /\ 0 < h) ps -> Z.of_nat (List.length rects + List.length ps) <= 32767 ->
  exists at' ws rs new, push_all at_ ps = Ok (at', ws, rs) /\ texture_handle at' = texture_handle at_ /\ packed W at' (rects ++ new) /\
    filter (.≠ 0) rs = seqZ (Z.of_nat (List.length rects) + 1) (Z.of_nat (List.length new)) /\
    size_of <$> new = (fun p => (p.1.2, p.2)) <$> accepted ps rs /\
    ws = (if write_cb at_ then zip_with (fun p r => mk_write p.1.1 r (texture_handle at_)) (accepted ps rs) new else []).
Proof.
  intros HW. revert at_ rects. induction ps as [|[[px w] h] ps IH]; intros at_ rects Hpk Hps Hlen.
  { exists at_, [], [], []. rewrite app_nil_r. split_and!; try done. by destruct (write_cb at_). }
  apply Forall_cons in Hps as [[Hw Hh] Hps]. simpl in Hlen |- *.
  destruct (push_spec W at_ rects px w h) as (a1 & ws & r & -> & Eh & Ew & [(-> & -> & -> & _)|(-> & _ & q & Hqw & Hqh & Hpk1 & ->)]); [done|done|done|done|lia| |]; cbn [mbind res_bind].
  - destruct (IH at_ rects Hpk Hps) as (a2 & ws2 & rs & new & -> & Eh2 & Hpk2 & Hids & Hsz & Hws); [lia|]. cbn [mbind res_bind].
    exists a2, ws2, (0 :: rs), new. split_and!; [done|done|done|by rewrite filter_cons_False by lia|done|done].
  - destruct (IH a1 (rects ++ [q]) Hpk1 Hps) as (a2 & ws2 & rs & new & -> & Eh2 & Hpk2 & Hids & Hsz & Hws); [rewrite length_app; simpl; lia|]. cbn [mbind res_bind].
    eexists a2, _, _, (q :: new). rewrite <- app_assoc in Hpk2. split; [done|]. split; [congruence|]. split; [done|].
    assert (accepted ((px, w, h) :: ps) (Z.of_nat (List.length rects) + 1 :: rs) = (px, w, h) :: accepted ps rs) as Ea.
    { unfold accepted. simpl. rewrite filter_cons_True by (simpl; lia). done. }
    rewrite Ea. rewrite filter_cons_True by lia. split_and!.
    + rewrite Hids, length_app. simpl List.length. rewrite (seqZ_cons (Z.of_nat (List.length rects) + 1)) by lia. f_equal. f_equal; lia.
    + rewrite !fmap_cons, Hsz. unfold size_of. simpl. by rewrite Hqw, Hqh.
    + rewrite Hws, Ew, Eh. by destruct (write_cb at_).
Qed.

(** C21: Any pushes of up to 32767 textures are answered; those that are not refused get the
    ids 1, 2, 3, ... in turn, every id is found again, and the textures lie in
    rectangles of their own sizes that are within the atlas and do not overlap; the
    pixels of each are written to its rectangle, and nothing else is.  (An id that is no
    positive [long] fails the assertion of the hash, once there is a texture.) *)
Theorem atlas_packs (W : Z) (cb : bool) (create : option (Z -> Z -> Z)) (ps : list (Z * Z * Z)) :
  0 < W <= int_max -> Forall (fun '(_, w, h) => 0 < w /\ 0 < h) ps -> Z.of_nat (List.length ps) <= 32767 ->
  exists at_ ws rs rects, push_all (ren_texture_atlas_init W cb create) ps = Ok (at_, ws, rs) /\
    filter (.≠ 0) rs = seqZ 1 (ren_texture_atlas_get_ntextures at_) /\
    (forall k, 0 < k < 2 ^ 63 -> ren_texture_atlas_contains_texid at_ k = Ok (k <=? ren_texture_atlas_get_ntextures at_)) /\
    (forall k, 2 ^ 63 <= k -> 0 < ren_texture_atlas_get_ntextures at_ -> ren_texture_atlas_contains_texid at_ k = Exit 134) /\
    size_of <$> rects = (fun p => (p.1.2, p.2)) <$> accepted ps rs /\
    Forall (fun r => inside r (mk_rect 0 0 W W)) rects /\
    (forall i j r s, rects !! i = Some r -> rects !! j = Some s -> i <> j -> disjoint r s) /\
    ws = (if cb then zip_with (fun p r => mk_write p.1.1 r (ren_texture_atlas_get_texture at_)) (accepted ps rs) rects else []).
Proof.
  intros HW Hps Hlen. pose proof (init_packed W cb create ltac:(lia)) as Hi.
  destruct (push_all_spec W ps _ [] ltac:(lia) Hi Hps) as (a & ws & rs & rects & E & Eh & Hpk & Hids & Hsz & Hws); [simpl; lia|]. simpl in Hpk.
  exists a, ws, rs, rects. unfold ren_texture_atlas_get_ntextures, ren_texture_atlas_get_texture. rewrite (pk_n _ _ _ Hpk), Eh.
  destruct (packed_rects _ _ _ Hpk). pose proof (pk_table _ _ _ Hpk) as [Ht _]. split_and!; try done.
  2:{ intros k Hk Hpos. unfold ren_texture_atlas_contains_texid, get_texture, ulong_hash_assert.
      rewrite (proj2 (Z.eqb_neq k 0)), (proj2 (Z.ltb_ge k (2 ^ 63))) by lia.
      unfold hashmap_count. rewrite <- (map_size ulong_hash ulong_compare (fun k => k)), (pk_size _ _ _ Hpk) by apply Ht.
      by rewrite (proj2 (Z.eqb_neq _ 0)) by lia. }
  intros k Hk. unfold ren_texture_atlas_contains_texid, get_texture, ulong_hash_assert. rewrite (proj2 (Z.ltb_lt k (2 ^ 63))) by lia.
  assert (forall b : bool, (if b then Ok tt else Ok tt) = Ok tt) as -> by (by intros []). cbn [mbind res_bind]. rewrite (get_spec ulong_hash ulong_compare (fun k => k)) by (done || lia). cbn [mbind res_bind]. f_equal.
  destruct (Z.leb_spec k (Z.of_nat (List.length rects))) as [Hle|Hgt].
  - destruct (lookup_lt_is_Some_2 rects (Z.to_nat (k - 1))) as [r Hr]; [lia|]. destruct (pk_found _ _ _ Hpk _ _ Hr) as (p & Hp & Hp1 & _).
    replace (Z.of_nat (Z.to_nat (k - 1)) + 1) with k in Hp by lia. rewrite Hp. simpl. by rewrite (proj2 (Z.eqb_neq p 0)) by lia.
  - destruct (map_of (fun k => k) (textures a) !! k) as [p|] eqn:Ep; [|done]. apply (pk_ids _ _ _ Hpk) in Ep. lia.
Qed.

(** Four textures in an atlas of 64 times 64; the fifth one does not fit. *)
Lemma atlas_packs_witness :
  let ps := [(7, 32, 64); (8, 32, 16); (9, 8, 48); (10, 24, 24); (11, 40, 4)] in
  exists at_ ws rs rects, push_all (ren_texture_atlas_init 64 true (Some (fun w h => w + h))) ps = Ok (at_, ws, rs) /\
    filter (.≠ 0) rs = seqZ 1 (ren_texture_atlas_get_ntextures at_) /\
    (forall k, 0 < k < 2 ^ 63 -> ren_texture_atlas_contains_texid at_ k = Ok (k <=? ren_texture_atlas_get_ntextures at_)) /\
    (forall k, 2 ^ 63 <= k -> 0 < ren_texture_atlas_get_ntextures at_ -> ren_texture_atlas_contains_texid at_ k = Exit 134) /\
    size_of <$> rects = (fun p => (p.1.2, p.2)) <$> accepted ps rs /\
    Forall (fun r => inside r (mk_rect 0 0 64 64)) rects /\
    (forall i j r s, rects !! i = Some r -> rects !! j = Some s -> i <> j -> disjoint r s) /\
    ws = (if true then zip_with (fun p r => mk_write p.1.1 r (ren_texture_atlas_get_texture at_)) (accepted ps rs) rects else []).
Proof.
  intros ps. apply (atlas_packs 64 true (Some (fun w h => w + h)) ps); [unfold int_max; lia| |simpl; lia].
  repeat constructor; lia.
Defined.

(** A texture is refused only when no free leaf of the tree is large enough for it. *)
Theorem atlas_refuses_iff_full (W : Z) (cb : bool) (create : option (Z -> Z -> Z)) (ps : list (Z * Z * Z)) (pixels w h : Z) :
  0 < W <= int_max -> Forall (fun '(_, w, h) => 0 < w /\ 0 < h) ps -> 0 < w -> 0 < h -> Z.of_nat (List.length ps) < 32767 ->
  exists at_ ws rs at' ws' r, push_all (ren_texture_atlas_init W cb create) ps = Ok (at_, ws, rs) /\
    ren_texture_atlas_push_pixels at_ pixels w h = Ok (at', ws', r) /\ (r = 0 <-> forall t, t ∈ nodes at_ -> ~ fits w h t).
Proof.
  intros HW Hps Hw Hh Hlen. pose proof (init_packed W cb create ltac:(lia)) as Hi.
  destruct (push_all_spec W ps _ [] ltac:(lia) Hi Hps) as (a & ws & rs & rects & E & _ & Hpk & _ & Hsz & _); [simpl; lia|]. simpl in Hpk.
  apply (f_equal List.length) in Hsz. rewrite !length_fmap in Hsz. assert (List.length rects <= List.length ps)%nat as Hle.
  { rewrite Hsz. unfold accepted. rewrite length_fmap. etrans; [apply length_filter|]. rewrite length_zip. lia. }
  destruct (push_spec W a rects pixels w h) as (a' & ws' & r & Ep & _ & _ & Hr); [lia|done|done|done|lia|]. exists a, ws, rs, a', ws', r.
  split_and!; [done|done|]. destruct Hr as [(-> & _ & _ & Hno)|(-> & (t & Ht & Hf) & _)]; [done|]. split; [lia|]. intros Hno. by destruct (Hno t Ht).
Qed.
End Atlas.
