(* ===== verification/SortedMap.v ===== *)
(** * Sorted lists of entries as finite maps

    The entries of a search tree, in order, are a list that is sorted by what the keys
    stand for, [ord]; such a list is a finite map. *)

From Stdlib Require Import Sorted.
From S2P Require Import Prelude.

Module SortedMap.

Section definitions.
Context (ord : Z -> Z).

Definition lt_el (x y : Z * Z) : Prop := ord x.1 < ord y.1.
Definition sorted (l : list (Z * Z)) : Prop := StronglySorted lt_el l.

(** The list as a map from what the keys stand for. *)
Definition entry (kv : Z * Z) : Z * (Z * Z) := (ord kv.1, kv).
Definition map_of (l : list (Z * Z)) : gmap Z (Z * Z) := list_to_map (entry <$> l).
End definitions.

Section facts.
Context {ord : Z -> Z}.
#[local] Notation lt_el := (lt_el ord).
#[local] Notation sorted := (sorted ord).
#[local] Notation entry := (entry ord).
#[local] Notation map_of := (map_of ord).

Lemma sorted_app l1 l2 : sorted (l1 ++ l2) <-> sorted l1 /\ sorted l2 /\ (forall x y, x ∈ l1 -> y ∈ l2 -> lt_el x y).
Proof.
  unfold sorted. induction l1 as [|x l1 IH]; simpl.
  - split; [intros H; split_and!; [constructor|done|intros ? ? Hx; by apply elem_of_nil in Hx]|by intros (_ & ? & _)].
  - split.
    + intros [H1 H2]%StronglySorted_inv. apply IH in H1 as (Ha & Hb & Hc). apply Forall_app in H2 as [Hd He]. split_and!; [by constructor|done|].
      intros y z [->|Hy]%elem_of_cons Hz; [by rewrite Forall_forall in He; apply He|by apply Hc].
    + intros ([Ha Hb]%StronglySorted_inv & Hc & Hd). constructor.
      * apply IH. split_and!; [done|done|]. intros y z Hy Hz. apply Hd; [by right|done].
      * apply Forall_app. split; [done|]. apply Forall_forall. intros y Hy. apply Hd; [left|done].
Qed.

Lemma sorted_mid l1 x l2 :
  sorted (l1 ++ x :: l2) <-> sorted l1 /\ sorted l2 /\ Forall (fun y => lt_el y x) l1 /\ Forall (lt_el x) l2.
Proof.
  rewrite sorted_app. unfold sorted at 2. split.
  - intros (H1 & [H2 H3]%StronglySorted_inv & H4). split_and!; [done|done| |done]. apply Forall_forall. intros y Hy. apply H4; [done|left].
  - intros (H1 & H2 & H3 & H4). split_and!; [done|by constructor|]. rewrite Forall_forall in *. intros y z Hy [->|Hz]%elem_of_cons; [by apply H3|].
    specialize (H3 y Hy). specialize (H4 z Hz). unfold lt_el in *. lia.
Qed.


Lemma sorted_nodup l : sorted l -> NoDup (entry <$> l).*1.
Proof.
  rewrite <- list_fmap_compose. induction l as [|x l IH]; intros H; simpl; [constructor|]. apply StronglySorted_inv in H as [H1 H2]. constructor; [|by apply IH].
  intros (y & Ey & Hy)%list_elem_of_fmap. rewrite Forall_forall in H2. specialize (H2 y Hy). unfold lt_el in H2. simpl in Ey. lia.
Qed.

Lemma map_of_lookup l i kv : sorted l -> map_of l !! i = Some kv <-> kv ∈ l /\ ord kv.1 = i.
Proof.
  intros Hs. unfold map_of. rewrite <- elem_of_list_to_map by by apply sorted_nodup. rewrite list_elem_of_fmap. unfold entry. split.
  - by intros (y & [= -> ->] & Hy).
  - intros [H <-]. by exists kv.
Qed.

Lemma map_of_none l i : sorted l -> (forall kv, kv ∈ l -> ord kv.1 <> i) -> map_of l !! i = None.
Proof. intros Hs H. destruct (map_of l !! i) as [kv|] eqn:E1; [|done]. apply map_of_lookup in E1 as [Hin Ho]; [|done]. by destruct (H kv Hin). Qed.

Lemma map_of_insert l1 kv l2 : sorted (l1 ++ kv :: l2) -> map_of (l1 ++ kv :: l2) = <[ord kv.1 := kv]> (map_of (l1 ++ l2)).
Proof.
  intros Hs. unfold map_of. rewrite fmap_app, fmap_cons. transitivity (list_to_map (entry kv :: (entry <$> l1 ++ l2)) : gmap Z (Z * Z)); [|done].
  apply list_to_map_proper; [|by rewrite fmap_app, Permutation_middle]. apply sorted_nodup in Hs. by rewrite fmap_app, fmap_cons in Hs.
Qed.

Lemma sorted_remove l1 kv l2 : sorted (l1 ++ kv :: l2) -> sorted (l1 ++ l2).
Proof.
  intros Hs. pose proof Hs as (H1 & H2 & H3)%sorted_app. apply sorted_app. split_and!; [done|by apply StronglySorted_inv in H2 as [? _]|].
  intros x y Hx Hy. apply H3; [done|by right].
Qed.

Lemma map_of_delete l1 kv l2 : sorted (l1 ++ kv :: l2) -> map_of (l1 ++ l2) = delete (ord kv.1) (map_of (l1 ++ kv :: l2)).
Proof.
  intros Hs. rewrite map_of_insert by done. rewrite delete_insert_id; [done|]. apply map_of_none; [by eapply sorted_remove|].
  intros y Hy. apply sorted_mid in Hs as (_ & _ & H3 & H4). rewrite Forall_forall in *. apply elem_of_app in Hy as [Hy|Hy]; [specialize (H3 y Hy)|specialize (H4 y Hy)]; unfold lt_el in *; lia.
Qed.

Lemma map_of_size l : sorted l -> base.size (map_of l) = List.length l.
Proof. intros Hs. unfold map_of. rewrite map_size_list_to_map by by apply sorted_nodup. by rewrite length_fmap. Qed.
(** Only one side of an entry matters for a smaller or a greater key. *)
Lemma map_of_left l1 kv l2 i : sorted (l1 ++ kv :: l2) -> i < ord kv.1 -> map_of (l1 ++ kv :: l2) !! i = map_of l1 !! i.
Proof.
  intros Hs Hi. pose proof Hs as (H1 & _ & _ & H2)%sorted_mid. apply option_eq. intros x. rewrite !map_of_lookup, elem_of_app, elem_of_cons by done.
  rewrite Forall_forall in H2. split; [|tauto]. intros [[?|[->|Hx]] Ho]; [done|lia|]. specialize (H2 x Hx). unfold SortedMap.lt_el in H2. lia.
Qed.

Lemma map_of_right l1 kv l2 i : sorted (l1 ++ kv :: l2) -> ord kv.1 < i -> map_of (l1 ++ kv :: l2) !! i = map_of l2 !! i.
Proof.
  intros Hs Hi. pose proof Hs as (_ & H1 & H2 & _)%sorted_mid. apply option_eq. intros x. rewrite !map_of_lookup, elem_of_app, elem_of_cons by done.
  rewrite Forall_forall in H2. split; [|tauto]. intros [[Hx|[->|?]] Ho]; [|lia|done]. specialize (H2 x Hx). unfold SortedMap.lt_el in H2. lia.
Qed.

Lemma map_of_here l1 kv l2 : sorted (l1 ++ kv :: l2) -> map_of (l1 ++ kv :: l2) !! ord kv.1 = Some kv.
Proof. intros Hs. apply map_of_lookup; [done|]. split; [|done]. apply elem_of_app. right. left. Qed.
End facts.
End SortedMap.
