(* ===== verification/Splay.v ===== *)
(** * Splay trees with pointers (src/PUTs/06pseudolru-master/pseudolru.c,
      src/PUTs/09splay-tree-master/splaytree.c)

    The nodes lie in a memory; a pointer is an address, 0 is [NULL].  A pointer to a
    pointer, which the rotations work on, is a slot: the root, or the left or the right
    field of a node.  [malloc] takes the next address and is taken to succeed, [free]
    removes the node, and an access to a node that is not there is undefined.

    The two programs share their rotations and the splaying; the pseudo-LRU tree also
    notes in each node it passes which side it did not take ([lru]).  The comparison
    is a parameter.  [splay] recurses down the tree: its fuel bounds the depth. *)

From S2P Require Import Prelude.

Module Splay.

Definition LEFT : Z := 0.
Definition RIGHT : Z := 1.

Record tree_node_t := mk_node { left : Z; right : Z; key : Z; value : Z; bit : Z }.

Record pseudolru_t := mk_tree { root : Z; count : Z; mem : gmap Z tree_node_t; fresh : Z }.

(** A pointer to a pointer to a node. *)
Inductive slot : Type := Root | LeftOf (n : Z) | RightOf (n : Z).

Definition pseudolru_new : pseudolru_t := mk_tree 0 0 ∅ 1.

Definition node (me : pseudolru_t) (p : Z) : res tree_node_t := match mem me !! p with Some n => Ok n | None => Undef end.

Definition set_node (me : pseudolru_t) (p : Z) (n : tree_node_t) : pseudolru_t := mk_tree (root me) (count me) (<[p := n]> (mem me)) (fresh me).
Definition set_root (me : pseudolru_t) (p : Z) : pseudolru_t := mk_tree p (count me) (mem me) (fresh me).
Definition set_count (me : pseudolru_t) (c : Z) : pseudolru_t := mk_tree (root me) c (mem me) (fresh me).

Definition with_left (n : tree_node_t) (p : Z) : tree_node_t := mk_node p (right n) (key n) (value n) (bit n).
Definition with_right (n : tree_node_t) (p : Z) : tree_node_t := mk_node (left n) p (key n) (value n) (bit n).
Definition with_bit (n : tree_node_t) (b : Z) : tree_node_t := mk_node (left n) (right n) (key n) (value n) b.

Definition deref (me : pseudolru_t) (s : slot) : res Z :=
  match s with
  | Root => Ok (root me)
  | LeftOf p => n ← node me p; Ok (left n)
  | RightOf p => n ← node me p; Ok (right n)
  end.

Definition assign (me : pseudolru_t) (s : slot) (q : Z) : res pseudolru_t :=
  match s with
  | Root => Ok (set_root me q)
  | LeftOf p => n ← node me p; Ok (set_node me p (with_left n q))
  | RightOf p => n ← node me p; Ok (set_node me p (with_right n q))
  end.

Definition init_node (me : pseudolru_t) (k v : Z) : pseudolru_t * Z :=
  (mk_tree (root me) (count me) (<[fresh me := mk_node 0 0 k v 0]> (mem me)) (fresh me + 1), fresh me).

Definition rotate_right (me : pseudolru_t) (pa : slot) : res pseudolru_t :=
  p ← deref me pa;
  n ← node me p;
  let child := left n in
  if child =? 0 then Exit 134
  else
    c ← node me child;
    let me := set_node me p (with_left n (right c)) in
    p ← deref me pa;
    c ← node me child;
    assign (set_node me child (with_right c p)) pa child.

Definition rotate_left (me : pseudolru_t) (pa : slot) : res pseudolru_t :=
  p ← deref me pa;
  n ← node me p;
  let child := right n in
  if child =? 0 then Exit 134
  else
    c ← node me child;
    let me := set_node me p (with_right n (left c)) in
    p ← deref me pa;
    c ← node me child;
    assign (set_node me child (with_left c p)) pa child.

Section splay.
Context (cmp : Z -> Z -> Z) (lru : bool).

Definition note (me : pseudolru_t) (p : Z) (b : Z) : res pseudolru_t :=
  if lru then n ← node me p; Ok (set_node me p (with_bit n b)) else Ok me.

(** The rotations of [__splay] that bring [next] up. *)
Definition bring_up (me : pseudolru_t) (gpa pa : option slot) (next : Z) : res (pseudolru_t * Z) :=
  match pa with
  | None => Ok (me, next)
  | Some pa =>
      p ← deref me pa;
      n ← node me p;
      match gpa with
      | None => me ← (if left n =? next then rotate_right me pa else rotate_left me pa); Ok (me, next)
      | Some gpa =>
          g ← deref me gpa;
          gn ← node me g;
          me ← (if (left n =? next) && (left gn =? p) then me ← rotate_right me pa; rotate_right me gpa
                else if (right n =? next) && (right gn =? p) then me ← rotate_left me pa; rotate_left me gpa
                else if (right n =? next) && (left gn =? p) then me ← rotate_left me pa; rotate_right me gpa
                else if (left n =? next) && (right gn =? p) then me ← rotate_right me pa; rotate_left me gpa
                else Ok me);
          Ok (me, next)
      end
  end.

Fixpoint splay (fuel : nat) (me : pseudolru_t) (update_if_not_found : bool) (gpa pa : option slot) (child : slot) (k : Z) :
    res (pseudolru_t * Z) :=
  match fuel with
  | O => OutOfFuel
  | S fuel =>
      c ← deref me child;
      if c =? 0 then Ok (me, 0)
      else
        n ← node me c;
        '(me, next) ←
          (if cmp (key n) k =? 0 then Ok (me, c)
           else if 0 <? cmp (key n) k then
             me ← note me c RIGHT;
             splay fuel me update_if_not_found pa (Some child) (LeftOf c) k
           else
             me ← note me c LEFT;
             splay fuel me update_if_not_found pa (Some child) (RightOf c) k);
        c ← deref me child;
        if next =? 0 then
          if update_if_not_found then bring_up me gpa pa c else Ok (me, 0)
        else if negb (next =? c) then Ok (me, next)
        else bring_up me gpa pa next
  end.
End splay.

(** ** Trees with addresses *)

Inductive tree : Type := E | N (l : tree) (a k v b : Z) (r : tree).

Definition addr (t : tree) : Z := match t with E => 0 | N _ a _ _ _ _ => a end.

Fixpoint nodes (t : tree) : list (Z * tree_node_t) :=
  match t with
  | E => []
  | N l a k v b r => (a, mk_node (addr l) (addr r) k v b) :: nodes l ++ nodes r
  end.

Fixpoint tsize (t : tree) : nat := match t with E => O | N l _ _ _ _ r => S (tsize l + tsize r) end.

(** A step down a tree: the node, whether its left or its right side was taken, and the
    other side. *)
Inductive frame : Type := FL (a k v b : Z) (r : tree) | FR (l : tree) (a k v b : Z).

Definition fill (f : frame) (t : tree) : tree :=
  match f with
  | FL a k v b r => N t a k v b r
  | FR l a k v b => N l a k v b t
  end.

Fixpoint plug (path : list frame) (t : tree) : tree :=
  match path with
  | [] => t
  | f :: path => plug path (fill f t)
  end.

Definition frame_slot (f : frame) : slot :=
  match f with FL a _ _ _ _ => LeftOf a | FR _ a _ _ _ => RightOf a end.

(** The slot a path leads to, and the slots one and two steps above. *)
Definition slot_of (path : list frame) : slot := match path with [] => Root | f :: _ => frame_slot f end.
Definition pa_of (path : list frame) : option slot := match path with [] => None | _ :: path => Some (slot_of path) end.
Definition gpa_of (path : list frame) : option slot := match path with _ :: path => pa_of path | [] => None end.

(** The memory holds the tree, at addresses of its own. *)
Record holds (me : pseudolru_t) (t : tree) : Prop := {
  h_root : root me = addr t;
  h_nodes : forall a n, (a, n) ∈ nodes t -> mem me !! a = Some n;
  h_nodup : NoDup (nodes t).*1;
  h_addr : forall a, a ∈ (nodes t).*1 -> 0 < a < fresh me
}.

(** ** The nodes along a path *)

Fixpoint path_nodes (path : list frame) (hole : Z) : list (Z * tree_node_t) :=
  match path with
  | [] => []
  | FL a k v b r :: path => (a, mk_node hole (addr r) k v b) :: nodes r ++ path_nodes path a
  | FR l a k v b :: path => (a, mk_node (addr l) hole k v b) :: nodes l ++ path_nodes path a
  end.

Lemma nodes_plug path t : nodes (plug path t) ≡ₚ nodes t ++ path_nodes path (addr t).
Proof.
  revert t. induction path as [|[a k v b r|l a k v b] path IH]; intros t; simpl; [by rewrite app_nil_r|..]; rewrite IH; simpl; solve_Permutation.
Qed.

Lemma path_addrs path h h' : (path_nodes path h).*1 = (path_nodes path h').*1.
Proof. destruct path as [|[|]]; simpl; done. Qed.

Lemma addr_plug path t t' : addr t = addr t' -> addr (plug path t) = addr (plug path t').
Proof. revert t t'. induction path as [|[|] path IH]; intros t t' Ht; simpl; [done|by apply IH..]. Qed.

Lemma addr_plug_cons f path t t' : addr (plug (f :: path) t) = addr (plug (f :: path) t').
Proof. simpl. apply addr_plug. by destruct f. Qed.

(** The same, when only the counters of the tree may differ. *)
Record same (me me' : pseudolru_t) : Prop := { s_count : count me' = count me; s_fresh : fresh me' = fresh me }.

Lemma same_refl me : same me me.
Proof. done. Qed.
Lemma same_trans m1 m2 m3 : same m1 m2 -> same m2 m3 -> same m1 m3.
Proof. intros [] []. split; congruence. Qed.

Lemma deref_slot me path t :
  root me = addr (plug path t) -> (forall a n, (a, n) ∈ path_nodes path (addr t) -> mem me !! a = Some n) -> deref me (slot_of path) = Ok (addr t).
Proof.
  intros Hr Hm. destruct path as [|[a k v b r|l a k v b] path]; simpl; [by rewrite Hr|..]; unfold node; by erewrite Hm by (simpl; left).
Qed.

Lemma write_head m1 a x x' (rest : list (Z * tree_node_t)) :
  (forall a' n, (a', n) ∈ (a, x) :: rest -> mem m1 !! a' = Some n) -> NoDup ((a, x) :: rest).*1 ->
  forall a' n, (a', n) ∈ (a, x') :: rest -> mem (set_node m1 a x') !! a' = Some n.
Proof.
  intros Hm Hnd a' n [[= -> ->]|Hin]%elem_of_cons; simpl; [by rewrite lookup_insert_eq|]. simpl in Hnd. apply NoDup_cons in Hnd as [Hna _].
  rewrite lookup_insert_ne; [apply Hm; by right|]. intros ->. apply Hna. apply list_elem_of_fmap. by exists (a', n).
Qed.

Lemma assign_slot m1 path h q :
  (forall a n, (a, n) ∈ path_nodes path h -> mem m1 !! a = Some n) -> NoDup (path_nodes path h).*1 ->
  exists m2, assign m1 (slot_of path) q = Ok m2 /\ same m1 m2 /\ (root m2 = match path with [] => q | _ => root m1 end) /\
    (forall a n, (a, n) ∈ path_nodes path q -> mem m2 !! a = Some n) /\
    (forall a, a ∉ (path_nodes path h).*1 -> mem m2 !! a = mem m1 !! a).
Proof.
  intros Hm Hnd. destruct path as [|[a k v b r|l a k v b] path].
  - exists (set_root m1 q). split_and!; try done.
  - simpl assign. unfold node. erewrite Hm by (simpl; left). cbn [mbind res_bind]. eexists. split; [done|]. split_and!; try done.
    + by eapply write_head.
    + intros a' Ha. simpl. apply lookup_insert_ne. intros ->. apply Ha. left.
  - simpl assign. unfold node. erewrite Hm by (simpl; left). cbn [mbind res_bind]. eexists. split; [done|]. split_and!; try done.
    + by eapply write_head.
    + intros a' Ha. simpl. apply lookup_insert_ne. intros ->. apply Ha. left.
Qed.

Section held.
Context (me : pseudolru_t) (path : list frame) (t : tree) (H : holds me (plug path t)).

Lemma held_tree a n : (a, n) ∈ nodes t -> mem me !! a = Some n.
Proof. intros Hin. apply (h_nodes _ _ H). rewrite nodes_plug. apply elem_of_app. by left. Qed.

Lemma held_path a n : (a, n) ∈ path_nodes path (addr t) -> mem me !! a = Some n.
Proof. intros Hin. apply (h_nodes _ _ H). rewrite nodes_plug. apply elem_of_app. by right. Qed.

Lemma held_nodup : NoDup ((nodes t).*1 ++ (path_nodes path (addr t)).*1).
Proof. pose proof (h_nodup _ _ H) as Hn. by rewrite nodes_plug, fmap_app in Hn. Qed.

Lemma held_tree_nodup : NoDup (nodes t).*1.
Proof. pose proof held_nodup as Hn. by apply NoDup_app in Hn as (? & _ & _). Qed.

Lemma held_addr a : a ∈ (nodes t).*1 -> 0 < a < fresh me.
Proof. intros Hin. apply (h_addr _ _ H). rewrite nodes_plug, fmap_app. apply elem_of_app. by left. Qed.

Lemma held_apart a n : a ∈ (nodes t).*1 -> (a, n) ∈ path_nodes path (addr t) -> False.
Proof.
  intros Ha Hn. pose proof held_nodup as (_ & Hd & _)%NoDup_app. apply (Hd a Ha). apply list_elem_of_fmap. by exists (a, n).
Qed.

Lemma held_deref : deref me (slot_of path) = Ok (addr t).
Proof. apply deref_slot; [apply H|exact held_path]. Qed.

(** Writing to the slot. *)
Lemma held_assign m1 q :
  (forall a n, (a, n) ∈ path_nodes path (addr t) -> mem m1 !! a = Some n) ->
  exists m2, assign m1 (slot_of path) q = Ok m2 /\ same m1 m2 /\ (root m2 = match path with [] => q | _ => root m1 end) /\
    (forall a n, (a, n) ∈ path_nodes path q -> mem m2 !! a = Some n) /\
    (forall a, a ∈ (nodes t).*1 -> mem m2 !! a = mem m1 !! a).
Proof.
  intros Hm. pose proof held_nodup as Hnd. apply NoDup_app in Hnd as (_ & Hdis & Hpn).
  destruct (assign_slot m1 path (addr t) q Hm Hpn) as (m2 & E & Hs & Hr & Hn & Ho). exists m2. split_and!; try done.
  intros a Ha. apply Ho. by apply Hdis.
Qed.

(** Another tree of the same nodes in the place of [t]. *)
Lemma held_replug m2 t' :
  (nodes t').*1 ≡ₚ (nodes t).*1 -> fresh m2 = fresh me -> root m2 = addr (plug path t') ->
  (forall a n, (a, n) ∈ nodes t' -> mem m2 !! a = Some n) -> (forall a n, (a, n) ∈ path_nodes path (addr t') -> mem m2 !! a = Some n) ->
  holds m2 (plug path t').
Proof.
  intros Hp Hf Hr Hn Hpn. assert ((nodes (plug path t')).*1 ≡ₚ (nodes (plug path t)).*1) as Hperm.
  { rewrite !nodes_plug, !fmap_app, Hp. by rewrite (path_addrs path (addr t') (addr t)). }
  split; [done| | |].
  - intros a n. rewrite nodes_plug. intros [Hin|Hin]%elem_of_app; [by apply Hn|by apply Hpn].
  - rewrite Hperm. apply H.
  - intros a. rewrite Hperm, Hf. apply H.
Qed.
End held.

(** ** Rotations *)

(** The root of [t] takes the place of the node above. *)
Definition rot (f : frame) (t : tree) : tree :=
  match t with
  | E => fill f E
  | N a x k v b c =>
      match f with
      | FL p kp vp bp r => N a x k v b (N c p kp vp bp r)
      | FR l p kp vp bp => N (N l p kp vp bp a) x k v b c
      end
  end.

Definition rotate (f : frame) : pseudolru_t -> slot -> res pseudolru_t :=
  match f with FL _ _ _ _ _ => rotate_right | FR _ _ _ _ _ => rotate_left end.

(** The two nodes of a rotation and the three trees below them are apart. *)
Lemma nodup_two (x y : Z) (l1 l2 l3 : list (Z * tree_node_t)) a n :
  NoDup (x :: y :: (l1 ++ l2 ++ l3).*1) -> (a, n) ∈ l1 ++ l2 ++ l3 -> a <> x /\ a <> y.
Proof.
  intros [H1 [H2 _]%NoDup_cons]%NoDup_cons Hin. assert (a ∈ (l1 ++ l2 ++ l3).*1) as Ha by (apply list_elem_of_fmap; by exists (a, n)).
  split; intros ->; [apply H1; by right|done].
Qed.

Lemma nodup_perm (l l' : list Z) : l ≡ₚ l' -> NoDup l -> NoDup l'.
Proof. by intros ->. Qed.

(** Two writes, and one to the slot: what a rotation does to the memory. *)
Lemma rotation_writes me path t t' p x np nx np' nx' l1 l2 l3 :
  holds me (plug path t) -> addr t = p -> addr t' = x ->
  nodes t ≡ₚ (p, np) :: (x, nx) :: l1 ++ l2 ++ l3 -> nodes t' ≡ₚ (p, np') :: (x, nx') :: l1 ++ l2 ++ l3 ->
  deref (set_node me p np') (slot_of path) = Ok p /\ mem me !! p = Some np /\ mem me !! x = Some nx /\ p <> x /\ 0 < x /\
  exists me', assign (set_node (set_node me p np') x nx') (slot_of path) x = Ok me' /\ same me me' /\ holds me' (plug path t').
Proof.
  intros H Ep Ex Hn Hn'. assert (NoDup (p :: x :: (l1 ++ l2 ++ l3).*1)) as Hnd.
  { eapply nodup_perm; [|exact (held_tree_nodup me path t H)]. by rewrite Hn. }
  assert (p <> x) as Hpx by (apply NoDup_cons in Hnd as [Hp _]; intros ->; apply Hp; left).
  assert (forall a, a ∈ (nodes t).*1 <-> a = p \/ a = x \/ a ∈ (l1 ++ l2 ++ l3).*1) as Hin by (intros a; rewrite Hn; simpl; rewrite !elem_of_cons; done).
  assert (forall a n, (a, n) ∈ path_nodes path p -> a <> p /\ a <> x) as Hapart.
  { intros a n Hp. rewrite <- Ep in Hp. split; intros ->; eapply (held_apart me path t H); [|exact Hp| |exact Hp]; apply Hin; auto. }
  assert (forall a n, (a, n) ∈ path_nodes path p -> mem (set_node me p np') !! a = Some n) as Hm1.
  { intros a n Hp. destruct (Hapart a n Hp). simpl. rewrite lookup_insert_ne by done. apply (held_path me path t H). by rewrite Ep. }
  assert (0 < x) as Hx by (eapply (held_addr me path t H), Hin; auto). split_and!; try done.
  - rewrite <- Ep. apply deref_slot; [apply H|by rewrite Ep].
  - apply (held_tree me path t H). rewrite Hn. left.
  - apply (held_tree me path t H). rewrite Hn. right. left.
  - destruct (held_assign me path t H (set_node (set_node me p np') x nx') x) as (m2 & E2 & Hs & Hr & Hpn & Ho).
    { rewrite Ep. intros a n Hp. destruct (Hapart a n Hp). simpl. rewrite lookup_insert_ne by done. by apply Hm1. }
    exists m2. split; [done|]. split; [by destruct Hs|]. apply (held_replug me path t H).
    + by rewrite Hn, Hn'.
    + apply Hs.
    + rewrite Hr. destruct path as [|f path']; [done|]. simpl root. rewrite (h_root _ _ H). apply addr_plug_cons.
    + intros a n. rewrite Hn'. intros [[= -> ->]|[[= -> ->]|Hl]%elem_of_cons]%elem_of_cons.
      * rewrite Ho by (apply Hin; auto). simpl. by rewrite lookup_insert_ne, lookup_insert_eq by done.
      * rewrite Ho by (apply Hin; auto). simpl. by rewrite lookup_insert_eq.
      * destruct (nodup_two _ _ _ _ _ _ _ Hnd Hl). rewrite Ho by (apply Hin; right; right; apply list_elem_of_fmap; by exists (a, n)).
        simpl. rewrite !lookup_insert_ne by done. apply (held_tree me path t H). rewrite Hn. right. by right.
    + intros a n Hp. apply Hpn. by rewrite <- Ex.
Qed.

Lemma rotate_ok me path f t :
  t <> E -> holds me (plug (f :: path) t) -> exists me', rotate f me (slot_of path) = Ok me' /\ same me me' /\ holds me' (plug path (rot f t)).
Proof.
  intros Ht H. destruct t as [|a x k v b c]; [done|]. simpl plug in H. destruct f as [p kp vp bp r|l p kp vp bp]; simpl fill in H; simpl rotate; simpl rot.
  - destruct (rotation_writes me path (N (N a x k v b c) p kp vp bp r) (N a x k v b (N c p kp vp bp r)) p x
      (mk_node x (addr r) kp vp bp) (mk_node (addr a) (addr c) k v b) (mk_node (addr c) (addr r) kp vp bp) (mk_node (addr a) p k v b) (nodes a) (nodes c) (nodes r))
      as (Hd & Hp & Hx & Hpx & Hx0 & me' & Ea & Hs & Hh); try done; [simpl; solve_Permutation|simpl; solve_Permutation|].
    exists me'. split; [|done]. unfold rotate_right. rewrite (held_deref me path _ H). simpl addr. unfold node. cbn [mbind res_bind]. rewrite Hp. cbn [mbind res_bind]. simpl left.
    rewrite (proj2 (Z.eqb_neq x 0)) by lia. rewrite Hx. cbn [mbind res_bind]. unfold with_left, with_right in *. simpl right. simpl key. simpl value. simpl bit. rewrite Hd. cbn [mbind res_bind].
    simpl mem at 1. rewrite lookup_insert_ne, Hx by done. exact Ea.
  - destruct (rotation_writes me path (N l p kp vp bp (N a x k v b c)) (N (N l p kp vp bp a) x k v b c) p x
      (mk_node (addr l) x kp vp bp) (mk_node (addr a) (addr c) k v b) (mk_node (addr l) (addr a) kp vp bp) (mk_node p (addr c) k v b) (nodes l) (nodes a) (nodes c))
      as (Hd & Hp & Hx & Hpx & Hx0 & me' & Ea & Hs & Hh); try done; [simpl; solve_Permutation|simpl; solve_Permutation|].
    exists me'. split; [|done]. unfold rotate_left. rewrite (held_deref me path _ H). simpl addr. unfold node. cbn [mbind res_bind]. rewrite Hp. cbn [mbind res_bind]. simpl right.
    rewrite (proj2 (Z.eqb_neq x 0)) by lia. rewrite Hx. cbn [mbind res_bind]. unfold with_left, with_right in *. simpl left. simpl key. simpl value. simpl bit. rewrite Hd. cbn [mbind res_bind].
    simpl mem at 1. rewrite lookup_insert_ne, Hx by done. exact Ea.
Qed.

(** Up along a path. *)
Fixpoint move (fs : list frame) (x : tree) : tree :=
  match fs with
  | [] => x
  | f :: fs => move fs (rot f x)
  end.

Definition is_left (f : frame) : bool := match f with FL _ _ _ _ _ => true | FR _ _ _ _ _ => false end.

Lemma rot_nonempty f x : x <> E -> rot f x <> E.
Proof. by destruct x, f. Qed.

Lemma addr_rot f x : x <> E -> addr (rot f x) = addr x.
Proof. by destruct x, f. Qed.

Lemma addr_move fs x : x <> E -> addr (move fs x) = addr x.
Proof.
  revert x. induction fs as [|f fs IH]; intros x Hx; simpl; [done|]. rewrite IH by by apply rot_nonempty. by apply addr_rot.
Qed.

Lemma move_nonempty fs x : x <> E -> move fs x <> E.
Proof. revert x. induction fs as [|f fs IH]; intros x Hx; simpl; [done|]. by apply IH, rot_nonempty. Qed.

Lemma move_app fs gs x : move (fs ++ gs) x = move gs (move fs x).
Proof. revert x. induction fs as [|f fs IH]; intros x; simpl; [done|]. apply IH. Qed.

#[global] Instance tree_eq_dec : EqDecision tree.
Proof. solve_decision. Defined.

Lemma addr_in t : t <> E -> addr t ∈ (nodes t).*1.
Proof. destruct t; [done|]. intros _. simpl. left. Qed.

(** On which side of its parent a node is. *)
Lemma sides me path f x :
  x <> E -> holds me (plug path (fill f x)) ->
  exists n, node me (addr (fill f x)) = Ok n /\ (left n =? addr x) = is_left f /\ (right n =? addr x) = negb (is_left f).
Proof.
  intros Hx H. pose proof (held_tree_nodup me path _ H) as Hnd. pose proof (addr_in x Hx) as Hin.
  assert (forall s, (forall a, a ∈ (nodes s).*1 -> a ∉ (nodes x).*1) -> addr s <> addr x) as Hne.
  { intros s Hs Es. destruct (decide (s = E)) as [->|Hs0].
    - simpl in Es. pose proof (held_addr me path _ H (addr x)) as H0. rewrite <- Es in H0. enough (0 < 0 < fresh me) by lia. apply H0.
      destruct f; simpl; rewrite fmap_app, elem_of_cons, elem_of_app, Es; auto.
    - apply (Hs (addr s)); [by apply addr_in|by rewrite Es]. }
  destruct f as [p kp vp bp r|l p kp vp bp]; simpl in Hnd |- *; rewrite fmap_app in Hnd; apply NoDup_cons in Hnd as [_ (_ & Hd & _)%NoDup_app]; unfold node.
  - rewrite (held_tree me path _ H p (mk_node (addr x) (addr r) kp vp bp)) by (simpl; left). eexists. split; [done|]. simpl. split; [by apply Z.eqb_refl|].
    apply Z.eqb_neq, Hne. intros a Ha Ha'. by apply (Hd a Ha').
  - rewrite (held_tree me path _ H p (mk_node (addr l) (addr x) kp vp bp)) by (simpl; left). eexists. split; [done|]. simpl. split; [|by apply Z.eqb_refl].
    apply Z.eqb_neq, Hne. intros a Ha Ha'. by apply (Hd a Ha).
Qed.

Lemma bring_up_ok me path x :
  x <> E -> holds me (plug path x) ->
  exists me', bring_up me (gpa_of path) (pa_of path) (addr x) = Ok (me', addr x) /\ same me me' /\ holds me' (plug (drop 2 path) (move (take 2 path) x)).
Proof.
  intros Hx H. destruct path as [|f path]; [by exists me|]. unfold bring_up. simpl pa_of. cbn iota.
  pose proof (held_deref me path (fill f x) H) as Hd. rewrite Hd. cbn [mbind res_bind].
  destruct (sides me path f x Hx H) as (n & Hn & Hl & Hr). rewrite Hn. cbn [mbind res_bind]. rewrite Hl, Hr.
  destruct (rotate_ok me path f x Hx H) as (m1 & E1 & Hs1 & H1). destruct path as [|g path].
  { simpl gpa_of. cbn iota. exists m1. split; [|done]. simpl slot_of in *. destruct f; simpl is_left; cbn iota; simpl rotate in E1; by rewrite E1. }
  simpl gpa_of. cbn iota. rewrite (held_deref me path (fill g (fill f x))) by done. cbn [mbind res_bind].
  destruct (sides me path g (fill f x)) as (gn & Hgn & Hgl & Hgr); [by destruct f|done|]. rewrite Hgn. cbn [mbind res_bind]. rewrite Hgl, Hgr.
  destruct (rotate_ok m1 path g (rot f x)) as (m2 & E2 & Hs2 & H2); [by apply rot_nonempty|done|].
  exists m2. split; [|split; [by eapply same_trans|done]].
  destruct f, g; simpl is_left; cbn iota; simpl rotate in E1, E2; simpl slot_of in *; simpl andb; cbn iota; rewrite E1; cbn [mbind res_bind]; by rewrite E2.
Qed.

(** ** Splaying *)

(** A node that was passed no longer has [y] below its slot. *)
Lemma passed me path f y :
  y <> E -> holds me (plug path (rot f y)) -> exists c, deref me (frame_slot f) = Ok c /\ c <> addr y.
Proof.
  intros Hy H. destruct y as [|a x k v b c]; [done|]. pose proof (held_tree_nodup me path _ H) as Hnd.
  assert (0 < x) as Hx by (apply (held_addr me path _ H); destruct f; simpl; left).
  assert (forall s, x ∉ (nodes s).*1 -> addr s <> x) as Hne.
  { intros s Hs Es. destruct (decide (s = E)) as [->|Hs0]; [simpl in Es; lia|]. apply Hs. rewrite <- Es. by apply addr_in. }
  destruct f as [p kp vp bp r|l p kp vp bp]; unfold rot, nodes in Hnd; fold nodes in Hnd; rewrite fmap_cons in Hnd; apply NoDup_cons in Hnd as [Hnx _]; simpl deref; unfold node.
  - rewrite (held_tree me path _ H p (mk_node (addr c) (addr r) kp vp bp)) by (simpl; apply elem_of_cons; right; apply elem_of_app; right; left).
    eexists. split; [done|]. simpl. apply Hne. intros Hc. apply Hnx. rewrite fmap_app, fmap_cons, fmap_app. set_solver.
  - rewrite (held_tree me path _ H p (mk_node (addr l) (addr a) kp vp bp)) by (simpl; apply elem_of_cons; right; left).
    eexists. split; [done|]. simpl. apply Hne. intros Hc. apply Hnx. rewrite fmap_app, fmap_cons, fmap_app. set_solver.
Qed.

Section search.
Context (cmp : Z -> Z -> Z) (lru update : bool) (k : Z).

Definition noted (b new : Z) : Z := if lru then new else b.

Lemma note_ok me path l a kx v b r new :
  holds me (plug path (N l a kx v b r)) ->
  exists me', note lru me a new = Ok me' /\ same me me' /\ holds me' (plug path (N l a kx v (noted b new) r)).
Proof.
  intros H. unfold note, noted. destruct lru; [|by exists me]. unfold node.
  rewrite (held_tree me path _ H a (mk_node (addr l) (addr r) kx v b)) by (simpl; left). cbn [mbind res_bind]. eexists. split; [done|]. split; [done|].
  pose proof (held_tree_nodup me path _ H) as Hnd. simpl in Hnd. apply NoDup_cons in Hnd as [Hna _].
  apply (held_replug me path _ H); [done|done|by rewrite <- (addr_plug path (N l a kx v b r) (N l a kx v new r)), <- (h_root _ _ H)|..].
  - intros a' n [[= -> ->]|Hin]%elem_of_cons; simpl; [by rewrite lookup_insert_eq|]. rewrite lookup_insert_ne.
    + apply (held_tree me path _ H). by right.
    + intros ->. apply Hna. apply list_elem_of_fmap. by exists (a', n).
  - intros a' n Hin. simpl. rewrite lookup_insert_ne; [by apply (held_path me path _ H)|]. intros ->. eapply (held_apart me path _ H a'); [simpl; left|exact Hin].
Qed.

(** The tree after a search without success. *)
Fixpoint notes (t : tree) : tree :=
  match t with
  | E => E
  | N l a kx v b r =>
      if cmp kx k =? 0 then t
      else if 0 <? cmp kx k then N (notes l) a kx v (noted b RIGHT) r
      else N l a kx v (noted b LEFT) (notes r)
  end.

(** The path to the node that is brought up, and the tree it is the root of. *)
Fixpoint find (t : tree) (path : list frame) : option (list frame * tree) :=
  match t with
  | E => None
  | N l a kx v b r =>
      if cmp kx k =? 0 then Some (path, t)
      else if 0 <? cmp kx k then
        match find l (FL a kx v (noted b RIGHT) r :: path) with
        | Some z => Some z
        | None => if update then Some (path, N (notes l) a kx v (noted b RIGHT) r) else None
        end
      else
        match find r (FR l a kx v (noted b LEFT) :: path) with
        | Some z => Some z
        | None => if update then Some (path, N l a kx v (noted b LEFT) (notes r)) else None
        end
  end.

(** How far a call brings up a node that is [n] steps below. *)
Definition lift (n : nat) : nat := 2 * (n / 2) + 2.

Definition splayed (me' : pseudolru_t) (next : Z) (t : tree) (path : list frame) : Prop :=
  match find t path with
  | None => next = 0 /\ holds me' (plug path (notes t))
  | Some (q, x) => x <> E /\ next = addr x /\ exists q0, q = q0 ++ path /\ holds me' (plug (drop (lift (List.length q0)) q) (move (take (lift (List.length q0)) q) x))
  end.

(** What a call does once the search below has come back. *)
Definition after (me : pseudolru_t) (path : list frame) (next : Z) : res (pseudolru_t * Z) :=
  c ← deref me (slot_of path);
  if next =? 0 then if update then bring_up me (gpa_of path) (pa_of path) c else Ok (me, 0)
  else if negb (next =? c) then Ok (me, next)
  else bring_up me (gpa_of path) (pa_of path) next.

Lemma nonempty_addr me path x : x <> E -> holds me (plug path x) -> addr x <> 0.
Proof. intros Hx H. pose proof (held_addr me path x H (addr x) (addr_in x Hx)). lia. Qed.

(** The node itself is brought up. *)
Lemma after_here me path x :
  x <> E -> holds me (plug path x) ->
  exists me', after me path (addr x) = Ok (me', addr x) /\ same me me' /\ holds me' (plug (drop 2 path) (move (take 2 path) x)).
Proof.
  intros Hx H. unfold after. rewrite (held_deref me path x H). cbn [mbind res_bind]. rewrite (proj2 (Z.eqb_neq _ _)) by by eapply nonempty_addr.
  rewrite Z.eqb_refl. simpl negb. cbn iota. by apply bring_up_ok.
Qed.

Lemma drop_app_add {A} (l l' : list A) n : drop (List.length l + n) (l ++ l') = drop n l'.
Proof. by rewrite <- drop_drop, drop_app_length. Qed.

Lemma take_app_add' {A} (l l' : list A) n : take (List.length l + n) (l ++ l') = l ++ take n l'.
Proof. apply take_app_add. Qed.

(** A node found below. *)
Lemma after_below me path f q0 x :
  x <> E -> let q := q0 ++ f :: path in holds me (plug (drop (lift (List.length q0)) q) (move (take (lift (List.length q0)) q) x)) ->
  exists me', after me path (addr x) = Ok (me', addr x) /\ same me me' /\
    holds me' (plug (drop (lift (S (List.length q0))) q) (move (take (lift (S (List.length q0))) q) x)).
Proof.
  intros Hx q H. assert (q = (q0 ++ [f]) ++ path) as Eq by (unfold q; by rewrite <- app_assoc). set (n := List.length q0) in *.
  assert (List.length (q0 ++ [f]) = S n) as El by (rewrite length_app; simpl; lia).
  assert ((lift n = S n /\ lift (S n) = S n + 2)%nat \/ (lift n = S n + 1 /\ lift (S n) = lift n)%nat) as [[E1 E2]|[E1 E2]].
  { unfold lift. destruct (Nat.Even_or_Odd n) as [[m Hm]|[m Hm]]; [right|left]; rewrite Hm.
    - replace (2 * m / 2)%nat with m by (rewrite Nat.mul_comm, Nat.div_mul; lia). replace (S (2 * m) / 2)%nat with m by (apply (Nat.div_unique _ _ _ 1); lia). lia.
    - replace ((2 * m + 1) / 2)%nat with m by (apply (Nat.div_unique _ _ _ 1); lia). replace (S (2 * m + 1) / 2)%nat with (S m) by (apply (Nat.div_unique _ _ _ 0); lia). lia. }
  - rewrite E2. rewrite E1, Eq in H. rewrite <- El, drop_app_length, take_app_length in H. rewrite Eq, <- El, drop_app_add, take_app_add', move_app.
    rewrite <- (addr_move (q0 ++ [f]) x) by done. apply after_here; [by apply move_nonempty|done].
  - rewrite E2. pose proof H as H'. rewrite E1, Eq, <- El, drop_app_add, take_app_add', move_app in H. destruct path as [|g path].
    + simpl in H. exists me. split; [|done]. unfold after. pose proof (held_deref me [] _ H) as Hd. rewrite addr_move in Hd by done. rewrite Hd. cbn [mbind res_bind].
      rewrite <- (addr_move (q0 ++ [f]) x) at 1 2 by done. rewrite (proj2 (Z.eqb_neq _ _)), addr_move, Z.eqb_refl by (done || (eapply (nonempty_addr me []); [by apply move_nonempty|done])). done.
    + simpl in H. exists me. split; [|done]. unfold after. destruct (passed me (drop 0 path) g (move (q0 ++ [f]) x)) as (c & Hc & Hne); [by apply move_nonempty|done|].
      simpl slot_of. rewrite Hc. cbn [mbind res_bind]. rewrite addr_move in Hne by done. assert (addr x <> 0) as Hx0.
      { rewrite <- (addr_move (q0 ++ [f]) x), <- (addr_rot g) by (done || by apply move_nonempty). eapply nonempty_addr; [by apply rot_nonempty, move_nonempty|exact H]. }
      rewrite (proj2 (Z.eqb_neq (addr x) 0)), (proj2 (Z.eqb_neq (addr x) c)) by (done || lia). done.
Qed.

Lemma splay_S fuel me path :
  splay cmp lru (S fuel) me update (gpa_of path) (pa_of path) (slot_of path) k =
  (c ← deref me (slot_of path);
   if c =? 0 then Ok (me, 0)
   else
     n ← node me c;
     '(me, next) ←
       (if cmp (key n) k =? 0 then Ok (me, c)
        else if 0 <? cmp (key n) k then
          me ← note lru me c RIGHT; splay cmp lru fuel me update (pa_of path) (Some (slot_of path)) (LeftOf c) k
        else
          me ← note lru me c LEFT; splay cmp lru fuel me update (pa_of path) (Some (slot_of path)) (RightOf c) k);
     after me path next).
Proof. done. Qed.

Lemma splay_spec t path fuel me :
  holds me (plug path t) -> (tsize t < fuel)%nat ->
  exists me' next, splay cmp lru fuel me update (gpa_of path) (pa_of path) (slot_of path) k = Ok (me', next) /\ same me me' /\ splayed me' next t path.
Proof.
  revert path fuel me. induction t as [|l IHl a kx v b r IHr]; intros path fuel me H Hf; (destruct fuel as [|fuel]; [lia|]); rewrite splay_S, (held_deref me path _ H); cbn [mbind res_bind].
  { exists me, 0. split; [done|]. by split. }
  pose proof (nonempty_addr me path (N l a kx v b r) ltac:(done) H) as Ha. simpl addr in Ha |- *. rewrite (proj2 (Z.eqb_neq a 0)) by done.
  unfold node. rewrite (held_tree me path _ H a (mk_node (addr l) (addr r) kx v b)) by (simpl; left). cbn [mbind res_bind]. simpl key.
  simpl in Hf. unfold splayed. simpl find. simpl notes. destruct (Z.eqb_spec (cmp kx k) 0) as [E0|E0].
  { destruct (after_here me path (N l a kx v b r)) as (me' & Ea & Hs & Hh); [done|done|]. exists me', a. split; [exact Ea|]. split; [done|]. split_and!; [done|done|]. by exists []. }
  assert (forall f s (IH : forall path fuel me, holds me (plug path s) -> (tsize s < fuel)%nat ->
      exists me' next, splay cmp lru fuel me update (gpa_of path) (pa_of path) (slot_of path) k = Ok (me', next) /\ same me me' /\ splayed me' next s path)
      (m : pseudolru_t), (tsize s < fuel)%nat -> addr (fill f s) = a -> holds m (plug (f :: path) s) ->
    exists me' next, ('(m, next) ← splay cmp lru fuel m update (pa_of path) (Some (slot_of path)) (frame_slot f) k; after m path next) = Ok (me', next) /\ same m me' /\
      match (match find s (f :: path) with Some z => Some z | None => if update then Some (path, fill f (notes s)) else None end) with
      | None => next = 0 /\ holds me' (plug path (fill f (notes s)))
      | Some (q, x) => x <> E /\ next = addr x /\ exists q0, q = q0 ++ path /\ holds me' (plug (drop (lift (List.length q0)) q) (move (take (lift (List.length q0)) q) x))
      end) as Hdown.
  { intros f s IH m Hfs Hfa Hm. destruct (IH (f :: path) fuel m Hm Hfs) as (m1 & next & E1 & Hs1 & Hsp). simpl gpa_of in E1. simpl pa_of in E1. simpl slot_of in E1.
    rewrite E1. cbn [mbind res_bind]. unfold splayed in Hsp. destruct (find s (f :: path)) as [[q x]|].
    - destruct Hsp as (Hx & -> & q0 & -> & Hh). destruct (after_below m1 path f q0 x Hx Hh) as (me' & Ea & Hs2 & Hh2).
      exists me', (addr x). split; [done|]. split; [by eapply same_trans|]. split_and!; [done|done|]. exists (q0 ++ [f]). rewrite length_app, Nat.add_comm. simpl. by rewrite <- app_assoc.
    - destruct Hsp as [-> Hh]. simpl plug in Hh. assert (fill f (notes s) <> E) as Hne by by destruct f.
      unfold after. rewrite (held_deref m1 path _ Hh). cbn [mbind res_bind]. simpl Z.eqb. cbn iota. destruct update.
      + destruct (bring_up_ok m1 path (fill f (notes s)) Hne Hh) as (me' & Eb & Hs2 & Hh2). exists me', (addr (fill f (notes s))).
        split; [done|]. split; [by eapply same_trans|]. split_and!; [done|done|]. by exists [].
      + exists m1, 0. done. }
  destruct (0 <? cmp kx k).
  - destruct (note_ok me path l a kx v b r RIGHT H) as (m & -> & Hsm & Hm). cbn [mbind res_bind].
    destruct (Hdown (FL a kx v (noted b RIGHT) r) l IHl m) as (me' & next & E & Hs & Hh); [lia|done|done|]. exists me', next. split; [exact E|]. split; [by eapply same_trans|done].
  - destruct (note_ok me path l a kx v b r LEFT H) as (m & -> & Hsm & Hm). cbn [mbind res_bind].
    destruct (Hdown (FR l a kx v (noted b LEFT)) r IHr m) as (me' & next & E & Hs & Hh); [lia|done|done|]. exists me', next. split; [exact E|]. split; [by eapply same_trans|done].
Qed.

(** From the root: what is found becomes the root. *)
Lemma splay_root t fuel me :
  holds me t -> (tsize t < fuel)%nat ->
  exists me', same me me' /\
    match find t [] with
    | None => splay cmp lru fuel me update None None Root k = Ok (me', 0) /\ holds me' (notes t)
    | Some (q, x) => x <> E /\ splay cmp lru fuel me update None None Root k = Ok (me', addr x) /\ holds me' (move q x)
    end.
Proof.
  intros H Hf. destruct (splay_spec t [] fuel me H Hf) as (me' & next & E1 & Hs & Hsp). exists me'. split; [done|]. unfold splayed in Hsp.
  destruct (find t []) as [[q x]|]; [|destruct Hsp as [-> ?]; done]. destruct Hsp as (Hx & -> & q0 & -> & Hh). split_and!; [done|done|]. rewrite app_nil_r in *.
  assert (List.length q0 <= lift (List.length q0))%nat by (unfold lift; pose proof (Nat.div_mod_eq (List.length q0) 2); pose proof (Nat.mod_upper_bound (List.length q0) 2); lia).
  by rewrite drop_ge, take_ge in Hh by done.
Qed.
End search.
End Splay.
