(* ===== verification/PseudoLru.v ===== *)
(** * The pseudo-LRU tree and the splay tree (src/PUTs/06pseudolru-master/pseudolru.c,
      src/PUTs/09splay-tree-master/splaytree.c)

    The operations of the two programs on the pointer trees, and the finite map that the
    pseudo-LRU tree is.  The depth of a tree is bounded by the number of nodes in the
    memory, which is the fuel of the searches. *)

From Stdlib Require Import Sorted.
From S2P Require Import Prelude History SortedMap Splay.
Import Splay SortedMap.

Module PseudoLru.

Section operations.
Context (cmp : Z -> Z -> Z) (lru : bool).

Definition depth (me : pseudolru_t) : nat := S (base.size (mem me)).

Definition pseudolru_is_empty (me : pseudolru_t) : bool := root me =? 0.

Definition pseudolru_count (me : pseudolru_t) : Z := count me.

Definition pseudolru_peek (me : pseudolru_t) : res Z := if root me =? 0 then Ok 0 else n ← node me (root me); Ok (value n).

Definition pseudolru_get (me : pseudolru_t) (k : Z) : res (pseudolru_t * Z) :=
  '(me, p) ← splay cmp lru (depth me) me false None None Root k;
  if p =? 0 then Ok (me, 0) else n ← node me p; Ok (me, value n).

(** The root goes to the right of the new node, and its left side to the left. *)
Definition link_right (me : pseudolru_t) (new : Z) : res pseudolru_t :=
  n ← node me new;
  let me := set_node me new (with_right n (root me)) in
  n ← node me new;
  r ← node me (right n);
  let me := set_node me new (with_left n (left r)) in
  r ← node me (right n);
  Ok (set_node me (right n) (with_left r 0)).

Definition link_left (me : pseudolru_t) (new : Z) : res pseudolru_t :=
  n ← node me new;
  let me := set_node me new (with_left n (root me)) in
  n ← node me new;
  l ← node me (left n);
  let me := set_node me new (with_right n (right l)) in
  l ← node me (left n);
  Ok (set_node me (left n) (with_right l 0)).

Definition pseudolru_put (me : pseudolru_t) (k v : Z) : res pseudolru_t :=
  if root me =? 0 then
    let '(me, p) := init_node me k v in
    c ← chk (count me + 1);
    Ok (set_count (set_root me p) c)
  else
    '(me, new) ← splay cmp lru (depth me) me true None None Root k;
    r ← node me (root me);
    let c := cmp (key r) k in
    '(me, new) ←
      (if c =? 0 then Ok (me, new)
       else
         let '(me, new) := init_node me k v in
         me ← (if 0 <? c then link_right me new else link_left me new);
         c ← chk (count me + 1);
         Ok (set_count me c, new));
    Ok (set_root me new).

(** The node furthest to the right, and the one before it. *)
Fixpoint highest (fuel : nat) (me : pseudolru_t) (prev p : Z) : res (Z * Z) :=
  match fuel with
  | O => OutOfFuel
  | S fuel => n ← node me p; if right n =? 0 then Ok (prev, p) else highest fuel me p (right n)
  end.

Definition free_node (me : pseudolru_t) (p : Z) : pseudolru_t := mk_tree (root me) (count me) (delete p (mem me)) (fresh me).

(** The root [rt], whose node is [r], gives way to the highest node on its left, or to
    its right side. *)
Definition unlink_root (me : pseudolru_t) (rt : Z) (r : tree_node_t) : res pseudolru_t :=
  if negb (left r =? 0) then
    '(prev, left_highest) ← highest (depth me) me rt (left r);
    me ← (if negb (prev =? rt) then
            h ← node me left_highest;
            p ← node me prev;
            let me := set_node me prev (with_right p (left h)) in
            h ← node me left_highest;
            Ok (set_node me left_highest (with_left h (left r)))
          else Ok me);
    let me := set_root me left_highest in
    h ← node me left_highest;
    Ok (set_node me left_highest (with_right h (right r)))
  else Ok (set_root me (right r)).

Definition pseudolru_remove (me : pseudolru_t) (k : Z) : res (pseudolru_t * Z) :=
  '(me, v) ← pseudolru_get me k;
  if v =? 0 then Ok (me, 0)
  else
    let rt := root me in
    r ← node me rt;
    if (count me <=? 0) || negb (key r =? k) then Exit 134
    else
      me ← unlink_root me rt r;
      c ← chk (count me - 1);
      Ok (free_node (set_count me c) rt, value r).

(** The node the bits lead to. *)
Fixpoint get_lru (fuel : nat) (me : pseudolru_t) (p : Z) : res Z :=
  match fuel with
  | O => OutOfFuel
  | S fuel =>
      if p =? 0 then Ok 0
      else
        n ← node me p;
        if bit n =? RIGHT then if negb (right n =? 0) then get_lru fuel me (right n) else Ok p
        else if bit n =? LEFT then if negb (left n =? 0) then get_lru fuel me (left n) else Ok p
        else Ok p
  end.

Definition pseudolru_pop_lru (me : pseudolru_t) : res (pseudolru_t * Z) :=
  p ← get_lru (depth me) me (root me);
  n ← node me p;
  pseudolru_remove me (key n).
End operations.

(** ** The splay tree *)

Section splaytree.
Context (cmp : Z -> Z -> Z).

Definition splaytree_initalloc : pseudolru_t := pseudolru_new.
Definition splaytree_splay := splay cmp false.
Definition splaytree_is_empty : pseudolru_t -> bool := pseudolru_is_empty.
Definition splaytree_count : pseudolru_t -> Z := pseudolru_count.
Definition splaytree_peek : pseudolru_t -> res Z := pseudolru_peek.
Definition splaytree_get : pseudolru_t -> Z -> res (pseudolru_t * Z) := pseudolru_get cmp false.
Definition splaytree_put : pseudolru_t -> Z -> Z -> res pseudolru_t := pseudolru_put cmp false.

Definition splaytree_remove (st : pseudolru_t) (k : Z) : res (pseudolru_t * Z) :=
  '(st, v) ← splaytree_get st k;
  if v =? 0 then Ok (st, 0)
  else
    let rt := root st in
    r ← node st rt;
    if (count st <=? 0) || negb (key r =? k) then Exit 134
    else
      st ← (if negb (left r =? 0) then
              '(prev, left_highest) ← highest (depth st) st rt (left r);
              p ← node st prev;
              let st := set_root (set_node st prev (with_right p 0)) left_highest in
              r' ← node st rt;
              h ← node st left_highest;
              let st := set_node st left_highest (with_left h (left r')) in
              h ← node st left_highest;
              Ok (set_node st left_highest (with_right h (right r')))
            else Ok (set_root st (right r)));
      c ← chk (count st - 1);
      if root st =? rt then Exit 134 else Ok (free_node (set_count st c) rt, value r).
End splaytree.

(** ** The nodes in their order *)

Fixpoint els (t : tree) : list (Z * Z) :=
  match t with
  | E => []
  | N l _ k v _ r => els l ++ (k, v) :: els r
  end.

Fixpoint bef (q : list frame) : list (Z * Z) :=
  match q with
  | [] => []
  | FL _ _ _ _ _ :: q => bef q
  | FR l _ k v _ :: q => bef q ++ els l ++ [(k, v)]
  end.

Fixpoint aft (q : list frame) : list (Z * Z) :=
  match q with
  | [] => []
  | FL _ k v _ r :: q => (k, v) :: els r ++ aft q
  | FR _ _ _ _ _ :: q => aft q
  end.

Lemma els_plug q t : els (plug q t) = bef q ++ els t ++ aft q.
Proof.
  revert t. induction q as [|[a k v b r|l a k v b] q IH]; intros t; simpl; [by rewrite app_nil_r|..]; rewrite IH; simpl; by rewrite <- !app_assoc.
Qed.

(** A node that is brought up keeps the order. *)
Lemma els_move q l a k v b r :
  exists l' r', move q (N l a k v b r) = N l' a k v b r' /\ els l' = bef q ++ els l /\ els r' = els r ++ aft q.
Proof.
  revert l r. induction q as [|[p kp vp bp s|s p kp vp bp] q IH]; intros l r; simpl; [exists l, r; by rewrite app_nil_r|..].
  - destruct (IH l (N r p kp vp bp s)) as (l' & r' & E1 & E2 & E3). exists l', r'. split; [done|]. split; [done|]. rewrite E3. simpl. by rewrite <- !app_assoc.
  - destruct (IH (N s p kp vp bp l) r) as (l' & r' & E1 & E2 & E3). exists l', r'. split; [done|]. rewrite E2. simpl. by rewrite <- !app_assoc.
Qed.

(** ** The order of the keys *)

(** Keys compare as the numbers they stand for. *)
Class CmpLaws (cmp : Z -> Z -> Z) (ord : Z -> Z) : Prop := {
  cmp_eq : forall x y, cmp x y = 0 <-> ord x = ord y;
  cmp_gt : forall x y, 0 < cmp x y <-> ord y < ord x
}.

Section order.
Context (cmp : Z -> Z -> Z) (lru : bool) (ord : Z -> Z) `{!CmpLaws cmp ord}.

#[local] Notation lt_el := (lt_el ord).
#[local] Notation sorted := (sorted ord).
#[local] Notation map_of := (map_of ord).

(** ** What a search finds *)

Section search.
Context (update : bool) (k : Z).

Definition below (x : Z * Z) : Prop := ord x.1 < ord k.
Definition above (x : Z * Z) : Prop := ord k < ord x.1.

Lemma els_notes t : els (notes cmp lru k t) = els t.
Proof. induction t as [|l IHl a kx v b r IHr]; simpl; [done|]. destruct (cmp kx k =? 0); [done|]. destruct (0 <? cmp kx k); simpl; by rewrite ?IHl, ?IHr. Qed.

Lemma els_bit path l a kx v b b' r : els (plug path (N l a kx v b r)) = els (plug path (N l a kx v b' r)).
Proof. by rewrite !els_plug. Qed.

(** The node that is brought up has the key, or is next to where the key would be. *)
Lemma find_spec t path :
  sorted (els t) -> Forall below (bef path) -> Forall above (aft path) ->
  match find cmp lru update k t path with
  | Some (q, x) => exists l a kx v b r, x = N l a kx v b r /\ els (plug q x) = els (plug path t) /\ Forall below (bef q) /\ Forall above (aft q) /\
      (ord kx = ord k \/ (update = true /\ ord k < ord kx /\ els l = []) \/ (update = true /\ ord kx < ord k /\ els r = []))
  | None => (update = true -> t = E) /\ Forall (fun x => ord x.1 <> ord k) (els t)
  end.
Proof.
  revert path. induction t as [|l IHl a kx v b r IHr]; intros path Hs Hb Ha; simpl; [done|].
  apply sorted_mid in Hs as (Hsl & Hsr & Hl & Hr). simpl in *. destruct (Z.eqb_spec (cmp kx k) 0) as [E0|E0].
  { apply cmp_eq in E0. exists l, a, kx, v, b, r. split_and!; auto. }
  assert (ord kx <> ord k) as Hne by by rewrite <- cmp_eq.
  destruct (Z.ltb_spec 0 (cmp kx k)) as [Hgt|Hle].
  - apply cmp_gt in Hgt. assert (Forall above ((kx, v) :: els r)) as Har.
    { constructor; [done|]. eapply Forall_impl; [exact Hr|]. unfold lt_el, above. simpl. lia. }
    rewrite (els_bit path l a kx v b (noted lru b RIGHT) r). specialize (IHl (FL a kx v (noted lru b RIGHT) r :: path) Hsl). simpl in IHl.
    destruct (find cmp lru update k l _) as [[q x]|]; [apply IHl; [done|by rewrite app_comm_cons; apply Forall_app]|].
    destruct IHl as [IH1 IH2]; [done|by rewrite app_comm_cons; apply Forall_app|]. destruct update.
    + specialize (IH1 eq_refl) as ->. simpl. eexists _, _, _, _, _, _. split; [done|]. split_and!; [by rewrite !els_plug|done|done|auto].
    + split; [done|]. apply Forall_app. split; [done|]. constructor; [done|]. apply Forall_cons in Har as [_ Har]. eapply Forall_impl; [exact Har|]. unfold above. lia.
  - assert (ord kx < ord k) as Hlt.
    { destruct (Z.lt_ge_cases (ord k) (ord kx)) as [H|H]; [apply cmp_gt in H; lia|lia]. }
    assert (Forall below (els l ++ [(kx, v)])) as Hbl.
    { apply Forall_app. split; [eapply Forall_impl; [exact Hl|]; unfold lt_el, below; simpl; lia|by constructor]. }
    rewrite (els_bit path l a kx v b (noted lru b LEFT) r). specialize (IHr (FR l a kx v (noted lru b LEFT) :: path) Hsr). simpl in IHr.
    destruct (find cmp lru update k r _) as [[q x]|]; [apply IHr; [by apply Forall_app|done]|].
    destruct IHr as [IH1 IH2]; [by apply Forall_app|done|]. destruct update.
    + specialize (IH1 eq_refl) as ->. simpl. eexists _, _, _, _, _, _. split; [done|]. split_and!; [by rewrite !els_plug|done|done|auto].
    + split; [done|]. apply Forall_app in Hbl as [Hbl _]. apply Forall_app. split; [eapply Forall_impl; [exact Hbl|]; unfold below; lia|]. by constructor.
Qed.
End search.

(** ** Getting *)

Lemma length_nodes t : List.length (nodes t) = tsize t.
Proof. induction t as [|l IHl a k v b r IHr]; simpl; [done|]. by rewrite length_app, IHl, IHr. Qed.

Lemma depth_ok me t : holds me t -> (tsize t < depth me)%nat.
Proof.
  intros H. unfold depth. assert (tsize t <= base.size (mem me))%nat; [|lia]. rewrite <- length_nodes.
  rewrite <- (map_size_list_to_map (M := gmap Z) (nodes t)) by apply H. apply map_subseteq_size, map_subseteq_spec.
  intros a n Hin. apply (h_nodes _ _ H). by apply elem_of_list_to_map_2 in Hin.
Qed.

Lemma els_root_move q l a k v b r t :
  els (plug q (N l a k v b r)) = els t -> exists l' r', move q (N l a k v b r) = N l' a k v b r' /\ els l' = bef q ++ els l /\ els r' = els r ++ aft q /\ els (N l' a k v b r') = els t.
Proof.
  intros He. destruct (els_move q l a k v b r) as (l' & r' & E1 & E2 & E3). exists l', r'. split_and!; try done.
  rewrite <- He, els_plug. simpl. rewrite E2, E3. by rewrite <- !app_assoc.
Qed.

Lemma sorted_below_above k l1 l2 : Forall (below k) l1 -> Forall (above k) l2 -> forall x y, x ∈ l1 -> y ∈ l2 -> lt_el x y.
Proof. rewrite !Forall_forall. unfold below, above, lt_el. intros H1 H2 x y Hx Hy. specialize (H1 x Hx). specialize (H2 y Hy). lia. Qed.

(** A successful search makes the node the root; without success the tree keeps its
    shape. *)
Lemma lru_get_spec me t k :
  holds me t -> sorted (els t) ->
  exists me' t', pseudolru_get cmp lru me k = Ok (me', default 0 (snd <$> map_of (els t) !! ord k)) /\ same me me' /\ holds me' t' /\ els t' = els t /\
    (is_Some (map_of (els t) !! ord k) -> exists l a kx v b r, t' = N l a kx v b r /\ ord kx = ord k /\ map_of (els t) !! ord k = Some (kx, v)).
Proof.
  intros H Hs. unfold pseudolru_get. destruct (splay_root cmp lru false k t (depth me) me H (depth_ok me t H)) as (me' & Hsame & Hsp).
  pose proof (find_spec false k t [] Hs) as Hf. destruct (find cmp lru false k t []) as [[q x]|].
  - destruct Hf as (l & a & kx & v & b & r & -> & He & _ & _ & Hk); [done|done|]. destruct Hsp as (_ & -> & Hh). cbn [mbind res_bind]. simpl addr.
    assert (ord kx = ord k) as Hok by (destruct Hk as [?|[[? _]|[? _]]]; done).
    destruct (els_root_move q l a kx v b r t He) as (l' & r' & Em & _ & _ & Et). rewrite Em in Hh.
    assert (map_of (els t) !! ord k = Some (kx, v)) as Hm.
    { apply map_of_lookup; [done|]. split; [|done]. rewrite <- Et. simpl. apply elem_of_app. right. left. }
    rewrite (proj2 (Z.eqb_neq a 0)) by (eapply (nonempty_addr me' [] (N l' a kx v b r')); done). unfold node.
    rewrite (h_nodes _ _ Hh a (mk_node (addr l') (addr r') kx v b)) by (simpl; left). cbn [mbind res_bind]. rewrite Hm. simpl.
    exists me', (N l' a kx v b r'). split_and!; [done|done|done|done|]. intros _. exists l', a, kx, v, b, r'. done.
  - destruct Hf as [_ Hno]; [done|done|]. destruct Hsp as [-> Hh]. cbn [mbind res_bind]. simpl.
    assert (map_of (els t) !! ord k = None) as -> by (apply map_of_none; [done|]; by rewrite Forall_forall in Hno).
    exists me', (notes cmp lru k t). split_and!; [done|done|done|apply els_notes|]. intros [? ?]. done.
Qed.

(** ** Putting *)

(** A new node above the root. *)
Lemma new_root_holds me l x kx vx bx r k v side :
  holds me (N l x kx vx bx r) ->
  let f := fresh me in
  let t' := if side : bool then N l f k v 0 (N E x kx vx bx r) else N (N l x kx vx bx E) f k v 0 r in
  let m := <[x := mk_node (if side then 0 else addr l) (if side then addr r else 0) kx vx bx]>
           (<[f := mk_node (if side then addr l else x) (if side then x else addr r) k v 0]> (mem me)) in
  forall c, holds (mk_tree f c m (f + 1)) t'.
Proof.
  intros H f t' m c. pose proof (h_nodup _ _ H) as Hnd. pose proof (h_addr _ _ H) as Ha. simpl in Hnd, Ha. apply NoDup_cons in Hnd as [Hx Hnd].
  assert (forall a, a ∈ x :: (nodes l ++ nodes r).*1 -> a <> f /\ 0 < a < f) as Hf by (intros a Hin; specialize (Ha a Hin); unfold f; lia).
  assert (x <> f) as Hxf by (apply Hf; left). assert (0 < f) as Hf0 by (specialize (Ha x ltac:(left)); unfold f; lia).
  assert (nodes t' ≡ₚ (f, mk_node (if side then addr l else x) (if side then x else addr r) k v 0) ::
    (x, mk_node (if side then 0 else addr l) (if side then addr r else 0) kx vx bx) :: nodes l ++ nodes r) as Hn by (unfold t'; destruct side; simpl; solve_Permutation).
  split; simpl.
  - unfold t'. by destruct side.
  - intros a n. rewrite Hn. intros [[= -> ->]|[[= -> ->]|Hin]%elem_of_cons]%elem_of_cons; unfold m.
    + by rewrite lookup_insert_ne, lookup_insert_eq by done.
    + by rewrite lookup_insert_eq.
    + assert (a ∈ (nodes l ++ nodes r).*1) as Hin' by (apply list_elem_of_fmap; by exists (a, n)).
      rewrite !lookup_insert_ne; [apply (h_nodes _ _ H); by right| |by intros ->]. intros <-. by destruct (Hf f ltac:(by right)).
  - eapply nodup_perm; [symmetry; by rewrite Hn|]. simpl. constructor; [|by constructor]. intros Hin. by destruct (Hf f Hin).
  - intros a. rewrite Hn. simpl. intros [->|Hin]%elem_of_cons; [lia|]. specialize (Hf a Hin). lia.
Qed.

Lemma link_right_ok me new n x nx :
  root me = x -> mem me !! new = Some n -> mem me !! x = Some nx -> x <> new ->
  link_right me new = Ok (mk_tree x (count me) (<[x := with_left nx 0]> (<[new := mk_node (left nx) x (key n) (value n) (bit n)]> (mem me))) (fresh me)).
Proof.
  intros Hr Hn Hx Hne. unfold link_right, node. rewrite Hn. cbn [mbind res_bind]. simpl. rewrite lookup_insert_eq. cbn [mbind res_bind]. simpl.
  rewrite Hr, lookup_insert_ne, Hx by done. cbn [mbind res_bind]. rewrite insert_insert_eq, lookup_insert_ne, Hx by done. cbn [mbind res_bind].
  unfold set_node. simpl. by rewrite insert_insert_eq, Hr.
Qed.

Lemma link_left_ok me new n x nx :
  root me = x -> mem me !! new = Some n -> mem me !! x = Some nx -> x <> new ->
  link_left me new = Ok (mk_tree x (count me) (<[x := with_right nx 0]> (<[new := mk_node x (right nx) (key n) (value n) (bit n)]> (mem me))) (fresh me)).
Proof.
  intros Hr Hn Hx Hne. unfold link_left, node. rewrite Hn. cbn [mbind res_bind]. simpl. rewrite lookup_insert_eq. cbn [mbind res_bind]. simpl.
  rewrite Hr, lookup_insert_ne, Hx by done. cbn [mbind res_bind]. rewrite insert_insert_eq, lookup_insert_ne, Hx by done. cbn [mbind res_bind].
  unfold set_node. simpl. by rewrite insert_insert_eq, Hr.
Qed.

(** A new key in its place. *)
Lemma insert_between l1 l2 k v :
  sorted (l1 ++ l2) -> Forall (below k) l1 -> Forall (above k) l2 ->
  sorted (l1 ++ (k, v) :: l2) /\ map_of (l1 ++ l2) !! ord k = None /\ map_of (l1 ++ (k, v) :: l2) = <[ord k := (k, v)]> (map_of (l1 ++ l2)).
Proof.
  intros Hs Hb Ha. pose proof Hs as (H1 & H2 & _)%sorted_app. assert (sorted (l1 ++ (k, v) :: l2)) as Hs'.
  { apply sorted_mid. split_and!; try done. }
  split_and!; [done| |by apply map_of_insert]. apply map_of_none; [done|]. rewrite Forall_forall in Hb, Ha. unfold below, above in *.
  intros kv [Hin|Hin]%elem_of_app; [specialize (Hb kv Hin)|specialize (Ha kv Hin)]; lia.
Qed.

(** The memory holds a sorted tree with these entries. *)
Record keeps (me : pseudolru_t) (l : list (Z * Z)) : Prop := {
  k_tree : exists t, holds me t /\ els t = l;
  k_sorted : sorted l;
  k_count : count me = Z.of_nat (List.length l) /\ Z.of_nat (List.length l) <= int_max;
  k_fresh : 0 < fresh me;
  k_vals : Forall (fun kv => kv.2 <> 0) l
}.

Lemma empty_root me t : holds me t -> root me = 0 -> t = E.
Proof. intros H H0. destruct t as [|l a k v b r]; [done|]. exfalso. rewrite (h_root _ _ H) in H0. by apply (nonempty_addr me [] (N l a k v b r)) in H0. Qed.

Lemma lru_put_spec me l k v :
  keeps me l -> v <> 0 -> Z.of_nat (List.length l) < int_max ->
  exists me' l', pseudolru_put cmp lru me k v = Ok me' /\ keeps me' l' /\
    map_of l' = match map_of l !! ord k with Some _ => map_of l | None => <[ord k := (k, v)]> (map_of l) end.
Proof.
  intros [(t & H & <-) Hs [Hc Hcm] Hf Hv] Hv0 Hn. unfold pseudolru_put.
  assert (chk (count me + 1) = Ok (count me + 1)) as Hchk by (apply chk_ok; unfold in_int, int_min, int_max in *; lia).
  destruct (Z.eqb_spec (root me) 0) as [E0|E0].
  { pose proof (empty_root me t H E0) as ->. simpl. simpl in Hchk. rewrite Hchk. cbn [mbind res_bind]. eexists _, [(k, v)]. split; [done|]. split; [|done].
    split; simpl; [|by repeat constructor|simpl in Hc; lia|lia|by constructor]. exists (N E (fresh me) k v 0 E). split; [|done].
    split; simpl; [done| |by apply NoDup_singleton|intros a ->%list_elem_of_singleton; lia]. intros a n [= -> ->]%list_elem_of_singleton. by rewrite lookup_insert_eq. }
  destruct (splay_root cmp lru true k t (depth me) me H (depth_ok me t H)) as (m1 & [Hc1 Hf1] & Hsp). pose proof (find_spec true k t [] Hs) as Hfind.
  destruct (find cmp lru true k t []) as [[q x]|].
  2:{ destruct Hfind as [HE _]; [done|done|]. rewrite HE in H by done. by rewrite (h_root _ _ H) in E0. }
  destruct Hfind as (l & a & kx & vx & b & r & -> & He & Hbq & Haq & Hk); [done|done|]. destruct Hsp as (_ & -> & Hh). cbn [mbind res_bind].
  destruct (els_root_move q l a kx vx b r t He) as (l' & r' & Em & El & Er & Et). rewrite Em in Hh. rewrite (h_root _ _ Hh). simpl addr. unfold node.
  rewrite (h_nodes _ _ Hh a (mk_node (addr l') (addr r') kx vx b)) by (simpl; left). cbn [mbind res_bind]. simpl key.
  pose proof Hs as Hs'. rewrite <- Et in Hs'. simpl in Hs'.
  destruct (Z.eqb_spec (cmp kx k) 0) as [E1|E1].
  { apply cmp_eq in E1. cbn [mbind res_bind]. eexists _, (els t). split; [done|]. split.
    - split; [|done|simpl; lia|simpl; lia|done]. exists (N l' a kx vx b r'). split; [|done]. destruct Hh as [G1 G2 G3 G4]. by split.
    - assert (map_of (els t) !! ord k = Some (kx, vx)) as ->; [|done]. apply map_of_lookup; [done|]. split; [|done]. rewrite <- Et. simpl. apply elem_of_app. right. left. }
  assert (ord kx <> ord k) as Hne by by rewrite <- cmp_eq. assert (a <> fresh m1) as Haf by (pose proof (h_addr _ _ Hh a ltac:(simpl; left)); lia).
  assert (exists side, (0 <? cmp kx k) = side /\ let l1 := if side : bool then els l' else els l' ++ [(kx, vx)] in let l2 := if side then (kx, vx) :: els r' else els r' in
    Forall (below k) l1 /\ Forall (above k) l2 /\ els t = l1 ++ l2) as (side & Eside & Hb1 & Ha2 & Esplit).
  { apply sorted_mid in Hs' as (_ & _ & Hlt & Hgt). exists (0 <? cmp kx k). split; [done|]. destruct Hk as [?|[(_ & Hkx & Hl)|(_ & Hkx & Hr)]]; [done|..].
    - rewrite (proj2 (Z.ltb_lt _ _)) by by apply cmp_gt. rewrite El, Hl, app_nil_r. split_and!; [done| |rewrite <- Et; simpl; by rewrite El, Hl, app_nil_r].
      constructor; [done|]. eapply Forall_impl; [exact Hgt|]. unfold lt_el, above. simpl. lia.
    - rewrite (proj2 (Z.ltb_ge _ _)) by (destruct (Z.lt_ge_cases 0 (cmp kx k)) as [G|]; [apply cmp_gt in G; lia|done]).
      rewrite Er, Hr. split_and!; [|done|rewrite <- Et; simpl; by rewrite Er, Hr, <- app_assoc].
      apply Forall_app. split; [|by constructor]. eapply Forall_impl; [exact Hlt|]. unfold lt_el, below. simpl. lia. }
  rewrite Esplit in *. destruct (insert_between _ _ k v Hs Hb1 Ha2) as (Hs2 & -> & Hm2).
  pose proof (new_root_holds m1 l' a kx vx b r' k v side Hh) as Hnew. rewrite Eside. pose proof (h_root _ _ Hh) as Hra. simpl addr in Hra.
  assert (mem m1 !! a = Some (mk_node (addr l') (addr r') kx vx b)) as Hma by (apply (h_nodes _ _ Hh); simpl; left).
  set (me' := mk_tree (fresh m1) (count me + 1) (<[a := mk_node (if side then 0 else addr l') (if side then addr r' else 0) kx vx b]>
           (<[fresh m1 := mk_node (if side then addr l' else a) (if side then a else addr r') k v 0]> (mem m1))) (fresh m1 + 1)).
  eexists me', _. split; [unfold init_node; cbn iota|split; [|exact Hm2]].
  - destruct side.
    + rewrite (link_right_ok _ _ (mk_node 0 0 k v 0) a (mk_node (addr l') (addr r') kx vx b)); [|done|simpl; apply lookup_insert_eq|simpl; by rewrite lookup_insert_ne|done].
      cbn [mbind res_bind]. simpl count. rewrite Hc1, Hchk. cbn [mbind res_bind]. unfold set_root, set_count, me'. simpl. by rewrite insert_insert_eq.
    + rewrite (link_left_ok _ _ (mk_node 0 0 k v 0) a (mk_node (addr l') (addr r') kx vx b)); [|done|simpl; apply lookup_insert_eq|simpl; by rewrite lookup_insert_ne|done].
      cbn [mbind res_bind]. simpl count. rewrite Hc1, Hchk. cbn [mbind res_bind]. unfold set_root, set_count, me'. simpl. by rewrite insert_insert_eq.
  - split.
    + eexists. split; [apply Hnew|]. destruct side; simpl; [done|by rewrite <- app_assoc].
    + done.
    + rewrite length_app in Hc, Hcm, Hn |- *. simpl in Hc, Hcm, Hn |- *. lia.
    + simpl. lia.
    + apply Forall_app in Hv as [Hv1 Hv2]. apply Forall_app. split; [done|]. by constructor.
Qed.

(** ** Removing *)

Definition frame_addr (f : frame) : Z := match f with FL a _ _ _ _ | FR _ a _ _ _ => a end.
Definition goes_right (f : frame) : Prop := is_left f = false.

Lemma highest_spec t path fuel me prev :
  t <> E -> holds me (plug path t) -> (tsize t <= fuel)%nat ->
  exists q l m km vm bm, t = plug q (N l m km vm bm E) /\ Forall goes_right q /\
    highest fuel me prev (addr t) = Ok (match q with [] => prev | f :: _ => frame_addr f end, m).
Proof.
  revert path fuel prev. induction t as [|l IHl a k v b r IHr]; intros path fuel prev Ht H Hf; [done|]. simpl in Hf. destruct fuel as [|fuel]; [lia|]. simpl highest. unfold node.
  rewrite (held_tree me path _ H a (mk_node (addr l) (addr r) k v b)) by (simpl; left). cbn [mbind res_bind]. simpl right.
  destruct (decide (r = E)) as [->|Hr]; [by exists [], l, a, k, v, b|].
  rewrite (proj2 (Z.eqb_neq _ _)) by (eapply (nonempty_addr me (FR l a k v b :: path) r); done).
  destruct (IHr (FR l a k v b :: path) fuel a) as (q & l' & m & km & vm & bm & -> & Hq & E1); [done|done|lia|].
  exists (q ++ [FR l a k v b]), l', m, km, vm, bm. split_and!.
  - clear. generalize (N l' m km vm bm E). induction q as [|f q IH]; intros t; simpl; [done|]. by rewrite <- IH.
  - apply Forall_app. split; [done|]. by constructor.
  - rewrite E1. by destruct q.
Qed.

Lemma aft_right q : Forall goes_right q -> aft q = [].
Proof. induction 1 as [|[|] q Hf _ IH]; simpl; done. Qed.

Lemma holds_free me t x : holds me t -> x ∉ (nodes t).*1 -> holds (free_node me x) t.
Proof.
  intros [H1 H2 H3 H4] Hx. split; try done. intros a n Hin. simpl. rewrite lookup_delete_ne; [by apply H2|]. intros ->. apply Hx, list_elem_of_fmap. by exists (a, n).
Qed.

Lemma holds_count me t c : holds me t -> holds (set_count me c) t.
Proof. by intros []. Qed.

(** The tree without its root. *)
Lemma holds_rest me t me' t' x :
  holds me t -> fresh me' = fresh me -> root me' = addr t' -> (nodes t).*1 ≡ₚ x :: (nodes t').*1 ->
  (forall a n, (a, n) ∈ nodes t' -> mem me' !! a = Some n) -> holds (free_node me' x) t'.
Proof.
  intros H Hf Hr Hp Hn. assert (NoDup (x :: (nodes t').*1)) as [Hx Hnd]%NoDup_cons by (eapply nodup_perm; [exact Hp|apply H]).
  apply holds_free; [|done]. split; [done|done|done|]. intros a Ha. rewrite Hf. apply (h_addr _ _ H). rewrite Hp. by right.
Qed.

Lemma unlink_ok me l0 x kx vx bx r0 :
  holds me (N l0 x kx vx bx r0) ->
  exists me' t', unlink_root me x (mk_node (addr l0) (addr r0) kx vx bx) = Ok me' /\ same me me' /\ els t' = els l0 ++ els r0 /\ holds (free_node me' x) t'.
Proof.
  intros H. unfold unlink_root. simpl left. simpl right. destruct (decide (l0 = E)) as [->|Hl0].
  { simpl. exists (set_root me (addr r0)), r0. split_and!; [done|done|done|]. eapply holds_rest; [exact H|done|done|by simpl|].
    intros a n Hin. apply (h_nodes _ _ H). simpl. by right. }
  assert (holds me (plug [FL x kx vx bx r0] l0)) as H' by done.
  rewrite (proj2 (Z.eqb_neq _ _)) by by eapply nonempty_addr. simpl negb. cbn iota.
  destruct (highest_spec l0 [FL x kx vx bx r0] (depth me) me x) as (q & l & m & km & vm & bm & -> & Hq & Eh); [done|done|pose proof (depth_ok me _ H); simpl in *; lia|].
  rewrite Eh. cbn [mbind res_bind]. set (nx := mk_node (addr (plug q (N l m km vm bm E))) (addr r0) kx vx bx) in *.
  assert (nodes (N (plug q (N l m km vm bm E)) x kx vx bx r0) ≡ₚ (x, nx) :: (m, mk_node (addr l) 0 km vm bm) :: nodes l ++ path_nodes q m ++ nodes r0) as Hn.
  { simpl nodes. rewrite nodes_plug. simpl. rewrite app_nil_r. fold nx. solve_Permutation. }
  assert (forall a n, (a, n) ∈ (x, nx) :: (m, mk_node (addr l) 0 km vm bm) :: nodes l ++ path_nodes q m ++ nodes r0 -> mem me !! a = Some n) as Hmem by (intros a n Hin; apply (h_nodes _ _ H); by rewrite Hn).
  assert (NoDup (x :: m :: (nodes l ++ path_nodes q m ++ nodes r0).*1)) as Hnd by (eapply nodup_perm; [|apply (h_nodup _ _ H)]; by rewrite Hn).
  apply NoDup_cons in Hnd as [Hx [Hm Hnd]%NoDup_cons].
  assert (forall a n, (a, n) ∈ nodes l ++ path_nodes q m ++ nodes r0 -> a <> m) as Hnm by (intros a n Hin ->; apply Hm, list_elem_of_fmap; by exists (m, n)).
  assert (mem me !! m = Some (mk_node (addr l) 0 km vm bm)) as Emm by (apply Hmem; right; left). unfold node.
  destruct q as [|[|lp p kp vp bp] q].
  - rewrite Z.eqb_refl. simpl negb. cbn iota. cbn [mbind res_bind]. simpl mem. rewrite Emm. cbn [mbind res_bind].
    eexists _, (N l m km vm bm r0). split; [done|]. split; [done|]. split; [simpl; by rewrite <- app_assoc|].
    eapply holds_rest; [exact H|done|done|rewrite Hn; simpl; done|]. intros a n [[= -> ->]|Hin]%elem_of_cons; simpl; [by rewrite lookup_insert_eq|].
    rewrite lookup_insert_ne by (apply not_eq_sym; by eapply Hnm). apply Hmem. right. by right.
  - apply Forall_cons in Hq as [Hq _]. done.
  - assert (p <> x /\ p <> m) as [Hpx Hpm].
    { split; intros ->; [apply Hx; right|apply Hm]; rewrite fmap_app; apply elem_of_app; right; simpl; left. }
    simpl frame_addr. rewrite (proj2 (Z.eqb_neq p x)) by done. simpl negb. cbn iota. rewrite Emm. cbn [mbind res_bind].
    assert (mem me !! p = Some (mk_node (addr lp) m kp vp bp)) as Epp by (apply Hmem; do 2 right; apply elem_of_app; right; simpl; left). rewrite Epp. cbn [mbind res_bind].
    simpl mem. rewrite lookup_insert_ne, Emm by done. cbn [mbind res_bind]. simpl mem. rewrite lookup_insert_eq. cbn [mbind res_bind].
    eexists _, (N (plug (FR lp p kp vp bp :: q) l) m km vm bm r0). split; [done|]. split; [done|]. split.
    { apply aft_right in Hq. change (els (plug (FR lp p kp vp bp :: q) l) ++ (km, vm) :: els r0 = els (plug (FR lp p kp vp bp :: q) (N l m km vm bm E)) ++ els r0).
      rewrite (els_plug _ l), (els_plug _ (N l m km vm bm E)), Hq. cbn [els]. by rewrite !app_nil_r, <- !app_assoc. }
    eapply holds_rest; [exact H|done|done|..].
    + rewrite Hn. simpl nodes. rewrite (nodes_plug q). simpl. rewrite !fmap_app. simpl. rewrite !fmap_app. solve_Permutation.
    + intros a n. simpl nodes. rewrite (nodes_plug q). simpl fill. simpl addr. unfold nx. intros [[= -> ->]|Hin]%elem_of_cons; simpl.
      * rewrite lookup_insert_eq. unfold with_left, with_right. simpl. by rewrite (addr_plug q (N lp p kp vp bp l) (N lp p kp vp bp (N l m km vm bm E))).
      * assert ((a = p /\ n = mk_node (addr lp) (addr l) kp vp bp) \/ (a, n) ∈ nodes lp ++ nodes l ++ path_nodes q p ++ nodes r0) as [[-> ->]|Hin'] by set_solver.
        -- by rewrite !lookup_insert_ne, lookup_insert_eq by done.
        -- assert (a <> p) as Hap.
           { intros ->. assert (NoDup ((p :: (nodes lp ++ nodes l ++ path_nodes q p ++ nodes r0).*1))) as [Hnp _]%NoDup_cons.
             { eapply nodup_perm; [|exact Hnd]. simpl. rewrite !fmap_app. simpl. rewrite !fmap_app. solve_Permutation. }
             apply Hnp, list_elem_of_fmap. by exists (p, n). }
           assert ((a, n) ∈ nodes l ++ path_nodes (FR lp p kp vp bp :: q) m ++ nodes r0) as Hin2 by (simpl; set_solver).
           rewrite !lookup_insert_ne by (apply not_eq_sym; (done || by eapply Hnm)). apply Hmem. right. by right.
Qed.

Lemma get_keeps me l k :
  keeps me l -> exists me' t', pseudolru_get cmp lru me k = Ok (me', default 0 (snd <$> map_of l !! ord k)) /\ keeps me' l /\ holds me' t' /\ els t' = l /\
    (is_Some (map_of l !! ord k) -> exists l1 a kx v b r, t' = N l1 a kx v b r /\ ord kx = ord k /\ map_of l !! ord k = Some (kx, v)).
Proof.
  intros [(t & H & <-) Hs Hc Hf Hv]. destruct (lru_get_spec me t k H Hs) as (me' & t' & E1 & [Hc' Hf'] & Hh & He & Hroot). exists me', t'. split_and!; try done.
  split; [by exists t'|done|by rewrite Hc'|by rewrite Hf'|done].
Qed.

Lemma lru_remove_spec me l k :
  keeps me l -> (forall kv, map_of l !! ord k = Some kv -> kv.1 = k) ->
  exists me' l', pseudolru_remove cmp lru me k = Ok (me', default 0 (snd <$> map_of l !! ord k)) /\ keeps me' l' /\ map_of l' = delete (ord k) (map_of l).
Proof.
  intros Hk Hsame. unfold pseudolru_remove. destruct (get_keeps me l k Hk) as (m1 & t1 & -> & Hk1 & Hh & He & Hroot). cbn [mbind res_bind].
  destruct (map_of l !! ord k) as [[kx v]|] eqn:Em; simpl.
  2:{ exists m1, l. split_and!; [done|done|]. by rewrite delete_id. }
  destruct Hroot as (l1 & a & kx' & v' & b & r & -> & Hok & [= -> ->]); [done|]. specialize (Hsame _ eq_refl). simpl in Hsame. subst kx'.
  pose proof Hk1 as [_ Hs [Hc Hcm] Hf Hv]. assert ((k, v') ∈ l) as Hin by (apply map_of_lookup in Em as [? _]; done).
  rewrite Forall_forall in Hv. pose proof (Hv _ Hin) as Hv0. simpl in Hv0. rewrite (proj2 (Z.eqb_neq v' 0)) by done.
  rewrite (h_root _ _ Hh). simpl addr. unfold node. rewrite (h_nodes _ _ Hh a (mk_node (addr l1) (addr r) k v' b)) by (simpl; left). cbn [mbind res_bind]. simpl key. simpl value.
  assert (List.length l <> O) as Hlen by (rewrite <- He; simpl; rewrite length_app; simpl; lia).
  rewrite (proj2 (Z.leb_gt _ _)), Z.eqb_refl by lia. simpl. destruct (unlink_ok m1 l1 a k v' b r Hh) as (m2 & t2 & -> & [Hc2 Hf2] & He2 & Hh2). cbn [mbind res_bind].
  rewrite Hc2, Hc, chk_ok by (unfold in_int, int_min, int_max in *; lia). cbn [mbind res_bind].
  rewrite <- He in *. simpl in *. eexists _, (els l1 ++ els r).
  split; [done|]. split; [|by apply (map_of_delete (els l1) (k, v') (els r))]. split.
  - exists t2. split; [|done]. by apply (holds_count (free_node m2 a)).
  - by eapply sorted_remove.
  - simpl. rewrite !length_app in *. simpl in *. lia.
  - simpl. by rewrite Hf2.
  - apply Forall_forall. intros kv Hkv. apply Hv. apply elem_of_app in Hkv as [?|?]; apply elem_of_app; [by left|right; by right].
Qed.

(** ** The entry that is given up *)

Lemma get_lru_spec t path fuel me :
  t <> E -> holds me (plug path t) -> (tsize t <= fuel)%nat -> exists a n, get_lru fuel me (addr t) = Ok a /\ (a, n) ∈ nodes t /\ (key n, value n) ∈ els t.
Proof.
  revert path fuel. induction t as [|l IHl a k v b r IHr]; intros path fuel Ht H Hf; [done|]. simpl in Hf. destruct fuel as [|fuel]; [lia|]. simpl get_lru.
  rewrite (proj2 (Z.eqb_neq a 0)) by (eapply (nonempty_addr me path (N l a k v b r)); done). unfold node.
  rewrite (held_tree me path _ H a (mk_node (addr l) (addr r) k v b)) by (simpl; left). cbn [mbind res_bind]. simpl bit. simpl left. simpl right.
  assert (exists a' n, Ok a = Ok a' /\ (a', n) ∈ nodes (N l a k v b r) /\ (key n, value n) ∈ els (N l a k v b r)) as Hhere.
  { exists a, (mk_node (addr l) (addr r) k v b). split_and!; [done|simpl; left|]. simpl. apply elem_of_app. right. left. }
  destruct (b =? RIGHT).
  - destruct (decide (r = E)) as [->|Hr]; [done|]. rewrite (proj2 (Z.eqb_neq _ _)) by (eapply (nonempty_addr me (FR l a k v b :: path) r); done). simpl.
    destruct (IHr (FR l a k v b :: path) fuel) as (a' & n & -> & Hin & Hel); [done|done|lia|]. exists a', n. split_and!; [done|set_solver|set_solver].
  - destruct (b =? LEFT); [|done]. destruct (decide (l = E)) as [->|Hl]; [done|].
    rewrite (proj2 (Z.eqb_neq _ _)) by (eapply (nonempty_addr me (FL a k v b r :: path) l); done). simpl.
    destruct (IHl (FL a k v b r :: path) fuel) as (a' & n & -> & Hin & Hel); [done|done|lia|]. exists a', n. split_and!; [done|set_solver|set_solver].
Qed.

Lemma pop_spec me l :
  keeps me l -> l <> [] ->
  exists me' l' kv, pseudolru_pop_lru cmp lru me = Ok (me', kv.2) /\ map_of l !! ord kv.1 = Some kv /\ keeps me' l' /\ map_of l' = delete (ord kv.1) (map_of l).
Proof.
  intros Hk Hl. pose proof Hk as [(t & H & He) Hs _ _ _]. unfold pseudolru_pop_lru. rewrite (h_root _ _ H). assert (t <> E) as Ht by (intros ->; by subst).
  destruct (get_lru_spec t [] (depth me) me Ht H) as (a & n & -> & Hin & Hel); [pose proof (depth_ok me t H); lia|]. cbn [mbind res_bind].
  unfold node. rewrite (h_nodes _ _ H a n Hin). cbn [mbind res_bind]. assert (map_of l !! ord (key n) = Some (key n, value n)) as Hm by (apply map_of_lookup; [done|]; by rewrite <- He).
  destruct (lru_remove_spec me l (key n) Hk) as (me' & l' & -> & Hk' & Hd); [intros kv Hkv; by rewrite Hm in Hkv; injection Hkv as <-|].
  exists me', l', (key n, value n). rewrite Hm. done.
Qed.

(** ** Histories *)

Inductive command : Type := Get (k : Z) | Put (k v : Z) | Remove (k : Z) | Count.

Definition exec (c : command) (me : pseudolru_t) : res (pseudolru_t * Z) :=
  match c with
  | Get k => pseudolru_get cmp lru me k
  | Put k v => me ← pseudolru_put cmp lru me k v; Ok (me, 0)
  | Remove k => pseudolru_remove cmp lru me k
  | Count => Ok (me, pseudolru_count me)
  end.

(** A finite map. *)
Definition apply_map (c : command) (m : gmap Z (Z * Z)) : gmap Z (Z * Z) * Z :=
  match c with
  | Get k => (m, default 0 (snd <$> m !! ord k))
  | Put k v => (<[ord k := (k, v)]> m, 0)
  | Remove k => (delete (ord k) m, default 0 (snd <$> m !! ord k))
  | Count => (m, Z.of_nat (base.size m))
  end.

(** Values are not [NULL]; a key is put where it is not there yet (see
    [pseudolru_put_keeps_old] for the others) and removed by the pointer it was put with. *)
Definition allowed (c : command) (m : gmap Z (Z * Z)) : bool :=
  match c with
  | Get _ | Count => true
  | Put k v => negb (v =? 0) && bool_decide (m !! ord k = None)
  | Remove k => match m !! ord k with Some kv => kv.1 =? k | None => true end
  end.

Definition reps (n : nat) (me : pseudolru_t) (m : gmap Z (Z * Z)) : Prop := exists l, keeps me l /\ map_of l = m /\ Z.of_nat (List.length l) + Z.of_nat n <= int_max.

Lemma lru_apply_map_size c m : (base.size (apply_map c m).1 <= S (base.size m))%nat.
Proof.
  destruct c as [k|k v|k|]; simpl; try lia.
  - rewrite map_size_insert. destruct (m !! ord k); simpl; lia.
  - destruct (m !! ord k) eqn:E1; [rewrite map_size_delete_Some by eauto|rewrite map_size_delete_None by done]; lia.
Qed.

#[export] Instance tree_implements : ImplementsWhen exec apply_map allowed reps.
Proof.
  intros n c me m (l & Hk & <- & Hn) Hal. pose proof (k_sorted _ _ Hk) as Hs.
  assert (exists me' l', exec c me = Ok (me', (apply_map c (map_of l)).2) /\ keeps me' l' /\ map_of l' = (apply_map c (map_of l)).1) as (me' & l' & E1 & Hk' & Hm).
  { destruct c as [k|k v|k|]; simpl in *.
    - destruct (get_keeps me l k Hk) as (me' & t' & E1 & Hk' & _). exists me', l. done.
    - apply andb_true_iff in Hal as [Hv Hno]. apply negb_true_iff, Z.eqb_neq in Hv. apply bool_decide_eq_true in Hno.
      destruct (lru_put_spec me l k v) as (me' & l' & -> & Hk' & Hm); [done|done|lia|]. rewrite Hno in Hm. exists me', l'. done.
    - apply lru_remove_spec; [done|]. intros kv Hkv. rewrite Hkv in Hal. by apply Z.eqb_eq in Hal.
    - exists me, l. split_and!; [|done|done]. unfold pseudolru_count. rewrite (proj1 (k_count _ _ Hk)), map_of_size by done. done. }
  exists me'. split; [done|]. exists l'. split_and!; [done|done|]. pose proof (lru_apply_map_size c (map_of l)) as Hsz. rewrite <- Hm in Hsz.
  rewrite !map_of_size in Hsz by (done || apply Hk'). lia.
Qed.

Lemma new_reps n : Z.of_nat n <= int_max -> reps n pseudolru_new ∅.
Proof.
  intros Hn. exists []. split_and!; [|done|simpl; lia]. split; [|constructor|simpl; unfold int_max; lia|done|done]. exists E. split; [|done].
  split; simpl; [done|..]; try (intros ? ? Hin; by apply elem_of_nil in Hin); [constructor|]. intros ? Hin. by apply elem_of_nil in Hin.
Qed.
End order.

(** C13: in every history of [pseudolru_get], [pseudolru_put], [pseudolru_remove] and
    [pseudolru_count] in which a key is put only while it is not there, no value is [NULL]
    and a key is removed by the pointer it was put with, the pseudo-LRU tree answers as a
    finite map, whatever its shape: rotations lose no entry and keep the order, and every
    search, every rotation and every removal through pointers ends and touches only nodes
    that exist. *)
Theorem pseudolru_refines_map (cmp : Z -> Z -> Z) (ord : Z -> Z) (cs : list command) :
  CmpLaws cmp ord -> Z.of_nat (List.length cs) <= int_max -> allowed_all (apply_map ord) (allowed ord) cs ∅ = true ->
  exists me, exec_all (exec cmp true) cs pseudolru_new = Ok (me, (apply_all (apply_map ord) cs ∅).2).
Proof.
  intros Hl Hn Hal. destruct (history_when (exec cmp true) (apply_map ord) (allowed ord) (reps ord) cs 0 pseudolru_new ∅) as (me & E1 & _); [|done|eauto].
  apply new_reps. lia.
Qed.

Lemma pseudolru_refines_map_witness :
  let cs := [Put 5 50; Put 2 20; Put 8 80; Get 2; Get 9; Put 6 60; Remove 5; Get 5; Put 5 51; Get 5; Put 1 10; Remove 8; Get 1; Count] in
  (apply_all (apply_map (fun x => x)) cs ∅).2 = [0; 0; 0; 20; 0; 0; 50; 0; 0; 51; 0; 80; 10; 4] /\
  exists me, exec_all (exec Z.sub true) cs pseudolru_new = Ok (me, (apply_all (apply_map (fun x => x)) cs ∅).2).
Proof.
  intros cs. split; [vm_compute; reflexivity|]. apply (pseudolru_refines_map Z.sub (fun x => x) cs); [split; lia|unfold int_max; simpl; lia|vm_compute; reflexivity].
Defined.

(** a key that is there keeps its old value: after such a history, putting another value
    under a key that is there returns, and the key is found with the value it had. *)
Theorem pseudolru_put_keeps_old (cmp : Z -> Z -> Z) (ord : Z -> Z) (cs : list command) (k v : Z) (old : Z * Z) :
  CmpLaws cmp ord -> Z.of_nat (List.length cs) < int_max -> allowed_all (apply_map ord) (allowed ord) cs ∅ = true ->
  (apply_all (apply_map ord) cs ∅).1 !! ord k = Some old -> v <> 0 ->
  exists me rs me1 me2, exec_all (exec cmp true) cs pseudolru_new = Ok (me, rs) /\
    pseudolru_put cmp true me k v = Ok me1 /\ pseudolru_get cmp true me1 k = Ok (me2, old.2).
Proof.
  intros Hl Hn Hal Hold Hv.
  destruct (history_when (exec cmp true) (apply_map ord) (allowed ord) (reps ord) cs 1 pseudolru_new ∅)
    as (me & E1 & l & Hk & Hm & Hlen); [apply new_reps; lia|done|].
  destruct (lru_put_spec cmp true ord me l k v Hk) as (me1 & l1 & E2 & Hk1 & Hm1); [done|lia|].
  rewrite Hm, Hold in Hm1. destruct (get_keeps cmp true ord me1 l1 k Hk1) as (me2 & t2 & E3 & _).
  rewrite Hm1, Hold in E3. by exists me, ((apply_all (apply_map ord) cs ∅).2), me1, me2.
Qed.

Lemma pseudolru_put_keeps_old_witness :
  exists me rs me1 me2, exec_all (exec Z.sub true) [Put 5 50; Put 2 20] pseudolru_new = Ok (me, rs) /\
    pseudolru_put Z.sub true me 5 51 = Ok me1 /\ pseudolru_get Z.sub true me1 5 = Ok (me2, 50).
Proof.
  apply (pseudolru_put_keeps_old Z.sub (fun x => x) [Put 5 50; Put 2 20] 5 51 (5, 50));
    [split; lia|unfold int_max; simpl; lia|vm_compute; reflexivity|vm_compute; reflexivity|lia].
Defined.

(** After any history, a key that is found becomes the root, where [pseudolru_peek] sees
    it; and [pseudolru_pop_lru] takes one entry away and returns its value. *)
Theorem pseudolru_get_and_pop (cmp : Z -> Z -> Z) (ord : Z -> Z) (cs : list command) (k : Z) :
  CmpLaws cmp ord -> Z.of_nat (List.length cs) <= int_max -> allowed_all (apply_map ord) (allowed ord) cs ∅ = true ->
  let m := (apply_all (apply_map ord) cs ∅).1 in
  exists me rs, exec_all (exec cmp true) cs pseudolru_new = Ok (me, rs) /\
    (forall kv, m !! ord k = Some kv -> exists me', pseudolru_get cmp true me k = Ok (me', kv.2) /\ pseudolru_peek me' = Ok kv.2) /\
    (m <> ∅ -> exists me' kv, pseudolru_pop_lru cmp true me = Ok (me', kv.2) /\ m !! ord kv.1 = Some kv /\ reps ord 0 me' (delete (ord kv.1) m)).
Proof.
  intros Hl Hn Hal m. destruct (history_when (exec cmp true) (apply_map ord) (allowed ord) (reps ord) cs 0 pseudolru_new ∅) as (me & E1 & l & Hk & Hm & Hlen); [apply new_reps; lia|done|].
  fold m in Hm. eexists me, _. split; [exact E1|]. rewrite <- Hm. split.
  - intros kv Hkv. destruct (get_keeps cmp true ord me l k Hk) as (me' & t' & E2 & Hk' & Hh & He & Hroot). rewrite Hkv in E2. exists me'. split; [exact E2|].
    destruct Hroot as (l1 & a & kx & v & b & r & -> & _ & Hx); [eauto|]. rewrite Hkv in Hx. injection Hx as ->. unfold pseudolru_peek. rewrite (h_root _ _ Hh). simpl addr.
    rewrite (proj2 (Z.eqb_neq a 0)) by (eapply (nonempty_addr me' [] (N l1 a kx v b r)); done). unfold node.
    by rewrite (h_nodes _ _ Hh a (mk_node (addr l1) (addr r) kx v b)) by (simpl; left).
  - intros Hne. destruct (pop_spec cmp true ord me l Hk) as (me' & l' & kv & E2 & Hin & Hk' & Hd); [intros ->; done|].
    exists me', kv. split_and!; [done|done|]. exists l'. split_and!; [done|done|]. destruct Hk' as [_ _ [_ ?] _ _]. simpl. lia.
Qed.

Lemma pseudolru_get_and_pop_witness :
  let cs := [Put 5 50; Put 2 20; Put 8 80; Get 5] in let m := (apply_all (apply_map (fun x => x)) cs ∅).1 in
  exists me rs, exec_all (exec Z.sub true) cs pseudolru_new = Ok (me, rs) /\
    (forall kv, m !! 2 = Some kv -> exists me', pseudolru_get Z.sub true me 2 = Ok (me', kv.2) /\ pseudolru_peek me' = Ok kv.2) /\
    (m <> ∅ -> exists me' kv, pseudolru_pop_lru Z.sub true me = Ok (me', kv.2) /\ m !! kv.1 = Some kv /\ reps (fun x => x) 0 me' (delete kv.1 m)).
Proof.
  intros cs m. apply (pseudolru_get_and_pop Z.sub (fun x => x) cs 2); [split; lia|unfold int_max; simpl; lia|vm_compute; reflexivity].
Defined.

(** [splaytree_remove] makes a cycle: with the keys 1, 2 and 3, where 2 is removed from
    the root, the node of 1 becomes its own left child, and the node of 3 is lost. *)
Theorem splaytree_remove_cycle :
  (st ← splaytree_put Z.sub splaytree_initalloc 1 10; st ← splaytree_put Z.sub st 3 30; st ← splaytree_put Z.sub st 2 20;
   '(st, v) ← splaytree_remove Z.sub st 2;
   n ← node st (root st);
   Ok (v, splaytree_count st, key n, left n =? root st, right n)) = Ok (20, 2, 1, true, 0).
Proof. vm_compute. reflexivity. Qed.
End PseudoLru.
