(* ===== verification/Avl.v ===== *)
(** * The AVL tree in an array (src/PUTs/05array-avl-tree-master/avl_tree.c)

    The children of the node at [idx] are at [2 * idx + 1] and [2 * idx + 2]; a slot is
    empty when its key is [NULL], 0.  A field that was allocated and not written is
    [None], and reading it is undefined, as is an access behind the array.  The code
    tests some indices against the size of the array and others not.  Allocation is
    taken to succeed.  The recursions go to higher indices until they leave the array,
    so that its size is enough fuel. *)

From S2P Require Import Prelude History SortedMap.
Import SortedMap.

Module Avl.

Record node_t : Type := mk_node { key : option Z; val : option Z }.
Record avltree_t : Type := mk_avl { size : Z; count : Z; nodes : list node_t }.
Record avltree_iterator_t : Type := mk_iter { current_node : Z }.

(** Reading a field. *)
Definition rd (o : option Z) : res Z := match o with Some z => Ok z | None => Undef end.

Definition key_of (me : avltree_t) (i : Z) : res Z := n ← load (nodes me) i; rd (key n).

Definition set_node (me : avltree_t) (i : Z) (n : node_t) : res avltree_t :=
  ns ← store (nodes me) i n; Ok (mk_avl (size me) (count me) ns).

(** [me->nodes[i].key = NULL] *)
Definition clear_key (me : avltree_t) (i : Z) : res avltree_t := n ← load (nodes me) i; set_node me i (mk_node (Some 0) (val n)).

(** [memcpy(&me->nodes[towards], &me->nodes[idx], sizeof(node_t))] *)
Definition copy_node (me : avltree_t) (towards idx : Z) : res avltree_t := n ← load (nodes me) idx; set_node me towards n.

Definition set_count (me : avltree_t) (c : Z) : avltree_t := mk_avl (size me) c (nodes me).

Definition child_l (idx : Z) : res Z := a ← chk (idx * 2); chk (a + 1).

Definition child_r (idx : Z) : res Z := a ← chk (idx * 2); chk (a + 2).

Definition parent (idx : Z) : res Z := if idx =? 0 then Exit 134 else Ok (Z.quot (idx - 1) 2).

Definition avltree_new : avltree_t := mk_avl 40 0 (replicate 40 (mk_node (Some 0) (Some 0))).

Definition avltree_count (me : avltree_t) : Z := count me.

Definition avltree_size (me : avltree_t) : Z := size me.

(** Copying the first nodes to the new array. *)
Fixpoint enlarge_loop (n : nat) (me : avltree_t) (ii : Z) (array_n : list node_t) : res (list node_t) :=
  match n with
  | O => Ok array_n
  | S n =>
      k ← key_of me ii;
      array_n ←
        (if k =? 0 then a ← load array_n ii; store array_n ii (mk_node (Some 0) (val a))
         else a ← load (nodes me) ii; store array_n ii a);
      enlarge_loop n me (ii + 1) array_n
  end.

Definition enlarge (me : avltree_t) : res avltree_t :=
  s ← chk (size me * 2);
  array_n ← enlarge_loop (Z.to_nat (avltree_count me)) me 0 (replicate (Z.to_nat s) (mk_node None None));
  Ok (mk_avl s (count me) array_n).

Definition fuel (me : avltree_t) : nat := S (S (Z.to_nat (size me))).

(** Whether there is a node at [idx], where the code asks for the size first. *)
Definition has_node (me : avltree_t) (idx : Z) : res bool :=
  if size me <=? idx then Ok false else k ← key_of me idx; Ok (negb (k =? 0)).

Fixpoint count_from (n : nat) (me : avltree_t) (idx : Z) : res Z :=
  match n with
  | O => OutOfFuel
  | S n =>
      b ← has_node me idx;
      if (b : bool) then
        l ← child_l idx; cl ← count_from n me l;
        r ← child_r idx; cr ← count_from n me r;
        s ← chk (cl + cr); chk (s + 1)
      else Ok 0
  end.

(** The macro [max] takes its arguments once more to return one of them. *)
Fixpoint height_from (n : nat) (me : avltree_t) (idx : Z) : res Z :=
  match n with
  | O => OutOfFuel
  | S n =>
      b ← has_node me idx;
      if (b : bool) then
        l ← child_l idx; hl ← height_from n me l;
        r ← child_r idx; hr ← height_from n me r;
        a ← chk (hl + 1); b ← chk (hr + 1); Ok (if a <? b then b else a)
      else Ok 0
  end.

Definition height (me : avltree_t) (idx : Z) : res Z := height_from (fuel me) me idx.

Definition avltree_height (me : avltree_t) : res Z := height me 0.

Fixpoint shift_up_from (n : nat) (me : avltree_t) (idx towards : Z) : res avltree_t :=
  match n with
  | O => OutOfFuel
  | S n =>
      k ← key_of me idx;
      if k =? 0 then Ok me
      else
        me ← copy_node me towards idx;
        me ← clear_key me idx;
        a ← child_l idx; b ← child_l towards; me ← shift_up_from n me a b;
        a ← child_r idx; b ← child_r towards; shift_up_from n me a b
  end.

Definition shift_up (me : avltree_t) (idx towards : Z) : res avltree_t := shift_up_from (fuel me) me idx towards.

(** The key is read before the index is compared with the size. *)
Fixpoint shift_down_from (n : nat) (me : avltree_t) (idx towards : Z) : res avltree_t :=
  match n with
  | O => OutOfFuel
  | S n =>
      k ← key_of me idx;
      if (k =? 0) || (size me <=? idx) then Ok me
      else
        a ← child_l idx; b ← child_l towards; me ← shift_down_from n me a b;
        a ← child_r idx; b ← child_r towards; me ← shift_down_from n me a b;
        copy_node me towards idx
  end.

Definition shift_down (me : avltree_t) (idx towards : Z) : res avltree_t := shift_down_from (fuel me) me idx towards.

Definition avltree_rotate_right (me : avltree_t) (idx : Z) : res avltree_t :=
  r ← child_r idx; rr ← child_r r;
  me ← shift_down me r rr;
  me ← copy_node me r idx;
  l ← child_l idx; lr ← child_r l; rl ← child_l r;
  me ← shift_down me lr rl;
  me ← clear_key me lr;
  shift_up me l idx.

Definition avltree_rotate_left (me : avltree_t) (idx : Z) : res avltree_t :=
  p ← parent idx;
  l ← child_l p; ll ← child_l l;
  me ← shift_down me l ll;
  me ← copy_node me l p;
  il ← child_l idx; lr ← child_r l;
  me ← shift_down me il lr;
  me ← clear_key me il;
  shift_up me idx p.

Section compare.
Context (cmp : Z -> Z -> Z).

(** The result of the comparison is stored in an [int] here. *)
Fixpoint get_from (n : nat) (me : avltree_t) (k i : Z) : res Z :=
  if i <? size me then
    match n with
    | O => OutOfFuel
    | S n =>
        nd ← load (nodes me) i; nk ← rd (key nd);
        if nk =? 0 then Ok 0
        else
          let r := wrap_int (cmp nk k) in
          if r =? 0 then rd (val nd)
          else if r <? 0 then i ← child_l i; get_from n me k i
          else i ← child_r i; get_from n me k i
    end
  else Ok 0.

Definition avltree_get (me : avltree_t) (k : Z) : res Z := get_from (fuel me) me k 0.

Definition avltree_get_from_idx (me : avltree_t) (idx : Z) : res Z := key_of me idx.

(** One turn of the loop of [__rebalance]. *)
Definition rebalance_at (me : avltree_t) (idx : Z) : res avltree_t :=
  l ← child_l idx; hl ← height me l;
  r ← child_r idx; hr ← height me r;
  d ← chk (hl - hr);
  if 2 <=? Z.abs d then
    rl ← child_l r; hrl ← height me rl;
    rr ← child_r r; hrr ← height me rr;
    bf_r ← chk (hrl - hrr);
    if bf_r =? -1 then avltree_rotate_left me r
    else me ← avltree_rotate_left me r; avltree_rotate_right me r
  else Ok me.

Fixpoint rebalance_from (n : nat) (me : avltree_t) (idx : Z) : res avltree_t :=
  match n with
  | O => OutOfFuel
  | S n =>
      me ← rebalance_at me idx;
      if 0 =? idx then Ok me else idx ← parent idx; rebalance_from n me idx
  end.

Definition rebalance (me : avltree_t) (idx : Z) : res avltree_t := rebalance_from (S (Z.to_nat idx)) me idx.

Fixpoint previous_from (n : nat) (me : avltree_t) (prev i : Z) : res Z :=
  match n with
  | O => OutOfFuel
  | S n => b ← has_node me i; if (b : bool) then r ← child_r i; previous_from n me i r else Ok prev
  end.

Definition previous_ordered_node (me : avltree_t) (idx : Z) : res Z := i ← child_l idx; previous_from (fuel me) me (-1) i.

(** The node at [i] is taken away. *)
Definition unlink (me : avltree_t) (i : Z) : res avltree_t :=
  c ← chk (count me - 1);
  let me := set_count me c in
  rep ← previous_ordered_node me i;
  me ←
    (if -1 =? rep then clear_key me i
     else
       a ← child_l rep; p ← parent rep; b ← child_r p; me ← shift_up me a b;
       shift_up me rep i);
  if i =? 0 then Ok me else p ← parent i; rebalance me p.

Fixpoint remove_from (n : nat) (me : avltree_t) (k i : Z) : res (avltree_t * Z) :=
  if i <? size me then
    match n with
    | O => OutOfFuel
    | S n =>
        nk ← key_of me i;
        if nk =? 0 then Ok (me, 0)
        else
          let r := cmp nk k in
          if r =? 0 then me ← unlink me i; Ok (me, nk)
          else if r <? 0 then i ← child_l i; remove_from n me k i
          else i ← child_r i; remove_from n me k i
    end
  else Ok (me, 0).

Definition avltree_remove (me : avltree_t) (k : Z) : res (avltree_t * Z) := remove_from (fuel me) me k 0.

Fixpoint empty_loop (n : nat) (me : avltree_t) (i : Z) : res avltree_t :=
  match n with O => Ok me | S n => me ← clear_key me i; empty_loop n me (i + 1) end.

Definition avltree_empty (me : avltree_t) : res avltree_t := empty_loop (Z.to_nat (size me)) me 0.

Fixpoint insert_from (n : nat) (me : avltree_t) (k v i : Z) : res avltree_t :=
  if i <? size me then
    match n with
    | O => OutOfFuel
    | S n =>
        nd ← load (nodes me) i; nk ← rd (key nd);
        if nk =? 0 then
          me ← set_node me i (mk_node (Some k) (Some v));
          c ← chk (count me + 1);
          let me := set_count me c in
          if 0 =? i then Ok me else p ← parent i; rebalance me p
        else
          let r := cmp nk k in
          if r =? 0 then set_node me i (mk_node (key nd) (Some v))
          else if r <? 0 then i ← child_l i; insert_from n me k v i
          else i ← child_r i; insert_from n me k v i
    end
  else
    me ← enlarge me;
    me ← set_node me i (mk_node (Some k) (Some v));
    c ← chk (count me + 1);
    Ok (set_count me c).

Definition avltree_insert (me : avltree_t) (k v : Z) : res avltree_t := insert_from (fuel me) me k v 0.

(** ** The iterator

    The iterator returns pointers to nodes; [array] is the address of the array, whose
    nodes have 16 bytes.  0 is [NULL]. *)
Context (array : Z).
Definition address (i : Z) : Z := array + 16 * i.

Definition avltree_iterator : avltree_iterator_t := mk_iter 0.

Definition avltree_iterator_peek (h : avltree_t) (iter : avltree_iterator_t) : res (avltree_iterator_t * Z) :=
  if current_node iter <? size h then
    i ← chk (current_node iter + 1);
    k ← key_of h i;
    Ok (mk_iter i, if k =? 0 then 0 else address i)
  else Ok (iter, 0).

(** The pointer to the node is taken for a key. *)
Definition avltree_iterator_peek_value (h : avltree_t) (iter : avltree_iterator_t) : res (avltree_iterator_t * Z) :=
  '(iter, p) ← avltree_iterator_peek h iter; v ← avltree_get h p; Ok (iter, v).

Definition avltree_iterator_has_next (h : avltree_t) (iter : avltree_iterator_t) : res (avltree_iterator_t * bool) :=
  '(iter, p) ← avltree_iterator_peek h iter; Ok (iter, negb (p =? 0)).

Fixpoint next_loop (n : nat) (h : avltree_t) (i : Z) : res Z :=
  match n with
  | O => OutOfFuel
  | S n =>
      if i <? size h - 1 then
        k ← key_of h (i + 1); if k =? 0 then next_loop n h (i + 1) else Ok (i + 1)
      else Ok i
  end.

Definition avltree_iterator_next (h : avltree_t) (iter : avltree_iterator_t) : res (avltree_iterator_t * Z) :=
  i ← next_loop (fuel h) h (current_node iter); Ok (mk_iter i, address (current_node iter)).

Definition avltree_iterator_next_value (h : avltree_t) (iter : avltree_iterator_t) : res (avltree_iterator_t * Z) :=
  '(iter, k) ← avltree_iterator_next h iter;
  if k =? 0 then Ok (iter, 0) else v ← avltree_get h k; Ok (iter, v).
End compare.
End Avl.
