(* ===== verification/AvlFacts.v ===== *)
(** * What the AVL tree in an array does (src/PUTs/05array-avl-tree-master/avl_tree.c)

    A place in the tree is the path to it, a list of turns ([true] is right); [ix] is its
    index in the array.  [holds] relates an array to the tree that it holds, and says
    that every other slot is empty.  As long as no rotation is due, the array is a
    search tree, and so a finite map; the theorems at the end show what happens
    otherwise. *)

From S2P Require Import Prelude History SortedMap Avl.
Import SortedMap Avl.

Module AvlFacts.

(** ** Places *)

Definition ix (q : list bool) : Z := foldl (fun i b => 2 * i + (if b : bool then 2 else 1)) 0 q.

Lemma ix_snoc q b : ix (q ++ [b]) = 2 * ix q + (if b then 2 else 1).
Proof. unfold ix. by rewrite foldl_app. Qed.

Lemma ix_nonneg q : 0 <= ix q.
Proof. induction q as [|b q IH] using rev_ind; [done|]. rewrite ix_snoc. destruct b; lia. Qed.

Lemma ix_inj q q' : ix q = ix q' -> q = q'.
Proof.
  revert q'. induction q as [|b q IH] using rev_ind; intros q'; destruct q' as [|b' q' _] using rev_ind; rewrite ?ix_snoc; intros E1; try done.
  - pose proof (ix_nonneg q'). unfold ix in E1 at 1. simpl in E1. destruct b'; lia.
  - pose proof (ix_nonneg q). unfold ix in E1 at 2. simpl in E1. destruct b; lia.
  - destruct b, b'; try lia; (rewrite (IH q'); [done|lia]).
Qed.

Lemma ix_bound q : ix q < 2 ^ (Z.of_nat (List.length q) + 1) - 1.
Proof.
  induction q as [|b q IH] using rev_ind; [done|]. rewrite ix_snoc, length_app. simpl.
  replace (Z.of_nat (List.length q + 1) + 1) with (Z.succ (Z.of_nat (List.length q) + 1)) by lia. rewrite Z.pow_succ_r by lia. destruct b; lia.
Qed.

Lemma parent_ix q b : parent (ix (q ++ [b])) = Ok (ix q).
Proof.
  pose proof (ix_nonneg q). unfold parent. rewrite ix_snoc. rewrite (proj2 (Z.eqb_neq _ 0)) by (destruct b; lia).
  f_equal. destruct b; [replace (2 * ix q + 2 - 1) with (1 + ix q * 2) by lia|replace (2 * ix q + 1 - 1) with (0 + ix q * 2) by lia];
    rewrite Z.quot_div_nonneg, Z.div_add by lia; done.
Qed.

Definition small (z : Z) : Prop := 0 <= z <= 2 ^ 28.

Lemma children q : small (ix q) -> child_l (ix q) = Ok (ix (q ++ [false])) /\ child_r (ix q) = Ok (ix (q ++ [true])).
Proof.
  intros H. unfold child_l, child_r, small in *. rewrite !ix_snoc, (chk_ok (ix q * 2)) by (unfold in_int, int_min, int_max; lia). cbn [mbind res_bind].
  rewrite !chk_ok by (unfold in_int, int_min, int_max; lia). split; f_equal; lia.
Qed.

(** ** Trees *)

Inductive tree : Type := E | N (l : tree) (k v : Z) (r : tree).

#[global] Instance tree_eq_dec : EqDecision tree.
Proof. solve_decision. Defined.

Definition child (b : bool) (t : tree) : tree := match t with E => E | N l _ _ r => if b then r else l end.
Definition top (t : tree) : option (Z * Z) := match t with E => None | N _ k v _ => Some (k, v) end.

Fixpoint sub (t : tree) (q : list bool) : tree := match q with [] => t | b :: q => sub (child b t) q end.

(** The tree with [s] at a place, where the place must be a node or below one. *)
Fixpoint put_at (t : tree) (q : list bool) (s : tree) {struct q} : tree :=
  match q, t with
  | [], _ => s
  | _ :: _, E => E
  | false :: q, N l k v r => N (put_at l q s) k v r
  | true :: q, N l k v r => N l k v (put_at r q s)
  end.

Fixpoint reach (t : tree) (q : list bool) {struct q} : Prop :=
  match q, t with
  | [], _ => True
  | _ :: _, E => False
  | b :: q, N _ _ _ _ => reach (child b t) q
  end.

Fixpoint theight (t : tree) : Z := match t with E => 0 | N l _ _ r => 1 + Z.max (theight l) (theight r) end.
Fixpoint els (t : tree) : list (Z * Z) := match t with E => [] | N l k v r => els l ++ (k, v) :: els r end.

Lemma sub_E q : sub E q = E.
Proof. induction q as [|b q IH]; [done|]. by destruct b. Qed.

Lemma sub_app t q q' : sub t (q ++ q') = sub (sub t q) q'.
Proof. revert t. induction q as [|b q IH]; intros t; simpl; [done|]. apply IH. Qed.

Lemma sub_snoc t q b : sub t (q ++ [b]) = child b (sub t q).
Proof. by rewrite sub_app. Qed.

Lemma reach_app t q q' : reach t q -> reach (sub t q) q' -> reach t (q ++ q').
Proof. revert t. induction q as [|b q IH]; intros [|l k v r] H1 H2; simpl in *; try done. by apply IH. Qed.

Lemma put_app t q q' s : reach t q -> put_at t (q ++ q') s = put_at t q (put_at (sub t q) q' s).
Proof. revert t. induction q as [|b q IH]; intros [|l k v r] H; simpl in *; try done. destruct b; simpl; by rewrite IH. Qed.

Lemma put_sub t q : put_at t q (sub t q) = t.
Proof. revert t. induction q as [|[] q IH]; intros [|l k v r]; simpl; rewrite ?IH; done. Qed.

Lemma sub_put t q s : reach t q -> sub (put_at t q s) q = s.
Proof. revert t. induction q as [|b q IH]; intros [|l k v r] H; simpl in *; try done. destruct b; simpl in *; by apply IH. Qed.

Lemma avl_put_put t q s s' : put_at (put_at t q s) q s' = put_at t q s'.
Proof. revert t. induction q as [|[] q IH]; intros [|l k v r]; simpl; rewrite ?IH; done. Qed.

Lemma reach_put t q s : reach t q -> reach (put_at t q s) q.
Proof. revert t. induction q as [|b q IH]; intros [|l k v r] H; simpl in *; try done. destruct b; simpl in *; by apply IH. Qed.

(** Only the place itself changes when the children stay. *)
Lemma top_put t q s q' :
  reach t q -> (forall b, child b s = child b (sub t q)) ->
  top (sub (put_at t q s) q') = if decide (q' = q) then top s else top (sub t q').
Proof.
  revert t q'. induction q as [|b q IH]; intros t q' Hr Hc.
  - destruct q' as [|b' q']; [done|]. simpl. by rewrite Hc.
  - destruct t as [|l k v r]; [done|]. destruct q' as [|b' q']; [by destruct b|].
    destruct b, b'; simpl in *; try done; rewrite IH by done; repeat case_decide; naive_solver.
Qed.

Lemma theight_nonneg t : 0 <= theight t.
Proof. induction t; simpl; lia. Qed.

Lemma sub_height t q : theight (sub t q) <= Z.max 0 (theight t - Z.of_nat (List.length q)).
Proof.
  revert t. induction q as [|b q IH]; intros t; [simpl; lia|]. cbn [sub List.length]. specialize (IH (child b t)).
  assert (theight (child b t) <= Z.max 0 (theight t - 1)); [|lia]. destruct t as [|l k v r]; [done|]. destruct b; simpl; pose proof (theight_nonneg l); pose proof (theight_nonneg r); lia.
Qed.

(** A place with a node lies above the height. *)
Lemma node_depth t q : sub t q <> E -> Z.of_nat (List.length q) < theight t.
Proof.
  intros H. pose proof (sub_height t q). destruct (sub t q) as [|l k v r]; [done|]. simpl in *.
  pose proof (theight_nonneg l). pose proof (theight_nonneg r). lia.
Qed.

Fixpoint balanced (t : tree) : bool :=
  match t with
  | E => true
  | N l _ _ r => (Z.abs (theight l - theight r) <? 2) && balanced l && balanced r
  end.

Lemma balanced_sub t q : balanced t = true -> balanced (sub t q) = true.
Proof.
  revert t. induction q as [|b q IH]; intros t H; [done|]. cbn [sub]. apply IH. destruct t as [|l k v r]; [done|].
  simpl in *. apply andb_true_iff in H as [[_ ?]%andb_true_iff ?]. by destruct b.
Qed.

(** ** Arrays that hold a tree *)

Record holds (me : avltree_t) (t : tree) : Prop := {
  h_len : Z.of_nat (List.length (nodes me)) = size me;
  h_small : small (size me);
  h_in : forall q, sub t q <> E -> ix q < size me;
  h_at : forall q, ix q < size me -> exists n, load (nodes me) (ix q) = Ok n /\
    match top (sub t q) with None => key n = Some 0 | Some (k, v) => k <> 0 /\ n = mk_node (Some k) (Some v) end
}.

Lemma holds_out me t q : holds me t -> size me <= ix q -> sub t q = E.
Proof. intros H Hq. destruct (decide (sub t q = E)) as [|Hn]; [done|]. apply (h_in _ _ H) in Hn. lia. Qed.

Lemma holds_node me t q l k v r : holds me t -> sub t q = N l k v r -> ix q < size me /\ load (nodes me) (ix q) = Ok (mk_node (Some k) (Some v)) /\ k <> 0.
Proof.
  intros H Hq. assert (ix q < size me) as Hi by (apply (h_in _ _ H); by rewrite Hq).
  destruct (h_at _ _ H q Hi) as (n & Hl & Hn). rewrite Hq in Hn. simpl in Hn. destruct Hn as [? ->]. done.
Qed.

Lemma holds_key me t q : holds me t -> ix q < size me -> key_of me (ix q) = Ok (match sub t q with E => 0 | N _ k _ _ => k end).
Proof.
  intros H Hi. unfold key_of. destruct (h_at _ _ H q Hi) as (n & -> & Hn). cbn [mbind res_bind].
  destruct (sub t q); simpl in Hn; [by rewrite Hn|by destruct Hn as [_ ->]].
Qed.

Lemma holds_small me t q : holds me t -> ix q < size me -> small (ix q).
Proof. intros H Hq. pose proof (h_small _ _ H). pose proof (ix_nonneg q). unfold small in *. lia. Qed.

Lemma has_node_spec me t q : holds me t -> has_node me (ix q) = Ok (bool_decide (sub t q <> E)).
Proof.
  intros H. unfold has_node. destruct (Z.leb_spec (size me) (ix q)) as [Hq|Hq].
  { rewrite bool_decide_false; [done|]. rewrite (holds_out me t q H Hq). tauto. }
  rewrite (holds_key me t q H Hq). cbn [mbind res_bind]. f_equal. destruct (sub t q) as [|l k v r] eqn:Es; simpl.
  - done.
  - destruct (holds_node me t q _ _ _ _ H Es) as (_ & _ & ?). by rewrite (proj2 (Z.eqb_neq k 0)).
Qed.

Lemma height_le me t q : holds me t -> theight (sub t q) <= Z.max 0 (size me - ix q).
Proof.
  intros H. remember (sub t q) as s eqn:Es. revert q Es. induction s as [|l IHl k v r IHr]; intros q Es; [simpl; lia|].
  destruct (holds_node me t q l k v r H) as (Hi & _ & _); [done|]. pose proof (ix_nonneg q).
  specialize (IHl (q ++ [false])). specialize (IHr (q ++ [true])). rewrite !sub_snoc, <- Es, !ix_snoc in *. simpl in *.
  specialize (IHl eq_refl). specialize (IHr eq_refl). lia.
Qed.

Lemma height_from_spec me t n q : holds me t -> Z.max 0 (size me - ix q) < Z.of_nat n -> height_from n me (ix q) = Ok (theight (sub t q)).
Proof.
  intros H. revert q. induction n as [|n IH]; intros q Hn; [lia|]. cbn [height_from]. rewrite (has_node_spec me t q H). cbn [mbind res_bind].
  case_bool_decide as Hq; [|by rewrite Hq]. pose proof (h_in _ _ H q Hq) as Hi. pose proof (ix_nonneg q).
  destruct (children q (holds_small me t q H Hi)) as [-> ->]. cbn [mbind res_bind].
  rewrite !IH by (rewrite ix_snoc; lia). cbn [mbind res_bind]. rewrite !sub_snoc. pose proof (h_small _ _ H) as Hs. unfold small in Hs.
  pose proof (height_le me t (q ++ [false]) H) as Hl. pose proof (height_le me t (q ++ [true]) H) as Hr. rewrite sub_snoc, ix_snoc in Hl, Hr.
  destruct (sub t q) as [|l k v r]; [done|]. simpl in *. pose proof (theight_nonneg l). pose proof (theight_nonneg r).
  rewrite !chk_ok by (unfold in_int, int_min, int_max; lia). cbn [mbind res_bind]. f_equal. case_if; lia.
Qed.

Lemma height_spec me t q : holds me t -> height me (ix q) = Ok (theight (sub t q)).
Proof. intros H. apply height_from_spec; [done|]. pose proof (ix_nonneg q). pose proof (h_small _ _ H). unfold fuel, small in *. lia. Qed.

(** A balanced tree stays as it is. *)
Lemma rebalance_at_spec me t q : holds me t -> balanced t = true -> small (ix q) -> rebalance_at me (ix q) = Ok me.
Proof.
  intros H Hb Hq. unfold rebalance_at. destruct (children q Hq) as [-> ->]. cbn [mbind res_bind]. rewrite !(height_spec me t) by done. cbn [mbind res_bind].
  rewrite !sub_snoc. apply (balanced_sub t q) in Hb.
  pose proof (height_le me t (q ++ [false]) H) as Hl. pose proof (height_le me t (q ++ [true]) H) as Hr. rewrite sub_snoc, ix_snoc in Hl, Hr.
  pose proof (h_small _ _ H) as Hs. unfold small in Hs, Hq.
  assert (Z.abs (theight (child false (sub t q)) - theight (child true (sub t q))) < 2) as Hd.
  { destruct (sub t q) as [|l k v r]; [done|]. simpl in *. apply andb_true_iff in Hb as [[?%Z.ltb_lt _]%andb_true_iff _]. done. }
  pose proof (theight_nonneg (child false (sub t q))). pose proof (theight_nonneg (child true (sub t q))).
  rewrite chk_ok by (unfold in_int, int_min, int_max; lia). cbn [mbind res_bind]. by rewrite (proj2 (Z.leb_gt 2 _)) by lia.
Qed.

Lemma rebalance_spec me t q : holds me t -> balanced t = true -> small (ix q) -> rebalance me (ix q) = Ok me.
Proof.
  intros H Hb Hq. unfold rebalance. assert (ix q < Z.of_nat (S (Z.to_nat (ix q)))) as Hn by lia. revert Hn. generalize (S (Z.to_nat (ix q))). intros n. revert n.
  induction q as [|b q IH] using rev_ind; intros [|n] Hn; try (pose proof (ix_nonneg q); pose proof (ix_nonneg (q ++ [b])); lia); try (unfold ix in Hn; simpl in Hn; lia).
  - cbn [rebalance_from]. by rewrite (rebalance_at_spec me t []).
  - pose proof (ix_nonneg q). cbn [rebalance_from]. rewrite (rebalance_at_spec me t (q ++ [b])) by done. cbn [mbind res_bind].
    rewrite parent_ix, ix_snoc in *. rewrite (proj2 (Z.eqb_neq 0 _)) by (destruct b; lia). cbn [mbind res_bind].
    apply IH; [unfold small in *|]; destruct b; lia.
Qed.

(** ** Writing to a slot *)

Definition cell (s : tree) (n : node_t) : Prop :=
  match top s with None => key n = Some 0 | Some (k, v) => k <> 0 /\ n = mk_node (Some k) (Some v) end.

Lemma holds_put me t q s n :
  holds me t -> reach t q -> ix q < size me -> (forall b, child b s = child b (sub t q)) -> cell s n ->
  exists me', set_node me (ix q) n = Ok me' /\ holds me' (put_at t q s) /\ size me' = size me /\ count me' = count me.
Proof.
  intros H Hr Hi Hc Hn. unfold set_node. pose proof (h_len _ _ H) as Hl. pose proof (ix_nonneg q). rewrite store_ok by lia. cbn [mbind res_bind].
  eexists. split; [done|]. split; [|done]. split; simpl.
  - by rewrite length_insert.
  - apply H.
  - intros q' Hq'. assert (top (sub (put_at t q s) q') <> None) as Ht by (by destruct (sub (put_at t q s) q')).
    rewrite top_put in Ht by done. case_decide as Hqq; [by subst|]. apply (h_in _ _ H). by destruct (sub t q').
  - intros q' Hq'. pose proof (ix_nonneg q'). rewrite top_put by done. case_decide as Hqq.
    + subst q'. exists n. split; [|done]. apply load_ok; [done|]. apply list_lookup_insert_eq. lia.
    + destruct (h_at _ _ H q' Hq') as (n' & Hn' & Hm). exists n'. split; [|done]. apply load_inv in Hn' as [_ Hn']. apply load_ok; [done|].
      rewrite list_lookup_insert_ne; [done|]. intros Heq. apply Hqq. symmetry. apply ix_inj. lia.
Qed.

Lemma avl_holds_count me t c : holds me t -> holds (set_count me c) t.
Proof. intros [? ? ? ?]. by split. Qed.

Lemma clear_key_spec me t q :
  holds me t -> reach t q -> ix q < size me -> child false (sub t q) = E -> child true (sub t q) = E ->
  exists me', clear_key me (ix q) = Ok me' /\ holds me' (put_at t q E) /\ size me' = size me /\ count me' = count me.
Proof.
  intros H Hr Hi Hl Hrr. unfold clear_key. destruct (h_at _ _ H q Hi) as (n & -> & _). cbn [mbind res_bind].
  apply holds_put; try done. intros []; by rewrite ?Hl, ?Hrr.
Qed.

Section search.
Context (cmp : Z -> Z -> Z) (ord : Z -> Z).

(** The comparison goes to the left for a smaller key, as the one of the tests does,
    and its results are numbers of type [int]. *)
Class CompareLaws : Prop := {
  compare_eq : forall x y, cmp x y = 0 <-> ord x = ord y;
  compare_lt : forall x y, cmp x y < 0 <-> ord y < ord x;
  compare_int : forall x y, in_int (cmp x y)
}.
Context `{Hlaws : !CompareLaws}.
#[local] Notation sorted := (sorted ord).
#[local] Notation map_of := (map_of ord).

Lemma compare_cases x y :
  (cmp x y = 0 /\ ord x = ord y) \/ (cmp x y < 0 /\ ord y < ord x) \/ (0 < cmp x y /\ ord x < ord y).
Proof. pose proof (compare_eq x y). pose proof (compare_lt x y). destruct (Z.lt_total (cmp x y) 0) as [|[|]]; [|tauto|]; [tauto|]. right. right. lia. Qed.

(** ** Getting *)

Lemma get_from_spec me t k n q :
  holds me t -> sorted (els (sub t q)) -> Z.max 0 (size me - ix q) < Z.of_nat n ->
  get_from cmp n me k (ix q) = Ok (default 0 (snd <$> map_of (els (sub t q)) !! ord k)).
Proof.
  intros H. revert q. induction n as [|n IH]; intros q Hs Hn; [lia|]. cbn [get_from].
  destruct (Z.ltb_spec (ix q) (size me)) as [Hi|Hi]; [|by rewrite (holds_out me t q H Hi)].
  destruct (sub t q) as [|l k0 v0 r] eqn:Es.
  { destruct (h_at _ _ H q Hi) as (nd & -> & Hnd). rewrite Es in Hnd. simpl in Hnd. cbn [mbind res_bind]. by rewrite Hnd. }
  destruct (holds_node me t q _ _ _ _ H Es) as (_ & -> & Hk0). cbn [mbind res_bind rd key val]. rewrite (proj2 (Z.eqb_neq k0 0)) by done.
  rewrite wrap_int_id by apply compare_int. pose proof (ix_nonneg q).
  destruct (children q (holds_small me t q H Hi)) as [-> ->]. cbn [mbind res_bind]. simpl els in *.
  pose proof Hs as (Hsl & Hsr & _)%sorted_mid.
  destruct (compare_cases k0 k) as [[E1 E2]|[[E1 E2]|[E1 E2]]].
  - rewrite E1. simpl. rewrite <- E2. by rewrite (map_of_here (els l) (k0, v0)).
  - rewrite (proj2 (Z.eqb_neq _ 0)), (proj2 (Z.ltb_lt _ _)) by lia. rewrite map_of_left by done.
    specialize (IH (q ++ [false])). rewrite sub_snoc, Es, ix_snoc in IH. simpl in IH. rewrite ix_snoc. apply IH; [done|lia].
  - rewrite (proj2 (Z.eqb_neq _ 0)), (proj2 (Z.ltb_ge _ _)) by lia. rewrite map_of_right by done.
    specialize (IH (q ++ [true])). rewrite sub_snoc, Es, ix_snoc in IH. simpl in IH. rewrite ix_snoc. apply IH; [done|lia].
Qed.

Lemma avl_get_spec me t k : holds me t -> sorted (els t) -> avltree_get cmp me k = Ok (default 0 (snd <$> map_of (els t) !! ord k)).
Proof. intros H Hs. unfold avltree_get. apply (get_from_spec me t k _ [] H Hs). pose proof (h_small _ _ H). unfold fuel, ix, small in *. simpl. lia. Qed.

(** ** Inserting *)

Fixpoint insert_tree (t : tree) (k v : Z) : tree :=
  match t with
  | E => N E k v E
  | N l k0 v0 r =>
      if cmp k0 k =? 0 then N l k0 v r
      else if cmp k0 k <? 0 then N (insert_tree l k v) k0 v0 r else N l k0 v0 (insert_tree r k v)
  end.

(** The entry that a search ends at, and the entries around it. *)
Definition splits (t : tree) (k : Z) (l1 mid l2 : list (Z * Z)) : Prop :=
  els t = l1 ++ mid ++ l2 /\ Forall (fun x => ord x.1 < ord k) l1 /\ Forall (fun x => ord k < ord x.1) l2 /\
  (mid = [] \/ exists kv, mid = [kv] /\ ord kv.1 = ord k).

Lemma splits_left l k0 v0 r k l1 mid l2 :
  sorted (els (N l k0 v0 r)) -> ord k < ord k0 -> splits l k l1 mid l2 -> splits (N l k0 v0 r) k l1 mid (l2 ++ (k0, v0) :: els r).
Proof.
  intros (_ & _ & _ & Hr)%sorted_mid Hk (E1 & H1 & H2 & H3). unfold splits. simpl. rewrite E1. split_and!; [by rewrite <- !app_assoc|done| |done].
  apply Forall_app. split; [done|]. constructor; [done|]. eapply Forall_impl; [exact Hr|]. unfold lt_el. simpl. lia.
Qed.

Lemma splits_right l k0 v0 r k l1 mid l2 :
  sorted (els (N l k0 v0 r)) -> ord k0 < ord k -> splits r k l1 mid l2 -> splits (N l k0 v0 r) k (els l ++ (k0, v0) :: l1) mid l2.
Proof.
  intros (_ & _ & Hl & _)%sorted_mid Hk (E1 & H1 & H2 & H3). unfold splits. simpl. rewrite E1. split_and!; [by rewrite <- !app_assoc| |done|done].
  apply Forall_app. split; [|by constructor]. eapply Forall_impl; [exact Hl|]. unfold lt_el. simpl. lia.
Qed.

Lemma splits_here l k0 v0 r k : sorted (els (N l k0 v0 r)) -> ord k0 = ord k -> splits (N l k0 v0 r) k (els l) [(k0, v0)] (els r).
Proof.
  intros (_ & _ & Hl & Hr)%sorted_mid Hk. unfold splits, lt_el in *. simpl in *. split_and!; [done|..]; [| |right; by exists (k0, v0)].
  - eapply Forall_impl; [exact Hl|]. simpl. lia.
  - eapply Forall_impl; [exact Hr|]. simpl. lia.
Qed.

Lemma insert_els t k v :
  sorted (els t) -> exists l1 mid l2, splits t k l1 mid l2 /\ els (insert_tree t k v) = l1 ++ (default k (fst <$> head mid), v) :: l2.
Proof.
  induction t as [|l IHl k0 v0 r IHr]; intros Hs; simpl.
  { exists [], [], []. split; [|done]. split_and!; [done..|by left]. }
  pose proof Hs as (Hsl & Hsr & _)%sorted_mid. destruct (compare_cases k0 k) as [[E1 E2]|[[E1 E2]|[E1 E2]]].
  - rewrite E1. simpl. exists (els l), [(k0, v0)], (els r). split; [|done]. by apply splits_here.
  - rewrite (proj2 (Z.eqb_neq _ 0)), (proj2 (Z.ltb_lt _ _)) by lia. destruct (IHl Hsl) as (l1 & mid & l2 & Hsp & He).
    exists l1, mid, (l2 ++ (k0, v0) :: els r). split; [by apply splits_left|]. simpl. rewrite He. by rewrite <- app_assoc.
  - rewrite (proj2 (Z.eqb_neq _ 0)), (proj2 (Z.ltb_ge _ _)) by lia. destruct (IHr Hsr) as (l1 & mid & l2 & Hsp & He).
    exists (els l ++ (k0, v0) :: l1), mid, l2. split; [by apply splits_right|]. simpl. rewrite He. by rewrite <- app_assoc.
Qed.

(** What a split says of the map. *)
Lemma splits_sorted t k l1 mid l2 :
  sorted (els t) -> splits t k l1 mid l2 -> sorted (l1 ++ l2) /\ map_of (els t) !! ord k = head mid /\ map_of (l1 ++ l2) = delete (ord k) (map_of (els t)).
Proof.
  intros Hs (E1 & H1 & H2 & [->|(kv & -> & Hk)]); rewrite E1 in *; simpl in *.
  - assert (map_of (l1 ++ l2) !! ord k = None) as Hn; [|by rewrite delete_id]. rewrite Forall_forall in *. apply map_of_none; [done|].
    intros x [Hx|Hx]%elem_of_app; [specialize (H1 x Hx)|specialize (H2 x Hx)]; lia.
  - split; [by eapply sorted_remove|]. rewrite <- Hk. split; [by apply map_of_here|by apply map_of_delete].
Qed.

Lemma insert_tree_map t k v :
  sorted (els t) -> let m := map_of (els t) in
  sorted (els (insert_tree t k v)) /\ map_of (els (insert_tree t k v)) = <[ord k := (default k (fst <$> m !! ord k), v)]> m.
Proof.
  intros Hs m. destruct (insert_els t k v Hs) as (l1 & mid & l2 & Hsp & He). destruct (splits_sorted t k l1 mid l2 Hs Hsp) as (Hs' & Hm & Hd).
  subst m. rewrite He, Hm. destruct Hsp as (_ & H1 & H2 & Hmid). set (k' := default k (fst <$> head mid)).
  assert (ord k' = ord k) as Hk' by (unfold k'; destruct Hmid as [->|(kv & -> & ?)]; done).
  assert (sorted (l1 ++ (k', v) :: l2)) as Hsn.
  { apply sorted_app in Hs' as (Ha & Hb & _). apply sorted_mid. unfold lt_el. simpl. rewrite Hk'. done. }
  split; [done|]. rewrite map_of_insert by done. simpl. by rewrite Hk', Hd, insert_delete_eq.
Qed.

Lemma put_child t q b l k v r s :
  reach t q -> sub t q = N l k v r -> put_at t (q ++ [b]) s = put_at t q (if b then N l k v s else N s k v r).
Proof. intros Hr Hs. rewrite put_app, Hs by done. by destruct b. Qed.

Lemma reach_child t q b l k v r : reach t q -> sub t q = N l k v r -> reach t (q ++ [b]).
Proof. intros Hr Hs. apply reach_app; [done|]. by rewrite Hs. Qed.

Lemma put_len l s k v r : Z.of_nat (List.length (els (N s k v r))) - Z.of_nat (List.length (els (N l k v r))) = Z.of_nat (List.length (els s)) - Z.of_nat (List.length (els l)).
Proof. simpl. rewrite !length_app. simpl. lia. Qed.

Lemma put_len_r l s k v r : Z.of_nat (List.length (els (N l k v s))) - Z.of_nat (List.length (els (N l k v r))) = Z.of_nat (List.length (els s)) - Z.of_nat (List.length (els r)).
Proof. simpl. rewrite !length_app. simpl. lia. Qed.

(** Nothing is done above a place of a balanced tree. *)
Lemma above_spec me t q :
  holds me t -> balanced t = true -> ix q < size me -> (if ix q =? 0 then Ok me else p ← parent (ix q); rebalance me p) = Ok me.
Proof.
  intros H Hb Hi. destruct q as [|b q _] using rev_ind; [done|]. pose proof (ix_nonneg q). apply (holds_small me t) in Hi; [|done].
  rewrite (proj2 (Z.eqb_neq _ 0)) by (rewrite ix_snoc; destruct b; lia). rewrite parent_ix. cbn [mbind res_bind].
  apply (rebalance_spec _ t q); [done|done|]. unfold small in *. rewrite ix_snoc in Hi. destruct b; lia.
Qed.

(** A new node goes to an empty slot. *)
Lemma avl_add_spec me t q k v :
  k <> 0 -> holds me t -> reach t q -> sub t q = E -> ix q < size me -> -1 < count me < int_max ->
  let t' := put_at t q (N E k v E) in balanced t' = true ->
  exists me',
    (me ← set_node me (ix q) (mk_node (Some k) (Some v)); c ← chk (count me + 1);
     let me := set_count me c in if 0 =? ix q then Ok me else p ← parent (ix q); rebalance me p) = Ok me' /\
    holds me' t' /\ size me' = size me /\ count me' = count me + 1.
Proof.
  intros Hk H Hr Es Hi Hc t' Hb. destruct (holds_put me t q (N E k v E) (mk_node (Some k) (Some v))) as (m1 & -> & H1 & Hz & Hct); [done|done|done|by intros []; rewrite Es|done|].
  cbn [mbind res_bind]. rewrite chk_ok by (rewrite Hct; unfold in_int, int_min in *; lia). cbn [mbind res_bind].
  apply (avl_holds_count _ _ (count m1 + 1)) in H1. fold t' in H1. rewrite <- Hct, <- Hz.
  rewrite Z.eqb_sym, (above_spec _ t' q); [by eexists|done|done|]. simpl. by rewrite Hz.
Qed.

Lemma insert_from_spec me t k v n q :
  k <> 0 -> holds me t -> reach t q -> Z.max 0 (size me - ix q) < Z.of_nat n -> -1 < count me < int_max ->
  let s' := insert_tree (sub t q) k v in let t' := put_at t q s' in
  balanced t' = true -> (forall q', sub t' q' <> E -> ix q' < size me) ->
  exists me', insert_from cmp n me k v (ix q) = Ok me' /\ holds me' t' /\ size me' = size me /\
    count me' = count me + Z.of_nat (List.length (els s')) - Z.of_nat (List.length (els (sub t q))).
Proof.
  intros Hk H. revert q. induction n as [|n IH]; intros q Hr Hn Hc s' t' Hb Hin; [lia|]. cbn [insert_from].
  assert (s' <> E) as Hs'. { subst s'. destruct (sub t q) as [|l k0 v0 r]; simpl; [done|]. repeat case_if; done. }
  assert (ix q < size me) as Hi. { apply Hin. subst t'. by rewrite sub_put. }
  rewrite (proj2 (Z.ltb_lt _ _)) by done. pose proof (ix_nonneg q). destruct (sub t q) as [|l k0 v0 r] eqn:Es.
  - destruct (h_at _ _ H q Hi) as (nd & -> & Hnd). rewrite Es in Hnd. simpl in Hnd. cbn [mbind res_bind]. rewrite Hnd. cbn [mbind res_bind rd]. rewrite (Z.eqb_refl 0).
    destruct (avl_add_spec me t q k v Hk H Hr Es Hi Hc Hb) as (m1 & E1 & H1 & Hz & Hct). exists m1. split_and!; [done|done|done|]. rewrite Hct. simpl. lia.
  - destruct (holds_node me t q _ _ _ _ H Es) as (_ & -> & Hk0). cbn [mbind res_bind rd key val]. rewrite (proj2 (Z.eqb_neq k0 0)) by done.
    destruct (children q (holds_small me t q H Hi)) as [-> ->]. cbn [mbind res_bind]. subst s' t'. simpl insert_tree in *.
    destruct (cmp k0 k =? 0) eqn:E1; [|destruct (cmp k0 k <? 0) eqn:E2].
    + destruct (holds_put me t q (N l k0 v r) (mk_node (Some k0) (Some v))) as (m1 & -> & H1 & Hz & Hct); [done|done|done|by intros []; rewrite Es|done|].
      exists m1. split_and!; [done|done|done|]. rewrite Hct. simpl. rewrite !length_app. simpl. lia.
    + specialize (IH (q ++ [false]) (reach_child t q false l k0 v0 r Hr Es)). cbn zeta in IH. rewrite sub_snoc, Es, (put_child t q false l k0 v0 r) in IH by done. simpl in IH.
      destruct IH as (m1 & E3 & H1 & Hz & Hct); [rewrite ix_snoc; lia|done|done|done|]. exists m1. split_and!; [done|done|done|].
      rewrite Hct. pose proof (put_len l (insert_tree l k v) k0 v0 r). simpl child. lia.
    + specialize (IH (q ++ [true]) (reach_child t q true l k0 v0 r Hr Es)). cbn zeta in IH. rewrite sub_snoc, Es, (put_child t q true l k0 v0 r) in IH by done. simpl in IH.
      destruct IH as (m1 & E3 & H1 & Hz & Hct); [rewrite ix_snoc; lia|done|done|done|]. exists m1. split_and!; [done|done|done|].
      rewrite Hct. pose proof (put_len_r l (insert_tree r k v) k0 v0 r). simpl child. lia.
Qed.

(** ** Removing *)

(** The last node of a tree: the way to it, and the tree without it. *)
Fixpoint spine (t : tree) : list bool := match t with E => [] | N _ _ _ r => match r with E => [] | N _ _ _ _ => true :: spine r end end.
Fixpoint drop_last (t : tree) : tree := match t with E => E | N l k v r => match r with E => l | N _ _ _ _ => N l k v (drop_last r) end end.

Lemma spine_reach t : reach t (spine t).
Proof. induction t as [|l _ k v r IH]; [done|]. simpl. by destruct r. Qed.

Lemma spine_last t : t <> E -> exists l k v, sub t (spine t) = N l k v E /\ els t = els (drop_last t) ++ [(k, v)] /\ (l = E -> drop_last t = put_at t (spine t) E).
Proof.
  induction t as [|l _ k v r IH]; [done|]. intros _. destruct r as [|rl rk rv rr]; [by exists l, k, v; repeat split|].
  destruct IH as (l' & k' & v' & H1 & H2 & H3); [done|]. revert H1 H2 H3. change (spine (N l k v (N rl rk rv rr))) with (true :: spine (N rl rk rv rr)).
  change (drop_last (N l k v (N rl rk rv rr))) with (N l k v (drop_last (N rl rk rv rr))). generalize (N rl rk rv rr). intros r H1 H2 H3. exists l', k', v'. simpl.
  split_and!; [done|by rewrite H2, <- app_assoc|]. intros Hl. by rewrite H3.
Qed.

Fixpoint remove_tree (t : tree) (k : Z) : tree :=
  match t with
  | E => E
  | N l k0 v0 r =>
      if cmp k0 k =? 0 then
        match top (sub l (spine l)) with None => r | Some (k1, v1) => N (drop_last l) k1 v1 r end
      else if cmp k0 k <? 0 then N (remove_tree l k) k0 v0 r else N l k0 v0 (remove_tree r k)
  end.

(** What the code can remove: a node without children, or one whose left subtree ends
    in a node without children. *)
Fixpoint removable (t : tree) (k : Z) : bool :=
  match t with
  | E => true
  | N l k0 v0 r =>
      if cmp k0 k =? 0 then
        if decide (l = E) then bool_decide (r = E) else bool_decide (child false (sub l (spine l)) = E)
      else if cmp k0 k <? 0 then removable l k else removable r k
  end.

Lemma remove_els t k : sorted (els t) -> exists l1 mid l2, splits t k l1 mid l2 /\ els (remove_tree t k) = l1 ++ l2.
Proof.
  induction t as [|l IHl k0 v0 r IHr]; intros Hs; simpl.
  { exists [], [], []. split; [|done]. split_and!; [done..|by left]. }
  pose proof Hs as (Hsl & Hsr & _)%sorted_mid. destruct (compare_cases k0 k) as [[E1 E2]|[[E1 E2]|[E1 E2]]].
  - rewrite E1. simpl. exists (els l), [(k0, v0)], (els r). split; [by apply splits_here|].
    destruct (decide (l = E)) as [->|Hl]; [done|]. destruct (spine_last l Hl) as (l' & k1 & v1 & -> & -> & _). simpl. by rewrite <- app_assoc.
  - rewrite (proj2 (Z.eqb_neq _ 0)), (proj2 (Z.ltb_lt _ _)) by lia. destruct (IHl Hsl) as (l1 & mid & l2 & Hsp & He).
    exists l1, mid, (l2 ++ (k0, v0) :: els r). split; [by apply splits_left|]. simpl. rewrite He. by rewrite <- app_assoc.
  - rewrite (proj2 (Z.eqb_neq _ 0)), (proj2 (Z.ltb_ge _ _)) by lia. destruct (IHr Hsr) as (l1 & mid & l2 & Hsp & He).
    exists (els l ++ (k0, v0) :: l1), mid, l2. split; [by apply splits_right|]. simpl. rewrite He. by rewrite <- app_assoc.
Qed.

Lemma remove_tree_map t k : sorted (els t) -> sorted (els (remove_tree t k)) /\ map_of (els (remove_tree t k)) = delete (ord k) (map_of (els t)).
Proof.
  intros Hs. destruct (remove_els t k Hs) as (l1 & mid & l2 & Hsp & ->). by destruct (splits_sorted t k l1 mid l2 Hs Hsp) as (? & _ & ?).
Qed.

Lemma previous_spec me t n p :
  holds me t -> sub t p <> E -> forall prev, Z.max 0 (size me - ix p) < Z.of_nat n -> previous_from n me prev (ix p) = Ok (ix (p ++ spine (sub t p))).
Proof.
  intros H. revert p. induction n as [|n IH]; intros p Hp prev Hn; [lia|]. cbn [previous_from]. rewrite (has_node_spec me t p H), bool_decide_true by done. cbn [mbind res_bind].
  pose proof (h_in _ _ H p Hp) as Hi. destruct (children p (holds_small me t p H Hi)) as [_ ->]. cbn [mbind res_bind].
  specialize (IH (p ++ [true])). rewrite sub_snoc, ix_snoc in IH. pose proof (ix_nonneg p).
  destruct (sub t p) as [|l k v r] eqn:Ep; [done|]. simpl in IH. destruct r as [|rl rk rv rr] eqn:Er.
  - simpl. rewrite app_nil_r. destruct n as [|n]; [lia|]. cbn [previous_from]. rewrite (has_node_spec me t (p ++ [true]) H). rewrite sub_snoc, Ep. done.
  - rewrite ix_snoc, IH by (done || lia). simpl spine. by rewrite <- app_assoc.
Qed.

(** The last node on the left takes the place of the node above it. *)
Lemma replace_spec me t q l k0 v0 r k1 v1 :
  holds me t -> reach t q -> sub t q = N l k0 v0 r -> sub l (spine l) = N E k1 v1 E ->
  let p := q ++ false :: spine l in 2 * ix p + 2 < size me ->
  exists me', shift_up me (ix p) (ix q) = Ok me' /\ holds me' (put_at t q (N (put_at l (spine l) E) k1 v1 r)) /\ size me' = size me /\ count me' = count me.
Proof.
  intros H Hr Eq El p Hp. pose proof (ix_nonneg p). destruct (holds_node me t q _ _ _ _ H Eq) as (Hq & _). assert (sub t p = N E k1 v1 E) as Ep by (unfold p; by rewrite sub_app, Eq).
  destruct (holds_node me t p _ _ _ _ H Ep) as (Hip & Hld & Hk). unfold shift_up, fuel. remember (S (Z.to_nat (size me))) as n eqn:Hn. cbn [shift_up_from]. rewrite (holds_key me t p H Hip), Ep. cbn [mbind res_bind].
  rewrite (proj2 (Z.eqb_neq k1 0)) by done. unfold copy_node. rewrite Hld. cbn [mbind res_bind]. set (t1 := put_at t q (N l k1 v1 r)).
  destruct (holds_put me t q (N l k1 v1 r) (mk_node (Some k1) (Some v1))) as (m1 & -> & H1 & Hz1 & Hc1); [done|done|done|by intros []; rewrite Eq|done|]. cbn [mbind res_bind].
  fold t1 in H1. assert (sub t1 p = N E k1 v1 E) as Ep1 by (unfold t1, p; rewrite sub_app, sub_put; done).
  assert (reach t1 p) as Hr1 by (unfold t1, p; apply reach_app; [by apply reach_put|]; rewrite sub_put by done; apply spine_reach).
  destruct (clear_key_spec m1 t1 p) as (m2 & -> & H2 & Hz2 & Hc2); [done|done|by rewrite Hz1|by rewrite Ep1|by rewrite Ep1|]. cbn [mbind res_bind].
  destruct (children p (holds_small me t p H Hip)) as [-> ->], (children q (holds_small me t q H Hq)) as [-> ->]. cbn [mbind res_bind].
  assert (forall b, shift_up_from n m2 (ix (p ++ [b])) (ix (q ++ [b])) = Ok m2) as Hstop.
  { intros b. rewrite Hn. cbn [shift_up_from]. rewrite (holds_key m2 _ (p ++ [b]) H2) by (rewrite Hz2, Hz1, ix_snoc; destruct b; lia). by rewrite sub_snoc, sub_put. }
  rewrite Hstop. cbn [mbind res_bind]. rewrite Hstop. exists m2. split_and!; [done| |lia|lia].
  unfold t1, p in H2. rewrite put_app, sub_put, avl_put_put in H2 by (done || by apply reach_put). done.
Qed.

Lemma shift_up_none me t p d : holds me t -> ix p < size me -> sub t p = E -> shift_up me (ix p) d = Ok me.
Proof. intros H Hi Ep. unfold shift_up, fuel. cbn [shift_up_from]. by rewrite (holds_key me t p H Hi), Ep. Qed.

Lemma avl_unlink_spec me t q l k0 v0 r :
  holds me t -> reach t q -> sub t q = N l k0 v0 r -> (l = E -> r = E) -> child false (sub l (spine l)) = E ->
  theight t <= 4 -> size me = 40 -> 0 < count me <= int_max ->
  let t' := put_at t q (match top (sub l (spine l)) with None => r | Some (k1, v1) => N (drop_last l) k1 v1 r end) in balanced t' = true ->
  exists me', unlink me (ix q) = Ok me' /\ holds me' t' /\ size me' = size me /\ count me' = count me - 1.
Proof.
  intros H Hr Eq Hle Hlast Hh Hz Hc t' Hb. unfold unlink. rewrite chk_ok by (unfold in_int, int_min in *; lia). cbn [mbind res_bind].
  destruct (holds_node me t q _ _ _ _ H Eq) as (Hq & _). pose proof (holds_small me t q H Hq) as Hsq. pose proof (ix_nonneg q) as Hq0.
  apply (avl_holds_count _ _ (count me - 1)) in H. set (m := set_count me (count me - 1)) in *. change (size me) with (size m) in *.
  unfold previous_ordered_node. destruct (children q Hsq) as [-> _]. cbn [mbind res_bind]. destruct (decide (l = E)) as [->|Hl].
  - specialize (Hle eq_refl). subst r. unfold fuel. cbn [previous_from]. rewrite (has_node_spec m t (q ++ [false]) H), sub_snoc, Eq. cbn [mbind res_bind]. simpl bool_decide. cbv iota. cbn [mbind res_bind]. rewrite Z.eqb_refl.
    destruct (clear_key_spec m t q) as (m1 & -> & H1 & Hz1 & Hc1); [done|done|done|by rewrite Eq|by rewrite Eq|]. cbn [mbind res_bind].
    rewrite (above_spec m1 t' q) by (done || lia). by exists m1.
  - destruct (spine_last l Hl) as (l' & k1 & v1 & Es & _ & Hd). rewrite Es in Hlast. simpl in Hlast. subst l'. specialize (Hd eq_refl).
    rewrite (previous_spec m t) by (rewrite ?sub_snoc, ?Eq; (done || (rewrite ix_snoc; unfold fuel; lia))). rewrite sub_snoc, Eq, <- app_assoc. simpl app.
    set (p := q ++ false :: spine l). cbn [mbind res_bind]. pose proof (ix_nonneg p). rewrite (proj2 (Z.eqb_neq (-1) _)) by lia.
    assert (sub t p = N E k1 v1 E) as Ep by (unfold p; by rewrite sub_app, Eq). assert (2 * ix p + 2 < size m) as Hp.
    { pose proof (ix_bound p). pose proof (node_depth t p ltac:(by rewrite Ep)). rewrite Hz.
      assert (2 ^ (Z.of_nat (List.length p) + 1) <= 2 ^ 4) by (apply Z.pow_le_mono_r; lia). simpl in *. lia. }
    destruct (children p) as [-> _]; [unfold small; rewrite Hz in Hp; lia|]. cbn [mbind res_bind].
    destruct (exists_last (l := p)) as (p' & b & Hpp); [unfold p; by destruct q|]. pose proof (ix_nonneg p'). assert (parent (ix p) = Ok (ix p')) as -> by (rewrite Hpp; apply parent_ix). cbn [mbind res_bind].
    destruct (children p') as [_ ->]; [unfold small; rewrite Hpp, ix_snoc, Hz in Hp; destruct b; lia|]. cbn [mbind res_bind].
    rewrite (shift_up_none m t (p ++ [false])) by (done || rewrite ?sub_snoc, ?Ep, ?ix_snoc; done || lia). cbn [mbind res_bind].
    destruct (replace_spec m t q l k0 v0 r k1 v1 H Hr Eq Es Hp) as (m1 & E1 & Hh1 & Hz1 & Hc1). fold p in E1. rewrite E1. cbn [mbind res_bind].
    subst t'. rewrite Es in *. simpl top in *. cbv iota beta in *. rewrite <- Hd in Hh1. rewrite (above_spec m1 _ q Hh1 Hb) by lia. by exists m1.
Qed.

Lemma removable_here l k0 v0 r k :
  cmp k0 k = 0 -> removable (N l k0 v0 r) k = true -> (l = E -> r = E) /\ child false (sub l (spine l)) = E.
Proof.
  intros E1. simpl. rewrite E1. simpl. destruct (decide (l = E)) as [->|Hl]; intros H; apply bool_decide_eq_true in H; [done|]. by split.
Qed.

Lemma remove_from_spec me t k n q :
  holds me t -> reach t q -> sorted (els (sub t q)) -> Z.max 0 (size me - ix q) < Z.of_nat n -> removable (sub t q) k = true ->
  theight t <= 4 -> size me = 40 -> (sub t q <> E -> 0 < count me <= int_max) ->
  let s' := remove_tree (sub t q) k in let t' := put_at t q s' in balanced t' = true ->
  exists me', remove_from cmp n me k (ix q) = Ok (me', default 0 (fst <$> map_of (els (sub t q)) !! ord k)) /\ holds me' t' /\ size me' = size me /\
    count me' = count me - (if decide (map_of (els (sub t q)) !! ord k = None) then 0 else 1).
Proof.
  intros H. revert q. induction n as [|n IH]; intros q Hr Hs Hn Hrm Hh Hz Hc s' t' Hb; [lia|]. cbn [remove_from].
  assert (sub t q = E -> t' = t) as Hsame by (intros Eq; unfold t', s'; rewrite Eq; simpl; rewrite <- Eq; apply put_sub).
  destruct (sub t q) as [|l k0 v0 r] eqn:Es.
  { exists me. rewrite Hsame by done. split_and!; [|done|done|rewrite decide_True by done; lia]. simpl. case_if; [|done]. by rewrite (holds_key me t q H), Es. }
  destruct (holds_node me t q _ _ _ _ H Es) as (Hi & _ & Hk0). rewrite (proj2 (Z.ltb_lt _ _)) by done. rewrite (holds_key me t q H Hi), Es. cbn [mbind res_bind].
  rewrite (proj2 (Z.eqb_neq k0 0)) by done. pose proof (ix_nonneg q). destruct (children q (holds_small me t q H Hi)) as [-> ->]. cbn [mbind res_bind]. simpl els in *.
  pose proof Hs as (Hsl & Hsr & _)%sorted_mid. specialize (Hc ltac:(done)). destruct (compare_cases k0 k) as [[E1 E2]|[[E1 E2]|[E1 E2]]].
  - destruct (removable_here _ _ _ _ _ E1 Hrm) as [Hle Hlast]. subst s' t'. simpl in Hb |- *. rewrite E1 in Hb |- *. simpl in Hb |- *.
    destruct (avl_unlink_spec me t q l k0 v0 r) as (m1 & -> & H1 & Hz1 & Hc1); try done. exists m1. rewrite <- E2. rewrite (map_of_here (els l) (k0, v0)) by done. done.
  - rewrite (proj2 (Z.eqb_neq _ 0)), (proj2 (Z.ltb_lt _ _)) by lia. rewrite map_of_left by done. subst s' t'.
    simpl in Hb, Hrm |- *. rewrite (proj2 (Z.eqb_neq _ 0)), (proj2 (Z.ltb_lt _ _)) in Hb, Hrm |- * by lia.
    specialize (IH (q ++ [false]) (reach_child t q false l k0 v0 r Hr Es)). cbn zeta in IH. rewrite sub_snoc, Es, (put_child t q false l k0 v0 r) in IH by done. simpl in IH.
    apply IH; try done. rewrite ix_snoc. lia.
  - rewrite (proj2 (Z.eqb_neq _ 0)), (proj2 (Z.ltb_ge _ _)) by lia. rewrite map_of_right by done. subst s' t'.
    simpl in Hb, Hrm |- *. rewrite (proj2 (Z.eqb_neq _ 0)), (proj2 (Z.ltb_ge _ _)) in Hb, Hrm |- * by lia.
    specialize (IH (q ++ [true]) (reach_child t q true l k0 v0 r Hr Es)). cbn zeta in IH. rewrite sub_snoc, Es, (put_child t q true l k0 v0 r) in IH by done. simpl in IH.
    apply IH; try done. rewrite ix_snoc. lia.
Qed.

(** ** Histories *)

Inductive command : Type := Get (k : Z) | Insert (k v : Z) | Remove (k : Z) | Count.

Definition exec (c : command) (me : avltree_t) : res (avltree_t * Z) :=
  match c with
  | Get k => v ← avltree_get cmp me k; Ok (me, v)
  | Insert k v => me ← avltree_insert cmp me k v; Ok (me, 0)
  | Remove k => avltree_remove cmp me k
  | Count => Ok (me, avltree_count me)
  end.

(** A key that is inserted again keeps its pointer and gets the new value; a removal
    returns the pointer of the key. *)
Definition apply_map (c : command) (m : gmap Z (Z * Z)) : gmap Z (Z * Z) * Z :=
  match c with
  | Get k => (m, default 0 (snd <$> m !! ord k))
  | Insert k v => (<[ord k := (default k (fst <$> m !! ord k), v)]> m, 0)
  | Remove k => (delete (ord k) m, default 0 (fst <$> m !! ord k))
  | Count => (m, Z.of_nat (base.size m))
  end.

(** The same on search trees that are not rebalanced. *)
Definition apply_tree (c : command) (t : tree) : tree * Z :=
  (match c with Get _ | Count => t | Insert k v => insert_tree t k v | Remove k => remove_tree t k end, (apply_map c (map_of (els t))).2).

(** Keys are not [NULL]; the tree stays balanced without rotations and has five levels
    at most; what is removed is one of the nodes that the code can remove. *)
Definition allowed (c : command) (t : tree) : bool :=
  match c with
  | Get _ | Count => true
  | Insert k v => negb (k =? 0) && balanced (insert_tree t k v) && (theight (insert_tree t k v) <=? 5)
  | Remove k => removable t k && balanced (remove_tree t k) && (theight t <=? 4)
  end.

Record reps (n : nat) (me : avltree_t) (t : tree) : Prop := {
  r_holds : holds me t;
  r_size : size me = 40;
  r_sorted : sorted (els t);
  r_count : count me = Z.of_nat (List.length (els t));
  r_room : Z.of_nat (List.length (els t)) + Z.of_nat n <= int_max
}.

Lemma tree_step_map c t : sorted (els t) -> sorted (els (apply_tree c t).1) /\ map_of (els (apply_tree c t).1) = (apply_map c (map_of (els t))).1.
Proof. intros Hs. destruct c as [k|k v|k|]; simpl; [done|by apply insert_tree_map|by apply remove_tree_map|done]. Qed.

Lemma in_levels t h q : theight t <= h -> sub t q <> E -> ix q < 2 ^ h - 1.
Proof.
  intros Hh Hq. pose proof (node_depth t q Hq). pose proof (ix_bound q). assert (2 ^ (Z.of_nat (List.length q) + 1) <= 2 ^ h) by (apply Z.pow_le_mono_r; lia). lia.
Qed.

Lemma avl_insert_spec n me t k v :
  reps (S n) me t -> allowed (Insert k v) t = true -> exists me', avltree_insert cmp me k v = Ok me' /\ reps n me' (insert_tree t k v).
Proof.
  intros [H Hz Hs Hc Hroom] [[Hk%negb_true_iff%Z.eqb_neq Hb]%andb_true_iff Hh%Z.leb_le]%andb_true_iff. unfold avltree_insert.
  destruct (insert_from_spec me t k v (fuel me) [] Hk H) as (me' & E1 & H1 & Hz1 & Hc1); [done|unfold fuel, ix; simpl; lia|unfold int_max in *; lia|done| |].
  { intros q Hq. pose proof (in_levels _ 5 q Hh Hq). rewrite Hz. simpl in *. lia. }
  exists me'. split; [done|]. simpl in H1, Hc1. destruct (insert_els t k v Hs) as (l1 & mid & l2 & (E2 & _ & _ & Hm) & E3). split; [done|lia|by apply insert_tree_map|lia|].
  rewrite E3. rewrite E2 in Hroom. rewrite !length_app in *. simpl. lia.
Qed.

Lemma avl_remove_spec n me t k :
  reps (S n) me t -> allowed (Remove k) t = true ->
  exists me', avltree_remove cmp me k = Ok (me', default 0 (fst <$> map_of (els t) !! ord k)) /\ reps n me' (remove_tree t k).
Proof.
  intros [H Hz Hs Hc Hroom] [[Hrm Hb]%andb_true_iff Hh%Z.leb_le]%andb_true_iff. unfold avltree_remove.
  destruct (remove_from_spec me t k (fuel me) [] H) as (me' & E1 & H1 & Hz1 & Hc1); [done|done|unfold fuel, ix; simpl; lia|done|done|done| |done|].
  { intros Ht. simpl in Ht. destruct t; [done|]. simpl in *. rewrite length_app in *. simpl in *. lia. }
  exists me'. split; [done|]. simpl in H1, Hc1. destruct (remove_els t k Hs) as (l1 & mid & l2 & Hsp & E3).
  destruct (splits_sorted t k l1 mid l2 Hs Hsp) as (_ & Hm & _). destruct Hsp as (E2 & _ & _ & Hmid).
  assert (Z.of_nat (List.length (els (remove_tree t k))) = count me') as Hlen.
  { rewrite Hc1, Hc, Hm, E2, E3, !length_app. destruct Hmid as [->|(kv & -> & _)]; simpl; lia. }
  split; [done|lia|by apply remove_tree_map|lia|]. rewrite E3. rewrite E2 in Hroom. rewrite !length_app in *. lia.
Qed.

#[export] Instance avl_implements : ImplementsWhen exec apply_tree allowed reps.
Proof.
  intros n c me t Hr Hal. pose proof Hr as [H Hz Hs Hc Hroom]. destruct c as [k|k v|k|]; simpl apply_tree; cbn [exec].
  - rewrite (avl_get_spec me t k H Hs). exists me. split; [done|]. split; try done. simpl. lia.
  - destruct (avl_insert_spec n me t k v Hr Hal) as (me' & -> & Hr'). by exists me'.
  - destruct (avl_remove_spec n me t k Hr Hal) as (me' & -> & Hr'). by exists me'.
  - exists me. unfold avltree_count. simpl. rewrite map_of_size, Hc by done. split; [done|]. split; try done. simpl. lia.
Qed.

Lemma answers_agree cs t : sorted (els t) -> (apply_all apply_tree cs t).2 = (apply_all apply_map cs (map_of (els t))).2.
Proof.
  revert t. induction cs as [|c cs IH]; intros t Hs; [done|]. destruct (tree_step_map c t Hs) as [Hs' Hm]. specialize (IH _ Hs').
  cbn [apply_all]. destruct (apply_tree c t) as [t' r] eqn:E1, (apply_map c (map_of (els t))) as [m' r'] eqn:E2. simpl in *. subst m'.
  assert (r = r') as -> by (apply (f_equal snd) in E1; simpl in E1; by rewrite E2 in E1).
  destruct (apply_all apply_tree cs t'), (apply_all apply_map cs (map_of (els t'))). simpl in *. by subst.
Qed.

Lemma avl_new_reps n : Z.of_nat n <= int_max -> reps n avltree_new E.
Proof.
  intros Hn. split; [|done|constructor|done|done]. split; [done|unfold small; simpl; lia|intros q Hq; by rewrite sub_E in Hq|].
  intros q Hq. rewrite sub_E. exists (mk_node (Some 0) (Some 0)). split; [|done]. apply load_ok; [apply ix_nonneg|].
  unfold avltree_new, nodes. apply lookup_replicate. split; [done|]. simpl in Hq. lia.
Qed.
End search.

(** C33: As long as the search tree stays balanced by itself, has at most five levels and only
    loses nodes that the code can remove, the array answers as a finite map in any
    history of calls, and every access is within the array. *)
Theorem avltree_refines_map (cmp : Z -> Z -> Z) (ord : Z -> Z) (cs : list command) :
  CompareLaws cmp ord -> Z.of_nat (List.length cs) <= int_max -> allowed_all (apply_tree cmp ord) (allowed cmp) cs E = true ->
  exists me, exec_all (exec cmp) cs avltree_new = Ok (me, (apply_all (apply_map ord) cs ∅).2).
Proof.
  intros Hl Hn Hal. destruct (history_when (exec cmp) (apply_tree cmp ord) (allowed cmp) (reps ord) cs 0 avltree_new E) as (me & E1 & _); [|done|].
  { apply avl_new_reps. lia. }
  exists me. rewrite E1. by rewrite (answers_agree cmp ord cs E) by constructor.
Qed.

(** The sign of the difference, as a comparison with results of type [int]. *)
Definition sign_compare (x y : Z) : Z := Z.sgn (y - x).

Lemma sign_compare_laws : CompareLaws sign_compare (fun x => x).
Proof. unfold sign_compare. split; intros x y; [lia|lia|]. unfold in_int, int_min, int_max. lia. Qed.

Lemma avltree_refines_map_witness :
  let cs := [Insert 12 120; Insert 10 100; Insert 13 130; Insert 11 110; Insert 8 80; Insert 11 111; Get 11; Remove 10; Get 10; Get 8; Remove 9; Count] in
  (apply_all (apply_map (fun x => x)) cs ∅).2 = [0; 0; 0; 0; 0; 0; 111; 10; 0; 80; 0; 4] /\
  exists me, exec_all (exec sign_compare) cs avltree_new = Ok (me, (apply_all (apply_map (fun x => x)) cs ∅).2).
Proof.
  intros cs. split; [vm_compute; reflexivity|]. apply (avltree_refines_map sign_compare (fun x => x) cs); [apply sign_compare_laws|unfold int_max; simpl; lia|vm_compute; reflexivity].
Defined.

(** ** Where it goes wrong *)

(** The comparison of the tests. *)
Definition uint_compare (e1 e2 : Z) : Z := e2 - e1.

Fixpoint insert_all (me : avltree_t) (ks : list Z) : res avltree_t :=
  match ks with [] => Ok me | k :: ks => me ← avltree_insert uint_compare me k (10 * k); insert_all me ks end.

(** Rising keys are balanced by rotations to the left. *)
Theorem avl_rising_keys :
  (me ← insert_all avltree_new [10; 11; 12; 13; 14; 15]; h ← avltree_height me; Ok (h, count me, (fun n => key n) <$> take 7 (nodes me))) =
  Ok (3, 6, [Some 13; Some 11; Some 14; Some 10; Some 12; Some 0; Some 15]).
Proof. vm_compute. reflexivity. Qed.

(** Falling keys are not: the code only rotates to the left, which makes a second node
    for the greatest key.  After that the key is still there when it was removed. *)
Theorem avl_falling_keys_duplicate :
  (me ← insert_all avltree_new [10; 9; 8]; c ← count_from (fuel me) me 0; Ok (count me, c)) = Ok (3, 4) /\
  (me ← insert_all avltree_new [10; 9; 8]; '(me, k) ← avltree_remove uint_compare me 10; v ← avltree_get uint_compare me 10; Ok (k, v)) = Ok (10, 100).
Proof. split; vm_compute; reflexivity. Qed.

(** Removing a node that has only a right child loses the child. *)
Theorem avl_remove_loses_right_child :
  (me ← insert_all avltree_new [10; 9; 12; 13]; '(me, k) ← avltree_remove uint_compare me 12; v ← avltree_get uint_compare me 13; Ok (k, count me, v)) = Ok (12, 3, 0).
Proof. vm_compute. reflexivity. Qed.

(** Removing a node whose left child has a left child loses the right child. *)
Theorem avl_remove_overwrites_right_child :
  (me ← insert_all avltree_new [10; 8; 12; 7]; '(me, k) ← avltree_remove uint_compare me 10; v ← avltree_get uint_compare me 12; Ok (k, count me, v)) = Ok (10, 3, 0).
Proof. vm_compute. reflexivity. Qed.

(** The search of [avltree_get] compares with an [int] and takes keys that differ by a
    multiple of [2 ^ 32] for the same. *)
Theorem avl_get_truncates :
  (me ← insert_all avltree_new [5]; avltree_get uint_compare me (5 + 2 ^ 32)) = Ok 50.
Proof. vm_compute. reflexivity. Qed.

(** The array is enlarged by copying as many slots as there are nodes, wherever the
    nodes are: a search after that reads slots that were never written. *)
Theorem avl_enlarge_loses :
  (me ← insert_all avltree_new [32; 16; 48; 8; 24; 40; 56; 4; 12; 20; 28; 36; 44; 52; 60; 2; 6; 10; 14; 18; 22; 26; 30; 34; 38; 42; 46; 50; 54; 58; 62; 63]; Ok (size me, count me, is_ok (avltree_get uint_compare me 61))) = Ok (80, 32, false).
Proof. vm_compute. reflexivity. Qed.

(** Emptying the tree does not reset its count. *)
Theorem avltree_empty_keeps_count :
  (me ← insert_all avltree_new [10; 9]; me ← avltree_empty me; v ← avltree_get uint_compare me 10; Ok (v, avltree_count me)) = Ok (0, 2).
Proof. vm_compute. reflexivity. Qed.
End AvlFacts.
