(* ===== verification/QHashmap.v ===== *)
(** * The probing hash map (src/PUTs/07quadratic-probing-hashmap/quadratic_probing_hashmap.c)

    A slot is empty when its key is NULL, deleted when it is the address of a
    static variable, [tombstone], and in use otherwise.  [calloc] is taken to
    succeed.  The probe loops have no bound of their own; [2 * size + 1] turns are
    enough to visit every slot of a table whose size is a power of two, so that a
    loop that uses them up runs forever (or until its counter overflows). *)

From S2P Require Import Prelude Double History.

Module QHashmap.

Record hash_node_t := mk_node { key : Z; val : Z }.

Record hashmapq_t := mk_hashmapq {
  slots_used : Z;
  count : Z;
  size : Z;
  array : list hash_node_t;
  hash : Z -> Z;
  compare : Z -> Z -> Z
}.

Definition null_node : hash_node_t := mk_node 0 0.

Definition is_power_of_two (x : Z) : bool :=
  negb (x =? 0) && (Z.land x (wrap_u32 (x - 1)) =? 0).

Definition hashmapq_new (f : Z -> Z) (cmp : Z -> Z -> Z) (initial_capacity : Z) : res hashmapq_t :=
  if is_power_of_two initial_capacity then
    let n := wrap_int initial_capacity in
    Ok (mk_hashmapq 0 0 n (replicate (Z.to_nat n) null_node) f cmp)
  else Exit 134.

Definition hashmapq_count (h : hashmapq_t) : Z := count h.
Definition hashmapq_size (h : hashmapq_t) : Z := size h.

Definition with_array (h : hashmapq_t) (used c : Z) (a : list hash_node_t) : hashmapq_t :=
  mk_hashmapq used c (size h) a (hash h) (compare h).

Section map.
(** The address of the static variable that marks deleted slots. *)
Context (tombstone : Z).

Fixpoint clear_slots (nodes : list hash_node_t) (c : Z) : res (list hash_node_t * Z) :=
  match nodes with
  | [] => Ok ([], c)
  | n :: nodes =>
      if key n =? 0 then '(nodes, c) ← clear_slots nodes c; Ok (n :: nodes, c)
      else if key n =? tombstone then
        '(nodes, c) ← clear_slots nodes c; Ok (mk_node 0 (val n) :: nodes, c)
      else
        c ← chk (c - 1);
        if c <? 0 then Exit 134
        else '(nodes, c) ← clear_slots nodes c; Ok (mk_node 0 (val n) :: nodes, c)
  end.

Definition hashmapq_clear (h : hashmapq_t) : res hashmapq_t :=
  '(a, c) ← clear_slots (array h) (count h);
  if c =? 0 then Ok (with_array h (slots_used h) c a) else Exit 134.

(** [hashmapq_freeall] releases the map behind this. *)
Definition hashmapq_free (h : hashmapq_t) : res hashmapq_t := hashmapq_clear h.

(** [new_slot] in [hashmapq_get], where [slot] is unsigned. *)
Definition probe_unsigned (h : hashmapq_t) (slot i : Z) : res Z :=
  sq ← chk (i * i);
  let s := wrap_u32 (wrap_u32 (slot + i / 2) + sq / 2) in
  let n := wrap_u32 (size h) in
  if n =? 0 then Undef else Ok (wrap_int (s mod n)).

(** [new_slot] in the other functions, where [slot] is an [int]: the remainder of
    a negative number is negative. *)
Definition probe_signed (h : hashmapq_t) (slot i : Z) : res Z :=
  sq ← chk (i * i);
  s ← chk (slot + i / 2);
  s ← chk (s + sq / 2);
  if size h =? 0 then Undef else Ok (Z.rem s (size h)).

Definition fuel_of (h : hashmapq_t) : nat := S (2 * Z.to_nat (size h)).

Fixpoint get_loop (fuel : nat) (h : hashmapq_t) (k slot i : Z) : res Z :=
  match fuel with
  | O => OutOfFuel
  | S fuel =>
      new_slot ← probe_unsigned h slot i;
      n ← load (array h) new_slot;
      if key n =? 0 then Ok 0
      else if key n =? tombstone then i ← chk (i + 1); get_loop fuel h k slot i
      else if compare h k (key n) =? 0 then Ok (val n)
      else i ← chk (i + 1); get_loop fuel h k slot i
  end.

Definition hashmapq_get (h : hashmapq_t) (k : Z) : res Z :=
  if (hashmapq_count h =? 0) || (k =? 0) then Ok 0
  else get_loop (fuel_of h) h k (wrap_u32 (hash h k)) 0.

Definition hashmapq_contains_key (h : hashmapq_t) (k : Z) : res Z :=
  v ← hashmapq_get h k; Ok (if v =? 0 then 0 else 1).

Fixpoint remove_probe (fuel : nat) (h : hashmapq_t) (k slot i : Z) : res (hashmapq_t * hash_node_t) :=
  match fuel with
  | O => OutOfFuel
  | S fuel =>
      new_slot ← probe_signed h slot i;
      n ← load (array h) new_slot;
      if key n =? 0 then Ok (h, null_node)
      else if key n =? tombstone then i ← chk (i + 1); remove_probe fuel h k slot i
      else if compare h k (key n) =? 0 then
        let n := mk_node tombstone (val n) in
        a ← store (array h) new_slot n;
        c ← chk (count h - 1);
        Ok (with_array h (slots_used h) c a, n)
      else i ← chk (i + 1); remove_probe fuel h k slot i
  end.

(** The map and the content of [entry]. *)
Definition hashmapq_remove_entry (h : hashmapq_t) (k : Z) : res (hashmapq_t * hash_node_t) :=
  let slot := wrap_int (wrap_size (hash h k)) in
  if size h =? 0 then Undef
  else
    n ← load (array h) (Z.rem slot (size h));
    if key n =? 0 then Ok (h, null_node)
    else remove_probe (fuel_of h) h k slot 0.

Definition hashmapq_remove (h : hashmapq_t) (k : Z) : res (hashmapq_t * Z) :=
  '(h, entry) ← hashmapq_remove_entry h k; Ok (h, val entry).

Fixpoint put_loop (fuel : nat) (h : hashmapq_t) (k v slot i : Z) : res (hashmapq_t * Z) :=
  match fuel with
  | O => OutOfFuel
  | S fuel =>
      new_slot ← probe_signed h slot i;
      n ← load (array h) new_slot;
      if (key n =? 0) || (key n =? tombstone) then
        used ← (if key n =? 0 then chk (slots_used h + 1) else Ok (slots_used h));
        c ← (if key n =? 0 then chk (count h + 1) else Ok (count h));
        a ← store (array h) new_slot (mk_node k v);
        Ok (with_array h used c a, 0)
      else if compare h k (key n) =? 0 then
        a ← store (array h) new_slot (mk_node (key n) v);
        Ok (with_array h (slots_used h) (count h) a, val n)
      else i ← chk (i + 1); put_loop fuel h k v slot i
  end.

Definition put_slot (h : hashmapq_t) (k v : Z) : res (hashmapq_t * Z) :=
  put_loop (fuel_of h) h k v (wrap_int (wrap_size (hash h k))) 0.

Section growth.
Context (put : hashmapq_t -> Z -> Z -> res (hashmapq_t * Z)).

Fixpoint move_slots (old : list hash_node_t) (h : hashmapq_t) : res hashmapq_t :=
  match old with
  | [] => Ok h
  | n :: old =>
      if (key n =? 0) || (key n =? tombstone) then move_slots old h
      else '(h, _) ← put h (key n) (val n); move_slots old h
  end.

Definition double_size (h : hashmapq_t) : res hashmapq_t :=
  n ← chk (size h * 2);
  move_slots (take (Z.to_nat (size h)) (array h))
    (mk_hashmapq 0 0 n (replicate (Z.to_nat n) null_node) (hash h) (compare h)).

Definition ensurecapacity (h : hashmapq_t) : res hashmapq_t :=
  if flt (fdiv (float_of_Z (slots_used h)) (float_of_Z (size h))) f_half then Ok h
  else double_size h.
End growth.

Fixpoint hashmapq_put (fuel : nat) (h : hashmapq_t) (k v : Z) : res (hashmapq_t * Z) :=
  match fuel with
  | O => OutOfFuel
  | S fuel =>
      if (k =? 0) || (v =? 0) then Ok (h, 0)
      else h ← ensurecapacity (hashmapq_put fuel) h; put_slot h k v
  end.

Definition hashmapq_put_entry (fuel : nat) (h : hashmapq_t) (entry : hash_node_t) : res hashmapq_t :=
  '(h, _) ← hashmapq_put fuel h (key entry) (val entry); Ok h.

Definition hashmapq_increase_capacity (fuel : nat) (h : hashmapq_t) : res hashmapq_t :=
  double_size (hashmapq_put fuel) h.

(** ** Iteration

    The iterator is the next slot to look at. *)

Fixpoint seek (fuel : nat) (h : hashmapq_t) (cur : Z) : res (Z * Z) :=
  match fuel with
  | O => OutOfFuel
  | S fuel =>
      if cur <? size h then
        n ← load (array h) cur;
        if (key n =? 0) || (key n =? tombstone) then cur ← chk (cur + 1); seek fuel h cur
        else Ok (cur, key n)
      else Ok (cur, 0)
  end.

Definition hashmapq_iterator : Z := 0.

Definition hashmapq_iterator_peek (h : hashmapq_t) (cur : Z) : res (Z * Z) :=
  seek (S (Z.to_nat (size h))) h cur.

Definition hashmapq_iterator_peek_value (h : hashmapq_t) (cur : Z) : res (Z * Z) :=
  '(cur, k) ← hashmapq_iterator_peek h cur; v ← hashmapq_get h k; Ok (cur, v).

Definition hashmapq_iterator_has_next (h : hashmapq_t) (cur : Z) : res (Z * bool) :=
  '(cur, k) ← hashmapq_iterator_peek h cur; Ok (cur, negb (k =? 0)).

Definition hashmapq_iterator_next (h : hashmapq_t) (cur : Z) : res (Z * Z) :=
  '(cur, k) ← seek (S (Z.to_nat (size h))) h cur;
  if cur <? size h then cur ← chk (cur + 1); Ok (cur, k) else Ok (cur, 0).

Definition hashmapq_iterator_next_value (h : hashmapq_t) (cur : Z) : res (Z * Z) :=
  '(cur, k) ← hashmapq_iterator_next h cur;
  if k =? 0 then Ok (cur, 0) else v ← hashmapq_get h k; Ok (cur, v).

(** ** The map a table represents *)

Lemma filter_all {B} (P : B -> Prop) `{forall x, Decision (P x)} (l : list B) : Forall P l -> base.filter P l = l.
Proof. induction 1 as [|x l Hx Hl IH]; [done|]. by rewrite filter_cons_True, IH. Qed.

Context (f : Z -> Z) (cmp : Z -> Z -> Z) (repr : Z -> Z) `{!KeyLaws f cmp repr}.
Context (Hf : forall k, 0 <= f k < 2 ^ 30).

(** The slots that are probed. *)
Definition pos (n k i : Z) : Z := (f k + i / 2 + i * i / 2) mod n.

Lemma pos_range n k i : 0 < n -> 0 <= pos n k i < n.
Proof. intros Hn. by apply Z.mod_pos_bound. Qed.

Lemma probe_bounds i : 0 <= i <= 2 ^ 15 -> 0 <= i / 2 <= 2 ^ 14 /\ 0 <= i * i <= 2 ^ 30 /\ 0 <= i * i / 2 <= 2 ^ 29.
Proof. intros Hi. assert (i * i <= 2 ^ 30) by nia. Z.to_euclidean_division_equations. nia. Qed.

Lemma probe_unsigned_ok h k i :
  0 < size h <= 2 ^ 14 -> 0 <= i <= 2 ^ 15 -> probe_unsigned h (wrap_u32 (f k)) i = Ok (pos (size h) k i).
Proof.
  intros Hs Hi. pose proof (probe_bounds i Hi). pose proof (Hf k). unfold probe_unsigned.
  rewrite chk_ok by (unfold in_int, int_min, int_max; lia). cbn [mbind res_bind].
  rewrite (wrap_u32_id (f k)), (wrap_u32_id (f k + i / 2)), (wrap_u32_id (size h)), wrap_u32_id by lia.
  destruct (Z.eqb_spec (size h) 0); [lia|]. f_equal. apply wrap_int_id.
  pose proof (pos_range (size h) k i). unfold pos, in_int, int_min, int_max in *. lia.
Qed.

Lemma probe_signed_ok h k i :
  0 < size h <= 2 ^ 14 -> 0 <= i <= 2 ^ 15 ->
  probe_signed h (wrap_int (wrap_size (f k))) i = Ok (pos (size h) k i).
Proof.
  intros Hs Hi. pose proof (probe_bounds i Hi). pose proof (Hf k). unfold probe_signed.
  rewrite wrap_size_id, wrap_int_id by (unfold in_int, int_min, int_max; lia).
  rewrite !chk_ok by (unfold in_int, int_min, int_max; lia). cbn [mbind res_bind].
  rewrite chk_ok by (unfold in_int, int_min, int_max; lia). cbn [mbind res_bind].
  destruct (Z.eqb_spec (size h) 0); [lia|]. f_equal. apply Z.rem_mod_nonneg; lia.
Qed.

(** The even probes alone visit every slot of a table of [2 ^ a] slots. *)
Lemma probes_distinct a j l :
  0 <= a -> 0 <= j < 2 ^ a -> 0 <= l < 2 ^ a -> (2 * j * j + j) mod 2 ^ a = (2 * l * l + l) mod 2 ^ a -> j = l.
Proof.
  intros Ha Hj Hl E. pose proof (Z.pow_pos_nonneg 2 a ltac:(lia) Ha).
  assert ((2 ^ a | (j - l) * (2 * (j + l) + 1))) as Hd.
  { replace ((j - l) * (2 * (j + l) + 1)) with ((2 * j * j + j) - (2 * l * l + l)) by lia.
    apply Z.mod_divide; [lia|]. rewrite Zminus_mod, E, Z.sub_diag. apply Z.mod_0_l; lia. }
  rewrite Z.mul_comm in Hd. apply Z.gauss in Hd.
  - destruct Hd as [q Hq]. assert (q = 0) as -> by nia. lia.
  - apply Z.coprime_pow_l; [lia|]. apply Z.bezout_1_gcd. exists (- (j + l)), 1. lia.
Qed.

Lemma probes_onto a k idx :
  0 <= a -> 0 <= idx < 2 ^ a -> exists i, 0 <= i < 2 * 2 ^ a /\ pos (2 ^ a) k i = idx.
Proof.
  intros Ha Hidx. pose proof (Z.pow_pos_nonneg 2 a ltac:(lia) Ha).
  set (g := fun j => pos (2 ^ a) k (2 * j)).
  assert (forall j, g j = (f k + (2 * j * j + j)) mod 2 ^ a) as Hg.
  { intros j. unfold g, pos. f_equal. replace (2 * j * (2 * j)) with ((2 * j * j) * 2) by lia.
    rewrite Z.div_mul by lia. replace (2 * j) with (j * 2) at 1 by lia. rewrite Z.div_mul by lia. lia. }
  assert (g <$> seqZ 0 (2 ^ a) ≡ₚ seqZ 0 (2 ^ a)) as P.
  { apply submseteq_length_Permutation; [|by rewrite length_fmap].
    apply NoDup_submseteq.
    - apply NoDup_fmap_2_strong; [|apply NoDup_seqZ]. intros j l Hj%elem_of_seqZ Hl%elem_of_seqZ E.
      apply (probes_distinct a); try lia. rewrite !Hg in E.
      apply (f_equal (fun x => (x - f k) mod 2 ^ a)) in E. rewrite !Zminus_mod_idemp_l in E.
      by rewrite !Z.add_simpl_l in E.
    - intros x Hx. apply list_elem_of_fmap in Hx as (j & -> & _). apply elem_of_seqZ.
      pose proof (pos_range (2 ^ a) k (2 * j)). unfold g. lia. }
  assert (idx ∈ g <$> seqZ 0 (2 ^ a)) as Hin by (rewrite P; apply elem_of_seqZ; lia).
  apply list_elem_of_fmap in Hin as (j & -> & Hj%elem_of_seqZ). exists (2 * j). split; [lia|done].
Qed.

Definition live (n : hash_node_t) : Prop := key n <> 0.
Definition entries (a : list hash_node_t) : list hash_node_t := base.filter live a.
Definition kv (n : hash_node_t) : Z * Z := (repr (key n), val n).
Definition map_of (h : hashmapq_t) : gmap Z Z := list_to_map (kv <$> entries (array h)).

Definition used (a : list hash_node_t) (p : Z) : Prop := exists n, a !! Z.to_nat p = Some n /\ live n.

(** Every slot before the [i]-th one of the probe sequence is in use. *)
Definition path (h : hashmapq_t) (k i : Z) : Prop := forall j, 0 <= j < i -> used (array h) (pos (size h) k j).

(** A table without deleted slots. *)
Record wf (h : hashmapq_t) : Prop := {
  w_hash : hash h = f;
  w_compare : compare h = cmp;
  w_size : exists a, 1 <= a <= 14 /\ size h = 2 ^ a;
  w_length : Z.of_nat (List.length (array h)) = size h;
  w_live : forall idx n, array h !! idx = Some n -> live n ->
    key n <> tombstone /\ val n <> 0 /\
    exists i, 0 <= i < 2 * size h /\ pos (size h) (key n) i = Z.of_nat idx /\ path h (key n) i;
  w_nodup : NoDup ((kv <$> entries (array h)).*1);
  w_count : count h = Z.of_nat (List.length (entries (array h)));
  w_used : count h <= slots_used h /\ 2 * slots_used h <= size h
}.

Lemma size_bound h : wf h -> 2 <= size h <= 2 ^ 14.
Proof.
  intros Hwf. destruct (w_size h Hwf) as (a & Ha & ->). split.
  - change 2 with (2 ^ 1) at 1. apply Z.pow_le_mono_r; lia.
  - apply Z.pow_le_mono_r; lia.
Qed.

Lemma q_slot_lookup h k i : wf h -> exists n, array h !! Z.to_nat (pos (size h) k i) = Some n /\
  load (array h) (pos (size h) k i) = Ok n /\ 0 <= pos (size h) k i < Z.of_nat (List.length (array h)).
Proof.
  intros Hwf. pose proof (size_bound h Hwf). pose proof (pos_range (size h) k i). pose proof (w_length h Hwf).
  destruct (load_in_range (array h) (pos (size h) k i)) as (n & Hn & Hl); [lia|].
  exists n. split_and!; done || lia.
Qed.

(** Where a probe loop stops: at an empty slot or at the key. *)
Definition stops (k : Z) (n : hash_node_t) : Prop := key n = 0 \/ repr (key n) = repr k.

Definition first_stop (h : hashmapq_t) (k i : Z) (n : hash_node_t) : Prop :=
  0 <= i < 2 * size h /\ array h !! Z.to_nat (pos (size h) k i) = Some n /\ stops k n /\
  forall j, 0 <= j < i -> exists m, array h !! Z.to_nat (pos (size h) k j) = Some m /\ ~ stops k m.

Lemma empty_slot h k : wf h -> exists i n, 0 <= i < 2 * size h /\
  array h !! Z.to_nat (pos (size h) k i) = Some n /\ key n = 0.
Proof.
  intros Hwf. pose proof (size_bound h Hwf). destruct (w_size h Hwf) as (a & Ha & Es).
  destruct (decide (Forall live (array h))) as [Hall|Hex].
  - pose proof (w_count h Hwf) as Hc. pose proof (w_used h Hwf). pose proof (w_length h Hwf).
    unfold entries in Hc. rewrite filter_all in Hc by done. lia.
  - apply not_Forall_Exists in Hex; [|apply _]. apply Exists_exists in Hex as (n & Hn & Hd).
    apply list_elem_of_lookup in Hn as (idx & Hn). apply lookup_lt_Some in Hn as Hlt.
    pose proof (w_length h Hwf). rewrite Es in *.
    destruct (probes_onto a k (Z.of_nat idx)) as (i & Hi & Ep); [lia..|].
    exists i, n. split; [lia|]. rewrite Ep, Nat2Z.id. split; [done|]. unfold live in Hd.
    destruct (decide (key n = 0)); [done|]. exfalso. by apply Hd.
Qed.

Lemma first_stop_exists h k : wf h -> exists i n, first_stop h k i n.
Proof.
  intros Hwf. destruct (empty_slot h k Hwf) as (i0 & n0 & Hi0 & Hn0 & Hk0).
  assert (forall N, Z.of_nat N <= 2 * size h -> (exists i n, first_stop h k i n) \/
    forall j, 0 <= j < Z.of_nat N -> exists m, array h !! Z.to_nat (pos (size h) k j) = Some m /\ ~ stops k m) as Hd.
  { induction N as [|N IH]; intros HN; [right; lia|]. destruct IH as [?|IH]; [lia|by left|].
    destruct (q_slot_lookup h k (Z.of_nat N) Hwf) as (n & Hn & _).
    assert (Decision (stops k n)) as Hdec by (unfold stops; apply _).
    destruct (decide (stops k n)) as [Hs|Hs].
    - left. exists (Z.of_nat N), n. split_and!; try done; lia.
    - right. intros j Hj. destruct (decide (j = Z.of_nat N)) as [->|]; [eauto|]. apply IH. lia. }
  destruct (Hd (Z.to_nat (2 * size h))) as [?|Hno]; [lia|done|].
  destruct (Hno i0) as (m & Hm & Hs); [lia|]. exfalso. apply Hs. left. congruence.
Qed.

(** The slot a probe loop stops at tells what the map has for the key. *)
Lemma q_entries_in a n : n ∈ entries a <-> live n /\ n ∈ a.
Proof. apply list_elem_of_filter. Qed.

Lemma stop_lookup h k i n :
  wf h -> first_stop h k i n -> map_of h !! repr k = if decide (key n = 0) then None else Some (val n).
Proof.
  intros Hwf (Hi & Hn & Hs & Hbefore). unfold map_of. case_decide as Hk.
  - apply not_elem_of_list_to_map_1. intros Hin. apply list_elem_of_fmap in Hin as ([k' v] & Ek & Hin).
    apply list_elem_of_fmap in Hin as (e & E & He). unfold kv in E. injection E as -> ->. simpl in Ek.
    apply q_entries_in in He as [Hl (idx & He)%list_elem_of_lookup].
    destruct (w_live h Hwf idx e He Hl) as (_ & _ & i' & Hi' & Hp & Hpath).
    assert (forall j, pos (size h) (key e) j = pos (size h) k j) as Hpos.
    { intros j. unfold pos. by rewrite (hash_repr (key e) k). }
    destruct (Z.lt_trichotomy i' i) as [Hlt|[->|Hgt]].
    + destruct (Hbefore i') as (m & Hm & Hns); [lia|]. rewrite <- Hpos, Hp, Nat2Z.id, He in Hm.
      injection Hm as <-. apply Hns. by right.
    + rewrite <- Hpos, Hp, Nat2Z.id, He in Hn. injection Hn as <-. done.
    + destruct (Hpath i) as (m & Hm & Hlm); [lia|]. rewrite Hpos, Hn in Hm. injection Hm as <-. done.
  - destruct Hs as [|Hr]; [done|]. apply elem_of_list_to_map_1; [apply Hwf|].
    apply list_elem_of_fmap. exists n. split; [by unfold kv; rewrite Hr|].
    apply q_entries_in. split; [done|]. by eapply list_elem_of_lookup_2.
Qed.

Lemma not_stops h k m idx :
  wf h -> array h !! idx = Some m -> ~ stops k m ->
  key m <> 0 /\ key m <> tombstone /\ cmp k (key m) <> 0.
Proof.
  intros Hwf Hm Hs. assert (key m <> 0) by (intros E; apply Hs; by left).
  split_and!; [done|by apply (w_live h Hwf idx m)|]. intros E%compare_repr. apply Hs. by right.
Qed.

Lemma get_loop_stops h k i n fuel i0 :
  wf h -> first_stop h k i n -> 0 <= i0 <= i -> i - i0 < Z.of_nat fuel ->
  get_loop fuel h k (wrap_u32 (f k)) i0 = Ok (if decide (key n = 0) then 0 else val n).
Proof.
  intros Hwf Hst. pose proof (size_bound h Hwf). pose proof Hst as (Hi & Hn & Hs & Hbefore).
  revert i0. induction fuel as [|fuel IH]; intros i0 Hi0 Hfuel; [lia|]. cbn [get_loop].
  rewrite probe_unsigned_ok by lia. cbn [mbind res_bind].
  destruct (q_slot_lookup h k i0 Hwf) as (m & Hm & -> & _). cbn [mbind res_bind]. rewrite (w_compare h Hwf).
  destruct (decide (i0 = i)) as [->|Hne].
  - rewrite Hn in Hm. injection Hm as <-. case_decide as Hk; [by rewrite Hk|].
    rewrite (proj2 (Z.eqb_neq _ _) Hk). destruct Hs as [|Hr]; [done|].
    rewrite (proj2 (Z.eqb_neq (key n) tombstone)) by (by eapply (w_live h Hwf)).
    rewrite (proj2 (compare_repr k (key n))) by done. done.
  - destruct (Hbefore i0) as (m' & Hm' & Hns); [lia|]. rewrite Hm in Hm'. injection Hm' as <-.
    destruct (not_stops h k m _ Hwf Hm Hns) as (H1 & H2 & H3).
    rewrite (proj2 (Z.eqb_neq _ _) H1), (proj2 (Z.eqb_neq _ _) H2), (proj2 (Z.eqb_neq _ _) H3).
    rewrite chk_ok by (unfold in_int, int_min, int_max; lia). cbn [mbind res_bind]. apply IH; lia.
Qed.

Lemma q_map_size h : wf h -> Z.of_nat (base.size (map_of h)) = count h.
Proof.
  intros Hwf. unfold map_of. rewrite map_size_list_to_map by apply Hwf.
  by rewrite length_fmap, (w_count h Hwf).
Qed.

Lemma qmap_get h k : wf h -> k <> 0 -> hashmapq_get h k = Ok (default 0 (map_of h !! repr k)).
Proof.
  intros Hwf Hk. unfold hashmapq_get, hashmapq_count. rewrite (proj2 (Z.eqb_neq k 0)), orb_false_r by done.
  destruct (Z.eqb_spec (count h) 0) as [E|E].
  { assert (map_of h = ∅) as ->; [|by rewrite lookup_empty]. apply map_size_empty_iff.
    pose proof (q_map_size h Hwf). lia. }
  destruct (first_stop_exists h k Hwf) as (i & n & Hst). pose proof (size_bound h Hwf).
  rewrite (w_hash h Hwf), (get_loop_stops h k i n) by (done || unfold fuel_of; destruct Hst; lia).
  rewrite (stop_lookup h k i n) by done. by case_decide.
Qed.

(** ** Writing *)

#[local] Instance entries_proper : Proper ((≡ₚ) ==> (≡ₚ)) entries.
Proof. intros l1 l2 E. unfold entries. by rewrite E. Qed.

Lemma entries_cons_live n l : live n -> entries (n :: l) = n :: entries l.
Proof. apply filter_cons_True. Qed.

Lemma entries_cons_dead n l : ~ live n -> entries (n :: l) = entries l.
Proof. apply filter_cons_False. Qed.

Lemma entries_fill a i n n' :
  a !! i = Some n -> ~ live n -> live n' -> entries (<[i := n']> a) ≡ₚ n' :: entries a.
Proof.
  intros Hi Hn Hn'. destruct (insert_split a i n n' Hi) as [P1 P2].
  apply entries_proper in P1, P2. rewrite P1, P2. by rewrite entries_cons_live, entries_cons_dead.
Qed.

Lemma entries_change a i n n' :
  a !! i = Some n -> live n -> live n' ->
  exists R, entries a ≡ₚ n :: R /\ entries (<[i := n']> a) ≡ₚ n' :: R.
Proof.
  intros Hi Hn Hn'. destruct (insert_split a i n n' Hi) as [P1 P2]. exists (entries (delete i a)).
  apply entries_proper in P1, P2. rewrite P1, P2. by rewrite !entries_cons_live.
Qed.

Lemma used_insert a i n' p :
  (i < List.length a)%nat -> live n' -> used a p -> used (<[i := n']> a) p.
Proof.
  intros Hi Hn' (m & Hm & Hl). unfold used. destruct (decide (Z.to_nat p = i)) as [->|].
  - exists n'. by rewrite list_lookup_insert_eq.
  - exists m. by rewrite list_lookup_insert_ne.
Qed.

(** Writing an entry in use at a slot. *)
Lemma wf_write h idx n n' u c :
  wf h -> array h !! idx = Some n -> live n' -> key n' <> tombstone -> val n' <> 0 ->
  (exists i, 0 <= i < 2 * size h /\ pos (size h) (key n') i = Z.of_nat idx /\ path h (key n') i) ->
  NoDup ((kv <$> entries (<[idx := n']> (array h))).*1) ->
  c = Z.of_nat (List.length (entries (<[idx := n']> (array h)))) -> c <= u /\ 2 * u <= size h ->
  wf (with_array h u c (<[idx := n']> (array h))).
Proof.
  intros Hwf Hi Hl Ht Hv Hpos Hnd Hc Hu. apply lookup_lt_Some in Hi as Hlt.
  assert (forall k i, path h k i -> path (with_array h u c (<[idx := n']> (array h))) k i) as Hpath.
  { intros k i Hp j Hj. apply used_insert; [done|done|]. by apply Hp. }
  pose proof Hwf as [Hf' Hc' Hs Hlen Hlive _ _ _]. split; simpl; try done.
  - by rewrite length_insert.
  - intros j m Hj Hm. apply list_lookup_insert_Some in Hj as [(<- & <- & _)|[_ Hj]].
    + split_and!; try done. destruct Hpos as (i & ? & ? & ?). exists i. split_and!; try lia; auto.
    + destruct (Hlive j m Hj Hm) as (? & ? & i & ? & ? & ?). split_and!; try done.
      exists i. split_and!; try lia; auto.
Qed.

Definition put_result (h : hashmapq_t) (k v p : Z) (n : hash_node_t) : hashmapq_t * Z :=
  if decide (key n = 0) then
    (with_array h (slots_used h + 1) (count h + 1) (<[Z.to_nat p := mk_node k v]> (array h)), 0)
  else (with_array h (slots_used h) (count h) (<[Z.to_nat p := mk_node (key n) v]> (array h)), val n).

Lemma put_loop_stops h k v i n fuel i0 :
  wf h -> first_stop h k i n -> 0 <= i0 <= i -> i - i0 < Z.of_nat fuel ->
  put_loop fuel h k v (wrap_int (wrap_size (f k))) i0 = Ok (put_result h k v (pos (size h) k i) n).
Proof.
  intros Hwf Hst. pose proof (size_bound h Hwf). pose proof Hst as (Hi & Hn & Hs & Hbefore).
  assert (0 <= count h) by (rewrite (w_count h Hwf); lia). pose proof (w_used h Hwf).
  revert i0. induction fuel as [|fuel IH]; intros i0 Hi0 Hfuel; [lia|]. cbn [put_loop].
  rewrite probe_signed_ok by lia. cbn [mbind res_bind].
  destruct (q_slot_lookup h k i0 Hwf) as (m & Hm & -> & Hr). cbn [mbind res_bind]. rewrite (w_compare h Hwf).
  destruct (decide (i0 = i)) as [->|Hne].
  - rewrite Hn in Hm. injection Hm as <-. unfold put_result. case_decide as Hk.
    + rewrite Hk. cbn [Z.eqb orb]. rewrite !chk_ok by (unfold in_int, int_min, int_max; lia).
      cbn [mbind res_bind].
      by rewrite store_ok.
    + rewrite (proj2 (Z.eqb_neq _ _) Hk). destruct Hs as [|Hr']; [done|].
      rewrite (proj2 (Z.eqb_neq (key n) tombstone)) by (by eapply (w_live h Hwf)). cbn [orb].
      rewrite (proj2 (compare_repr k (key n))) by done. cbn [Z.eqb]. by rewrite store_ok.
  - destruct (Hbefore i0) as (m' & Hm' & Hns); [lia|]. rewrite Hm in Hm'. injection Hm' as <-.
    destruct (not_stops h k m _ Hwf Hm Hns) as (Hz1 & Hz2 & Hz3).
    rewrite (proj2 (Z.eqb_neq _ _) Hz1), (proj2 (Z.eqb_neq _ _) Hz2), (proj2 (Z.eqb_neq _ _) Hz3). cbn [orb].
    rewrite chk_ok by (unfold in_int, int_min, int_max; lia). cbn [mbind res_bind]. apply IH; lia.
Qed.

Lemma size_even h : wf h -> exists s, size h = 2 * s.
Proof.
  intros Hwf. destruct (w_size h Hwf) as (a & Ha & ->). exists (2 ^ (a - 1)).
  rewrite <- Z.pow_succ_r by lia. f_equal. lia.
Qed.

Lemma put_slot_spec h k v :
  wf h -> k <> 0 -> k <> tombstone -> v <> 0 -> 2 * slots_used h < size h ->
  exists h', put_slot h k v = Ok (h', default 0 (map_of h !! repr k)) /\ wf h' /\
    map_of h' = <[repr k := v]> (map_of h) /\ size h' = size h /\ slots_used h' <= slots_used h + 1.
Proof.
  intros Hwf Hk Ht Hv Hroom. destruct (first_stop_exists h k Hwf) as (i & n & Hst).
  pose proof (size_bound h Hwf). pose proof (stop_lookup h k i n Hwf Hst) as Hlk.
  pose proof Hst as (Hi & Hn & Hs & Hbefore). pose proof (w_used h Hwf).
  unfold put_slot. rewrite (w_hash h Hwf), (put_loop_stops h k v i n) by (done || unfold fuel_of; lia).
  unfold put_result. rewrite Hlk. pose proof (pos_range (size h) k i). destruct (decide (key n = 0)) as [E|E].
  - eexists. split; [done|].
    pose proof (entries_fill _ _ n (mk_node k v) Hn ltac:(by intros ?) ltac:(done)) as P.
    assert (NoDup ((kv <$> mk_node k v :: entries (array h)).*1)) as Hnd.
    { simpl. apply NoDup_cons. split; [|apply Hwf]. by apply not_elem_of_list_to_map_2. }
    assert (NoDup ((kv <$> entries (<[Z.to_nat (pos (size h) k i) := mk_node k v]> (array h))).*1)) as Hnd'
      by (by rewrite P).
    split_and!; simpl; [|unfold map_of; simpl|done|lia].
    + apply (wf_write h _ n); try done.
      * exists i. split_and!; [lia|lia|simpl; lia|]. intros j Hj. destruct (Hbefore j Hj) as (m & Hm & Hns).
        exists m. split; [done|]. intros Hm0. apply Hns. by left.
      * rewrite P. simpl. rewrite (w_count h Hwf). lia.
      * destruct (size_even h Hwf). lia.
    + rewrite (list_to_map_proper _ (kv <$> mk_node k v :: entries (array h))); [done|done|by rewrite P].
  - destruct Hs as [|Hr]; [done|]. eexists. split; [done|].
    destruct (entries_change _ _ n (mk_node (key n) v) Hn E E) as (R & P1 & P2).
    pose proof (w_nodup h Hwf) as Hnd0. rewrite P1 in Hnd0. pose proof Hnd0 as Hnd. simpl in Hnd.
    apply NoDup_cons in Hnd as [Hnin Hnd].
    assert (NoDup ((kv <$> entries (<[Z.to_nat (pos (size h) k i) := mk_node (key n) v]> (array h))).*1)) as Hnd'
      by (rewrite P2; simpl; by apply NoDup_cons).
    destruct (w_live h Hwf _ n Hn E) as (Htn & _ & Hpn).
    split_and!; simpl; [| |done|lia].
    + apply (wf_write h _ n); try done. rewrite P2, (w_count h Hwf), P1. done.
    + unfold map_of. simpl.
      rewrite (list_to_map_proper _ (kv <$> mk_node (key n) v :: R)); [|done|by rewrite P2].
      rewrite (list_to_map_proper (kv <$> entries (array h)) (kv <$> n :: R)); [|apply Hwf|by rewrite P1].
      simpl. rewrite Hr. by rewrite insert_insert_eq.
Qed.

(** ** Growth *)

Lemma ensure_space put h :
  0 <= slots_used h <= 2 ^ 13 -> 0 < size h <= 2 ^ 14 ->
  ensurecapacity put h = if 2 * slots_used h <? size h then Ok h else double_size put h.
Proof. intros Hc Hs. unfold ensurecapacity. by rewrite fdiv_lt_half by lia. Qed.

Lemma hashmapq_put_S fuel h k v :
  hashmapq_put (S fuel) h k v =
  if (k =? 0) || (v =? 0) then Ok (h, 0) else h ← ensurecapacity (hashmapq_put fuel) h; put_slot h k v.
Proof. reflexivity. Qed.

Lemma used_nonneg h : wf h -> 0 <= slots_used h <= 2 ^ 13.
Proof.
  intros Hwf. pose proof (w_used h Hwf). pose proof (w_count h Hwf). pose proof (size_bound h Hwf). lia.
Qed.

Lemma put_space fuel h k v :
  wf h -> k <> 0 -> v <> 0 -> 2 * slots_used h < size h -> hashmapq_put (S fuel) h k v = put_slot h k v.
Proof.
  intros Hwf Hk Hv Hl. rewrite hashmapq_put_S.
  rewrite (proj2 (Z.eqb_neq k 0)), (proj2 (Z.eqb_neq v 0)) by done. cbn [orb].
  pose proof (size_bound h Hwf). rewrite ensure_space by (apply used_nonneg || lia; done).
  by destruct (Z.ltb_spec (2 * slots_used h) (size h)); [|lia].
Qed.

(** Moving new entries into a table with room for them. *)
Lemma move_slots_spec fuel old h :
  wf h -> NoDup ((kv <$> entries old).*1) ->
  (forall n, n ∈ old -> live n -> key n <> tombstone /\ val n <> 0 /\ map_of h !! repr (key n) = None) ->
  2 * (slots_used h + Z.of_nat (List.length (entries old)) - 1) < size h ->
  exists h', move_slots (hashmapq_put (S fuel)) old h = Ok h' /\ wf h' /\
    map_of h' = list_to_map (kv <$> entries old) ∪ map_of h /\ size h' = size h /\
    slots_used h' <= slots_used h + Z.of_nat (List.length (entries old)).
Proof.
  revert h. induction old as [|n old IH]; intros h Hwf Hnd Hold Hs; cbn [move_slots].
  { exists h. split_and!; try done; [|simpl; lia]. simpl. by rewrite (left_id_L ∅ (∪)). }
  destruct (Z.eqb_spec (key n) 0) as [E|E]; cbn [orb].
  { rewrite entries_cons_dead in * by (by intros ?). apply IH; try done. intros m Hm. apply Hold. set_solver. }
  rewrite entries_cons_live in * by done. simpl in Hs, Hnd. apply NoDup_cons in Hnd as [Hnin Hnd].
  destruct (Hold n ltac:(set_solver) E) as (Ht & Hv & Hnone). rewrite (proj2 (Z.eqb_neq _ _) Ht).
  rewrite put_space by (done || lia).
  destruct (put_slot_spec h (key n) (val n)) as (h1 & -> & Hwf1 & Hm1 & Hs1 & Hu1); [done..|lia|]. cbn [mbind res_bind].
  destruct (IH h1) as (h2 & -> & Hwf2 & Hm2 & Hs2 & Hu2); try done; [|lia|].
  { intros x Hx Hlx. destruct (Hold x ltac:(set_solver) Hlx) as (? & ? & Hx0). split_and!; try done.
    rewrite Hm1, lookup_insert_ne; [done|]. intros Ex. apply Hnin. rewrite Ex.
    apply list_elem_of_fmap. exists (kv x). split; [done|]. apply list_elem_of_fmap. exists x.
    split; [done|]. by apply q_entries_in. }
  exists h2. split_and!; try done; [|congruence|simpl; lia].
  rewrite Hm2, Hm1. simpl. rewrite <- insert_union_r by (by apply not_elem_of_list_to_map_1).
  by rewrite insert_union_l.
Qed.

Lemma entries_null n : entries (replicate n null_node) = [].
Proof. induction n as [|n IH]; [done|]. by rewrite replicate_S, entries_cons_dead by (by intros ?). Qed.

Lemma q_empty_wf a : 1 <= a <= 14 ->
  let h := mk_hashmapq 0 0 (2 ^ a) (replicate (Z.to_nat (2 ^ a)) null_node) f cmp in wf h /\ map_of h = ∅.
Proof.
  intros Ha h. pose proof (Z.pow_pos_nonneg 2 a ltac:(lia) ltac:(lia)).
  split; [|unfold map_of; simpl; by rewrite entries_null].
  split; simpl; rewrite ?entries_null; try done.
  - eauto.
  - rewrite length_replicate. lia.
  - intros idx n Hn Hl. by apply lookup_replicate in Hn as [-> _].
  - constructor.
  - lia.
Qed.

Lemma double_spec fuel h :
  wf h -> 2 * size h <= 2 ^ 14 ->
  exists h', double_size (hashmapq_put (S fuel)) h = Ok h' /\ wf h' /\
    map_of h' = map_of h /\ size h' = 2 * size h /\ slots_used h' <= slots_used h.
Proof.
  intros Hwf Hs. pose proof (size_bound h Hwf). pose proof (w_length h Hwf). pose proof (w_used h Hwf).
  pose proof (w_count h Hwf). destruct (w_size h Hwf) as (a & Ha & Es).
  assert (2 * size h = 2 ^ (a + 1)) as Es' by (rewrite Es, <- Z.pow_succ_r by lia; done).
  assert (a + 1 <= 14) by (apply (Z.pow_le_mono_r_iff 2); lia).
  unfold double_size. rewrite Z.mul_comm, chk_ok by (unfold in_int, int_min, int_max; lia). cbn [mbind res_bind].
  rewrite take_ge by lia. rewrite (w_hash h Hwf), (w_compare h Hwf), Es'.
  destruct (q_empty_wf (a + 1)) as [Hwf0 Hm0]; [lia|].
  destruct (move_slots_spec fuel (array h) _ Hwf0 (w_nodup h Hwf)) as (h' & -> & Hwf' & Hm' & Hs' & Hu').
  - intros n Hn Hl. apply list_elem_of_lookup in Hn as (idx & Hn). rewrite Hm0, lookup_empty.
    by destruct (w_live h Hwf idx n Hn Hl) as (? & ? & _).
  - simpl. lia.
  - exists h'. split_and!; try done; [|simpl in Hu'; lia]. rewrite Hm', Hm0. by rewrite (right_id_L ∅ (∪)).
Qed.

Lemma qmap_put fuel h k v :
  wf h -> k <> 0 -> k <> tombstone -> v <> 0 -> slots_used h <= 2 ^ 12 ->
  exists h', hashmapq_put (S (S fuel)) h k v = Ok (h', default 0 (map_of h !! repr k)) /\ wf h' /\
    map_of h' = <[repr k := v]> (map_of h) /\ slots_used h' <= slots_used h + 1.
Proof.
  intros Hwf Hk Ht Hv Hu. pose proof (size_bound h Hwf). pose proof (used_nonneg h Hwf).
  assert (exists h1, ensurecapacity (hashmapq_put (S fuel)) h = Ok h1 /\ wf h1 /\ map_of h1 = map_of h /\
    2 * slots_used h1 < size h1 /\ slots_used h1 <= slots_used h) as (h1 & E & Hwf1 & Hm1 & Hl1 & Hu1).
  { rewrite ensure_space by lia. destruct (Z.ltb_spec (2 * slots_used h) (size h)); [by exists h|].
    destruct (double_spec fuel h) as (h1 & -> & Hwf1 & Hm1 & Hs1 & Hu1); [done|lia|].
    exists h1. split_and!; try done. pose proof (w_used h Hwf). lia. }
  rewrite hashmapq_put_S, (proj2 (Z.eqb_neq k 0)), (proj2 (Z.eqb_neq v 0)) by done. cbn [orb].
  rewrite E. cbn [mbind res_bind].
  destruct (put_slot_spec h1 k v) as (h' & -> & Hwf' & Hm' & Hs' & Hu'); [done..|].
  rewrite <- Hm1. exists h'. split_and!; try done. lia.
Qed.

(** ** Clearing *)

Lemma clear_slots_spec nodes r :
  0 <= r -> r + Z.of_nat (List.length (entries nodes)) <= int_max ->
  (forall n, n ∈ nodes -> live n -> key n <> tombstone) ->
  exists nodes', clear_slots nodes (r + Z.of_nat (List.length (entries nodes))) = Ok (nodes', r) /\
    List.length nodes' = List.length nodes /\ forall n, n ∈ nodes' -> key n = 0.
Proof.
  intros Hr. induction nodes as [|n nodes IH]; intros Hm Ht; cbn [clear_slots].
  { exists []. split_and!; [f_equal; f_equal; simpl; lia|done|set_solver]. }
  destruct (Z.eqb_spec (key n) 0) as [E|E].
  - rewrite entries_cons_dead in * by (by intros ?).
    destruct IH as (nodes' & -> & Hl & Hz); [done|set_solver|]. cbn [mbind res_bind].
    exists (n :: nodes'). split_and!; [done|simpl; lia|set_solver].
  - rewrite entries_cons_live in * by done. simpl in Hm. simpl List.length.
    rewrite (proj2 (Z.eqb_neq (key n) tombstone)) by (apply Ht; [set_solver|done]).
    replace (r + Z.of_nat (S (List.length (entries nodes))) - 1) with (r + Z.of_nat (List.length (entries nodes))) by lia.
    rewrite chk_ok by (unfold in_int, int_min; lia). cbn [mbind res_bind].
    destruct (Z.ltb_spec (r + Z.of_nat (List.length (entries nodes))) 0); [lia|].
    destruct IH as (nodes' & -> & Hl & Hz); [lia|set_solver|]. cbn [mbind res_bind].
    eexists. split_and!; [done|simpl; lia|set_solver].
Qed.

Lemma q_entries_cleared nodes : (forall n, n ∈ nodes -> key n = 0) -> entries nodes = [].
Proof.
  induction nodes as [|n nodes IH]; intros Hz; [done|].
  rewrite entries_cons_dead; [apply IH; set_solver|]. intros Hl. apply Hl, Hz. set_solver.
Qed.

Lemma qmap_clear h :
  wf h -> exists h', hashmapq_clear h = Ok h' /\ wf h' /\ map_of h' = ∅ /\ slots_used h' = slots_used h.
Proof.
  intros Hwf. pose proof (w_count h Hwf) as Hcount. pose proof (w_used h Hwf). pose proof (size_bound h Hwf).
  unfold hashmapq_clear.
  destruct (clear_slots_spec (array h) 0) as (nodes' & E & Hl & Hz); [lia|unfold int_max; lia| |].
  { intros n (idx & Hn)%list_elem_of_lookup Hln. by eapply (w_live h Hwf). }
  rewrite Z.add_0_l in E. rewrite Hcount, E. cbn [mbind res_bind]. eexists. split; [done|].
  assert (entries nodes' = []) as He by (by apply q_entries_cleared).
  split_and!; [|unfold map_of; simpl; by rewrite He|done].
  destruct Hwf. split; simpl; rewrite ?He; try done.
  - by rewrite Hl.
  - intros idx n Hn%list_elem_of_lookup_2 Hln. exfalso. apply Hln, Hz, Hn.
  - constructor.
  - simpl. lia.
Qed.

(** ** Iterating *)

(** All keys, in the order the iterator gives them. *)
Fixpoint iterate (fuel : nat) (h : hashmapq_t) (cur : Z) : res (list Z) :=
  match fuel with
  | O => OutOfFuel
  | S fuel =>
      '(cur, k) ← hashmapq_iterator_next h cur;
      if k =? 0 then Ok [] else ks ← iterate fuel h cur; Ok (k :: ks)
  end.

Lemma seek_spec h fuel cur :
  wf h -> 0 <= cur <= size h -> size h - cur < Z.of_nat fuel ->
  (entries (drop (Z.to_nat cur) (array h)) = [] /\ seek fuel h cur = Ok (size h, 0)) \/
  exists cur' n, cur <= cur' < size h /\ seek fuel h cur = Ok (cur', key n) /\ live n /\
    entries (drop (Z.to_nat cur) (array h)) = n :: entries (drop (Z.to_nat (cur' + 1)) (array h)).
Proof.
  intros Hwf. pose proof (w_length h Hwf). pose proof (size_bound h Hwf).
  revert cur. induction fuel as [|fuel IH]; intros cur Hc Hfuel; [lia|]. cbn [seek].
  destruct (Z.ltb_spec cur (size h)).
  - destruct (load_in_range (array h) cur) as (n & -> & Hn); [lia|]. cbn [mbind res_bind].
    assert (drop (Z.to_nat cur) (array h) = n :: drop (Z.to_nat (cur + 1)) (array h)) as Hd.
    { rewrite (drop_S _ n) by done. do 2 f_equal. lia. }
    rewrite Hd. destruct (Z.eqb_spec (key n) 0) as [E|E]; cbn [orb].
    + rewrite chk_ok by (unfold in_int, int_min, int_max; lia). cbn [mbind res_bind].
      rewrite entries_cons_dead by (by intros ?).
      destruct (IH (cur + 1)) as [?|(cur' & m & ? & ? & ?)]; [lia..|by left|].
      right. exists cur', m. split; [lia|done].
    + rewrite (proj2 (Z.eqb_neq (key n) tombstone)) by (by eapply (w_live h Hwf)).
      right. exists cur, n. rewrite entries_cons_live by done. split_and!; try done; lia.
  - assert (cur = size h) as -> by lia. left. split; [|done]. rewrite drop_ge by lia. done.
Qed.

Lemma iterate_spec h fuel cur :
  wf h -> 0 <= cur <= size h -> size h - cur < Z.of_nat fuel ->
  iterate fuel h cur = Ok (key <$> entries (drop (Z.to_nat cur) (array h))).
Proof.
  intros Hwf. pose proof (size_bound h Hwf). revert cur. induction fuel as [|fuel IH]; intros cur Hc Hfuel; [lia|].
  cbn [iterate]. unfold hashmapq_iterator_next.
  destruct (seek_spec h (S (Z.to_nat (size h))) cur Hwf Hc) as [[-> ->]|(cur' & n & Hc' & -> & Hl & ->)]; [lia| |].
  - cbn [mbind res_bind]. by rewrite Z.ltb_irrefl.
  - cbn [mbind res_bind]. destruct (Z.ltb_spec cur' (size h)); [|lia].
    rewrite chk_ok by (unfold in_int, int_min, int_max; lia). cbn [mbind res_bind].
    rewrite (proj2 (Z.eqb_neq (key n) 0)) by done. rewrite IH by lia. done.
Qed.

Lemma qmap_keys h :
  wf h -> exists ks, iterate (S (Z.to_nat (size h))) h hashmapq_iterator = Ok ks /\
    NoDup (repr <$> ks) /\ forall k, k ∈ repr <$> ks <-> is_Some (map_of h !! k).
Proof.
  intros Hwf. pose proof (size_bound h Hwf). exists (key <$> entries (array h)).
  assert (repr <$> (key <$> entries (array h)) = (kv <$> entries (array h)).*1) as E.
  { rewrite <- !list_fmap_compose. done. }
  rewrite iterate_spec by (done || unfold hashmapq_iterator; lia). rewrite E. split_and!; [done|apply Hwf|].
  intros k. unfold map_of. split.
  - intros Hk. destruct (list_to_map (kv <$> entries (array h)) !! k) eqn:El; [by eexists|].
    by apply not_elem_of_list_to_map_2 in El.
  - intros [v Hk%elem_of_list_to_map_2]. apply list_elem_of_fmap. by exists (k, v).
Qed.

(** ** Histories *)

Inductive command : Type :=
  | Put (k v : Z)
  | Get (k : Z)
  | Contains (k : Z)
  | Remove (k : Z)
  | Count
  | Clear.

Definition exec (c : command) (h : hashmapq_t) : res (hashmapq_t * Z) :=
  match c with
  | Put k v => hashmapq_put 2 h k v
  | Get k => v ← hashmapq_get h k; Ok (h, v)
  | Contains k => v ← hashmapq_contains_key h k; Ok (h, v)
  | Remove k => hashmapq_remove h k
  | Count => Ok (h, hashmapq_count h)
  | Clear => h ← hashmapq_clear h; Ok (h, 0)
  end.

(** What the call means on a finite map. *)
Definition apply_map (c : command) (m : gmap Z Z) : gmap Z Z * Z :=
  match c with
  | Put k v => if (k =? 0) || (v =? 0) then (m, 0) else (<[repr k := v]> m, default 0 (m !! repr k))
  | Get k => (m, if k =? 0 then 0 else default 0 (m !! repr k))
  | Contains k => (m, if k =? 0 then 0 else match m !! repr k with Some _ => 1 | None => 0 end)
  | Remove k => (delete (repr k) m, default 0 (m !! repr k))
  | Count => (m, Z.of_nat (base.size m))
  | Clear => (∅, 0)
  end.

(** No removal, and no key that is the address of the tombstone. *)
Definition no_removal (c : command) : bool :=
  match c with Remove _ => false | Put k _ => negb (k =? tombstone) | _ => true end.

Lemma q_val_nonzero h k v : wf h -> map_of h !! k = Some v -> v <> 0.
Proof.
  intros Hwf Hm%elem_of_list_to_map_2. apply list_elem_of_fmap in Hm as (e & E & He).
  apply q_entries_in in He as [Hl (i & Hi)%list_elem_of_lookup]. destruct (w_live h Hwf i e Hi Hl) as (_ & ? & _).
  unfold kv in E. by injection E as -> ->.
Qed.

(** The table holds the map, and there is room for [n] more slots. *)
Definition holds (n : nat) (h : hashmapq_t) (m : gmap Z Z) : Prop :=
  wf h /\ map_of h = m /\ slots_used h + Z.of_nat n <= 2 ^ 12.

#[export] Instance qmap_implements : Implements exec (fun_step apply_map) no_removal holds.
Proof.
  intros n c h m (Hwf & <- & Hn) Hv. unfold fun_step.
  assert (forall k, hashmapq_get h k = Ok (if k =? 0 then 0 else default 0 (map_of h !! repr k))) as Hget.
  { intros k. destruct (Z.eqb_spec k 0) as [->|]; [|by apply qmap_get]. unfold hashmapq_get. by rewrite orb_true_r. }
  assert (holds n h (map_of h)) as Hsame by (split_and!; [done|done|lia]).
  destruct c as [k v|k|k|k| |]; cbn [exec apply_map]; try done.
  - destruct ((k =? 0) || (v =? 0)) eqn:E; [rewrite hashmapq_put_S, E; by exists h, 0, (map_of h)|].
    apply orb_false_iff in E as [?%Z.eqb_neq ?%Z.eqb_neq].
    simpl in Hv. apply negb_true_iff, Z.eqb_neq in Hv.
    destruct (qmap_put 0 h k v) as (h' & -> & Hwf' & Hm' & Hu'); try done; [lia|].
    do 3 eexists. split_and!; [done|done|]. split_and!; [done|done|lia].
  - rewrite Hget. cbn [mbind res_bind]. do 3 eexists. split_and!; done.
  - unfold hashmapq_contains_key. rewrite Hget. cbn [mbind res_bind]. do 3 eexists. split_and!; [done| |done].
    f_equal. destruct (Z.eqb_spec k 0); [done|]. destruct (map_of h !! repr k) as [v|] eqn:E; [|done]. simpl.
    by destruct (Z.eqb_spec v 0); [destruct (q_val_nonzero h (repr k) v)|].
  - unfold hashmapq_count. rewrite <- (q_map_size h Hwf). do 3 eexists. split_and!; done.
  - destruct (qmap_clear h Hwf) as (h' & -> & Hwf' & Hm' & Hu'). cbn [mbind res_bind].
    do 3 eexists. split_and!; [done|done|]. split_and!; [done|done|lia].
Qed.
End map.

(** C19: without removals, any history of up to 4096 calls on a new probing hash map of
    at least two slots answers as a finite map does, for hash values below 2^30:
    the quadratic probe sequence always reaches an empty slot, the table grows
    without losing an entry, and growing never needs to grow again.  The iterator
    then gives every key once. *)
Theorem hashmapq_refines_map (tombstone : Z) (f : Z -> Z) (cmp : Z -> Z -> Z) (repr : Z -> Z) (a : Z)
    (cs : list command) :
  KeyLaws f cmp repr -> (forall k, 0 <= f k < 2 ^ 30) -> 1 <= a <= 14 ->
  forallb (no_removal tombstone) cs = true -> Z.of_nat (List.length cs) <= 2 ^ 12 ->
  exists h0 h ks, hashmapq_new f cmp (2 ^ a) = Ok h0 /\
    exec_all (exec tombstone) cs h0 = Ok (h, (apply_all (apply_map repr) cs ∅).2) /\
    iterate tombstone (S (Z.to_nat (size h))) h hashmapq_iterator = Ok ks /\ NoDup (repr <$> ks) /\
    forall k, k ∈ repr <$> ks <-> is_Some ((apply_all (apply_map repr) cs ∅).1 !! k).
Proof.
  intros Hkeys Hf Ha Hv Hcs. destruct (q_empty_wf tombstone f cmp repr a Ha) as [Hwf Hm].
  assert (hashmapq_new f cmp (2 ^ a) = Ok (mk_hashmapq 0 0 (2 ^ a) (replicate (Z.to_nat (2 ^ a)) null_node) f cmp)) as Hnew.
  { assert (a ∈ seqZ 1 14) as Hin by (apply elem_of_seqZ; lia).
    repeat (apply elem_of_cons in Hin as [->|Hin]; [reflexivity|]). set_solver. }
  pose proof (qmap_implements tombstone f cmp repr Hf).
  destruct (history_applies (exec tombstone) (apply_map repr) (no_removal tombstone) (holds tombstone f cmp repr) cs 0
    (mk_hashmapq 0 0 (2 ^ a) (replicate (Z.to_nat (2 ^ a)) null_node) f cmp) ∅) as (h & E & Hwf' & Hm' & _).
  - split_and!; [done|done|simpl; lia].
  - done.
  - destruct (qmap_keys tombstone f cmp repr h Hwf') as (ks & Ek & Hnd & Hin). rewrite Hm' in Hin.
    eexists _, h, ks. split_and!; done.
Qed.

Lemma hashmapq_refines_map_witness :
  let cs := [Put 5 50; Put 6 60; Put 13 70; Put 5 51; Get 5; Contains 6; Count; Get 13; Get 99] in
  (apply_all (apply_map id) cs ∅).2 = [0; 0; 0; 50; 51; 1; 3; 70; 0] /\
  exists h0 h ks, hashmapq_new (fun k => k mod 8) Z.sub (2 ^ 1) = Ok h0 /\
    exec_all (exec (-1)) cs h0 = Ok (h, (apply_all (apply_map id) cs ∅).2) /\
    iterate (-1) (S (Z.to_nat (size h))) h hashmapq_iterator = Ok ks /\ NoDup (id <$> ks) /\
    forall k, k ∈ id <$> ks <-> is_Some ((apply_all (apply_map id) cs ∅).1 !! k).
Proof.
  intros cs. split; [vm_compute; reflexivity|].
  apply (hashmapq_refines_map (-1) (fun k => k mod 8) Z.sub id 1 cs).
  - split; unfold id; intros; [lia|congruence].
  - intros k. pose proof (Z.mod_pos_bound k 8). lia.
  - lia.
  - reflexivity.
  - vm_compute. discriminate.
Defined.

(** removals break the map.  An entry put into a deleted slot is not counted, so
    that the map then takes itself for empty and does not find it, and clearing a
    map in this state fails the assertion on the count; a key whose probe path has a
    deleted slot is stored a second time, and the old value shows again after the
    key is removed.  A table of one slot fills up, and looking for another key still
    runs after every slot was probed; a hash value of 2^31 or more makes [hashmapq_put] write in front of the
    array. *)
Theorem hashmapq_flaws :
  let start cs n := h ← hashmapq_new (fun k => k mod 16) Z.sub n; '(_, rs) ← exec_all (exec (-1)) cs h; Ok rs in
  start [Put 5 50; Remove 5; Put 21 60; Count; Get 21] 8 = Ok [0; 50; 0; 0; 0] /\
  start [Put 5 50; Put 6 60; Remove 5; Put 21 70; Clear] 8 = Exit 134 /\
  start [Put 4 1; Put 5 50; Put 21 60; Remove 5; Put 21 61; Remove 21; Get 21] 8 = Ok [0; 0; 0; 50; 0; 61; 60] /\
  start [Put 5 50; Get 6] 1 = OutOfFuel /\
  (h ← hashmapq_new (fun _ => 2 ^ 31 + 1) Z.sub 8; hashmapq_put (-1) 2 h 5 50) = Undef.
Proof. vm_compute. repeat split; reflexivity. Qed.
End QHashmap.
