(* ===== verification/RaftLog.v ===== *)
(** * The Raft log (src/PUTs/02CRaft-master/raft_log.c)

    A log is an array of entries with cursors.  A pointer to an entry is its index
    in the array; the array itself is [None] once its block has been freed.
    [__ensurecapacity] frees the block it has just filled, so a log holds at most
    its initial capacity of entries: up to there it is a list with the operations
    append, truncate, lookup by a 1-based index and last element, and the append
    after that writes to a freed block. *)

From S2P Require Import Prelude History.

Module RaftLog.

(** [data] is [None] for the null pointer. *)
Record raft_entry_t := mk_entry {
  e_term : Z;
  e_id : Z;
  e_data : option (list Z);
  e_len : Z;
  e_num_nodes : Z
}.

Record log_private_t := mk_log {
  size : Z;
  count : Z;
  front : Z;
  back : Z;
  base_log_idx : Z;
  entries : option (list raft_entry_t)
}.

Definition INITIAL_CAPACITY : Z := 10.

(** The bytes [calloc] clears. *)
Definition zero_entry : raft_entry_t := mk_entry 0 0 None 0 0.

Definition log_new : log_private_t :=
  mk_log INITIAL_CAPACITY 0 0 0 0 (Some (replicate (Z.to_nat INITIAL_CAPACITY) zero_entry)).

(** The access to the block the pointer [entries] names. *)
Definition deref (es : option (list raft_entry_t)) : res (list raft_entry_t) :=
  match es with Some l => Ok l | None => Undef end.

(** The copy of [n] entries, from index [j] on around the end, to index [i] on. *)
Fixpoint copy_loop (n : nat) (i j sz : Z) (src temp : list raft_entry_t) : res (list raft_entry_t) :=
  match n with
  | O => Ok temp
  | S n =>
      let j := if j =? sz then 0 else j in
      e ← load src j;
      temp ← store temp i e;
      copy_loop n (i + 1) (j + 1) sz src temp
  end.

(** [entries] is set to [temp] before it is freed. *)
Definition ensurecapacity (me : log_private_t) : res log_private_t :=
  if count me <? size me then Ok me
  else
    size2 ← chk (size me * 2);
    src ← deref (entries me);
    temp ← copy_loop (Z.to_nat (count me)) 0 (front me) (size me) src
             (replicate (Z.to_nat size2) zero_entry);
    Ok (mk_log size2 (count me) 0 (count me) (base_log_idx me) None).

Definition log_append_entry (me : log_private_t) (c : raft_entry_t) : res (log_private_t * Z) :=
  if e_id c =? 0 then Ok (me, 0)
  else
    me ← ensurecapacity me;
    es ← deref (entries me);
    es ← store es (back me) (mk_entry (e_term c) (e_id c) (e_data c) (e_len c) 0);
    count' ← chk (count me + 1);
    back' ← chk (back me + 1);
    Ok (mk_log (size me) count' (front me) back' (base_log_idx me) (Some es), 1).

(** The pointer, as an index into [entries], or the null pointer. *)
Definition log_get_from_idx (me : log_private_t) (idx : Z) : res (option Z) :=
  last ← chk (base_log_idx me + count me);
  if (last <? idx) || (idx <? base_log_idx me) then Ok None
  else
    idx ← chk (idx - 1);
    s ← chk (front me + idx);
    d ← chk (s - base_log_idx me);
    if size me =? 0 then Undef else Ok (Some (Z.rem d (size me))).

(** The entry behind such a pointer. *)
Definition entry_at (me : log_private_t) (p : Z) : res raft_entry_t :=
  es ← deref (entries me); load es p.

Definition log_count (me : log_private_t) : Z := count me.

Fixpoint delete_loop (n : nat) (back count : Z) : res (Z * Z) :=
  match n with
  | O => Ok (back, count)
  | S n => back ← chk (back - 1); count ← chk (count - 1); delete_loop n back count
  end.

(** One round of the loop for each index from [idx] to the count the loop starts with. *)
Definition log_delete (me : log_private_t) (idx : Z) : res log_private_t :=
  idx ← chk (idx - 1);
  idx ← chk (idx - base_log_idx me);
  '(b, c) ← delete_loop (Z.to_nat (log_count me - idx)) (back me) (count me);
  Ok (mk_log (size me) c (front me) b (base_log_idx me) (entries me)).

Definition log_poll (me : log_private_t) : res (log_private_t * option Z) :=
  if log_count me =? 0 then Ok (me, None)
  else
    f ← chk (front me + 1);
    c ← chk (count me - 1);
    b ← chk (base_log_idx me + 1);
    Ok (mk_log (size me) c f (back me) b (entries me), Some (front me)).

Definition log_peektail (me : log_private_t) : option Z :=
  if log_count me =? 0 then None
  else if back me =? 0 then Some (size me - 1)
  else Some (back me - 1).

Definition log_empty (me : log_private_t) : log_private_t :=
  mk_log (size me) 0 0 0 (base_log_idx me) (entries me).

(** [num_nodes] is unsigned. *)
Definition log_mark_node_has_committed (me : log_private_t) (idx : Z) : res log_private_t :=
  p ← log_get_from_idx me idx;
  match p with
  | None => Ok me
  | Some p =>
      e ← entry_at me p;
      es ← deref (entries me);
      es ← store es p (mk_entry (e_term e) (e_id e) (e_data e) (e_len e) (wrap_u32 (e_num_nodes e + 1)));
      Ok (mk_log (size me) (count me) (front me) (back me) (base_log_idx me) (Some es))
  end.

(** ** The list a log stands for

    The server only appends, truncates, looks up and marks; its logs start at the
    first slot and are never compacted. *)

Record wf (me : log_private_t) (l : list raft_entry_t) : Prop := {
  wf_size : size me = INITIAL_CAPACITY;
  wf_front : front me = 0;
  wf_base : base_log_idx me = 0;
  wf_count : count me = Z.of_nat (List.length l);
  wf_back : back me = count me;
  wf_block : exists rest, entries me = Some (l ++ rest) /\
    Z.of_nat (List.length (l ++ rest)) = INITIAL_CAPACITY
}.

(** An entry as the log keeps it. *)
Definition stored (c : raft_entry_t) : raft_entry_t :=
  mk_entry (e_term c) (e_id c) (e_data c) (e_len c) 0.

Definition marked (e : raft_entry_t) : raft_entry_t :=
  mk_entry (e_term e) (e_id e) (e_data e) (e_len e) (wrap_u32 (e_num_nodes e + 1)).

Ltac small := unfold in_int, int_min, int_max, INITIAL_CAPACITY in *.

(** Discharges the overflow checks of small numbers. *)
Ltac chks := repeat (match goal with |- context [chk ?z] => rewrite (chk_ok z) by (small; lia) end;
  cbn [mbind res_bind]).

Lemma wf_room me l : wf me l -> Z.of_nat (List.length l) <= 10.
Proof. intros []. destruct wf_block0 as (rest & _ & E). rewrite length_app in E. small. lia. Qed.

Lemma log_new_wf : wf log_new [].
Proof. split; try done. exists (replicate 10 zero_entry). done. Qed.

Lemma append_zero_id me c : e_id c = 0 -> log_append_entry me c = Ok (me, 0).
Proof. intros E. unfold log_append_entry. by rewrite E. Qed.

(** Up to the capacity an entry goes behind the others, its counter cleared. *)
Lemma append_wf me l c :
  wf me l -> e_id c <> 0 -> Z.of_nat (List.length l) < 10 ->
  exists me', log_append_entry me c = Ok (me', 1) /\ wf me' (l ++ [stored c]).
Proof.
  intros [Hs Hf Hb Hc Hbk (rest & He & Hl)] Hid Hroom. unfold log_append_entry, ensurecapacity.
  destruct (Z.eqb_spec (e_id c) 0); [done|].
  destruct (Z.ltb_spec (count me) (size me)); [|small; lia]. cbn [mbind res_bind]. rewrite He. simpl.
  rewrite store_ok by (small; lia). cbn [mbind res_bind].
  chks. eexists. split; [done|].
  rewrite length_app in Hl. destruct rest as [|r rest]; [small; simpl in Hl; lia|].
  split; simpl; try done; rewrite ?length_app; simpl; [lia|lia|].
  exists rest. rewrite Hbk, Hc, Nat2Z.id. fold (stored c). split.
  - f_equal. rewrite insert_app_r_alt by lia. rewrite Nat.sub_diag. simpl. by rewrite <- app_assoc.
  - rewrite !length_app. simpl in *. lia.
Qed.

(** A lookup finds the entry at a 1-based index inside the list, and nothing beyond. *)
Lemma get_wf me l i :
  wf me l -> 1 <= i -> in_int i ->
  match l !! Z.to_nat (i - 1) with
  | Some e => log_get_from_idx me i = Ok (Some (i - 1)) /\ entry_at me (i - 1) = Ok e
  | None => log_get_from_idx me i = Ok None
  end.
Proof.
  intros Hwf Hi Hint. pose proof (wf_room _ _ Hwf). destruct Hwf as [Hs Hf Hb Hc Hbk (rest & He & Hl)].
  unfold log_get_from_idx. rewrite Hb, Hc, Hf, Hs. chks.
  destruct (l !! Z.to_nat (i - 1)) as [e|] eqn:El.
  - apply lookup_lt_Some in El as Hlt.
    rewrite (proj2 (Z.ltb_ge _ _)) by lia. rewrite (proj2 (Z.ltb_ge _ _)) by lia. simpl.
    chks. split.
    + repeat f_equal. rewrite Z.rem_small; small; lia.
    + unfold entry_at. rewrite He. simpl. apply load_ok; [lia|]. by rewrite lookup_app_l.
  - apply lookup_ge_None in El. rewrite (proj2 (Z.ltb_lt _ _)) by lia. done.
Qed.

Lemma delete_loop_ok n b c :
  in_int (b - Z.of_nat n) -> in_int b -> in_int (c - Z.of_nat n) -> in_int c ->
  delete_loop n b c = Ok (b - Z.of_nat n, c - Z.of_nat n).
Proof.
  revert b c. induction n as [|n IH]; intros b c H1 H2 H3 H4; simpl; [by rewrite !Z.sub_0_r|].
  chks.
  rewrite IH by (small; lia). do 2 f_equal; lia.
Qed.

(** Truncation before an index inside the list. *)
Lemma delete_wf me l i :
  wf me l -> 1 <= i <= Z.of_nat (List.length l) ->
  exists me', log_delete me i = Ok me' /\ wf me' (take (Z.to_nat (i - 1)) l).
Proof.
  intros Hwf Hi. pose proof (wf_room _ _ Hwf). destruct Hwf as [Hs Hf Hb Hc Hbk (rest & He & Hl)].
  unfold log_delete, log_count. rewrite Hb, Hbk, Hc. chks.
  chks.
  rewrite delete_loop_ok by (small; lia). cbn [mbind res_bind]. eexists. split; [done|].
  split; simpl; try done; rewrite ?length_take; try lia.
  exists (drop (Z.to_nat (i - 1)) l ++ rest). by rewrite app_assoc, take_drop.
Qed.

Lemma peektail_wf me l :
  wf me l ->
  match last l with
  | None => log_peektail me = None
  | Some e => exists p, log_peektail me = Some p /\ entry_at me p = Ok e
  end.
Proof.
  intros [Hs Hf Hb Hc Hbk (rest & He & Hl)]. unfold log_peektail, log_count. rewrite Hbk, Hc.
  rewrite last_lookup. destruct l as [|x l]; [done|]. rewrite <- last_lookup.
  destruct (last (x :: l)) as [e|] eqn:El; [|by apply last_None in El].
  destruct (Z.eqb_spec (Z.of_nat (List.length (x :: l))) 0) as [E|_]; [simpl in E; lia|].
  eexists. split; [done|]. unfold entry_at. rewrite He. simpl deref. cbn [mbind res_bind].
  rewrite last_lookup in El. apply load_ok; [simpl; lia|].
  transitivity ((x :: l) !! Z.to_nat (Z.of_nat (List.length (x :: l)) - 1)); [|rewrite <- El; f_equal; simpl; lia].
  change (x :: l ++ rest) with ((x :: l) ++ rest). apply lookup_app_l. simpl. lia.
Qed.

(** Marking counts one more node for the entry, and ignores an index behind the log. *)
Lemma mark_wf me l i :
  wf me l -> 1 <= i -> in_int i ->
  exists me', log_mark_node_has_committed me i = Ok me' /\ wf me' (alter marked (Z.to_nat (i - 1)) l).
Proof.
  intros Hwf Hi Hint. pose proof (get_wf me l i Hwf Hi Hint) as Hg. unfold log_mark_node_has_committed.
  destruct (l !! Z.to_nat (i - 1)) as [e|] eqn:El.
  - destruct Hg as [-> Hat]. cbn [mbind res_bind]. rewrite Hat. cbn [mbind res_bind].
    apply lookup_lt_Some in El as Hlt.
    destruct Hwf as [Hs Hf Hb Hc Hbk (rest & He & Hl)]. rewrite He. simpl deref. cbn [mbind res_bind].
    rewrite store_ok by (rewrite length_app; lia). cbn [mbind res_bind]. eexists. split; [done|].
    assert (alter marked (Z.to_nat (i - 1)) l = <[Z.to_nat (i - 1) := marked e]> l) as ->.
    { apply list_eq. intros k. destruct (decide (k = Z.to_nat (i - 1))) as [->|Hne].
      - rewrite list_lookup_alter_eq, El, list_lookup_insert_eq by done. done.
      - by rewrite list_lookup_alter_ne, list_lookup_insert_ne. }
    split; simpl; rewrite ?length_insert; try done.
    exists rest. fold (marked e). rewrite insert_app_l by done. split; [done|].
    by rewrite length_app, length_insert, <- length_app.
  - rewrite Hg. cbn [mbind res_bind]. exists me. split; [done|].
    replace (alter marked (Z.to_nat (i - 1)) l) with l; [done|].
    apply list_eq. intros k. destruct (decide (k = Z.to_nat (i - 1))) as [->|Hne].
    + by rewrite list_lookup_alter_eq, El.
    + by rewrite list_lookup_alter_ne.
Qed.
(** ** Histories *)

Inductive command : Type :=
  | Append (c : raft_entry_t)
  | Get (idx : Z)
  | Delete (idx : Z)
  | Peektail
  | Mark (idx : Z)
  | Count.

(** What a call gives its client: a number, or the entry behind the pointer. *)
Inductive answer : Type :=
  | Number (n : Z)
  | Entry (e : option raft_entry_t).

Definition answer_entry (me : log_private_t) (p : option Z) : res answer :=
  match p with
  | None => Ok (Entry None)
  | Some p => e ← entry_at me p; Ok (Entry (Some e))
  end.

Definition exec (c : command) (me : log_private_t) : res (log_private_t * answer) :=
  match c with
  | Append c => '(me, r) ← log_append_entry me c; Ok (me, Number r)
  | Get idx => p ← log_get_from_idx me idx; a ← answer_entry me p; Ok (me, a)
  | Delete idx => me ← log_delete me idx; Ok (me, Number 0)
  | Peektail => a ← answer_entry me (log_peektail me); Ok (me, a)
  | Mark idx => me ← log_mark_node_has_committed me idx; Ok (me, Number 0)
  | Count => Ok (me, Number (log_count me))
  end.

(** The same calls on a list of entries, counted from 1. *)
Definition apply (c : command) (l : list raft_entry_t) : list raft_entry_t * answer :=
  match c with
  | Append c => if e_id c =? 0 then (l, Number 0) else (l ++ [stored c], Number 1)
  | Get idx => (l, Entry (l !! Z.to_nat (idx - 1)))
  | Delete idx => (take (Z.to_nat (idx - 1)) l, Number 0)
  | Peektail => (l, Entry (last l))
  | Mark idx => (alter marked (Z.to_nat (idx - 1)) l, Number 0)
  | Count => (l, Number (Z.of_nat (List.length l)))
  end.

Definition valid (c : command) : bool :=
  match c with
  | Get idx | Mark idx | Delete idx => (1 <=? idx) && (idx <=? int_max)
  | _ => true
  end.

(** A budget of [n] more calls fits in the array. *)
Definition related (n : nat) (me : log_private_t) (l : list raft_entry_t) : Prop :=
  wf me l /\ (List.length l + n <= 10)%nat.

Lemma delete_behind me l i :
  wf me l -> Z.of_nat (List.length l) < i -> in_int i -> log_delete me i = Ok me.
Proof.
  intros Hwf Hi Hint. pose proof (wf_room _ _ Hwf). destruct Hwf as [Hs Hf Hb Hc Hbk _].
  unfold log_delete, log_count. rewrite Hb, Hc. chks.
  replace (Z.to_nat _) with 0%nat by lia. simpl. by destruct me; simpl in *; subst.
Qed.

#[export] Instance log_implements : Implements exec (fun_step apply) valid related.
Proof.
  intros n c me l [Hwf Hn] Hv. unfold fun_step. destruct c as [c|i|i| |i|]; simpl in *.
  - destruct (Z.eqb_spec (e_id c) 0) as [E|E].
    + rewrite append_zero_id by done. do 3 eexists. split_and!; [done|done|split; [done|lia]].
    + destruct (append_wf me l c Hwf E) as (me' & -> & Hwf'); [lia|]. do 3 eexists.
      split_and!; [done|done|split; [done|rewrite length_app; simpl; lia]].
  - apply andb_true_iff in Hv as [Hi%Z.leb_le Hm%Z.leb_le].
    pose proof (get_wf me l i Hwf Hi ltac:(small; lia)) as Hg. exists me, (Entry (l !! Z.to_nat (i - 1))), l.
    split; [|split; [done|split; [done|lia]]].
    destruct (l !! Z.to_nat (i - 1)); [destruct Hg as [-> Hg]|rewrite Hg]; simpl; [|done]. by rewrite Hg.
  - apply andb_true_iff in Hv as [Hi%Z.leb_le Hm%Z.leb_le].
    destruct (decide (i <= Z.of_nat (List.length l))) as [Hin|Hin].
    + destruct (delete_wf me l i Hwf) as (me' & -> & Hwf'); [lia|]. do 3 eexists.
      split_and!; [done|done|split; [done|rewrite length_take; lia]].
    + rewrite (delete_behind me l i Hwf) by (small; lia). do 3 eexists.
      split_and!; [done|done|]. rewrite take_ge by lia. split; [done|lia].
  - exists me, (Entry (last l)), l. pose proof (peektail_wf me l Hwf) as Hp.
    split; [|split; [done|split; [done|lia]]].
    destruct (last l); [destruct Hp as (p & -> & Hp)|rewrite Hp]; simpl; [|done]. by rewrite Hp.
  - apply andb_true_iff in Hv as [Hi%Z.leb_le Hm%Z.leb_le].
    destruct (mark_wf me l i Hwf Hi) as (me' & -> & Hwf'); [small; lia|]. do 3 eexists.
    split_and!; [done|done|split; [done|rewrite length_alter; lia]].
  - exists me, (Number (Z.of_nat (List.length l))), l. unfold log_count. rewrite (wf_count _ _ Hwf).
    split_and!; [done|done|split; [done|lia]].
Qed.

(** In any history of at most ten calls, the log answers what a list of entries
    answers: an entry with id 0 is refused, any other is appended with a cleared
    counter, a lookup and a mark go to the entry at the 1-based index, a deletion
    cuts the list before its index. *)
Theorem raft_log_refines_list (cs : list command) :
  (List.length cs <= 10)%nat -> forallb valid cs = true ->
  exists me, exec_all exec cs log_new = Ok (me, (apply_all apply cs []).2) /\
    wf me (apply_all apply cs []).1.
Proof.
  intros Hn Hv. destruct (history_applies exec apply valid related cs 0 log_new []) as (me & E & Hrel & _).
  - split; [apply log_new_wf|simpl; lia].
  - done.
  - eauto.
Qed.

Lemma raft_log_refines_list_witness :
  let e i := mk_entry 1 i None 0 7 in
  exists me, exec_all exec [Append (e 4); Append (e 0); Append (e 5); Mark 2; Get 2; Delete 2; Peektail; Count] log_new =
    Ok (me, [Number 1; Number 0; Number 1; Number 0; Entry (Some (mk_entry 1 5 None 0 1)); Number 0;
             Entry (Some (mk_entry 1 4 None 0 0)); Number 1]).
Proof.
  intros e.
  destruct (raft_log_refines_list [Append (e 4); Append (e 0); Append (e 5); Mark 2; Get 2; Delete 2; Peektail; Count])
    as (me & E & _); [simpl; lia|reflexivity|]. exists me. exact E.
Defined.

(** The copy into the bigger array succeeds. *)
Lemma copy_loop_ok n i j sz src temp :
  0 <= i -> 0 <= j -> i + Z.of_nat n <= Z.of_nat (List.length temp) ->
  j + Z.of_nat n <= sz -> sz <= Z.of_nat (List.length src) ->
  exists t, copy_loop n i j sz src temp = Ok t.
Proof.
  revert i j temp. induction n as [|n IH]; intros i j temp Hi Hj Ht Hs Hl; simpl; [eauto|].
  destruct (Z.eqb_spec j sz); [lia|].
  destruct (load_in_range src j) as (e & -> & _); [lia|]. cbn [mbind res_bind].
  rewrite store_ok by lia. cbn [mbind res_bind]. apply IH; rewrite ?length_insert; lia.
Qed.

(** A full log cannot grow: [__ensurecapacity] copies the entries to a bigger
    block and frees that block, so the append that follows writes to freed
    memory. *)
Theorem raft_log_growth_undefined (me : log_private_t) (l : list raft_entry_t) (c : raft_entry_t) :
  wf me l -> List.length l = 10%nat -> e_id c <> 0 ->
  (exists me', ensurecapacity me = Ok me' /\ entries me' = None /\ size me' = 20) /\
  log_append_entry me c = Undef.
Proof.
  intros [Hs Hf Hb Hc Hbk (rest & He & Hl)] Hfull Hid.
  assert (exists me', ensurecapacity me = Ok me' /\ entries me' = None /\ size me' = 20) as Hcap.
  { unfold ensurecapacity. rewrite (proj2 (Z.ltb_ge _ _)) by (small; lia). rewrite Hs. chks. change (INITIAL_CAPACITY * 2) with 20.
    rewrite He. simpl deref. cbn [mbind res_bind]. rewrite Hc, Hf, Hfull.
    destruct (copy_loop_ok 10 0 0 INITIAL_CAPACITY (l ++ rest) (replicate (Z.to_nat 20) zero_entry)) as [t Et];
      rewrite ?length_replicate; try (small; lia).
    change (Z.to_nat (Z.of_nat 10)) with 10%nat. rewrite Et. cbn [mbind res_bind]. eauto. }
  split; [done|]. destruct Hcap as (me' & E & En & _). unfold log_append_entry.
  rewrite (proj2 (Z.eqb_neq _ _)) by done. rewrite E. cbn [mbind res_bind]. by rewrite En.
Qed.

Lemma raft_log_growth_undefined_witness :
  let c := mk_entry 1 1 None 0 0 in
  let full := mk_log 10 10 0 10 0 (Some (replicate 10 c)) in
  log_append_entry full c = Undef.
Proof.
  intros c full. apply (raft_log_growth_undefined full (replicate 10 c) c); [|reflexivity|discriminate].
  split; try done. exists []. done.
Defined.
End RaftLog.
