(* ===== verification/Raft.v ===== *)
(** * The Raft server (src/PUTs/02CRaft-master: raft_server.c,
    raft_server_properties.c, raft_node.c, include/raft.h, include/raft_private.h)

    A handler runs in a monad over the server: it may fail, and the calls it makes
    to the [send] and [applylog] callbacks are the events it emits.  The callbacks
    themselves belong to the user of the library; they do not call back into the
    server, and their results are ignored by the code.  [rand] is an argument.
    A field of a message the sender does not write is [None]; reading it is
    undefined.  [__log] only formats text and changes nothing. *)

From S2P Require Import Prelude RaftLog.

Module Raft.
Import RaftLog.

(** ** Messages *)

Record msg_requestvote_t := mk_rv {
  rv_term : Z;
  rv_candidate_id : option Z;
  rv_last_log_idx : Z;
  rv_last_log_term : option Z
}.

Record msg_entry_t := mk_msg_entry {
  m_id : Z;
  m_data : option (list Z);
  m_len : Z
}.

Record msg_entry_response_t := mk_er {
  er_id : Z;
  er_was_committed : Z
}.

Record msg_requestvote_response_t := mk_rvr {
  rvr_term : Z;
  rvr_vote_granted : Z
}.

Record msg_appendentries_t := mk_ae {
  ae_term : Z;
  ae_leader_id : Z;
  ae_prev_log_idx : Z;
  ae_prev_log_term : Z;
  ae_n_entries : Z;
  ae_entries : option (list msg_entry_t);
  ae_leader_commit : option Z
}.

Record msg_appendentries_response_t := mk_aer {
  aer_term : Z;
  aer_success : Z;
  aer_current_idx : option Z;
  aer_first_idx : option Z
}.

Inductive message : Type :=
  | RAFT_MSG_REQUESTVOTE (m : msg_requestvote_t)
  | RAFT_MSG_REQUESTVOTE_RESPONSE (m : msg_requestvote_response_t)
  | RAFT_MSG_APPENDENTRIES (m : msg_appendentries_t)
  | RAFT_MSG_APPENDENTRIES_RESPONSE (m : msg_appendentries_response_t)
  | RAFT_MSG_ENTRY_RESPONSE (m : msg_entry_response_t).

(** A call of a callback: [send] to a node, or [applylog] of an entry. *)
Inductive event : Type :=
  | Send (node : Z) (m : message)
  | Applylog (data : option (list Z)) (len : Z).

(** ** The server *)

Inductive raft_state : Type :=
  | RAFT_STATE_NONE
  | RAFT_STATE_FOLLOWER
  | RAFT_STATE_CANDIDATE
  | RAFT_STATE_LEADER.

#[global] Instance raft_state_eq_dec : EqDecision raft_state.
Proof. solve_decision. Defined.

Record raft_node_private_t := mk_node {
  udata : Z;
  next_idx : Z
}.

(** The callbacks are present or not. *)
Record raft_cbs_t := mk_cbs {
  cb_send : bool;
  cb_applylog : bool
}.

Record raft_server_private_t := mk_server {
  current_term : Z;
  voted_for : Z;
  log : log_private_t;
  commit_idx : Z;
  last_applied_idx : Z;
  state : raft_state;
  current_idx : Z;
  timeout_elapsed : Z;
  votes_for_me : list Z;
  nodes : list raft_node_private_t;
  num_nodes : Z;
  election_timeout : Z;
  request_timeout : Z;
  cb : raft_cbs_t;
  nodeid : Z
}.

(** ** State, errors and events *)

Definition M (A : Type) : Type :=
  raft_server_private_t -> res (raft_server_private_t * list event * A).

#[global] Instance M_ret : MRet M := fun A a me => Ok (me, [], a).
#[global] Instance M_bind : MBind M := fun A B f m me =>
  '(me, evs, a) ← m me; '(me, evs', b) ← f a me; Ok (me, evs ++ evs', b).

Definition get {A} (f : raft_server_private_t -> A) : M A := fun me => Ok (me, [], f me).
Definition modify (f : raft_server_private_t -> raft_server_private_t) : M unit := fun me => Ok (f me, [], tt).
Definition emit (e : event) : M unit := fun me => Ok (me, [e], tt).
Definition lift {A} (r : res A) : M A := fun me => a ← r; Ok (me, [], a).

Definition exit {A} (code : Z) : M A := fun _ => Exit code.

Definition when (b : bool) (m : M unit) : M unit := if b then m else mret tt.

(** [for (i = from; i < from + n; i++) body(i)] *)
Fixpoint for_loop (n : nat) (i : Z) (body : Z -> M unit) : M unit :=
  match n with
  | O => mret tt
  | S n => body i ;; for_loop n (i + 1) body
  end.

(** ** Fields (raft_server_properties.c) *)

Definition raft_set_current_term (term : Z) (me : raft_server_private_t) : raft_server_private_t :=
  mk_server term (voted_for me) (log me) (commit_idx me) (last_applied_idx me) (state me) (current_idx me)
    (timeout_elapsed me) (votes_for_me me) (nodes me) (num_nodes me) (election_timeout me) (request_timeout me)
    (cb me) (nodeid me).

Definition raft_vote (node : Z) (me : raft_server_private_t) : raft_server_private_t :=
  mk_server (current_term me) node (log me) (commit_idx me) (last_applied_idx me) (state me) (current_idx me)
    (timeout_elapsed me) (votes_for_me me) (nodes me) (num_nodes me) (election_timeout me) (request_timeout me)
    (cb me) (nodeid me).

Definition set_log (l : log_private_t) (me : raft_server_private_t) : raft_server_private_t :=
  mk_server (current_term me) (voted_for me) l (commit_idx me) (last_applied_idx me) (state me) (current_idx me)
    (timeout_elapsed me) (votes_for_me me) (nodes me) (num_nodes me) (election_timeout me) (request_timeout me)
    (cb me) (nodeid me).

Definition raft_set_commit_idx (idx : Z) (me : raft_server_private_t) : raft_server_private_t :=
  mk_server (current_term me) (voted_for me) (log me) idx (last_applied_idx me) (state me) (current_idx me)
    (timeout_elapsed me) (votes_for_me me) (nodes me) (num_nodes me) (election_timeout me) (request_timeout me)
    (cb me) (nodeid me).

Definition raft_set_last_applied_idx (idx : Z) (me : raft_server_private_t) : raft_server_private_t :=
  mk_server (current_term me) (voted_for me) (log me) (commit_idx me) idx (state me) (current_idx me)
    (timeout_elapsed me) (votes_for_me me) (nodes me) (num_nodes me) (election_timeout me) (request_timeout me)
    (cb me) (nodeid me).

Definition raft_set_state (s : raft_state) (me : raft_server_private_t) : raft_server_private_t :=
  mk_server (current_term me) (voted_for me) (log me) (commit_idx me) (last_applied_idx me) s (current_idx me)
    (timeout_elapsed me) (votes_for_me me) (nodes me) (num_nodes me) (election_timeout me) (request_timeout me)
    (cb me) (nodeid me).

Definition raft_set_current_idx (idx : Z) (me : raft_server_private_t) : raft_server_private_t :=
  mk_server (current_term me) (voted_for me) (log me) (commit_idx me) (last_applied_idx me) (state me) idx
    (timeout_elapsed me) (votes_for_me me) (nodes me) (num_nodes me) (election_timeout me) (request_timeout me)
    (cb me) (nodeid me).

Definition set_timeout_elapsed (t : Z) (me : raft_server_private_t) : raft_server_private_t :=
  mk_server (current_term me) (voted_for me) (log me) (commit_idx me) (last_applied_idx me) (state me) (current_idx me)
    t (votes_for_me me) (nodes me) (num_nodes me) (election_timeout me) (request_timeout me)
    (cb me) (nodeid me).

Definition set_votes (v : list Z) (me : raft_server_private_t) : raft_server_private_t :=
  mk_server (current_term me) (voted_for me) (log me) (commit_idx me) (last_applied_idx me) (state me) (current_idx me)
    (timeout_elapsed me) v (nodes me) (num_nodes me) (election_timeout me) (request_timeout me)
    (cb me) (nodeid me).

Definition set_nodes (ns : list raft_node_private_t) (me : raft_server_private_t) : raft_server_private_t :=
  mk_server (current_term me) (voted_for me) (log me) (commit_idx me) (last_applied_idx me) (state me) (current_idx me)
    (timeout_elapsed me) (votes_for_me me) ns (num_nodes me) (election_timeout me) (request_timeout me)
    (cb me) (nodeid me).

Definition set_num_nodes (n : Z) (me : raft_server_private_t) : raft_server_private_t :=
  mk_server (current_term me) (voted_for me) (log me) (commit_idx me) (last_applied_idx me) (state me) (current_idx me)
    (timeout_elapsed me) (votes_for_me me) (nodes me) n (election_timeout me) (request_timeout me)
    (cb me) (nodeid me).

Definition raft_set_election_timeout (t : Z) (me : raft_server_private_t) : raft_server_private_t :=
  mk_server (current_term me) (voted_for me) (log me) (commit_idx me) (last_applied_idx me) (state me) (current_idx me)
    (timeout_elapsed me) (votes_for_me me) (nodes me) (num_nodes me) t (request_timeout me)
    (cb me) (nodeid me).

Definition raft_set_request_timeout (t : Z) (me : raft_server_private_t) : raft_server_private_t :=
  mk_server (current_term me) (voted_for me) (log me) (commit_idx me) (last_applied_idx me) (state me) (current_idx me)
    (timeout_elapsed me) (votes_for_me me) (nodes me) (num_nodes me) (election_timeout me) t
    (cb me) (nodeid me).

Definition raft_set_callbacks (funcs : raft_cbs_t) (me : raft_server_private_t) : raft_server_private_t :=
  mk_server (current_term me) (voted_for me) (log me) (commit_idx me) (last_applied_idx me) (state me) (current_idx me)
    (timeout_elapsed me) (votes_for_me me) (nodes me) (num_nodes me) (election_timeout me) (request_timeout me)
    funcs (nodeid me).

Definition set_nodeid (i : Z) (me : raft_server_private_t) : raft_server_private_t :=
  mk_server (current_term me) (voted_for me) (log me) (commit_idx me) (last_applied_idx me) (state me) (current_idx me)
    (timeout_elapsed me) (votes_for_me me) (nodes me) (num_nodes me) (election_timeout me) (request_timeout me)
    (cb me) i.

Definition raft_get_log_count (me : raft_server_private_t) : Z := log_count (log me).

Definition raft_is_follower (me : raft_server_private_t) : bool := bool_decide (state me = RAFT_STATE_FOLLOWER).
Definition raft_is_leader (me : raft_server_private_t) : bool := bool_decide (state me = RAFT_STATE_LEADER).
Definition raft_is_candidate (me : raft_server_private_t) : bool := bool_decide (state me = RAFT_STATE_CANDIDATE).

(** ** Set-up *)

Definition raft_new : raft_server_private_t :=
  mk_server 0 (-1) log_new 0 0 RAFT_STATE_FOLLOWER 1 0 [] [] 0 1000 200 (mk_cbs false false) 0.

Definition raft_node_new (u : Z) : raft_node_private_t := mk_node u 0.

(** The array of node pointers is resized to each count in turn and its last
    element written. *)
Fixpoint configure_loop (addrs : list Z) (n : Z) (me : raft_server_private_t) : raft_server_private_t * Z :=
  match addrs with
  | [] => (me, n)
  | a :: addrs =>
      configure_loop addrs (n + 1)
        (set_nodes (take (Z.to_nat n) (nodes me) ++ [raft_node_new a]) (set_num_nodes (n + 1) me))
  end.

(** [addrs] are the addresses before the null one that ends the array. *)
Definition raft_set_configuration (addrs : list Z) (my_idx : Z) (me : raft_server_private_t) :
    raft_server_private_t :=
  let '(me, n) := configure_loop addrs 0 me in
  set_nodeid my_idx (set_votes (replicate (Z.to_nat n) 0) me).

(** ** Nodes (raft_node.c) *)

(** A node is its index into [nodes]; [None] is the null pointer. *)
Definition raft_get_node (me : raft_server_private_t) (i : Z) : option Z :=
  if (i <? 0) || (num_nodes me <=? i) then None else Some i.

Definition raft_node_get_next_idx (p : option Z) : M Z := fun me =>
  match p with
  | None => Undef
  | Some i => n ← load (nodes me) i; Ok (me, [], next_idx n)
  end.

Definition raft_node_set_next_idx (p : option Z) (idx : Z) : M unit := fun me =>
  match p with
  | None => Undef
  | Some i =>
      n ← load (nodes me) i;
      ns ← store (nodes me) i (mk_node (udata n) idx);
      Ok (set_nodes ns me, [], tt)
  end.

(** ** Messages to other servers *)

Definition send (node : Z) (m : message) : M unit :=
  b ← get (fun me => cb_send (cb me)); when b (emit (Send node m)).

Definition raft_send_requestvote (node : Z) : M unit :=
  rv ← get (fun me => mk_rv (current_term me) None (current_idx me) None);
  send node (RAFT_MSG_REQUESTVOTE rv).

Definition raft_send_appendentries (node : Z) : M unit :=
  b ← get (fun me => cb_send (cb me));
  when b (
    p ← get (fun me => raft_get_node me node);
    prev_log_term ← raft_node_get_next_idx p;
    ae ← get (fun me => mk_ae (current_term me) (nodeid me) 0 prev_log_term 0 None None);
    send node (RAFT_MSG_APPENDENTRIES ae)).

(** The loops over the other nodes. *)
Definition for_others (body : Z -> M unit) : M unit :=
  n ← get num_nodes;
  for_loop (Z.to_nat n) 0 (fun i => my ← get nodeid; when (negb (my =? i)) (body i)).

Definition raft_send_appendentries_all : M unit := for_others raft_send_appendentries.

(** ** Roles *)

Definition raft_become_leader : M unit :=
  modify (raft_set_state RAFT_STATE_LEADER) ;;
  modify (raft_vote (-1)) ;;
  for_others (fun i =>
    p ← get (fun me => raft_get_node me i);
    next ← (ci ← get current_idx; lift (chk (ci + 1)));
    raft_node_set_next_idx p next ;;
    raft_send_appendentries i).

(** [memset(me->votes_for_me, 0, sizeof(int) * me->num_nodes)] *)
Definition clear_votes : M unit := fun me =>
  if num_nodes me <=? Z.of_nat (List.length (votes_for_me me)) then
    Ok (set_votes (replicate (Z.to_nat (num_nodes me)) 0 ++ drop (Z.to_nat (num_nodes me)) (votes_for_me me)) me, [], tt)
  else Undef.

(** [rnd] is the result of [rand]. *)
Definition raft_become_candidate (rnd : Z) : M unit :=
  clear_votes ;;
  term ← (t ← get current_term; lift (chk (t + 1)));
  modify (raft_set_current_term term) ;;
  my ← get nodeid;
  modify (raft_vote my) ;;
  modify (raft_set_state RAFT_STATE_CANDIDATE) ;;
  modify (set_timeout_elapsed (Z.rem rnd 500)) ;;
  for_others raft_send_requestvote.

Definition raft_become_follower : M unit :=
  modify (raft_set_state RAFT_STATE_FOLLOWER) ;;
  modify (raft_vote (-1)).

Definition raft_election_start (rnd : Z) : M unit := raft_become_candidate rnd.

(** ** The log *)

Definition raft_get_entry_from_idx (etyidx : Z) : M (option Z) :=
  l ← get log; lift (log_get_from_idx l etyidx).

Definition raft_append_entry (c : raft_entry_t) : M Z :=
  l ← get log;
  '(l, r) ← lift (log_append_entry l c);
  modify (set_log l) ;;
  if r =? 1 then
    ci ← (ci ← get current_idx; lift (chk (ci + 1)));
    modify (raft_set_current_idx ci) ;;
    mret 1
  else mret 0.

Definition raft_apply_entry : M Z :=
  idx ← (la ← get last_applied_idx; lift (chk (la + 1)));
  p ← raft_get_entry_from_idx idx;
  match p with
  | None => mret 0
  | Some p =>
      modify (raft_set_last_applied_idx idx) ;;
      ci ← get commit_idx;
      when (ci <? idx) (modify (raft_set_commit_idx idx)) ;;
      b ← get (fun me => cb_applylog (cb me));
      when b (
        e ← (l ← get log; lift (entry_at l p));
        emit (Applylog (e_data e) (wrap_int (e_len e)))) ;;
      mret 1
  end.

(** ** Time *)

Definition raft_periodic (msec rnd : Z) : M Z :=
  stop ← (
    st ← get state;
    if decide (st = RAFT_STATE_FOLLOWER) then
      la ← get last_applied_idx;
      ci ← get commit_idx;
      if la <? ci then
        r ← raft_apply_entry;
        mret (r =? 0)
      else mret false
    else mret false);
  if stop : bool then mret 0
  else
    t ← (t ← get timeout_elapsed; lift (chk (t + msec)));
    modify (set_timeout_elapsed t) ;;
    st ← get state;
    (if decide (st = RAFT_STATE_LEADER) then
       rt ← get request_timeout;
       when (rt <=? t) (raft_send_appendentries_all ;; modify (set_timeout_elapsed 0))
     else
       et ← get election_timeout;
       when (et <=? t) (raft_election_start rnd)) ;;
    mret 1.

(** ** Append entries *)

Definition read (f : option Z) : res Z := match f with Some z => Ok z | None => Undef end.

(** [for (i = first; i <= last; i++) log_mark_node_has_committed(me->log, i)]; [i++] may overflow. *)
Fixpoint mark_loop (n : nat) (i : Z) : M unit :=
  match n with
  | O => mret tt
  | S n =>
      l ← (l ← get log; lift (log_mark_node_has_committed l i));
      modify (set_log l) ;;
      i ← lift (chk (i + 1));
      mark_loop n i
  end.

(** The loop that applies the entries half of the nodes have. *)
Fixpoint commit_loop (fuel : nat) : M unit :=
  match fuel with
  | O => fun _ => OutOfFuel
  | S fuel =>
      idx ← (la ← get last_applied_idx; lift (chk (la + 1)));
      p ← (l ← get log; lift (log_get_from_idx l idx));
      match p with
      | None => mret tt
      | Some p =>
          e ← (l ← get log; lift (entry_at l p));
          n ← get num_nodes;
          if wrap_u32 (Z.quot n 2) <=? e_num_nodes e then
            r ← raft_apply_entry;
            if r =? 0 then mret tt else commit_loop fuel
          else mret tt
      end
  end.

(** Each round applies an entry of the log. *)
Definition apply_fuel (me : raft_server_private_t) : nat :=
  S (Z.to_nat (base_log_idx (log me) + count (log me) - last_applied_idx me)).

Definition abort_code : Z := 134.

Definition raft_recv_appendentries_response (node : Z) (r : msg_appendentries_response_t) : M Z :=
  p ← get (fun me => raft_get_node me node);
  (if aer_success r =? 1 then
     first ← lift (read (aer_first_idx r));
     last ← lift (read (aer_current_idx r));
     mark_loop (Z.to_nat (last + 1 - first)) first ;;
     fuel ← get apply_fuel;
     commit_loop fuel
   else
     ni ← raft_node_get_next_idx p;
     if ni <? 0 then exit abort_code
     else
       ni ← lift (chk (ni - 1));
       raft_node_set_next_idx p ni ;;
       raft_send_appendentries node) ;;
  mret 1.

(** [while (1 == raft_apply_entry(me_));] *)
Fixpoint apply_loop (fuel : nat) : M unit :=
  match fuel with
  | O => fun _ => OutOfFuel
  | S fuel => r ← raft_apply_entry; if r =? 1 then apply_loop fuel else mret tt
  end.

(** [c->data = malloc(cmd->len); memcpy(c->data, cmd->data, cmd->len)] *)
Definition copy_data (cmd : msg_entry_t) : res (list Z) :=
  match m_data cmd with
  | None => Undef
  | Some bytes => if m_len cmd <=? Z.of_nat (List.length bytes) then Ok (take (Z.to_nat (m_len cmd)) bytes) else Undef
  end.

(** The appends of the entries from [i] on; [false] where one was refused. *)
Fixpoint append_loop (n : nat) (i : Z) (es : option (list msg_entry_t)) : M bool :=
  match n with
  | O => mret true
  | S n =>
      cmd ← lift (match es with None => Undef | Some l => load l i end);
      data ← lift (copy_data cmd);
      term ← get current_term;
      r ← raft_append_entry (mk_entry (wrap_u32 term) (m_id cmd) (Some data) (m_len cmd) 0);
      if r =? 0 then mret false else append_loop n (i + 1) es
  end.

(** The checks of the message against the log; [true] where it is consistent. *)
Definition ae_consistent (ae : msg_appendentries_t) : M bool :=
  if ae_prev_log_idx ae =? 0 then mret true
  else
    p ← raft_get_entry_from_idx (ae_prev_log_idx ae);
    match p with
    | None => mret false
    | Some p =>
        e ← (l ← get log; lift (entry_at l p));
        if negb (e_term e =? wrap_u32 (ae_prev_log_term ae)) then mret false
        else
          next ← lift (chk (ae_prev_log_idx ae + 1));
          p2 ← raft_get_entry_from_idx next;
          match p2 with
          | None => mret true
          | Some _ =>
              l ← (l ← get log; lift (log_delete l next));
              modify (set_log l) ;;
              mret true
          end
    end.

(** The commit index: the smaller of two unsigned numbers, as an [int]. *)
Definition ae_commit (ae : msg_appendentries_t) : M unit :=
  lc ← lift (read (ae_leader_commit ae));
  ci ← get commit_idx;
  when (ci <? lc) (
    p ← get (fun me => log_peektail (log me));
    match p with
    | None => mret tt
    | Some p =>
        e ← (l ← get log; lift (entry_at l p));
        modify (raft_set_commit_idx (wrap_int (if e_id e <? wrap_u32 lc then e_id e else wrap_u32 lc))) ;;
        fuel ← get apply_fuel;
        apply_loop fuel
    end).

(** The reply, without its term: success and the two indices. *)
Definition ae_body (ae : msg_appendentries_t) : M (Z * option Z * option Z) :=
  lead ← get raft_is_leader;
  term ← get current_term;
  when (lead && (term <=? ae_term ae)) raft_become_follower ;;
  if ae_term ae <? term then mret (0, None, None)
  else
    ok ← ae_consistent ae;
    if negb ok then mret (0, None, None)
    else
      ae_commit ae ;;
      cand ← get raft_is_candidate;
      when cand raft_become_follower ;;
      modify (raft_set_current_term (ae_term ae)) ;;
      ok ← append_loop (Z.to_nat (ae_n_entries ae)) 0 (ae_entries ae);
      if negb ok then mret (0, None, None)
      else
        ci ← get current_idx;
        first ← lift (chk (ae_prev_log_idx ae + 1));
        mret (1, Some ci, Some first).

Definition raft_recv_appendentries (node : Z) (ae : msg_appendentries_t) : M Z :=
  modify (set_timeout_elapsed 0) ;;
  term ← get current_term;
  '(success, ci, first) ← ae_body ae;
  send node (RAFT_MSG_APPENDENTRIES_RESPONSE (mk_aer term success ci first)) ;;
  mret 1.

(** ** Votes *)

Definition raft_recv_requestvote (node : Z) (vr : msg_requestvote_t) : M Z :=
  term ← get current_term;
  when (term <? rv_term vr) (modify (raft_vote (-1))) ;;
  refuse ← get (fun me => (rv_term vr <? current_term me) || negb (voted_for me =? -1) ||
                          (rv_last_log_idx vr <? current_idx me));
  granted ← (if refuse : bool then mret 0 else modify (raft_vote node) ;; mret 1);
  send node (RAFT_MSG_REQUESTVOTE_RESPONSE (mk_rvr term granted)) ;;
  mret 0.

Definition raft_votes_is_majority (num_nodes nvotes : Z) : bool :=
  if num_nodes <? nvotes then false
  else
    let half := Z.quot num_nodes 2 in
    half + 1 <=? nvotes.

Fixpoint nvotes_loop (n : nat) (i votes my : Z) (v : list Z) : res Z :=
  match n with
  | O => Ok votes
  | S n =>
      votes ← (if my =? i then Ok votes
               else x ← load v i; Ok (if x =? 1 then votes + 1 else votes));
      nvotes_loop n (i + 1) votes my v
  end.

Definition raft_get_nvotes_for_me (me : raft_server_private_t) : res Z :=
  votes ← nvotes_loop (Z.to_nat (num_nodes me)) 0 0 (nodeid me) (votes_for_me me);
  Ok (if voted_for me =? nodeid me then votes + 1 else votes).

Definition raft_recv_requestvote_response (node : Z) (r : msg_requestvote_response_t) : M Z :=
  lead ← get raft_is_leader;
  if lead : bool then mret 0
  else
    n ← get num_nodes;
    if negb (node <? n) then exit abort_code
    else
      when (rvr_vote_granted r =? 1) (
        v ← (v ← get votes_for_me; lift (store v node 1));
        modify (set_votes v) ;;
        votes ← (fun me => v ← raft_get_nvotes_for_me me; Ok (me, [], v));
        when (raft_votes_is_majority n votes) raft_become_leader) ;;
      mret 0.

(** ** Client entries *)

Definition raft_send_entry_response (node etyid was_committed : Z) : M unit :=
  send node (RAFT_MSG_ENTRY_RESPONSE (mk_er etyid was_committed)).

Definition raft_recv_entry (node : Z) (e : msg_entry_t) : M Z :=
  term ← get current_term;
  r ← raft_append_entry (mk_entry (wrap_u32 term) (m_id e) (m_data e) (m_len e) 0);
  raft_send_entry_response node (m_id e) r ;;
  for_others raft_send_appendentries ;;
  mret 0.
End Raft.
