(* ===== verification/RaftFacts.v ===== *)
(** * What a Raft server does with one input

    [ensures] is total correctness of a handler: it returns, and its new state, its
    callbacks and its result are as described.  From the description of each
    handler follow the invariant of a server, the monotonicity of its term, and
    what an election takes. *)

From S2P Require Import Prelude RaftLog Raft.

Module RaftFacts.
Import RaftLog Raft.

(** ** Total correctness *)

Definition ensures {A} (m : M A) (me : raft_server_private_t)
    (Q : raft_server_private_t -> list event -> A -> Prop) : Prop :=
  exists me' evs a, m me = Ok (me', evs, a) /\ Q me' evs a.

Section rules.
Context {A B : Type}.
Implicit Types (m : M A) (Q : raft_server_private_t -> list event -> A -> Prop).

Lemma ensures_bind m (f : A -> M B) me (Q' : raft_server_private_t -> list event -> B -> Prop) :
  ensures m me (fun me' evs a => ensures (f a) me' (fun me'' evs' b => Q' me'' (evs ++ evs') b)) ->
  ensures (m ≫= f) me Q'.
Proof.
  intros (me' & evs & a & E & me'' & evs' & b & E' & HQ). exists me'', (evs ++ evs'), b.
  split; [|done]. unfold mbind, M_bind. rewrite E. simpl. rewrite E'. done.
Qed.

Lemma ensures_mono m me Q Q' :
  ensures m me Q -> (forall me' evs a, Q me' evs a -> Q' me' evs a) -> ensures m me Q'.
Proof. intros (me' & evs & a & E & HQ) Himp. exists me', evs, a. auto. Qed.

Lemma ensures_ret (a : A) me Q : Q me [] a -> ensures (mret a) me Q.
Proof. intros HQ. by exists me, [], a. Qed.

Lemma ensures_get (f : raft_server_private_t -> A) me Q : Q me [] (f me) -> ensures (get f) me Q.
Proof. intros HQ. by exists me, [], (f me). Qed.

Lemma ensures_lift (r : res A) (a : A) me Q : r = Ok a -> Q me [] a -> ensures (lift r) me Q.
Proof. intros -> HQ. by exists me, [], a. Qed.

End rules.

Lemma ensures_modify f me Q : Q (f me) [] tt -> ensures (modify f) me Q.
Proof. intros HQ. by exists (f me), [], tt. Qed.

Lemma ensures_emit e me Q : Q me [e] tt -> ensures (emit e) me Q.
Proof. intros HQ. by exists me, [e], tt. Qed.

Lemma ensures_when (b : bool) m me Q :
  (b = true -> ensures m me Q) -> (b = false -> Q me [] tt) -> ensures (when b m) me Q.
Proof. destruct b; intros H1 H2; simpl; [auto|]. apply ensures_ret. auto. Qed.

(** One step of a handler; stops at tests, at loops and at calls that may fail. *)
Ltac step :=
  match goal with
  | |- ensures (mbind _ _) _ _ => apply ensures_bind
  | |- ensures (mret _) _ _ => apply ensures_ret
  | |- ensures (get _) _ _ => apply ensures_get
  | |- ensures (modify _) _ _ => apply ensures_modify
  | |- ensures (emit _) _ _ => apply ensures_emit
  | |- ensures (lift (chk ?z)) _ _ => apply (ensures_lift _ z); [apply chk_ok; try (small; simpl in *; lia)|]
  | |- ensures (if (1 =? ?k) then _ else _) _ _ =>
      let v := eval cbv in (1 =? k) in change (1 =? k) with v; cbn iota
  | |- ensures (if (0 =? ?k) then _ else _) _ _ =>
      let v := eval cbv in (0 =? k) in change (0 =? k) with v; cbn iota
  end; cbn beta.
Ltac steps := repeat step.

Lemma for_loop_ensures n i last body me evs (I : Z -> raft_server_private_t -> list event -> Prop) :
  i + Z.of_nat n = last -> I i me evs ->
  (forall k me evs, i <= k < last -> I k me evs ->
     ensures (body k) me (fun me' evs' _ => I (k + 1) me' (evs ++ evs'))) ->
  ensures (for_loop n i body) me (fun me' evs' _ => I last me' (evs ++ evs')).
Proof.
  revert i me evs. induction n as [|n IH]; intros i me evs Hl HI Hbody; simpl for_loop; steps.
  - rewrite app_nil_r. by replace last with i by lia.
  - eapply ensures_mono; [apply (Hbody i me evs); [lia|done]|]. intros me' evs1 [] HI'.
    eapply ensures_mono; [apply (IH (i + 1) me' (evs ++ evs1)); [lia|done|]|].
    + intros k me1 evs2 Hk. apply Hbody. lia.
    + intros me'' evs2 [] H. by rewrite app_assoc.
Qed.

(** ** The invariant of a server *)

(** The log holds [l], the arrays have an element per node, the counters fit. *)
Record wf (me : raft_server_private_t) (l : list raft_entry_t) : Prop := {
  wf_log : RaftLog.wf (log me) l;
  wf_applied : 0 <= last_applied_idx me <= 10;
  wf_nodes : Z.of_nat (List.length (nodes me)) = num_nodes me;
  wf_votes : Z.of_nat (List.length (votes_for_me me)) = num_nodes me;
  wf_id : 0 <= nodeid me < num_nodes me;
  wf_num : num_nodes me <= int_max;
  wf_term : in_int (current_term me);
  wf_idx : 1 <= current_idx me <= int_max;
  wf_elapsed : in_int (timeout_elapsed me);
  wf_state : state me <> RAFT_STATE_NONE
}.

(** The configuration no handler changes. *)
Definition same_config (a b : raft_server_private_t) : Prop :=
  nodeid a = nodeid b /\ num_nodes a = num_nodes b /\ cb a = cb b /\
  election_timeout a = election_timeout b /\ request_timeout a = request_timeout b.

#[global] Instance same_config_equiv : Equivalence same_config.
Proof. split; unfold same_config; repeat intro; intuition congruence. Qed.

Lemma raft_new_wf addrs my :
  addrs <> [] -> Z.of_nat (List.length addrs) <= int_max -> 0 <= my < Z.of_nat (List.length addrs) ->
  wf (raft_set_configuration addrs my raft_new) [].
Proof.
  intros Hne Hl Hmy.
  assert (forall as_ n me, Z.of_nat (List.length (nodes me)) = num_nodes me -> num_nodes me = n -> 0 <= n ->
    let '(me', n') := configure_loop as_ n me in
    Z.of_nat (List.length (nodes me')) = num_nodes me' /\ num_nodes me' = n' /\ n' = n + Z.of_nat (List.length as_) /\
    log me' = log me /\ last_applied_idx me' = last_applied_idx me /\ current_term me' = current_term me /\
    current_idx me' = current_idx me /\ timeout_elapsed me' = timeout_elapsed me /\ state me' = state me) as H.
  { intros as_. induction as_ as [|a as_ IH]; intros n me H1 H2 H3; simpl configure_loop; [simpl; split_and!; try done; lia|].
    specialize (IH (n + 1) (set_nodes (take (Z.to_nat n) (nodes me) ++ [raft_node_new a]) (set_num_nodes (n + 1) me))).
    destruct (configure_loop as_ _ _) as [me' n']. simpl in IH.
    destruct IH as (? & ? & ? & ?); [rewrite length_app, length_take; simpl; lia|lia|lia|].
    simpl. split_and!; try done; try lia; tauto. }
  specialize (H addrs 0 raft_new). unfold raft_set_configuration.
  destruct (configure_loop addrs 0 raft_new) as [me n]. simpl in H.
  destruct H as (H1 & H2 & H3 & H4 & H5 & H6 & H7 & H8 & H9); [done|done|lia|].
  split; simpl; rewrite ?H4, ?H5, ?H6, ?H7, ?H8, ?H9; try done; try (small; lia).
  - apply log_new_wf.
  - rewrite length_replicate. lia.
Qed.
(** ** Messages to the other nodes *)

Definition others_upto (my n : Z) : list Z := filter (fun i => i <> my) (seqZ 0 n).
Definition others (me : raft_server_private_t) : list Z := others_upto (nodeid me) (num_nodes me).

Lemma others_snoc my k :
  0 <= k -> others_upto my (k + 1) = others_upto my k ++ (if decide (k = my) then [] else [k]).
Proof.
  intros Hk. unfold others_upto. rewrite seqZ_app by lia. rewrite Z.add_0_l, filter_app. f_equal.
  change (seqZ k 1) with [0 + k]. rewrite Z.add_0_l, filter_cons, filter_nil. repeat case_decide; done.
Qed.

Lemma elem_of_others me i : i ∈ others me <-> 0 <= i < num_nodes me /\ i <> nodeid me.
Proof. unfold others, others_upto. rewrite list_elem_of_filter, elem_of_seqZ. lia. Qed.

(** What a server with that configuration sends to a node. *)
Definition sent (me : raft_server_private_t) (node : Z) (m : message) : list event :=
  if cb_send (cb me) then [Send node m] else [].

Lemma ensures_eq {A} (m : M A) me me' evs a Q :
  m me = Ok (me', evs, a) -> Q me' evs a -> ensures m me Q.
Proof. intros E HQ. by exists me', evs, a. Qed.

Lemma for_others_ensures body me (I : Z -> raft_server_private_t -> list event -> Prop) :
  0 <= num_nodes me -> I 0 me [] ->
  (forall k me' evs, I k me' evs -> nodeid me' = nodeid me) ->
  (forall k me' evs, 0 <= k < num_nodes me -> k <> nodeid me -> I k me' evs ->
     ensures (body k) me' (fun me'' evs' _ => I (k + 1) me'' (evs ++ evs'))) ->
  (forall me' evs, I (nodeid me) me' evs -> I (nodeid me + 1) me' evs) ->
  ensures (for_others body) me (fun me' evs _ => I (num_nodes me) me' evs).
Proof.
  intros Hn HI Hid Hbody Hskip. unfold for_others. steps. simpl app.
  apply (for_loop_ensures _ 0 (num_nodes me) _ me [] I); [lia|done|].
  intros k me' evs Hk HIk. steps. rewrite (Hid _ _ _ HIk).
  apply ensures_when; intros Hb; simpl app.
  - apply Hbody; [done| |done]. intros ->. by rewrite Z.eqb_refl in Hb.
  - apply negb_false_iff, Z.eqb_eq in Hb. subst k. rewrite app_nil_r. by apply Hskip.
Qed.

(** The same call to every other node, which leaves the server as it is. *)
Lemma for_others_send body me (ev : Z -> list event) :
  0 <= num_nodes me -> (forall k, k ∈ others me -> body k me = Ok (me, ev k, tt)) ->
  for_others body me = Ok (me, others me ≫= ev, tt).
Proof.
  intros Hn Hbody.
  destruct (for_others_ensures body me
    (fun k me' evs => 0 <= k /\ me' = me /\ evs = others_upto (nodeid me) k ≫= ev)) as (me' & evs & [] & E & _ & -> & ->).
  - done.
  - done.
  - by intros k me' evs (_ & -> & _).
  - intros k me' evs Hk Hne (_ & -> & ->). eapply ensures_eq; [apply Hbody, elem_of_others; done|].
    split_and!; [lia|done|]. rewrite others_snoc by lia. rewrite decide_False by done.
    rewrite bind_app. simpl. by rewrite app_nil_r.
  - intros me' evs (Hk & -> & ->). split_and!; [lia|done|]. rewrite others_snoc by lia.
    rewrite decide_True by done. by rewrite app_nil_r.
  - done.
Qed.

Definition rv_of (me : raft_server_private_t) : message :=
  RAFT_MSG_REQUESTVOTE (mk_rv (current_term me) None (current_idx me) None).
Definition ae_of (me : raft_server_private_t) (next : Z) : message :=
  RAFT_MSG_APPENDENTRIES (mk_ae (current_term me) (nodeid me) 0 next 0 None None).

Lemma send_eq node m me : send node m me = Ok (me, sent me node m, tt).
Proof. unfold send, sent, get, mbind, M_bind. simpl. by destruct (cb_send (cb me)). Qed.

Lemma send_requestvote_eq node me : raft_send_requestvote node me = Ok (me, sent me node (rv_of me), tt).
Proof. unfold raft_send_requestvote, get, mbind, M_bind. simpl. by rewrite send_eq. Qed.

Lemma get_node_ok me i : 0 <= i < num_nodes me -> raft_get_node me i = Some i.
Proof.
  intros Hi. unfold raft_get_node. rewrite (proj2 (Z.ltb_ge _ _)) by lia. by rewrite (proj2 (Z.leb_gt _ _)) by lia.
Qed.

Lemma send_appendentries_eq node me n :
  0 <= node < num_nodes me -> nodes me !! Z.to_nat node = Some n ->
  raft_send_appendentries node me = Ok (me, sent me node (ae_of me (next_idx n)), tt).
Proof.
  intros Hn Hl. unfold raft_send_appendentries, get, mbind, M_bind, when, sent. simpl.
  destruct (cb_send (cb me)) eqn:Eb; [|done]. rewrite get_node_ok by done. simpl.
  unfold mbind. simpl. rewrite (load_ok _ _ n) by (done || lia). simpl. rewrite send_eq. unfold sent. by rewrite Eb.
Qed.

(** The index of the next entry for a node. *)
Definition next_of (me : raft_server_private_t) (i : Z) : Z :=
  match nodes me !! Z.to_nat i with Some n => next_idx n | None => 0 end.

Lemma send_all_eq me l :
  wf me l ->
  for_others raft_send_appendentries me =
    Ok (me, others me ≫= (fun i => sent me i (ae_of me (next_of me i))), tt).
Proof.
  intros Hwf. destruct Hwf. apply for_others_send; [lia|]. intros k [Hk _]%elem_of_others.
  destruct (lookup_lt_is_Some_2 (nodes me) (Z.to_nat k)) as [n Hn]; [lia|].
  unfold next_of. rewrite Hn. by apply send_appendentries_eq.
Qed.
(** ** Elections *)

(** A candidate of the next term, without votes but its own. *)
Definition candidate (me : raft_server_private_t) (rnd : Z) : raft_server_private_t :=
  set_timeout_elapsed (Z.rem rnd 500) (raft_set_state RAFT_STATE_CANDIDATE (raft_vote (nodeid me)
    (raft_set_current_term (current_term me + 1)
      (set_votes (replicate (Z.to_nat (num_nodes me)) 0) me)))).

Lemma become_candidate_eq me l rnd :
  wf me l -> current_term me < int_max ->
  raft_become_candidate rnd me =
    Ok (candidate me rnd, others me ≫= (fun i => sent me i (rv_of (candidate me rnd))), tt).
Proof.
  intros Hwf Ht. destruct Hwf as [Hlog Ha Hn Hv Hid Hmax Hterm Hidx He Hst].
  unfold raft_become_candidate, clear_votes, mbind, M_bind, get, lift, modify.
  rewrite (proj2 (Z.leb_le _ _)) by lia. rewrite drop_ge by lia. rewrite app_nil_r. unfold mbind. simpl.
  rewrite chk_ok by (small; lia). simpl. unfold mbind. simpl.
  rewrite (for_others_send _ _ (fun i => sent me i (rv_of (candidate me rnd)))); [done|simpl; lia|].
  intros k _. by rewrite send_requestvote_eq.
Qed.

Lemma candidate_wf me l rnd : wf me l -> current_term me < int_max -> 0 <= rnd -> wf (candidate me rnd) l.
Proof.
  intros Hwf Ht Hr. destruct Hwf as [Hlog Ha Hn Hv Hid Hmax Hterm Hidx He Hst].
  split; simpl; try done; [rewrite length_replicate; lia|small; lia|].
  pose proof (Z.rem_bound_pos rnd 500 Hr ltac:(lia)). small. lia.
Qed.

(** A leader of the same term that has written the index of the next entry of
    every other node. *)
Definition leader (me me' : raft_server_private_t) : Prop :=
  exists ns, me' = set_nodes ns (raft_vote (-1) (raft_set_state RAFT_STATE_LEADER me)) /\
    List.length ns = List.length (nodes me) /\ forall i, i ∈ others me -> next_of me' i = current_idx me + 1.

Lemma become_leader_ensures me l :
  wf me l -> current_idx me < int_max ->
  ensures raft_become_leader me (fun me' evs _ => leader me me' /\
    evs = others me ≫= (fun i => sent me i (ae_of me (current_idx me + 1)))).
Proof.
  intros Hwf Hci. destruct Hwf as [Hlog Ha Hn Hv Hid Hmax Hterm Hidx He Hst]. unfold raft_become_leader. steps. simpl app.
  set (base := raft_vote (-1) (raft_set_state RAFT_STATE_LEADER me)).
  set (ev := fun i => sent me i (ae_of me (current_idx me + 1))).
  eapply ensures_mono; [apply (for_others_ensures _ base (fun k me' evs => 0 <= k /\
    exists ns, me' = set_nodes ns base /\ List.length ns = List.length (nodes me) /\
      (forall i, 0 <= i < k -> i <> nodeid me -> exists u, ns !! Z.to_nat i = Some (mk_node u (current_idx me + 1))) /\
      evs = others_upto (nodeid me) k ≫= ev))|]; simpl.
  - lia.
  - split; [lia|]. exists (nodes me). split_and!; [done|done|lia|done].
  - by intros k me' evs (_ & ns & -> & _).
  - intros k me' evs Hk Hne (_ & ns & -> & Hlen & Hns & ->). steps. simpl app. simpl current_idx.
    rewrite get_node_ok by done.
    destruct (lookup_lt_is_Some_2 ns (Z.to_nat k)) as [n En]; [lia|].
    eapply ensures_eq.
    { unfold raft_node_set_next_idx. simpl nodes. rewrite (load_ok _ _ n) by (done || lia). simpl.
      rewrite store_ok by lia. simpl. done. }
    set (ns' := <[Z.to_nat k := _]> ns).
    assert (ns' !! Z.to_nat k = Some (mk_node (udata n) (current_idx me + 1))) as Ek
      by (unfold ns'; rewrite list_lookup_insert_eq by lia; done).
    eapply ensures_eq; [apply (send_appendentries_eq k (set_nodes ns' (set_nodes ns base)) _ Hk Ek)|]. simpl.
    split; [lia|]. exists ns'. split_and!; [done|by unfold ns'; rewrite length_insert| |].
    + intros i Hi Hni. destruct (decide (i = k)) as [->|Hik]; [eauto|].
      unfold ns'. rewrite list_lookup_insert_ne by lia. apply Hns; lia.
    + rewrite others_snoc by lia. rewrite decide_False by done. rewrite bind_app. simpl. by rewrite app_nil_r.
  - intros me' evs (Hk & ns & -> & Hlen & Hns & ->). split; [lia|]. exists ns. split_and!; [done|done| |].
    + intros i Hi Hni. apply Hns; [lia|done].
    + rewrite others_snoc by lia. rewrite decide_True by done. by rewrite app_nil_r.
  - intros me' evs [] (_ & ns & -> & Hlen & Hns & ->). split; [|done]. exists ns. split_and!; [done|done|].
    intros i [Hi Hne]%elem_of_others. destruct (Hns i Hi Hne) as [u Hu]. unfold next_of. simpl. by rewrite Hu.
Qed.

Lemma leader_wf me me' l : wf me l -> leader me me' -> wf me' l.
Proof. intros Hwf (ns & -> & Hlen & _). destruct Hwf. split; simpl; try done. lia. Qed.
(** ** The log of a server *)

Lemma set_log_same me : set_log (log me) me = me.
Proof. by destruct me. Qed.

Lemma append_refused me c : e_id c = 0 -> raft_append_entry c me = Ok (me, [], 0).
Proof.
  intros E. unfold raft_append_entry, mbind, M_bind, get, lift, modify.
  unfold mbind. simpl. rewrite append_zero_id by done. simpl. by rewrite set_log_same.
Qed.

Lemma append_ensures me l c :
  wf me l -> e_id c <> 0 -> (List.length l < 10)%nat -> current_idx me < int_max ->
  ensures (raft_append_entry c) me (fun me' evs r => evs = [] /\ r = 1 /\
    exists lg, me' = raft_set_current_idx (current_idx me + 1) (set_log lg me) /\
      RaftLog.wf lg (l ++ [stored c])).
Proof.
  intros Hwf Hid Hroom Hci. destruct (append_wf (log me) l c) as (lg & E & Hlg); [apply Hwf|done|lia|].
  unfold raft_append_entry. steps. apply (ensures_lift _ (lg, 1)); [done|]. simpl app.
  pose proof (wf_idx _ _ Hwf). steps. simpl. split_and!; try done. exists lg. done.
Qed.

(** The server after the application of [k] more entries. *)
Definition applied (me : raft_server_private_t) (k : nat) : raft_server_private_t :=
  match k with
  | O => me
  | S _ =>
      let la := last_applied_idx me + Z.of_nat k in
      raft_set_commit_idx (Z.max (commit_idx me) la) (raft_set_last_applied_idx la me)
  end.

Definition apply_event (me : raft_server_private_t) (e : raft_entry_t) : list event :=
  if cb_applylog (cb me) then [Applylog (e_data e) (wrap_int (e_len e))] else [].

Lemma applied_S me k : applied (applied me 1) k = applied me (S k).
Proof.
  destruct k as [|k]; [done|]. unfold applied, raft_set_commit_idx, raft_set_last_applied_idx. cbn -[Z.of_nat].
  f_equal; lia.
Qed.

Lemma applied_wf me l k :
  wf me l -> (k <= List.length l - Z.to_nat (last_applied_idx me))%nat -> wf (applied me k) l.
Proof.
  intros Hwf Hk. pose proof (wf_room _ _ (wf_log _ _ Hwf)). destruct k as [|k]; [done|].
  destruct Hwf. split; cbn -[Z.of_nat]; try done. lia.
Qed.

Lemma apply_entry_eq me l :
  wf me l ->
  raft_apply_entry me =
    match l !! Z.to_nat (last_applied_idx me) with
    | None => Ok (me, [], 0)
    | Some e => Ok (applied me 1, apply_event me e, 1)
    end.
Proof.
  intros Hwf. pose proof (wf_applied _ _ Hwf) as Ha.
  pose proof (get_wf (log me) l (last_applied_idx me + 1) (wf_log _ _ Hwf) ltac:(lia) ltac:(small; lia)) as Hg.
  replace (last_applied_idx me + 1 - 1) with (last_applied_idx me) in Hg by lia.
  unfold raft_apply_entry, raft_get_entry_from_idx, mbind, M_bind, get, lift, modify, when, emit.
  unfold mbind. simpl. rewrite chk_ok by (small; lia). simpl.
  destruct (l !! Z.to_nat (last_applied_idx me)) as [e|]; [destruct Hg as [-> Hat]|by rewrite Hg].
  simpl. unfold apply_event, applied, raft_set_commit_idx, raft_set_last_applied_idx. simpl.
  destruct (Z.ltb_spec (commit_idx me) (last_applied_idx me + 1)); simpl;
    (destruct (cb_applylog (cb me)); simpl; [rewrite Hat; simpl|]; repeat f_equal; lia).
Qed.

(** How many of the first entries satisfy a test. *)
Fixpoint run_length (P : raft_entry_t -> bool) (l : list raft_entry_t) : nat :=
  match l with
  | [] => 0
  | e :: l => if P e then S (run_length P l) else 0
  end.

Lemma run_length_le P l : (run_length P l <= List.length l)%nat.
Proof. induction l as [|e l IH]; simpl; [lia|]. destruct (P e); lia. Qed.

Lemma run_length_all l : run_length (fun _ => true) l = List.length l.
Proof. induction l; simpl; congruence. Qed.

Definition pending (me : raft_server_private_t) (l : list raft_entry_t) : list raft_entry_t :=
  drop (Z.to_nat (last_applied_idx me)) l.

Definition majority_has (me : raft_server_private_t) (e : raft_entry_t) : bool :=
  wrap_u32 (Z.quot (num_nodes me) 2) <=? e_num_nodes e.

(** What both loops do: apply the first [k] of the pending entries. *)
Definition applies (me : raft_server_private_t) (l : list raft_entry_t) (k : nat)
    (me' : raft_server_private_t) (evs : list event) : Prop :=
  me' = applied me k /\ evs = take k (pending me l) ≫= apply_event me.

Lemma apply_fuel_val me l :
  wf me l -> apply_fuel me = S (List.length (pending me l)).
Proof.
  intros [Hlog Ha _ _ _ _ _ _ _ _]. destruct Hlog. unfold apply_fuel, pending. rewrite length_drop. lia.
Qed.

Lemma pending_applied me l e :
  wf me l -> l !! Z.to_nat (last_applied_idx me) = Some e -> pending me l = e :: pending (applied me 1) l.
Proof.
  intros Hwf He. pose proof (wf_applied _ _ Hwf). unfold pending. rewrite (drop_S l e) by done.
  f_equal. f_equal. simpl. lia.
Qed.

(** A round that finds no entry ends the loop, one that finds an entry applies it. *)
Lemma apply_entry_ensures me l (Q : raft_server_private_t -> list event -> Z -> Prop) :
  wf me l ->
  (pending me l = [] -> Q me [] 0) ->
  (forall e, pending me l = e :: pending (applied me 1) l -> wf (applied me 1) l -> Q (applied me 1) (apply_event me e) 1) ->
  ensures raft_apply_entry me Q.
Proof.
  intros Hwf H0 H1. pose proof (apply_entry_eq me l Hwf) as E.
  destruct (l !! Z.to_nat (last_applied_idx me)) as [e|] eqn:El; eapply ensures_eq; try exact E.
  - apply H1; [by apply pending_applied|]. apply lookup_lt_Some in El. apply applied_wf; [done|lia].
  - apply H0. unfold pending. apply drop_ge. by apply lookup_ge_None.
Qed.

Lemma applies_cons me l e k me' evs :
  pending me l = e :: pending (applied me 1) l ->
  applies (applied me 1) l k me' evs -> applies me l (S k) me' (apply_event me e ++ evs).
Proof. intros Hp [-> ->]. split; [apply applied_S|]. rewrite Hp. done. Qed.

Lemma applies_0 me l : applies me l 0 me [].
Proof. done. Qed.

(** [while (1 == raft_apply_entry(me))] applies every entry of the log. *)
Lemma apply_loop_ensures n me l :
  wf me l -> List.length (pending me l) = n ->
  ensures (apply_loop (S n)) me (fun me' evs _ => applies me l n me' evs).
Proof.
  revert me. induction n as [|n IH]; intros me Hwf Hn; cbn [apply_loop]; step; apply (apply_entry_ensures me l); try done.
  - intros Hp. steps. apply applies_0.
  - intros e Hp. by rewrite Hp in Hn.
  - intros Hp. by rewrite Hp in Hn.
  - intros e Hp Hwf'. rewrite Hp in Hn. injection Hn as Hn.
    step. eapply ensures_mono; [by apply IH|].
    intros me' evs [] Hap. by apply applies_cons.
Qed.

(** The loop of the leader applies the entries up to the first one that too few
    nodes have. *)
Lemma commit_loop_ensures n me l :
  wf me l -> List.length (pending me l) = n ->
  ensures (commit_loop (S n)) me
    (fun me' evs _ => applies me l (run_length (majority_has me) (pending me l)) me' evs).
Proof.
  revert me. induction n as [|n IH]; intros me Hwf Hn; cbn [commit_loop]; pose proof (wf_applied _ _ Hwf) as Ha; steps;
    pose proof (get_wf (log me) l (last_applied_idx me + 1) (wf_log _ _ Hwf) ltac:(lia) ltac:(small; lia)) as Hg;
    replace (last_applied_idx me + 1 - 1) with (last_applied_idx me) in Hg by lia;
    destruct (l !! Z.to_nat (last_applied_idx me)) as [e|] eqn:El; simpl app.
  - by rewrite (pending_applied me l e Hwf El) in Hn.
  - eapply ensures_lift; [done|]. simpl. step. destruct (pending me l); [|done]. apply applies_0.
  - destruct Hg as [Hg Hat]. eapply ensures_lift; [done|]. cbn iota beta. steps. eapply ensures_lift; [done|]. cbn beta.
    steps. rewrite (pending_applied me l e Hwf El). simpl run_length. unfold majority_has at 1.
    case_if; [|step; apply applies_0]. step. apply (apply_entry_ensures me l); [done| |].
    + rewrite (pending_applied me l e Hwf El). done.
    + intros e' Hp Hwf'. rewrite (pending_applied me l e Hwf El) in Hp, Hn. injection Hp as <-. injection Hn as Hn.
      step. eapply ensures_mono; [by apply IH|].
      intros me' evs [] Hap. simpl app. apply applies_cons; [by apply pending_applied|exact Hap].
  - apply lookup_ge_None in El. unfold pending in Hn. rewrite length_drop in Hn. lia.
Qed.
(** ** Responses to append entries *)

Fixpoint mark_list (n : nat) (i : Z) (l : list raft_entry_t) : list raft_entry_t :=
  match n with
  | O => l
  | S n => mark_list n (i + 1) (alter marked (Z.to_nat (i - 1)) l)
  end.

Lemma mark_list_length n i l : List.length (mark_list n i l) = List.length l.
Proof. revert i l. induction n as [|n IH]; intros i l; simpl; [done|]. by rewrite IH, length_alter. Qed.

(** The entries whose 1-based index is in the range are marked once. *)
Lemma mark_list_lookup n i l k :
  1 <= i ->
  mark_list n i l !! k =
    (if decide (i <= Z.of_nat k + 1 < i + Z.of_nat n) then marked <$> (l !! k) else l !! k).
Proof.
  revert i l. induction n as [|n IH]; intros i l Hi; cbn [mark_list]; [case_decide; [lia|done]|].
  rewrite IH by lia. destruct (decide (k = Z.to_nat (i - 1))) as [->|Hne].
  - rewrite decide_False by lia. rewrite decide_True by lia. by rewrite list_lookup_alter_eq.
  - rewrite list_lookup_alter_ne by done. repeat case_decide; lia || done.
Qed.

Lemma set_log_set_log a b me : set_log a (set_log b me) = set_log a me.
Proof. done. Qed.

Lemma set_log_wf me l lg l' : wf me l -> RaftLog.wf lg l' -> wf (set_log lg me) l'.
Proof. intros [] ?. by split. Qed.

Lemma mark_loop_ensures n i me l :
  RaftLog.wf (log me) l -> 1 <= i -> (n = 0%nat \/ i + Z.of_nat n <= int_max) ->
  ensures (mark_loop n i) me (fun me' evs _ => evs = [] /\ exists lg, me' = set_log lg me /\ RaftLog.wf lg (mark_list n i l)).
Proof.
  revert i me l. induction n as [|n IH]; intros i me l Hwf Hi Hmax; cbn [mark_loop mark_list]; steps.
  - split; [done|]. exists (log me). by rewrite set_log_same.
  - destruct (mark_wf (log me) l i Hwf Hi) as (lg & E & Hlg); [small; lia|].
    eapply ensures_lift; [done|]. cbn beta. steps. eapply ensures_mono; [apply (IH _ _ (alter marked (Z.to_nat (i - 1)) l)); [done|lia|lia]|].
    intros me' evs [] (-> & lg' & -> & Hlg'). split; [done|]. exists lg'. done.
Qed.

(** A success marks the entries it acknowledges and applies the ones half of the
    nodes have by now. *)
Lemma recv_aer_success me l node r first last :
  wf me l -> aer_success r = 1 -> aer_first_idx r = Some first -> aer_current_idx r = Some last ->
  1 <= first -> last < int_max ->
  let l' := mark_list (Z.to_nat (last + 1 - first)) first l in
  ensures (raft_recv_appendentries_response node r) me (fun me' evs res => res = 1 /\ exists lg,
    RaftLog.wf lg l' /\ wf (set_log lg me) l' /\
    applies (set_log lg me) l' (run_length (majority_has me) (pending me l')) me' evs).
Proof.
  intros Hwf Hs Ef El Hfirst Hlast l'. unfold raft_recv_appendentries_response. rewrite Hs, Ef, El. steps.
  eapply ensures_lift; [done|]. cbn beta. steps. eapply ensures_lift; [done|]. cbn beta. steps.
  eapply ensures_mono.
  { apply (mark_loop_ensures _ _ me l); [apply Hwf|done|]. lia. }
  cbn beta. intros me1 evs1 [] (-> & lg & -> & Hlg). steps.
  assert (wf (set_log lg me) l') as Hwf' by (by eapply set_log_wf).
  rewrite (apply_fuel_val _ l' Hwf'). eapply ensures_mono; [by apply commit_loop_ensures|].
  intros me' evs [] Hap. simpl app. steps. split; [done|]. exists lg. rewrite app_nil_r. done.
Qed.

(** A failure lowers the index for the node by one and tries again. *)
Lemma recv_aer_failure me l node r n :
  wf me l -> aer_success r <> 1 -> 0 <= node < num_nodes me -> nodes me !! Z.to_nat node = Some n ->
  0 <= next_idx n <= int_max ->
  let me' := set_nodes (<[Z.to_nat node := mk_node (udata n) (next_idx n - 1)]> (nodes me)) me in
  raft_recv_appendentries_response node r me = Ok (me', sent me node (ae_of me (next_idx n - 1)), 1).
Proof.
  intros Hwf Hs Hnode Hn Hnext me'. unfold raft_recv_appendentries_response, mbind, M_bind, get, lift. unfold mbind. simpl.
  rewrite (proj2 (Z.eqb_neq _ _)) by done. rewrite get_node_ok by done. simpl.
  rewrite (load_ok _ _ n) by (done || lia). simpl. rewrite (proj2 (Z.ltb_ge _ _)) by lia. unfold mbind. simpl.
  rewrite chk_ok by (small; lia). simpl. rewrite (load_ok _ _ n) by (done || lia). simpl.
  rewrite store_ok by (destruct Hwf; lia). simpl. fold me'.
  rewrite (send_appendentries_eq node me' (mk_node (udata n) (next_idx n - 1))).
  - simpl. rewrite app_nil_r. done.
  - done.
  - unfold me'. simpl. apply list_lookup_insert_eq. destruct Hwf. lia.
Qed.
(** ** Append entries *)

(** The log against the message: whether it has the entry before the new ones, and
    the log cut behind that entry. *)
Definition consistent (l : list raft_entry_t) (ae : msg_appendentries_t) : bool * list raft_entry_t :=
  if ae_prev_log_idx ae =? 0 then (true, l)
  else
    match l !! Z.to_nat (ae_prev_log_idx ae - 1) with
    | None => (false, l)
    | Some e =>
        if e_term e =? wrap_u32 (ae_prev_log_term ae) then (true, take (Z.to_nat (ae_prev_log_idx ae)) l)
        else (false, l)
    end.

Definition entry_of (term : Z) (m : msg_entry_t) : raft_entry_t :=
  mk_entry (wrap_u32 term) (m_id m) (take (Z.to_nat (m_len m)) <$> m_data m) (m_len m) 0.

(** The entries up to the first one without an id. *)
Fixpoint accept (term : Z) (es : list msg_entry_t) : list raft_entry_t * bool :=
  match es with
  | [] => ([], true)
  | m :: es => if m_id m =? 0 then ([], false) else ((entry_of term m :: (accept term es).1), (accept term es).2)
  end.

Definition valid_entry (m : msg_entry_t) : bool :=
  match m_data m with
  | None => false
  | Some bytes => (0 <=? m_len m) && (m_len m <=? Z.of_nat (List.length bytes))
  end.

Lemma copy_data_valid m : valid_entry m = true ->
  exists d, copy_data m = Ok d /\ Some d = take (Z.to_nat (m_len m)) <$> m_data m.
Proof.
  unfold valid_entry, copy_data. destruct (m_data m) as [bytes|]; [|done].
  intros [_ H]%andb_true_iff. rewrite H. eauto.
Qed.

Lemma accept_length term es : (List.length (accept term es).1 <= List.length es)%nat.
Proof. induction es as [|m es IH]; simpl; [lia|]. destruct (m_id m =? 0); simpl; lia. Qed.

Lemma append_loop_ensures n i es me l :
  wf me l -> 0 <= i -> i + Z.of_nat n = Z.of_nat (List.length es) ->
  forallb valid_entry es = true -> (List.length l + n <= 10)%nat -> current_idx me + Z.of_nat n <= int_max ->
  let '(a, ok) := accept (current_term me) (drop (Z.to_nat i) es) in
  ensures (append_loop n i (Some es)) me (fun me' evs r => evs = [] /\ r = ok /\ exists lg,
    me' = raft_set_current_idx (current_idx me + Z.of_nat (List.length a)) (set_log lg me) /\ RaftLog.wf lg (l ++ a)).
Proof.
  revert i me l. induction n as [|n IH]; intros i me l Hwf Hi Hn Hes Hroom Hci.
  { rewrite drop_ge by lia. simpl. step. split_and!; try done. exists (log me). rewrite Z.add_0_r, app_nil_r.
    split; [by destruct me|apply Hwf]. }
  destruct (lookup_lt_is_Some_2 es (Z.to_nat i)) as [m Hm]; [lia|].
  rewrite (drop_S es m) by done. cbn [accept append_loop].
  assert (valid_entry m = true) as Hv by (eapply forallb_forall; [done|]; by eapply list_elem_of_In, list_elem_of_lookup_2).
  destruct (copy_data_valid m Hv) as (d & Hd & Ed).
  destruct (Z.eqb_spec (m_id m) 0) as [Hid|Hid].
  - step. eapply ensures_lift; [by apply load_ok|]. cbn beta. step. eapply ensures_lift; [done|]. cbn beta. steps.
    eapply ensures_eq; [by apply append_refused|]. steps. split_and!; try done. exists (log me).
    simpl. rewrite Z.add_0_r, app_nil_r. split; [by destruct me|apply Hwf].
  - pose proof (wf_idx _ _ Hwf).
    specialize (IH (i + 1)). replace (Z.to_nat (i + 1)) with (S (Z.to_nat i)) in IH by lia.
    destruct (accept (current_term me) (drop (S (Z.to_nat i)) es)) as [a ok] eqn:Ea. simpl fst. simpl snd.
    step. eapply ensures_lift; [by apply load_ok|]. cbn beta. step. eapply ensures_lift; [done|]. cbn beta. steps.
    eapply ensures_mono; [apply (append_ensures me l); [done|done|lia|lia]|].
    intros me1 evs1 r (-> & -> & lg & -> & Hlg). steps.
    assert (stored (mk_entry (wrap_u32 (current_term me)) (m_id m) (Some d) (m_len m) 0) = entry_of (current_term me) m) as Est
      by (unfold stored, entry_of; simpl; by rewrite Ed).
    rewrite Est in Hlg. set (me1 := raft_set_current_idx _ _).
    assert (wf me1 (l ++ [entry_of (current_term me) m])) as Hwf1 by (destruct Hwf; split; simpl; try done; lia).
    specialize (IH me1 (l ++ [entry_of (current_term me) m]) Hwf1). change (current_term me1) with (current_term me) in IH.
    rewrite Ea in IH. eapply ensures_mono; [apply IH; try lia; try done|].
    + rewrite length_app. simpl. lia.
    + unfold me1. simpl. lia.
    + intros me2 evs2 r (-> & -> & lg2 & -> & Hlg2). split_and!; try done. exists lg2.
      rewrite <- app_assoc in Hlg2. split; [|done]. unfold me1, raft_set_current_idx, set_log. cbn -[Z.of_nat]. f_equal. lia.
Qed.

Lemma ae_consistent_ensures me l ae :
  wf me l -> 0 <= ae_prev_log_idx ae < int_max ->
  ensures (ae_consistent ae) me (fun me' evs ok => evs = [] /\ ok = (consistent l ae).1 /\
    exists lg, me' = set_log lg me /\ RaftLog.wf lg (consistent l ae).2).
Proof.
  intros Hwf Hp. pose proof (wf_log _ _ Hwf) as Hlog. pose proof (wf_room _ _ Hlog) as Hroom.
  unfold ae_consistent, consistent, raft_get_entry_from_idx.
  assert (exists lg, me = set_log lg me /\ RaftLog.wf lg l) as Hsame by (exists (log me); by rewrite set_log_same).
  destruct (Z.eqb_spec (ae_prev_log_idx ae) 0) as [E|E]; [steps; done|].
  pose proof (get_wf (log me) l (ae_prev_log_idx ae) Hlog ltac:(lia) ltac:(small; lia)) as Hg.
  pose proof (get_wf (log me) l (ae_prev_log_idx ae + 1) Hlog ltac:(lia) ltac:(small; lia)) as Hg2.
  replace (ae_prev_log_idx ae + 1 - 1) with (ae_prev_log_idx ae) in Hg2 by lia. steps.
  destruct (l !! Z.to_nat (ae_prev_log_idx ae - 1)) as [e|] eqn:El.
  2:{ eapply ensures_lift; [done|]. cbn iota beta. steps. done. }
  destruct Hg as [Hg Hat]. eapply ensures_lift; [done|]. cbn iota beta. steps.
  eapply ensures_lift; [done|]. cbn beta.
  destruct (e_term e =? wrap_u32 (ae_prev_log_term ae)); cbn iota beta; simpl negb; cbn iota; [|steps; done].
  steps. apply lookup_lt_Some in El.
  destruct (l !! Z.to_nat (ae_prev_log_idx ae)) as [e2|] eqn:El2.
  - destruct Hg2 as [Hg2 _]. eapply ensures_lift; [done|]. cbn iota beta. steps. apply lookup_lt_Some in El2.
    destruct (delete_wf (log me) l (ae_prev_log_idx ae + 1) Hlog) as (lg & Ed & Hlg); [lia|].
    eapply ensures_lift; [done|]. cbn beta. steps. split_and!; try done. exists lg.
    replace (ae_prev_log_idx ae + 1 - 1) with (ae_prev_log_idx ae) in Hlg by lia. done.
  - eapply ensures_lift; [done|]. cbn iota beta. steps. split_and!; try done. apply lookup_ge_None in El2.
    simpl snd. by rewrite take_ge.
Qed.

(** The commit index the message gives, and the entries that are applied then. *)
Lemma ae_commit_ensures me l ae lc :
  wf me l -> ae_leader_commit ae = Some lc ->
  ensures (ae_commit ae) me (fun me' evs _ =>
    match last l with
    | Some e =>
        if commit_idx me <? lc then
          applies (raft_set_commit_idx (wrap_int (Z.min (e_id e) (wrap_u32 lc))) me) l (List.length (pending me l)) me' evs
        else me' = me /\ evs = []
    | None => me' = me /\ evs = []
    end).
Proof.
  intros Hwf Hlc. unfold ae_commit. step. eapply ensures_lift; [by rewrite Hlc|]. cbn beta. steps.
  pose proof (peektail_wf (log me) l (wf_log _ _ Hwf)) as Hp.
  apply ensures_when; intros Hb; [|simpl app; rewrite Hb; by destruct (last l)]. rewrite Hb.
  steps. destruct (last l) as [e|]; [|rewrite Hp; steps; done].
  destruct Hp as (p & -> & Hat). steps. eapply ensures_lift; [done|]. cbn beta. steps.
  set (me1 := raft_set_commit_idx _ me).
  assert (wf me1 l) as Hwf1 by (destruct Hwf; by split).
  rewrite (apply_fuel_val me1 l Hwf1). eapply ensures_mono; [by apply apply_loop_ensures|].
  intros me' evs [] Hap. simpl app. replace (raft_set_commit_idx (wrap_int (Z.min (e_id e) (wrap_u32 lc))) me) with me1; [done|].
  unfold me1. do 2 f_equal. case_if; lia.
Qed.
(** The role after a message from a leader of a term that is not older. *)
Definition follows (me me' : raft_server_private_t) : Prop :=
  same_config me me' /\ nodes me' = nodes me /\ votes_for_me me' = votes_for_me me /\ timeout_elapsed me' = 0.

Record valid_ae (ae : msg_appendentries_t) (es : list msg_entry_t) (lc : Z) : Prop := {
  va_prev : 0 <= ae_prev_log_idx ae < int_max;
  va_term : in_int (ae_term ae);
  va_count : ae_n_entries ae = Z.of_nat (List.length es);
  va_entries : ae_entries ae = Some es;
  va_valid : forallb valid_entry es = true;
  va_commit : ae_leader_commit ae = Some lc
}.

Definition accepts (me : raft_server_private_t) (l : list raft_entry_t) (ae : msg_appendentries_t) : bool :=
  (current_term me <=? ae_term ae) && (consistent l ae).1.

Definition aer (me : raft_server_private_t) (success : Z) (ci first : option Z) : message :=
  RAFT_MSG_APPENDENTRIES_RESPONSE (mk_aer (current_term me) success ci first).

(** How many of the entries of [l] the message makes the server apply. *)
Definition newly_applied (me : raft_server_private_t) (l : list raft_entry_t) (lc : Z) : nat :=
  match l with
  | [] => 0
  | _ => if commit_idx me <? lc then List.length (pending me l) else 0
  end.

(** The effects of a message on a server with log [l]: refused, or taken in. *)
Definition ae_effect (me : raft_server_private_t) (l : list raft_entry_t) (node : Z) (ae : msg_appendentries_t)
    (es : list msg_entry_t) (lc : Z) (me' : raft_server_private_t) (evs : list event) : Prop :=
  follows me me' /\
  if accepts me l ae then
    let '(a, ok) := accept (ae_term ae) es in
    let l' := (consistent l ae).2 in
    let n := newly_applied me l' lc in
    wf me' (l' ++ a) /\ current_term me' = ae_term ae /\ state me' = RAFT_STATE_FOLLOWER /\
    current_idx me' = current_idx me + Z.of_nat (List.length a) /\
    last_applied_idx me' = last_applied_idx me + Z.of_nat n /\
    evs = (take n (pending me l') ≫= apply_event me) ++
      sent me node (if ok : bool then aer me 1 (Some (current_idx me')) (Some (ae_prev_log_idx ae + 1)) else aer me 0 None None) /\
    (state me = RAFT_STATE_FOLLOWER -> voted_for me' = voted_for me) /\
    (lc <= commit_idx me -> commit_idx me' = commit_idx me)
  else
    wf me' l /\ current_term me' = current_term me /\ current_idx me' = current_idx me /\
    last_applied_idx me' = last_applied_idx me /\ commit_idx me' = commit_idx me /\
    state me' = (if raft_is_leader me && (current_term me <=? ae_term ae) then RAFT_STATE_FOLLOWER else state me) /\
    evs = sent me node (aer me 0 None None).

(** A server that has just received the message and stopped to lead. *)
Definition stepped_down (me : raft_server_private_t) (ae : msg_appendentries_t) : raft_server_private_t :=
  let me := set_timeout_elapsed 0 me in
  if raft_is_leader me && (current_term me <=? ae_term ae) then
    raft_vote (-1) (raft_set_state RAFT_STATE_FOLLOWER me)
  else me.

Lemma stepped_down_wf me l ae : wf me l -> wf (stepped_down me ae) l.
Proof. intros []. unfold stepped_down. case_if; split; simpl; try done; small; lia. Qed.

Lemma step_down_ensures me ae :
  ensures (when (raft_is_leader (set_timeout_elapsed 0 me) && (current_term me <=? ae_term ae)) raft_become_follower)
    (set_timeout_elapsed 0 me) (fun me' evs _ => me' = stepped_down me ae /\ evs = []).
Proof.
  unfold stepped_down. apply ensures_when; intros Hb; simpl current_term; rewrite Hb; [|done].
  unfold raft_become_follower. steps. done.
Qed.

Lemma stepped_down_keeps me ae :
  let m := stepped_down me ae in
  follows me m /\ current_idx m = current_idx me /\ commit_idx m = commit_idx me /\
  last_applied_idx m = last_applied_idx me /\ (current_term me <= ae_term ae -> state m <> RAFT_STATE_LEADER).
Proof.
  unfold stepped_down, follows, same_config, raft_is_leader. simpl. case_bool_decide; simpl.
  - destruct (Z.leb_spec (current_term me) (ae_term ae)); simpl; split_and!; try done. lia.
  - split_and!; done.
Qed.

(** A candidate becomes a follower, a follower stays one. *)
Lemma candidate_follows me :
  state me <> RAFT_STATE_LEADER -> state me <> RAFT_STATE_NONE ->
  ensures (when (raft_is_candidate me) raft_become_follower) me (fun me' evs _ => evs = [] /\
    exists v, me' = raft_vote v (raft_set_state RAFT_STATE_FOLLOWER me) /\ (state me = RAFT_STATE_FOLLOWER -> v = voted_for me)).
Proof.
  intros Hl Hn. unfold raft_is_candidate. apply ensures_when; intros Hb.
  - apply bool_decide_eq_true in Hb. unfold raft_become_follower. steps. split; [done|]. exists (-1). split; [done|]. by rewrite Hb.
  - apply bool_decide_eq_false in Hb. split; [done|]. exists (voted_for me). split; [|done].
    destruct me as [? ? ? ? ? st]. by destruct st.
Qed.

Lemma consistent_length l ae : (List.length (consistent l ae).2 <= List.length l)%nat.
Proof. unfold consistent. repeat case_match; simpl; rewrite ?length_take; lia. Qed.

Lemma commit_part_ensures me l ae lc :
  wf me l -> ae_leader_commit ae = Some lc ->
  ensures (ae_commit ae) me (fun me' evs _ => wf me' l /\ same_config me me' /\
    current_term me' = current_term me /\ current_idx me' = current_idx me /\ state me' = state me /\
    nodes me' = nodes me /\ votes_for_me me' = votes_for_me me /\ timeout_elapsed me' = timeout_elapsed me /\
    last_applied_idx me' = last_applied_idx me + Z.of_nat (newly_applied me l lc) /\
    evs = take (newly_applied me l lc) (pending me l) ≫= apply_event me /\
    voted_for me' = voted_for me /\ (lc <= commit_idx me -> commit_idx me' = commit_idx me)).
Proof.
  intros Hwf Hlc. eapply ensures_mono; [by apply (ae_commit_ensures me l ae lc)|]. cbn beta. intros me' evs [] H.
  assert (me' = me /\ evs = [] -> newly_applied me l lc = 0%nat -> wf me' l /\ same_config me me' /\
    current_term me' = current_term me /\ current_idx me' = current_idx me /\ state me' = state me /\
    nodes me' = nodes me /\ votes_for_me me' = votes_for_me me /\ timeout_elapsed me' = timeout_elapsed me /\
    last_applied_idx me' = last_applied_idx me + Z.of_nat (newly_applied me l lc) /\
    evs = take (newly_applied me l lc) (pending me l) ≫= apply_event me /\
    voted_for me' = voted_for me /\ (lc <= commit_idx me -> commit_idx me' = commit_idx me)) as Hnone.
  { intros [-> ->] ->. simpl. split_and!; try done. lia. }
  unfold newly_applied in *. destruct l as [|x l]; [by apply Hnone|].
  destruct (last (x :: l)) as [e|] eqn:El; [|by apply last_None in El].
  destruct (Z.ltb_spec (commit_idx me) lc); [|by apply Hnone]. destruct H as [-> ->].
  set (me1 := raft_set_commit_idx _ me). set (k := List.length (pending me (x :: l))).
  assert (wf (applied me1 k) (x :: l)) as Hwf1.
  { apply applied_wf; [destruct Hwf; by split|]. unfold k, pending. rewrite length_drop. done. }
  split; [done|]. unfold same_config. destruct k as [|k'] eqn:Ek; simpl; split_and!; try done; lia.
Qed.
(** The body of the handler after the server has stopped to lead: a refusal changes
    nothing more. *)
Lemma ae_body_refused me l ae :
  wf me l -> 0 <= ae_prev_log_idx ae < int_max -> accepts me l ae = false ->
  ensures (ae_body ae) (set_timeout_elapsed 0 me) (fun me' evs r =>
    r = (0, None, None) /\ evs = [] /\ exists lg, me' = set_log lg (stepped_down me ae) /\ RaftLog.wf lg l).
Proof.
  intros Hwf Hp Hacc. unfold ae_body. steps.
  eapply ensures_mono; [exact (step_down_ensures me ae)|]. intros me1 evs1 [] [-> ->]. simpl app. simpl current_term.
  assert (exists lg, stepped_down me ae = set_log lg (stepped_down me ae) /\ RaftLog.wf lg l) as Hsame.
  { exists (log (stepped_down me ae)). rewrite set_log_same. split; [done|]. apply (stepped_down_wf me l ae Hwf). }
  destruct (Z.ltb_spec (ae_term ae) (current_term me)); [steps; done|].
  unfold accepts in Hacc. rewrite (proj2 (Z.leb_le _ _)) in Hacc by lia. simpl in Hacc.
  step. eapply ensures_mono; [by apply (ae_consistent_ensures _ l ae (stepped_down_wf me l ae Hwf))|].
  intros me2 evs2 ok (-> & -> & lg & -> & Hlg). rewrite Hacc. cbn [negb]. cbn iota. steps. split_and!; try done.
  exists lg. split; [done|].
  replace l with (consistent l ae).2; [done|]. revert Hacc. unfold consistent. repeat case_match; simpl; done.
Qed.

Lemma ae_body_accepted me l ae es lc :
  wf me l -> valid_ae ae es lc -> accepts me l ae = true ->
  (List.length l + List.length es <= 10)%nat -> current_idx me + Z.of_nat (List.length es) <= int_max ->
  ensures (ae_body ae) (set_timeout_elapsed 0 me) (fun me' evs r =>
    let '(a, ok) := accept (ae_term ae) es in
    let l' := (consistent l ae).2 in
    follows me me' /\ wf me' (l' ++ a) /\ current_term me' = ae_term ae /\ state me' = RAFT_STATE_FOLLOWER /\
    current_idx me' = current_idx me + Z.of_nat (List.length a) /\
    last_applied_idx me' = last_applied_idx me + Z.of_nat (newly_applied me l' lc) /\
    evs = take (newly_applied me l' lc) (pending me l') ≫= apply_event me /\
    (r = if ok : bool then (1, Some (current_idx me'), Some (ae_prev_log_idx ae + 1)) else (0, None, None)) /\
    (state me = RAFT_STATE_FOLLOWER -> voted_for me' = voted_for me) /\
    (lc <= commit_idx me -> commit_idx me' = commit_idx me)).
Proof.
  intros Hwf Hv Hacc Hroom Hci. destruct Hv as [Hp Ht Hn Hes Hve Hlc]. unfold accepts in Hacc.
  apply andb_true_iff in Hacc as [Hterm Hcons]. apply Z.leb_le in Hterm. unfold ae_body. steps.
  eapply ensures_mono; [exact (step_down_ensures me ae)|]. intros me1 evs1 [] [-> ->]. simpl app. simpl current_term.
  destruct (Z.ltb_spec (ae_term ae) (current_term me)); [lia|].
  step. eapply ensures_mono; [by apply (ae_consistent_ensures _ l ae (stepped_down_wf me l ae Hwf))|].
  intros me2 evs2 ok (-> & -> & lg & -> & Hlg). rewrite Hcons. cbn [negb]. cbn iota.
  set (l' := (consistent l ae).2) in *. set (me2 := set_log lg (stepped_down me ae)).
  assert (wf me2 l') as Hwf2 by (eapply set_log_wf; [by apply stepped_down_wf|done]).
  destruct (stepped_down_keeps me ae) as ((Hsc & Hnd2 & Hvt2 & Hte2) & Hci2 & Hco2 & Hla2 & Hnl).
  step. eapply ensures_mono; [by apply (commit_part_ensures me2 l' ae lc)|]. cbn beta.
  intros me3 evs3 [] (Hwf3 & Hcfg & Htm & Hidx & Hst & Hnd & Hvt & Htm0 & Hla & -> & Hvf & Hcom). steps.
  eapply ensures_mono; [apply candidate_follows; rewrite Hst; [by apply Hnl|apply (wf_state _ _ Hwf2)]|].
  cbn beta. intros me4 evs4 [] (-> & v & -> & Hv). steps.
  set (me5 := raft_set_current_term (ae_term ae) _).
  assert (wf me5 l') as Hwf5 by (destruct Hwf3; by split).
  rewrite Hes, Hn, Nat2Z.id.
  pose proof (append_loop_ensures (List.length es) 0 es me5 l' Hwf5) as Happ. rewrite drop_0 in Happ.
  change (current_term me5) with (ae_term ae) in Happ. change (current_idx me5) with (current_idx me3) in Happ.
  assert (current_idx me3 = current_idx me) as Hidx3 by (rewrite Hidx; exact Hci2). rewrite Hidx3 in Happ.
  pose proof (consistent_length l ae) as Hll. fold l' in Hll.
  pose proof (accept_length (ae_term ae) es) as Hal.
  destruct (accept (ae_term ae) es) as [a ok]. simpl in Hal.
  eapply ensures_mono; [apply Happ; [lia|lia|done|lia|lia]|]. cbn beta.
  intros me6 evs6 r (-> & -> & lg6 & -> & Hlg6).
  set (me6 := raft_set_current_idx _ _).
  assert (wf me6 (l' ++ a)) as Hwf6
    by (pose proof (wf_idx _ _ Hwf); destruct Hwf5; split; simpl; try done; lia).
  assert (newly_applied me2 l' lc = newly_applied me l' lc) as En by (unfold newly_applied, pending, me2; simpl; by rewrite Hco2, Hla2).
  assert (pending me2 l' = pending me l') as Ep by (unfold pending, me2; simpl; by rewrite Hla2).
  assert (apply_event me2 = apply_event me) as Ee by (unfold apply_event, me2; simpl; by rewrite (proj1 (proj2 (proj2 Hsc)))).
  assert (follows me me6) as Hfw.
  { split_and!; [|by unfold me6; simpl; rewrite Hnd, <- Hnd2|by unfold me6; simpl; rewrite Hvt, <- Hvt2|by unfold me6; simpl; rewrite Htm0, <- Hte2].
    change (same_config me me3). by rewrite Hsc. }
  rewrite En, Ep, Ee. assert (last_applied_idx me2 = last_applied_idx me) as Ela by exact Hla2.
  assert (state me = RAFT_STATE_FOLLOWER -> voted_for me6 = voted_for me) as Hvote.
  { intros Hf. unfold me6. simpl. assert (stepped_down me ae = set_timeout_elapsed 0 me) as Esd
      by (unfold stepped_down, raft_is_leader; simpl; by rewrite Hf).
    rewrite Hv, Hvf; [unfold me2; by rewrite Esd|]. rewrite Hst. unfold me2. by rewrite Esd. }
  assert (lc <= commit_idx me -> commit_idx me6 = commit_idx me) as Hcomm.
  { intros Hle. unfold me6. simpl. rewrite Hcom; [exact Hco2|]. unfold me2. simpl. by rewrite Hco2. }
  destruct ok; cbn [negb]; cbn iota; steps; simpl app; rewrite ?app_nil_r; split_and!; try done;
    unfold me6; simpl; by rewrite Hla, En, Ela.
Qed.

(** The whole handler. *)
Lemma recv_appendentries_effect (me : raft_server_private_t) (l : list raft_entry_t) (node : Z)
    (ae : msg_appendentries_t) (es : list msg_entry_t) (lc : Z) :
  wf me l -> valid_ae ae es lc ->
  (List.length l + List.length es <= 10)%nat -> current_idx me + Z.of_nat (List.length es) <= int_max ->
  exists me' evs, raft_recv_appendentries node ae me = Ok (me', evs, 1) /\ ae_effect me l node ae es lc me' evs.
Proof.
  intros Hwf Hv Hroom Hci.
  assert (ensures (raft_recv_appendentries node ae) me (fun me' evs r => r = 1 /\ ae_effect me l node ae es lc me' evs)) as H.
  2:{ destruct H as (me' & evs & r & E & -> & He). eauto. }
  assert (forall me' m, follows me me' -> send node m me' = Ok (me', sent me node m, tt)) as Hsend.
  { intros me' m (Hc & _). rewrite send_eq. unfold sent. by rewrite (proj1 (proj2 (proj2 Hc))). }
  unfold raft_recv_appendentries, ae_effect. steps.
  destruct (accepts me l ae) eqn:Eacc.
  - eapply ensures_mono; [by apply (ae_body_accepted me l ae es lc)|].
    destruct (accept (ae_term ae) es) as [a ok]. cbn beta.
    intros me' evs r (Hf & Hwf' & Ht & Hs & Hi & Hla & -> & -> & Hvote & Hcomm).
    destruct ok; step; (eapply ensures_eq; [by apply Hsend|]); steps; rewrite app_nil_r; split_and!; done.
  - eapply ensures_mono; [by apply (ae_body_refused me l ae); try done; apply Hv|]. cbn beta.
    intros me' evs r (-> & -> & lg & -> & Hlg).
    destruct (stepped_down_keeps me ae) as (Hf & Hci2 & Hco2 & Hla2 & _).
    step. eapply ensures_eq; [apply Hsend; exact Hf|]. steps. rewrite app_nil_r. split; [done|]. split; [exact Hf|].
    split_and!; try done; [eapply set_log_wf; [by apply stepped_down_wf|done]| |]; simpl; unfold stepped_down;
      change (raft_is_leader (set_timeout_elapsed 0 me)) with (raft_is_leader me); simpl; by case_if.
Qed.

(** The log has an entry at the index in front of the new ones, with their term, or the
    new ones are the first. *)
Definition knows_prev (l : list raft_entry_t) (ae : msg_appendentries_t) : Prop :=
  ae_prev_log_idx ae = 0 \/
  exists e, l !! Z.to_nat (ae_prev_log_idx ae - 1) = Some e /\ e_term e = wrap_u32 (ae_prev_log_term ae).

Lemma accepts_spec me l ae : accepts me l ae = true <-> current_term me <= ae_term ae /\ knows_prev l ae.
Proof.
  unfold accepts, knows_prev, consistent. rewrite andb_true_iff, Z.leb_le. apply and_iff_compat_l.
  destruct (Z.eqb_spec (ae_prev_log_idx ae) 0) as [E|E]; [tauto|].
  destruct (l !! _) as [e|]; [|naive_solver]. destruct (Z.eqb_spec (e_term e) (wrap_u32 (ae_prev_log_term ae))); naive_solver.
Qed.

Lemma accept_all term es : Forall (fun m => m_id m <> 0) es -> accept term es = (entry_of term <$> es, true).
Proof. induction 1 as [|m es Hm Hes IH]; simpl; [done|]. by rewrite (proj2 (Z.eqb_neq _ _)), IH by done. Qed.

(** Where the new entries follow the end of the log nothing is cut. *)
Lemma consistent_end l ae : ae_prev_log_idx ae = Z.of_nat (List.length l) -> (consistent l ae).2 = l.
Proof. intros E. unfold consistent. repeat case_match; simpl; try done. apply take_ge. lia. Qed.


End RaftFacts.
