(* ===== verification/RaftElection.v ===== *)
(** * Histories of a Raft server: its invariant, its term, its elections

    The inputs of a server are the calls its user makes: the clock and the messages
    that arrive.  [keeps] is partial correctness of a relation between the states
    before and after and the callbacks in between; it needs no assumption on the
    messages. *)

From S2P Require Import Prelude RaftLog Raft RaftFacts.

Module RaftElection.
Import RaftLog Raft RaftFacts.

Inductive input : Type :=
  | Periodic (msec rnd : Z)
  | RecvAppendentries (node : Z) (ae : msg_appendentries_t)
  | RecvAppendentriesResponse (node : Z) (r : msg_appendentries_response_t)
  | RecvRequestvote (node : Z) (vr : msg_requestvote_t)
  | RecvRequestvoteResponse (node : Z) (r : msg_requestvote_response_t)
  | RecvEntry (node : Z) (e : msg_entry_t).

Definition exec (i : input) : M Z :=
  match i with
  | Periodic msec rnd => raft_periodic msec rnd
  | RecvAppendentries node ae => raft_recv_appendentries node ae
  | RecvAppendentriesResponse node r => raft_recv_appendentries_response node r
  | RecvRequestvote node vr => raft_recv_requestvote node vr
  | RecvRequestvoteResponse node r => raft_recv_requestvote_response node r
  | RecvEntry node e => raft_recv_entry node e
  end.

Fixpoint exec_all (ins : list input) : M unit :=
  match ins with
  | [] => mret tt
  | i :: ins => exec i ;; exec_all ins
  end.

(** ** Relations every handler keeps *)

Lemma raft_bind_inv {A B} (m : M A) (f : A -> M B) me me' evs b :
  (m ≫= f) me = Ok (me', evs, b) ->
  exists me1 e1 a e2, m me = Ok (me1, e1, a) /\ f a me1 = Ok (me', e2, b) /\ evs = e1 ++ e2.
Proof.
  intros H. unfold mbind, M_bind in H.
  destruct (m me) as [[[me1 e1] a]| | |] eqn:E1; try discriminate H. simpl in H.
  destruct (f a me1) as [[[me2 e2] b']| | |] eqn:E2; try discriminate H. injection H as <- <- <-. by exists me1, e1, a, e2.
Qed.

Class Composes (R : raft_server_private_t -> list event -> raft_server_private_t -> Prop) : Prop := {
  comp_nil : forall me, R me [] me;
  comp_app : forall a b c e1 e2, R a e1 b -> R b e2 c -> R a (e1 ++ e2) c
}.

Section keeps.
Context (R : raft_server_private_t -> list event -> raft_server_private_t -> Prop).

Definition keeps {A} (m : M A) : Prop :=
  forall me me' evs a, m me = Ok (me', evs, a) -> R me evs me'.

Context `{Hcomp : !Composes R}.

Lemma keeps_ret {A} (a : A) : keeps (mret a).
Proof. intros me me' evs b [= <- <- _]. apply comp_nil. Qed.

Lemma keeps_bind {A B} (m : M A) (f : A -> M B) : keeps m -> (forall a, keeps (f a)) -> keeps (m ≫= f).
Proof.
  intros Hm Hf me me' evs b (me1 & e1 & a & e2 & E1 & E2 & ->)%raft_bind_inv.
  eapply comp_app; [by eapply Hm|by eapply Hf].
Qed.

Lemma keeps_get {A} (f : raft_server_private_t -> A) : keeps (get f).
Proof. intros me me' evs b [= <- <- _]. apply comp_nil. Qed.

(** The value of a field is known in what follows. *)
Lemma keeps_get_bind {A B} (g : raft_server_private_t -> A) (f : A -> M B) :
  (forall me me' evs b, f (g me) me = Ok (me', evs, b) -> R me evs me') -> keeps (get g ≫= f).
Proof.
  intros Hf me me' evs b H. apply (Hf me me' evs b). unfold mbind, M_bind, get in H. simpl in H.
  destruct (f (g me) me) as [[[me1 e1] b1]| | |]; try discriminate H. by injection H as <- <- <-.
Qed.

Lemma keeps_lift {A} (r : res A) : keeps (lift r).
Proof. intros me me' evs b H. destruct r; try discriminate H. injection H as <- <- <-. apply comp_nil. Qed.

Lemma keeps_modify f : (forall me, R me [] (f me)) -> keeps (modify f).
Proof. intros Hf me me' evs b [= <- <- _]. apply Hf. Qed.

Lemma keeps_emit e : (forall me, R me [e] me) -> keeps (emit e).
Proof. intros He me me' evs b [= <- <- _]. apply He. Qed.

Lemma keeps_when b m : keeps m -> keeps (when b m).
Proof. intros Hm. destruct b; [done|apply keeps_ret]. Qed.

Lemma keeps_none {A} (m : M A) : (forall me, is_ok (m me) = false) -> keeps m.
Proof. intros Hm me me' evs a E. specialize (Hm me). by rewrite E in Hm. Qed.

Lemma keeps_for_loop n i body : (forall k, keeps (body k)) -> keeps (for_loop n i body).
Proof.
  intros Hb. revert i. induction n as [|n IH]; intros i; simpl; [apply keeps_ret|]. apply keeps_bind; auto.
Qed.

Lemma keeps_for_others body : (forall k, keeps (body k)) -> keeps (for_others body).
Proof.
  intros Hb. apply keeps_bind; [apply keeps_get|]. intros n. apply keeps_for_loop. intros k.
  apply keeps_bind; [apply keeps_get|]. intros my. by apply keeps_when.
Qed.

Lemma keeps_exec_all ins : (forall i, keeps (exec i)) -> keeps (exec_all ins).
Proof.
  intros H. induction ins as [|i ins IH]; simpl; [apply keeps_ret|]. by apply keeps_bind.
Qed.
End keeps.

(** ** What only grows *)

Definition is_apply (e : event) : bool := match e with Applylog _ _ => true | _ => false end.

Definition applications (evs : list event) : Z := Z.of_nat (List.length (filter (fun e => is_apply e = true) evs)).

Lemma applications_app a b : applications (a ++ b) = applications a + applications b.
Proof. unfold applications. rewrite filter_app, length_app. lia. Qed.

Record grows (me : raft_server_private_t) (evs : list event) (me' : raft_server_private_t) : Prop := {
  grows_config : same_config me me';
  grows_term : current_term me <= current_term me';
  grows_idx : current_idx me <= current_idx me';
  grows_applied : last_applied_idx me <= last_applied_idx me';
  grows_events : applications evs = (if cb_applylog (cb me) then last_applied_idx me' - last_applied_idx me else 0)
}.

#[export] Instance grows_composes : Composes grows.
Proof.
  split.
  - intros me. split; [reflexivity|lia|lia|lia|]. unfold applications. simpl. case_if; lia.
  - intros a b c e1 e2 [] []. split; [by etransitivity|lia|lia|lia|].
    rewrite applications_app, grows_events0, grows_events1.
    rewrite <- (proj1 (proj2 (proj2 grows_config0))). case_if; lia.
Qed.

(** An update of the other fields. *)
Ltac same_fields := intros; split; unfold same_config, applications; simpl; try (split_and!; done); try lia;
  try (case_if; lia).

(** The handlers already shown to keep the relation. *)
Create HintDb raft.

Ltac keep :=
  repeat first
    [ solve [auto 1 with raft nocore]
    | match goal with
      | |- keeps _ (mbind _ _) => apply keeps_bind; [apply _| |intros ?]
      | |- keeps _ (mret _) => apply keeps_ret; apply _
      | |- keeps _ (get _) => apply keeps_get; apply _
      | |- keeps _ (lift _) => apply keeps_lift; apply _
      | |- keeps _ (when _ _) => apply keeps_when; [apply _|]
      | |- keeps _ (for_others _) => apply keeps_for_others; [apply _|intros ?]
      | |- keeps _ (if ?b then _ else _) => destruct b
      | |- keeps _ (match ?p with Some _ => _ | None => _ end) => destruct p
      | |- keeps _ (let '(_, _) := ?p in _) => destruct p
      | |- keeps _ (exit _) => by apply keeps_none
      end ].

Lemma grows_modify f :
  (forall me, same_config me (f me) /\ current_term (f me) = current_term me /\ current_idx (f me) = current_idx me /\
     last_applied_idx (f me) = last_applied_idx me) -> keeps grows (modify f).
Proof.
  intros Hf. apply keeps_modify. intros me. destruct (Hf me) as (Hc & E1 & E2 & E3).
  split; [done|lia|lia|lia|]. unfold applications. simpl. case_if; lia.
Qed.

Ltac plain := apply grows_modify; intros; unfold same_config; simpl; split_and!; done.

Lemma grows_send node m : keeps grows (send node m).
Proof.
  intros me me' evs [] H. rewrite send_eq in H. injection H as <- <-.
  split; [reflexivity|lia|lia|lia|]. unfold applications, sent. destruct (cb_send (cb me)); simpl; case_if; lia.
Qed.
#[export] Hint Resolve grows_send : raft.

Lemma grows_next_get p : keeps grows (raft_node_get_next_idx p).
Proof.
  intros me me' evs a H. unfold raft_node_get_next_idx in H. destruct p as [i|]; [|done].
  apply res_bind_inv in H as (n & _ & H). injection H as <- <- <-. apply comp_nil.
Qed.
#[export] Hint Resolve grows_next_get : raft.

Lemma grows_next_set p x : keeps grows (raft_node_set_next_idx p x).
Proof.
  intros me me' evs a H. unfold raft_node_set_next_idx in H. destruct p as [i|]; [|done].
  apply res_bind_inv in H as (n & _ & H). apply res_bind_inv in H as (ns & _ & H). injection H as <- <- <-. split; simpl; try lia; [by unfold same_config|].
  unfold applications. simpl. case_if; lia.
Qed.
#[export] Hint Resolve grows_next_set : raft.

Lemma grows_send_appendentries node : keeps grows (raft_send_appendentries node).
Proof. unfold raft_send_appendentries. keep. Qed.
#[export] Hint Resolve grows_send_appendentries : raft.

Lemma grows_become_follower : keeps grows raft_become_follower.
Proof. unfold raft_become_follower. keep; plain. Qed.
#[export] Hint Resolve grows_become_follower : raft.

Lemma grows_become_leader : keeps grows raft_become_leader.
Proof. unfold raft_become_leader. keep; plain. Qed.
#[export] Hint Resolve grows_become_leader : raft.

Lemma grows_clear_votes : keeps grows clear_votes.
Proof.
  intros me me' evs a H. unfold clear_votes in H. destruct (_ <=? _); [|done]. injection H as <- <- <-.
  split; simpl; try lia; [by unfold same_config|]. unfold applications. simpl. case_if; lia.
Qed.
#[export] Hint Resolve grows_clear_votes : raft.

(** A change that is known from the state it starts in. *)
Lemma grows_chk_set {A} (g : raft_server_private_t -> Z) f (m : M A) :
  (forall me z, same_config me (f z me) /\ (g me <= z -> current_term me <= current_term (f z me) /\
     current_idx me <= current_idx (f z me)) /\ last_applied_idx (f z me) = last_applied_idx me) ->
  keeps grows m -> keeps grows (z ← (x ← get g; lift (chk (x + 1))); modify (f z) ;; m).
Proof.
  intros Hf Hm me me' evs b H.
  apply raft_bind_inv in H as (me1 & e1 & t & e2 & H1 & H & ->).
  apply raft_bind_inv in H1 as (me2 & e3 & t' & e4 & [= <- <- <-] & H2 & ->). unfold lift in H2.
  destruct (chk (g me + 1)) as [z| | |] eqn:Et; try discriminate H2. apply chk_inv in Et as [-> _].
  injection H2 as <- <- <-. apply raft_bind_inv in H as (me3 & e3 & [] & e5 & [= <- <-] & H1 & ->). simpl app.
  destruct (Hf me (g me + 1)) as (Hc & Hg & Hl). destruct Hg as [Hg1 Hg2]; [lia|].
  apply Hm in H1 as [Hc' Ht Hi Hla He]. split; [by etransitivity|lia|lia|lia|].
  rewrite He, Hl, <- (proj1 (proj2 (proj2 Hc))). done.
Qed.

Lemma grows_become_candidate rnd : keeps grows (raft_become_candidate rnd).
Proof.
  unfold raft_become_candidate. apply keeps_bind; [apply _|apply grows_clear_votes|]. intros [].
  apply (grows_chk_set current_term raft_set_current_term).
  - intros me z. unfold same_config. simpl. split_and!; done.
  - unfold raft_send_requestvote. keep; plain.
Qed.
#[export] Hint Resolve grows_become_candidate : raft.
Lemma grows_set_log l : keeps grows (modify (set_log l)).
Proof. plain. Qed.
Lemma grows_vote v : keeps grows (modify (raft_vote v)).
Proof. plain. Qed.
Lemma grows_elapsed t : keeps grows (modify (set_timeout_elapsed t)).
Proof. plain. Qed.
Lemma grows_votes v : keeps grows (modify (set_votes v)).
Proof. plain. Qed.
Lemma grows_commit c : keeps grows (modify (raft_set_commit_idx c)).
Proof. plain. Qed.
#[export] Hint Resolve grows_set_log grows_vote grows_elapsed grows_votes grows_commit : raft.

Lemma grows_append c : keeps grows (raft_append_entry c).
Proof.
  unfold raft_append_entry. apply keeps_bind; [apply _|keep|intros lg]. apply keeps_bind; [apply _|keep|intros [lg' r]].
  apply keeps_bind; [apply _|keep|intros []]. destruct (r =? 1); [|keep].
  apply (grows_chk_set current_idx raft_set_current_idx); [|keep].
  intros me z. unfold same_config. simpl. split_and!; done.
Qed.
#[export] Hint Resolve grows_append : raft.

(** An application emits its event and moves the index by one. *)
Lemma grows_apply : keeps grows raft_apply_entry.
Proof.
  intros me me' evs r H. unfold raft_apply_entry in H.
  apply raft_bind_inv in H as (me1 & e1 & t & e2 & H1 & H & ->).
  apply raft_bind_inv in H1 as (me2 & e3 & t' & e4 & [= <- <- <-] & H2 & ->). unfold lift in H2.
  destruct (chk (last_applied_idx me + 1)) as [z| | |] eqn:Et; try discriminate H2. apply chk_inv in Et as [-> _].
  injection H2 as <- <- <-. apply raft_bind_inv in H as (me3 & e3 & p & e5 & H1 & H & ->).
  apply raft_bind_inv in H1 as (me4 & e6 & lg & e7 & [= <- <- <-] & H1 & ->). unfold lift in H1.
  destruct (log_get_from_idx (log me) (last_applied_idx me + 1)); try discriminate H1. injection H1 as <- <- <-. simpl app.
  destruct a as [q|]; [|injection H as <- <- <-; apply comp_nil].
  apply raft_bind_inv in H as (me3 & e3 & [] & e8 & [= <- <-] & H & ->).
  apply raft_bind_inv in H as (me4 & e4 & ci & e9 & [= <- <- <-] & H & ->).
  apply raft_bind_inv in H as (me5 & e5 & [] & e10 & Hw & H & ->).
  assert (e5 = [] /\ same_config me me5 /\ current_term me5 = current_term me /\ current_idx me5 = current_idx me /\
    last_applied_idx me5 = last_applied_idx me + 1) as (-> & Hc & E1 & E2 & E3).
  { destruct (_ <? _); simpl in Hw; injection Hw as <- <-; by unfold same_config. }
  apply raft_bind_inv in H as (me6 & e6 & b & e11 & [= <- <- <-] & H & ->).
  apply raft_bind_inv in H as (me7 & e7 & [] & e12 & Hb & [= <- <- <-] & ->). simpl app. rewrite app_nil_r.
  assert (me7 = me5 /\ applications e7 = if cb_applylog (cb me5) then 1 else 0) as [-> Happ].
  { destruct (cb_applylog (cb me5)); simpl in Hb; [|by injection Hb as <- <-].
    apply raft_bind_inv in Hb as (me8 & e8 & e & e13 & Hr & [= <- <-] & ->).
    apply raft_bind_inv in Hr as (me9 & e9 & lg' & e14 & [= <- <- <-] & Hr & ->). unfold lift in Hr.
    destruct (entry_at (log me5) q); try discriminate Hr. by injection Hr as <- <- <-. }
  split; [done|lia|lia|lia|]. rewrite Happ, <- (proj1 (proj2 (proj2 Hc))). case_if; lia.
Qed.
#[export] Hint Resolve grows_apply : raft.
Lemma grows_periodic msec rnd : keeps grows (raft_periodic msec rnd).
Proof. unfold raft_periodic, raft_send_appendentries_all, raft_election_start. keep. Qed.

Lemma grows_mark_loop n i : keeps grows (mark_loop n i).
Proof. revert i. induction n as [|n IH]; intros i; cbn [mark_loop]; keep. Qed.
#[export] Hint Resolve grows_mark_loop : raft.

Lemma grows_commit_loop n : keeps grows (commit_loop n).
Proof. induction n as [|n IH]; cbn [commit_loop]; [by apply keeps_none|]. keep. Qed.

Lemma grows_apply_loop n : keeps grows (apply_loop n).
Proof. induction n as [|n IH]; cbn [apply_loop]; [by apply keeps_none|]. keep. Qed.
#[export] Hint Resolve grows_commit_loop grows_apply_loop : raft.

Lemma grows_append_loop n i es : keeps grows (append_loop n i es).
Proof. revert i. induction n as [|n IH]; intros i; cbn [append_loop]; keep. Qed.
#[export] Hint Resolve grows_append_loop : raft.

Lemma grows_consistent ae : keeps grows (ae_consistent ae).
Proof. unfold ae_consistent, raft_get_entry_from_idx. keep. Qed.

Lemma grows_ae_commit ae : keeps grows (ae_commit ae).
Proof. unfold ae_commit. keep. Qed.
#[export] Hint Resolve grows_consistent grows_ae_commit : raft.

(** Everything before the term is set leaves it as it is. *)
Definition keeps_term (me : raft_server_private_t) (evs : list event) (me' : raft_server_private_t) : Prop :=
  current_term me' = current_term me.

#[export] Instance keeps_term_composes : Composes keeps_term.
Proof. split; unfold keeps_term; [done|congruence]. Qed.

Lemma term_modify f : (forall me, current_term (f me) = current_term me) -> keeps keeps_term (modify f).
Proof. intros Hf. apply keeps_modify. intros me. apply Hf. Qed.

Lemma term_emit e : keeps keeps_term (emit e).
Proof. by apply keeps_emit. Qed.
#[export] Hint Resolve term_emit : raft.

Lemma term_follower : keeps keeps_term raft_become_follower.
Proof. unfold raft_become_follower. keep; by apply term_modify. Qed.

Lemma term_apply : keeps keeps_term raft_apply_entry.
Proof. unfold raft_apply_entry, raft_get_entry_from_idx. keep; by apply term_modify. Qed.
#[export] Hint Resolve term_follower term_apply : raft.

Lemma term_apply_loop n : keeps keeps_term (apply_loop n).
Proof. induction n as [|n IH]; cbn [apply_loop]; [by apply keeps_none|]. keep. Qed.

Lemma term_consistent ae : keeps keeps_term (ae_consistent ae).
Proof. unfold ae_consistent, raft_get_entry_from_idx. keep; by apply term_modify. Qed.
#[export] Hint Resolve term_apply_loop term_consistent : raft.

Lemma term_ae_commit ae : keeps keeps_term (ae_commit ae).
Proof. unfold ae_commit. keep; by apply term_modify. Qed.
#[export] Hint Resolve term_ae_commit : raft.
(** A part that leaves the term, then the rest from a state with that term. *)
Lemma grows_bind_term {A B} (m : M A) (f : A -> M B) t :
  keeps grows m -> keeps keeps_term m ->
  (forall a me me' evs b, current_term me = t -> f a me = Ok (me', evs, b) -> grows me evs me') ->
  forall me me' evs b, current_term me = t -> (m ≫= f) me = Ok (me', evs, b) -> grows me evs me'.
Proof.
  intros Hm Ht Hf me me' evs b E (me1 & e1 & a & e2 & H1 & H2 & ->)%raft_bind_inv.
  eapply comp_app; [by eapply Hm|]. eapply (Hf a); [|done]. by rewrite (Ht _ _ _ _ H1).
Qed.

Lemma grows_of_keeps {A} (m : M A) t : keeps grows m ->
  forall me me' evs b, current_term me = t -> m me = Ok (me', evs, b) -> grows me evs me'.
Proof. intros Hm me me' evs b _. apply Hm. Qed.

Lemma grows_ae_body ae : keeps grows (ae_body ae).
Proof.
  unfold ae_body. apply keeps_bind; [apply _|keep|intros lead]. apply keeps_get_bind. intros me me' evs b.
  assert (current_term me = current_term me) as E by done. revert E. generalize (current_term me) at 2 3 4. intros t.
  revert me me' evs b.
  apply grows_bind_term; [keep|keep|intros _].
  destruct (Z.ltb_spec (ae_term ae) t) as [|Hle]; [by apply grows_of_keeps; keep|].
  apply grows_bind_term; [keep|keep|intros ok].
  destruct (negb ok); [by apply grows_of_keeps; keep|].
  apply grows_bind_term; [keep|keep|intros _].
  apply grows_bind_term; [keep|keep|intros cand].
  apply grows_bind_term; [keep|keep|intros _].
  intros me me' evs b E (me1 & e1 & [] & e2 & [= <- <-] & H & ->)%raft_bind_inv.
  assert (grows (raft_set_current_term (ae_term ae) me) e2 me') as Hg by (refine ((_ : keeps grows _) _ _ _ _ H); keep).
  destruct Hg as [Hc Ht Hi Hl He]. split; [|simpl in *; lia|done|done|done].
  etransitivity; [|exact Hc]. by unfold same_config.
Qed.
#[export] Hint Resolve grows_ae_body : raft.

Lemma grows_exec i : keeps grows (exec i).
Proof.
  destruct i; cbn [exec].
  - apply grows_periodic.
  - unfold raft_recv_appendentries. keep.
  - unfold raft_recv_appendentries_response. keep.
  - unfold raft_recv_requestvote. keep.
  - unfold raft_recv_requestvote_response. keep.
    intros me me' evs x H. apply res_bind_inv in H as (v & _ & H). injection H as <- <- <-. apply comp_nil.
  - unfold raft_recv_entry, raft_send_entry_response. keep.
Qed.

(** over any history of inputs that a server survives, whatever the messages
    contain, its configuration stays, its term, its log index and the index of the
    last applied entry never decrease, and with the callback in place the entries
    are applied one by one: as many times as that index has moved. *)
Theorem raft_history_monotone (ins : list input) (me me' : raft_server_private_t) (evs : list event) :
  exec_all ins me = Ok (me', evs, tt) ->
  same_config me me' /\ current_term me <= current_term me' /\ current_idx me <= current_idx me' /\
  last_applied_idx me <= last_applied_idx me' /\
  (cb_applylog (cb me) = true -> applications evs = last_applied_idx me' - last_applied_idx me).
Proof.
  intros H. apply (keeps_exec_all grows) in H as [Hc Ht Hi Hl He]; [|apply grows_exec].
  split_and!; try done. intros Hb. by rewrite Hb in He.
Qed.
(** A cluster of three seen from node 0, with both callbacks. *)
Definition node0 : raft_server_private_t :=
  raft_set_callbacks (mk_cbs true true) (raft_set_configuration [1; 2; 3] 0 raft_new).

Lemma raft_history_monotone_witness :
  let ins := [RecvAppendentries 1 (mk_ae 2 1 0 0 1 (Some [mk_msg_entry 9 (Some [5]) 1]) (Some 0));
              RecvAppendentries 1 (mk_ae 3 1 1 2 0 (Some []) (Some 1)); Periodic 1200 17] in
  exists me' evs, exec_all ins node0 = Ok (me', evs, tt) /\ current_term node0 <= current_term me' /\
    applications evs = last_applied_idx me' - last_applied_idx node0.
Proof.
  intros ins. destruct (exec_all ins node0) as [[[me' evs] []]| | |] eqn:E; vm_compute in E; try discriminate E.
  exists me', evs. destruct (raft_history_monotone ins node0 me' evs) as (_ & Ht & _ & _ & Ha).
  - injection E as <- <-. vm_compute. reflexivity.
  - split_and!; [done|done|by apply Ha].
Defined.

(** ** The inputs a server takes *)

(** What an input has to satisfy: the fields the handler reads are present, the
    indices are indices, the entries fit in the log, the counters do not
    overflow. *)
Definition fits (me : raft_server_private_t) (l : list raft_entry_t) (i : input) : Prop :=
  match i with
  | Periodic msec rnd => 0 <= rnd /\ current_term me < int_max /\ in_int (timeout_elapsed me + msec)
  | RecvAppendentries node ae => exists es lc, valid_ae ae es lc /\
      (List.length l + List.length es <= 10)%nat /\ current_idx me + Z.of_nat (List.length es) <= int_max
  | RecvAppendentriesResponse node r =>
      if aer_success r =? 1 then
        exists first last, aer_first_idx r = Some first /\ aer_current_idx r = Some last /\ 1 <= first /\ last < int_max
      else 0 <= node < num_nodes me /\ 0 <= next_of me node <= int_max
  | RecvRequestvote node vr => True
  | RecvRequestvoteResponse node r => 0 <= node < num_nodes me /\ current_idx me < int_max
  | RecvEntry node e => m_id e = 0 \/ (List.length l < 10)%nat /\ current_idx me < int_max
  end.

Definition returns (i : input) (me : raft_server_private_t) : Prop :=
  ensures (exec i) me (fun me' _ _ => exists l', wf me' l').

(** ** Votes *)

Lemma majority_quot n v : 0 <= n -> raft_votes_is_majority n v = bool_decide (n < 2 * v /\ v <= n).
Proof.
  intros Hn. unfold raft_votes_is_majority. rewrite Z.quot_div_nonneg by lia.
  pose proof (Z.div_mod n 2 ltac:(lia)). pose proof (Z.mod_pos_bound n 2 ltac:(lia)).
  symmetry. destruct (Z.ltb_spec n v); [apply bool_decide_eq_false; lia|].
  destruct (Z.leb_spec (n / 2 + 1) v); [apply bool_decide_eq_true|apply bool_decide_eq_false]; lia.
Qed.

Definition other_votes (my : Z) (v : list Z) (i n : Z) : list Z :=
  filter (fun k => k <> my /\ v !! Z.to_nat k = Some 1) (seqZ i n).

Lemma nvotes_loop_eq n i votes my v :
  0 <= i -> i + Z.of_nat n <= Z.of_nat (List.length v) ->
  nvotes_loop n i votes my v = Ok (votes + Z.of_nat (List.length (other_votes my v i (Z.of_nat n)))).
Proof.
  revert i votes. induction n as [|n IH]; intros i votes Hi Hn; cbn [nvotes_loop]; [simpl; f_equal; lia|].
  unfold other_votes. rewrite seqZ_cons by lia. replace (Z.pred (Z.of_nat (S n))) with (Z.of_nat n) by lia.
  replace (Z.succ i) with (i + 1) by lia. rewrite filter_cons. fold (other_votes my v (i + 1) (Z.of_nat n)).
  destruct (load_in_range v i) as (x & Hx & El); [lia|].
  destruct (Z.eqb_spec my i) as [->|Hne]; cbn [mbind res_bind].
  - rewrite IH by lia. rewrite decide_False by tauto. done.
  - rewrite Hx. cbn [mbind res_bind]. rewrite IH by lia. rewrite El. f_equal.
    destruct (Z.eqb_spec x 1) as [->|Hx1]; [rewrite decide_True by auto; simpl; lia|].
    rewrite decide_False; [done|]. intros [_ [= E]]. done.
Qed.

(** The nodes whose votes count: the server itself while its own vote is for itself,
    and the others that have voted. *)
Definition voters (me : raft_server_private_t) : list Z :=
  (if voted_for me =? nodeid me then [nodeid me] else []) ++
  other_votes (nodeid me) (votes_for_me me) 0 (num_nodes me).

Lemma elem_of_other_votes my v n i :
  i ∈ other_votes my v 0 n <-> i <> my /\ 0 <= i < n /\ v !! Z.to_nat i = Some 1.
Proof. unfold other_votes. rewrite list_elem_of_filter, elem_of_seqZ. lia || intuition lia. Qed.

Lemma voters_nodup me : NoDup (voters me).
Proof.
  unfold voters. apply NoDup_app. split_and!.
  - case_if; [apply NoDup_singleton|apply NoDup_nil_2].
  - intros x Hx Ho. apply elem_of_other_votes in Ho. destruct (voted_for me =? nodeid me); [|by apply elem_of_nil in Hx].
    apply list_elem_of_singleton in Hx. tauto.
  - apply NoDup_filter, NoDup_seqZ.
Qed.

Lemma voters_nodes me i : 0 <= nodeid me < num_nodes me -> i ∈ voters me -> i ∈ seqZ 0 (num_nodes me).
Proof.
  intros Hid. unfold voters. rewrite elem_of_app, elem_of_seqZ. intros [Hi|Hi].
  - destruct (voted_for me =? nodeid me); [apply list_elem_of_singleton in Hi; lia|by apply elem_of_nil in Hi].
  - apply elem_of_other_votes in Hi. lia.
Qed.

Lemma nodup_nodes_length (l : list Z) n : 0 <= n -> NoDup l -> (forall i, i ∈ l -> i ∈ seqZ 0 n) -> Z.of_nat (List.length l) <= n.
Proof.
  intros Hn Hnd Hin. assert (List.length l <= List.length (seqZ 0 n))%nat as H.
  { apply submseteq_length. by apply NoDup_submseteq. }
  rewrite length_seqZ in H. lia.
Qed.

(** An element of the vote array per node, and a node of its own. *)
Record sized (me : raft_server_private_t) : Prop := {
  sized_votes : Z.of_nat (List.length (votes_for_me me)) = num_nodes me;
  sized_id : 0 <= nodeid me < num_nodes me
}.

Lemma wf_sized me l : wf me l -> sized me.
Proof. intros []. by split. Qed.

Lemma nvotes_sized me : sized me -> raft_get_nvotes_for_me me = Ok (Z.of_nat (List.length (voters me))).
Proof.
  intros [Hv Hid]. unfold raft_get_nvotes_for_me.
  rewrite nvotes_loop_eq by lia. cbn [mbind res_bind]. rewrite Z2Nat.id by lia. f_equal. unfold voters.
  rewrite length_app. case_if; simpl; lia.
Qed.

Lemma majority_sized me :
  sized me -> raft_votes_is_majority (num_nodes me) (Z.of_nat (List.length (voters me))) =
    bool_decide (num_nodes me < 2 * Z.of_nat (List.length (voters me))).
Proof.
  intros [_ Hid]. rewrite majority_quot by lia. apply bool_decide_ext.
  pose proof (nodup_nodes_length (voters me) (num_nodes me) ltac:(lia) (voters_nodup me)
    (fun i => voters_nodes me i ltac:(lia))). lia.
Qed.

Definition nvotes_eq me l (Hwf : wf me l) := nvotes_sized me (wf_sized me l Hwf).
Definition majority_eq me l (Hwf : wf me l) := majority_sized me (wf_sized me l Hwf).

(** Two majorities of the same nodes have a node in common. *)
Lemma majorities_intersect (n : Z) (a b : list Z) :
  0 <= n -> NoDup a -> NoDup b -> (forall i, i ∈ a -> i ∈ seqZ 0 n) -> (forall i, i ∈ b -> i ∈ seqZ 0 n) ->
  n < 2 * Z.of_nat (List.length a) -> n < 2 * Z.of_nat (List.length b) -> exists i, i ∈ a /\ i ∈ b.
Proof.
  intros Hn Ha Hb Hina Hinb Hla Hlb.
  destruct (decide (Exists (fun i => i ∈ b) a)) as [(i & H1 & H2)%Exists_exists|Hno]; [eauto|].
  exfalso. assert (NoDup (a ++ b)) as Hnd.
  { apply NoDup_app. split_and!; [done| |done]. intros x Hx Hxb. apply Hno, Exists_exists. eauto. }
  pose proof (nodup_nodes_length (a ++ b) n Hn Hnd) as Hlen. rewrite length_app in Hlen.
  assert (forall i, i ∈ a ++ b -> i ∈ seqZ 0 n) as Hin by (intros i [?|?]%elem_of_app; auto). specialize (Hlen Hin). lia.
Qed.

Lemma set_votes_wf me l v : wf me l -> Z.of_nat (List.length v) = num_nodes me -> wf (set_votes v me) l.
Proof. intros [] Hv. split; done. Qed.

(** counting the votes and comparing with half of the nodes is the test that the
    voters are a majority; two servers of the same cluster that both pass it have
    a voter in common. *)
Theorem raft_quorum_equiv (a b : raft_server_private_t) (la lb : list raft_entry_t) :
  wf a la -> wf b lb -> num_nodes a = num_nodes b ->
  (exists v, raft_get_nvotes_for_me a = Ok v /\
     raft_votes_is_majority (num_nodes a) v = bool_decide (num_nodes a < 2 * Z.of_nat (List.length (voters a)))) /\
  (forall v w, raft_get_nvotes_for_me a = Ok v -> raft_get_nvotes_for_me b = Ok w ->
     raft_votes_is_majority (num_nodes a) v = true -> raft_votes_is_majority (num_nodes b) w = true ->
     exists i, i ∈ voters a /\ i ∈ voters b).
Proof.
  intros Ha Hb En. rewrite (nvotes_eq a la Ha), (nvotes_eq b lb Hb). split.
  { eexists. split; [done|]. by eapply majority_eq. }
  intros v w [= <-] [= <-]. rewrite (majority_eq a la Ha), (majority_eq b lb Hb).
  intros Hma%bool_decide_eq_true Hmb%bool_decide_eq_true.
  pose proof (wf_id _ _ Ha). pose proof (wf_id _ _ Hb).
  apply (majorities_intersect (num_nodes a)); try apply voters_nodup; try lia.
  - intros i. apply voters_nodes. lia.
  - intros i. rewrite En. apply voters_nodes. lia.
Qed.

Lemma raft_quorum_equiv_witness :
  let c i := candidate (raft_set_configuration [1; 2; 3] i raft_new) 7 in
  let a := set_votes [0; 0; 1] (c 0) in let b := set_votes [0; 0; 1] (c 1) in
  exists i, i ∈ voters a /\ i ∈ voters b.
Proof.
  intros c a b.
  assert (forall i, 0 <= i < 3 -> wf (set_votes [0; 0; 1] (c i)) []) as Hc.
  { intros i Hi. apply set_votes_wf; [|reflexivity].
    apply (candidate_wf (raft_set_configuration [1; 2; 3] i raft_new) [] 7).
    - apply raft_new_wf; [done|vm_compute; discriminate|simpl; lia].
    - cbn. unfold int_max. lia.
    - lia. }
  destruct (raft_quorum_equiv a b [] []) as [_ H]; [apply Hc; lia|apply Hc; lia|reflexivity|].
  apply (H 2 2); reflexivity.
Defined.
(** ** One input *)

Lemma M_bind_ok {A B} (m : M A) (f : A -> M B) me me1 e1 a :
  m me = Ok (me1, e1, a) -> (m ≫= f) me = ('(me2, e2, b) ← f a me1; Ok (me2, e1 ++ e2, b)).
Proof. intros E. unfold mbind, M_bind. by rewrite E. Qed.

(** The second half of [raft_periodic]: the clock moves, and a time-out acts. *)
Definition clock (me : raft_server_private_t) (msec rnd : Z) : raft_server_private_t * list event :=
  let t := timeout_elapsed me + msec in
  let me1 := set_timeout_elapsed t me in
  if decide (state me = RAFT_STATE_LEADER) then
    if request_timeout me <=? t then
      (set_timeout_elapsed 0 me, others me ≫= (fun i => sent me i (ae_of me (next_of me i))))
    else (me1, [])
  else if election_timeout me <=? t then
    (candidate me rnd, others me ≫= (fun i => sent me i (rv_of (candidate me rnd))))
  else (me1, []).

Lemma set_elapsed_wf me l t : wf me l -> in_int t -> wf (set_timeout_elapsed t me) l.
Proof. intros [] Ht. by split. Qed.

(** [stop] is the answer of the first half: whether the server returns early. *)
Lemma periodic_eq me l msec rnd :
  wf me l -> current_term me < int_max -> in_int (timeout_elapsed me + msec) ->
  raft_periodic msec rnd me =
    (if decide (state me = RAFT_STATE_FOLLOWER /\ last_applied_idx me < commit_idx me) then
       match l !! Z.to_nat (last_applied_idx me) with
       | None => Ok (me, [], 0)
       | Some e => let '(me', evs) := clock (applied me 1) msec rnd in Ok (me', apply_event me e ++ evs, 1)
       end
     else let '(me', evs) := clock me msec rnd in Ok (me', evs, 1)).
Proof.
  intros Hwf Ht Hm.
  assert (forall m, wf m l -> current_term m < int_max -> in_int (timeout_elapsed m + msec) ->
    (t ← (t ← get timeout_elapsed; lift (chk (t + msec)));
     modify (set_timeout_elapsed t) ;;
     st ← get state;
     (if decide (st = RAFT_STATE_LEADER) then
        rt ← get request_timeout;
        when (rt <=? t) (raft_send_appendentries_all ;; modify (set_timeout_elapsed 0))
      else
        et ← get election_timeout;
        when (et <=? t) (raft_election_start rnd)) ;;
     mret 1) m = (let '(me', evs) := clock m msec rnd in Ok (me', evs, 1))) as Hclock.
  { intros m Hw Hct Hel. unfold mbind, M_bind, get, lift, modify, when. unfold mbind. simpl.
    rewrite chk_ok by done. simpl. unfold clock.
    pose proof (set_elapsed_wf m l _ Hw Hel) as Hw1.
    destruct (decide (state m = RAFT_STATE_LEADER)); simpl.
    - destruct (request_timeout m <=? timeout_elapsed m + msec); [|done].
      unfold raft_send_appendentries_all. unfold mbind. simpl. rewrite (send_all_eq _ l Hw1). simpl.
      rewrite !app_nil_r. done.
    - destruct (election_timeout m <=? timeout_elapsed m + msec); [|done].
      unfold raft_election_start. rewrite (become_candidate_eq _ l rnd Hw1) by done. simpl. rewrite app_nil_r. done. }
  unfold raft_periodic. destruct (decide (state me = RAFT_STATE_FOLLOWER)) as [Hf|Hf].
  2:{ rewrite decide_False by tauto. erewrite M_bind_ok.
      2:{ erewrite M_bind_ok by reflexivity. cbn beta. rewrite decide_False by done. done. }
      cbn iota beta. rewrite (Hclock me Hwf Ht Hm). by destruct (clock me msec rnd). }
  destruct (Z.ltb_spec (last_applied_idx me) (commit_idx me)) as [Hlt|Hge].
  2:{ rewrite decide_False by lia. erewrite M_bind_ok.
      2:{ erewrite M_bind_ok by reflexivity. cbn beta. rewrite decide_True by done. erewrite M_bind_ok by reflexivity.
          cbn beta. erewrite M_bind_ok by reflexivity. cbn beta. rewrite (proj2 (Z.ltb_ge _ _)) by done. done. }
      cbn iota beta. rewrite (Hclock me Hwf Ht Hm). by destruct (clock me msec rnd). }
  rewrite decide_True by done. pose proof (apply_entry_eq me l Hwf) as Ha.
  assert (forall m e a, raft_apply_entry me = Ok (m, e, a) ->
    (st ← get state;
     if decide (st = RAFT_STATE_FOLLOWER) then
       la ← get last_applied_idx;
       ci ← get commit_idx;
       if la <? ci then r ← raft_apply_entry; mret (r =? 0) else mret false
     else mret false) me = Ok (m, e, a =? 0)) as Hfirst.
  { intros m e a E. erewrite M_bind_ok by reflexivity. cbn beta. rewrite decide_True by done. erewrite M_bind_ok by reflexivity.
    cbn beta. erewrite M_bind_ok by reflexivity. cbn beta. rewrite (proj2 (Z.ltb_lt _ _)) by done.
    erewrite M_bind_ok by done. simpl. by rewrite app_nil_r. }
  destruct (l !! Z.to_nat (last_applied_idx me)) as [e|] eqn:El; (erewrite M_bind_ok by (by apply Hfirst)); [|done].
  change (1 =? 0) with false. cbn iota beta. apply lookup_lt_Some in El.
  rewrite Hclock; [|apply applied_wf; [done|lia]|done|done]. by destruct (clock (applied me 1) msec rnd) as [me' evs].
Qed.

Lemma clock_wf me l msec rnd :
  wf me l -> current_term me < int_max -> 0 <= rnd -> in_int (timeout_elapsed me + msec) -> wf (clock me msec rnd).1 l.
Proof.
  intros Hwf Ht Hr Hm. unfold clock. destruct (decide _); case_if; simpl; try (by apply set_elapsed_wf).
  by apply candidate_wf.
Qed.

(** The vote a request gets: one of an older term, a second one, and one from a log
    with a lower index are refused; a request of a newer term withdraws the vote
    the server has given. *)
Definition grants (me : raft_server_private_t) (vr : msg_requestvote_t) : bool :=
  negb (rv_term vr <? current_term me) &&
  ((current_term me <? rv_term vr) || (voted_for me =? -1)) && negb (rv_last_log_idx vr <? current_idx me).

Definition voted (me : raft_server_private_t) (node : Z) (vr : msg_requestvote_t) : raft_server_private_t :=
  if grants me vr then raft_vote node me
  else if current_term me <? rv_term vr then raft_vote (-1) me else me.

Lemma recv_requestvote_eq node vr me :
  raft_recv_requestvote node vr me =
    Ok (voted me node vr,
        sent me node (RAFT_MSG_REQUESTVOTE_RESPONSE (mk_rvr (current_term me) (if grants me vr then 1 else 0))), 0).
Proof.
  unfold raft_recv_requestvote. erewrite M_bind_ok by reflexivity. cbn beta.
  set (me1 := if current_term me <? rv_term vr then raft_vote (-1) me else me).
  rewrite (M_bind_ok _ _ me me1 [] tt) by (unfold when, me1; by destruct (_ <? _)).
  erewrite M_bind_ok by reflexivity. cbn beta.
  assert (((rv_term vr <? current_term me1) || negb (voted_for me1 =? -1) || (rv_last_log_idx vr <? current_idx me1)) =
    negb (grants me vr)) as ->.
  { unfold me1, grants. destruct (Z.ltb_spec (current_term me) (rv_term vr)) as [Hlt|Hge]; simpl.
    - rewrite (proj2 (Z.ltb_ge (rv_term vr) (current_term me))) by lia. simpl. by rewrite negb_involutive.
    - by destruct (rv_term vr <? current_term me), (voted_for me =? -1), (rv_last_log_idx vr <? current_idx me). }
  unfold voted. destruct (grants me vr); simpl negb; cbn iota.
  - rewrite (M_bind_ok _ _ me1 (raft_vote node me1) [] 1) by done.
    rewrite (M_bind_ok _ _ _ _ _ _ (send_eq _ _ _)). simpl. rewrite app_nil_r. unfold me1.
    by destruct (current_term me <? rv_term vr).
  - rewrite (M_bind_ok _ _ me1 me1 [] 0) by done.
    rewrite (M_bind_ok _ _ _ _ _ _ (send_eq _ _ _)). simpl. rewrite app_nil_r. unfold me1.
    by destruct (current_term me <? rv_term vr).
Qed.

Lemma voted_wf me l node vr : wf me l -> wf (voted me node vr) l.
Proof. intros []. unfold voted. repeat case_if; by split. Qed.

Definition counted (me : raft_server_private_t) (node : Z) : raft_server_private_t :=
  set_votes (<[Z.to_nat node := 1]> (votes_for_me me)) me.

Lemma counted_wf me l node : wf me l -> wf (counted me node) l.
Proof. intros Hwf. apply set_votes_wf; [done|]. rewrite length_insert. apply Hwf. Qed.

(** A granted vote is counted, and makes a leader once the voters are a majority. *)
Lemma recv_rvr_ensures me l node r :
  wf me l -> 0 <= node < num_nodes me -> current_idx me < int_max ->
  ensures (raft_recv_requestvote_response node r) me (fun me' evs res => res = 0 /\
    if decide (state me = RAFT_STATE_LEADER \/ rvr_vote_granted r <> 1) then me' = me /\ evs = []
    else if decide (num_nodes me < 2 * Z.of_nat (List.length (voters (counted me node)))) then
      leader (counted me node) me' /\ evs = others me ≫= (fun i => sent me i (ae_of me (current_idx me + 1)))
    else me' = counted me node /\ evs = []).
Proof.
  intros Hwf Hn Hci. pose proof (counted_wf me l node Hwf) as Hcw.
  pose proof (majority_eq _ l Hcw) as Hmaj. change (num_nodes (counted me node)) with (num_nodes me) in Hmaj.
  unfold raft_recv_requestvote_response. steps. unfold raft_is_leader.
  destruct (decide (state me = RAFT_STATE_LEADER \/ rvr_vote_granted r <> 1)) as [Hno|Hyes].
  { destruct (bool_decide_reflect (state me = RAFT_STATE_LEADER)); cbn iota; [steps; done|]. step. step. rewrite (proj2 (Z.ltb_lt _ _)) by lia. cbn [negb]. cbn iota. step.
    rewrite (proj2 (Z.eqb_neq _ _)) by tauto. simpl when. steps. done. }
  rewrite bool_decide_eq_false_2 by tauto. cbn iota. step. step. rewrite (proj2 (Z.ltb_lt _ _)) by lia. cbn [negb]. cbn iota. step.
  rewrite (proj2 (Z.eqb_eq _ _)) by (destruct (decide (rvr_vote_granted r = 1)); tauto). simpl when. steps.
  eapply ensures_lift; [apply store_ok; rewrite (wf_votes _ _ Hwf); lia|]. cbn beta. steps.
  fold (counted me node). eapply ensures_eq; [by rewrite (nvotes_eq _ l Hcw)|]. cbn beta. rewrite Hmaj.
  destruct (decide (num_nodes me < 2 * Z.of_nat (List.length (voters (counted me node))))) as [Hb|Hb].
  - rewrite bool_decide_eq_true_2 by done. simpl when.
    eapply ensures_mono; [apply (become_leader_ensures _ l Hcw); exact Hci|]. cbn beta.
    intros me' evs [] [Hlead ->]. steps. simpl app. rewrite app_nil_r. done.
  - rewrite bool_decide_eq_false_2 by done. simpl when. steps. done.
Qed.

(** C7: a server that satisfies its invariant returns from every input that fits it, and
    satisfies the invariant again: no handler reads or writes outside an array,
    uses a null node, overflows a counter or fails an assertion. *)
Theorem raft_handlers_total (me : raft_server_private_t) (l : list raft_entry_t) (i : input) :
  wf me l -> fits me l i -> returns i me.
Proof.
  intros Hwf Hfit. unfold returns. destruct i as [msec rnd|node ae|node r|node vr|node r|node e]; cbn [exec fits] in *.
  - destruct Hfit as (Hr & Ht & Hm). pose proof (periodic_eq me l msec rnd Hwf Ht Hm) as E.
    destruct (decide _) as [[Hf Hlt]|Hno].
    + destruct (l !! Z.to_nat (last_applied_idx me)) as [e|] eqn:El; [|by eapply ensures_eq; [exact E|]; exists l].
      apply lookup_lt_Some in El. pose proof (applied_wf me l 1 Hwf ltac:(lia)) as Hw.
      pose proof (clock_wf _ l msec rnd Hw Ht Hr Hm). destruct (clock (applied me 1) msec rnd).
      eapply ensures_eq; [exact E|]. by exists l.
    + pose proof (clock_wf _ l msec rnd Hwf Ht Hr Hm). destruct (clock me msec rnd).
      eapply ensures_eq; [exact E|]. by exists l.
  - destruct Hfit as (es & lc & Hv & Hroom & Hci).
    destruct (recv_appendentries_effect me l node ae es lc Hwf Hv Hroom Hci) as (me' & evs & E & _ & H).
    eapply ensures_eq; [exact E|]. destruct (accepts me l ae); [|by exists l; apply H].
    destruct (accept (ae_term ae) es) as [a ok]. eexists. apply H.
  - destruct (Z.eqb_spec (aer_success r) 1) as [Hs|Hs].
    + destruct Hfit as (first & last & Ef & El & H1 & H2).
      eapply ensures_mono; [by apply (recv_aer_success me l node r first last)|]. cbn beta.
      intros me' evs res (_ & lg & Hlg & Hw & -> & _). eexists. apply applied_wf; [exact Hw|].
      etransitivity; [apply run_length_le|]. unfold pending. simpl. by rewrite length_drop.
    + destruct Hfit as [Hn Hnext]. unfold next_of in Hnext.
      destruct (lookup_lt_is_Some_2 (nodes me) (Z.to_nat node)) as [n En]; [destruct Hwf; lia|]. rewrite En in Hnext.
      eapply ensures_eq; [by apply (recv_aer_failure me l node r n)|]. exists l.
      destruct Hwf; split; simpl; try done. by rewrite length_insert.
  - eapply ensures_eq; [apply recv_requestvote_eq|]. exists l. by apply voted_wf.
  - destruct Hfit as [Hn Hci]. eapply ensures_mono; [by apply (recv_rvr_ensures me l node r)|]. cbn beta.
    intros me' evs res (_ & H). exists l. destruct (decide _); [by destruct H as [-> _]|].
    destruct (decide _); [|destruct H as [-> _]; by apply counted_wf].
    destruct H as [H _]. eapply leader_wf; [|exact H]. by apply counted_wf.
  - unfold raft_recv_entry. steps. simpl app.
    assert (ensures (raft_append_entry (mk_entry (wrap_u32 (current_term me)) (m_id e) (m_data e) (m_len e) 0)) me
      (fun me' _ _ => exists l', wf me' l')) as Happ.
    { destruct (decide (m_id e = 0)) as [E0|E0].
      - eapply ensures_eq; [by apply append_refused|]. eauto.
      - destruct Hfit as [?|[Hroom Hci]]; [done|].
        eapply ensures_mono; [by apply (append_ensures me l)|]. cbn beta. intros me' evs r (_ & _ & lg & -> & Hlg).
        eexists. destruct Hwf; split; simpl; try done; lia. }
    eapply ensures_mono; [exact Happ|]. cbn beta. intros me' evs r (l' & Hwf').
    step. eapply ensures_eq; [apply send_eq|]. step. eapply ensures_eq; [by eapply send_all_eq|]. steps. eauto.
Qed.
Lemma set_callbacks_wf me l c : wf me l -> wf (raft_set_callbacks c me) l.
Proof. intros []. by split. Qed.

Lemma node0_wf : wf node0 [].
Proof. apply set_callbacks_wf, raft_new_wf; [done|vm_compute; discriminate|simpl; lia]. Qed.

Lemma raft_handlers_total_witness :
  returns (RecvEntry 2 (mk_msg_entry 4 (Some [1; 2]) 2)) node0 /\
  returns (RecvRequestvoteResponse 2 (mk_rvr 1 1)) (candidate node0 3).
Proof.
  split.
  - apply (raft_handlers_total node0 []); [apply node0_wf|]. right. split; [simpl; lia|vm_compute; reflexivity].
  - apply (raft_handlers_total (candidate node0 3) []).
    + apply candidate_wf; [apply node0_wf|vm_compute; reflexivity|lia].
    + split; [simpl; lia|vm_compute; reflexivity].
Defined.

(** ** Liveness of an election *)

Definition sum (l : list Z) : Z := foldr Z.add 0 l.

Definition granted (node : Z) : input := RecvRequestvoteResponse node (mk_rvr 0 1).

(** Nothing of the commit index is left to apply. *)
Definition idle (me : raft_server_private_t) : Prop :=
  state me <> RAFT_STATE_LEADER /\ (state me = RAFT_STATE_FOLLOWER -> commit_idx me <= last_applied_idx me).

Lemma exec_all_app a b me me1 e1 :
  exec_all a me = Ok (me1, e1, tt) ->
  exec_all (a ++ b) me = ('(me2, e2, _) ← exec_all b me1; Ok (me2, e1 ++ e2, tt)).
Proof.
  revert me me1 e1. induction a as [|i a IH]; intros me me1 e1 H; simpl.
  - injection H as <- <-. by destruct (exec_all b me) as [[[me2 e2] []]| | |].
  - cbn [exec_all] in H. apply raft_bind_inv in H as (m & e & z & e' & H1 & H2 & ->).
    rewrite (M_bind_ok _ _ _ _ _ _ H1), (IH _ _ _ H2). simpl.
    destruct (exec_all b me1) as [[[me2 e2] []]| | |]; try done. simpl. by rewrite app_assoc.
Qed.

(** Before the time-out only the clock moves. *)
Lemma ticks_wait pre rnd me l :
  wf me l -> idle me -> current_term me < int_max -> election_timeout me <= int_max -> Forall (fun m => 0 <= m) pre ->
  timeout_elapsed me + sum pre < election_timeout me ->
  exec_all (map (fun m => Periodic m rnd) pre) me = Ok (set_timeout_elapsed (timeout_elapsed me + sum pre) me, [], tt).
Proof.
  revert me. induction pre as [|m pre IH]; intros me Hwf [Hl Hc] Ht He Hpre Hsum; cbn [map exec_all sum foldr] in *.
  { rewrite Z.add_0_r. by destruct me. }
  apply Forall_cons in Hpre as [Hm Hpre]. fold (sum pre) in *.
  assert (0 <= sum pre) as Hs by (clear -Hpre; unfold sum; induction Hpre; simpl; lia).
  assert (in_int (timeout_elapsed me + m)) as Hin by (destruct (wf_elapsed _ _ Hwf); small; lia).
  erewrite M_bind_ok.
  2:{ cbn [exec]. rewrite (periodic_eq me l m rnd Hwf Ht Hin). rewrite decide_False by (intros [H1 H2]; specialize (Hc H1); lia).
      unfold clock. rewrite decide_False by done. rewrite (proj2 (Z.leb_gt _ _)) by lia. done. }
  rewrite IH; [|by apply set_elapsed_wf|done|done|done|done|simpl; lia].
  simpl. do 3 f_equal. unfold set_timeout_elapsed. simpl. f_equal. lia.
Qed.

(** A vote that had not been counted is one more. *)
Lemma voters_counted me l node :
  wf me l -> node ∈ others me -> votes_for_me me !! Z.to_nat node <> Some 1 ->
  List.length (voters (counted me node)) = S (List.length (voters me)).
Proof.
  intros Hwf [Hn Hne]%elem_of_others Hv. pose proof (wf_votes _ _ Hwf).
  apply (Permutation_length (l' := node :: voters me)). apply NoDup_Permutation.
  - apply voters_nodup.
  - constructor; [|apply voters_nodup]. unfold voters. rewrite elem_of_app. intros [Hx|Hx].
    + destruct (voted_for me =? nodeid me); [apply list_elem_of_singleton in Hx|apply elem_of_nil in Hx]; done.
    + apply elem_of_other_votes in Hx. tauto.
  - intros x. rewrite elem_of_cons. unfold voters. rewrite !elem_of_app, !elem_of_other_votes. simpl.
    destruct (decide (x = node)) as [->|Hxn].
    + rewrite list_lookup_insert_eq by lia. tauto.
    + destruct (decide (0 <= x)); [rewrite list_lookup_insert_ne by lia|]; intuition lia.
Qed.

(** Responses that reach a leader change nothing. *)
Lemma leader_ignores vs me l :
  wf me l -> state me = RAFT_STATE_LEADER -> exec_all (map granted vs) me = Ok (me, [], tt).
Proof.
  intros Hwf Hl. induction vs as [|v vs IH]; cbn [map exec_all]; [done|].
  rewrite (M_bind_ok _ _ me me [] 0); [by rewrite IH|]. cbn [exec granted]. unfold raft_recv_requestvote_response.
  erewrite M_bind_ok by reflexivity. unfold raft_is_leader. by rewrite Hl.
Qed.

Definition leads (me me' : raft_server_private_t) (evs : list event) : Prop :=
  state me' = RAFT_STATE_LEADER /\ current_term me' = current_term me /\ same_config me me' /\
  forall i, i ∈ others me -> forall ev, ev ∈ sent me i (ae_of me (current_idx me + 1)) -> ev ∈ evs.

(** Votes from others that have not been counted, enough for a majority. *)
Lemma votes_lead vs me l :
  wf me l -> state me <> RAFT_STATE_LEADER -> current_idx me < int_max ->
  NoDup vs -> (forall v, v ∈ vs -> v ∈ others me /\ votes_for_me me !! Z.to_nat v <> Some 1) ->
  2 * Z.of_nat (List.length (voters me)) <= num_nodes me ->
  num_nodes me < 2 * (Z.of_nat (List.length (voters me)) + Z.of_nat (List.length vs)) ->
  exists me' evs, exec_all (map granted vs) me = Ok (me', evs, tt) /\ leads me me' evs.
Proof.
  revert me. induction vs as [|v vs IH]; intros me Hwf Hl Hci Hnd Hvs Hmin Hmaj; [simpl in *; lia|].
  apply NoDup_cons in Hnd as [Hnv Hnd]. destruct (Hvs v) as [Hvo Hvc]; [constructor|].
  pose proof Hvo as [Hvn Hvne]%elem_of_others. pose proof (counted_wf me l v Hwf) as Hcw.
  destruct (recv_rvr_ensures me l v (mk_rvr 0 1) Hwf Hvn Hci) as (me1 & e1 & r & E & -> & H).
  cbn [map exec_all]. rewrite (M_bind_ok _ _ _ _ _ _ (E : exec (granted v) me = _)).
  rewrite decide_False in H by (simpl; intuition congruence).
  pose proof (voters_counted me l v Hwf Hvo Hvc) as Hlen. destruct (decide _) as [Hq|Hq].
  - destruct H as [Hlead ->]. rewrite (leader_ignores vs me1 l); [|by eapply leader_wf|].
    + simpl. rewrite app_nil_r. do 2 eexists. split; [done|]. destruct Hlead as (ns & -> & _).
      split_and!; [done|done|by unfold same_config|]. intros i Hi ev Hev. apply list_elem_of_bind. eauto.
    + destruct Hlead as (ns & -> & _). done.
  - destruct H as [-> ->]. destruct (IH (counted me v)) as (me' & evs & E' & Hlead); try done.
    + intros w Hw. destruct (Hvs w) as [Hwo Hwc]; [by constructor|]. split; [done|]. simpl.
      apply elem_of_others in Hwo as [Hw0 _]. rewrite list_lookup_insert_ne; [done|].
      intros Heq. assert (v = w) as -> by lia. done.
    + simpl num_nodes. lia.
    + simpl num_nodes. rewrite Hlen. simpl in Hmaj. lia.
    + rewrite E'. simpl. eauto.
Qed.

(** C17: an election succeeds.  Once the calls of [raft_periodic] add up to the election
    time-out, a server that is not leading and has applied what is committed
    starts an election in the next term and asks every other node for its vote;
    granted responses of other nodes that make a majority with its own vote make
    it the leader of that term, and it sends append entries to every other
    node. *)
Theorem raft_election_succeeds (me : raft_server_private_t) (l : list raft_entry_t)
    (pre : list Z) (msec rnd : Z) (vs : list Z) :
  wf me l -> idle me -> cb_send (cb me) = true -> current_term me < int_max -> current_idx me < int_max -> 0 <= rnd ->
  Forall (fun m => 0 <= m) pre ->
  timeout_elapsed me + sum pre < election_timeout me <= timeout_elapsed me + sum pre + msec ->
  timeout_elapsed me + sum pre + msec <= int_max ->
  NoDup vs -> (forall v, v ∈ vs -> v ∈ others me) -> 2 <= num_nodes me < 2 * (1 + Z.of_nat (List.length vs)) ->
  exists me' evs,
    exec_all (map (fun m => Periodic m rnd) (pre ++ [msec]) ++ map granted vs) me = Ok (me', evs, tt) /\
    state me' = RAFT_STATE_LEADER /\ current_term me' = current_term me + 1 /\
    forall i, i ∈ others me ->
      Send i (RAFT_MSG_REQUESTVOTE (mk_rv (current_term me + 1) None (current_idx me) None)) ∈ evs /\
      Send i (RAFT_MSG_APPENDENTRIES (mk_ae (current_term me + 1) (nodeid me) 0 (current_idx me + 1) 0 None None)) ∈ evs.
Proof.
  intros Hwf [Hl Hc] Hcb Ht Hci Hrnd Hpre Hto Hmax Hnd Hvs Hq.
  pose proof (ticks_wait pre rnd me l Hwf (conj Hl Hc) Ht ltac:(lia) Hpre ltac:(lia)) as Hwait.
  set (t := timeout_elapsed me + sum pre) in *. set (m0 := set_timeout_elapsed t me) in *.
  assert (0 <= sum pre) as Hs by (clear -Hpre; unfold sum; induction Hpre; simpl; lia).
  assert (wf m0 l) as Hw0 by (apply set_elapsed_wf; [done|]; destruct (wf_elapsed _ _ Hwf); unfold t; small; lia).
  assert (in_int (timeout_elapsed m0 + msec)) as Hin
    by (destruct (wf_elapsed _ _ Hwf); unfold m0, t in *; small; simpl; lia).
  set (c := candidate m0 rnd). set (rvs := others me ≫= (fun i => sent me i (rv_of c))).
  assert (exec_all [Periodic msec rnd] m0 = Ok (c, rvs, tt)) as Hstart.
  { cbn [exec_all]. rewrite (M_bind_ok _ _ m0 c rvs 1); [simpl; by rewrite app_nil_r|]. cbn [exec].
    rewrite (periodic_eq m0 l msec rnd Hw0 Ht Hin). rewrite decide_False by (intros [H1 H2]; specialize (Hc H1); simpl in H2; lia).
    unfold clock. rewrite decide_False by done. rewrite (proj2 (Z.leb_le _ _)) by (simpl; lia). done. }
  assert (wf c l) as Hwc by (apply candidate_wf; done).
  assert (voters c = [nodeid me]) as Hvc.
  { unfold voters, c. simpl. rewrite Z.eqb_refl. simpl. f_equal. apply elem_of_nil_inv. intros x Hx.
    apply elem_of_other_votes in Hx as (_ & _ & Hx). apply lookup_replicate in Hx as [Hx _]. discriminate Hx. }
  destruct (votes_lead vs c l) as (me' & evs & E & Hst & Htm & Hcfg & Hev); try done.
  { intros v Hv. split; [by apply Hvs|]. simpl. intros Hx. apply lookup_replicate in Hx as [Hx _]. discriminate Hx. }
  { rewrite Hvc. simpl. lia. }
  { rewrite Hvc. simpl length. simpl num_nodes. lia. }
  exists me', (rvs ++ evs). split.
  { rewrite map_app, <- app_assoc. rewrite (exec_all_app _ _ _ _ _ Hwait). cbn [map].
    rewrite (exec_all_app [Periodic msec rnd] _ _ _ _ Hstart), E. done. }
  split_and!; [done|done|]. intros i Hi. rewrite !elem_of_app. split; [left|right].
  - unfold rvs. apply list_elem_of_bind. exists i. split; [|done]. unfold sent. rewrite Hcb. by apply list_elem_of_singleton.
  - apply (Hev i Hi). unfold sent. simpl. rewrite Hcb. by apply list_elem_of_singleton.
Qed.

Lemma raft_election_succeeds_witness :
  exists me' evs,
    exec_all (map (fun m => Periodic m 77) ([400; 500] ++ [300]) ++ map granted [2]) node0 = Ok (me', evs, tt) /\
    state me' = RAFT_STATE_LEADER /\ current_term me' = 1 /\
    forall i, i ∈ others node0 ->
      Send i (RAFT_MSG_REQUESTVOTE (mk_rv 1 None 1 None)) ∈ evs /\
      Send i (RAFT_MSG_APPENDENTRIES (mk_ae 1 0 0 2 0 None None)) ∈ evs.
Proof.
  apply (raft_election_succeeds node0 [] [400; 500] 300 77 [2]); try (vm_compute; reflexivity); try (vm_compute; discriminate).
  - apply node0_wf.
  - split; [vm_compute; discriminate|vm_compute; discriminate].
  - repeat constructor; lia.
  - simpl. lia.
  - apply NoDup_singleton.
  - intros v ->%list_elem_of_singleton. apply elem_of_others. simpl. lia.
  - simpl. lia.
Defined.
End RaftElection.
