(* ===== verification/RaftNet.v ===== *)
(** * A cluster of Raft servers

    The servers of a cluster and every message they have sent; a message may be
    delivered any number of times and in any order.  The fields the sender leaves
    unwritten have any value on arrival.  A leader is backed by the votes of a
    majority, each of them granted to a request of its own; that does not make the
    leader of a term unique, because a server grants its vote without taking over
    the term of the request. *)

From S2P Require Import Prelude RaftLog Raft RaftFacts RaftElection.

Module RaftNet.
Import RaftLog Raft RaftFacts RaftElection.

(** From whom, to whom, what. *)
Definition packet : Type := Z * Z * message.

Record cluster := mk_cluster {
  servers : list raft_server_private_t;
  network : list packet
}.

Definition packets (i : Z) (evs : list event) : list packet :=
  omap (fun e => match e with Send node m => Some (i, node, m) | Applylog _ _ => None end) evs.

(** The call a packet from [src] leads to. *)
Inductive arrives (src : Z) : message -> input -> Prop :=
  | arrives_rv rv : arrives src (RAFT_MSG_REQUESTVOTE rv) (RecvRequestvote src rv)
  | arrives_rvr r : arrives src (RAFT_MSG_REQUESTVOTE_RESPONSE r) (RecvRequestvoteResponse src r)
  | arrives_ae ae lc : arrives src (RAFT_MSG_APPENDENTRIES ae)
      (RecvAppendentries src (mk_ae (ae_term ae) (ae_leader_id ae) (ae_prev_log_idx ae) (ae_prev_log_term ae)
         (ae_n_entries ae) (ae_entries ae) (Some lc)))
  | arrives_aer r : arrives src (RAFT_MSG_APPENDENTRIES_RESPONSE r) (RecvAppendentriesResponse src r).

(** What may happen to server [i]: its clock, a client's entry, a packet for it. *)
Inductive enabled (net : list packet) (i : Z) : input -> Prop :=
  | enabled_clock msec rnd : 0 <= rnd -> enabled net i (Periodic msec rnd)
  | enabled_client node e : enabled net i (RecvEntry node e)
  | enabled_packet src m inp : (src, i, m) ∈ net -> arrives src m inp -> enabled net i inp.

Definition deliver (i : Z) (inp : input) (c : cluster) : res cluster :=
  me ← load (servers c) i;
  '(me, evs, _) ← exec inp me;
  ss ← store (servers c) i me;
  Ok (mk_cluster ss (network c ++ packets i evs)).

Inductive step : cluster -> cluster -> Prop :=
  | step_deliver c c' i inp : enabled (network c) i inp -> deliver i inp c = Ok c' -> step c c'.

(** The cluster of the given addresses, all servers new. *)
Definition server0 (addrs : list Z) (i : Z) : raft_server_private_t :=
  raft_set_callbacks (mk_cbs true true) (raft_set_configuration addrs i raft_new).

Definition cluster0 (addrs : list Z) : cluster :=
  mk_cluster (server0 addrs <$> seqZ 0 (Z.of_nat (List.length addrs))) [].

Inductive reachable (addrs : list Z) : cluster -> Prop :=
  | reach_init : reachable addrs (cluster0 addrs)
  | reach_step c c' : reachable addrs c -> step c c' -> reachable addrs c'.

(** ** What the handlers do with votes *)

Definition is_vote (e : event) : bool :=
  match e with Send _ (RAFT_MSG_REQUESTVOTE_RESPONSE _) => true | _ => false end.

(** No vote is counted or answered. *)
Record no_votes (me : raft_server_private_t) (evs : list event) (me' : raft_server_private_t) : Prop := {
  nv_config : same_config me me';
  nv_length : List.length (votes_for_me me') = List.length (votes_for_me me);
  nv_votes : forall j, votes_for_me me' !! j = Some 1 -> votes_for_me me !! j = Some 1;
  nv_events : Forall (fun e => is_vote e = false) evs
}.

#[export] Instance no_votes_composes : Composes no_votes.
Proof.
  split.
  - intros me. split; [reflexivity|done|done|constructor].
  - intros a b c e1 e2 [] []. split; [by etransitivity|congruence|auto|by apply Forall_app].
Qed.

(** The same, and no server starts to lead. *)
Record calm (me : raft_server_private_t) (evs : list event) (me' : raft_server_private_t) : Prop := {
  calm_votes : no_votes me evs me';
  calm_state : state me' = RAFT_STATE_LEADER -> state me = RAFT_STATE_LEADER
}.

#[export] Instance calm_composes : Composes calm.
Proof.
  split.
  - intros me. split; [apply comp_nil|done].
  - intros a b c e1 e2 [] []. split; [by eapply comp_app|auto].
Qed.
Lemma no_votes_modify f :
  (forall me, same_config me (f me) /\ votes_for_me (f me) = votes_for_me me) -> keeps no_votes (modify f).
Proof.
  intros Hf. apply keeps_modify. intros me. destruct (Hf me) as [Hc E]. split; [done|by rewrite E|by rewrite E|constructor].
Qed.

Lemma calm_modify f :
  (forall me, same_config me (f me) /\ votes_for_me (f me) = votes_for_me me /\
     (state (f me) = RAFT_STATE_LEADER -> state me = RAFT_STATE_LEADER)) -> keeps calm (modify f).
Proof.
  intros Hf. apply keeps_modify. intros me. destruct (Hf me) as (Hc & E & Hs).
  split; [|done]. split; [done|by rewrite E|by rewrite E|constructor].
Qed.

Ltac calmly := first [apply calm_modify | apply no_votes_modify]; intros; unfold same_config; simpl; split_and!; done.

Lemma calm_no_votes {A} (m : M A) : keeps calm m -> keeps no_votes m.
Proof. intros Hm me me' evs a E. by apply Hm in E as []. Qed.

Lemma calm_send node m : is_vote (Send node m) = false -> keeps calm (send node m).
Proof.
  intros Hm me me' evs [] H. rewrite send_eq in H. injection H as <- <-.
  split; [|done]. split; [reflexivity|done|done|]. unfold sent. case_if; by repeat constructor.
Qed.

Lemma calm_send_rv node : keeps calm (raft_send_requestvote node).
Proof. unfold raft_send_requestvote. keep. by apply calm_send. Qed.

Lemma calm_next_get p : keeps calm (raft_node_get_next_idx p).
Proof.
  intros me me' evs a H. unfold raft_node_get_next_idx in H. destruct p as [i|]; [|done].
  apply res_bind_inv in H as (n & _ & H). injection H as <- <- <-. apply comp_nil.
Qed.

Lemma calm_next_set p x : keeps calm (raft_node_set_next_idx p x).
Proof.
  intros me me' evs a H. unfold raft_node_set_next_idx in H. destruct p as [i|]; [|done].
  apply res_bind_inv in H as (n & _ & H). apply res_bind_inv in H as (ns & _ & H). injection H as <- <- <-.
  split; [|done]. split; [by unfold same_config|done|done|constructor].
Qed.
#[export] Hint Resolve calm_send_rv calm_next_get calm_next_set : raft.

Lemma calm_send_appendentries node : keeps calm (raft_send_appendentries node).
Proof. unfold raft_send_appendentries. keep. by apply calm_send. Qed.
#[export] Hint Resolve calm_send_appendentries : raft.

Lemma calm_become_follower : keeps calm raft_become_follower.
Proof. unfold raft_become_follower. keep; calmly. Qed.
#[export] Hint Resolve calm_become_follower : raft.

Lemma no_votes_become_leader : keeps no_votes raft_become_leader.
Proof.
  unfold raft_become_leader. keep; try calmly; apply calm_no_votes; auto with raft.
Qed.

Lemma calm_clear_votes : keeps calm clear_votes.
Proof.
  intros me me' evs a H. unfold clear_votes in H. destruct (Z.leb_spec (num_nodes me) (Z.of_nat (List.length (votes_for_me me)))) as [Hle|]; [|done].
  injection H as <- <- <-. split; [|done]. split; [by unfold same_config| | |constructor]; simpl.
  - rewrite length_app, length_replicate, length_drop. lia.
  - intros j Hj. apply lookup_app_Some in Hj as [Hj|[Hlen Hj]].
    + apply lookup_replicate in Hj as [? _]. done.
    + rewrite length_replicate in *. rewrite lookup_drop in Hj. rewrite <- Hj. f_equal. lia.
Qed.
#[export] Hint Resolve calm_clear_votes : raft.

Lemma calm_become_candidate rnd : keeps calm (raft_become_candidate rnd).
Proof. unfold raft_become_candidate. keep; calmly. Qed.
#[export] Hint Resolve calm_become_candidate : raft.

Lemma calm_append c : keeps calm (raft_append_entry c).
Proof. unfold raft_append_entry. keep; calmly. Qed.

Lemma calm_emit_apply d n : keeps calm (emit (Applylog d n)).
Proof. apply keeps_emit. intros me. split; [|done]. split; [reflexivity|done|done|by repeat constructor]. Qed.
#[export] Hint Resolve calm_append calm_emit_apply : raft.

Lemma calm_apply : keeps calm raft_apply_entry.
Proof. unfold raft_apply_entry, raft_get_entry_from_idx. keep; calmly. Qed.
#[export] Hint Resolve calm_apply : raft.

Lemma calm_periodic msec rnd : keeps calm (raft_periodic msec rnd).
Proof. unfold raft_periodic, raft_send_appendentries_all, raft_election_start. keep; calmly. Qed.

Lemma calm_mark_loop n i : keeps calm (mark_loop n i).
Proof. revert i. induction n as [|n IH]; intros i; cbn [mark_loop]; keep; calmly. Qed.

Lemma calm_commit_loop n : keeps calm (commit_loop n).
Proof. induction n as [|n IH]; cbn [commit_loop]; [by apply keeps_none|]. keep. Qed.

Lemma calm_apply_loop n : keeps calm (apply_loop n).
Proof. induction n as [|n IH]; cbn [apply_loop]; [by apply keeps_none|]. keep. Qed.

Lemma calm_append_loop n i es : keeps calm (append_loop n i es).
Proof. revert i. induction n as [|n IH]; intros i; cbn [append_loop]; keep. Qed.
#[export] Hint Resolve calm_mark_loop calm_commit_loop calm_apply_loop calm_append_loop : raft.

Lemma calm_ae_body ae : keeps calm (ae_body ae).
Proof. unfold ae_body, ae_consistent, ae_commit, raft_get_entry_from_idx. keep; calmly. Qed.
#[export] Hint Resolve calm_ae_body : raft.

Lemma calm_recv_ae node ae : keeps calm (raft_recv_appendentries node ae).
Proof. unfold raft_recv_appendentries. keep; first [calmly | by apply calm_send]. Qed.

Lemma calm_recv_aer node r : keeps calm (raft_recv_appendentries_response node r).
Proof. unfold raft_recv_appendentries_response. keep. Qed.

Lemma calm_recv_entry node e : keeps calm (raft_recv_entry node e).
Proof. unfold raft_recv_entry, raft_send_entry_response. keep. by apply calm_send. Qed.
(** A response to a request for a vote: a granted one is counted, and the server
    leads from then on only with a majority of voters. *)
Lemma recv_rvr_votes node r me me' evs z :
  raft_recv_requestvote_response node r me = Ok (me', evs, z) -> sized me ->
  calm me evs me' \/
  rvr_vote_granted r = 1 /\ 0 <= node /\ no_votes (counted me node) evs me' /\
  (state me' = RAFT_STATE_LEADER -> state me = RAFT_STATE_LEADER \/
     num_nodes me < 2 * Z.of_nat (List.length (voters (counted me node)))).
Proof.
  intros H Hs. unfold raft_recv_requestvote_response in H.
  apply raft_bind_inv in H as (m1 & e1 & lead & e2 & [= <- <- <-] & H & ->).
  destruct (raft_is_leader me); [injection H as <- <- <-; left; apply comp_nil|].
  apply raft_bind_inv in H as (m2 & e3 & n & e4 & [= <- <- <-] & H & ->).
  destruct (negb (node <? num_nodes me)); [done|].
  apply raft_bind_inv in H as (m3 & e5 & [] & e6 & H & [= <- <- <-] & ->). simpl app. rewrite app_nil_r.
  unfold when in H. destruct (Z.eqb_spec (rvr_vote_granted r) 1) as [Hg|Hg]; [|injection H as <- <-; left; apply comp_nil].
  apply raft_bind_inv in H as (m4 & e7 & v & e8 & H1 & H & ->).
  apply raft_bind_inv in H1 as (m5 & e9 & v0 & e10 & [= <- <- <-] & H1 & ->). unfold lift in H1.
  destruct (store (votes_for_me me) node 1) as [v1| | |] eqn:Es; try discriminate H1.
  apply store_inv in Es as [Hr ->]. injection H1 as <- <- <-.
  apply raft_bind_inv in H as (m6 & e11 & [] & e12 & [= <- <-] & H & ->). fold (counted me node) in H.
  assert (sized (counted me node)) as Hsc by (destruct Hs; split; simpl; rewrite ?length_insert; done).
  apply raft_bind_inv in H as (m7 & e13 & votes & e14 & H1 & H & ->). rewrite (nvotes_sized _ Hsc) in H1. injection H1 as <- <- <-.
  right. split_and!; [done|lia| |].
  - simpl app. pose proof (majority_sized _ Hsc) as Hm. simpl num_nodes in Hm. rewrite Hm in H.
    case_bool_decide; [by apply no_votes_become_leader in H|injection H as <- <-; apply comp_nil].
  - pose proof (majority_sized _ Hsc) as Hm. simpl num_nodes in Hm. rewrite Hm in H.
    case_bool_decide as Hb; [auto|]. injection H as <- <-. auto.
Qed.

(** ** The votes behind a leader *)

(** Node [j] answered a request of [i] with its vote. *)
Definition granted_to (net : list packet) (i j : Z) : Prop :=
  (exists t, (j, i, RAFT_MSG_REQUESTVOTE_RESPONSE (mk_rvr t 1)) ∈ net) /\
  (exists rv, (i, j, RAFT_MSG_REQUESTVOTE rv) ∈ net).

Definition backed (n : Z) (net : list packet) (i : Z) : Prop :=
  exists vs, NoDup vs /\ (forall j, j ∈ vs -> 0 <= j < n /\ (j = i \/ granted_to net i j)) /\
    n < 2 * Z.of_nat (List.length vs).

(** What holds of server [i]: the votes it counts were granted, and so was a majority
    when it leads. *)
Record server_inv (n : Z) (net : list packet) (i : Z) (me : raft_server_private_t) : Prop := {
  si_sized : sized me;
  si_id : nodeid me = i;
  si_num : num_nodes me = n;
  si_votes : forall j, 0 <= j -> votes_for_me me !! Z.to_nat j = Some 1 -> granted_to net i j;
  si_leader : state me = RAFT_STATE_LEADER -> backed n net i
}.

Record cluster_inv (n : Z) (c : cluster) : Prop := {
  ci_servers : Z.of_nat (List.length (servers c)) = n;
  ci_each : forall i me, servers c !! Z.to_nat i = Some me -> 0 <= i -> server_inv n (network c) i me;
  ci_asked : forall i j r, (j, i, RAFT_MSG_REQUESTVOTE_RESPONSE r) ∈ network c ->
    exists rv, (i, j, RAFT_MSG_REQUESTVOTE rv) ∈ network c
}.

Lemma granted_mono net net' i j : granted_to net i j -> net ⊆ net' -> granted_to net' i j.
Proof. intros [[t Ht] [rv Hrv]] Hsub. split; eauto. Qed.

Lemma server_inv_mono n net net' i me : server_inv n net i me -> net ⊆ net' -> server_inv n net' i me.
Proof.
  intros [Hs Hid Hn Hv Hl] Hsub. split; try done.
  - intros j Hj Hlk. eauto using granted_mono.
  - intros Hst. destruct (Hl Hst) as (vs & Hnd & Hin & Hmaj). exists vs. split_and!; try done.
    intros j Hj. destruct (Hin j Hj) as [? [?|?]]; eauto using granted_mono.
Qed.

Lemma packets_votes i evs : Forall (fun e => is_vote e = false) evs ->
  forall s j r, (s, j, RAFT_MSG_REQUESTVOTE_RESPONSE r) ∉ packets i evs.
Proof.
  intros Hall s j r (e & He & Hp)%list_elem_of_omap. rewrite Forall_forall in Hall. specialize (Hall e He).
  destruct e as [node m|]; [|done]. injection Hp as -> -> ->. done.
Qed.

(** A step that neither counts nor answers a vote. *)
Lemma calm_inv n net i me evs me' :
  server_inv n net i me -> calm me evs me' -> server_inv n net i me'.
Proof.
  intros [[Hl Hid] Ei En Hv Hlead] [[Hc Hlen Hvotes _] Hst]. destruct Hc as (E1 & E2 & _).
  split; [split; [by rewrite Hlen, <- E2|by rewrite <- E1, <- E2]|congruence|congruence| |auto]. auto.
Qed.
(** A granted vote that has been asked for may be counted. *)
Lemma counted_votes n net i me src :
  server_inv n net i me -> granted_to net i src -> 0 <= src ->
  forall j, 0 <= j -> votes_for_me (counted me src) !! Z.to_nat j = Some 1 -> granted_to net i j.
Proof.
  intros Hinv Hg Hsrc j Hj Hlk. simpl in Hlk. destruct (decide (j = src)) as [->|Hne]; [done|].
  rewrite list_lookup_insert_ne in Hlk by lia. by eapply si_votes.
Qed.

Lemma voters_backed n net i me src :
  server_inv n net i me -> granted_to net i src -> 0 <= src ->
  num_nodes me < 2 * Z.of_nat (List.length (voters (counted me src))) -> backed n net i.
Proof.
  intros Hinv Hg Hsrc Hmaj. exists (voters (counted me src)).
  pose proof (si_id _ _ _ _ Hinv) as Ei. pose proof (si_num _ _ _ _ Hinv) as En. destruct (si_sized _ _ _ _ Hinv) as [_ Hid].
  split_and!; [apply voters_nodup| |congruence]. intros j Hj.
  pose proof (voters_nodes (counted me src) j Hid Hj) as Hr%elem_of_seqZ. simpl in Hr. split; [lia|].
  unfold voters in Hj. apply elem_of_app in Hj as [Hj|Hj].
  - simpl in Hj. destruct (voted_for me =? nodeid me); [apply list_elem_of_singleton in Hj; left; congruence|by apply elem_of_nil in Hj].
  - apply elem_of_other_votes in Hj as (_ & Hj0 & Hj). right. eapply (counted_votes n net i me src); [done..|lia|done].
Qed.

(** What one input does to the server and to the network. *)
Lemma exec_inv n c i inp me me' evs z :
  cluster_inv n c -> enabled (network c) i inp -> server_inv n (network c) i me ->
  exec inp me = Ok (me', evs, z) ->
  server_inv n (network c) i me' /\
  forall s j r, (s, j, RAFT_MSG_REQUESTVOTE_RESPONSE r) ∈ packets i evs ->
    s = i /\ exists rv, (j, i, RAFT_MSG_REQUESTVOTE rv) ∈ network c.
Proof.
  intros Hc Hen Hinv E.
  assert (calm me evs me' -> server_inv n (network c) i me' /\
    forall s j r, (s, j, RAFT_MSG_REQUESTVOTE_RESPONSE r) ∈ packets i evs ->
      s = i /\ exists rv, (j, i, RAFT_MSG_REQUESTVOTE rv) ∈ network c) as Hcalm.
  { intros Hcm. split; [by eapply calm_inv|]. intros s j r Hp. exfalso. eapply packets_votes; [|exact Hp]. apply Hcm. }
  destruct Hen as [msec rnd _|node e|src m inp Hnet Harr]; cbn [exec] in E.
  - by apply calm_periodic in E; apply Hcalm.
  - by apply calm_recv_entry in E; apply Hcalm.
  - destruct Harr as [rv|r|ae lc|r]; cbn [exec] in E.
    + rewrite recv_requestvote_eq in E. injection E as <- <- _. split.
      * destruct Hinv as [Hs Hid Hn Hv Hl]. unfold voted. repeat case_if; split; try done; destruct Hs; by split.
      * intros s j r Hp. unfold sent in Hp. destruct (cb_send (cb me)); [|by apply elem_of_nil in Hp].
        apply list_elem_of_singleton in Hp. injection Hp as -> -> ->. eauto.
    + destruct (recv_rvr_votes src r me me' evs z E (si_sized _ _ _ _ Hinv)) as [Hcm|(Hg & Hsrc & Hnv & Hlead)]; [by apply Hcalm|].
      assert (granted_to (network c) i src) as Hgr.
      { split; [|by eapply ci_asked]. exists (rvr_term r). destruct r as [t g]. simpl in Hg. by subst g. }
      split; [|intros s j x Hp; exfalso; eapply packets_votes; [|exact Hp]; apply Hnv].
      pose proof (si_num _ _ _ _ Hinv) as En. pose proof (si_id _ _ _ _ Hinv) as Eid.
      destruct Hnv as [(E1 & E2 & _) Hlen Hvotes _]. simpl in *. rewrite length_insert in Hlen.
      destruct (si_sized _ _ _ _ Hinv) as [Hl Hid].
      split; [split; [by rewrite Hlen, <- E2|by rewrite <- E1, <- E2]|congruence|congruence| |].
      * intros j Hj Hlk. eapply (counted_votes n (network c) i me src); [done..|]. by apply Hvotes.
      * intros Hst. destruct (Hlead Hst) as [Hold|Hmaj]; [by apply (si_leader _ _ _ _ Hinv)|].
        by eapply voters_backed.
    + by apply calm_recv_ae in E; apply Hcalm.
    + by apply calm_recv_aer in E; apply Hcalm.
Qed.

Lemma step_inv n c c' : cluster_inv n c -> step c c' -> cluster_inv n c'.
Proof.
  intros Hc Hstep. destruct Hstep as [c c' i inp Hen Hd]. unfold deliver in Hd.
  apply res_bind_inv in Hd as (me & Hl & Hd). apply load_inv in Hl as [Hi Hl].
  apply res_bind_inv in Hd as ([[me' evs] z] & Hex & Hd). apply res_bind_inv in Hd as (ss & Hst & Hd).
  apply store_inv in Hst as [_ ->]. injection Hd as <-.
  pose proof (ci_each _ _ Hc i me Hl ltac:(lia)) as Hinv.
  destruct (exec_inv n c i inp me me' evs z Hc Hen Hinv Hex) as [Hinv' Hasked].
  assert (network c ⊆ network c ++ packets i evs) as Hsub by set_solver.
  split; simpl.
  - rewrite length_insert. apply Hc.
  - intros k mk Hk Hk0. destruct (decide (k = i)) as [->|Hne].
    + rewrite list_lookup_insert_eq in Hk by lia. injection Hk as <-. by eapply server_inv_mono.
    + rewrite list_lookup_insert_ne in Hk by lia. eapply server_inv_mono; [by eapply ci_each|done].
  - intros a b r [Hp|Hp]%elem_of_app.
    + destruct (ci_asked _ _ Hc a b r Hp) as [rv Hrv]. exists rv. apply Hsub, Hrv.
    + destruct (Hasked b a r Hp) as [-> [rv Hrv]]. exists rv. apply Hsub, Hrv.
Qed.

(** A new server has counted no vote. *)
Lemma server0_fields addrs i :
  let me := server0 addrs i in
  nodeid me = i /\ num_nodes me = Z.of_nat (List.length addrs) /\ votes_for_me me = replicate (List.length addrs) 0 /\
  state me = RAFT_STATE_FOLLOWER.
Proof.
  assert (forall as_ n me, num_nodes me = n -> 0 <= n ->
    let '(me', n') := configure_loop as_ n me in
    num_nodes me' = n' /\ n' = n + Z.of_nat (List.length as_) /\ state me' = state me) as H.
  { intros as_. induction as_ as [|a as_ IH]; intros n me Hn H0; simpl configure_loop; [simpl; split_and!; try done; lia|].
    specialize (IH (n + 1) (set_nodes (take (Z.to_nat n) (nodes me) ++ [raft_node_new a]) (set_num_nodes (n + 1) me))).
    destruct (configure_loop as_ _ _) as [me' n']. simpl in IH. destruct IH as (? & ? & ?); [done|lia|].
    simpl length. split_and!; try done. lia. }
  unfold server0, raft_set_configuration. specialize (H addrs 0 raft_new eq_refl ltac:(lia)).
  destruct (configure_loop addrs 0 raft_new) as [me n]. destruct H as (Hn & -> & Hs). simpl.
  split_and!; try done. f_equal. lia.
Qed.

Lemma init_inv addrs : cluster_inv (Z.of_nat (List.length addrs)) (cluster0 addrs).
Proof.
  split; simpl; [by rewrite length_fmap, length_seqZ, Nat2Z.id| |intros i j r Hp; by apply elem_of_nil in Hp].
  intros i me Hl Hi. apply list_lookup_fmap_Some in Hl as (k & -> & Hk). apply lookup_seqZ in Hk as [-> Hlt].
  replace (0 + Z.of_nat (Z.to_nat i)) with i by lia. destruct (server0_fields addrs i) as (E1 & E2 & E3 & E4).
  split; [split| | | |]; rewrite ?E1, ?E2, ?E3, ?E4; try done; [by rewrite length_replicate|lia|].
  intros j Hj Hx. apply lookup_replicate in Hx as [Hx _]. discriminate Hx.
Qed.

(** C8: in every state a cluster can reach, a server that leads is backed by a majority of
    the nodes: each of them is the server itself, or has answered a request for a
    vote that the server sent it with a granted vote.  Messages may be lost,
    repeated and reordered. *)
Theorem raft_leader_backed (addrs : list Z) (c : cluster) (i : Z) (me : raft_server_private_t) :
  reachable addrs c -> 0 <= i -> servers c !! Z.to_nat i = Some me -> state me = RAFT_STATE_LEADER ->
  backed (Z.of_nat (List.length addrs)) (network c) i.
Proof.
  intros Hr Hi Hl Hst.
  assert (cluster_inv (Z.of_nat (List.length addrs)) c) as Hc.
  { clear -Hr. induction Hr as [|c c' _ IH Hs]; [apply init_inv|]. by eapply step_inv. }
  eapply si_leader; [by eapply ci_each|done].
Qed.
(** ** Runs of a cluster *)

(** A move of the schedule: the clock of a server, an entry of a client, or the
    [k]-th packet with the value [lc] for a commit index nobody wrote. *)
Inductive move : Type :=
  | Clock (i msec rnd : Z)
  | Client (i : Z) (e : msg_entry_t)
  | Packet (k : nat) (lc : Z).

Definition arrival (src : Z) (m : message) (lc : Z) : option input :=
  match m with
  | RAFT_MSG_REQUESTVOTE rv => Some (RecvRequestvote src rv)
  | RAFT_MSG_REQUESTVOTE_RESPONSE r => Some (RecvRequestvoteResponse src r)
  | RAFT_MSG_APPENDENTRIES ae =>
      Some (RecvAppendentries src (mk_ae (ae_term ae) (ae_leader_id ae) (ae_prev_log_idx ae) (ae_prev_log_term ae)
         (ae_n_entries ae) (ae_entries ae) (Some lc)))
  | RAFT_MSG_APPENDENTRIES_RESPONSE r => Some (RecvAppendentriesResponse src r)
  | RAFT_MSG_ENTRY_RESPONSE _ => None
  end.

Definition play_move (mv : move) (c : cluster) : option cluster :=
  let go i inp := match deliver i inp c with Ok c' => Some c' | _ => None end in
  match mv with
  | Clock i msec rnd => if 0 <=? rnd then go i (Periodic msec rnd) else None
  | Client i e => go i (RecvEntry (-1) e)
  | Packet k lc =>
      '(src, dst, m) ← network c !! k;
      inp ← arrival src m lc;
      go dst inp
  end.

Fixpoint play (mvs : list move) (c : cluster) : option cluster :=
  match mvs with
  | [] => Some c
  | mv :: mvs => c' ← play_move mv c; play mvs c'
  end.

Lemma play_move_step mv c c' : play_move mv c = Some c' -> step c c'.
Proof.
  assert (forall i inp, match deliver i inp c with Ok c' => Some c' | _ => None end = Some c' -> deliver i inp c = Ok c') as Hgo.
  { intros i inp. destruct (deliver i inp c); try done. by intros [= ->]. }
  intros H. unfold play_move in H. destruct mv as [i msec rnd|i e|k lc].
  - destruct (Z.leb_spec 0 rnd); [|done]. econstructor; [by apply enabled_clock|by apply Hgo].
  - econstructor; [apply enabled_client|by apply Hgo].
  - destruct (network c !! k) as [[[src dst] m]|] eqn:Ek; [|done]. simpl in H.
    destruct (arrival src m lc) as [inp|] eqn:Ea; [|done]. simpl in H.
    econstructor; [|by apply Hgo]. eapply enabled_packet; [by eapply list_elem_of_lookup_2|].
    destruct m; simpl in Ea; try discriminate Ea; injection Ea as <-; constructor.
Qed.

Lemma play_reachable addrs mvs c c' : reachable addrs c -> play mvs c = Some c' -> reachable addrs c'.
Proof.
  revert c. induction mvs as [|mv mvs IH]; intros c Hr H; simpl in H; [by injection H as <-|].
  destruct (play_move mv c) as [c1|] eqn:E; [|done]. eapply IH; [|done]. eapply reach_step; [done|by eapply play_move_step].
Qed.

(** Nodes 0 and 1 time out; node 2 answers both. *)
Definition split_vote : list move :=
  [Clock 0 1000 3; Clock 1 1000 4; Packet 1 0; Packet 3 0; Packet 4 0; Packet 5 0].

(** Where a schedule takes the cluster of three. *)
Definition outcome (mvs : list move) : option cluster := play mvs (cluster0 [1; 2; 3]).
Definition final (mvs : list move) : cluster := default (cluster0 [1; 2; 3]) (outcome mvs).

Lemma final_reachable mvs : bool_decide (is_Some (outcome mvs)) = true -> reachable [1; 2; 3] (final mvs).
Proof.
  intros [c E]%bool_decide_eq_true. unfold final. rewrite E. simpl. eapply play_reachable; [apply reach_init|exact E].
Qed.

Definition server_at (c : cluster) (i : nat) : raft_server_private_t := default raft_new (servers c !! i).
Lemma raft_leader_backed_witness :
  backed 3 (network (final [Clock 0 1000 3; Packet 1 0; Packet 2 0])) 0.
Proof.
  apply (raft_leader_backed [1; 2; 3] _ 0 (server_at (final [Clock 0 1000 3; Packet 1 0; Packet 2 0]) 0)).
  - apply final_reachable. vm_compute. reflexivity.
  - lia.
  - vm_compute. reflexivity.
  - vm_compute. reflexivity.
Defined.

(** C40: the leader of a term is not unique.  A server that grants a vote for a newer term
    keeps its own term, so the next request of that newer term resets the vote and
    is granted too: in a cluster of three, where nodes 0 and 1 time out together,
    node 2 votes for both and both lead term 1. *)
Theorem raft_two_leaders_one_term :
  exists c a b, reachable [1; 2; 3] c /\ servers c !! 0%nat = Some a /\ servers c !! 1%nat = Some b /\
    state a = RAFT_STATE_LEADER /\ state b = RAFT_STATE_LEADER /\ current_term a = 1 /\ current_term b = 1.
Proof.
  exists (final split_vote), (server_at (final split_vote) 0), (server_at (final split_vote) 1).
  split; [apply final_reachable; vm_compute; reflexivity|]. split_and!; vm_compute; reflexivity.
Qed.

(** Node 0 is elected with the vote of node 1, takes an entry from a client, and gets
    the answer of node 1 to the append entries message that follows. *)
Definition one_answer : list move :=
  [Clock 0 1000 3; Packet 0 0; Packet 2 0; Client 0 (mk_msg_entry 9 (Some [5]) 1); Packet 6 0; Packet 8 0].

(** an entry is committed that no other server has.  The append entries messages of a
    server carry no entries, and a follower with an empty log answers that it has
    reached index 1, because the index starts there; the leader takes this for its
    first entry and applies it. *)
Theorem raft_commits_unreplicated :
  exists c a, reachable [1; 2; 3] c /\ servers c !! 0%nat = Some a /\
    last_applied_idx a = 1 /\ commit_idx a = 1 /\
    forall i b, servers c !! i = Some b -> i <> 0%nat -> raft_get_log_count b = 0.
Proof.
  exists (final one_answer), (server_at (final one_answer) 0).
  split; [apply final_reachable; vm_compute; reflexivity|]. split_and!; [vm_compute; reflexivity..|].
  assert (forallb (fun b => raft_get_log_count b =? 0) (drop 1 (servers (final one_answer))) = true) as Hall
    by (vm_compute; reflexivity).
  intros i b Hb Hi. apply Z.eqb_eq. rewrite forallb_forall in Hall. apply Hall. apply list_elem_of_In.
  apply list_elem_of_lookup_2 with (i - 1)%nat. rewrite lookup_drop. rewrite <- Hb. f_equal. lia.
Qed.

(** a follower whose commit index is beyond its log never starts an election:
    [raft_periodic] returns before the clock moves, however often it is called. *)
Theorem raft_follower_stuck (me : raft_server_private_t) (l : list raft_entry_t) (ticks : list (Z * Z)) :
  wf me l -> state me = RAFT_STATE_FOLLOWER -> Z.of_nat (List.length l) <= last_applied_idx me < commit_idx me ->
  exec_all (map (fun t => Periodic t.1 t.2) ticks) me = Ok (me, [], tt).
Proof.
  intros Hwf Hf Hla. induction ticks as [|[msec rnd] ticks IH]; cbn [map exec_all]; [done|].
  rewrite (M_bind_ok _ _ me me [] 0); [by rewrite IH|]. cbn [exec fst snd]. unfold raft_periodic.
  rewrite (M_bind_ok _ _ me me [] true); [done|]. erewrite M_bind_ok by reflexivity. cbn beta.
  rewrite decide_True by done. erewrite M_bind_ok by reflexivity. cbn beta. erewrite M_bind_ok by reflexivity. cbn beta.
  rewrite (proj2 (Z.ltb_lt _ _)) by lia. rewrite (M_bind_ok _ _ me me [] 0); [done|].
  rewrite (apply_entry_eq me l Hwf). by rewrite lookup_ge_None_2 by lia.
Qed.

(** Such a follower: it has one entry, has applied it, and its commit index is 7. *)
Definition stuck : raft_server_private_t :=
  raft_set_commit_idx 7 (raft_set_last_applied_idx 1 (raft_set_current_idx 2 (set_log
    (mk_log 10 1 0 1 0 (Some (mk_entry 1 9 (Some [5]) 1 0 :: replicate 9 zero_entry))) (raft_set_current_term 1 node0)))).

(** It is what two messages make of a new server: an entry with id 9, and a leader that
    has committed index 7. *)
Lemma stuck_history :
  exec_all [RecvAppendentries 1 (mk_ae 1 1 0 0 1 (Some [mk_msg_entry 9 (Some [5]) 1]) (Some 0));
            RecvAppendentries 1 (mk_ae 1 1 0 0 0 (Some []) (Some 7))] node0 =
    Ok (stuck, [Send 1 (aer node0 1 (Some 2) (Some 1)); Applylog (Some [5]) 1; Send 1 (aer stuck 1 (Some 2) (Some 1))], tt).
Proof. vm_compute. reflexivity. Qed.

Lemma set_fields_wf me l lg l' c la ci t :
  wf me l -> RaftLog.wf lg l' -> 0 <= la <= 10 -> 1 <= ci <= int_max -> in_int t ->
  wf (raft_set_commit_idx c (raft_set_last_applied_idx la (raft_set_current_idx ci (set_log lg (raft_set_current_term t me))))) l'.
Proof. intros []. by split. Qed.

Lemma stuck_wf : wf stuck [mk_entry 1 9 (Some [5]) 1 0].
Proof.
  apply (set_fields_wf node0 []); [apply node0_wf| |lia|unfold int_max; lia|unfold in_int, int_min, int_max; lia].
  split; try done. by exists (replicate 9 zero_entry).
Qed.

Lemma raft_follower_stuck_witness :
  exec_all (map (fun t => Periodic t.1 t.2) [(1000, 1); (5000, 2)]) stuck = Ok (stuck, [], tt).
Proof.
  apply (raft_follower_stuck stuck [mk_entry 1 9 (Some [5]) 1 0] [(1000, 1); (5000, 2)]).
  - apply stuck_wf.
  - reflexivity.
  - simpl. lia.
Defined.
End RaftNet.
