(* ===== verification/Chunkybar.v ===== *)
(** * The sparse counter (src/PUTs/11CSparseCounter/chunkybar.c)

    A set of numbers kept as a sorted list of chunks [offset, offset + len).  The
    nodes of the linked list are owned by it alone, so it is a list of records; the
    fields are [unsigned int].  [covered] is the set the chunks stand for. *)

From S2P Require Import Prelude.

Module Chunkybar.

Record var_chunk_t := mk_chunk { offset : Z; len : Z }.

Record chunkybar_t := mk_bar { max : Z; first_chunk : list var_chunk_t }.

Definition capmax (val max : Z) : Z := if max <? val then max else val.

Definition chunky_new (max : Z) : chunkybar_t := mk_bar max [].

Definition chunky_set_max (me : chunkybar_t) (max : Z) : chunkybar_t := mk_bar max (first_chunk me).

(** [b->offset + b->len] *)
Definition end_of (b : var_chunk_t) : Z := wrap_u32 (offset b + len b).

Definition chunky_get_num_chunks (me : chunkybar_t) : Z := Z.of_nat (List.length (first_chunk me)).

(** [prev] takes in the chunks it reaches. *)
Fixpoint feast (prev : var_chunk_t) (this : list var_chunk_t) : list var_chunk_t :=
  match this with
  | [] => [prev]
  | t :: next =>
      if offset t <=? end_of prev then
        feast (if end_of t <=? end_of prev then prev
               else mk_chunk (offset prev) (wrap_u32 (end_of t - offset prev))) next
      else prev :: this
  end.

(** The new chunk behind [prev], the last one that starts at or before it: joined
    with [prev] where it touches it, else a node of its own. *)
Definition place (prev : var_chunk_t) (this : list var_chunk_t) (o l : Z) : list var_chunk_t :=
  if o <=? end_of prev then
    feast (if wrap_u32 (o + l) <=? end_of prev then prev
           else mk_chunk (offset prev) (wrap_u32 (wrap_u32 (o + l) - offset prev))) this
  else prev :: feast (mk_chunk o l) this.

(** The search for that chunk, from [prev] on. *)
Fixpoint insert_from (prev : var_chunk_t) (next : list var_chunk_t) (o l : Z) : list var_chunk_t :=
  match next with
  | n :: next' => if offset n <=? o then prev :: insert_from n next' o l else place prev next o l
  | [] => place prev next o l
  end.

Definition chunky_mark_complete (me : chunkybar_t) (o l : Z) : chunkybar_t :=
  mk_bar (max me)
    (match first_chunk me with
     | [] => [mk_chunk o l]
     | prev :: next =>
         if o <? offset prev then feast (mk_chunk o l) (prev :: next)
         else insert_from prev next o l
     end).

(** Whether the range takes all of a chunk, and what is left of it otherwise. *)
Definition eaten (o l : Z) (b : var_chunk_t) : bool := (o <=? offset b) && (end_of b <=? wrap_u32 (o + l)).

Definition remains (o l : Z) (this : var_chunk_t) : list var_chunk_t :=
  if (offset this <? o) && (wrap_u32 (o + l) <? end_of this) then
    [mk_chunk (offset this) (wrap_u32 (o - offset this));
     mk_chunk (wrap_u32 (o + l)) (wrap_u32 (len this - l - wrap_u32 (o - offset this)))]
  else if (offset this <? wrap_u32 (o + l)) && (wrap_u32 (o + l) <? end_of this) then
    [mk_chunk (wrap_u32 (o + l)) (wrap_u32 (len this - wrap_u32 (wrap_u32 (o + l) - offset this)))]
  else if (offset this <? o) && (o <? end_of this) && (end_of this <=? wrap_u32 (o + l)) then
    [mk_chunk (offset this) (wrap_u32 (o - offset this))]
  else [this].

(** The loop with a chunk before it; the second half of a chunk that is cut in the
    middle is the next one the loop looks at. *)
Fixpoint incomplete_loop (fuel : nat) (o l : Z) (this : list var_chunk_t) : res (list var_chunk_t) :=
  match fuel with
  | O => OutOfFuel
  | S fuel =>
      match this with
      | [] => Ok []
      | t :: next =>
          if eaten o l t then incomplete_loop fuel o l next
          else
            match remains o l t with
            | [a; b] => r ← incomplete_loop fuel o l (b :: next); Ok (a :: r)
            | rs => r ← incomplete_loop fuel o l next; Ok (rs ++ r)
            end
      end
  end.

(** A first chunk that is taken whole makes the next one first, and the loop goes on
    behind that one. *)
Definition chunky_mark_incomplete (me : chunkybar_t) (o l : Z) : res chunkybar_t :=
  let fuel := S (2 * List.length (first_chunk me)) in
  cs ← (match first_chunk me with
        | [] => Ok []
        | first :: next =>
            if eaten o l first then
              match next with
              | [] => Ok []
              | second :: next => r ← incomplete_loop fuel o l next; Ok (second :: r)
              end
            else incomplete_loop fuel o l (first :: next)
        end);
  Ok (mk_bar (max me) cs).

Definition chunky_mark_all_incomplete (me : chunkybar_t) : res chunkybar_t := chunky_mark_incomplete me 0 (max me).

Definition chunky_is_complete (me : chunkybar_t) : bool :=
  match first_chunk me with
  | [b] => len b =? max me
  | _ => false
  end.

(** The offset and the length of a chunk that is missing, at most [mx] long. *)
Definition chunky_get_incomplete (me : chunkybar_t) (mx : Z) : Z * Z :=
  let '(o, l) :=
    match first_chunk me with
    | [] => (0, mx)
    | b :: next =>
        if negb (offset b =? 0) then
          match next with
          | n :: _ => (0, wrap_u32 (offset n - offset b))
          | [] => (0, offset b)
          end
        else
          match next with
          | [] => (len b, mx)
          | n :: _ => (len b, wrap_u32 (offset n - len b))
          end
    end in
  let l := capmax l mx in
  (o, if max me <? wrap_u32 (o + l) then wrap_u32 (max me - o) else l).

Definition chunky_get_nbytes_completed (me : chunkybar_t) : Z :=
  fold_left (fun n b => wrap_u32 (n + len b)) (first_chunk me) 0.

(** The third branch of the loop cannot be taken. *)
Fixpoint have_loop (cs : list var_chunk_t) (o l : Z) : Z :=
  match cs with
  | [] => 0
  | b :: cs =>
      if o <? offset b then have_loop cs o l
      else if offset b <=? o then
        if wrap_u32 (o + l) <=? end_of b then 1 else have_loop cs o l
      else 0
  end.

Definition chunky_have (me : chunkybar_t) (o l : Z) : Z := have_loop (first_chunk me) o l.

(** ** The set of the chunks *)

Definition in_chunk (b : var_chunk_t) (k : Z) : Prop := offset b <= k < offset b + len b.
Definition covered (cs : list var_chunk_t) (k : Z) : Prop := Exists (fun b => in_chunk b k) cs.

(** The chunks from [lo] on: not empty, apart from each other, inside the range of
    [unsigned int]. *)
Inductive sorted : Z -> list var_chunk_t -> Prop :=
  | sorted_nil lo : sorted lo []
  | sorted_cons lo b cs : lo <= offset b -> 0 < len b -> offset b + len b < 2 ^ 32 ->
      sorted (offset b + len b + 1) cs -> sorted lo (b :: cs).

Definition wf (me : chunkybar_t) : Prop := sorted 0 (first_chunk me).

Lemma sorted_weaken lo lo' cs : sorted lo cs -> lo' <= lo -> sorted lo' cs.
Proof. intros H Hl. destruct H; constructor; try done. lia. Qed.

Lemma sorted_covered lo cs k : sorted lo cs -> covered cs k -> lo <= k < 2 ^ 32.
Proof.
  intros Hs Hc. induction Hs as [lo|lo b cs Hlo Hl He Hs IH]; [by apply Exists_nil in Hc|].
  apply Exists_cons in Hc as [Hb|Hc]; [unfold in_chunk in Hb; lia|]. specialize (IH Hc). lia.
Qed.

Lemma covered_cons b cs k : covered (b :: cs) k <-> in_chunk b k \/ covered cs k.
Proof. apply Exists_cons. Qed.

Lemma covered_nil k : ~ covered [] k.
Proof. by intros H%Exists_nil. Qed.

Lemma end_id b : 0 <= offset b -> 0 < len b -> offset b + len b < 2 ^ 32 -> end_of b = offset b + len b.
Proof. intros. unfold end_of. apply wrap_u32_id. lia. Qed.

(** [feast] joins a chunk with the ones behind it. *)
Lemma feast_spec lo prev this :
  0 <= lo <= offset prev -> 0 < len prev -> offset prev + len prev < 2 ^ 32 -> sorted (offset prev) this ->
  sorted lo (feast prev this) /\ forall k, covered (feast prev this) k <-> in_chunk prev k \/ covered this k.
Proof.
  revert prev. induction this as [|t this IH]; intros prev Hlo Hl He Hs; cbn [feast].
  { split; [constructor; try done; try lia; constructor|]. intros k. rewrite covered_cons. done. }
  inversion Hs as [|? ? ? Ht1 Ht2 Ht3 Hs']; subst.
  rewrite !end_id by lia. destruct (Z.leb_spec (offset t) (offset prev + len prev)) as [Hle|Hgt].
  - destruct (Z.leb_spec (offset t + len t) (offset prev + len prev)) as [Hin|Hout].
    + destruct (IH prev Hlo Hl He) as [H1 H2]; [by eapply sorted_weaken; [exact Hs'|lia]|]. split; [done|].
      intros k. rewrite H2, covered_cons. unfold in_chunk in *. split; [tauto|]. intros [?|[?|?]]; [tauto|left; lia|tauto].
    + rewrite wrap_u32_id by lia.
      destruct (IH (mk_chunk (offset prev) (offset t + len t - offset prev))) as [H1 H2]; simpl; try lia.
      { eapply sorted_weaken; [exact Hs'|lia]. }
      split; [done|]. intros k. rewrite H2, covered_cons. unfold in_chunk in *. simpl.
      split; [intros [?|?]; [destruct (decide (k < offset prev + len prev)); [left; lia|right; left; lia]|tauto]|].
      intros [?|[?|?]]; [left; lia|left; lia|tauto].
  - split; [|intros k; rewrite !covered_cons; tauto]. constructor; try lia. constructor; try lia. done.
Qed.

Lemma place_spec lo prev next o l :
  0 <= lo <= offset prev -> 0 < len prev -> offset prev + len prev < 2 ^ 32 ->
  sorted (Z.max (offset prev + len prev + 1) o) next ->
  offset prev <= o -> 0 < l -> o + l < 2 ^ 32 ->
  sorted lo (place prev next o l) /\
  forall k, covered (place prev next o l) k <-> covered (prev :: next) k \/ o <= k < o + l.
Proof.
  intros Hlo Hl He Hs Ho Hl0 Hol. unfold place. rewrite !end_id, !(wrap_u32_id (o + l)) by lia.
  destruct (Z.leb_spec o (offset prev + len prev)) as [Hle|Hgt].
  - destruct (Z.leb_spec (o + l) (offset prev + len prev)) as [Hin|Hout].
    + destruct (feast_spec lo prev next) as [H1 H2]; try done; [eapply sorted_weaken; [exact Hs|lia]|]. split; [done|].
      intros k. rewrite H2, covered_cons. unfold in_chunk. split; [tauto|]. intros [?|?]; [tauto|left; lia].
    + rewrite wrap_u32_id by lia. destruct (feast_spec lo (mk_chunk (offset prev) (o + l - offset prev)) next) as [H1 H2]; simpl; try lia.
      { eapply sorted_weaken; [exact Hs|lia]. }
      split; [done|]. intros k. rewrite H2, covered_cons. unfold in_chunk. simpl.
      split; [intros [?|?]; [destruct (decide (k < offset prev + len prev)); [left; left; lia|right; lia]|tauto]|].
      intros [[?|?]|?]; [left; lia|tauto|left; lia].
  - destruct (feast_spec (offset prev + len prev + 1) (mk_chunk o l) next) as [H1 H2]; simpl; try lia.
    { eapply sorted_weaken; [exact Hs|lia]. }
    split; [by constructor; try lia|]. intros k. rewrite !covered_cons, H2. unfold in_chunk. simpl. tauto.
Qed.

Lemma insert_spec lo prev next o l :
  0 <= lo <= offset prev -> 0 < len prev -> offset prev + len prev < 2 ^ 32 -> sorted (offset prev + len prev + 1) next ->
  offset prev <= o -> 0 < l -> o + l < 2 ^ 32 ->
  sorted lo (insert_from prev next o l) /\
  forall k, covered (insert_from prev next o l) k <-> covered (prev :: next) k \/ o <= k < o + l.
Proof.
  revert lo prev. induction next as [|n next IH]; intros lo prev Hlo Hl He Hs Ho Hl0 Hol; cbn [insert_from].
  { apply place_spec; try done. constructor. }
  inversion Hs as [|? ? ? Hn1 Hn2 Hn3 Hs']; subst. destruct (Z.leb_spec (offset n) o).
  - destruct (IH (offset prev + len prev + 1) n) as [H1 H2]; try done; try lia. split; [by constructor; try lia|].
    intros k. rewrite covered_cons, H2, (covered_cons prev). tauto.
  - apply place_spec; try done. constructor; try done; lia.
Qed.

Lemma mark_complete_spec me o l :
  wf me -> 0 <= o -> 0 < l -> o + l < 2 ^ 32 ->
  wf (chunky_mark_complete me o l) /\
  forall k, covered (first_chunk (chunky_mark_complete me o l)) k <-> covered (first_chunk me) k \/ o <= k < o + l.
Proof.
  intros Hwf Ho Hl Hol. unfold wf, chunky_mark_complete in *. simpl. destruct (first_chunk me) as [|prev next].
  { split; [constructor; simpl; try lia; constructor|]. intros k. rewrite covered_cons. unfold in_chunk. simpl. tauto. }
  inversion Hwf as [|? ? ? Hp1 Hp2 Hp3 Hs]; subst. destruct (Z.ltb_spec o (offset prev)).
  - destruct (feast_spec 0 (mk_chunk o l) (prev :: next)) as [H1 H2]; simpl; try lia.
    { constructor; try done; lia. }
    split; [done|]. intros k. rewrite H2. unfold in_chunk. simpl. tauto.
  - by apply insert_spec.
Qed.

Lemma have_before cs lo o l : sorted lo cs -> o < lo -> have_loop cs o l = 0.
Proof.
  intros Hs Ho. induction Hs as [lo|lo b cs Hb Hlb Heb Hs IH]; cbn [have_loop]; [done|].
  rewrite (proj2 (Z.ltb_lt _ _)) by lia. apply IH. lia.
Qed.

(** A range is there when one chunk has all of it. *)
Lemma have_spec cs lo o l :
  0 <= lo -> sorted lo cs -> 0 <= o -> 0 < l -> o + l < 2 ^ 32 ->
  (have_loop cs o l = 1 /\ forall k, o <= k < o + l -> covered cs k) \/
  (have_loop cs o l = 0 /\ exists k, o <= k < o + l /\ ~ covered cs k).
Proof.
  intros Hlo Hs Ho Hl Hol. induction Hs as [lo|lo b cs Hb Hlb Heb Hs IH]; cbn [have_loop].
  { right. split; [done|]. exists o. split; [lia|apply covered_nil]. }
  destruct (Z.ltb_spec o (offset b)).
  { right. split; [eapply have_before; [exact Hs|lia]|]. exists o. split; [lia|]. rewrite covered_cons. unfold in_chunk.
    intros [?|Hc]; [lia|]. apply (sorted_covered _ _ _ Hs) in Hc. lia. }
  rewrite (proj2 (Z.leb_le _ _)) by lia. rewrite wrap_u32_id, end_id by lia.
  destruct (Z.leb_spec (o + l) (offset b + len b)).
  { left. split; [done|]. intros k Hk. rewrite covered_cons. left. unfold in_chunk. lia. }
  destruct (decide (o <= offset b + len b)).
  - right. split; [eapply have_before; [exact Hs|lia]|]. exists (offset b + len b). split; [lia|].
    rewrite covered_cons. unfold in_chunk. intros [?|Hc]; [lia|]. apply (sorted_covered _ _ _ Hs) in Hc. lia.
  - destruct IH as [[-> Hall]|[-> (k & Hk & Hn)]]; [lia| |].
    + left. split; [done|]. intros k Hk. rewrite covered_cons. auto.
    + right. split; [done|]. exists k. split; [done|]. rewrite covered_cons. unfold in_chunk. intros [?|?]; [lia|done].
Qed.

(** ** Histories of completed ranges *)

Inductive command : Type :=
  | Mark (o l : Z)
  | Have (o l : Z).

Definition in_range (c : command) : bool :=
  match c with Mark o l | Have o l => (0 <=? o) && (0 <? l) && (o + l <? 2 ^ 32) end.

(** The answers of the queries, 1 or 0. *)
Fixpoint exec_all (cs : list command) (me : chunkybar_t) : chunkybar_t * list Z :=
  match cs with
  | [] => (me, [])
  | Mark o l :: cs => exec_all cs (chunky_mark_complete me o l)
  | Have o l :: cs => let '(me', rs) := exec_all cs me in (me', chunky_have me o l :: rs)
  end.

(** The same on a set of numbers, given by a test. *)
Inductive answers : (Z -> Prop) -> list command -> list Z -> (Z -> Prop) -> Prop :=
  | answers_nil (S S' : Z -> Prop) : (forall k, S k <-> S' k) -> answers S [] [] S'
  | answers_mark (S S' : Z -> Prop) o l cs rs :
      answers (fun k => S k \/ o <= k < o + l) cs rs S' -> answers S (Mark o l :: cs) rs S'
  | answers_yes (S S' : Z -> Prop) o l cs rs :
      (forall k, o <= k < o + l -> S k) -> answers S cs rs S' -> answers S (Have o l :: cs) (1 :: rs) S'
  | answers_no (S S' : Z -> Prop) o l cs rs k :
      o <= k < o + l -> ~ S k -> answers S cs rs S' -> answers S (Have o l :: cs) (0 :: rs) S'.

Lemma range_spec c o l : (0 <=? o) && (0 <? l) && (o + l <? 2 ^ 32) = c -> c = true -> 0 <= o /\ 0 < l /\ o + l < 2 ^ 32.
Proof. intros <- H. apply andb_true_iff in H as [[H1%Z.leb_le H2%Z.ltb_lt]%andb_true_iff H3%Z.ltb_lt]. lia. Qed.

Lemma exec_answers cs me (S : Z -> Prop) :
  wf me -> forallb in_range cs = true -> (forall k, S k <-> covered (first_chunk me) k) ->
  answers S cs (exec_all cs me).2 (covered (first_chunk (exec_all cs me).1)) /\ wf (exec_all cs me).1.
Proof.
  revert me S. induction cs as [|c cs IH]; intros me S Hwf Hin HS; cbn [exec_all]; [split; [by constructor|done]|].
  cbn [forallb] in Hin. apply andb_true_iff in Hin as [Hc Hin].
  destruct c as [o l|o l]; destruct (range_spec _ _ _ eq_refl Hc) as (Ho & Hl & Hol).
  - destruct (mark_complete_spec me o l Hwf Ho Hl Hol) as [Hwf' Hcov].
    destruct (IH (chunky_mark_complete me o l) (fun k => S k \/ o <= k < o + l)) as [Ha Hw]; try done.
    { intros k. by rewrite Hcov, HS. }
    split; [by constructor|done].
  - destruct (IH me S Hwf Hin HS) as [Ha Hw]. destruct (exec_all cs me) as [me' rs]. simpl in *. split; [|done].
    unfold chunky_have. destruct (have_spec (first_chunk me) 0 o l) as [[-> Hall]|[-> (k & Hk & Hn)]]; try done.
    + constructor; [|done]. intros k Hk. by apply HS, Hall.
    + econstructor; [exact Hk| |done]. by rewrite HS.
Qed.

(** C24: in any history of [chunky_mark_complete] and [chunky_have] on a new counter, with
    ranges that are not empty and end below 2^32, the chunks are the set of the numbers that
    were marked: a query is answered with 1 where every number of the range was marked
    before and with 0 where one was not, and the chunks stay sorted, apart from each other
    and not empty.  ([chunky_mark_incomplete], which can leave chunks it should remove, is
    not among the calls.) *)
Theorem chunky_refines_set (mx : Z) (cs : list command) :
  forallb in_range cs = true ->
  let '(me, rs) := exec_all cs (chunky_new mx) in
  wf me /\ answers (fun _ => False) cs rs (covered (first_chunk me)).
Proof.
  intros Hin. pose proof (exec_answers cs (chunky_new mx) (fun _ => False)) as H.
  destruct (exec_all cs (chunky_new mx)) as [me rs]. destruct H as [Ha Hw]; try done.
  - constructor.
  - intros k. split; [done|]. apply covered_nil.
Qed.

Lemma chunky_refines_set_witness :
  let cs := [Mark 5 5; Mark 20 3; Have 5 6; Mark 9 11; Have 6 16; Mark 1 2] in
  let '(me, rs) := exec_all cs (chunky_new 100) in
  wf me /\ answers (fun _ => False) cs rs (covered (first_chunk me)).
Proof.
  intros cs. apply (chunky_refines_set 100 cs). reflexivity.
Defined.
(** ** Ranges that are no longer complete *)

Lemma eaten_spec b o l :
  0 <= offset b -> 0 < len b -> offset b + len b < 2 ^ 32 -> 0 <= o -> 0 < l -> o + l < 2 ^ 32 ->
  eaten o l b = true <-> forall k, in_chunk b k -> o <= k < o + l.
Proof.
  intros. unfold eaten, in_chunk. rewrite end_id, wrap_u32_id by lia. rewrite andb_true_iff, !Z.leb_le. split; [lia|].
  intros Hall. pose proof (Hall (offset b) ltac:(lia)). pose proof (Hall (offset b + len b - 1) ltac:(lia)). lia.
Qed.

(** What is left of a chunk that is not taken whole: its numbers outside the range. *)
Lemma remains_spec b o l :
  0 <= offset b -> 0 < len b -> offset b + len b < 2 ^ 32 -> 0 <= o -> 0 < l -> o + l < 2 ^ 32 -> eaten o l b = false ->
  (exists r, remains o l b = [r] /\ offset b <= offset r /\ 0 < len r /\ offset r + len r <= offset b + len b /\
     forall k, in_chunk r k <-> in_chunk b k /\ ~ (o <= k < o + l)) \/
  (remains o l b = [mk_chunk (offset b) (o - offset b); mk_chunk (o + l) (offset b + len b - (o + l))] /\
     offset b < o /\ o + l < offset b + len b).
Proof.
  intros Hb Hl He Ho Hl0 Hol Heat. unfold eaten in Heat. unfold remains, in_chunk.
  rewrite end_id, (wrap_u32_id (o + l)) in * by lia.
  destruct (Z.ltb_spec (offset b) o), (Z.ltb_spec (o + l) (offset b + len b)); simpl.
  - right. rewrite !wrap_u32_id by lia. split; [|lia]. do 3 f_equal. lia.
  - rewrite andb_false_r. destruct (Z.ltb_spec o (offset b + len b)); simpl.
    + rewrite (proj2 (Z.leb_le _ _)) by lia. rewrite wrap_u32_id by lia. left. eexists. split; [done|]. simpl. split_and!; lia.
    + left. eexists. split; [done|]. split_and!; lia.
  - destruct (Z.ltb_spec (offset b) (o + l)); simpl.
    + rewrite !wrap_u32_id by (rewrite ?wrap_u32_id; lia). left. eexists. split; [done|]. simpl. split_and!; lia.
    + left. eexists. split; [done|]. split_and!; lia.
  - exfalso. apply andb_false_iff in Heat as [Hx%Z.leb_gt|Hx%Z.leb_gt]; lia.
Qed.

Section incomplete.
Context (o l : Z) (Ho : 0 <= o) (Hl : 0 < l) (Hol : o + l < 2 ^ 32).

(** Chunks behind the range stay. *)
Lemma loop_behind cs lo n :
  sorted lo cs -> o + l <= lo -> (List.length cs < n)%nat -> incomplete_loop n o l cs = Ok cs.
Proof.
  intros Hs. revert n. induction Hs as [lo|lo b cs Hb Hlb Heb Hs IH]; intros n Hlo Hn;
    (destruct n as [|n]; [simpl in Hn; lia|]); cbn [incomplete_loop]; [done|].
  assert (eaten o l b = false) as Heat.
  { unfold eaten. rewrite end_id, wrap_u32_id by lia. apply andb_false_iff. right. apply Z.leb_gt. lia. }
  rewrite Heat. assert (remains o l b = [b]) as ->.
  { unfold remains. rewrite end_id, !(wrap_u32_id (o + l)) by lia.
    rewrite (proj2 (Z.ltb_ge (offset b) o)), (proj2 (Z.ltb_ge (offset b) (o + l))) by lia. done. }
  rewrite IH by (simpl in Hn; lia). done.
Qed.

Lemma loop_spec cs lo n :
  0 <= lo -> sorted lo cs -> (S (List.length cs) < n)%nat ->
  exists r, incomplete_loop n o l cs = Ok r /\ sorted lo r /\
    forall k, covered r k <-> covered cs k /\ ~ (o <= k < o + l).
Proof.
  intros Hlo Hs. revert n Hlo. induction Hs as [lo|lo b cs Hb Hlb Heb Hs IH]; intros n Hlo Hn;
    (destruct n as [|n]; [simpl in Hn; lia|]); cbn [incomplete_loop].
  { exists []. split_and!; [done|constructor|]. intros k. pose proof (covered_nil k). tauto. }
  simpl in Hn. destruct (eaten o l b) eqn:Heat.
  { destruct (IH n) as (r & -> & Hr & Hcov); [lia|lia|]. exists r. split_and!; [done|eapply sorted_weaken; [done|lia]|].
    pose proof (proj1 (eaten_spec b o l ltac:(lia) Hlb Heb Ho Hl Hol) Heat) as Hin.
    intros k. rewrite Hcov, covered_cons. specialize (Hin k). tauto. }
  destruct (remains_spec b o l ltac:(lia) Hlb Heb Ho Hl Hol Heat) as [(c & -> & H1 & H2 & H3 & H4)|(-> & H1 & H2)].
  - destruct (IH n) as (r & -> & Hr & Hcov); [lia|lia|]. exists (c :: r). split_and!; [done| |].
    + constructor; try lia. eapply sorted_weaken; [done|lia].
    + intros k. rewrite !covered_cons, Hcov, H4. tauto.
  - set (b2 := mk_chunk (o + l) (offset b + len b - (o + l))).
    assert (sorted (o + l) (b2 :: cs)) as Hs2.
    { constructor; simpl; try lia. eapply sorted_weaken; [done|lia]. }
    rewrite (loop_behind _ (o + l) n Hs2) by (simpl; lia). simpl. eexists. split; [done|]. split.
    + constructor; simpl; try lia. eapply sorted_weaken; [done|lia].
    + intros k. rewrite !covered_cons. unfold in_chunk, b2. simpl. split.
      * intros [?|[?|Hc]]; [split; [left; lia|lia]|split; [left; lia|lia]|].
        apply (sorted_covered _ _ _ Hs) in Hc as Hk. split; [tauto|lia].
      * intros [[?|?] ?]; [|tauto]. destruct (decide (k < o)); [left; lia|right; left; lia].
Qed.

End incomplete.

(** [chunky_mark_incomplete] takes a range away from the set where the range does not
    hold all of the first chunk.  Where it does, the loop goes on behind the
    second chunk without looking at it: that chunk stays although the range may
    hold it, so [chunky_mark_all_incomplete] of a counter with two chunks leaves
    the second one. *)
Theorem chunky_mark_incomplete_spec (me : chunkybar_t) (o l : Z) :
  wf me -> 0 <= o -> 0 < l -> o + l < 2 ^ 32 ->
  exists me', chunky_mark_incomplete me o l = Ok me' /\
    match first_chunk me with
    | first :: second :: _ =>
        if eaten o l first then exists rest, first_chunk me' = second :: rest
        else wf me' /\ forall k, covered (first_chunk me') k <-> covered (first_chunk me) k /\ ~ (o <= k < o + l)
    | _ => wf me' /\ forall k, covered (first_chunk me') k <-> covered (first_chunk me) k /\ ~ (o <= k < o + l)
    end.
Proof.
  intros Hwf Ho Hl Hol. unfold chunky_mark_incomplete, wf in *. destruct (first_chunk me) as [|b cs] eqn:E.
  { eexists. split; [done|]. simpl. split; [constructor|]. intros k. pose proof (covered_nil k). tauto. }
  pose proof (loop_spec o l Ho Hl Hol (b :: cs) 0 (S (2 * List.length (b :: cs))) ltac:(lia) Hwf ltac:(simpl; lia))
    as (r & Er & Hr & Hcov).
  inversion Hwf as [|? ? ? Hb Hlb Heb Hs]; subst.
  destruct (eaten o l b) eqn:Heat.
  - destruct cs as [|b2 cs].
    + eexists. split; [done|]. simpl. split; [constructor|]. intros k.
      pose proof (proj1 (eaten_spec b o l Hb Hlb Heb Ho Hl Hol) Heat k). rewrite covered_cons. pose proof (covered_nil k). tauto.
    + inversion Hs as [|? ? ? Hb2 Hlb2 Heb2 Hs2]; subst.
      destruct (loop_spec o l Ho Hl Hol cs (offset b2 + len b2 + 1) (S (2 * List.length (b :: b2 :: cs)))) as (r2 & -> & _);
        [lia|done|simpl; lia|]. eexists. split; [done|]. simpl. eauto.
  - rewrite Er. eexists. split; [done|]. simpl. destruct cs; done.
Qed.

Lemma chunky_mark_incomplete_spec_witness :
  exists me', chunky_mark_incomplete (mk_bar 10 [mk_chunk 0 2; mk_chunk 4 3]) 0 10 = Ok me' /\
    exists rest, first_chunk me' = mk_chunk 4 3 :: rest.
Proof.
  destruct (chunky_mark_incomplete_spec (mk_bar 10 [mk_chunk 0 2; mk_chunk 4 3]) 0 10) as (me' & E & H); try lia.
  - repeat constructor; simpl; lia.
  - exists me'. split; [exact E|exact H].
Defined.
End Chunkybar.
