(* ===== verification/Meanqueue.v ===== *)
(** * The mean of the last numbers (src/PUTs/01pwp/deps/meanqueue/meanqueue.c)

    A ring of [size] numbers with their sum; the mean is a [float].  The sum is kept
    by adding the new number and then subtracting the oldest one, in [int]
    arithmetic. *)

From S2P Require Import Prelude Double.

Module Meanqueue.

Record meanqueue_t := mk_meanqueue { vals : list Z; size : Z; idxCur : Z; valSum : Z; mean : float }.

Definition meanqueue_new (size : Z) : meanqueue_t :=
  mk_meanqueue (replicate (Z.to_nat size) 0) size 0 0 (float_of_Z 0).

Definition meanqueue_offer (qu : meanqueue_t) (val : Z) : res meanqueue_t :=
  s ← chk (valSum qu + val);
  old ← load (vals qu) (idxCur qu);
  s ← chk (s - old);
  vals' ← store (vals qu) (idxCur qu) val;
  cur ← chk (idxCur qu + 1);
  let mean := fdiv (float_of_Z s) (float_of_Z (size qu)) in
  Ok (mk_meanqueue vals' (size qu) (if size qu <=? cur then 0 else cur) s mean).

Definition meanqueue_get_value (qu : meanqueue_t) : float := mean qu.

Fixpoint offer_all (vs : list Z) (qu : meanqueue_t) : res meanqueue_t :=
  match vs with
  | [] => Ok qu
  | v :: vs => qu ← meanqueue_offer qu v; offer_all vs qu
  end.

(** ** The window *)

Definition sum (l : list Z) : Z := fold_right Z.add 0 l.

Lemma sum_app a b : sum (a ++ b) = sum a + sum b.
Proof. unfold sum. rewrite foldr_app. induction a as [|x a IH]; simpl; lia. Qed.

(** The last [n] elements. *)
Definition last_n (n : nat) (l : list Z) : list Z := drop (List.length l - n) l.

(** The ring read from the oldest number on. *)
Definition window (qu : meanqueue_t) : list Z :=
  drop (Z.to_nat (idxCur qu)) (vals qu) ++ take (Z.to_nat (idxCur qu)) (vals qu).

Record ring (n : Z) (w : list Z) (qu : meanqueue_t) : Prop := {
  ring_size : size qu = n /\ Z.of_nat (List.length (vals qu)) = n;
  ring_cur : 0 <= idxCur qu < n;
  ring_window : window qu = w;
  ring_sum : valSum qu = sum w
}.

Lemma sum_bound (bound : Z) l :
  Forall (fun v => Z.abs v <= bound) l -> Z.abs (sum l) <= Z.of_nat (List.length l) * bound.
Proof. induction 1 as [|x l Hx Hl IH]; [done|]. change (sum (x :: l)) with (x + sum l). simpl length. lia. Qed.

(** One number pushes the oldest one out. *)
Lemma offer_ring n bound o w v qu :
  ring n (o :: w) qu -> 0 < n < int_max -> (n + 1) * bound <= int_max -> Forall (fun x => Z.abs x <= bound) (o :: w) -> Z.abs v <= bound ->
  exists qu', meanqueue_offer qu v = Ok qu' /\ ring n (w ++ [v]) qu' /\
    mean qu' = fdiv (float_of_Z (sum (w ++ [v]))) (float_of_Z n).
Proof.
  intros [[Hs Hl] Hc Hw Hsum] Hn Hb Hall Hv. destruct qu as [vs sz cur s mn]. simpl in *. subst sz.
  destruct (lookup_lt_is_Some_2 vs (Z.to_nat cur)) as [x Hx]; [lia|]. unfold window in Hw. simpl in Hw.
  rewrite (drop_S _ x) in Hw by done. injection Hw as -> Hw.
  pose proof (sum_bound bound (o :: w) Hall) as Hsb. simpl length in Hsb.
  assert (Z.of_nat (S (List.length w)) = n) as Hlw.
  { rewrite <- Hl, <- Hw, length_app, length_drop, length_take. lia. }
  rewrite Hlw in Hsb. apply Forall_cons in Hall as [Ho Hall'].
  pose proof (sum_bound bound w Hall') as Hsb'.
  change (sum (o :: w)) with (o + sum w) in *. subst s. unfold meanqueue_offer. simpl.
  rewrite (chk_ok (o + sum w + v)) by (unfold in_int, int_min, int_max in *; nia). simpl.
  rewrite (load_ok vs cur o) by (done || lia). simpl.
  rewrite (chk_ok (o + sum w + v - o)) by (unfold in_int, int_min, int_max in *; nia). simpl.
  rewrite store_ok by lia. simpl. rewrite chk_ok by (unfold in_int, int_min, int_max in *; lia). simpl.
  assert (sum (w ++ [v]) = o + sum w + v - o) as Es by (rewrite sum_app; simpl; lia).
  eexists. split; [done|]. split; [|by rewrite Es].
  split; simpl; [by rewrite length_insert| | |by rewrite Es].
  - destruct (Z.leb_spec n (cur + 1)); lia.
  - unfold window. rewrite <- Hw. simpl. destruct (Z.leb_spec n (cur + 1)) as [Hle|Hlt].
    + change (Z.to_nat 0) with 0%nat. rewrite drop_0. simpl. rewrite app_nil_r, (drop_ge vs) by lia. simpl.
      rewrite <- (take_drop_middle vs (Z.to_nat cur) o) at 1 by done.
      rewrite insert_app_r_alt by (rewrite length_take; lia). rewrite length_take, Nat.min_l, Nat.sub_diag by lia. simpl.
      by rewrite (drop_ge vs) by lia.
    + replace (Z.to_nat (cur + 1)) with (S (Z.to_nat cur)) by lia.
      rewrite drop_insert_lt by lia. rewrite <- app_assoc. f_equal.
      rewrite (take_S_r _ _ v) by (rewrite list_lookup_insert_eq by lia; done). by rewrite take_insert_ge by lia.
Qed.

Lemma new_ring n : 0 < n -> ring n (replicate (Z.to_nat n) 0) (meanqueue_new n).
Proof.
  intros Hn. split; simpl; [rewrite length_replicate; lia|lia|unfold window; simpl; by rewrite app_nil_r|].
  by induction (Z.to_nat n).
Qed.

(** The numbers so far, with zeros before the first one. *)
Lemma offer_all_ring n bound vs past qu :
  ring n (last_n (Z.to_nat n) past) qu -> 0 < n < int_max -> (n + 1) * bound <= int_max -> n <= Z.of_nat (List.length past) ->
  Forall (fun x => Z.abs x <= bound) past -> Forall (fun x => Z.abs x <= bound) vs ->
  exists qu', offer_all vs qu = Ok qu' /\ ring n (last_n (Z.to_nat n) (past ++ vs)) qu' /\
    (vs <> [] -> mean qu' = fdiv (float_of_Z (sum (last_n (Z.to_nat n) (past ++ vs)))) (float_of_Z n)).
Proof.
  revert past qu. induction vs as [|v vs IH]; intros past qu Hr Hn Hb Hp Ha Hv; simpl.
  { rewrite app_nil_r. by exists qu. }
  apply Forall_cons in Hv as [Hv Hvs].
  assert (exists o w, last_n (Z.to_nat n) past = o :: w /\ last_n (Z.to_nat n) (past ++ [v]) = w ++ [v]) as (o & w & Ew & Ew').
  { unfold last_n. destruct (lookup_lt_is_Some_2 past (List.length past - Z.to_nat n)) as [o Ho]; [lia|].
    rewrite (drop_S _ o) by done. eexists _, _. split; [done|]. rewrite length_app. simpl.
    rewrite drop_app_le by lia. do 2 f_equal. lia. }
  rewrite Ew in Hr. destruct (offer_ring n bound o w v qu Hr Hn Hb) as (qu1 & -> & Hr1 & Hm); [|done|].
  { rewrite <- Ew. by apply Forall_drop. }
  rewrite <- Ew' in Hr1, Hm. simpl. destruct vs as [|v' vs]; [by exists qu1|].
  destruct (IH (past ++ [v]) qu1 Hr1 Hn Hb) as (qu2 & -> & Hr2 & Hm2); [rewrite length_app; lia|apply Forall_app; by repeat constructor|done|].
  rewrite <- (assoc_L (++)) in Hr2, Hm2. exists qu2. split_and!; [done|done|]. intros _. by apply Hm2.
Qed.

(** The rate meter: after any numbers the mean is the quotient, as a [float], of the
    sum of the last [size] numbers (zeros before the first one) and [size], and no
    addition overflows as long as the numbers are small for the size. *)
Theorem meanqueue_mean (n bound : Z) (vs : list Z) :
  0 < n < int_max -> (n + 1) * bound <= int_max -> 0 <= bound -> vs <> [] -> Forall (fun x => Z.abs x <= bound) vs ->
  exists qu, offer_all vs (meanqueue_new n) = Ok qu /\
    meanqueue_get_value qu = fdiv (float_of_Z (sum (last_n (Z.to_nat n) (replicate (Z.to_nat n) 0 ++ vs)))) (float_of_Z n).
Proof.
  intros Hn Hb H0 Hne Hv.
  destruct (offer_all_ring n bound vs (replicate (Z.to_nat n) 0) (meanqueue_new n)) as (qu & E & _ & Hm); try done.
  - unfold last_n. rewrite length_replicate, Nat.sub_diag. apply new_ring. lia.
  - rewrite length_replicate. lia.
  - apply Forall_replicate. simpl. lia.
  - exists qu. split; [done|]. by apply Hm.
Qed.
End Meanqueue.
