(* ===== verification/PwpStream.v ===== *)
(** * Bytes and byte streams of the peer wire protocol
    (src/PUTs/01pwp: deps/bitstream/bitstream.c, deps/fe/fe.c, and the message
    buffers of pwp_connection.c, pwp_bitfield.c and pwp_handshaker.c)

    A [uint32_t] is copied in the order of the machine, the lowest byte first;
    [fe] flips the order, so the protocol's numbers go out highest byte first.
    A cursor is a block of bytes, [None] where nothing was written yet, and the
    offset of the pointer into it. *)

From S2P Require Import Prelude.

Module PwpStream.

(** ** The bytes of a word *)

Definition byte (k v : Z) : Z := Z.land (Z.shiftr v (8 * k)) 255.

(** The bytes of a word as [memcpy] sees them. *)
Definition le_bytes (v : Z) : list Z := [byte 0 v; byte 1 v; byte 2 v; byte 3 v].

Definition of_bytes (b0 b1 b2 b3 : Z) : Z :=
  Z.lor b0 (Z.lor (Z.shiftl b1 8) (Z.lor (Z.shiftl b2 16) (Z.shiftl b3 24))).

Definition fe (i : Z) : Z := of_bytes (byte 3 i) (byte 2 i) (byte 1 i) (byte 0 i).

(** The write of one byte of a word. *)
Definition set_byte (v k b : Z) : Z :=
  of_bytes (if k =? 0 then b else byte 0 v) (if k =? 1 then b else byte 1 v)
           (if k =? 2 then b else byte 2 v) (if k =? 3 then b else byte 3 v).

Definition is_byte (b : Z) : Prop := 0 <= b < 256.
Definition is_u32 (v : Z) : Prop := 0 <= v < 2 ^ 32.

Lemma byte_div k v : 0 <= k -> byte k v = (v / 2 ^ (8 * k)) mod 256.
Proof.
  intros Hk. unfold byte. change 255 with (Z.ones 8). rewrite Z.land_ones by lia.
  by rewrite Z.shiftr_div_pow2 by lia.
Qed.

Lemma byte_range k v : 0 <= k -> is_byte (byte k v).
Proof. intros Hk. rewrite byte_div by done. unfold is_byte. apply Z.mod_pos_bound. lia. Qed.

Lemma bits_small a n k : 0 <= a < 2 ^ n -> 0 <= n <= k -> Z.testbit a k = false.
Proof. intros Ha Hk. rewrite <- (Z.mod_small a (2 ^ n)) by done. apply Z.mod_pow2_bits_high. lia. Qed.

(** Bits that do not overlap add up. *)
Lemma lor_shift_add a b n : 0 <= n -> 0 <= a < 2 ^ n -> Z.lor a (Z.shiftl b n) = a + b * 2 ^ n.
Proof.
  intros Hn Ha. rewrite <- Z.shiftl_mul_pow2 by lia.
  assert (Z.land a (Z.shiftl b n) = 0) as Hland.
  { apply Z.bits_inj'. intros k Hk. rewrite Z.land_spec, Z.bits_0.
    destruct (Z.ltb_spec k n); [by rewrite Z.shiftl_spec_low, andb_false_r|].
    by rewrite (bits_small a n) by lia. }
  rewrite Z.add_nocarry_lxor by done. symmetry. by apply Z.lxor_lor.
Qed.

Lemma of_bytes_add b0 b1 b2 b3 :
  is_byte b0 -> is_byte b1 -> is_byte b2 -> is_byte b3 ->
  of_bytes b0 b1 b2 b3 = b0 + b1 * 2 ^ 8 + b2 * 2 ^ 16 + b3 * 2 ^ 24.
Proof.
  unfold is_byte, of_bytes. intros H0 H1 H2 H3.
  replace (Z.shiftl b3 24) with (Z.shiftl (Z.shiftl b3 8) 16) by (rewrite Z.shiftl_shiftl by lia; done).
  rewrite <- Z.shiftl_lor.
  replace (Z.shiftl (Z.lor b2 (Z.shiftl b3 8)) 16) with (Z.shiftl (Z.shiftl (Z.lor b2 (Z.shiftl b3 8)) 8) 8)
    by (rewrite Z.shiftl_shiftl by lia; done).
  rewrite <- Z.shiftl_lor. rewrite !lor_shift_add by lia. lia.
Qed.

Lemma byte_of_bytes b0 b1 b2 b3 :
  is_byte b0 -> is_byte b1 -> is_byte b2 -> is_byte b3 ->
  byte 0 (of_bytes b0 b1 b2 b3) = b0 /\ byte 1 (of_bytes b0 b1 b2 b3) = b1 /\
  byte 2 (of_bytes b0 b1 b2 b3) = b2 /\ byte 3 (of_bytes b0 b1 b2 b3) = b3.
Proof.
  intros H0 H1 H2 H3. rewrite of_bytes_add by done. unfold is_byte in *. rewrite !byte_div by lia.
  change (2 ^ (8 * 0)) with 1. change (2 ^ (8 * 1)) with 256. change (2 ^ (8 * 2)) with 65536.
  change (2 ^ (8 * 3)) with 16777216. change (2 ^ 8) with 256. change (2 ^ 16) with 65536. change (2 ^ 24) with 16777216.
  split_and!.
  - rewrite Z.div_1_r. rewrite <- (Z.mod_unique _ 256 (b1 + b2 * 256 + b3 * 65536) b0); lia.
  - rewrite <- (Z.div_unique _ 256 (b1 + b2 * 256 + b3 * 65536) b0) by lia.
    rewrite <- (Z.mod_unique _ 256 (b2 + b3 * 256) b1); lia.
  - rewrite <- (Z.div_unique _ 65536 (b2 + b3 * 256) (b0 + b1 * 256)) by lia.
    rewrite <- (Z.mod_unique _ 256 b3 b2); lia.
  - rewrite <- (Z.div_unique _ 16777216 b3 (b0 + b1 * 256 + b2 * 65536)) by lia. apply Z.mod_small. lia.
Qed.

Lemma of_bytes_byte v : is_u32 v -> of_bytes (byte 0 v) (byte 1 v) (byte 2 v) (byte 3 v) = v.
Proof.
  unfold is_u32. intros Hv. rewrite of_bytes_add by (apply byte_range; lia). rewrite !byte_div by lia.
  change (2 ^ (8 * 0)) with 1. change (2 ^ (8 * 1)) with 256. change (2 ^ (8 * 2)) with 65536.
  change (2 ^ (8 * 3)) with 16777216. rewrite Z.div_1_r.
  replace 65536 with (256 * 256) by lia. replace 16777216 with (256 * (256 * 256)) by lia.
  rewrite <- !Z.div_div by lia.
  pose proof (Z.div_mod v 256). pose proof (Z.div_mod (v / 256) 256). pose proof (Z.div_mod (v / 256 / 256) 256).
  assert (v / 256 / 256 / 256 < 256) by (rewrite !Z.div_div by lia; apply Z.div_lt_upper_bound; lia).
  assert (0 <= v / 256 / 256 / 256) by (rewrite !Z.div_div by lia; apply Z.div_pos; lia).
  rewrite (Z.mod_small (v / 256 / 256 / 256)) by lia. lia.
Qed.

Lemma of_bytes_u32 b0 b1 b2 b3 :
  is_byte b0 -> is_byte b1 -> is_byte b2 -> is_byte b3 -> is_u32 (of_bytes b0 b1 b2 b3).
Proof. intros. rewrite of_bytes_add by done. unfold is_byte, is_u32 in *. lia. Qed.

Lemma fe_u32 v : is_u32 (fe v).
Proof. apply of_bytes_u32; apply byte_range; lia. Qed.

(** A flip of the flipped word gives the word back, and the bytes of the flipped word
    are those of the word backwards. *)
Lemma fe_fe v : is_u32 v -> fe (fe v) = v.
Proof.
  intros Hv. unfold fe at 1. destruct (byte_of_bytes (byte 3 v) (byte 2 v) (byte 1 v) (byte 0 v)) as (E0 & E1 & E2 & E3);
    try (apply byte_range; lia).
  unfold fe. rewrite E0, E1, E2, E3. by apply of_bytes_byte.
Qed.

Lemma le_bytes_fe v : le_bytes (fe v) = rev (le_bytes v).
Proof.
  destruct (byte_of_bytes (byte 3 v) (byte 2 v) (byte 1 v) (byte 0 v)) as (E0 & E1 & E2 & E3);
    try (apply byte_range; lia).
  unfold le_bytes, fe. by rewrite E0, E1, E2, E3.
Qed.

(** The bytes of a word after one of them was written. *)
Lemma byte_set_byte v k b j :
  is_byte b -> 0 <= j < 4 -> byte j (set_byte v k b) = if j =? k then b else byte j v.
Proof.
  intros Hb Hj.
  assert (forall i, 0 <= i -> is_byte (if k =? i then b else byte i v)) as Hr
    by (intros i Hi; case_if; [done|by apply byte_range]).
  destruct (byte_of_bytes (if k =? 0 then b else byte 0 v) (if k =? 1 then b else byte 1 v)
    (if k =? 2 then b else byte 2 v) (if k =? 3 then b else byte 3 v)) as (E0 & E1 & E2 & E3);
    try (apply Hr; lia). unfold set_byte. rewrite (Z.eqb_sym j k).
  assert (j = 0 \/ j = 1 \/ j = 2 \/ j = 3) as [-> | [-> | [-> | ->]]] by lia; done.
Qed.

Lemma set_byte_u32 v k b : is_byte b -> is_u32 (set_byte v k b).
Proof. intros Hb. apply of_bytes_u32; case_if; try done; apply byte_range; lia. Qed.

(** ** Cursors *)

Record cursor := mk_cursor { block : list (option Z); at_ : Z }.

(** A local array of [n] bytes. *)
Definition fresh (n : nat) : cursor := mk_cursor (replicate n None) 0.

Definition bitstream_write_ubyte (c : cursor) (v : Z) : res cursor :=
  b ← store (block c) (at_ c) (Some (wrap_u8 v));
  Ok (mk_cursor b (at_ c + 1)).

(** The bytes of [memcpy], one after the other. *)
Fixpoint put_bytes (c : cursor) (bs : list Z) : res cursor :=
  match bs with
  | [] => Ok c
  | b :: bs => b' ← store (block c) (at_ c) (Some b); put_bytes (mk_cursor b' (at_ c + 1)) bs
  end.

Definition bitstream_write_uint32 (c : cursor) (v : Z) : res cursor := put_bytes c (le_bytes v).

(** [strncpy]: the bytes up to the terminating one, then zeros. *)
Fixpoint strncpy_bytes (s : list Z) (n : nat) : list Z :=
  match n with
  | O => []
  | S n =>
      match s with
      | [] => 0 :: strncpy_bytes [] n
      | c :: s => if c =? 0 then 0 :: strncpy_bytes [] n else c :: strncpy_bytes s n
      end
  end.

(** [string] is the content up to its terminating zero byte. *)
Definition bitstream_write_string (c : cursor) (string : list Z) (len : Z) : res cursor :=
  put_bytes c (strncpy_bytes string (Z.to_nat len)).

Definition bitstream_init (b : list (option Z)) (size : Z) : res (list (option Z)) :=
  if decide (0 <= size <= Z.of_nat (List.length b)) then
    Ok (replicate (Z.to_nat size) (Some 0) ++ drop (Z.to_nat size) b)
  else Undef.

(** A read of a byte nobody wrote is undefined. *)
Definition get_byte (b : list (option Z)) (i : Z) : res Z :=
  x ← load b i; match x with Some v => Ok v | None => Undef end.

Definition bitstream_read_ubyte (c : cursor) : res (Z * cursor) :=
  v ← get_byte (block c) (at_ c);
  Ok (v, mk_cursor (block c) (at_ c + 1)).

Definition bitstream_read_uint32 (c : cursor) : res (Z * cursor) :=
  b0 ← get_byte (block c) (at_ c);
  b1 ← get_byte (block c) (at_ c + 1);
  b2 ← get_byte (block c) (at_ c + 2);
  b3 ← get_byte (block c) (at_ c + 3);
  Ok (of_bytes b0 b1 b2 b3, mk_cursor (block c) (at_ c + 4)).

(** The first [len] bytes of a buffer, as they are sent. *)
Fixpoint written (b : list (option Z)) : res (list Z) :=
  match b with
  | [] => Ok []
  | Some v :: b => vs ← written b; Ok (v :: vs)
  | None :: _ => Undef
  end.

Definition sent_bytes (c : cursor) (len : Z) : res (list Z) :=
  if decide (0 <= len <= Z.of_nat (List.length (block c))) then written (take (Z.to_nat len) (block c)) else Undef.

(** A buffer of [n] bytes in which [pre] was written from the start. *)
Definition filled (n : nat) (pre : list Z) : cursor :=
  mk_cursor (map Some pre ++ replicate (n - List.length pre) None) (Z.of_nat (List.length pre)).

Lemma put_bytes_filled n pre bs :
  (List.length pre + List.length bs <= n)%nat -> put_bytes (filled n pre) bs = Ok (filled n (pre ++ bs)).
Proof.
  revert pre. induction bs as [|b bs IH]; intros pre Hl; cbn [put_bytes]; [by rewrite app_nil_r|].
  simpl in Hl. unfold filled at 1 2. simpl. rewrite store_ok by (rewrite length_app, length_map, length_replicate; lia).
  cbn [mbind res_bind]. replace (pre ++ b :: bs) with ((pre ++ [b]) ++ bs) by (by rewrite <- app_assoc).
  rewrite <- IH by (rewrite length_app; simpl; lia). f_equal. unfold filled. rewrite length_app, map_app. simpl. f_equal; [|lia].
  rewrite Nat2Z.id, insert_app_r_alt by (rewrite length_map; lia). rewrite length_map, Nat.sub_diag.
  destruct (n - List.length pre)%nat as [|k] eqn:Ek; [lia|]. simpl. rewrite <- app_assoc. simpl. do 3 f_equal. lia.
Qed.

(** Writing over as many bytes as are written. *)
Lemma put_bytes_app l old new r :
  List.length old = List.length new ->
  put_bytes (mk_cursor (l ++ old ++ r) (Z.of_nat (List.length l))) new = Ok (mk_cursor (l ++ (Some <$> new) ++ r) (Z.of_nat (List.length l + List.length new))).
Proof.
  revert l old. induction new as [|b new IH]; intros l [|o old] Hlen; try done; cbn [put_bytes].
  - simpl. by rewrite Nat.add_0_r.
  - simpl in Hlen. simpl block. simpl at_. rewrite store_ok by (rewrite length_app; simpl; lia). cbn [mbind res_bind].
    rewrite Nat2Z.id, insert_app_r_alt, Nat.sub_diag by lia. simpl insert.
    specialize (IH (l ++ [Some b]) old ltac:(lia)). rewrite length_app in IH. simpl List.length in IH. rewrite <- !app_assoc in IH. simpl app in IH.
    replace (Z.of_nat (List.length l) + 1) with (Z.of_nat (List.length l + 1)) by lia. simpl app. rewrite IH. simpl. do 2 f_equal. lia.
Qed.

Lemma write_uint32_filled n pre v :
  (List.length pre + 4 <= n)%nat -> bitstream_write_uint32 (filled n pre) v = Ok (filled n (pre ++ le_bytes v)).
Proof. intros Hl. apply put_bytes_filled. simpl. lia. Qed.

Lemma write_ubyte_filled n pre v :
  (List.length pre + 1 <= n)%nat -> bitstream_write_ubyte (filled n pre) v = Ok (filled n (pre ++ [wrap_u8 v])).
Proof.
  intros Hl. rewrite <- (put_bytes_filled n pre [wrap_u8 v]) by (simpl; lia). unfold bitstream_write_ubyte. cbn [put_bytes].
  by destruct (store _ _ _).
Qed.

Lemma fresh_filled n : fresh n = filled n [].
Proof. unfold fresh, filled. simpl. by rewrite Nat.sub_0_r. Qed.

Lemma written_some bs : written (map Some bs) = Ok bs.
Proof. induction bs as [|b bs IH]; simpl; [done|]. by rewrite IH. Qed.

Lemma sent_filled n bs : (List.length bs <= n)%nat -> sent_bytes (filled n bs) (Z.of_nat (List.length bs)) = Ok bs.
Proof.
  intros Hl. unfold sent_bytes, filled. simpl. rewrite decide_True by (rewrite length_app, length_map; lia).
  rewrite Nat2Z.id, take_app_length' by (by rewrite length_map). apply written_some.
Qed.
End PwpStream.
