(* ===== verification/CheckMsg.v ===== *)
(** * The messages of the Check library (src/libcheck/src/check_pack.c, check_msg.c)

    A test runs in a child process and tells its runner where it is and how it failed
    through a temporary file; the functions of check.c that a test calls send the
    messages.  The reader parses the file in a window of 8192 bytes that slides over it.

    A buffer is the list of its bytes from the pointer on, [None] where nothing was
    written; reading behind the block is undefined.  [emalloc], [fwrite] and [fread] are
    taken not to fail.  [eprintf] ends the process with 2. *)

From Stdlib Require Import Ascii String.
From S2P Require Import Prelude CString PwpStream Check.
Import PwpStream Check.

Module CheckMsg.

Definition CK_MAX_MSG_SIZE : Z := 8192.

(** A message with its type; [None] is [NULL]. *)
Inductive CheckMsg : Type :=
  | CtxMsg (ctx : Z)
  | FailMsg (msg : option string)
  | LocMsg (line : Z) (file : option string)
  | DurationMsg (duration : Z).

Definition CK_MSG_CTX : Z := 0.
Definition CK_MSG_FAIL : Z := 1.
Definition CK_MSG_LOC : Z := 2.
Definition CK_MSG_DURATION : Z := 3.
Definition CK_MSG_LAST : Z := 4.

Record RcvMsg := mk_RcvMsg {
  lastctx : Z; failctx : Z; fixture_file : option string; fixture_line : Z;
  test_file : option string; test_line : Z; rmsg_msg : option string; rmsg_duration : Z }.

(** The characters of a string as bytes. *)
Definition code (c : ascii) : Z := Z.of_N (N_of_ascii c).
Definition bytes (s : string) : list Z := code <$> list_ascii_of_string s.

(** The string that starts with some bytes. *)
Fixpoint text (bs : list Z) : string :=
  match bs with [] => "" | b :: bs => if b =? 0 then "" else String (ascii_of_N (Z.to_N b)) (text bs) end.

(** ** Packing *)

Definition pack_int (c : cursor) (val : Z) : res cursor :=
  let uval := wrap_u32 val in put_bytes c [byte 3 uval; byte 2 uval; byte 1 uval; byte 0 uval].

Definition str_len (val : option string) : Z := match val with None => 0 | Some s => strlen s end.

Definition pack_str (c : cursor) (val : option string) : res cursor :=
  let strsz := wrap_int (str_len val) in
  c ← pack_int c strsz;
  if 0 <? strsz then put_bytes c (take (Z.to_nat strsz) (bytes (default "" val))) else Ok c.

Definition pack_type (c : cursor) (type : Z) : res cursor := pack_int c type.

Definition pack_ctx (ctx : Z) : res (cursor * Z) :=
  let len := 4 + 4 in
  ptr ← pack_type (PwpStream.fresh (Z.to_nat len)) CK_MSG_CTX; ptr ← pack_int ptr ctx; Ok (ptr, len).

Definition pack_duration (duration : Z) : res (cursor * Z) :=
  let len := 4 + 4 in
  ptr ← pack_type (PwpStream.fresh (Z.to_nat len)) CK_MSG_DURATION; ptr ← pack_int ptr duration; Ok (ptr, len).

Definition pack_loc (line : Z) (file : option string) : res (cursor * Z) :=
  let len := wrap_int (4 + 4 + str_len file + 4) in
  ptr ← pack_type (PwpStream.fresh (Z.to_nat len)) CK_MSG_LOC; ptr ← pack_str ptr file; ptr ← pack_int ptr line; Ok (ptr, len).

Definition pack_fail (msg : option string) : res (cursor * Z) :=
  let len := wrap_int (4 + 4 + str_len msg) in
  ptr ← pack_type (PwpStream.fresh (Z.to_nat len)) CK_MSG_FAIL; ptr ← pack_str ptr msg; Ok (ptr, len).

Definition pack (m : CheckMsg) : res (cursor * Z) :=
  match m with
  | CtxMsg ctx => pack_ctx ctx
  | FailMsg msg => pack_fail msg
  | LocMsg line file => pack_loc line file
  | DurationMsg d => pack_duration d
  end.

(** The bytes go to the end of the file. *)
Definition ppack (fdes : list Z) (m : CheckMsg) : res (list Z) :=
  '(buf, n) ← pack m;
  if CK_MAX_MSG_SIZE / 2 <? n then Exit 2 else bs ← sent_bytes buf n; Ok (fdes ++ bs)%list.

(** ** Unpacking *)

Definition next_byte (buf : list (option Z)) : res (Z * list (option Z)) :=
  match buf with Some b :: buf => Ok (b, buf) | _ => Undef end.

(** The bytes are shifted as numbers of type [int]. *)
Definition upack_int (buf : list (option Z)) : res (Z * list (option Z)) :=
  '(b0, buf) ← next_byte buf; '(b1, buf) ← next_byte buf; '(b2, buf) ← next_byte buf; '(b3, buf) ← next_byte buf;
  x ← chk (Z.shiftl b0 24);
  Ok (wrap_int (Z.lor (Z.lor (Z.lor x (Z.shiftl b1 16)) (Z.shiftl b2 8)) b3), buf).

Fixpoint next_bytes (n : nat) (buf : list (option Z)) : res (list Z * list (option Z)) :=
  match n with
  | O => Ok ([], buf)
  | S n => '(b, buf) ← next_byte buf; '(bs, buf) ← next_bytes n buf; Ok (b :: bs, buf)
  end.

Definition upack_str (buf : list (option Z)) : res (string * list (option Z)) :=
  '(strsz, buf) ← upack_int buf;
  if 0 <? strsz then '(bs, buf) ← next_bytes (Z.to_nat strsz) buf; Ok (text bs, buf) else Ok ("", buf).

(** The message and the number of bytes it takes. *)
Definition upack (buf : list (option Z)) : res (CheckMsg * Z) :=
  let obuf := buf in
  '(type, buf) ← upack_int buf;
  if (type <? 0) || (CK_MSG_LAST <=? type) then Exit 2
  else
    '(m, buf) ←
      (if type =? CK_MSG_CTX then '(c, buf) ← upack_int buf; Ok (CtxMsg c, buf)
       else if type =? CK_MSG_FAIL then '(s, buf) ← upack_str buf; Ok (FailMsg (Some s), buf)
       else if type =? CK_MSG_LOC then '(s, buf) ← upack_str buf; '(l, buf) ← upack_int buf; Ok (LocMsg l (Some s), buf)
       else '(d, buf) ← upack_int buf; Ok (DurationMsg d, buf));
    Ok (m, Z.of_nat (List.length obuf) - Z.of_nat (List.length buf)).

(** ** What the reader keeps *)

Definition INVALID : Z := 0.
Definition SETUP : Z := 1.
Definition TEST : Z := 2.
Definition TEARDOWN : Z := 3.

Definition rcvmsg_create : RcvMsg := mk_RcvMsg INVALID INVALID None (-1) None (-1) None (-1).

Definition rcvmsg_update_ctx (r : RcvMsg) (ctx : Z) : RcvMsg :=
  if lastctx r =? INVALID then mk_RcvMsg ctx (failctx r) (fixture_file r) (fixture_line r) (test_file r) (test_line r) (rmsg_msg r) (rmsg_duration r)
  else mk_RcvMsg ctx (failctx r) None (-1) (test_file r) (test_line r) (rmsg_msg r) (rmsg_duration r).

Definition rcvmsg_update_loc (r : RcvMsg) (file : option string) (line : Z) : RcvMsg :=
  if lastctx r =? TEST then mk_RcvMsg (lastctx r) (failctx r) (fixture_file r) (fixture_line r) file line (rmsg_msg r) (rmsg_duration r)
  else mk_RcvMsg (lastctx r) (failctx r) file line (test_file r) (test_line r) (rmsg_msg r) (rmsg_duration r).

(** One message; only the first failure counts. *)
Definition update (r : RcvMsg) (m : CheckMsg) : RcvMsg :=
  match m with
  | CtxMsg ctx => rcvmsg_update_ctx r ctx
  | LocMsg line file => if failctx r =? INVALID then rcvmsg_update_loc r file line else r
  | FailMsg msg =>
      match rmsg_msg r with
      | None => mk_RcvMsg (lastctx r) (lastctx r) (fixture_file r) (fixture_line r) (test_file r) (test_line r) msg (rmsg_duration r)
      | Some _ => r
      end
  | DurationMsg d => mk_RcvMsg (lastctx r) (failctx r) (fixture_file r) (fixture_line r) (test_file r) (test_line r) (rmsg_msg r) d
  end.

Definition get_result (buf : list (option Z)) (r : RcvMsg) : res (RcvMsg * Z) := '(m, n) ← upack buf; Ok (update r m, n).

(** [fread] of up to [n] bytes to a place in the block. *)
Definition read_buf (fdes : list Z) (n : Z) (buf : list (option Z)) (at_ : Z) : res (list (option Z) * list Z * Z) :=
  let got := take (Z.to_nat n) fdes in
  c ← put_bytes (mk_cursor buf at_) got;
  Ok (block c, drop (Z.to_nat n) fdes, Z.of_nat (List.length got)).

(** [memmove(buf, buf + n, nparse)] *)
Definition memmove (buf : list (option Z)) (n nparse : Z) : res (list (option Z)) :=
  if decide (0 <= nparse /\ 0 <= n /\ n + nparse <= Z.of_nat (List.length buf)) then
    Ok (take (Z.to_nat nparse) (drop (Z.to_nat n) buf) ++ drop (Z.to_nat nparse) buf)%list
  else Undef.

Fixpoint punpack_loop (fuel : nat) (fdes : list Z) (buf : list (option Z)) (nread nparse : Z) (r : RcvMsg) : res RcvMsg :=
  if 0 <? nparse then
    match fuel with
    | O => OutOfFuel
    | S fuel =>
        '(r, n) ← get_result buf r;
        let nparse := nparse - n in
        buf ← memmove buf n nparse;
        if 0 <? nread then
          '(buf, fdes, nread) ← read_buf fdes n buf nparse;
          punpack_loop fuel fdes buf nread (nparse + nread) r
        else punpack_loop fuel fdes buf nread nparse r
    end
  else Ok r.

Definition punpack (fdes : list Z) : res (option RcvMsg) :=
  let buf := replicate (Z.to_nat CK_MAX_MSG_SIZE) None in
  let total := List.length fdes in
  '(buf, fdes, nread) ← read_buf fdes CK_MAX_MSG_SIZE buf 0;
  r ← punpack_loop (S total) fdes buf nread nread rcvmsg_create;
  Ok (if lastctx r =? INVALID then None else Some r).

(** ** The file between a test and its runner (check_msg.c)

    A runner inside a test uses the second file. *)

Record Pipes := mk_Pipes { send_file1 : option (list Z); send_file2 : option (list Z) }.

Definition setup_pipe (p : Pipes) : res Pipes :=
  match send_file1 p, send_file2 p with
  | None, _ => Ok (mk_Pipes (Some []) (send_file2 p))
  | Some _, None => Ok (mk_Pipes (send_file1 p) (Some []))
  | Some _, Some _ => Exit 2
  end.

Definition teardown_pipe (p : Pipes) : res Pipes :=
  match send_file2 p, send_file1 p with
  | Some _, _ => Ok (mk_Pipes (send_file1 p) None)
  | None, Some _ => Ok (mk_Pipes None None)
  | None, None => Exit 2
  end.

Definition get_pipe (p : Pipes) : res (list Z) :=
  match send_file2 p, send_file1 p with Some f, _ => Ok f | None, Some f => Ok f | None, None => Exit 2 end.

Definition set_pipe (p : Pipes) (f : list Z) : Pipes :=
  match send_file2 p with Some _ => mk_Pipes (send_file1 p) (Some f) | None => mk_Pipes (Some f) None end.

Definition send_msg (p : Pipes) (m : CheckMsg) : res Pipes := f ← get_pipe p; f ← ppack f m; Ok (set_pipe p f).
Definition send_failure_info (p : Pipes) (msg : string) : res Pipes := send_msg p (FailMsg (Some msg)).
Definition send_duration_info (p : Pipes) (duration : Z) : res Pipes := send_msg p (DurationMsg duration).
Definition send_loc_info (p : Pipes) (file : string) (line : Z) : res Pipes := send_msg p (LocMsg line (Some file)).
Definition send_ctx_info (p : Pipes) (ctx : Z) : res Pipes := send_msg p (CtxMsg ctx).

(** What a test calls (check.c).  A failed assertion leaves the test after its message;
    [msg] is the text that [vsnprintf] made. *)
Definition tcase_fn_start (p : Pipes) (file : string) (line : Z) : res Pipes := p ← send_ctx_info p TEST; send_loc_info p file line.
Definition mark_point (p : Pipes) (file : string) (line : Z) : res Pipes := send_loc_info p file line.
Definition ck_assert_failed (p : Pipes) (file : string) (line : Z) (msg : string) : res Pipes := p ← send_loc_info p file line; send_failure_info p msg.

Definition ctx_of (z : Z) : ck_result_ctx :=
  if z =? SETUP then CK_CTX_SETUP else if z =? TEST then CK_CTX_TEST else if z =? TEARDOWN then CK_CTX_TEARDOWN else CK_CTX_INVALID.

Definition tr_set_loc_by_ctx (tr : TestResult) (ctx_ : Z) (r : RcvMsg) : TestResult :=
  let '(f, l) := if ctx_ =? TEST then (test_file r, test_line r) else (fixture_file r, fixture_line r) in
  mk_TestResult (rtype tr) (ctx tr) f l (iter tr) (duration tr) (tcname tr) (tname tr) (msg tr).

Definition with_outcome (c : ck_result_ctx) (m : option string) (d : Z) : TestResult :=
  mk_TestResult (rtype tr_create) c (file tr_create) (line tr_create) (iter tr_create) d (tcname tr_create) (tname tr_create) m.

Definition construct_test_result (r : RcvMsg) (waserror : bool) : TestResult :=
  if bool_decide (rmsg_msg r <> None) || waserror then
    tr_set_loc_by_ctx (with_outcome (ctx_of (lastctx r)) (rmsg_msg r) (duration tr_create)) (lastctx r) r
  else if lastctx r =? SETUP then
    tr_set_loc_by_ctx (with_outcome CK_CTX_SETUP None (duration tr_create)) SETUP r
  else tr_set_loc_by_ctx (with_outcome CK_CTX_TEST None (rmsg_duration r)) TEST r.

Definition receive_test_result (p : Pipes) (waserror : bool) : res (Pipes * TestResult) :=
  f ← get_pipe p;
  r ← punpack f;
  match r with
  | None => Exit 2
  | Some r => p ← teardown_pipe p; p ← setup_pipe p; Ok (p, construct_test_result r waserror)
  end.

(** ** One message *)

Definition be (v : Z) : list Z := [byte 3 v; byte 2 v; byte 1 v; byte 0 v].
Definition enc_str (s : string) : list Z := (be (strlen s) ++ bytes s)%list.

(** The bytes of a message. *)
Definition enc (m : CheckMsg) : list Z :=
  match m with
  | CtxMsg c => be CK_MSG_CTX ++ be c
  | FailMsg s => be CK_MSG_FAIL ++ enc_str (default "" s)
  | LocMsg l f => be CK_MSG_LOC ++ enc_str (default "" f) ++ be l
  | DurationMsg d => be CK_MSG_DURATION ++ be d
  end%list.

(** What the reader sees: a string that is [NULL] arrives empty. *)
Definition seen (m : CheckMsg) : CheckMsg :=
  match m with FailMsg s => FailMsg (Some (default "" s)) | LocMsg l f => LocMsg l (Some (default "" f)) | _ => m end.

Definition natural (z : Z) : bool := (0 <=? z) && (z <=? int_max).
Definition c_string (s : string) : bool := forallb (fun c => negb (code c =? 0)) (list_ascii_of_string s).

(** Messages that can be sent: their numbers are not negative, and they are not longer
    than half of the window. *)
Definition sendable (m : CheckMsg) : bool :=
  match m with
  | CtxMsg c => natural c
  | FailMsg s => c_string (default "" s)
  | LocMsg l f => natural l && c_string (default "" f)
  | DurationMsg d => natural d
  end && (Z.of_nat (List.length (enc m)) <=? CK_MAX_MSG_SIZE / 2).

Lemma natural_spec z : natural z = true -> 0 <= z < 2 ^ 31.
Proof. intros [H1%Z.leb_le H2%Z.leb_le]%andb_true_iff. unfold int_max in *. lia. Qed.

Lemma length_bytes s : List.length (bytes s) = String.length s.
Proof. unfold bytes. rewrite length_fmap. by induction s; simpl; f_equal. Qed.

Lemma text_bytes s : c_string s = true -> text (bytes s) = s.
Proof.
  unfold c_string, bytes. induction s as [|c s IH]; simpl; [done|]. intros [Hc%negb_true_iff H]%andb_true_iff. rewrite Hc. unfold code. rewrite N2Z.id, ascii_N_embedding. f_equal. by apply IH.
Qed.

Lemma length_enc m : (8 <= List.length (enc m))%nat.
Proof. destruct m; simpl; rewrite ?length_app; simpl; lia. Qed.

Lemma pack_int_filled n pre v :
  0 <= v < 2 ^ 31 -> (List.length pre + 4 <= n)%nat -> pack_int (filled n pre) v = Ok (filled n (pre ++ be v)%list).
Proof. intros Hv Hn. unfold pack_int. rewrite wrap_u32_id by lia. apply put_bytes_filled. simpl. lia. Qed.

Lemma pack_str_filled n pre s :
  strlen (default "" s) < 2 ^ 31 -> (List.length pre + 4 + String.length (default "" s) <= n)%nat -> pack_str (filled n pre) s = Ok (filled n (pre ++ enc_str (default "" s))%list).
Proof.
  intros Hs Hn. unfold pack_str. assert (str_len s = strlen (default "" s)) as -> by by destruct s. unfold strlen in *.
  rewrite wrap_int_id by (unfold in_int, int_min, int_max; lia). rewrite pack_int_filled by lia. cbn [mbind res_bind]. unfold enc_str, strlen.
  destruct (Z.ltb_spec 0 (Z.of_nat (String.length (default "" s)))) as [Hl|Hl].
  - rewrite Nat2Z.id, take_ge by (by rewrite length_bytes). rewrite put_bytes_filled by (rewrite length_app, length_bytes; simpl; lia). by rewrite <- app_assoc.
  - destruct (default "" s); [|simpl in Hl; lia]. done.
Qed.

Lemma length_enc_str s : List.length (enc_str s) = (4 + String.length s)%nat.
Proof. unfold enc_str. rewrite length_app, length_bytes. done. Qed.

(** Arithmetic on the types and sizes of messages. *)
Ltac msg_lia := unfold CK_MSG_CTX, CK_MSG_FAIL, CK_MSG_LOC, CK_MSG_DURATION; cbn [List.length be app]; lia.

Lemma pack_spec m : sendable m = true -> pack m = Ok (filled (List.length (enc m)) (enc m), Z.of_nat (List.length (enc m))).
Proof.
  intros [Hm Hl%Z.leb_le]%andb_true_iff. change (CK_MAX_MSG_SIZE / 2) with 4096 in Hl. destruct m as [c|s|l f|d]; simpl pack; cbn [enc] in *.
  - unfold pack_ctx, pack_type. rewrite fresh_filled. apply natural_spec in Hm. rewrite pack_int_filled by msg_lia. cbn [mbind res_bind]. rewrite pack_int_filled by (done || msg_lia). done.
  - unfold pack_fail, pack_type. assert (str_len s = strlen (default "" s)) as -> by by destruct s. rewrite length_app, length_enc_str in *. unfold strlen in *. simpl List.length in *.
    rewrite wrap_int_id by (unfold in_int, int_min, int_max; lia). rewrite fresh_filled, pack_int_filled by msg_lia. cbn [mbind res_bind].
    rewrite pack_str_filled by (unfold strlen; simpl; lia). cbn [mbind res_bind]. simpl app. repeat f_equal; lia.
  - unfold pack_loc, pack_type. apply andb_true_iff in Hm as [Hn%natural_spec _]. assert (str_len f = strlen (default "" f)) as -> by by destruct f. rewrite !length_app, length_enc_str in *. unfold strlen in *. simpl List.length in *.
    rewrite wrap_int_id by (unfold in_int, int_min, int_max; lia). rewrite fresh_filled, pack_int_filled by msg_lia. cbn [mbind res_bind].
    rewrite pack_str_filled by (unfold strlen; simpl; lia). cbn [mbind res_bind]. rewrite pack_int_filled by (done || rewrite !length_app, length_enc_str; simpl; lia). cbn [mbind res_bind].
    rewrite <- app_assoc. simpl app. repeat f_equal; lia.
  - unfold pack_duration, pack_type. rewrite fresh_filled. apply natural_spec in Hm. rewrite pack_int_filled by msg_lia. cbn [mbind res_bind]. rewrite pack_int_filled by (done || msg_lia). done.
Qed.

Lemma ppack_spec f m : sendable m = true -> ppack f m = Ok (f ++ enc m)%list.
Proof.
  intros Hm. unfold ppack. rewrite pack_spec by done. cbn [mbind res_bind]. pose proof Hm as [_ Hl%Z.leb_le]%andb_true_iff. rewrite (proj2 (Z.ltb_ge _ _)) by done.
  by rewrite sent_filled by done.
Qed.

Lemma upack_int_spec v rest : 0 <= v < 2 ^ 31 -> upack_int ((Some <$> be v) ++ rest)%list = Ok (v, rest).
Proof.
  intros Hv. unfold upack_int, be. cbn [fmap list_fmap app]. cbn [next_byte mbind res_bind]. assert (byte 3 v < 128) as Hb.
  { rewrite byte_div by lia. change (2 ^ (8 * 3)) with 16777216. rewrite Z.mod_small; [apply Z.div_lt_upper_bound; lia|]. split; [apply Z.div_pos; lia|apply Z.div_lt_upper_bound; lia]. }
  pose proof (byte_range 3 v ltac:(lia)) as Hr. unfold is_byte in Hr. rewrite chk_ok by (rewrite Z.shiftl_mul_pow2 by lia; unfold in_int, int_min, int_max; lia). cbn [mbind res_bind].
  assert (Z.lor (Z.lor (Z.lor (Z.shiftl (byte 3 v) 24) (Z.shiftl (byte 2 v) 16)) (Z.shiftl (byte 1 v) 8)) (byte 0 v) = v) as ->.
  { rewrite <- (of_bytes_byte v) at 5 by (unfold is_u32; lia). unfold of_bytes. apply Z.bits_inj'. intros k Hk. rewrite !Z.lor_spec. by repeat destruct (Z.testbit _ k). }
  by rewrite wrap_int_id by (unfold in_int, int_min, int_max; lia).
Qed.

Lemma next_bytes_spec bs rest : next_bytes (List.length bs) ((Some <$> bs) ++ rest)%list = Ok (bs, rest).
Proof. induction bs as [|b bs IH]; [done|]. cbn [List.length next_bytes]. rewrite fmap_cons. cbn [app next_byte mbind res_bind]. by rewrite IH. Qed.

Lemma upack_str_spec s rest : c_string s = true -> strlen s < 2 ^ 31 -> upack_str ((Some <$> enc_str s) ++ rest)%list = Ok (s, rest).
Proof.
  intros Hs Hl. unfold upack_str, enc_str. rewrite fmap_app, <- app_assoc, upack_int_spec by (unfold strlen in *; lia). cbn [mbind res_bind]. unfold strlen.
  destruct (Z.ltb_spec 0 (Z.of_nat (String.length s))) as [Hp|Hp].
  - rewrite Nat2Z.id, <- length_bytes, next_bytes_spec. cbn [mbind res_bind]. by rewrite text_bytes.
  - destruct s; [done|]. simpl in Hp. lia.
Qed.

Lemma upack_spec m rest : sendable m = true -> upack ((Some <$> enc m) ++ rest)%list = Ok (seen m, Z.of_nat (List.length (enc m))).
Proof.
  intros Hm. pose proof Hm as [Hp Hl%Z.leb_le]%andb_true_iff. change (CK_MAX_MSG_SIZE / 2) with 4096 in Hl. unfold upack. rewrite length_app, length_fmap.
  destruct m as [c|s|l f|d]; cbn [enc seen] in *; rewrite ?fmap_app, <- ?app_assoc in *; rewrite upack_int_spec by (vm_compute; split; congruence); cbn [mbind res_bind]; simpl orb; cbv iota.
  - apply natural_spec in Hp. simpl Z.eqb. cbv iota. rewrite upack_int_spec by done. cbn [mbind res_bind]. f_equal. f_equal. lia.
  - simpl Z.eqb. cbv iota. rewrite length_app, length_enc_str in Hl. rewrite upack_str_spec by (done || unfold strlen; lia). cbn [mbind res_bind]. f_equal. f_equal. lia.
  - apply andb_true_iff in Hp as [Hn%natural_spec Hf]. simpl Z.eqb. cbv iota. rewrite !length_app, length_enc_str in Hl. rewrite upack_str_spec by (done || unfold strlen; lia). cbn [mbind res_bind].
    rewrite upack_int_spec by done. cbn [mbind res_bind]. f_equal. f_equal. lia.
  - apply natural_spec in Hp. simpl Z.eqb. cbv iota. rewrite upack_int_spec by done. cbn [mbind res_bind]. f_equal. f_equal. lia.
Qed.

(** ** The window *)

Definition stream (ms : list CheckMsg) : list Z := m ← ms; enc m.

Lemma stream_cons m ms : stream (m :: ms) = (enc m ++ stream ms)%list.
Proof. reflexivity. Qed.

(** The first [np] bytes of the window are the next bytes of the stream, the rest of the
    stream is still in the file, and the window is full unless the file is read. *)
Record window (buf : list (option Z)) (fdes : list Z) (nread : Z) (np : nat) (pending : list Z) : Prop := {
  w_len : List.length buf = Z.to_nat CK_MAX_MSG_SIZE;
  w_buf : take np buf = Some <$> take np pending;
  w_file : fdes = drop np pending;
  w_np : Z.of_nat np = Z.min CK_MAX_MSG_SIZE (Z.of_nat (List.length pending));
  w_read : 0 < nread \/ fdes = []
}.

Lemma read_buf_spec fdes n l old r :
  List.length old = Nat.min (Z.to_nat n) (List.length fdes) ->
  read_buf fdes n (l ++ old ++ r)%list (Z.of_nat (List.length l)) =
    Ok ((l ++ (Some <$> take (Z.to_nat n) fdes) ++ r)%list, drop (Z.to_nat n) fdes, Z.of_nat (Nat.min (Z.to_nat n) (List.length fdes))).
Proof. intros Hl. unfold read_buf. rewrite put_bytes_app by (by rewrite length_take). cbn [mbind res_bind block]. by rewrite length_take. Qed.

Lemma window_first buf fdes nread np m ms : window buf fdes nread np (stream (m :: ms)) -> sendable m = true -> (List.length (enc m) <= np)%nat /\ exists rest, buf = ((Some <$> enc m) ++ rest)%list.
Proof.
  intros [Hl Hb _ Hn _] [_ Hs%Z.leb_le]%andb_true_iff. rewrite stream_cons, length_app in *. change (CK_MAX_MSG_SIZE / 2) with 4096 in Hs. unfold CK_MAX_MSG_SIZE in *.
  assert (List.length (enc m) <= np)%nat as Hle by lia. split; [done|]. exists (drop (List.length (enc m)) buf). rewrite <- (take_drop (List.length (enc m)) buf) at 1. f_equal.
  replace (take (List.length (enc m)) buf) with (take (List.length (enc m)) (take np buf)) by (rewrite take_take; f_equal; lia). rewrite Hb, <- fmap_take, take_take.
  rewrite Nat.min_l, take_app_length by done. done.
Qed.

(** The message is taken out and the rest moves to the front ... *)
Lemma window_move buf fdes nread np m ms :
  window buf fdes nread np (stream (m :: ms)) -> sendable m = true ->
  let L := List.length (enc m) in
  exists tl, memmove buf (Z.of_nat L) (Z.of_nat np - Z.of_nat L) = Ok ((Some <$> take (np - L) (stream ms)) ++ tl)%list /\
    (np - L + List.length tl)%nat = List.length buf /\ List.length (take (np - L) (stream ms)) = (np - L)%nat /\ fdes = drop (np - L) (stream ms).
Proof.
  intros Hw Hm L. destruct (window_first buf fdes nread np m ms Hw Hm) as (Hle & _). destruct Hw as [Hl Hb Hf Hn Hr]. rewrite stream_cons, length_app in *. fold L in Hle, Hn.
  assert (np <= List.length buf)%nat as Hnb by (unfold CK_MAX_MSG_SIZE in *; lia). unfold memmove. rewrite decide_True by lia.
  replace (Z.to_nat (Z.of_nat np - Z.of_nat L)) with (np - L)%nat by lia. rewrite Nat2Z.id, take_drop_commute. replace (L + (np - L))%nat with np by lia. rewrite Hb, <- fmap_drop.
  assert (drop L (take np (enc m ++ stream ms)%list) = take (np - L) (stream ms)) as ->.
  { rewrite <- (drop_app_length (enc m) (stream ms)) at 2. fold L. rewrite take_drop_commute. do 2 f_equal. lia. }
  exists (drop (np - L) buf). split; [done|].
  rewrite length_drop, length_take. split; [lia|]. split; [unfold CK_MAX_MSG_SIZE in *; lia|]. rewrite Hf. rewrite <- (drop_app_length (enc m) (stream ms)) at 2. fold L. rewrite drop_drop. f_equal. lia.
Qed.

(** ... and the file fills the window up again, unless its end was seen. *)
Lemma window_next buf fdes nread np m ms :
  window buf fdes nread np (stream (m :: ms)) -> sendable m = true ->
  let n := Z.of_nat (List.length (enc m)) in
  exists buf1, memmove buf n (Z.of_nat np - n) = Ok buf1 /\
    if 0 <? nread then
      exists buf2 fdes2 nread2 np2, read_buf fdes n buf1 (Z.of_nat np - n) = Ok (buf2, fdes2, nread2) /\ Z.of_nat np2 = Z.of_nat np - n + nread2 /\ window buf2 fdes2 nread2 np2 (stream ms)
    else exists np2, Z.of_nat np2 = Z.of_nat np - n /\ window buf1 fdes nread np2 (stream ms).
Proof.
  intros Hw Hm n. destruct (window_first buf fdes nread np m ms Hw Hm) as (Hle & _). destruct (window_move buf fdes nread np m ms Hw Hm) as (tl & E1 & Htl & Hk & Hf).
  destruct Hw as [Hl _ Hf0 Hn Hr]. pose proof (length_enc m) as H8. rewrite stream_cons, length_app in *. subst n. set (L := List.length (enc m)) in *. set (p := stream ms) in *.
  eexists. split; [exact E1|]. set (keep := Some <$> take (np - L) p). assert (List.length keep = np - L)%nat as Hkeep by (unfold keep; by rewrite length_fmap). unfold CK_MAX_MSG_SIZE in *.
  assert (List.length fdes = List.length p - (np - L))%nat as Hlf by (rewrite Hf, length_drop; done).
  destruct (Z.ltb_spec 0 nread) as [Hpos|Hneg].
  - set (g := Nat.min L (List.length fdes)). rewrite <- (take_drop g tl). replace (Z.of_nat np - Z.of_nat L) with (Z.of_nat (List.length keep)) by lia.
    rewrite read_buf_spec by (rewrite length_take, Nat2Z.id; unfold g; lia). rewrite Nat2Z.id. fold g. eexists _, _, _, (np - L + g)%nat. split; [done|]. split; [lia|].
    assert (take (np - L + g) p = take (np - L) p ++ take L fdes)%list as Htake.
    { rewrite Hf, take_take_drop. destruct (decide (L <= List.length fdes)%nat) as [Hg|Hg]; [by replace g with L by (unfold g; lia)|]. rewrite !take_ge by (unfold g; lia). done. }
    split.
    + rewrite !length_app, length_fmap, length_take, length_drop, Hkeep. fold g. unfold g, CK_MAX_MSG_SIZE. lia.
    + rewrite app_assoc, take_app_length' by (rewrite length_app, length_fmap, length_take, Hkeep; done). rewrite Htake, fmap_app. done.
    + rewrite Hf, drop_drop. destruct (decide (L <= List.length fdes)%nat) as [Hg|Hg]; [f_equal; unfold g; lia|]. rewrite !drop_ge by (unfold g; lia). done.
    + unfold g, CK_MAX_MSG_SIZE. lia.
    + destruct (decide (g = 0)%nat) as [Hg|Hg]; [right|left; lia]. apply nil_length_inv. rewrite length_drop. unfold g in Hg. lia.
  - destruct Hr as [Hr|Hr]; [lia|]. rewrite Hr in Hlf. simpl in Hlf. exists (np - L)%nat. split; [lia|]. split.
    + rewrite length_app, Hkeep. unfold CK_MAX_MSG_SIZE. lia.
    + by rewrite take_app_length' by done.
    + done.
    + unfold CK_MAX_MSG_SIZE. lia.
    + by right.
Qed.

Lemma punpack_loop_spec ms fuel fdes buf nread np r :
  forallb sendable ms = true -> window buf fdes nread np (stream ms) -> (List.length ms <= fuel)%nat ->
  punpack_loop fuel fdes buf nread (Z.of_nat np) r = Ok (fold_left update (seen <$> ms) r).
Proof.
  revert fuel fdes buf nread np r. induction ms as [|m ms IH]; intros fuel fdes buf nread np r Hs Hw Hfu.
  { pose proof (w_np _ _ _ _ _ Hw) as Hn. simpl in Hn. unfold CK_MAX_MSG_SIZE in Hn. assert (np = 0)%nat as -> by lia. by destruct fuel. }
  cbn [forallb] in Hs. apply andb_true_iff in Hs as [Hm Hs]. destruct fuel as [|fuel]; [simpl in Hfu; lia|]. simpl in Hfu. cbn [punpack_loop].
  destruct (window_first buf fdes nread np m ms Hw Hm) as (Hle & rest & Hbuf). pose proof (length_enc m). rewrite (proj2 (Z.ltb_lt 0 _)) by lia.
  unfold get_result. assert (upack buf = Ok (seen m, Z.of_nat (List.length (enc m)))) as -> by (rewrite Hbuf; by apply upack_spec). cbn [mbind res_bind].
  destruct (window_next buf fdes nread np m ms Hw Hm) as (buf1 & -> & Hnext). cbn [mbind res_bind]. rewrite fmap_cons. cbn [fold_left].
  destruct (0 <? nread).
  - destruct Hnext as (buf2 & fdes2 & nread2 & np2 & -> & E2 & Hw2). cbn [mbind res_bind]. rewrite <- E2. apply IH; done || lia.
  - destruct Hnext as (np2 & E2 & Hw2). rewrite <- E2. apply IH; done || lia.
Qed.

Lemma stream_length ms : (List.length ms <= List.length (stream ms))%nat.
Proof. induction ms as [|m ms IH]; [done|]. rewrite stream_cons, length_app. pose proof (length_enc m). simpl. lia. Qed.

Lemma window_start ms b :
  List.length b = Z.to_nat CK_MAX_MSG_SIZE ->
  exists buf fdes np, read_buf (stream ms) CK_MAX_MSG_SIZE b 0 = Ok (buf, fdes, Z.of_nat np) /\ window buf fdes (Z.of_nat np) np (stream ms).
Proof.
  intros Hb. pose proof (fun old r => read_buf_spec (stream ms) CK_MAX_MSG_SIZE [] old r) as E1. change (Z.of_nat (List.length [])) with 0 in E1.
  assert (Z.of_nat (Z.to_nat CK_MAX_MSG_SIZE) = CK_MAX_MSG_SIZE /\ 0 < CK_MAX_MSG_SIZE) as [HN Hpos] by (unfold CK_MAX_MSG_SIZE; lia).
  remember (Z.to_nat CK_MAX_MSG_SIZE) as N eqn:HNe. set (g := Nat.min N (List.length (stream ms))).
  specialize (E1 (take g b) (drop g b)). rewrite !app_nil_l, take_drop in E1. fold g in E1.
  eexists _, _, g. split; [apply E1; rewrite length_take; unfold g; lia|]. split; rewrite <- ?HNe.
  - rewrite length_app, length_fmap, length_take, length_drop. fold g. unfold g. lia.
  - rewrite take_app_length' by (rewrite length_fmap, length_take; done). f_equal. unfold g. destruct (decide (N <= List.length (stream ms))%nat); [f_equal; lia|]. rewrite !take_ge by lia. done.
  - unfold g. destruct (decide (N <= List.length (stream ms))%nat); [f_equal; lia|]. rewrite !drop_ge by lia. done.
  - unfold g. lia.
  - destruct (decide (g = 0)%nat) as [Hg|Hg]; [right|left; lia]. apply nil_length_inv. rewrite length_drop. unfold g in Hg. lia.
Qed.

Lemma punpack_spec ms :
  forallb sendable ms = true -> let r := fold_left update (seen <$> ms) rcvmsg_create in
  punpack (stream ms) = Ok (if lastctx r =? INVALID then None else Some r).
Proof.
  intros Hs r. unfold punpack. destruct (window_start ms (replicate (Z.to_nat CK_MAX_MSG_SIZE) None)) as (buf & fdes & np & -> & Hw); [apply length_replicate|].
  cbn [mbind res_bind]. rewrite (punpack_loop_spec ms); [done|done|done|]. pose proof (stream_length ms). lia.
Qed.

(** ** From a test to its result *)

Fixpoint send_msgs (p : Pipes) (ms : list CheckMsg) : res Pipes :=
  match ms with [] => Ok p | m :: ms => p ← send_msg p m; send_msgs p ms end.

Lemma send_msgs_spec p f ms :
  get_pipe p = Ok f -> forallb sendable ms = true -> exists p', send_msgs p ms = Ok p' /\ get_pipe p' = Ok (f ++ stream ms)%list.
Proof.
  revert p f. induction ms as [|m ms IH]; intros p f Hp Hs; cbn [send_msgs].
  { exists p. split; [done|]. unfold stream. simpl. by rewrite app_nil_r. }
  cbn [forallb] in Hs. apply andb_true_iff in Hs as [Hm Hs]. unfold send_msg. rewrite Hp. cbn [mbind res_bind]. rewrite ppack_spec by done. cbn [mbind res_bind].
  destruct (IH (set_pipe p (f ++ enc m)%list) (f ++ enc m)%list) as (p' & -> & Hg); [|done|].
  { unfold get_pipe, set_pipe in *. by destruct p as [[|] [|]]. }
  exists p'. split; [done|]. rewrite Hg, stream_cons, app_assoc. done.
Qed.

Lemma pipe_reset p f : get_pipe p = Ok f -> exists p1 p2, teardown_pipe p = Ok p1 /\ setup_pipe p1 = Ok p2 /\ get_pipe p2 = Ok [].
Proof. unfold get_pipe, teardown_pipe, setup_pipe. destruct p as [[f1|] [f2|]]; simpl; try done; intros _; eexists _, _; (split; [done|]); done. Qed.

Lemma receive_spec p ms waserror :
  get_pipe p = Ok (stream ms) -> forallb sendable ms = true ->
  let r := fold_left update (seen <$> ms) rcvmsg_create in lastctx r <> INVALID ->
  exists p', receive_test_result p waserror = Ok (p', construct_test_result r waserror) /\ get_pipe p' = Ok [].
Proof.
  intros Hp Hs r Hr. destruct (pipe_reset p _ Hp) as (q1 & q2 & E2 & E3 & Hq).
  exists q2. split; [|done]. unfold receive_test_result. rewrite Hp. cbn [mbind res_bind]. rewrite punpack_spec by done. cbn [mbind res_bind]. fold r.
  rewrite (proj2 (Z.eqb_neq _ _)) by done. rewrite E2. cbn [mbind res_bind]. by rewrite E3.
Qed.

(** What the runner constructs is made from the messages one by one, whatever their
    number: the window never cuts a message and never reads what was not sent.  After
    that the file is empty for the next test. *)
Theorem check_messages_received (p : Pipes) (ms : list CheckMsg) (waserror : bool) :
  get_pipe p = Ok [] -> forallb sendable ms = true ->
  let r := fold_left update (seen <$> ms) rcvmsg_create in lastctx r <> INVALID ->
  exists p1 p2, send_msgs p ms = Ok p1 /\ receive_test_result p1 waserror = Ok (p2, construct_test_result r waserror) /\ get_pipe p2 = Ok [].
Proof.
  intros Hp Hs r Hr. destruct (send_msgs_spec p [] ms Hp Hs) as (p1 & E1 & Hp1).
  destruct (receive_spec p1 ms waserror Hp1 Hs Hr) as (p2 & E2 & Hp2). by exists p1, p2.
Qed.

(** The marks of a test. *)
Definition mark (x : string * Z) : CheckMsg := LocMsg x.2 (Some x.1).

(** The last place a test passed. *)
Definition last_place (start : string * Z) (marks : list (string * Z)) : string * Z := fold_left (fun _ x => x) marks start.

Lemma update_marks marks x r :
  lastctx r = TEST -> failctx r = INVALID -> test_file r = Some x.1 -> test_line r = x.2 ->
  let r' := fold_left update (seen <$> (mark <$> marks)) r in
  lastctx r' = TEST /\ failctx r' = INVALID /\ rmsg_msg r' = rmsg_msg r /\ rmsg_duration r' = rmsg_duration r /\
  test_file r' = Some (last_place x marks).1 /\ test_line r' = (last_place x marks).2.
Proof.
  revert x r. induction marks as [|y marks IH]; intros x r Hc Hf Ht Hl r'; unfold r'; clear r'.
  { cbn. rewrite Ht, Hl. done. }
  rewrite !fmap_cons. cbn [fold_left seen mark default update]. rewrite Hf, Z.eqb_refl. unfold rcvmsg_update_loc. rewrite Hc, Z.eqb_refl.
  match goal with |- context [fold_left update _ ?r1] => pose proof (IH y r1) as H end. by apply H.
Qed.

Lemma send_msgs_app p xs ys p' : send_msgs p (xs ++ ys)%list = Ok p' -> exists p1, send_msgs p xs = Ok p1 /\ send_msgs p1 ys = Ok p'.
Proof.
  revert p. induction xs as [|x xs IH]; intros p H; [by exists p|]. cbn [app send_msgs] in *. apply res_bind_inv in H as (q1 & H1 & H2).
  destruct (IH q1 H2) as (q2 & H3 & H4). exists q2. rewrite H1. done.
Qed.

Definition started (x : string * Z) : RcvMsg := mk_RcvMsg TEST INVALID None (-1) (Some x.1) x.2 None (-1).

Lemma update_start x ms : fold_left update (seen <$> ([CtxMsg TEST; mark x] ++ ms)%list) rcvmsg_create = fold_left update (seen <$> ms) (started x).
Proof. done. Qed.

(** A test that fails an assertion is reported with the place and the message of the
    assertion, whatever points it passed before. *)
Theorem check_failure_reported (p : Pipes) (f0 : string) (l0 : Z) (marks : list (string * Z)) (f : string) (l : Z) (m : string) :
  get_pipe p = Ok [] -> forallb sendable ([CtxMsg TEST; mark (f0, l0)] ++ (mark <$> marks) ++ [mark (f, l); FailMsg (Some m)]) = true ->
  exists p1 p2 p3 p4 tr, tcase_fn_start p f0 l0 = Ok p1 /\ send_msgs p1 (mark <$> marks) = Ok p2 /\ ck_assert_failed p2 f l m = Ok p3 /\
    receive_test_result p3 false = Ok (p4, tr) /\ get_pipe p4 = Ok [] /\
    tr_ctx tr = CK_CTX_TEST /\ tr_lfile tr = Some f /\ tr_lno tr = l /\ tr_msg tr = Some m.
Proof.
  intros Hp Hs. set (ms := ([CtxMsg TEST; mark (f0, l0)] ++ (mark <$> marks) ++ [mark (f, l); FailMsg (Some m)])%list) in *. set (r := fold_left update (seen <$> ms) rcvmsg_create).
  assert (exists ff fl d, r = mk_RcvMsg TEST TEST ff fl (Some f) l (Some m) d) as (ff & fl & d & Hr).
  { unfold r, ms. rewrite update_start, fmap_app, fold_left_app. destruct (update_marks marks (f0, l0) (started (f0, l0))) as (Hc & Hf & Hm & _); [done..|].
    set (r1 := fold_left _ _ _) in *. cbn [fmap list_fmap fold_left seen mark fst snd default update]. rewrite Hf, Z.eqb_refl. unfold rcvmsg_update_loc. rewrite Hc. cbn [rmsg_msg lastctx failctx].
    rewrite Z.eqb_refl. cbn [rmsg_msg]. rewrite Hm. by eexists _, _, _. }
  destruct (check_messages_received p ms false Hp Hs) as (p3 & p4 & Esend & Erecv & Hp4); [fold r; by rewrite Hr|]. fold r in Erecv.
  unfold ms in Esend. apply send_msgs_app in Esend as (p1 & Ea & Esend). apply send_msgs_app in Esend as (p2 & Eb & Ec).
  exists p1, p2, p3, p4, (construct_test_result r false). rewrite Hr in *. split_and!; try done.
  - cbn [send_msgs] in Ea. apply res_bind_inv in Ea as (q & E1 & Ea). apply res_bind_inv in Ea as (q' & E2 & [= ->]). unfold tcase_fn_start, send_ctx_info, send_loc_info. by rewrite E1.
  - cbn [send_msgs] in Ec. apply res_bind_inv in Ec as (q & E1 & Ec). apply res_bind_inv in Ec as (q' & E2 & [= ->]). unfold ck_assert_failed, send_loc_info, send_failure_info.
    change (LocMsg l (Some f)) with (mark (f, l)). by rewrite E1.
Qed.

Lemma check_failure_reported_witness :
  exists p1 p2 p3 p4 tr, tcase_fn_start (mk_Pipes (Some []) None) "t.c" 10 = Ok p1 /\ send_msgs p1 (mark <$> [("t.c", 12); ("u.c", 3)]) = Ok p2 /\ ck_assert_failed p2 "t.c" 14 "x == 1" = Ok p3 /\
    receive_test_result p3 false = Ok (p4, tr) /\ get_pipe p4 = Ok [] /\
    tr_ctx tr = CK_CTX_TEST /\ tr_lfile tr = Some "t.c" /\ tr_lno tr = 14 /\ tr_msg tr = Some "x == 1".
Proof.
  apply (check_failure_reported (mk_Pipes (Some []) None) "t.c" 10 [("t.c", 12); ("u.c", 3)] "t.c" 14 "x == 1"); [reflexivity|vm_compute; reflexivity].
Defined.

(** A test that ends without a failure is reported with the last place it passed, no
    message and its duration. *)
Theorem check_success_reported (p : Pipes) (x0 : string * Z) (marks : list (string * Z)) (d : Z) :
  get_pipe p = Ok [] -> forallb sendable ([CtxMsg TEST; mark x0] ++ (mark <$> marks) ++ [DurationMsg d]) = true ->
  exists p1 p2 tr, send_msgs p ([CtxMsg TEST; mark x0] ++ (mark <$> marks) ++ [DurationMsg d]) = Ok p1 /\ receive_test_result p1 false = Ok (p2, tr) /\ get_pipe p2 = Ok [] /\
    tr_ctx tr = CK_CTX_TEST /\ tr_lfile tr = Some (last_place x0 marks).1 /\ tr_lno tr = (last_place x0 marks).2 /\ tr_msg tr = None /\ duration tr = d.
Proof.
  intros Hp Hs. set (ms := ([CtxMsg TEST; mark x0] ++ (mark <$> marks) ++ [DurationMsg d])%list) in *. set (r := fold_left update (seen <$> ms) rcvmsg_create).
  destruct (update_marks marks x0 (started x0)) as (Hc & Hf & Hm & _ & Hfile & Hline); [done..|]. assert (lastctx r = TEST /\ rmsg_msg r = None /\ rmsg_duration r = d /\ test_file r = Some (last_place x0 marks).1 /\ test_line r = (last_place x0 marks).2) as (H1 & H2 & H3 & H4 & H5).
  { unfold r, ms. rewrite update_start, fmap_app, fold_left_app. cbn [fmap list_fmap fold_left seen update lastctx rmsg_msg rmsg_duration test_file test_line]. done. }
  destruct (check_messages_received p ms false Hp Hs) as (p1 & p2 & Esend & Erecv & Hp2); [fold r; by rewrite H1|]. fold r in Erecv.
  exists p1, p2, (construct_test_result r false). do 3 (split; [done|]). clearbody r.
  unfold construct_test_result, tr_set_loc_by_ctx. rewrite H1, H2, H3. cbn. by rewrite H4, H5.
Qed.

Lemma check_success_reported_witness :
  exists p1 p2 tr, send_msgs (mk_Pipes (Some []) None) ([CtxMsg TEST; mark ("t.c", 10)] ++ (mark <$> [("t.c", 12)]) ++ [DurationMsg 25]) = Ok p1 /\ receive_test_result p1 false = Ok (p2, tr) /\
    get_pipe p2 = Ok [] /\ tr_ctx tr = CK_CTX_TEST /\ tr_lfile tr = Some "t.c" /\ tr_lno tr = 12 /\ tr_msg tr = None /\ duration tr = 25.
Proof. apply (check_success_reported (mk_Pipes (Some []) None) ("t.c", 10) [("t.c", 12)] 25); [reflexivity|vm_compute; reflexivity]. Defined.
End CheckMsg.
