(* ===== verification/CheckRun.v ===== *)
(** * Running tests with the Check library (src/libcheck/src/check_run.c)

    The runner goes over the suites, their test cases and the test functions, runs each
    test in a child process (or, on demand, in its own) and turns the messages and the
    way the test ended into a result.

    The functions under test are a parameter: [behave] gives what a call of a function
    does to the runner, that is the points it marks and how it ends, depending on all
    calls before.  [clock] gives the time at each moment and [strsignal] the names of
    signals.  [fork], the timer and [waitpid] are taken to work; a child that does not
    end is killed by the timer of its test case.  The calls of the
    logging functions are recorded. *)

From Stdlib Require Import Ascii String.
From S2P Require Import Prelude CString System Check CheckMsg.
Import Check CheckMsg.

Module CheckRun.

(** ** Test code *)

Inductive act : Type :=
  | Start (file : string) (line : Z)
  | Mark (file : string) (line : Z).

Inductive ending : Type :=
  | Returns
  | Asserts (file : string) (line : Z) (msg : string)
  | Exits (code : Z)
  | Signalled (sig : Z)
  | Hangs.

#[global] Instance ending_eq_dec : EqDecision ending.
Proof. solve_decision. Defined.

Record Body := mk_Body { acts : list act; ends : ending }.

(** How a process ends, for [waitpid]. *)
Inductive wstatus : Type := WExited (code : Z) | WSignaled (sig : Z).

(** What the caller of a function sees: it returned, it jumped to [error_jmp_buffer], or
    the process is gone, killed by the timer or not. *)
Inductive outcome : Type := Returned | Jumped | Gone (status : wstatus) (alarm_received : bool).

Definition SIGKILL : Z := 9.

(** [START_TEST] calls [tcase_fn_start]; a point is marked by [_mark_point]. *)
Definition act_msgs (a : act) : list CheckMsg :=
  match a with Start f l => [CtxMsg TEST; LocMsg l (Some f)] | Mark f l => [LocMsg l (Some f)] end.

(** A failed assertion is [_ck_assert_failed]. *)
Definition end_msgs (e : ending) : list CheckMsg :=
  match e with Asserts f l m => [LocMsg l (Some f); FailMsg (Some m)] | _ => [] end.

Definition body_msgs (b : Body) : list CheckMsg := (mjoin (act_msgs <$> acts b) ++ end_msgs (ends b))%list.

(** A process that cannot send a message ends. *)
Fixpoint send_each (p : Pipes) (ms : list CheckMsg) : res (Pipes * option Z) :=
  match ms with
  | [] => Ok (p, None)
  | m :: ms =>
      match send_msg p m with
      | Ok p => send_each p ms
      | Exit c => Ok (p, Some c)
      | Undef => Undef
      | OutOfFuel => OutOfFuel
      end
  end.

(** ** Loops over a list

    The body gets the values one by one and may leave the loop. *)
Section loops.
Context {A S : Type} (body : A -> S -> res (S * bool)).

Fixpoint for_loop (n : nat) (lp : List A) (s : S) : res (List A * S) :=
  if check_list_at_end lp then Ok (lp, s)
  else
    match n with
    | O => OutOfFuel
    | Datatypes.S n =>
        v ← check_list_val lp;
        match v with
        | None => Undef
        | Some v =>
            '(s, stop) ← body v s;
            if stop : bool then Ok (lp, s) else lp ← check_list_advance lp; for_loop n lp s
        end
    end.

Definition for_list (lp : List A) (s : S) : res (List A * S) := for_loop (Datatypes.S (Z.to_nat (n_elts lp))) (check_list_front lp) s.
End loops.

(** ** Results *)

Definition set_result (tr : TestResult) (t : test_result) (m : option string) : TestResult :=
  mk_TestResult t (ctx tr) (file tr) (line tr) (iter tr) (duration tr) (tcname tr) (tname tr) m.

Definition set_names (tr : TestResult) (tcn tn : string) (i d : Z) : TestResult :=
  mk_TestResult (rtype tr) (ctx tr) (file tr) (line tr) (Some i) d (Some tcn) (Some tn) (msg tr).

Definition pass_msg : string := "Passed".

(** [snprintf] to a buffer of [MSG_LEN] bytes. *)
Definition MSG_LEN : Z := 100.
Definition clip (s : string) : string := String.substring 0 (Z.to_nat (MSG_LEN - 1)) s.

Definition exit_msg (exitval : Z) : string := clip ("Early exit with return value " ++ print_int exitval).

Definition set_nofork_info (tr : TestResult) : TestResult :=
  match msg tr with None => set_result tr CK_PASS (Some pass_msg) | Some m => set_result tr CK_FAILURE (Some m) end.

Definition receive_result_info_nofork (p : Pipes) (tcn tn : string) (i d : Z) : res (Pipes * TestResult) :=
  '(p, tr) ← receive_test_result p false; Ok (p, set_nofork_info (set_names tr tcn tn i d)).

Definition waserror (status : wstatus) (signal_expected : Z) : bool :=
  match status with WSignaled s => negb (s =? signal_expected) | WExited c => negb (c =? 0) end.

Section signals.
Context (strsignal : Z -> string).

Definition signal_msg (alarm_received : bool) (sig : Z) : string :=
  clip (if alarm_received then "Test timeout expired" else "Received signal " ++ print_int sig ++ " (" ++ strsignal sig ++ ")").

Definition signal_error_msg (alarm_received : bool) (signal_received signal_expected : Z) : string :=
  clip (if alarm_received then "Test timeout expired, expected signal " ++ print_int signal_expected ++ " (" ++ strsignal signal_expected ++ ")"
        else "Received signal " ++ print_int signal_received ++ " (" ++ strsignal signal_received ++ "), expected "
             ++ print_int signal_expected ++ " (" ++ strsignal signal_expected ++ ")").

Definition set_fork_info (tr : TestResult) (status : wstatus) (alarm_received : bool) (signal_expected allowed : Z) : TestResult :=
  match status with
  | WSignaled s =>
      if signal_expected =? s then
        if alarm_received then set_result tr CK_ERROR (Some (signal_error_msg alarm_received s signal_expected))
        else set_result tr CK_PASS (Some pass_msg)
      else if negb (signal_expected =? 0) then set_result tr CK_ERROR (Some (signal_error_msg alarm_received s signal_expected))
      else set_result tr CK_ERROR (Some (signal_msg alarm_received s))
  | WExited c =>
      if signal_expected =? 0 then
        if c =? allowed then set_result tr CK_PASS (Some pass_msg)
        else
          match msg tr with
          | None => set_result tr CK_ERROR (Some (exit_msg c))
          | Some m => set_result tr CK_FAILURE (Some m)
          end
      else set_result tr CK_FAILURE (Some (exit_msg c))
  end.

Definition receive_result_info_fork (p : Pipes) (tcn tn : string) (i : Z) (status : wstatus) (alarm_received : bool) (expected_signal allowed : Z)
    : res (Pipes * TestResult) :=
  '(p, tr) ← receive_test_result p (waserror status expected_signal);
  Ok (p, set_fork_info (set_names tr tcn tn i (duration tr)) status alarm_received expected_signal allowed).
End signals.

(** A test that waits for a process of its own. *)
Definition check_waitpid_and_exit {A} (pid : Z) (status : wstatus) : res A :=
  if 0 <? pid then if waserror status 0 then Exit 1 else Exit 0 else Exit 0.

(** The clock is chosen once; [timer_ok] tells whether a monotonic timer can be made. *)
Definition CLOCK_REALTIME : Z := 0.
Definition CLOCK_MONOTONIC : Z := 1.
Definition check_get_clockid (timer_ok : bool) (clockid : Z) : Z :=
  if clockid =? -1 then if timer_ok then CLOCK_MONOTONIC else CLOCK_REALTIME else clockid.

(** ** The runner *)

(** The calls of the logging functions (check_log.c, modelled in CheckLog.v).  They do not
    change what the runner does. *)
Inductive log_call : Type :=
  | InitLogging (print_mode : Z)
  | SRunnerStart
  | SRunnerEnd (sr : SRunner)
  | SuiteStart (name : string)
  | SuiteEnd
  | TestStart (name : string)
  | TestEnd (tr : TestResult)
  | EndLogging.

(** The runner with what it shares with the tests; [calls] are the functions called so
    far with their arguments, [logs] the calls of the logging functions. *)
Record Run := mk_Run { srun : SRunner; rmem : Mem; pipes : Pipes; _fstat : fork_status; calls : list (Z * Z); logs : list log_call }.

Definition with_srun (r : Run) (x : SRunner) : Run := mk_Run x (rmem r) (pipes r) (_fstat r) (calls r) (logs r).
Definition with_mem (r : Run) (x : Mem) : Run := mk_Run (srun r) x (pipes r) (_fstat r) (calls r) (logs r).
Definition with_pipes (r : Run) (x : Pipes) : Run := mk_Run (srun r) (rmem r) x (_fstat r) (calls r) (logs r).
Definition set_fork_status (r : Run) (x : fork_status) : Run := mk_Run (srun r) (rmem r) (pipes r) x (calls r) (logs r).
Definition with_calls (r : Run) (x : list (Z * Z)) : Run := mk_Run (srun r) (rmem r) (pipes r) (_fstat r) x (logs r).
Definition log (r : Run) (x : log_call) : Run := mk_Run (srun r) (rmem r) (pipes r) (_fstat r) (calls r) (logs r ++ [x])%list.

Definition cur_fork_status (r : Run) : fork_status := _fstat r.

(** The lists of a test case with their cursors. *)
Definition set_tflst (c : TCase) (l : List TF) : TCase := mk_TCase (tc_name c) (timeout c) l (unch_sflst c) (unch_tflst c) (ch_sflst c) (ch_tflst c).
Definition set_unch_sflst (c : TCase) (l : List Fixture) : TCase := mk_TCase (tc_name c) (timeout c) (tflst c) l (unch_tflst c) (ch_sflst c) (ch_tflst c).
Definition set_unch_tflst (c : TCase) (l : List Fixture) : TCase := mk_TCase (tc_name c) (timeout c) (tflst c) (unch_sflst c) l (ch_sflst c) (ch_tflst c).
Definition set_ch_sflst (c : TCase) (l : List Fixture) : TCase := mk_TCase (tc_name c) (timeout c) (tflst c) (unch_sflst c) (unch_tflst c) l (ch_tflst c).
Definition set_ch_tflst (c : TCase) (l : List Fixture) : TCase := mk_TCase (tc_name c) (timeout c) (tflst c) (unch_sflst c) (unch_tflst c) (ch_sflst c) l.

Definition put_tcase (r : Run) (tc : Z) (c : TCase) : Run := with_mem r (set_tcase (rmem r) tc c).

Definition srunner_fork_status (w : World) (sr : SRunner) : fork_status :=
  match fstat sr with
  | CK_FORK_GETENV =>
      match getenv w "CK_FORK" with
      | None => CK_FORK
      | Some env => if String.eqb env "no" then CK_NOFORK else CK_FORK
      end
  | s => s
  end.

Definition srunner_set_fork_status (sr : SRunner) (s : fork_status) : SRunner :=
  mk_SRunner (slst sr) (stats sr) (resultlst sr) (log_fname sr) (xml_fname sr) (tap_fname sr) s.

Definition srunner_add_failure (sr : SRunner) (tr : TestResult) : res SRunner :=
  l ← check_list_add_end (resultlst sr) tr;
  c ← chk (n_checked (stats sr) + 1);
  f ← (if bool_decide (rtype tr = CK_FAILURE) then chk (n_failed (stats sr) + 1) else Ok (n_failed (stats sr)));
  e ← (if bool_decide (rtype tr = CK_ERROR) then chk (n_errors (stats sr) + 1) else Ok (n_errors (stats sr)));
  Ok (mk_SRunner (slst sr) (mk_TestStats c f e) l (log_fname sr) (xml_fname sr) (tap_fname sr) (fstat sr)).

(** The microseconds between two times. *)
Definition US_PER_SEC : Z := 1000000.
Definition DIFF_IN_USEC (begin end_ : Z * Z) : Z := (end_.1 - begin.1) * US_PER_SEC + Z.quot end_.2 1000 - Z.quot begin.2 1000.

Section run.
Context (w : World) (strsignal : Z -> string) (behave : list (Z * Z) -> Z -> Z -> Body) (clock : list (Z * Z) -> Z * Z).

Definition call (r : Run) (f i : Z) : res (Run * outcome) :=
  let b := behave (calls r) f i in
  '(p, ex) ← send_each (pipes r) (body_msgs b);
  let r := with_calls (with_pipes r p) (calls r ++ [(f, i)])%list in
  match ex with
  | Some c => Ok (r, Gone (WExited c) false)
  | None =>
      Ok (r, match ends b with
             | Returns => Returned
             | Asserts _ _ _ => match cur_fork_status r with CK_FORK => Gone (WExited 1) false | _ => Jumped end
             | Exits c => Gone (WExited (Z.land c 255)) false
             | Signalled s => Gone (WSignaled s) false
             | Hangs => Gone (WSignaled SIGKILL) true
             end)
  end.

(** The function was called in the process of the runner. *)
Definition gone {A} (status : wstatus) (alarm_received : bool) : res A :=
  match status with
  | WExited c => Exit c
  | WSignaled s => if alarm_received then OutOfFuel else Exit (128 + s)
  end.

Definition send_ctx (r : Run) (ctx : Z) : res Run := p ← send_ctx_info (pipes r) ctx; Ok (with_pipes r p).

(** *** Fixtures *)

Definition unchecked_setup_step (name : string) (f : Fixture) (s : Run * bool) : res (Run * bool * bool) :=
  r ← send_ctx s.1 SETUP;
  '(r, o) ← call r (fun_ f) 0;
  match o with
  | Gone st al => gone st al
  | Returned | Jumped =>
      '(p, tr) ← receive_result_info_nofork (pipes r) name "unchecked_setup" 0 (-1);
      let r := with_pipes r p in
      if bool_decide (rtype tr <> CK_PASS) then sr ← srunner_add_failure (srun r) tr; Ok (with_srun r sr, false, true)
      else Ok (r, true, false)
  end.

Definition srunner_run_unchecked_setup (r : Run) (tc : Z) : res (Run * bool) :=
  let r := set_fork_status r CK_NOFORK in
  c ← get_tcase (rmem r) tc;
  '(l, (r, rval)) ← for_list (unchecked_setup_step (tc_name c)) (unch_sflst c) (r, true);
  Ok (set_fork_status (put_tcase r tc (set_unch_sflst c l)) (srunner_fork_status w (srun r)), rval).

(** The result of a setup that failed, and how the loop was left. *)
Definition checked_setup_step (fs : fork_status) (name : string) (f : Fixture) (s : Run * option TestResult * outcome)
    : res (Run * option TestResult * outcome * bool) :=
  let r := s.1.1 in
  match fs with
  | CK_NOFORK =>
      r ← send_ctx r SETUP;
      '(r, o) ← call r (fun_ f) 0;
      match o with
      | Gone st al => Ok (r, None, o, true)
      | Returned | Jumped =>
          '(p, tr) ← receive_result_info_nofork (pipes r) name "checked_setup" 0 (-1);
          let r := with_pipes r p in
          if bool_decide (rtype tr <> CK_PASS) then Ok (r, Some tr, Returned, true) else Ok (r, None, Returned, false)
      end
  | _ =>
      '(r, o) ← call r (fun_ f) 0;
      Ok (r, None, o, match o with Returned => false | _ => true end)
  end.

Definition tcase_run_checked_setup (r : Run) (tc : Z) : res (Run * option TestResult * outcome) :=
  let fs := srunner_fork_status w (srun r) in
  c ← get_tcase (rmem r) tc;
  r ← match fs with CK_FORK => send_ctx r SETUP | _ => Ok r end;
  '(l, (r, tr, o)) ← for_list (checked_setup_step fs (tc_name c)) (ch_sflst c) (r, None, Returned);
  Ok (put_tcase r tc (set_ch_sflst c l), tr, o).

Definition teardown_step (f : Fixture) (s : Run * outcome) : res (Run * outcome * bool) :=
  r ← send_ctx s.1 TEARDOWN;
  '(r, o) ← call r (fun_ f) 0;
  Ok (r, o, match o with Returned => false | _ => true end).

Definition srunner_run_teardown (l : List Fixture) (r : Run) : res (List Fixture * (Run * outcome)) := for_list teardown_step l (r, Returned).

(** Outside of a test there is no place to jump to. *)
Definition srunner_run_unchecked_teardown (r : Run) (tc : Z) : res Run :=
  c ← get_tcase (rmem r) tc;
  '(l, (r, o)) ← srunner_run_teardown (unch_tflst c) r;
  match o with
  | Returned => Ok (put_tcase r tc (set_unch_tflst c l))
  | Jumped => Undef
  | Gone st al => gone st al
  end.

Definition tcase_run_checked_teardown (r : Run) (tc : Z) : res (Run * outcome) :=
  c ← get_tcase (rmem r) tc;
  '(l, (r, o)) ← srunner_run_teardown (ch_tflst c) r;
  Ok (put_tcase r tc (set_ch_tflst c l), o).

(** *** One test *)

(** A teardown that fails an assertion jumps back behind the test and is run again. *)
Fixpoint after_test (fuel : nat) (r : Run) (tc : Z) : res (Run * (Z * Z)) :=
  let ts_end := clock (calls r) in
  '(r, o) ← tcase_run_checked_teardown r tc;
  match o with
  | Returned => Ok (r, ts_end)
  | Jumped => match fuel with O => OutOfFuel | S fuel => after_test fuel r tc end
  | Gone st al => gone st al
  end.

Definition tcase_run_tfun_nofork (fuel : nat) (r : Run) (tc : Z) (tfun : TF) (i : Z) : res (Run * TestResult) :=
  c ← get_tcase (rmem r) tc;
  '(r, tr, o) ← tcase_run_checked_setup r tc;
  match o, tr with
  | Gone st al, _ => gone st al
  | Jumped, _ => Undef
  | Returned, Some tr => Ok (r, tr)
  | Returned, None =>
      let ts_start := clock (calls r) in
      '(r, o) ← call r (fn tfun) i;
      match o with
      | Gone st al => gone st al
      | Returned | Jumped =>
          '(r, ts_end) ← after_test fuel r tc;
          '(p, tr) ← receive_result_info_nofork (pipes r) (tc_name c) (tf_name tfun) i (wrap_int (DIFF_IN_USEC ts_start ts_end));
          Ok (with_pipes r p, tr)
      end
  end.

(** The child: what it leaves, and how it ends. *)
Definition child (r : Run) (tc : Z) (tfun : TF) (i : Z) : res (Run * outcome) :=
  '(r, _, o) ← tcase_run_checked_setup r tc;
  match o with
  | Returned =>
      let ts_start := clock (calls r) in
      '(r, o) ← call r (fn tfun) i;
      match o with
      | Returned =>
          let ts_end := clock (calls r) in
          '(r, o) ← tcase_run_checked_teardown r tc;
          match o with
          | Returned =>
              p ← send_duration_info (pipes r) (wrap_int (DIFF_IN_USEC ts_start ts_end));
              Ok (with_pipes r p, Gone (WExited 0) false)
          | o => Ok (r, o)
          end
      | o => Ok (r, o)
      end
  | o => Ok (r, o)
  end.

(** Only the file and the calls are seen by the parent.  The child ends before its first
    message when there is no file. *)
Definition tcase_run_tfun_fork (r : Run) (tc : Z) (tfun : TF) (i : Z) : res (Run * TestResult) :=
  c ← get_tcase (rmem r) tc;
  '(r, (status, alarm_received)) ←
    match child r tc tfun i with
    | Ok (r', Gone st al) => Ok (with_calls (with_pipes r (pipes r')) (calls r'), (st, al))
    | Ok (_, _) => Undef
    | Exit c => Ok (r, (WExited c, false))
    | Undef => Undef
    | OutOfFuel => OutOfFuel
    end;
  '(p, tr) ← receive_result_info_fork strsignal (pipes r) (tc_name c) (tf_name tfun) i status alarm_received (signal tfun) (allowed_exit_value tfun);
  Ok (with_pipes r p, tr).

(** *** Test cases and suites *)

(** [log_test_start] puts the names in a buffer. *)
Definition test_title (c : TCase) (tfun : TF) : string := String.substring 0 98 (tc_name c ++ ":" ++ tf_name tfun).

Fixpoint iterations (fuel : nat) (n : nat) (r : Run) (tc : Z) (tfun : TF) (i : Z) : res Run :=
  match n with
  | O => Ok r
  | S n =>
      c ← get_tcase (rmem r) tc;
      let r := log r (TestStart (test_title c tfun)) in
      '(r, tr) ← match srunner_fork_status w (srun r) with
                 | CK_FORK => tcase_run_tfun_fork r tc tfun i
                 | CK_NOFORK => tcase_run_tfun_nofork fuel r tc tfun i
                 | CK_FORK_GETENV => Exit 2
                 end;
      sr ← srunner_add_failure (srun r) tr;
      iterations fuel n (log (with_srun r sr) (TestEnd tr)) tc tfun (i + 1)
  end.

Definition srunner_iterate_tcase_tfuns (fuel : nat) (r : Run) (tc : Z) : res Run :=
  c ← get_tcase (rmem r) tc;
  '(l, r) ← for_list (fun tfun r => r ← iterations fuel (Z.to_nat (loop_end tfun - loop_start tfun)) r tc tfun (loop_start tfun); Ok (r, false)) (tflst c) r;
  c ← get_tcase (rmem r) tc;
  Ok (put_tcase r tc (set_tflst c l)).

Definition srunner_run_tcase (fuel : nat) (r : Run) (tc : Z) : res Run :=
  '(r, ok) ← srunner_run_unchecked_setup r tc;
  if ok : bool then r ← srunner_iterate_tcase_tfuns fuel r tc; srunner_run_unchecked_teardown r tc else Ok r.

Definition other_name (name : option string) (s : string) : bool := match name with Some n => negb (String.eqb n s) | None => false end.

Definition tcase_step (fuel : nat) (tcn : option string) (tc : Z) (r : Run) : res (Run * bool) :=
  c ← get_tcase (rmem r) tc;
  if other_name tcn (tc_name c) then Ok (r, false) else r ← srunner_run_tcase fuel r tc; Ok (r, false).

Definition suite_step (fuel : nat) (sname tcn : option string) (s : Z) (r : Run) : res (Run * bool) :=
  x ← get_suite (rmem r) s;
  if other_name sname (s_name x) then Ok (r, false)
  else
    '(r, found) ← match tcn with
                  | None => Ok (r, true)
                  | Some n => '(m, a) ← suite_tcase (rmem r) s n; Ok (with_mem r m, negb (a =? 0))
                  end;
    if found : bool then
      x ← get_suite (rmem r) s;
      '(l, r) ← for_list (tcase_step fuel tcn) (tclst x) (log r (SuiteStart (s_name x)));
      Ok (log (with_mem r (set_suite (rmem r) s (mk_Suite (s_name x) l))) SuiteEnd, false)
    else Ok (r, false).

Definition srunner_iterate_suites (fuel : nat) (r : Run) (sname tcn : option string) : res Run :=
  '(l, r) ← for_list (suite_step fuel sname tcn) (slst (srun r)) r;
  Ok (with_srun r (with_slst (srun r) l)).

Definition srunner_run_init (r : Run) (print_mode : Z) : res Run :=
  let r := set_fork_status r (srunner_fork_status w (srun r)) in
  p ← setup_pipe (pipes r); Ok (log (log (with_pipes r p) (InitLogging print_mode)) SRunnerStart).

Definition srunner_run_end (r : Run) : res Run :=
  let r := log (log r (SRunnerEnd (srun r))) EndLogging in
  p ← teardown_pipe (pipes r); Ok (set_fork_status (with_pipes r p) CK_FORK).

Definition CK_LAST : Z := 5.

Definition srunner_run (fuel : nat) (r : Run) (sname tcn : option string) (print_mode : Z) : res Run :=
  let tcn := match tcn with None => getenv w "CK_RUN_CASE" | Some _ => tcn end in
  let sname := match sname with None => getenv w "CK_RUN_SUITE" | Some _ => sname end in
  if CK_LAST <=? print_mode then Exit 2
  else
    r ← srunner_run_init r print_mode;
    r ← srunner_iterate_suites fuel r sname tcn;
    srunner_run_end r.

Definition srunner_run_all (fuel : nat) (r : Run) (print_mode : Z) : res Run := srunner_run fuel r None None print_mode.
End run.
End CheckRun.
