(* ===== verification/CheckRunFacts.v ===== *)
(** * What the runner of the Check library reports

    The outcomes of a run are specified from the behaviour of the test functions alone;
    the runner of CheckRun.v, with its lists, messages and child processes, reports
    exactly these ([check_run_reports]).  Three theorems show where its handling of
    failed assertions goes wrong. *)

From Stdlib Require Import Ascii String.
From S2P Require Import Prelude CString System Check CheckMsg CheckRun.
Import Check CheckMsg CheckRun.

Module CheckRunFacts.

(** ** What a run should report

    Without messages and without lists: the outcomes of the tests one by one, from the
    behaviour of the functions alone. *)

(** A test case: its tests, unchecked setups and teardowns, checked ones. *)
Record Case := mk_Case { c_name : string; c_tests : list TF; c_us : list Fixture; c_ut : list Fixture; c_cs : list Fixture; c_ct : list Fixture }.

Record Outcome := mk_Outcome { o_case : string; o_test : string; o_iter : Z; o_type : test_result; o_msg : string; o_place : option (string * Z) }.

(** What happens in a run, in order: suites are entered and left, tests are run under a
    title, an unchecked setup fails. *)
Inductive item : Type := ISuite (name : string) | ISuiteEnd | ITest (title : string) (o : Outcome) | ISetup (o : Outcome).

Definition outcomes (its : list item) : list Outcome :=
  x ← its; match x with ITest _ o | ISetup o => [o] | _ => [] end.

Definition place_of (e : ending) : option (string * Z) := match e with Asserts f l _ => Some (f, l) | _ => None end.

Section judges.
Context (strsignal : Z -> string).

(** The verdict of the documentation (src/libcheck/doc/check.texi, "Testing Signal Handling
    and Exit Values") on a test that is not expected to exit: it passes when it returns, or
    when it is killed by the signal it is expected to raise; a failed assertion is a failure,
    and so is the end of a test whose signal did not come; an early exit, another signal and
    a time-out are errors. *)
Definition judged (t : TF) (e : ending) : test_result * string :=
  let early c := clip ("Early exit with return value " ++ print_int c) in
  match signal t =? 0, e with
  | true, Returns => (CK_PASS, "Passed")
  | true, Asserts _ _ m => (CK_FAILURE, m)
  | true, Exits c => (CK_ERROR, early (Z.land c 255))
  | true, Signalled s => (CK_ERROR, clip ("Received signal " ++ print_int s ++ " (" ++ strsignal s ++ ")"))
  | true, Hangs => (CK_ERROR, "Test timeout expired")
  | false, Returns => (CK_FAILURE, early 0)
  | false, Asserts _ _ _ => (CK_FAILURE, early 1)
  | false, Exits c => (CK_FAILURE, early (Z.land c 255))
  | false, Signalled s =>
      if s =? signal t then (CK_PASS, "Passed")
      else (CK_ERROR, clip ("Received signal " ++ print_int s ++ " (" ++ strsignal s ++ "), expected "
                            ++ print_int (signal t) ++ " (" ++ strsignal (signal t) ++ ")"))
  | false, Hangs => (CK_ERROR, clip ("Test timeout expired, expected signal " ++ print_int (signal t) ++ " (" ++ strsignal (signal t) ++ ")"))
  end.

(** The verdict of the code, tests that are expected to exit included. *)
Definition verdict (t : TF) (e : ending) : test_result * string :=
  let exited c :=
    if signal t =? 0 then if c =? allowed_exit_value t then (CK_PASS, pass_msg) else (CK_ERROR, exit_msg c)
    else (CK_FAILURE, exit_msg c) in
  match e with
  | Returns => exited 0
  | Exits c => exited (Z.land c 255)
  | Asserts _ _ m =>
      if signal t =? 0 then if allowed_exit_value t =? 1 then (CK_PASS, pass_msg) else (CK_FAILURE, m)
      else (CK_FAILURE, exit_msg 1)
  | Signalled s =>
      if s =? signal t then (CK_PASS, pass_msg)
      else (CK_ERROR, if signal t =? 0 then signal_msg strsignal false s else signal_error_msg strsignal false s (signal t))
  | Hangs => (CK_ERROR, if signal t =? 0 then signal_msg strsignal true SIGKILL else signal_error_msg strsignal true SIGKILL (signal t))
  end.

(** An end that the documentation and the code judge alike: no exit with 0, which the code
    does not tell from a return, and a signal has a number. *)
Definition plain_end (e : ending) : Prop :=
  match e with Exits c => Z.land c 255 <> 0 | Signalled s => s <> 0 | _ => True end.

Lemma judged_verdict t e : allowed_exit_value t = 0 -> plain_end e -> verdict t e = judged t e.
Proof.
  intros Ha He. unfold verdict, judged, signal_msg, signal_error_msg, exit_msg. rewrite Ha.
  destruct (Z.eqb_spec (signal t) 0) as [E|E], e as [|f l m|c|s|]; simpl in He |- *; try done.
  - by rewrite (proj2 (Z.eqb_neq _ _)).
  - by rewrite E, (proj2 (Z.eqb_neq _ _)).
Qed.
End judges.

Section spec.
Context (judge : TF -> ending -> test_result * string) (behave : list (Z * Z) -> Z -> Z -> Body).

(** The calls of a test in order, up to the first that does not return. *)
Fixpoint spec_calls (h fs : list (Z * Z)) : list (Z * Z) * ending :=
  match fs with
  | [] => (h, Returns)
  | (f, i) :: fs =>
      match ends (behave h f i) with
      | Returns => spec_calls (h ++ [(f, i)])%list fs
      | e => ((h ++ [(f, i)])%list, e)
      end
  end.

Definition fixture_calls (fs : list Fixture) : list (Z * Z) := (fun f => (fun_ f, 0)) <$> fs.

Definition spec_test (h : list (Z * Z)) (k : Case) (t : TF) (i : Z) : list (Z * Z) * Outcome :=
  let '(h, e) := spec_calls h (fixture_calls (c_cs k) ++ [(fn t, i)] ++ fixture_calls (c_ct k)) in
  let '(ty, m) := judge t e in (h, mk_Outcome (c_name k) (tf_name t) i ty m (place_of e)).

Definition title (k : Case) (t : TF) : string := String.substring 0 98 (c_name k ++ ":" ++ tf_name t).

Fixpoint spec_iterations (n : nat) (h : list (Z * Z)) (k : Case) (t : TF) (i : Z) : list (Z * Z) * list item :=
  match n with
  | O => (h, [])
  | S n => let '(h, o) := spec_test h k t i in let '(h, os) := spec_iterations n h k t (i + 1) in (h, ITest (title k t) o :: os)
  end.

Fixpoint spec_tests (h : list (Z * Z)) (k : Case) (ts : list TF) : list (Z * Z) * list item :=
  match ts with
  | [] => (h, [])
  | t :: ts =>
      let '(h, os) := spec_iterations (Z.to_nat (loop_end t - loop_start t)) h k t (loop_start t) in
      let '(h, os') := spec_tests h k ts in (h, os ++ os')%list
  end.

(** An unchecked setup runs in the process of the runner: a failed assertion is reported
    and ends the test case; any other end of the function ends the runner ([None]). *)
Fixpoint spec_setups (h : list (Z * Z)) (name : string) (fs : list Fixture) : option (list (Z * Z) * option Outcome) :=
  match fs with
  | [] => Some (h, None)
  | f :: fs =>
      let h' := (h ++ [(fun_ f, 0)])%list in
      match ends (behave h (fun_ f) 0) with
      | Returns => spec_setups h' name fs
      | Asserts file line m => Some (h', Some (mk_Outcome name "unchecked_setup" 0 CK_FAILURE m (Some (file, line))))
      | _ => None
      end
  end.

Definition spec_teardowns (h : list (Z * Z)) (fs : list Fixture) : option (list (Z * Z)) :=
  let '(h, e) := spec_calls h (fixture_calls fs) in match e with Returns => Some h | _ => None end.

Definition spec_case (h : list (Z * Z)) (k : Case) : option (list (Z * Z) * list item) :=
  '(h, o) ← spec_setups h (c_name k) (c_us k);
  match o with
  | Some o => Some (h, [ISetup o])
  | None => let '(h, os) := spec_tests h k (c_tests k) in h ← spec_teardowns h (c_ut k); Some (h, os)
  end.

Fixpoint spec_cases (h : list (Z * Z)) (tcn : option string) (ks : list Case) : option (list (Z * Z) * list item) :=
  match ks with
  | [] => Some (h, [])
  | k :: ks =>
      if other_name tcn (c_name k) then spec_cases h tcn ks
      else '(h, os) ← spec_case h k; '(h, os') ← spec_cases h tcn ks; Some (h, os ++ os')%list
  end.

(** A suite without a test case of the given name is left out. *)
Definition no_case (tcn : option string) (ks : list Case) : bool :=
  match tcn with Some _ => forallb (fun k => other_name tcn (c_name k)) ks | None => false end.

Definition spec_suite (h : list (Z * Z)) (n : string) (tcn : option string) (ks : list Case) : option (list (Z * Z) * list item) :=
  '(h, os) ← spec_cases h tcn ks; Some (h, ISuite n :: os ++ [ISuiteEnd])%list.

Fixpoint spec_suites (h : list (Z * Z)) (sname tcn : option string) (ss : list (string * list Case)) : option (list (Z * Z) * list item) :=
  match ss with
  | [] => Some (h, [])
  | (n, ks) :: ss =>
      if other_name sname n || no_case tcn ks then spec_suites h sname tcn ss
      else '(h, os) ← spec_suite h n tcn ks; '(h, os') ← spec_suites h sname tcn ss; Some (h, os ++ os')%list
  end.
End spec.

(** *** Two judges that agree *)
Section agree.
Context (judge judge' : TF -> ending -> test_result * string) (behave : list (Z * Z) -> Z -> Z -> Body).
Context (ok : ending -> Prop) (Hret : ok Returns) (Hends : forall h f i, ok (ends (behave h f i))).

Definition agree (t : TF) : Prop := forall e, ok e -> judge t e = judge' t e.

Lemma calls_end h fs : ok (spec_calls behave h fs).2.
Proof.
  revert h. induction fs as [|[f i] fs IH]; intros h; simpl; [exact Hret|]. pose proof (Hends h f i) as H.
  destruct (ends (behave h f i)); simpl; done || apply IH.
Qed.

Lemma agree_iterations n h k t i : agree t -> spec_iterations judge behave n h k t i = spec_iterations judge' behave n h k t i.
Proof.
  intros Ht. revert h i. induction n as [|n IH]; intros h i; [done|]. cbn [spec_iterations].
  assert (spec_test judge behave h k t i = spec_test judge' behave h k t i) as ->.
  { unfold spec_test. set (fs := (_ ++ _)%list). pose proof (calls_end h fs) as He. destruct (spec_calls behave h fs) as [h1 e].
    by rewrite (Ht e He). }
  destruct (spec_test judge' behave h k t i) as [h1 o]. by rewrite IH.
Qed.

Lemma agree_tests h k ts : Forall agree ts -> spec_tests judge behave h k ts = spec_tests judge' behave h k ts.
Proof.
  intros Hts. revert h. induction Hts as [|t ts Ht Hts IH]; intros h; [done|]. cbn [spec_tests]. rewrite agree_iterations by done.
  destruct (spec_iterations judge' behave _ h k t _) as [h1 os]. by rewrite IH.
Qed.

Lemma agree_cases h tcn ks :
  Forall (fun k => Forall agree (c_tests k)) ks -> spec_cases judge behave h tcn ks = spec_cases judge' behave h tcn ks.
Proof.
  intros Hks. revert h. induction Hks as [|k ks Hk Hks IH]; intros h; [done|]. cbn [spec_cases]. rewrite IH.
  assert (spec_case judge behave h k = spec_case judge' behave h k) as ->.
  { unfold spec_case. destruct (spec_setups behave h (c_name k) (c_us k)) as [[h1 [o|]]|]; [done| |done]. simpl. by rewrite agree_tests. }
  destruct (other_name tcn (c_name k)); [done|]. destruct (spec_case judge' behave h k) as [[h1 os]|]; [|done]. simpl. by rewrite IH.
Qed.

Lemma agree_suites h sname tcn ss :
  Forall (fun x => Forall (fun k => Forall agree (c_tests k)) x.2) ss ->
  spec_suites judge behave h sname tcn ss = spec_suites judge' behave h sname tcn ss.
Proof.
  intros Hss. revert h. induction Hss as [|[n ks] ss Hx Hss IH]; intros h; [done|]. cbn [spec_suites]. rewrite IH.
  unfold spec_suite. rewrite (agree_cases h tcn ks Hx). destruct (other_name sname n || no_case tcn ks); [done|].
  destruct (spec_cases judge' behave h tcn ks) as [[h1 os]|]; [|done]. simpl. by rewrite IH.
Qed.
End agree.

(** ** Lists and memory *)

Fixpoint fold_res {A S} (body : A -> S -> res (S * bool)) (l : list A) (s : S) : res S :=
  match l with [] => Ok s | v :: l => '(s, stop) ← body v s; if stop : bool then Ok s else fold_res body l s end.

Lemma for_loop_ok {A S} (body : A -> S -> res (S * bool)) n lp l i s s' :
  list_ok lp l -> current lp = Z.of_nat i -> (i <= List.length l)%nat -> (List.length l - i < n)%nat -> l <> [] -> fold_res body (drop i l) s = Ok s' ->
  exists lp', for_loop body n lp s = Ok (lp', s') /\ list_ok lp' l.
Proof.
  revert lp i s. induction n as [|n IH]; intros lp i s Hok Hc Hi Hn Hne Hf; [lia|]. cbn [for_loop]. rewrite (cursor_end _ _ _ Hok Hc). case_bool_decide as Hend.
  - rewrite drop_ge in Hf by lia. injection Hf as <-. by exists lp.
  - destruct (lookup_lt_is_Some_2 l i) as [v Hv]; [lia|]. rewrite (drop_S _ _ _ Hv) in Hf. destruct (cursor_val _ _ _ _ Hok Hc Hv) as [-> ->]. cbn [mbind res_bind fold_res] in *.
    apply res_bind_inv in Hf as ([s1 [|]] & -> & Hf); cbn [mbind res_bind].
    + injection Hf as <-. by exists lp.
    + apply (IH _ (Datatypes.S i)); [apply cursor_at; [done..|lia]|done|lia|lia|done|done].
Qed.

Lemma for_list_ok {A S} (body : A -> S -> res (S * bool)) lp l s s' :
  list_ok lp l -> fold_res body l s = Ok s' -> exists lp', for_list body lp s = Ok (lp', s') /\ list_ok lp' l.
Proof.
  intros Hok Hf. pose proof Hok as [Hn _ _ _ _ _ _]. unfold for_list. destruct (decide (l = [])) as [->|Hl].
  - injection Hf as <-. destruct (list_empty lp Hok) as [-> He]. exists lp. split; [|done]. cbn [for_loop]. by rewrite He.
  - destruct (list_front lp l Hok Hl) as [-> Hok']. apply (for_loop_ok _ _ _ l 0); [done|done|lia|lia|done|done].
Qed.

(** The test cases and suites in the memory. *)
Record tcase_ok (c : TCase) (k : Case) : Prop := {
  ok_name : tc_name c = c_name k;
  ok_tests : list_ok (tflst c) (c_tests k);
  ok_us : list_ok (unch_sflst c) (c_us k);
  ok_ut : list_ok (unch_tflst c) (c_ut k);
  ok_cs : list_ok (ch_sflst c) (c_cs k);
  ok_ct : list_ok (ch_tflst c) (c_ct k) }.

Definition has_case (m : Mem) (tc : Z) (k : Case) : Prop := exists c, tcases m !! tc = Some c /\ tcase_ok c k.
Definition has_suite (m : Mem) (s : Z) (n : string) (l : list Z) : Prop := exists x, suites m !! s = Some x /\ s_name x = n /\ list_ok (tclst x) l.

(** Running moves cursors only. *)
Definition same_lists (m m' : Mem) : Prop :=
  (forall tc k, has_case m tc k -> has_case m' tc k) /\ (forall s n l, has_suite m s n l -> has_suite m' s n l).

#[global] Instance same_lists_refl : Reflexive same_lists.
Proof. done. Qed.

#[global] Instance same_lists_trans : Transitive same_lists.
Proof. intros m1 m2 m3 [H1 H2] [H3 H4]. split; intros; auto. Qed.

Lemma tcase_ok_inj c k k' : tcase_ok c k -> tcase_ok c k' -> k = k'.
Proof.
  intros [] []. destruct k, k'; simpl in *. f_equal; [congruence|eapply list_ok_inj; eassumption..].
Qed.

Lemma same_put_case m tc k c : has_case m tc k -> tcase_ok c k -> same_lists m (set_tcase m tc c).
Proof.
  intros (c0 & Hc & Hk) Hok. split; [|done]. intros tc' k' (d & Hd & Hok'). unfold has_case, set_tcase. simpl. destruct (decide (tc' = tc)) as [->|Hne].
  - rewrite lookup_insert_eq. rewrite Hc in Hd. injection Hd as <-. rewrite (tcase_ok_inj _ _ _ Hok' Hk). eauto.
  - rewrite lookup_insert_ne by done. eauto.
Qed.

Lemma same_put_suite m s x l l' : suites m !! s = Some x -> list_ok (tclst x) l -> list_ok l' l -> same_lists m (set_suite m s (mk_Suite (s_name x) l')).
Proof.
  intros Hx Hl Hl'. split; [done|]. intros s' n j (d & Hd & Hn & Hok). unfold has_suite, set_suite. simpl. destruct (decide (s' = s)) as [->|Hne].
  - rewrite lookup_insert_eq. rewrite Hx in Hd. injection Hd as <-. rewrite (list_ok_inj _ _ _ Hok Hl). by eexists.
  - rewrite lookup_insert_ne by done. eauto.
Qed.

(** ** Messages

    What the file holds is summed up by two things: whether a context was sent, and the
    assertion that failed, if any. *)

Definition is_ctx (m : CheckMsg) : bool := match m with CtxMsg _ => true | _ => false end.
Definition quiet (m : CheckMsg) : bool := match m with FailMsg _ => false | CtxMsg c => negb (c =? INVALID) | _ => true end.

Definition piped (p : Pipes) (c : bool) (e : ending) : Prop := exists ms,
  get_pipe p = Ok (stream (ms ++ end_msgs e)%list) /\ forallb sendable (ms ++ end_msgs e) = true /\ forallb quiet ms = true /\ implb c (existsb is_ctx ms) = true.

Definition fail_msg (e : ending) : option string := match e with Asserts _ _ m => Some m | _ => None end.

Lemma update_quiet ms r :
  forallb quiet ms = true -> let r' := fold_left update (seen <$> ms) r in
  rmsg_msg r' = rmsg_msg r /\ failctx r' = failctx r /\ (existsb is_ctx ms = true \/ lastctx r <> INVALID -> lastctx r' <> INVALID).
Proof.
  revert r. induction ms as [|m ms IH]; intros r Hq; cbn -[INVALID] in *; [by intuition|]. apply andb_true_iff in Hq as [Hm Hq].
  destruct (IH (update r (seen m)) Hq) as (-> & -> & Hl). destruct m as [c|o|l f|d]; cbn -[INVALID] in *; try done.
  - unfold rcvmsg_update_ctx in *. apply negb_true_iff, Z.eqb_neq in Hm. by destruct (lastctx r =? INVALID); cbn -[INVALID] in *; intuition.
  - unfold rcvmsg_update_loc in *. by destruct (failctx r =? INVALID), (lastctx r =? TEST).
Qed.

Lemma construct_msg r we : msg (construct_test_result r we) = rmsg_msg r.
Proof.
  unfold construct_test_result, tr_set_loc_by_ctx. case_bool_decide as H; simpl; [by destruct (_ =? TEST)|].
  rewrite H. destruct we; [by destruct (_ =? TEST)|]. by destruct (lastctx r =? SETUP).
Qed.

Lemma piped_receive p e we :
  piped p true e -> exists p' tr, receive_test_result p we = Ok (p', tr) /\ piped p' false Returns /\
    msg tr = fail_msg e /\ forall f l, place_of e = Some (f, l) -> file tr = Some f /\ line tr = l.
Proof.
  intros (ms & Hp & Hs & Hq & Hc). destruct (update_quiet ms rcvmsg_create Hq) as (Hm & Hf & Hl). specialize (Hl (or_introl Hc)). set (r := fold_left update (seen <$> ms) rcvmsg_create) in *.
  destruct (receive_spec p _ we Hp Hs) as (p' & -> & Hp'); rewrite fmap_app, fold_left_app; fold r.
  { destruct e; try done. cbn -[INVALID]. rewrite Hf. cbn -[INVALID]. unfold rcvmsg_update_loc. destruct (lastctx r =? TEST); cbn -[INVALID]; rewrite Hm; done. }
  exists p', (construct_test_result (fold_left update (seen <$> end_msgs e) r) we). split; [done|]. split; [by exists []|]. rewrite construct_msg. clearbody r.
  destruct e as [|f l m| | |]; try done. cbn -[INVALID construct_test_result]. rewrite Hf. cbn -[INVALID construct_test_result]. unfold rcvmsg_update_loc.
  destruct (lastctx r =? TEST) eqn:Ht; cbn -[construct_test_result]; rewrite Hm; cbn -[construct_test_result]; (split; [done|]); intros f' l' [= <- <-]; unfold construct_test_result, tr_set_loc_by_ctx; cbn -[Z.eqb TEST]; by rewrite Ht.
Qed.

Lemma piped_weaken p c e : piped p true e -> piped p c e.
Proof. intros (ms & Hp & Hs & Hq & Hc). exists ms. split_and!; [done..|]. simpl in Hc. rewrite Hc. by destruct c. Qed.

Lemma stream_app xs ys : stream (xs ++ ys)%list = (stream xs ++ stream ys)%list.
Proof. unfold stream. by rewrite bind_app. Qed.

Lemma piped_sends p c ms : 
  piped p c Returns -> forallb sendable ms = true -> forallb quiet ms = true -> exists p', send_msgs p ms = Ok p' /\ piped p' (c || existsb is_ctx ms) Returns.
Proof.
  intros (xs & Hp & Hs & Hq & Hc) Hs' Hq'. simpl end_msgs in *. rewrite app_nil_r in *. destruct (send_msgs_spec p _ ms Hp Hs') as (p' & -> & Hp').
  exists p'. split; [done|]. exists (xs ++ ms)%list. simpl end_msgs. rewrite app_nil_r, stream_app, !forallb_app, existsb_app, Hs, Hq. split_and!; try done.
  destruct c, (existsb is_ctx xs), (existsb is_ctx ms); done.
Qed.

Lemma send_each_ok p ms p' : send_msgs p ms = Ok p' -> send_each p ms = Ok (p', None).
Proof.
  revert p. induction ms as [|m ms IH]; intros p H; cbn [send_msgs send_each] in *; [by injection H as ->|].
  apply res_bind_inv in H as (q & -> & H). by apply IH.
Qed.

Lemma acts_quiet l : forallb quiet (mjoin (act_msgs <$> l)) = true.
Proof. induction l as [|a l IH]; [done|]. rewrite fmap_cons. cbn [mjoin list_join]. rewrite forallb_app. by destruct a. Qed.

(** ** Calls *)

Definition status_of (e : ending) : wstatus * bool :=
  match e with
  | Returns => (WExited 0, false)
  | Asserts _ _ _ => (WExited 1, false)
  | Exits c => (WExited (Z.land c 255), false)
  | Signalled s => (WSignaled s, false)
  | Hangs => (WSignaled SIGKILL, true)
  end.

Definition outcome_of (fs : fork_status) (e : ending) : outcome :=
  match e, fs with
  | Returns, _ => Returned
  | Asserts _ _ _, (CK_NOFORK | CK_FORK_GETENV) => Jumped
  | _, _ => Gone (status_of e).1 (status_of e).2
  end.

(** The runner is the same but for cursors. *)
Record next (r r' : Run) : Prop := {
  next_srun : srun r' = srun r;
  next_fork : _fstat r' = _fstat r;
  next_logs : logs r' = logs r;
  next_mem : same_lists (rmem r) (rmem r') }.

#[global] Instance next_refl : Reflexive next.
Proof. done. Qed.

#[global] Instance next_trans : Transitive next.
Proof. intros r1 r2 r3 [H1 H2 H3 H4] [H5 H6 H7 H8]. split; [congruence..|by etrans]. Qed.

Section runs.
Context (w : World) (strsignal : Z -> string) (behave : list (Z * Z) -> Z -> Z -> Body) (clock : list (Z * Z) -> Z * Z).
Context (Hsend : forall h f i, forallb sendable (body_msgs (behave h f i)) = true).
Context (Hclock : forall h c, natural (DIFF_IN_USEC (clock h) (clock (h ++ [c])%list)) = true).
Context (L : list log_call).

Lemma call_ok r c f i :
  piped (pipes r) c Returns -> let e := ends (behave (calls r) f i) in
  exists r', call behave r f i = Ok (r', outcome_of (_fstat r) e) /\ next r r' /\ calls r' = (calls r ++ [(f, i)])%list /\ piped (pipes r') c e.
Proof.
  intros (ms & Hp & Hs & Hq & Hc) e. unfold call. specialize (Hsend (calls r) f i). simpl end_msgs in *. rewrite app_nil_r in *.
  destruct (send_msgs_spec _ _ _ Hp Hsend) as (p' & Es & Hp'). rewrite (send_each_ok _ _ _ Es). cbn [mbind res_bind].
  exists (with_calls (with_pipes r p') (calls r ++ [(f, i)])%list). split; [|split; [done|split; [done|]]].
  - do 2 f_equal. fold e. unfold cur_fork_status. simpl. by destruct e, (_fstat r).
  - unfold body_msgs in *. fold e in Hp', Hsend. set (qs := mjoin _) in *. exists (ms ++ qs)%list. simpl. rewrite <- app_assoc, stream_app.
    split; [done|]. rewrite forallb_app, Hs, Hsend, forallb_app, Hq. subst qs. rewrite acts_quiet. split_and!; try done.
    rewrite existsb_app. by destruct c, (existsb is_ctx ms).
Qed.

Lemma send_ctx_ok r c x : piped (pipes r) c Returns -> x ∈ [SETUP; TEST; TEARDOWN] -> exists p', send_ctx r x = Ok (with_pipes r p') /\ piped p' true Returns.
Proof.
  intros Hp Hx. assert (sendable (CtxMsg x) = true /\ quiet (CtxMsg x) = true) as [H1 H2].
  { assert (x = SETUP \/ x = TEST \/ x = TEARDOWN) as [->|[->| ->]] by set_solver; done. }
  destruct (piped_sends _ _ [CtxMsg x] Hp) as (p' & Es & Hp'); [by rewrite <- H1; apply andb_true_r|by rewrite <- H2; apply andb_true_r|].
  rewrite orb_true_r in Hp'. exists p'. split; [|done]. unfold send_ctx, send_ctx_info. cbn [send_msgs] in Es. apply res_bind_inv in Es as (q & -> & [= ->]). done.
Qed.

Lemma spec_calls_app h xs ys : spec_calls behave h (xs ++ ys)%list = let '(h', e) := spec_calls behave h xs in match e with Returns => spec_calls behave h' ys | e => (h', e) end.
Proof. revert h. induction xs as [|[f i] xs IH]; intros h; simpl; [done|]. by destruct (ends (behave h f i)). Qed.

(** The call of a function and a list of others: used by the loops over fixtures. *)
Lemma outcome_returned fs e : (match outcome_of fs e with Returned => false | _ => true end) = match e with Returns => false | _ => true end.
Proof. by destruct e, fs. Qed.

Lemma setups_ok fs name r : 
  piped (pipes r) true Returns -> let '(h, e) := spec_calls behave (calls r) (fixture_calls fs) in
  exists r', fold_res (checked_setup_step behave CK_FORK name) fs (r, None, Returned) = Ok (r', None, outcome_of (_fstat r) e) /\ next r r' /\ calls r' = h /\ piped (pipes r') true e.
Proof.
  revert r. induction fs as [|f fs IH]; intros r Hp; [by exists r|]. cbn [fixture_calls fmap list_fmap spec_calls fold_res checked_setup_step fst snd].
  destruct (call_ok r true (fun_ f) 0 Hp) as (r' & -> & Hn & Hc & Hp'). cbn [mbind res_bind]. rewrite outcome_returned. destruct (ends (behave _ _ _)) eqn:He.
  { specialize (IH r' Hp'). rewrite Hc, (next_fork _ _ Hn) in IH. simpl outcome_of. fold (fixture_calls fs). destruct (spec_calls _ _ _) as [h e]. destruct IH as (r2 & -> & Hn2 & ?). exists r2. split; [done|]. split; [by etrans|done]. }
  all: by exists r'.
Qed.

Lemma teardowns_ok fs r c :
  piped (pipes r) c Returns -> let '(h, e) := spec_calls behave (calls r) (fixture_calls fs) in
  exists r', fold_res (teardown_step behave) fs (r, Returned) = Ok (r', outcome_of (_fstat r) e) /\ next r r' /\ calls r' = h /\ piped (pipes r') c e.
Proof.
  revert r. induction fs as [|f fs IH]; intros r Hp; [by exists r|]. cbn [fixture_calls fmap list_fmap spec_calls fold_res]. change (teardown_step behave f (r, Returned)) with (r ← send_ctx r TEARDOWN; '(r, o) ← call behave r (fun_ f) 0; Ok (r, o, match o with Returned => false | _ => true end)).
  destruct (send_ctx_ok r c TEARDOWN Hp) as (p1 & -> & Hp1); [set_solver|]. cbn [mbind res_bind].
  destruct (call_ok (with_pipes r p1) true (fun_ f) 0 Hp1) as (r' & -> & Hn & Hc & Hp'). cbn [mbind res_bind]. rewrite outcome_returned.
  assert (next r r') as Hn' by (by etrans; [|exact Hn]). apply (piped_weaken _ c) in Hp'. simpl calls in *. destruct (ends (behave _ _ _)) eqn:He.
  { specialize (IH r' Hp'). rewrite Hc, (next_fork _ _ Hn') in IH. fold (fixture_calls fs). destruct (spec_calls _ _ _) as [h e]. destruct IH as (r2 & IH & Hn2 & ?). exists r2. split; [exact IH|]. split; [by etrans|done]. }
  all: by exists r'.
Qed.

Lemma put_next r r' tc k c : next r r' -> has_case (rmem r) tc k -> tcase_ok c k -> next r (put_tcase r' tc c).
Proof.
  intros Hn Hk Hc. etrans; [exact Hn|]. split; [done..|]. apply (same_put_case _ _ k); [|done]. by apply (next_mem _ _ Hn).
Qed.

Lemma get_case r tc k : has_case (rmem r) tc k -> exists c, get_tcase (rmem r) tc = Ok c /\ tcase_ok c k.
Proof. intros (c & Hc & Hk). exists c. unfold get_tcase. by rewrite Hc. Qed.

Lemma checked_setup_ok r tc k :
  has_case (rmem r) tc k -> srunner_fork_status w (srun r) = CK_FORK -> piped (pipes r) false Returns ->
  let '(h, e) := spec_calls behave (calls r) (fixture_calls (c_cs k)) in
  exists r', tcase_run_checked_setup w behave r tc = Ok (r', None, outcome_of (_fstat r) e) /\ next r r' /\ calls r' = h /\ piped (pipes r') true e.
Proof.
  intros Hk Hf Hp. unfold tcase_run_checked_setup. destruct (get_case r tc k Hk) as (c & -> & Hc). cbn [mbind res_bind]. rewrite Hf.
  destruct (send_ctx_ok r false SETUP Hp) as (p1 & -> & Hp1); [set_solver|]. cbn [mbind res_bind].
  pose proof (setups_ok (c_cs k) (tc_name c) (with_pipes r p1) Hp1) as H. simpl calls in H. destruct (spec_calls _ _ _) as [h e]. destruct H as (r' & Ef & Hn & Hh & Hp').
  destruct (for_list_ok _ _ _ _ _ (ok_cs _ _ Hc) Ef) as (l & -> & Hl). cbn [mbind res_bind]. eexists. split; [done|]. split; [|done].
  apply (put_next _ _ _ k); [by etrans; [|exact Hn]|done|]. destruct Hc. by split.
Qed.

Lemma checked_teardown_ok r tc k c :
  has_case (rmem r) tc k -> piped (pipes r) c Returns ->
  let '(h, e) := spec_calls behave (calls r) (fixture_calls (c_ct k)) in
  exists r', tcase_run_checked_teardown behave r tc = Ok (r', outcome_of (_fstat r) e) /\ next r r' /\ calls r' = h /\ piped (pipes r') c e.
Proof.
  intros Hk Hp. unfold tcase_run_checked_teardown, srunner_run_teardown. destruct (get_case r tc k Hk) as (t & -> & Ht). cbn [mbind res_bind].
  pose proof (teardowns_ok (c_ct k) r c Hp) as H. destruct (spec_calls _ _ _) as [h e]. destruct H as (r' & Ef & Hn & Hh & Hp').
  destruct (for_list_ok _ _ _ _ _ (ok_ct _ _ Ht) Ef) as (l & -> & Hl). cbn [mbind res_bind]. eexists. split; [done|]. split; [|done].
  apply (put_next _ _ _ k); [done|done|]. destruct Ht. by split.
Qed.

Lemma unchecked_teardown_ok r tc k c h :
  has_case (rmem r) tc k -> piped (pipes r) c Returns -> spec_teardowns behave (calls r) (c_ut k) = Some h ->
  exists r', srunner_run_unchecked_teardown behave r tc = Ok r' /\ next r r' /\ calls r' = h /\ piped (pipes r') c Returns.
Proof.
  intros Hk Hp Hs. unfold srunner_run_unchecked_teardown, srunner_run_teardown. destruct (get_case r tc k Hk) as (t & -> & Ht). cbn [mbind res_bind].
  pose proof (teardowns_ok (c_ut k) r c Hp) as H. unfold spec_teardowns in Hs. destruct (spec_calls _ _ _) as [h' []]; try done. injection Hs as ->. destruct H as (r' & Ef & Hn & Hh & Hp').
  destruct (for_list_ok _ _ _ _ _ (ok_ut _ _ Ht) Ef) as (l & -> & Hl). cbn [mbind res_bind outcome_of]. eexists. split; [done|]. split; [|done].
  apply (put_next _ _ _ k); [done|done|]. destruct Ht. by split.
Qed.

Lemma next_case r r' tc k : next r r' -> has_case (rmem r) tc k -> has_case (rmem r') tc k.
Proof. intros [_ _ _ [H _]]. apply H. Qed.

Lemma outcome_gone e : e <> Returns -> outcome_of CK_FORK e = Gone (status_of e).1 (status_of e).2.
Proof. by destruct e. Qed.

Lemma child_ends r tc k t i :
  has_case (rmem r) tc k -> srunner_fork_status w (srun r) = CK_FORK -> _fstat r = CK_FORK -> piped (pipes r) false Returns ->
  let '(h, e) := spec_calls behave (calls r) (fixture_calls (c_cs k) ++ [(fn t, i)] ++ fixture_calls (c_ct k)) in
  exists r', child w behave clock r tc t i = Ok (r', Gone (status_of e).1 (status_of e).2) /\ calls r' = h /\ piped (pipes r') true e.
Proof.
  intros Hk Hf Hf' Hp. rewrite spec_calls_app. unfold child. pose proof (checked_setup_ok r tc k Hk Hf Hp) as H. destruct (spec_calls _ _ (fixture_calls (c_cs k))) as [h1 e1].
  destruct H as (r1 & -> & Hn1 & <- & Hp1). cbn [mbind res_bind]. rewrite Hf'. destruct e1; [|by exists r1..]. cbn [outcome_of app spec_calls].
  destruct (call_ok r1 true (fn t) i Hp1) as (r2 & -> & Hn2 & Hc2 & Hp2). rewrite (next_fork _ _ Hn1), Hf' in *. cbn [mbind res_bind]. destruct (ends (behave (calls r1) (fn t) i)) eqn:He; [|by exists r2..]. cbn [outcome_of].
  assert (next r r2) as Hn by by etrans. pose proof (checked_teardown_ok r2 tc k true (next_case _ _ _ _ Hn Hk) Hp2) as H. rewrite Hc2 in H. destruct (spec_calls _ _ (fixture_calls (c_ct k))) as [h3 e3].
  destruct H as (r3 & -> & Hn3 & <- & Hp3). rewrite (next_fork _ _ Hn), Hf' in *. cbn [mbind res_bind]. destruct e3; [|by exists r3..]. cbn [outcome_of].
  rewrite Hc2. specialize (Hclock (calls r1) (fn t, i)). apply natural_spec in Hclock as Hd. rewrite wrap_int_id by (unfold in_int, int_min, int_max; lia).
  destruct (piped_sends _ _ [DurationMsg (DIFF_IN_USEC (clock (calls r1)) (clock (calls r1 ++ [(fn t, i)])))] Hp3) as (p4 & Es & Hp4); [|done|].
  { cbn [forallb]. unfold sendable. by rewrite Hclock. }
  cbn [send_msgs] in Es. apply res_bind_inv in Es as (q & Eq & [= ->]). unfold send_duration_info. rewrite Eq. cbn [mbind res_bind]. by eexists.
Qed.

(** A result shows an outcome. *)
Definition shows (tr : TestResult) (o : Outcome) : Prop :=
  rtype tr = o_type o /\ msg tr = Some (o_msg o) /\ tcname tr = Some (o_case o) /\ tname tr = Some (o_test o) /\ iter tr = Some (o_iter o) /\
  forall f l, o_place o = Some (f, l) -> file tr = Some f /\ line tr = l.

Lemma set_fork_verdict tr t e :
  msg tr = fail_msg e ->
  set_fork_info strsignal tr (status_of e).1 (status_of e).2 (signal t) (allowed_exit_value t) = set_result tr (verdict strsignal t e).1 (Some (verdict strsignal t e).2).
Proof.
  intros Hm. destruct e as [|f l m|c|s|]; cbn [status_of fst snd set_fork_info verdict]; try rewrite Hm; cbn [fail_msg].
  - by destruct (signal t =? 0), (0 =? allowed_exit_value t).
  - rewrite (Z.eqb_sym 1). by destruct (signal t =? 0), (allowed_exit_value t =? 1).
  - by destruct (signal t =? 0), (Z.land c 255 =? allowed_exit_value t).
  - rewrite (Z.eqb_sym s). by destruct (signal t =? s), (signal t =? 0).
  - destruct (Z.eqb_spec (signal t) SIGKILL) as [->|Hs]; [done|]. by destruct (signal t =? 0).
Qed.

Lemma fork_test_ok r tc k t i :
  has_case (rmem r) tc k -> srunner_fork_status w (srun r) = CK_FORK -> _fstat r = CK_FORK -> piped (pipes r) false Returns ->
  let '(h, o) := spec_test (verdict strsignal) behave (calls r) k t i in
  exists r' tr, tcase_run_tfun_fork w strsignal behave clock r tc t i = Ok (r', tr) /\ next r r' /\ calls r' = h /\ piped (pipes r') false Returns /\ shows tr o.
Proof.
  intros Hk Hf Hf' Hp. unfold spec_test, tcase_run_tfun_fork. destruct (get_case r tc k Hk) as (c & -> & Hc). cbn [mbind res_bind].
  pose proof (child_ends r tc k t i Hk Hf Hf' Hp) as H. destruct (spec_calls _ _ _) as [h e]. destruct H as (r1 & -> & Hh & Hp1). cbn [mbind res_bind].
  destruct (piped_receive _ _ (waserror (status_of e).1 (signal t)) Hp1) as (p2 & tr & Er & Hp2 & Hm & Hpl). destruct (verdict strsignal t e) as [ty m] eqn:Ev.
  unfold receive_result_info_fork. simpl pipes. rewrite Er. cbn [mbind res_bind]. rewrite set_fork_verdict by done. rewrite Ev. eexists _, _. split; [done|]. split; [by split|]. split; [done|]. split; [done|].
  rewrite (ok_name _ _ Hc). by split_and!.
Qed.

(** *** A whole run *)

(** The results of a runner are some outcomes, and it has counted them. *)
Definition count_type (ty : test_result) (os : list Outcome) : Z := Z.of_nat (List.length (filter (fun o => o_type o = ty) os)).

Record reported (sr : SRunner) (os : list Outcome) : Prop := {
  rep_results : exists trs, list_ok (resultlst sr) trs /\ Forall2 shows trs os;
  rep_checked : n_checked (stats sr) = Z.of_nat (List.length os);
  rep_failed : n_failed (stats sr) = count_type CK_FAILURE os;
  rep_errors : n_errors (stats sr) = count_type CK_ERROR os }.

Lemma count_snoc ty os o : count_type ty (os ++ [o]) = count_type ty os + (if bool_decide (o_type o = ty) then 1 else 0).
Proof. unfold count_type. rewrite filter_app, length_app, filter_cons, filter_nil. case_bool_decide; [rewrite decide_True by done|rewrite decide_False by done]; simpl; lia. Qed.

Lemma count_le ty os : 0 <= count_type ty os <= Z.of_nat (List.length os).
Proof. unfold count_type. pose proof (length_filter (fun o => o_type o = ty) os). lia. Qed.

Lemma add_failure_ok sr os tr o :
  reported sr os -> shows tr o -> Z.of_nat (List.length os) + 1 < 2 ^ 30 ->
  exists sr', srunner_add_failure sr tr = Ok sr' /\ reported sr' (os ++ [o]) /\ fstat sr' = fstat sr /\ slst sr' = slst sr.
Proof.
  intros [(trs & Hl & Hs) Hc Hf He] Hsh Hb. pose proof (Forall2_length _ _ _ Hs) as Hlen. unfold srunner_add_failure.
  destruct (add_end_ok _ _ tr Hl) as (l & -> & Hl'); [lia|]. cbn [mbind res_bind]. pose proof (count_le CK_FAILURE os). pose proof (count_le CK_ERROR os).
  assert (forall ty x, x = count_type ty os -> (if bool_decide (rtype tr = ty) then chk (x + 1) else Ok x) = Ok (count_type ty (os ++ [o]))) as Hk.
  { intros ty x ->. rewrite count_snoc. destruct Hsh as [-> _]. pose proof (count_le ty os). case_bool_decide; [by rewrite chk_ok by (unfold in_int, int_min, int_max; lia)|]. by rewrite Z.add_0_r. }
  rewrite (chk_ok (n_checked (stats sr) + 1)) by (unfold in_int, int_min, int_max; lia). cbn [mbind res_bind]. rewrite (Hk CK_FAILURE _ Hf). cbn [mbind res_bind]. rewrite (Hk CK_ERROR _ He). cbn [mbind res_bind]. eexists. split; [done|]. split; [|done].
  split; simpl; [|rewrite length_app; simpl; lia|done..]. exists (trs ++ [tr])%list. split; [done|]. apply Forall2_app; [done|]. by constructor.
Qed.

(** The calls of the logging functions for an item. *)
Inductive log_item : Type := LSuite (name : string) | LSuiteEnd | LStart (title : string) | LEnd (o : Outcome).

Definition log_items (its : list item) : list log_item :=
  x ← its; match x with ISuite n => [LSuite n] | ISuiteEnd => [LSuiteEnd] | ITest t o => [LStart t; LEnd o] | ISetup _ => [] end.

Definition logged (x : log_call) (y : log_item) : Prop :=
  match x, y with
  | SuiteStart n, LSuite n' => n = n'
  | SuiteEnd, LSuiteEnd => True
  | TestStart t, LStart t' => t = t'
  | TestEnd tr, LEnd o => shows tr o
  | _, _ => False
  end.

Definition log_ok (r : Run) (its : list item) : Prop := exists xs, logs r = (L ++ xs)%list /\ Forall2 logged xs (log_items its).

Lemma log_ok_app r r' its x xs :
  log_ok r its -> logs r' = (logs r ++ xs)%list -> Forall2 logged xs (log_items [x]) -> log_ok r' (its ++ [x]).
Proof.
  intros (ys & Hy & Hf) Hl Hx. exists (ys ++ xs)%list. rewrite Hl, Hy, <- app_assoc. split; [done|]. unfold log_items. rewrite bind_app. by apply Forall2_app.
Qed.

(** The runner between two calls, in its own or in child processes. *)
Record running (fs : fork_status) (m : Mem) (h : list (Z * Z)) (its : list item) (r : Run) : Prop := {
  ru_mem : same_lists m (rmem r);
  ru_calls : calls r = h;
  ru_fstat : _fstat r = fs;
  ru_fork : srunner_fork_status w (srun r) = CK_FORK;
  ru_pipe : piped (pipes r) false Returns;
  ru_rep : reported (srun r) (outcomes its);
  ru_log : log_ok r its }.

Definition few (its : list item) : Prop := Z.of_nat (List.length its) < 2 ^ 30.

Lemma few_app os os' : few (os ++ os') -> few os.
Proof. unfold few. rewrite length_app. lia. Qed.

Lemma outcomes_app its its' : outcomes (its ++ its') = (outcomes its ++ outcomes its')%list.
Proof. apply bind_app. Qed.

Lemma outcomes_le its : (List.length (outcomes its) <= List.length its)%nat.
Proof. induction its as [|[] its IH]; simpl; lia. Qed.

Lemma few_outcome its x : few (its ++ [x]) -> Z.of_nat (List.length (outcomes its)) + 1 < 2 ^ 30.
Proof. unfold few. rewrite length_app. pose proof (outcomes_le its). simpl. lia. Qed.

Lemma fork_status_fstat sr sr' : fstat sr' = fstat sr -> srunner_fork_status w sr' = srunner_fork_status w sr.
Proof. unfold srunner_fork_status. by intros ->. Qed.

(** A result is added. *)
Lemma running_add fs m h its r tr o x :
  running fs m h its r -> shows tr o -> outcomes [x] = [o] -> few (its ++ [x]) ->
  exists sr, srunner_add_failure (srun r) tr = Ok sr /\ forall r' xs,
    srun r' = sr -> same_lists (rmem r) (rmem r') -> _fstat r' = _fstat r -> piped (pipes r') false Returns ->
    logs r' = (logs r ++ xs)%list -> Forall2 logged xs (log_items [x]) -> running fs m (calls r') (its ++ [x]) r'.
Proof.
  intros [? ? ? ? ? ? Hl] Hsh Hx Hb%few_outcome. destruct (add_failure_ok (srun r) (outcomes its) tr o) as (sr & -> & Hr & Hfs & _); [done..|].
  exists sr. split; [done|]. intros r' xs <- Hm Hf Hp Hlog Hxs. split; [by etrans|done|congruence|by rewrite (fork_status_fstat _ _ Hfs)|done|by rewrite outcomes_app, Hx|].
  by apply (log_ok_app r _ _ _ xs).
Qed.

Lemma running_next fs m h os r r' : running fs m h os r -> next r r' -> piped (pipes r') false Returns -> running fs m (calls r') os r'.
Proof. intros [? ? ? ? ? ? (xs & ? & ?)] [Hs Hf Hl Hm] Hp. split; [by etrans|done|congruence|congruence|done|congruence|]. exists xs. split; [congruence|done]. Qed.

Lemma iterations_ok fuel n m h os r tc k t i :
  running CK_FORK m h os r -> has_case m tc k -> let '(h', os') := spec_iterations (verdict strsignal) behave n h k t i in few (os ++ os') ->
  exists r', iterations w strsignal behave clock fuel n r tc t i = Ok r' /\ running CK_FORK m h' (os ++ os') r'.
Proof.
  revert h os r i. induction n as [|n IH]; intros h os r i Hr Hk; cbn [spec_iterations iterations]; [intros _; exists r; by rewrite app_nil_r|]. pose proof Hr as [Hm Hh Hs Hf Hp _ _].
  destruct (get_case r tc k (proj1 Hm _ _ Hk)) as (c & -> & Hc). cbn [mbind res_bind]. set (r0 := log r _). change (srun r0) with (srun r). rewrite Hf.
  pose proof (fork_test_ok r0 tc k t i (proj1 Hm _ _ Hk) Hf Hs Hp) as H. change (calls r0) with (calls r) in H. rewrite Hh in H. destruct (spec_test _ _ _ _ _ _) as [h1 o]. destruct H as (r1 & tr & -> & Hn & <- & Hp1 & Hsh).
  cbn [mbind res_bind]. destruct (spec_iterations _ _ _ _ _ _ _) as [h2 os2] eqn:E2. rewrite (cons_middle _ os os2), app_assoc. intros Hb.
  destruct (running_add _ _ _ _ _ tr o (ITest (title k t) o) Hr Hsh eq_refl (few_app _ _ Hb)) as (sr & Ea & Hr2). rewrite (next_srun _ _ Hn). change (srun r0) with (srun r). rewrite Ea. cbn [mbind res_bind].
  specialize (Hr2 (log (with_srun r1 sr) (TestEnd tr)) [TestStart (test_title c t); TestEnd tr]). specialize (IH (calls r1) (os ++ [ITest (title k t) o])%list (log (with_srun r1 sr) (TestEnd tr)) (i + 1)). rewrite E2 in IH. apply IH; [|done|done].
  apply Hr2; [done|apply (next_mem _ _ Hn)|apply (next_fork _ _ Hn)|done|simpl; rewrite (next_logs _ _ Hn); simpl; by rewrite <- app_assoc|].
  constructor; [|by constructor]. simpl. unfold test_title, title. by rewrite (ok_name _ _ Hc).
Qed.

Lemma tests_ok fuel ts m h os r tc k :
  running CK_FORK m h os r -> has_case m tc k -> let '(h', os') := spec_tests (verdict strsignal) behave h k ts in few (os ++ os') ->
  exists r', fold_res (fun t r => r ← iterations w strsignal behave clock fuel (Z.to_nat (loop_end t - loop_start t)) r tc t (loop_start t); Ok (r, false)) ts r = Ok r' /\
    running CK_FORK m h' (os ++ os') r'.
Proof.
  revert h os r. induction ts as [|t ts IH]; intros h os r Hr Hk; cbn [spec_tests fold_res]; [intros _; exists r; by rewrite app_nil_r|].
  pose proof (iterations_ok fuel (Z.to_nat (loop_end t - loop_start t)) m h os r tc k t (loop_start t) Hr Hk) as H. destruct (spec_iterations _ _ _ _ _ _ _) as [h1 os1].
  destruct (spec_tests _ _ _ _ _) as [h2 os2] eqn:E2. rewrite app_assoc. intros Hb. destruct (H (few_app _ _ Hb)) as (r1 & -> & Hr1). cbn [mbind res_bind].
  specialize (IH _ _ _ Hr1 Hk). rewrite E2 in IH. by apply IH.
Qed.

Lemma tfuns_ok fuel m h os r tc k :
  running CK_FORK m h os r -> has_case m tc k -> let '(h', os') := spec_tests (verdict strsignal) behave h k (c_tests k) in few (os ++ os') ->
  exists r', srunner_iterate_tcase_tfuns w strsignal behave clock fuel r tc = Ok r' /\ running CK_FORK m h' (os ++ os') r'.
Proof.
  intros Hr Hk. pose proof (tests_ok fuel (c_tests k) m h os r tc k Hr Hk) as H. destruct (spec_tests _ _ _ _ _) as [h' os']. intros Hb. destruct (H Hb) as (r' & Ef & Hr').
  unfold srunner_iterate_tcase_tfuns. destruct (get_case r tc k (proj1 (ru_mem _ _ _ _ _ Hr) _ _ Hk)) as (c & -> & Hc). cbn [mbind res_bind].
  destruct (for_list_ok _ _ _ _ _ (ok_tests _ _ Hc) Ef) as (l & -> & Hl). cbn [mbind res_bind]. pose proof (proj1 (ru_mem _ _ _ _ _ Hr') _ _ Hk) as Hk'. destruct (get_case r' tc k Hk') as (c' & -> & Hc'). cbn [mbind res_bind].
  eexists. split; [done|]. destruct Hr' as [? ? ? ? ? ? Hlg]. split; try done. etrans; [done|]. apply (same_put_case _ _ k); [done|]. destruct Hc'. by split.
Qed.

Lemma receive_nofork_ok p e tcn tn i d :
  piped p true e -> exists p' tr, receive_result_info_nofork p tcn tn i d = Ok (p', tr) /\ piped p' false Returns /\
    shows tr (match e with Asserts f l m => mk_Outcome tcn tn i CK_FAILURE m (Some (f, l)) | _ => mk_Outcome tcn tn i CK_PASS pass_msg None end).
Proof.
  intros Hp. destruct (piped_receive p e false Hp) as (p' & tr & Er & Hp' & Hm & Hpl). unfold receive_result_info_nofork. rewrite Er. cbn [mbind res_bind]. exists p', (set_nofork_info (set_names tr tcn tn i d)).
  split; [done|]. split; [done|]. unfold set_nofork_info. cbn [set_names msg]. rewrite Hm. destruct e; by split_and!.
Qed.

Definition opt_list (o : option Outcome) : list item := match o with Some o => [ISetup o] | None => [] end.

Lemma unchecked_step_ok name f m h os r rv :
  running CK_NOFORK m h os r -> let h' := (h ++ [(fun_ f, 0)])%list in
  match ends (behave h (fun_ f) 0) with
  | Returns => exists r', unchecked_setup_step behave name f (r, rv) = Ok (r', true, false) /\ running CK_NOFORK m h' os r'
  | Asserts file line mm =>
      let os' := (os ++ [ISetup (mk_Outcome name "unchecked_setup" 0 CK_FAILURE mm (Some (file, line)))])%list in
      few os' -> exists r', unchecked_setup_step behave name f (r, rv) = Ok (r', false, true) /\ running CK_NOFORK m h' os' r'
  | _ => True
  end.
Proof.
  intros Hr h'. pose proof Hr as [Hm Hh Hst Hf Hp _ _]. unfold unchecked_setup_step. cbn [fst].
  destruct (send_ctx_ok r false SETUP Hp) as (p1 & -> & Hp1); [set_solver|]. cbn [mbind res_bind].
  destruct (call_ok (with_pipes r p1) true (fun_ f) 0 Hp1) as (r2 & -> & Hn & Hc & Hp2). simpl calls in *. simpl _fstat. rewrite Hst, Hh in *. cbn [mbind res_bind].
  destruct (receive_nofork_ok (pipes r2) _ name "unchecked_setup" 0 (-1) Hp2) as (p3 & tr & Er & Hp3 & Hsh).
  assert (running CK_NOFORK m h' os (with_pipes r2 p3)) as Hr3.
  { unfold h'. rewrite <- Hc. change (calls r2) with (calls (with_pipes r2 p3)). apply (running_next _ _ h _ r); [done| |done]. etrans; [|etrans; [exact Hn|]]; by split. }
  destruct (ends (behave h (fun_ f) 0)) as [|file line mm| | |] eqn:He; try done; cbn [outcome_of]; rewrite Er; cbn [mbind res_bind]; rewrite (proj1 Hsh); cbn [o_type].
  - by eexists.
  - intros Hb. destruct (running_add _ _ _ _ _ tr _ (ISetup _) Hr3 Hsh eq_refl Hb) as (sr & Ea & Hra). rewrite bool_decide_true by done. simpl srun in *. rewrite Ea. cbn [mbind res_bind].
    exists (with_srun (with_pipes r2 p3) sr). split; [done|]. unfold h'. rewrite <- Hc. apply (Hra (with_srun (with_pipes r2 p3) sr) []); try done. simpl. by rewrite app_nil_r.
Qed.

Lemma unchecked_setups_ok name fs m h h' os oo r :
  running CK_NOFORK m h os r -> spec_setups behave h name fs = Some (h', oo) -> few (os ++ opt_list oo) ->
  exists r', fold_res (unchecked_setup_step behave name) fs (r, true) = Ok (r', match oo with Some _ => false | None => true end) /\ running CK_NOFORK m h' (os ++ opt_list oo) r'.
Proof.
  revert h r. induction fs as [|f fs IH]; intros h r Hr Hs Hb; cbn [spec_setups fold_res] in *.
  { injection Hs as <- <-. exists r. simpl. by rewrite app_nil_r. }
  pose proof (unchecked_step_ok name f m h os r true Hr) as H. destruct (ends (behave h (fun_ f) 0)); try done.
  - destruct H as (r1 & -> & Hr1). cbn [mbind res_bind]. by apply (IH _ _ Hr1).
  - injection Hs as <- <-. destruct (H Hb) as (r1 & -> & Hr1). by exists r1.
Qed.

Lemma unchecked_setup_ok m h h' os oo r tc k :
  running CK_FORK m h os r -> has_case m tc k -> spec_setups behave h (c_name k) (c_us k) = Some (h', oo) -> few (os ++ opt_list oo) ->
  exists r', srunner_run_unchecked_setup w behave r tc = Ok (r', match oo with Some _ => false | None => true end) /\ running CK_FORK m h' (os ++ opt_list oo) r'.
Proof.
  intros Hr Hk Hs Hb. unfold srunner_run_unchecked_setup. destruct (get_case (set_fork_status r CK_NOFORK) tc k (proj1 (ru_mem _ _ _ _ _ Hr) _ _ Hk)) as (c & -> & Hc). cbn [mbind res_bind].
  destruct (unchecked_setups_ok (tc_name c) (c_us k) m h h' os oo (set_fork_status r CK_NOFORK)) as (r1 & Ef & Hr1); [by destruct Hr|by rewrite (ok_name _ _ Hc)|done|].
  destruct (for_list_ok _ _ _ _ _ (ok_us _ _ Hc) Ef) as (l & -> & Hl). cbn [mbind res_bind]. eexists. split; [done|]. destruct Hr1 as [Hm ? ? Hf ? ? ?]. split; try done.
  etrans; [exact Hm|]. apply (same_put_case _ _ k); [by apply Hm|]. destruct Hc. by split.
Qed.

Lemma case_ok fuel m h h' os os' r tc k :
  running CK_FORK m h os r -> has_case m tc k -> spec_case (verdict strsignal) behave h k = Some (h', os') -> few (os ++ os') ->
  exists r', srunner_run_tcase w strsignal behave clock fuel r tc = Ok r' /\ running CK_FORK m h' (os ++ os') r'.
Proof.
  intros Hr Hk Hs Hb. unfold spec_case in Hs. destruct (spec_setups _ _ _ _) as [[h1 oo]|] eqn:E1; [|done]. simpl in Hs. unfold srunner_run_tcase.
  destruct (unchecked_setup_ok m h h1 os oo r tc k Hr Hk E1) as (r1 & -> & Hr1).
  { destruct oo as [o|]; [by injection Hs as <- <-|]. simpl. rewrite app_nil_r. by apply few_app in Hb. }
  cbn [mbind res_bind]. destruct oo as [o|]; [injection Hs as <- <-; by exists r1|]. simpl opt_list in Hr1. rewrite app_nil_r in Hr1.
  pose proof (tfuns_ok fuel m h1 os r1 tc k Hr1 Hk) as H. destruct (spec_tests _ _ _ _ _) as [h2 os2]. destruct (spec_teardowns _ _ _) as [h3|] eqn:E3; [|done]. injection Hs as -> ->.
  destruct (H Hb) as (r2 & -> & Hr2). cbn [mbind res_bind]. pose proof Hr2 as [Hm2 Hc2 _ _ Hp2 _ _]. rewrite <- Hc2 in E3.
  destruct (unchecked_teardown_ok r2 tc k false h' (proj1 Hm2 _ _ Hk) Hp2 E3) as (r3 & -> & Hn3 & <- & Hp3). exists r3. split; [done|]. by apply (running_next _ _ h2 _ r2).
Qed.

Lemma tcase_step_ok fuel tcn m h h' os os' r tc k :
  running CK_FORK m h os r -> has_case m tc k -> (if other_name tcn (c_name k) then Some (h, []) else spec_case (verdict strsignal) behave h k) = Some (h', os') -> few (os ++ os') ->
  exists r', tcase_step w strsignal behave clock fuel tcn tc r = Ok (r', false) /\ running CK_FORK m h' (os ++ os') r'.
Proof.
  intros Hr Hk Hs Hb. unfold tcase_step. destruct (get_case r tc k (proj1 (ru_mem _ _ _ _ _ Hr) _ _ Hk)) as (c & -> & Hc). cbn [mbind res_bind]. rewrite (ok_name _ _ Hc).
  destruct (other_name tcn (c_name k)); [injection Hs as <- <-; exists r; by rewrite app_nil_r|].
  destruct (case_ok fuel m h h' os os' r tc k Hr Hk Hs Hb) as (r' & -> & Hr'). by exists r'.
Qed.

Lemma seq_inv (skip : bool) (h h' : list (Z * Z)) (f : option (list (Z * Z) * list item)) (g : list (Z * Z) -> option (list (Z * Z) * list item)) os' :
  (if skip then g h else '(h, os) ← f; '(h, os') ← g h; Some (h, os ++ os')%list) = Some (h', os') ->
  exists h1 os1 os2, (if skip then Some (h, []) else f) = Some (h1, os1) /\ g h1 = Some (h', os2) /\ os' = (os1 ++ os2)%list.
Proof.
  destruct skip; [by exists h, [], os'|]. destruct f as [[h1 os1]|]; [|done]. simpl. destruct (g h1) as [[h2 os2]|] eqn:E2; [|done]. intros [= <- <-]. by exists h1, os1, os2.
Qed.

Lemma cases_ok fuel tcn ks tcs m h h' os os' r :
  running CK_FORK m h os r -> Forall2 (has_case m) tcs ks -> spec_cases (verdict strsignal) behave h tcn ks = Some (h', os') -> few (os ++ os') ->
  exists r', fold_res (tcase_step w strsignal behave clock fuel tcn) tcs r = Ok r' /\ running CK_FORK m h' (os ++ os') r'.
Proof.
  intros Hr Hks. revert h os os' r Hr. induction Hks as [|tc k tcs ks Hk Hks IH]; intros h os os' r Hr Hs Hb; cbn [spec_cases fold_res] in *.
  { injection Hs as <- <-. exists r. by rewrite app_nil_r. }
  apply (seq_inv _ _ _ _ (fun h => spec_cases (verdict strsignal) behave h tcn ks)) in Hs as (h1 & os1 & os2 & E1 & E2 & ->).
  rewrite app_assoc in *. destruct (tcase_step_ok fuel tcn m h h1 os os1 r tc k Hr Hk E1 (few_app _ _ Hb)) as (r1 & -> & Hr1). cbn [mbind res_bind]. by apply (IH h1).
Qed.

(** The memory holds some suites. *)
Definition has_cases (m : Mem) (s : Z) (x : string * list Case) : Prop := s <> 0 /\ exists tcs, has_suite m s x.1 tcs /\ Forall2 (has_case m) tcs x.2.

Lemma suite_tcase_loop_ok m tcn n lp tcs ks i :
  Forall2 (has_case m) tcs ks -> list_ok lp tcs -> current lp = Z.of_nat i -> (i <= List.length tcs)%nat -> (List.length tcs - i < n)%nat -> tcs <> [] ->
  exists lp' a, suite_tcase_loop n m lp tcn = Ok (lp', a) /\ list_ok lp' tcs /\ (a =? 0) = forallb (fun k => other_name (Some tcn) (c_name k)) (drop i ks).
Proof.
  intros Hks. pose proof (Forall2_length _ _ _ Hks) as Hlen. revert lp i. induction n as [|n IH]; intros lp i Hok Hc Hi Hn Hne; [lia|]. cbn [suite_tcase_loop]. rewrite (cursor_end _ _ _ Hok Hc). case_bool_decide as Hend.
  - exists lp, 0. split; [done|]. split; [done|]. by rewrite drop_ge by lia.
  - destruct (lookup_lt_is_Some_2 tcs i) as [tc Htc]; [lia|]. destruct (lookup_lt_is_Some_2 ks i) as [k Hk]; [lia|]. destruct (Forall2_lookup_lr _ _ _ _ _ _ Hks Htc Hk) as (c & Hc' & Hck).
    destruct (cursor_val _ _ _ _ Hok Hc Htc) as [-> ->]. cbn [mbind res_bind]. unfold get_tcase. rewrite Hc'. cbn [mbind res_bind]. rewrite (ok_name _ _ Hck). rewrite (drop_S _ _ _ Hk). cbn [forallb]. unfold other_name at 1. destruct (String.eqb tcn (c_name k)) eqn:Hnm; [by exists lp, 1|].
    destruct (IH (set_current lp (Z.of_nat (S i))) (S i)) as (lp' & a & -> & Hok' & Ha); [apply cursor_at; [done..|lia]|done|lia|lia|done|].
    by exists lp', a.
Qed.

Lemma suite_tcase_ok m s x tcn : has_cases m s x ->
  exists m' a, suite_tcase m s tcn = Ok (m', a) /\ same_lists m m' /\ (a =? 0) = no_case (Some tcn) x.2.
Proof.
  intros (Hs & tcs & (y & Hy & Hyn & Hl) & Hks). unfold suite_tcase. rewrite (proj2 (Z.eqb_neq _ _)) by done. unfold get_suite. rewrite Hy. cbn [mbind res_bind].
  assert (exists lp' a, suite_tcase_loop (S (Z.to_nat (n_elts (tclst y)))) m (check_list_front (tclst y)) tcn = Ok (lp', a) /\ list_ok lp' tcs /\ (a =? 0) = no_case (Some tcn) x.2) as (lp' & a & -> & Hok & Ha).
  { destruct (decide (tcs = [])) as [->|Hne].
    - destruct (list_empty _ Hl) as [-> He]. exists (tclst y), 0. cbn [suite_tcase_loop]. rewrite He. split; [done|]. split; [done|]. by rewrite (Forall2_nil_inv_l _ _ Hks).
    - destruct (list_front _ _ Hl Hne) as [-> Hl']. pose proof (lo_n _ _ Hl). apply (suite_tcase_loop_ok m tcn _ _ _ x.2 0); try done; lia. }
  cbn [mbind res_bind]. eexists _, a. split; [done|]. split; [by apply (same_put_suite _ _ _ tcs)|done].
Qed.

Lemma has_cases_same m m' s x : same_lists m m' -> has_cases m s x -> has_cases m' s x.
Proof. intros [H1 H2] (Hs & tcs & Hsu & Hks). split; [done|]. exists tcs. split; [by apply H2|]. eapply Forall2_impl; [exact Hks|]. done. Qed.

Lemma get_suite_ok m s y : suites m !! s = Some y -> get_suite m s = Ok y.
Proof. unfold get_suite. by intros ->. Qed.

Lemma running_mem fs m h os r m' : running fs m h os r -> same_lists (rmem r) m' -> running fs m h os (with_mem r m').
Proof. intros [] Hm. split; try done. by etrans. Qed.

Lemma running_log fs m h its r x c : running fs m h its r -> outcomes [x] = [] -> Forall2 logged [c] (log_items [x]) -> running fs m h (its ++ [x]) (log r c).
Proof. intros [? ? ? ? ? ? Hl] Ho Hc. split; try done; [by rewrite outcomes_app, Ho, app_nil_r|]. by apply (log_ok_app r _ _ _ [c]). Qed.

Lemma suite_cases_ok fuel tcn m h h' os os' r s x :
  running CK_FORK m h os r -> has_cases m s x -> spec_suite (verdict strsignal) behave h x.1 tcn x.2 = Some (h', os') -> few (os ++ os') ->
  exists r', (y ← get_suite (rmem r) s; '(l, r) ← for_list (tcase_step w strsignal behave clock fuel tcn) (tclst y) (log r (SuiteStart (s_name y)));
    Ok (log (with_mem r (set_suite (rmem r) s (mk_Suite (s_name y) l))) SuiteEnd, false)) = Ok (r', false) /\ running CK_FORK m h' (os ++ os') r'.
Proof.
  intros Hr (Hs & tcs & Hsu & Hks) Hsp Hb. unfold spec_suite in Hsp. destruct (spec_cases _ _ _ _ _) as [[h1 os1]|] eqn:E1; [|done]. injection Hsp as -> <-.
  destruct (proj2 (ru_mem _ _ _ _ _ Hr) _ _ _ Hsu) as (y & Hy & Hyn & Hl). rewrite (get_suite_ok _ _ _ Hy). cbn [mbind res_bind]. rewrite (cons_middle _ os), !app_assoc in *.
  assert (running CK_FORK m h (os ++ [ISuite x.1]) (log r (SuiteStart (s_name y)))) as Hr0 by (apply running_log; [done|done|by repeat constructor]).
  destruct (cases_ok fuel tcn x.2 tcs m h h' _ os1 _ Hr0 Hks E1 (few_app _ _ Hb)) as (r1 & Ef & Hr1). destruct (for_list_ok _ _ _ _ _ Hl Ef) as (l & -> & Hl'). cbn [mbind res_bind].
  eexists. split; [done|]. apply running_log; [|done|by repeat constructor]. apply running_mem; [done|].
  destruct (proj2 (ru_mem _ _ _ _ _ Hr1) _ _ _ Hsu) as (y1 & Hy1 & Hyn1 & Hl1). rewrite Hyn, <- Hyn1. by apply (same_put_suite _ _ _ tcs).
Qed.

Lemma suite_step_ok fuel sname tcn m h h' os os' r s x :
  running CK_FORK m h os r -> has_cases m s x -> (if other_name sname x.1 || no_case tcn x.2 then Some (h, []) else spec_suite (verdict strsignal) behave h x.1 tcn x.2) = Some (h', os') -> few (os ++ os') ->
  exists r', suite_step w strsignal behave clock fuel sname tcn s r = Ok (r', false) /\ running CK_FORK m h' (os ++ os') r'.
Proof.
  intros Hr Hx Hsp Hb. pose proof Hx as (Hs & tcs & Hsu & Hks). unfold suite_step. destruct (proj2 (ru_mem _ _ _ _ _ Hr) _ _ _ Hsu) as (y & Hy & Hyn & Hl). rewrite (get_suite_ok _ _ _ Hy). cbn [mbind res_bind]. rewrite Hyn.
  destruct (other_name sname x.1); [injection Hsp as <- <-; exists r; by rewrite app_nil_r|]. cbn [orb] in Hsp. destruct tcn as [tcn|]; [|by apply (suite_cases_ok fuel None m h h' os os' r s x)].
  destruct (suite_tcase_ok (rmem r) s x tcn) as (m' & a & -> & Hm' & Ha); [by apply (has_cases_same m); [apply (ru_mem _ _ _ _ _ Hr)|]|]. cbn [mbind res_bind]. pose proof (running_mem _ _ _ _ _ _ Hr Hm') as Hr'.
  rewrite Ha. destruct (no_case (Some tcn) x.2); cbn [negb].
  - injection Hsp as <- <-. eexists. split; [done|]. by rewrite app_nil_r.
  - by apply (suite_cases_ok fuel (Some tcn) m h h' os os' (with_mem r m') s x).
Qed.

Lemma suites_ok fuel sname tcn ss addrs m h h' os os' r :
  running CK_FORK m h os r -> Forall2 (has_cases m) addrs ss -> spec_suites (verdict strsignal) behave h sname tcn ss = Some (h', os') -> few (os ++ os') ->
  exists r', fold_res (suite_step w strsignal behave clock fuel sname tcn) addrs r = Ok r' /\ running CK_FORK m h' (os ++ os') r'.
Proof.
  intros Hr Hss. revert h os os' r Hr. induction Hss as [|s [n ks] addrs ss Hx Hss IH]; intros h os os' r Hr Hs Hb; cbn [spec_suites fold_res] in *.
  { injection Hs as <- <-. exists r. by rewrite app_nil_r. }
  apply (seq_inv _ _ _ _ (fun h => spec_suites (verdict strsignal) behave h sname tcn ss)) in Hs as (h1 & os1 & os2 & E1 & E2 & ->). rewrite app_assoc in *.
  destruct (suite_step_ok fuel sname tcn m h h1 os os1 r s (n, ks) Hr Hx E1 (few_app _ _ Hb)) as (r1 & -> & Hr1). cbn [mbind res_bind]. by apply (IH h1).
Qed.

(** *** Where it goes wrong *)

(** An unchecked teardown that fails an assertion ends the runner, and nothing is reported. *)
Theorem check_teardown_ends_runner r tc k h f l m :
  has_case (rmem r) tc k -> piped (pipes r) false Returns -> _fstat r = CK_FORK ->
  spec_calls behave (calls r) (fixture_calls (c_ut k)) = (h, Asserts f l m) -> srunner_run_unchecked_teardown behave r tc = Exit 1.
Proof.
  intros Hk Hp Hf Hs. unfold srunner_run_unchecked_teardown, srunner_run_teardown. destruct (get_case r tc k Hk) as (t & -> & Ht). cbn [mbind res_bind].
  pose proof (teardowns_ok (c_ut k) r false Hp) as H. rewrite Hs in H. destruct H as (r' & Ef & _). rewrite Hf in Ef.
  destruct (for_list_ok _ _ _ _ _ (ok_ut _ _ Ht) Ef) as (l' & -> & _). done.
Qed.

(** A test that is expected to exit with 1 passes when an assertion in it fails. *)
Theorem check_exit_test_hides_failure r tc k t i h f l m :
  has_case (rmem r) tc k -> srunner_fork_status w (srun r) = CK_FORK -> _fstat r = CK_FORK -> piped (pipes r) false Returns ->
  signal t = 0 -> allowed_exit_value t = 1 ->
  spec_calls behave (calls r) (fixture_calls (c_cs k) ++ [(fn t, i)] ++ fixture_calls (c_ct k)) = (h, Asserts f l m) ->
  exists r' tr, tcase_run_tfun_fork w strsignal behave clock r tc t i = Ok (r', tr) /\ rtype tr = CK_PASS.
Proof.
  intros Hk Hf Hf' Hp Hs Ha Hc. pose proof (fork_test_ok r tc k t i Hk Hf Hf' Hp) as H. unfold spec_test in H. rewrite Hc in H. simpl in H. rewrite Hs, Ha in H.
  destruct H as (r' & tr & E & _ & _ & _ & [Ht _]). by exists r', tr.
Qed.

(** Without a process of its own, a test whose teardown fails an assertion never ends: the
    assertion jumps back behind the test, where the teardown is run again. *)
Lemma teardown_jumps r tc k f fs x :
  has_case (rmem r) tc k -> c_ct k = f :: fs -> (forall h, exists file line m, ends (behave h (fun_ f) 0) = Asserts file line m) ->
  _fstat r = CK_NOFORK -> get_pipe (pipes r) = Ok x ->
  exists r' x', tcase_run_checked_teardown behave r tc = Ok (r', Jumped) /\ has_case (rmem r') tc k /\ _fstat r' = CK_NOFORK /\ get_pipe (pipes r') = Ok x'.
Proof.
  intros Hk Hfs Hb Hst Hp. unfold tcase_run_checked_teardown, srunner_run_teardown. destruct (get_case r tc k Hk) as (c & -> & Hc). cbn [mbind res_bind]. destruct (Hb (calls r)) as (file & line & m & He).
  destruct (send_msgs_spec _ _ [CtxMsg TEARDOWN] Hp eq_refl) as (p1 & E1 & Hp1). cbn [send_msgs] in E1. apply res_bind_inv in E1 as (q & Eq & [= ->]).
  destruct (send_msgs_spec _ _ _ Hp1 (Hsend (calls r) (fun_ f) 0)) as (p2 & E2 & Hp2). apply send_each_ok in E2.
  assert (fold_res (teardown_step behave) (c_ct k) (r, Returned) = Ok (with_calls (with_pipes r p2) (calls r ++ [(fun_ f, 0)])%list, Jumped)) as Ef.
  { rewrite Hfs. cbn [fold_res]. assert (teardown_step behave f (r, Returned) = Ok (with_calls (with_pipes r p2) (calls r ++ [(fun_ f, 0)])%list, Jumped, true)) as ->; [|done].
    unfold teardown_step, send_ctx, send_ctx_info. cbn [fst]. rewrite Eq. cbn [mbind res_bind]. unfold call. simpl calls. simpl pipes. rewrite E2. cbn [mbind res_bind]. rewrite He. unfold cur_fork_status. simpl. by rewrite Hst. }
  destruct (for_list_ok _ _ _ _ _ (ok_ct _ _ Hc) Ef) as (l' & -> & Hl'). cbn [mbind res_bind]. eexists _, _. split; [done|]. split; [|done].
  eexists. split; [by apply lookup_insert_eq|]. destruct Hc. by split.
Qed.

Theorem check_nofork_teardown_loops fuel r tc k f fs x :
  has_case (rmem r) tc k -> c_ct k = f :: fs -> (forall h, exists file line m, ends (behave h (fun_ f) 0) = Asserts file line m) ->
  _fstat r = CK_NOFORK -> get_pipe (pipes r) = Ok x -> after_test behave clock fuel r tc = OutOfFuel.
Proof.
  intros Hk Hfs Hb. revert r x Hk. induction fuel as [|fuel IH]; intros r x Hk Hst Hp; cbn [after_test].
  all: destruct (teardown_jumps r tc k f fs x Hk Hfs Hb Hst Hp) as (r' & x' & -> & Hk' & Hst' & Hp'); cbn [mbind res_bind]; try done.
  by apply (IH r' x').
Qed.
End runs.

(** A name that is not given comes from the environment. *)
Definition chosen (w : World) (v : string) (name : option string) : option string := match name with None => getenv w v | Some _ => name end.

(** No test is one of [tcase_add_exit_test]. *)
Definition no_exit_tests (ss : list (string * list Case)) : Prop :=
  Forall (fun x => Forall (fun k => Forall (fun t => allowed_exit_value t = 0) (c_tests k)) x.2) ss.

(** C27: a run in which every test has its own process and no test is expected to exit
    returns, however the tests end (by returning, a failed assertion, an exit with another
    value than 0, a signal, or not at all), and its results are exactly the outcomes of the
    tests: one for each iteration of each chosen test, in order, with the verdict the
    documentation gives the way the test ended, its message, and the place of a failed
    assertion.  The counters of the runner agree, the functions were called exactly as the
    tests say, and the logs are told of every suite and every test.  The texts that the tests
    send fit the messages of the pipe, the clock does not run backwards and no call takes
    longer than an [int] of microseconds, and no unchecked fixture ends the runner. *)
Theorem check_run_reports (w : World) strsignal behave clock fuel (r : Run) addrs ss sname tcn print_mode h its :
  (forall h f i, forallb sendable (body_msgs (behave h f i)) = true) -> (forall h f i, plain_end (ends (behave h f i))) ->
  (forall h c, natural (DIFF_IN_USEC (clock h) (clock (h ++ [c])%list)) = true) ->
  srunner_fork_status w (srun r) = CK_FORK -> send_file2 (pipes r) = None -> print_mode < CK_LAST ->
  list_ok (slst (srun r)) addrs -> Forall2 (has_cases (rmem r)) addrs ss -> no_exit_tests ss -> reported (srun r) [] ->
  spec_suites (judged strsignal) behave (calls r) (chosen w "CK_RUN_SUITE" sname) (chosen w "CK_RUN_CASE" tcn) ss = Some (h, its) -> few its ->
  exists r' xs, srunner_run w strsignal behave clock fuel r sname tcn print_mode = Ok r' /\ reported (srun r') (outcomes its) /\ calls r' = h /\
    logs r' = (logs r ++ [InitLogging print_mode; SRunnerStart] ++ xs ++ [SRunnerEnd (srun r'); EndLogging])%list /\ Forall2 logged xs (log_items its).
Proof.
  intros Hsend Hends Hclock Hf Hp Hmode Hl Hss Hno Hrep Hs Hb.
  rewrite <- (agree_suites (verdict strsignal) (judged strsignal) behave plain_end) in Hs; [|done|done|].
  2:{ eapply Forall_impl; [exact Hno|]. intros x Hx. eapply Forall_impl; [exact Hx|]. intros k Hk. eapply Forall_impl; [exact Hk|].
      intros t Ht e He. by apply judged_verdict. }
  unfold srunner_run. rewrite (proj2 (Z.leb_gt _ _)) by done. unfold srunner_run_init. rewrite Hf. simpl pipes.
  assert (exists p, setup_pipe (pipes r) = Ok p /\ get_pipe p = Ok []) as (p & -> & Hp0) by (unfold setup_pipe, get_pipe; rewrite Hp; destruct (send_file1 (pipes r)); by eexists).
  cbn [mbind res_bind]. unfold srunner_iterate_suites. set (r0 := log (log _ _) _).
  destruct (suites_ok w strsignal behave clock Hsend Hclock (logs r0) fuel (chosen w "CK_RUN_SUITE" sname) (chosen w "CK_RUN_CASE" tcn) ss addrs (rmem r) (calls r) h [] its r0) as (r1 & Ef & Hr1).
  { split; try done; [by exists []|]. exists []. split; [by rewrite app_nil_r|constructor]. }
  all: try done.
  destruct (for_list_ok _ _ _ _ _ Hl Ef) as (l & El & _). unfold chosen in El. simpl srun. rewrite El. cbn [mbind res_bind]. destruct Hr1 as [_ Hc1 _ _ (ms & Hg & _) Hrep1 (xs & Hx & Hxs)]. unfold srunner_run_end.
  destruct (pipe_reset _ _ Hg) as (p1 & _ & Et & _). simpl pipes. rewrite Et. cbn [mbind res_bind]. eexists _, xs. split; [done|]. split; [by destruct Hrep1|]. split; [done|]. split; [|done].
  simpl. rewrite Hx. unfold r0. simpl. by rewrite <- !app_assoc.
Qed.

(** *** An example

    One suite with a setup and five tests: one passes, one fails, one is killed as it
    should be, one hangs, one exits early. *)
Module Demo.
Definition behave (h : list (Z * Z)) (f i : Z) : Body :=
  match f with
  | 1 => mk_Body [Mark "a.c" 5] Returns
  | 2 => mk_Body [Start "a.c" 10; Mark "a.c" 12] Returns
  | 3 => mk_Body [Start "a.c" 20] (Asserts "a.c" 23 "x == 1")
  | 4 => mk_Body [Start "a.c" 30] (Signalled 11)
  | 5 => mk_Body [Start "a.c" 40] Hangs
  | 6 => mk_Body [Start "a.c" 50] (Exits 3)
  | _ => mk_Body [] Returns
  end.

Definition clock (h : list (Z * Z)) : Z * Z := (0, 1000 * Z.of_nat (List.length h)).
Definition strsignal (s : Z) : string := "signal".
Definition world : World := world_of ∅ ∅.

Definition tests : list TF :=
  [mk_TF 2 0 2 "ok" 0 0; mk_TF 3 0 1 "bad" 0 0; mk_TF 4 0 1 "segv" 11 0; mk_TF 5 0 1 "slow" 0 0; mk_TF 6 0 1 "early" 0 0].
Definition case1 : Case := mk_Case "core" tests [mk_Fixture 0 1] [] [mk_Fixture 1 1] [].

Definition list_of {A} (l : list A) : List A := mk_List (Z.of_nat (List.length l)) (Z.max 1 (Z.of_nat (List.length l))) (Z.of_nat (List.length l) - 1) (Z.of_nat (List.length l) - 1) (match l with [] => [None] | _ => Some <$> l end).

Definition mem : Mem :=
  mk_Mem {[ 1 := mk_Suite "all" (list_of [2]) ]}
    {[ 2 := mk_TCase "core" (4, 0) (list_of tests) (list_of [mk_Fixture 0 1]) check_list_create (list_of [mk_Fixture 1 1]) check_list_create ]} 3.

Definition run : Run := mk_Run (mk_SRunner (list_of [1]) (mk_TestStats 0 0 0) check_list_create None None None CK_FORK_GETENV) mem (mk_Pipes None None) CK_FORK [] [].

Definition results : list Outcome :=
  [mk_Outcome "core" "ok" 0 CK_PASS "Passed" None; mk_Outcome "core" "ok" 1 CK_PASS "Passed" None;
   mk_Outcome "core" "bad" 0 CK_FAILURE "x == 1" (Some ("a.c", 23)); mk_Outcome "core" "segv" 0 CK_PASS "Passed" None;
   mk_Outcome "core" "slow" 0 CK_ERROR "Test timeout expired" None; mk_Outcome "core" "early" 0 CK_ERROR "Early exit with return value 3" None].

Definition items : list item := ([ISuite "all"] ++ ((fun o => ITest ("core:" ++ o_test o) o) <$> results) ++ [ISuiteEnd])%list.

Lemma list_of_ok {A} (l : list A) : l <> [] -> Z.of_nat (List.length l) < 2 ^ 30 -> list_ok (list_of l) l.
Proof.
  intros Hl Hb. assert (0 < List.length l)%nat by (destruct l; [done|simpl; lia]). split; unfold list_of; simpl; try lia.
  - rewrite decide_False by done. lia.
  - rewrite (Z.max_r 1), Nat2Z.id, Nat.sub_diag by lia. destruct l; [done|]. by rewrite app_nil_r.
Qed.

Lemma sends h f i : forallb sendable (body_msgs (behave h f i)) = true.
Proof. unfold behave. repeat case_match; done. Qed.

Lemma sample_ends h f i : plain_end (ends (behave h f i)).
Proof. unfold behave. repeat case_match; done. Qed.

Lemma short h c : natural (DIFF_IN_USEC (clock h) (clock (h ++ [c]))) = true.
Proof.
  unfold DIFF_IN_USEC, clock. cbn [fst snd]. rewrite length_app, !(Z.mul_comm 1000), !Z.quot_mul by done.
  apply andb_true_iff. unfold int_max. split; apply Z.leb_le; simpl; lia.
Qed.

Lemma loaded : Forall2 (has_cases mem) [1] [("all", [case1])].
Proof.
  repeat constructor; [done|]. exists [2]. split.
  - eexists. split; [reflexivity|]. split; [done|]. by apply list_of_ok.
  - repeat constructor. eexists. split; [reflexivity|]. split; simpl; [done| | |apply create_ok| |apply create_ok]; by apply list_of_ok.
Qed.
End Demo.

Lemma check_run_reports_witness :
  exists r' xs, srunner_run Demo.world Demo.strsignal Demo.behave Demo.clock 0 Demo.run None None 2 = Ok r' /\ reported (srun r') Demo.results /\
    calls r' = [(1, 0); (1, 0); (2, 0); (1, 0); (2, 1); (1, 0); (3, 0); (1, 0); (4, 0); (1, 0); (5, 0); (1, 0); (6, 0)] /\
    logs r' = ([InitLogging 2; SRunnerStart] ++ xs ++ [SRunnerEnd (srun r'); EndLogging])%list /\ Forall2 logged xs (log_items Demo.items).
Proof.
  apply (check_run_reports Demo.world Demo.strsignal Demo.behave Demo.clock 0 Demo.run [1] [("all", [Demo.case1])] None None 2 _ Demo.items);
    [exact Demo.sends|exact Demo.sample_ends|exact Demo.short|reflexivity|reflexivity|reflexivity|by apply Demo.list_of_ok|exact Demo.loaded|by repeat constructor| |vm_compute; reflexivity|reflexivity].
  split; [exists []; split; [apply create_ok|constructor]|reflexivity..].
Defined.
End CheckRunFacts.
