(* ===== verification/CheckLog.v ===== *)
(** * The reports of the Check library (src/libcheck/src/check_str.c, check_print.c, check_log.c)

    A run writes up to four reports: to the terminal, to a log, as XML and in the TAP
    format.  Each is a function that is called for every event of the run with a stream.

    A stream is the text that was written to it, under the number of its [FILE].  The
    times that the XML report reads and the date in it are parameters, and so is whether
    a file can be opened.  [fflush] and [fclose] are taken to succeed.  To print a string
    that is [NULL] is undefined.  Texts that are composed in memory are taken to be
    shorter than [INT_MAX] bytes, for which [ck_strdup_printf] gives the whole text. *)

From Stdlib Require Import Ascii String.
From S2P Require Import Prelude Double CString System Check CheckMsg CheckRun.
Import Check CheckMsg CheckRun.

Module CheckLog.

Definition CK_SILENT : Z := 0.
Definition CK_MINIMAL : Z := 1.
Definition CK_NORMAL : Z := 2.
Definition CK_VERBOSE : Z := 3.
Definition CK_ENV : Z := 4.

Definition newline : string := String nl "".

(** [%s] *)
Definition str (s : option string) : res string := match s with Some s => Ok s | None => Undef end.

(** [%d] of a number that may not be set *)
Definition num (z : option Z) : res string := match z with Some z => Ok (print_int z) | None => Undef end.

(** [%06d] *)
Fixpoint zeros (n : nat) : string := match n with O => "" | S n => String "0" (zeros n) end.
Definition pad6 (z : Z) : string := (zeros (6 - String.length (print_int z)) ++ print_int z)%string.

(** ** Texts (check_str.c) *)

Definition tr_type_str (tr : TestResult) : option string :=
  match ctx tr with
  | CK_CTX_TEST =>
      match rtype tr with
      | CK_PASS => Some "P"
      | CK_FAILURE => Some "F"
      | CK_ERROR => Some "E"
      | CK_TEST_RESULT_INVALID => None
      end
  | _ => Some "S"
  end.

Definition exact_msg (tr : TestResult) : string := if bool_decide (rtype tr = CK_ERROR) then "(after this point) " else "".

Definition tr_str (tr : TestResult) : res string :=
  f ← str (file tr); ty ← str (tr_type_str tr); tc ← str (tcname tr); tn ← str (tname tr); i ← num (iter tr); m ← str (msg tr);
  Ok (f ++ ":" ++ print_int (line tr) ++ ":" ++ ty ++ ":" ++ tc ++ ":" ++ tn ++ ":" ++ i ++ ": " ++ exact_msg tr ++ m)%string.

Definition tr_short_str (tr : TestResult) : res string :=
  f ← str (file tr); m ← str (msg tr); Ok (f ++ ":" ++ print_int (line tr) ++ ": " ++ exact_msg tr ++ m)%string.

(** [vsnprintf] of a text: its length and what fits into [size] bytes with the zero byte. *)
Definition vsnprintf (size : Z) (text : string) : Z * string :=
  let n := Z.of_nat (String.length text) in
  (if n <=? int_max then n else -1, String.substring 0 (Z.to_nat (size - 1)) text).

Fixpoint strdup_loop (fuel : nat) (size : Z) (text : string) : res string :=
  let '(n, p) := vsnprintf size text in
  if (-1 <? n) && (n <? wrap_int size) then Ok p
  else match fuel with O => OutOfFuel | S fuel => strdup_loop fuel (if -1 <? n then n + 1 else size * 2) text end.
Definition ck_strdup_printf (fuel : nat) (text : string) : res string := strdup_loop fuel 100 text.

(** The quotient is a [float]. *)
Definition percent_passed (t : TestStats) : res Z :=
  if (n_failed t =? 0) && (n_errors t =? 0) then Ok 100
  else if n_checked t =? 0 then Ok 0
  else
    bad ← chk (n_failed t + n_errors t);
    good ← chk (n_checked t - bad);
    double_to_int (fmul (fdiv (float_of_Z good) (float_of_Z (n_checked t))) (float_of_Z 100)).

Definition sr_stat_str (sr : SRunner) : res string :=
  let ts := stats sr in
  p ← percent_passed ts;
  Ok (print_int p ++ "%: Checks: " ++ print_int (n_checked ts) ++ ", Failures: " ++ print_int (n_failed ts) ++ ", Errors: " ++ print_int (n_errors ts))%string.

(** ** Printing (check_print.c) *)

Definition get_env_printmode (w : World) : Z :=
  match getenv w "CK_VERBOSITY" with
  | None => CK_NORMAL
  | Some env =>
      if String.eqb env "silent" then CK_SILENT
      else if String.eqb env "minimal" then CK_MINIMAL
      else if String.eqb env "verbose" then CK_VERBOSE
      else CK_NORMAL
  end.

Definition printmode (w : World) (mode : Z) : Z := if mode =? CK_ENV then get_env_printmode w else mode.

Definition esc_char (c : ascii) : string :=
  if Ascii.eqb c (ascii_of_nat 34) then "&quot;"
  else if Ascii.eqb c "'" then "&apos;"
  else if Ascii.eqb c "<" then "&lt;"
  else if Ascii.eqb c ">" then "&gt;"
  else if Ascii.eqb c "&" then "&amp;"
  else String c "".

Fixpoint fprint_xml_esc (s : string) : string :=
  match s with EmptyString => "" | String c s => (esc_char c ++ fprint_xml_esc s)%string end.

Section printing.
Context (w : World).

Definition tr_fprint (tr : TestResult) (mode : Z) : res string :=
  let mode := printmode w mode in
  if ((CK_VERBOSE <=? mode) && bool_decide (rtype tr = CK_PASS)) || (bool_decide (rtype tr <> CK_PASS) && (CK_NORMAL <=? mode)) then
    s ← tr_str tr; Ok (s ++ newline)%string
  else Ok "".

Definition srunner_fprint_summary (sr : SRunner) (mode : Z) : res string :=
  if CK_MINIMAL <=? mode then s ← sr_stat_str sr; Ok (s ++ newline)%string else Ok "".

Definition srunner_fprint_results (sr : SRunner) (mode : Z) : res (SRunner * string) :=
  '(l, s) ← for_list (fun tr s => t ← tr_fprint tr mode; Ok ((s ++ t)%string, false)) (resultlst sr) "";
  Ok (with_resultlst sr l, s).

Definition srunner_fprint (sr : SRunner) (mode : Z) : res (SRunner * string) :=
  let mode := printmode w mode in
  s ← srunner_fprint_summary sr mode; '(sr, t) ← srunner_fprint_results sr mode; Ok (sr, (s ++ t)%string).

Definition srunner_print (sr : SRunner) (mode : Z) : res (SRunner * string) := srunner_fprint sr mode.
End printing.

(** The directory and the name of a file. *)
Definition split_path (f : option string) : string * string :=
  match f with
  | None => ("", "")
  | Some f =>
      match (match strrchr f "/" with Some k => Some k | None => strrchr f (ascii_of_nat 92) end) with
      | None => (".", f)
      | Some k => (String.substring 0 (Z.to_nat k) f, str_from f (k + 1))
      end
  end.

Definition xml_duration (d : Z) : string :=
  if d <? 0 then ("-1." ++ pad6 0)%string else (print_int (Z.quot d US_PER_SEC) ++ "." ++ pad6 (Z.rem d US_PER_SEC))%string.

Definition quote : string := String (ascii_of_nat 34) "".

(** [abort] *)
Definition tr_xmlprint (tr : TestResult) : res string :=
  result ← match rtype tr with CK_PASS => Ok "success" | CK_FAILURE => Ok "failure" | CK_ERROR => Ok "error" | CK_TEST_RESULT_INVALID => Exit 134 end;
  let '(path_name, file_name) := split_path (file tr) in
  id ← str (tname tr); it ← num (iter tr); tc ← str (tcname tr); m ← str (msg tr);
  Ok ("    <test result=" ++ quote ++ result ++ quote ++ ">" ++ newline ++
      "      <path>" ++ path_name ++ "</path>" ++ newline ++
      "      <fn>" ++ file_name ++ ":" ++ print_int (line tr) ++ "</fn>" ++ newline ++
      "      <id>" ++ id ++ "</id>" ++ newline ++
      "      <iteration>" ++ it ++ "</iteration>" ++ newline ++
      "      <duration>" ++ xml_duration (duration tr) ++ "</duration>" ++ newline ++
      "      <description>" ++ fprint_xml_esc tc ++ "</description>" ++ newline ++
      "      <message>" ++ fprint_xml_esc m ++ "</message>" ++ newline ++
      "    </test>" ++ newline)%string.

(** ** Logs (check_log.c) *)

Definition srunner_set_log (sr : SRunner) (fname : option string) : SRunner :=
  match log_fname sr with
  | Some _ => sr
  | None => mk_SRunner (slst sr) (stats sr) (resultlst sr) fname (xml_fname sr) (tap_fname sr) (fstat sr)
  end.
Definition srunner_set_xml (sr : SRunner) (fname : option string) : SRunner :=
  match xml_fname sr with
  | Some _ => sr
  | None => mk_SRunner (slst sr) (stats sr) (resultlst sr) (log_fname sr) fname (tap_fname sr) (fstat sr)
  end.
Definition srunner_set_tap (sr : SRunner) (fname : option string) : SRunner :=
  match tap_fname sr with
  | Some _ => sr
  | None => mk_SRunner (slst sr) (stats sr) (resultlst sr) (log_fname sr) (xml_fname sr) fname (fstat sr)
  end.

Definition srunner_log_fname (w : World) (sr : SRunner) : option string :=
  match log_fname sr with Some f => Some f | None => getenv w "CK_LOG_FILE_NAME" end.
Definition srunner_xml_fname (w : World) (sr : SRunner) : option string :=
  match xml_fname sr with Some f => Some f | None => getenv w "CK_XML_LOG_FILE_NAME" end.
Definition srunner_tap_fname (w : World) (sr : SRunner) : option string :=
  match tap_fname sr with Some f => Some f | None => getenv w "CK_TAP_LOG_FILE_NAME" end.

Definition srunner_has_log (w : World) (sr : SRunner) : bool := bool_decide (srunner_log_fname w sr <> None).
Definition srunner_has_xml (w : World) (sr : SRunner) : bool := bool_decide (srunner_xml_fname w sr <> None).
Definition srunner_has_tap (w : World) (sr : SRunner) : bool := bool_decide (srunner_tap_fname w sr <> None).

Inductive cl_event : Type :=
  | CLINITLOG_SR
  | CLENDLOG_SR
  | CLSTART_SR
  | CLSTART_S (name : string)
  | CLEND_SR
  | CLEND_S
  | CLSTART_T (name : string)
  | CLEND_T (tr : TestResult).

Inductive LFun : Type := Stdout | LFile | Xml | Tap.

(** [lfile] is the number of the stream. *)
Record Log := mk_Log { lfile : Z; lfun : LFun; close : Z; mode : Z }.

(** The list of logs, the streams, and the static variables of the XML and TAP reports. *)
Record Logging := mk_Logging { loglst : List Log; files : gmap Z string; num_tests_run : Z; xml_t : string; xml_start : Z * Z }.

Definition fputs (lg : Logging) (h : Z) (s : string) : Logging :=
  mk_Logging (loglst lg) (<[h := (default "" (files lg !! h) ++ s)%string]> (files lg)) (num_tests_run lg) (xml_t lg) (xml_start lg).

Section logging.
Context (w : World) (can_write : string -> bool) (date : string) (ts_first ts_last : Z * Z).

Definition stdout_lfun (sr : SRunner) (m : Z) (evt : cl_event) : res (SRunner * string) :=
  match evt with
  | CLSTART_SR => Ok (sr, if CK_SILENT <? m then "Running suite(s):" else "")
  | CLSTART_S name => Ok (sr, if CK_SILENT <? m then (" " ++ name ++ newline)%string else "")
  | CLEND_SR => if CK_SILENT <? m then srunner_fprint w sr m else Ok (sr, "")
  | _ => Ok (sr, "")
  end.

Definition lfile_lfun (sr : SRunner) (evt : cl_event) : res (SRunner * string) :=
  match evt with
  | CLSTART_S name => Ok (sr, ("Running suite " ++ name ++ newline)%string)
  | CLEND_SR => '(sr, s) ← srunner_fprint w sr CK_MINIMAL; Ok (sr, ("Results for all suites run:" ++ newline ++ s)%string)
  | CLEND_T tr => s ← tr_fprint w tr CK_VERBOSE; Ok (sr, s)
  | _ => Ok (sr, "")
  end.

(** The time is taken at the first event. *)
Definition xml_time (lg : Logging) : Logging :=
  if String.eqb (xml_t lg) "" then mk_Logging (loglst lg) (files lg) (num_tests_run lg) date ts_first else lg.

Definition xml_header (t : string) : string :=
  ("<?xml version=" ++ quote ++ "1.0" ++ quote ++ "?>" ++ newline ++
   "<?xml-stylesheet type=" ++ quote ++ "text/xsl" ++ quote ++ " href=" ++ quote ++ "http://check.sourceforge.net/xml/check_unittest.xslt" ++ quote ++ "?>" ++ newline ++
   "<testsuites xmlns=" ++ quote ++ "http://check.sourceforge.net/ns" ++ quote ++ ">" ++ newline ++
   "  <datetime>" ++ t ++ "</datetime>" ++ newline)%string.

Definition xml_lfun (lg : Logging) (evt : cl_event) : res (Logging * string) :=
  let lg := xml_time lg in
  match evt with
  | CLINITLOG_SR => Ok (lg, xml_header (xml_t lg))
  | CLENDLOG_SR =>
      let d := wrap_u32 (DIFF_IN_USEC (xml_start lg) ts_last) in
      Ok (lg, "  <duration>" ++ print_int (d / US_PER_SEC) ++ "." ++ pad6 (d mod US_PER_SEC) ++ "</duration>" ++ newline ++ "</testsuites>" ++ newline)%string
  | CLSTART_S name => Ok (lg, "  <suite>" ++ newline ++ "    <title>" ++ fprint_xml_esc name ++ "</title>" ++ newline)%string
  | CLEND_S => Ok (lg, "  </suite>" ++ newline)%string
  | CLEND_T tr => s ← tr_xmlprint tr; Ok (lg, s)
  | _ => Ok (lg, "")
  end.

Definition set_tests_run (lg : Logging) (n : Z) : Logging := mk_Logging (loglst lg) (files lg) n (xml_t lg) (xml_start lg).

Definition tap_line (n : Z) (tr : TestResult) : res string :=
  f ← str (file tr); tc ← str (tcname tr); tn ← str (tname tr); m ← str (msg tr);
  Ok ((if bool_decide (rtype tr = CK_PASS) then "ok" else "not ok") ++ " " ++ print_int n ++ " - " ++ f ++ ":" ++ tc ++ ":" ++ tn ++ ": " ++ m ++ newline)%string.

Definition tap_lfun (lg : Logging) (evt : cl_event) : res (Logging * string) :=
  match evt with
  | CLINITLOG_SR => Ok (set_tests_run lg 0, "")
  | CLENDLOG_SR => Ok (lg, "1.." ++ print_int (num_tests_run lg) ++ newline)%string
  | CLEND_T tr => n ← chk (num_tests_run lg + 1); s ← tap_line n tr; Ok (set_tests_run lg n, s)
  | _ => Ok (lg, "")
  end.

(** One log gets one event. *)
Definition evt_step (evt : cl_event) (l : Log) (s : SRunner * Logging) : res (SRunner * Logging * bool) :=
  let '(sr, lg) := s in
  match lfun l with
  | Stdout => '(sr, t) ← stdout_lfun sr (mode l) evt; Ok (sr, fputs lg (lfile l) t, false)
  | LFile => '(sr, t) ← lfile_lfun sr evt; Ok (sr, fputs lg (lfile l) t, false)
  | Xml => '(lg, t) ← xml_lfun lg evt; Ok (sr, fputs lg (lfile l) t, false)
  | Tap => '(lg, t) ← tap_lfun lg evt; Ok (sr, fputs lg (lfile l) t, false)
  end.

Definition set_loglst (lg : Logging) (l : List Log) : Logging := mk_Logging l (files lg) (num_tests_run lg) (xml_t lg) (xml_start lg).

Definition srunner_send_evt (sr : SRunner) (lg : Logging) (evt : cl_event) : res (SRunner * Logging) :=
  '(l, (sr, lg)) ← for_list (evt_step evt) (loglst lg) (sr, lg); Ok (sr, set_loglst lg l).

Definition srunner_register_lfun (lg : Logging) (h close_ : Z) (f : LFun) (m : Z) : res Logging :=
  l ← check_list_add_end (loglst lg) (mk_Log h f close_ (printmode w m)); Ok (set_loglst lg l).

(** [fopen] with [w]: an empty stream, or the end of the process. *)
Definition open_file (lg : Logging) (h : Z) (name : option string) : res (Logging * bool) :=
  match name with
  | None => Ok (lg, false)
  | Some f => if can_write f then Ok (mk_Logging (loglst lg) (<[h := ""]> (files lg)) (num_tests_run lg) (xml_t lg) (xml_start lg), true) else Exit 2
  end.
Definition srunner_open_lfile (sr : SRunner) (lg : Logging) : res (Logging * bool) := open_file lg 1 (srunner_log_fname w sr).
Definition srunner_open_xmlfile (sr : SRunner) (lg : Logging) : res (Logging * bool) := open_file lg 2 (srunner_xml_fname w sr).
Definition srunner_open_tapfile (sr : SRunner) (lg : Logging) : res (Logging * bool) := open_file lg 3 (srunner_tap_fname w sr).

Definition srunner_init_logging (sr : SRunner) (lg : Logging) (m : Z) : res (SRunner * Logging) :=
  lg ← srunner_register_lfun (set_loglst lg check_list_create) 0 0 Stdout m;
  '(lg, f) ← srunner_open_lfile sr lg;
  lg ← (if f : bool then srunner_register_lfun lg 1 1 LFile m else Ok lg);
  '(lg, f) ← srunner_open_xmlfile sr lg;
  lg ← (if f : bool then srunner_register_lfun lg 2 2 Xml m else Ok lg);
  '(lg, f) ← srunner_open_tapfile sr lg;
  lg ← (if f : bool then srunner_register_lfun lg 3 2 Tap m else Ok lg);
  srunner_send_evt sr lg CLINITLOG_SR.

(** The streams are closed and the list is freed. *)
Definition srunner_end_logging (sr : SRunner) (lg : Logging) : res (SRunner * Logging) :=
  '(sr, lg) ← srunner_send_evt sr lg CLENDLOG_SR; Ok (sr, set_loglst lg check_list_create).

Definition log_srunner_start (sr : SRunner) (lg : Logging) : res (SRunner * Logging) := srunner_send_evt sr lg CLSTART_SR.
Definition log_srunner_end (sr : SRunner) (lg : Logging) : res (SRunner * Logging) := srunner_send_evt sr lg CLEND_SR.
Definition log_suite_start (sr : SRunner) (lg : Logging) (name : string) : res (SRunner * Logging) := srunner_send_evt sr lg (CLSTART_S name).
Definition log_suite_end (sr : SRunner) (lg : Logging) : res (SRunner * Logging) := srunner_send_evt sr lg CLEND_S.
Definition log_test_start (sr : SRunner) (lg : Logging) (title : string) : res (SRunner * Logging) := srunner_send_evt sr lg (CLSTART_T title).
Definition log_test_end (sr : SRunner) (lg : Logging) (tr : TestResult) : res (SRunner * Logging) := srunner_send_evt sr lg (CLEND_T tr).

(** The calls that a run makes.  Only the end of a run reads the results of the runner,
    and printing them moves only their cursor. *)
Definition log_one (sr : SRunner) (lg : Logging) (c : log_call) : res Logging :=
  '(_, lg) ←
    match c with
    | InitLogging m => srunner_init_logging sr lg m
    | SRunnerStart => log_srunner_start sr lg
    | SRunnerEnd sr => log_srunner_end sr lg
    | SuiteStart n => log_suite_start sr lg n
    | SuiteEnd => log_suite_end sr lg
    | TestStart t => log_test_start sr lg t
    | TestEnd tr => log_test_end sr lg tr
    | EndLogging => srunner_end_logging sr lg
    end;
  Ok lg.

Fixpoint log_all (sr : SRunner) (lg : Logging) (cs : list log_call) : res Logging :=
  match cs with [] => Ok lg | c :: cs => lg ← log_one sr lg c; log_all sr lg cs end.
End logging.
End CheckLog.
