(* ===== verification/CheckLogFacts.v ===== *)
(** * What the reports of the Check library say

    The percentage lies between 0 and 100 ([percent_passed_bounds]), texts composed in
    memory are whole ([ck_strdup_printf_whole]), escaped text is read back
    ([xml_esc_roundtrip]), and the TAP report of a run has a line for each test in order
    and the plan at the end ([check_tap_report]); a setup that fails is missing in it
    ([check_tap_misses_setup]). *)

From Stdlib Require Import Ascii String.
From S2P Require Import Prelude Double CString System Check CheckMsg CheckRun CheckRunFacts CheckLog.
Import Check CheckMsg CheckRun CheckRunFacts CheckLog.

Module CheckLogFacts.

(** ** The percentage *)

(** With counters that a [float] can hold, the percentage is a number from 0 to 100. *)
Theorem percent_passed_bounds (t : TestStats) :
  0 <= n_failed t -> 0 <= n_errors t -> n_failed t + n_errors t <= n_checked t < 2 ^ 24 ->
  exists z, percent_passed t = Ok z /\ 0 <= z <= 100.
Proof.
  intros Hf He Hc. unfold percent_passed. destruct (Z.eqb_spec (n_failed t) 0) as [H1|H1], (Z.eqb_spec (n_errors t) 0) as [H2|H2]; simpl; [exists 100; split; [done|lia]|..].
  all: destruct (Z.eqb_spec (n_checked t) 0) as [H0|H0]; [lia|]; rewrite !chk_ok by (unfold in_int, int_min, int_max; lia); cbn [mbind res_bind].
  all: rewrite chk_ok by (unfold in_int, int_min, int_max; lia); cbn [mbind res_bind]; apply percentage; lia.
Qed.

Lemma percent_passed_bounds_witness : exists z, percent_passed (mk_TestStats 6 1 2) = Ok z /\ 0 <= z <= 100.
Proof. apply (percent_passed_bounds (mk_TestStats 6 1 2)); simpl; lia. Defined.

(** ** Texts in memory *)

Lemma substring_all n s : (String.length s <= n)%nat -> String.substring 0 n s = s.
Proof. revert n. induction s as [|c s IH]; intros [|n] H; simpl in *; try done; [lia|]. by rewrite IH by lia. Qed.

(** A text shorter than [INT_MAX] is printed in at most two rounds, whole. *)
Theorem ck_strdup_printf_whole text fuel :
  Z.of_nat (String.length text) < int_max -> ck_strdup_printf (S fuel) text = Ok text.
Proof.
  intros H. unfold ck_strdup_printf. set (n := Z.of_nat (String.length text)) in *. cbn [strdup_loop]. unfold vsnprintf. fold n. change (wrap_int 100) with 100.
  rewrite (proj2 (Z.leb_le n int_max)), (proj2 (Z.ltb_lt (-1) n)) by lia. cbn [andb]. destruct (Z.ltb_spec n 100) as [Hs|Hs].
  - rewrite substring_all by lia. done.
  - assert (wrap_int (n + 1) = n + 1) as Hw by (apply wrap_int_id; unfold in_int, int_min, int_max in *; lia).
    destruct fuel; cbn [strdup_loop]; unfold vsnprintf; fold n; rewrite Hw, (proj2 (Z.leb_le n int_max)), (proj2 (Z.ltb_lt (-1) n)), (proj2 (Z.ltb_lt n (n + 1))) by lia; cbn [andb]; by rewrite substring_all by lia.
Qed.

Lemma ck_strdup_printf_whole_witness : ck_strdup_printf 1 "100%: Checks: 3, Failures: 0, Errors: 0" = Ok "100%: Checks: 3, Failures: 0, Errors: 0".
Proof. apply (ck_strdup_printf_whole _ 0). simpl. unfold int_max. lia. Defined.

(** ** Escaping *)

Fixpoint unescape (s : string) : string :=
  match s with
  | String "&" (String "q" (String "u" (String "o" (String "t" (String ";" s))))) => String (ascii_of_nat 34) (unescape s)
  | String "&" (String "a" (String "p" (String "o" (String "s" (String ";" s))))) => String "'" (unescape s)
  | String "&" (String "l" (String "t" (String ";" s))) => String "<" (unescape s)
  | String "&" (String "g" (String "t" (String ";" s))) => String ">" (unescape s)
  | String "&" (String "a" (String "m" (String "p" (String ";" s)))) => String "&" (unescape s)
  | String c s => String c (unescape s)
  | EmptyString => ""
  end.

Definition plain (c : ascii) : bool := negb (Ascii.eqb c (ascii_of_nat 34) || Ascii.eqb c "'" || Ascii.eqb c "<" || Ascii.eqb c ">").

(** Escaped text has no character that ends a text or an attribute in XML, and it is
    read back as it was. *)
Theorem xml_esc_roundtrip (s : string) :
  unescape (fprint_xml_esc s) = s /\ forallb plain (list_ascii_of_string (fprint_xml_esc s)) = true.
Proof.
  induction s as [|c s [IH1 IH2]]; [done|]. cbn [fprint_xml_esc].
  destruct c as [[] [] [] [] [] [] [] []]; simpl; rewrite IH1; done.
Qed.

(** ** The TAP report *)

(** A result that can be printed. *)
Record printable (tr : TestResult) : Prop := {
  pr_file : is_Some (file tr);
  pr_msg : is_Some (msg tr);
  pr_tcname : is_Some (tcname tr);
  pr_tname : is_Some (tname tr);
  pr_iter : is_Some (iter tr);
  pr_type : rtype tr <> CK_TEST_RESULT_INVALID }.

(** The results of a runner can be printed. *)
Definition sr_printable (sr : SRunner) : Prop :=
  (exists trs, list_ok (resultlst sr) trs /\ Forall printable trs) /\
  0 <= n_failed (stats sr) /\ 0 <= n_errors (stats sr) /\ n_failed (stats sr) + n_errors (stats sr) <= n_checked (stats sr) < 2 ^ 24.

Definition evt_printable (sr : SRunner) (evt : cl_event) : Prop :=
  match evt with CLEND_T tr => printable tr | CLEND_SR => sr_printable sr | _ => True end.

Definition txt (s : option string) : string := default "" s.

Definition tap_text (n : Z) (tr : TestResult) : string :=
  ((if bool_decide (rtype tr = CK_PASS) then "ok" else "not ok") ++ " " ++ print_int n ++ " - " ++ txt (file tr) ++ ":" ++ txt (tcname tr) ++ ":" ++ txt (tname tr) ++ ": " ++ txt (msg tr) ++ newline)%string.

Section tap.
Context (w : World) (can_write : string -> bool) (date : string) (ts_first ts_last : Z * Z).

(** Everything that is printed is there. *)
Ltac fields tr Hp := destruct tr as [ty c [f|] l [i|] d [tc|] [tn|] [mm|]], Hp as [[? ?] [? ?] [? ?] [? ?] [? ?] Hty]; try done; simpl in *.

Lemma tr_str_ok tr : printable tr -> exists s, tr_str tr = Ok s.
Proof. intros Hp. fields tr Hp. unfold tr_str. simpl. destruct c, ty; try done; by eexists. Qed.

Lemma tr_fprint_ok tr m : printable tr -> exists s, tr_fprint w tr m = Ok s.
Proof. intros Hp. unfold tr_fprint. destruct (tr_str_ok tr Hp) as [s ->]. case_match; by eexists. Qed.

Lemma tr_xmlprint_ok tr : printable tr -> exists s, tr_xmlprint tr = Ok s.
Proof. intros Hp. fields tr Hp. unfold tr_xmlprint. simpl. destruct ty; try done; simpl; case_match; by eexists. Qed.

Lemma tap_line_ok n tr : printable tr -> tap_line n tr = Ok (tap_text n tr).
Proof. intros Hp. by fields tr Hp. Qed.

Lemma results_ok trs m s : Forall printable trs -> exists s', fold_res (fun tr s => t ← tr_fprint w tr m; Ok ((s ++ t)%string, false)) trs s = Ok s'.
Proof.
  intros Hp. revert s. induction Hp as [|tr trs Htr _ IH]; intros s; cbn [fold_res]; [by eexists|].
  destruct (tr_fprint_ok tr m Htr) as [t ->]. cbn [mbind res_bind]. apply IH.
Qed.

(** Printing the results moves their cursor. *)
Lemma srunner_fprint_ok sr m : sr_printable sr -> exists sr' s, srunner_fprint w sr m = Ok (sr', s) /\ sr_printable sr'.
Proof.
  intros [(trs & Hl & Hp) (Hf & He & Hc)]. unfold srunner_fprint, srunner_fprint_summary, sr_stat_str. destruct (percent_passed_bounds (stats sr) Hf He Hc) as (z & Ez & _). set (md := printmode w m).
  assert (exists s, (if CK_MINIMAL <=? md then s ← (p ← percent_passed (stats sr); Ok (print_int p ++ "%: Checks: " ++ print_int (n_checked (stats sr)) ++ ", Failures: " ++ print_int (n_failed (stats sr)) ++ ", Errors: " ++ print_int (n_errors (stats sr)))%string); Ok (s ++ newline)%string else Ok "") = Ok s) as [s0 E0].
  { rewrite Ez. case_match; by eexists. }
  cbv zeta. rewrite E0. cbn [mbind res_bind]. unfold srunner_fprint_results. destruct (results_ok trs md "" Hp) as [s1 E1]. destruct (for_list_ok _ _ _ _ _ Hl E1) as (l & -> & Hl'). cbn [mbind res_bind].
  eexists _, _. split; [done|]. split; [|done]. by exists trs.
Qed.

(** A log that is not the TAP report. *)
Definition other (l : Log) : Prop := lfun l <> Tap /\ lfile l <> 3.

Lemma other_step evt l sr lg :
  other l -> evt_printable sr evt -> exists sr' lg', evt_step w date ts_first ts_last evt l (sr, lg) = Ok (sr', lg', false) /\
    evt_printable sr' evt /\ num_tests_run lg' = num_tests_run lg /\ files lg' !! 3 = files lg !! 3 /\ loglst lg' = loglst lg.
Proof.
  intros [Hf Hh] He. assert (forall lg0 t, files (fputs lg0 (lfile l) t) !! 3 = files lg0 !! 3) as Hput by (intros; simpl; by rewrite lookup_insert_ne by done).
  unfold evt_step. destruct (lfun l); [| | |done].
  - assert (exists sr' t, stdout_lfun w sr (mode l) evt = Ok (sr', t) /\ evt_printable sr' evt) as (sr' & t & -> & He').
    { destruct evt; simpl in *; try by eexists _, _. case_match; [|by eexists _, _]. destruct (srunner_fprint_ok sr (mode l) He) as (sr' & t & -> & ?). by eexists _, _. }
    cbn [mbind res_bind]. by eexists _, _.
  - assert (exists sr' t, lfile_lfun w sr evt = Ok (sr', t) /\ evt_printable sr' evt) as (sr' & t & -> & He').
    { destruct evt; simpl in *; try by eexists _, _.
      - destruct (srunner_fprint_ok sr CK_MINIMAL He) as (sr' & t & -> & ?). by eexists _, _.
      - destruct (tr_fprint_ok tr CK_VERBOSE He) as [t ->]. by eexists _, _. }
    cbn [mbind res_bind]. by eexists _, _.
  - assert (exists t, xml_lfun date ts_first ts_last lg evt = Ok (xml_time date ts_first lg, t)) as (t & ->).
    { destruct evt; simpl in *; try by eexists. destruct (tr_xmlprint_ok tr He) as [t ->]. by eexists. }
    cbn [mbind res_bind]. exists sr, (fputs (xml_time date ts_first lg) (lfile l) t). rewrite Hput. unfold xml_time. by case_match.
Qed.

Lemma others_step evt ls sr lg :
  Forall other ls -> evt_printable sr evt -> exists sr' lg', fold_res (evt_step w date ts_first ts_last evt) ls (sr, lg) = Ok (sr', lg') /\
    evt_printable sr' evt /\ num_tests_run lg' = num_tests_run lg /\ files lg' !! 3 = files lg !! 3 /\ loglst lg' = loglst lg.
Proof.
  intros Hls. revert sr lg. induction Hls as [|l ls Hl _ IH]; intros sr lg He; cbn [fold_res]; [by exists sr, lg|].
  destruct (other_step evt l sr lg Hl He) as (sr1 & lg1 & -> & He1 & Hn1 & Hf1 & Hl1). cbn [mbind res_bind].
  destruct (IH sr1 lg1 He1) as (sr2 & lg2 & -> & He2 & Hn2 & Hf2 & Hl2). exists sr2, lg2. split_and!; [done..| | |]; congruence.
Qed.

Lemma fold_res_app {A S} (body : A -> S -> res (S * bool)) xs y s s1 s2 :
  fold_res body xs s = Ok s1 -> (forall x s s' b, x ∈ xs -> body x s = Ok (s', b) -> b = false) -> body y s1 = Ok (s2, false) -> fold_res body (xs ++ [y]) s = Ok s2.
Proof.
  revert s. induction xs as [|x xs IH]; intros s Hx Hb Hy; cbn [fold_res app] in *.
  - injection Hx as ->. by rewrite Hy.
  - apply res_bind_inv in Hx as ([s0 b] & E & Hx). rewrite E. cbn [mbind res_bind]. assert (b = false) as -> by (eapply (Hb x s); [left|exact E]). apply (IH s0); [done| |done]. intros. eapply Hb; [by right|done].
Qed.

Lemma evt_never_stops evt l s s' b : evt_step w date ts_first ts_last evt l s = Ok (s', b) -> b = false.
Proof. destruct s as [sr lg]. unfold evt_step. destruct (lfun l); intros H; apply res_bind_inv in H as ([? ?] & _ & H); by injection H. Qed.

(** The TAP report with [n] tests so far and the text it has. *)
Record tapping (lg : Logging) (n : Z) (t : string) : Prop := {
  tp_logs : exists ls m, list_ok (loglst lg) (ls ++ [mk_Log 3 Tap 2 m]) /\ Forall other ls;
  tp_num : num_tests_run lg = n;
  tp_text : files lg !! 3 = Some t }.

(** What an event does to it. *)
Definition tap_evt (evt : cl_event) (n : Z) (t : string) : Z * string :=
  match evt with
  | CLINITLOG_SR => (0, t)
  | CLENDLOG_SR => (n, (t ++ "1.." ++ print_int n ++ newline)%string)
  | CLEND_T tr => (n + 1, (t ++ tap_text (n + 1) tr)%string)
  | _ => (n, t)
  end.

Lemma send_evt_ok evt sr lg n t :
  tapping lg n t -> evt_printable sr evt -> evt = CLINITLOG_SR \/ 0 <= n < 2 ^ 30 ->
  exists sr' lg', srunner_send_evt w date ts_first ts_last sr lg evt = Ok (sr', lg') /\ tapping lg' (tap_evt evt n t).1 (tap_evt evt n t).2.
Proof.
  intros [(ls & m & Hl & Hls) Hn Ht] He Hb. destruct (others_step evt ls sr lg Hls He) as (sr1 & lg1 & E1 & He1 & Hn1 & Hf1 & Hl1).
  assert (exists lg2 u, tap_lfun lg1 evt = Ok (lg2, u) /\ num_tests_run lg2 = (tap_evt evt n t).1 /\ files lg2 = files lg1 /\ loglst lg2 = loglst lg1 /\ (tap_evt evt n t).2 = (t ++ u)%string) as (lg2 & u & E2 & Hn2 & Hf2 & Hl2 & Hu).
  { destruct evt; simpl in *; try (eexists _, _; split_and!; try done; [congruence|by rewrite string_app_nil_r]).
    - eexists _, _. split_and!; try done. by rewrite string_app_nil_r.
    - eexists _, _. split_and!; try done; [congruence|]. by rewrite Hn1, Hn.
    - destruct Hb as [?|Hb]; [done|]. rewrite Hn1, Hn, chk_ok by (unfold in_int, int_min, int_max; lia). cbn [mbind res_bind]. rewrite tap_line_ok by done. by eexists _, _. }
  assert (fold_res (evt_step w date ts_first ts_last evt) (ls ++ [mk_Log 3 Tap 2 m]) (sr, lg) = Ok (sr1, fputs lg2 3 u)) as Ef.
  { eapply fold_res_app; [exact E1|intros; by eapply evt_never_stops|]. simpl. by rewrite E2. }
  unfold srunner_send_evt. destruct (for_list_ok _ _ _ _ _ Hl Ef) as (l & -> & Hl'). cbn [mbind res_bind]. eexists _, _. split; [done|]. split; simpl; [by exists ls, m|done|].
  rewrite lookup_insert_eq, Hf2, Hf1, Ht. simpl. by rewrite Hu.
Qed.

(** *** Opening the logs *)

Record opened (lg : Logging) (ls : list Log) : Prop := { op_list : list_ok (loglst lg) ls; op_others : Forall other ls; op_few : (List.length ls <= 3)%nat }.

Lemma register_ok lg ls h c f m :
  list_ok (loglst lg) ls -> (List.length ls <= 3)%nat ->
  exists lg', srunner_register_lfun w lg h c f m = Ok lg' /\ list_ok (loglst lg') (ls ++ [mk_Log h f c (printmode w m)]) /\ files lg' = files lg.
Proof.
  intros Hl Hn. unfold srunner_register_lfun. destruct (add_end_ok _ _ (mk_Log h f c (printmode w m)) Hl) as (l & -> & Hl'); [lia|]. cbn [mbind res_bind]. by eexists.
Qed.

(** A file that is not asked for is left out. *)
Lemma open_other lg ls h c f m name :
  opened lg ls -> (List.length ls <= 2)%nat -> f <> Tap -> h <> 3 -> (forall x, name = Some x -> can_write x = true) ->
  exists lg' ls', ('(lg, o) ← open_file can_write lg h name; if o : bool then srunner_register_lfun w lg h c f m else Ok lg) = Ok lg' /\
    opened lg' ls' /\ (List.length ls' <= S (List.length ls))%nat.
Proof.
  intros [Hl Ho Hn] Hn2 Hf Hh Hw. destruct name as [x|]; cbn [open_file mbind res_bind]; [|by exists lg, ls; split_and!; [|split|lia]].
  rewrite (Hw x eq_refl). cbn [mbind res_bind]. destruct (register_ok (mk_Logging (loglst lg) (<[h:=""]> (files lg)) (num_tests_run lg) (xml_t lg) (xml_start lg)) ls h c f m Hl) as (lg' & -> & Hl' & _); [lia|].
  assert (List.length (ls ++ [mk_Log h f c (printmode w m)]) = S (List.length ls)) as Hc by (rewrite length_app; simpl; lia).
  exists lg', (ls ++ [mk_Log h f c (printmode w m)])%list. split; [done|]. split; [|lia]. split; [done| |lia]. apply Forall_app. split; [done|]. by repeat constructor.
Qed.

Lemma init_ok sr lg m ft :
  srunner_tap_fname w sr = Some ft -> can_write ft = true ->
  (forall x, srunner_log_fname w sr = Some x -> can_write x = true) -> (forall x, srunner_xml_fname w sr = Some x -> can_write x = true) ->
  exists sr' lg', srunner_init_logging w can_write date ts_first ts_last sr lg m = Ok (sr', lg') /\ tapping lg' 0 "".
Proof.
  intros Ht Hwt Hwl Hwx. unfold srunner_init_logging. destruct (register_ok (set_loglst lg check_list_create) [] 0 0 Stdout m) as (lg0 & -> & Hl0 & _); [apply create_ok|simpl; lia|]. cbn [mbind res_bind].
  assert (opened lg0 ([] ++ [mk_Log 0 Stdout 0 (printmode w m)])) as H0 by (split; [done|by repeat constructor|simpl; lia]).
  unfold srunner_open_lfile, srunner_open_xmlfile, srunner_open_tapfile.
  destruct (open_other lg0 _ 1 1 LFile m (srunner_log_fname w sr) H0) as (lg1 & ls1 & E1 & H1 & Hn1); [simpl; lia|done..|]. apply res_bind_inv in E1 as ([lg1' o1] & -> & E1). cbn [mbind res_bind]. rewrite E1. cbn [mbind res_bind].
  destruct (open_other lg1 ls1 2 2 Xml m (srunner_xml_fname w sr) H1) as (lg2 & ls2 & E2 & H2 & Hn2); [simpl in *; lia|done..|]. apply res_bind_inv in E2 as ([lg2' o2] & -> & E2). cbn [mbind res_bind]. rewrite E2. cbn [mbind res_bind].
  rewrite Ht. cbn [open_file]. rewrite Hwt. cbn [mbind res_bind]. destruct H2 as [Hl2 Ho2 Hc2].
  destruct (register_ok (mk_Logging (loglst lg2) (<[3:=""]> (files lg2)) (num_tests_run lg2) (xml_t lg2) (xml_start lg2)) ls2 3 2 Tap m Hl2 Hc2) as (lg3 & -> & Hl3 & Hf3). cbn [mbind res_bind].
  destruct (send_evt_ok CLINITLOG_SR sr lg3 (num_tests_run lg3) "") as (sr4 & lg4 & E4 & H4); [|done|by left|by exists sr4, lg4].
  split; [by exists ls2, (printmode w m)|done|]. rewrite Hf3. apply lookup_insert_eq.
Qed.

(** *** The whole report *)

(** What a run tells the logs between its start and its end. *)
Definition inner (c : log_call) : Prop :=
  match c with SuiteStart _ | SuiteEnd | TestStart _ => True | TestEnd tr => printable tr | _ => False end.

(** The results that a run tells the logs, in order. *)
Definition told (cs : list log_call) : list TestResult := c ← cs; match c with TestEnd tr => [tr] | _ => [] end.

Fixpoint tap_lines (n : Z) (trs : list TestResult) : string :=
  match trs with [] => "" | tr :: trs => (tap_text (n + 1) tr ++ tap_lines (n + 1) trs)%string end.

Lemma log_one_ok sr lg c sr' lg' :
  match c with
  | InitLogging m => srunner_init_logging w can_write date ts_first ts_last sr lg m
  | SRunnerStart => log_srunner_start w date ts_first ts_last sr lg
  | SRunnerEnd sr => log_srunner_end w date ts_first ts_last sr lg
  | SuiteStart n => log_suite_start w date ts_first ts_last sr lg n
  | SuiteEnd => log_suite_end w date ts_first ts_last sr lg
  | TestStart t => log_test_start w date ts_first ts_last sr lg t
  | TestEnd tr => log_test_end w date ts_first ts_last sr lg tr
  | EndLogging => srunner_end_logging w date ts_first ts_last sr lg
  end = Ok (sr', lg') -> log_one w can_write date ts_first ts_last sr lg c = Ok lg'.
Proof. unfold log_one. by intros ->. Qed.

(** One call, with the event it sends. *)
Ltac tell evt c := let lg' := fresh "lg" in
  match goal with Ht : tapping ?lg ?n ?t |- exists _, log_one _ _ _ _ _ ?sr _ _ = _ /\ _ => destruct (send_evt_ok evt sr lg n t) as (? & lg' & E & ?); [done..|by right|]; exists lg'; rewrite (log_one_ok _ _ c _ _ E); simpl end.

Lemma inner_step sr lg n t c : tapping lg n t -> inner c -> 0 <= n < 2 ^ 30 ->
  exists lg', log_one w can_write date ts_first ts_last sr lg c = Ok lg' /\ tapping lg' (n + Z.of_nat (List.length (told [c]))) (t ++ tap_lines n (told [c])).
Proof.
  intros Ht Hc Hn. destruct c as [| | |nm| |tt|tr|]; try done.
  - tell (CLSTART_S nm) (SuiteStart nm). by rewrite Z.add_0_r, string_app_nil_r.
  - tell CLEND_S SuiteEnd. by rewrite Z.add_0_r, string_app_nil_r.
  - tell (CLSTART_T tt) (TestStart tt). by rewrite Z.add_0_r, string_app_nil_r.
  - tell (CLEND_T tr) (TestEnd tr). by rewrite string_app_nil_r.
Qed.

Lemma tap_lines_app n xs ys : tap_lines n (xs ++ ys) = (tap_lines n xs ++ tap_lines (n + Z.of_nat (List.length xs)) ys)%string.
Proof.
  revert n. induction xs as [|x xs IH]; intros n; cbn [tap_lines app]; [by rewrite Z.add_0_r|].
  rewrite IH, string_app_assoc. do 3 f_equal. simpl List.length. lia.
Qed.

Lemma log_all_app sr lg cs ds : log_all w can_write date ts_first ts_last sr lg (cs ++ ds) =
  (lg ← log_all w can_write date ts_first ts_last sr lg cs; log_all w can_write date ts_first ts_last sr lg ds).
Proof. revert lg. induction cs as [|c cs IH]; intros lg; cbn [log_all app]; [done|]. destruct (log_one _ _ _ _ _ _ _ _); [|done..]. apply IH. Qed.

Lemma inner_all sr lg n t cs : tapping lg n t -> Forall inner cs -> 0 <= n -> n + Z.of_nat (List.length (told cs)) < 2 ^ 30 ->
  exists lg', log_all w can_write date ts_first ts_last sr lg cs = Ok lg' /\ tapping lg' (n + Z.of_nat (List.length (told cs))) (t ++ tap_lines n (told cs)).
Proof.
  intros Ht Hcs. revert lg n t Ht. induction Hcs as [|c cs Hc _ IH]; intros lg n t Ht Hn Hb; cbn [log_all].
  - exists lg. simpl. by rewrite Z.add_0_r, string_app_nil_r.
  - assert (told (c :: cs) = told [c] ++ told cs)%list as Et by (unfold told; rewrite <- bind_app; done). rewrite Et, length_app, Nat2Z.inj_add, tap_lines_app in *.
    destruct (inner_step sr lg n t c Ht Hc) as (lg1 & -> & H1); [lia|]. cbn [mbind res_bind]. rewrite <- string_app_assoc, Z.add_assoc. apply IH; [done|lia..].
Qed.
End tap.

(** C28: The TAP report of a run, if it is asked for and the files can be written, has one line
    for every test that ended, in order and numbered from 1, which says [ok] exactly if
    the test passed, and at its end the plan with their number. *)
Theorem check_tap_report (w : World) (can_write : string -> bool) date ts_first ts_last sr sr' lg m ft xs :
  srunner_tap_fname w sr = Some ft -> can_write ft = true ->
  (forall x, srunner_log_fname w sr = Some x -> can_write x = true) -> (forall x, srunner_xml_fname w sr = Some x -> can_write x = true) ->
  Forall inner xs -> sr_printable sr' -> Z.of_nat (List.length (told xs)) < 2 ^ 30 ->
  exists lg', log_all w can_write date ts_first ts_last sr lg ([InitLogging m; SRunnerStart] ++ xs ++ [SRunnerEnd sr'; EndLogging]) = Ok lg' /\
    files lg' !! 3 = Some (tap_lines 0 (told xs) ++ "1.." ++ print_int (Z.of_nat (List.length (told xs))) ++ newline)%string.
Proof.
  intros Ht Hwt Hwl Hwx Hx Hsr Hb. cbn [log_all app].
  destruct (init_ok w can_write date ts_first ts_last sr lg m ft Ht Hwt Hwl Hwx) as (sr1 & lg1 & E1 & H1). rewrite (log_one_ok w can_write date ts_first ts_last sr lg (InitLogging m) _ _ E1). cbn [mbind res_bind].
  destruct (send_evt_ok w date ts_first ts_last CLSTART_SR sr lg1 0 "") as (sr2 & lg2 & E2 & H2); [done..|right; lia|]. rewrite (log_one_ok w can_write date ts_first ts_last sr _ SRunnerStart _ _ E2). cbn [mbind res_bind]. simpl in H2.
  rewrite log_all_app. destruct (inner_all w can_write date ts_first ts_last sr lg2 0 "" xs H2 Hx) as (lg3 & -> & H3); [lia..|]. cbn [mbind res_bind log_all]. rewrite Z.add_0_l in H3.
  destruct (send_evt_ok w date ts_first ts_last CLEND_SR sr' lg3 _ _ H3) as (sr4 & lg4 & E4 & H4); [done|right; lia|]. rewrite (log_one_ok w can_write date ts_first ts_last sr _ (SRunnerEnd sr') _ _ E4). cbn [mbind res_bind].
  destruct (send_evt_ok w date ts_first ts_last CLENDLOG_SR sr lg4 _ _ H4) as (sr5 & lg5 & E5 & H5); [done|right; simpl; lia|]. unfold log_one, srunner_end_logging. rewrite E5. cbn [mbind res_bind].
  eexists. split; [done|]. by destruct H5.
Qed.

(** A passing and a failing test, with all four reports. *)
Module Sample.
Definition good : TestResult := mk_TestResult CK_PASS CK_CTX_TEST (Some "a.c") 12 (Some 0) 5 (Some "core") (Some "ok") (Some "Passed").
Definition bad : TestResult := mk_TestResult CK_FAILURE CK_CTX_TEST (Some "a.c") 23 (Some 0) 5 (Some "core") (Some "bad") (Some "x == 1").
Definition runner (l : List TestResult) (t : TestStats) : SRunner := mk_SRunner check_list_create t l (Some "l") (Some "x") (Some "t") CK_FORK.
Definition before : SRunner := runner check_list_create (mk_TestStats 0 0 0).
Definition after : SRunner := runner (Demo.list_of [good; bad]) (mk_TestStats 2 1 0).
Definition logging : Logging := mk_Logging check_list_create ∅ 7 "" (0, 0).
Definition told_calls : list log_call := [SuiteStart "all"; TestStart "core:ok"; TestEnd good; TestStart "core:bad"; TestEnd bad; SuiteEnd].

Lemma good_printable : printable good.
Proof. by split; try eexists. Qed.

Lemma bad_printable : printable bad.
Proof. by split; try eexists. Qed.

Lemma after_printable : sr_printable after.
Proof.
  split; [|simpl; lia]. exists [good; bad]. split; [by apply Demo.list_of_ok|]. exact (Forall_cons_2 _ _ _ good_printable (Forall_cons_2 _ _ _ bad_printable (Forall_nil_2 _))).
Qed.

Lemma told_inner : Forall inner told_calls.
Proof. apply Forall_forall. unfold told_calls. intros c Hc. repeat (apply elem_of_cons in Hc as [->|Hc]; [first [done|exact good_printable|exact bad_printable]|]); by apply not_elem_of_nil in Hc. Qed.
End Sample.

Lemma check_tap_report_witness :
  exists lg', log_all Demo.world (fun _ => true) "2026-01-01 00:00:00" (0, 0) (0, 1000) Sample.before Sample.logging
    ([InitLogging CK_NORMAL; SRunnerStart] ++ Sample.told_calls ++ [SRunnerEnd Sample.after; EndLogging]) = Ok lg' /\
    files lg' !! 3 = Some ("ok 1 - a.c:core:ok: Passed" ++ newline ++ "not ok 2 - a.c:core:bad: x == 1" ++ newline ++ "1..2" ++ newline)%string.
Proof.
  apply (check_tap_report Demo.world (fun _ => true) "2026-01-01 00:00:00" (0, 0) (0, 1000) Sample.before Sample.after Sample.logging CK_NORMAL "t" Sample.told_calls);
    [reflexivity|reflexivity|reflexivity|reflexivity| |exact Sample.after_printable|reflexivity].
  exact Sample.told_inner.
Defined.

(** A test case whose setup fails is reported by the runner as a failure; no log is told,
    so the TAP report has no line for it, and a plan for no test at all. *)
Theorem check_tap_misses_setup :
  let run := mk_Run (mk_SRunner (Demo.list_of [1]) (mk_TestStats 0 0 0) check_list_create None None (Some "t") CK_FORK)
    (mk_Mem {[ 1 := mk_Suite "all" (Demo.list_of [2]) ]}
      {[ 2 := mk_TCase "core" (4, 0) (Demo.list_of Demo.tests) (Demo.list_of [mk_Fixture 0 3]) check_list_create check_list_create check_list_create ]} 3)
    (mk_Pipes None None) CK_FORK [] [] in
  exists r, srunner_run Demo.world Demo.strsignal Demo.behave Demo.clock 0 run None None CK_NORMAL = Ok r /\
    srunner_ntests_failed (srun r) = Ok 1 /\
    exists lg, log_all Demo.world (fun _ => true) "now" (0, 0) (0, 1000) (srun run) Sample.logging (logs r) = Ok lg /\ files lg !! 3 = Some ("1..0" ++ newline)%string.
Proof.
  intros run. destruct (srunner_run Demo.world Demo.strsignal Demo.behave Demo.clock 0 run None None CK_NORMAL) as [r| | |] eqn:E; [|by vm_compute in E..].
  exists r. split; [done|]. vm_compute in E. injection E as <-. split; [done|]. eexists. split; [vm_compute; reflexivity|vm_compute; reflexivity].
Qed.
End CheckLogFacts.
