(* ===== verification/Snprintf.v ===== *)
(** * The replacement for snprintf (src/libcheck/lib/snprintf.c)

    libcheck brings its own [vsnprintf] for platforms without one.  It is modelled for the
    types of config.h: [long double], [localeconv] and [ptrdiff_t] are not available
    there, so that [LDOUBLE] is [double], the separator of digits is a comma, the decimal
    point is a dot, and all wide integers have 64 bits.

    The functions for single conversions do not look at the buffer: [fmtstr], [fmtint] and
    [fmtflt] give the characters that [OUTCHAR] is called with, in their order.  The main
    loop passes them on one by one, and is written for any receiver of characters.  An
    argument of a type that the format does not ask for is undefined. *)

From Stdlib Require Import Ascii String SpecFloat.
From S2P Require Import Prelude Double CString.

Module Snprintf.

Abbreviation chars := (list ascii).

(** ** Flags *)

Definition PRINT_F_MINUS : Z := 1.
Definition PRINT_F_PLUS : Z := 2.
Definition PRINT_F_SPACE : Z := 4.
Definition PRINT_F_NUM : Z := 8.
Definition PRINT_F_ZERO : Z := 16.
Definition PRINT_F_QUOTE : Z := 32.
Definition PRINT_F_UP : Z := 64.
Definition PRINT_F_UNSIGNED : Z := 128.
Definition PRINT_F_TYPE_G : Z := 256.
Definition PRINT_F_TYPE_E : Z := 512.

Definition has (flags f : Z) : bool := negb (Z.land flags f =? 0).

Definition UINTMAX_MAX : Z := 2 ^ 64 - 1.
Definition wrap_i64 (z : Z) : Z := (z + 2 ^ 63) mod 2 ^ 64 - 2 ^ 63.
Definition MAX_CONVERT_LENGTH : Z := 43.

(** ** Numbers *)

Definition digit (caps : bool) (d : Z) : ascii :=
  if d <? 10 then digit_char d else ascii_of_nat (Z.to_nat (d - 10 + (if caps then 65 else 97))).

(** The digits in reverse order; [n] places are left. *)
Fixpoint convert_loop (n : nat) (value base : Z) (caps : bool) : chars :=
  match n with
  | O => []
  | S n => digit caps (value mod base) :: (if value / base =? 0 then [] else convert_loop n (value / base) base caps)
  end.
Definition convert (value size base : Z) (caps : bool) : chars := convert_loop (Z.to_nat size) value base caps.

Definition printsep : chars := [","%char].
Definition getnumsep (digits : Z) : Z := Z.quot (digits - (if Z.rem digits 3 =? 0 then 1 else 0)) 3.

(** Digits from the highest to the lowest, and after each but the last the separator
    where a multiple of three follows. *)
Fixpoint group (separators : bool) (l : chars) : chars :=
  match l with
  | [] => []
  | c :: l =>
      let pos := Z.of_nat (List.length l) in
      c :: (if separators && (0 <? pos) && (Z.rem pos 3 =? 0) then printsep else []) ++ group separators l
  end.

Definition spaces (n : Z) : chars := replicate (Z.to_nat n) " "%char.
Definition zeros (n : Z) : chars := replicate (Z.to_nat n) "0"%char.
Definition put_sign (sign : option ascii) : chars := match sign with Some c => [c] | None => [] end.
Definition width_of {A} (x : option A) (n : Z) : Z := match x with Some _ => n | None => 0 end.

(** ** Strings *)

Fixpoint strln_loop (noprecision : bool) (precision strln : Z) (value : chars) : res Z :=
  match value with
  | [] => Ok strln
  | _ :: value =>
      if noprecision || (strln <? precision) then n ← chk (strln + 1); strln_loop noprecision precision n value
      else Ok strln
  end.

Fixpoint value_loop (noprecision : bool) (precision : Z) (value : chars) : chars :=
  match value with
  | [] => []
  | c :: value => if noprecision || (0 <? precision) then c :: value_loop noprecision (precision - 1) value else []
  end.

Definition fmtstr (value : option chars) (width precision flags : Z) : res chars :=
  let noprecision := precision =? -1 in
  let value := default (list_ascii_of_string "(null)") value in
  strln ← strln_loop noprecision precision 0 value;
  padlen ← chk (width - strln);
  let padlen := if padlen <? 0 then 0 else padlen in
  let padlen := if has flags PRINT_F_MINUS then - padlen else padlen in
  Ok (spaces padlen ++ value_loop noprecision precision value ++ spaces (- padlen))%list.

(** ** Integers *)

Definition fmtint (value base width precision flags : Z) : res chars :=
  let noprecision := precision =? -1 in
  '(uvalue, sign) ←
    (if has flags PRINT_F_UNSIGNED then Ok (wrap_size value, None)
     else
       uvalue ← (if 0 <=? value then Ok value else if value =? - 2 ^ 63 then Undef else Ok (- value));
       Ok (uvalue, if value <? 0 then Some "-"%char
                   else if has flags PRINT_F_PLUS then Some "+"%char
                   else if has flags PRINT_F_SPACE then Some " "%char else None));
  let iconvert := convert uvalue MAX_CONVERT_LENGTH base (has flags PRINT_F_UP) in
  let pos := Z.of_nat (List.length iconvert) in
  let alternative := has flags PRINT_F_NUM && negb (uvalue =? 0) in
  let precision := if alternative && (base =? 8) && (precision <=? pos) then pos + 1 else precision in
  let hexprefix := if alternative && (base =? 16) then Some (if has flags PRINT_F_UP then "X"%char else "x"%char) else None in
  let separators := if has flags PRINT_F_QUOTE then getnumsep pos else 0 in
  zpadlen ← chk (precision - pos);
  zpadlen ← chk (zpadlen - separators);
  spadlen ← chk (width - separators);
  spadlen ← chk (spadlen - (if pos <=? precision then precision else pos));
  spadlen ← chk (spadlen - width_of sign 1);
  spadlen ← chk (spadlen - width_of hexprefix 2);
  let zpadlen := if zpadlen <? 0 then 0 else zpadlen in
  let spadlen := if spadlen <? 0 then 0 else spadlen in
  '(spadlen, zpadlen) ←
    (if has flags PRINT_F_MINUS then Ok (- spadlen, zpadlen)
     else if has flags PRINT_F_ZERO && noprecision then z ← chk (zpadlen + spadlen); Ok (0, z)
     else Ok (spadlen, zpadlen));
  Ok (spaces spadlen ++ put_sign sign ++ match hexprefix with Some c => ["0"%char; c] | None => [] end ++
      zeros zpadlen ++ group (0 <? separators) (rev iconvert) ++ spaces (- spadlen))%list.

(** ** Floating-point numbers *)

Definition d10 : double := double_of_Z 10.
Definition dhalf : double := ddiv d1 (double_of_Z 2).
Definition ISNAN (x : double) : bool := negb (deq x x).
Definition ISINF (x : double) : bool := negb (deq x d0) && deq (dadd x x) x.

(** The conversion to an unsigned integer is undefined for other values. *)
Definition to_uintmax (x : double) : res Z :=
  match dtrunc x with Some z => if decide (0 <= z <= UINTMAX_MAX) then Ok z else Undef | None => Undef end.

Definition cast (value : double) : res Z :=
  if dle (double_of_Z UINTMAX_MAX) value then Ok UINTMAX_MAX
  else
    result ← to_uintmax value;
    Ok (if dle (double_of_Z result) value then result else wrap_size (result - 1)).

Definition myround (value : double) : res Z :=
  intpart ← cast value;
  Ok (if dlt (dsub value (double_of_Z intpart)) dhalf then intpart else wrap_size (intpart + 1)).

Fixpoint times (n : nat) (f : double -> double) (x : double) : double :=
  match n with O => x | S n => times n f (f x) end.
Definition mypow10 (exponent : Z) : double :=
  if 0 <? exponent then times (Z.to_nat exponent) (fun x => dmul x d10) d1
  else times (Z.to_nat (- exponent)) (fun x => ddiv x d10) d1.

(** At most 99 steps are made. *)
Fixpoint small_loop (fuel : nat) (tmp : double) (exponent : Z) : double * Z :=
  match fuel with
  | O => (tmp, exponent)
  | S fuel =>
      if dlt tmp d1 && dlt d0 tmp then
        let exponent := exponent - 1 in
        if -99 <? exponent then small_loop fuel (dmul tmp d10) exponent else (tmp, exponent)
      else (tmp, exponent)
  end.
Fixpoint large_loop (fuel : nat) (tmp : double) (exponent : Z) : Z :=
  match fuel with
  | O => exponent
  | S fuel =>
      if dle d10 tmp then
        let exponent := exponent + 1 in
        if exponent <? 99 then large_loop fuel (ddiv tmp d10) exponent else exponent
      else exponent
  end.
Definition getexponent (value : double) : Z :=
  let tmp := if dle d0 value then value else SFopp value in
  let '(tmp, exponent) := small_loop 100 tmp 0 in
  large_loop 200 tmp exponent.

(** The integer and the fractional part after the label [again], or an overflow. *)
Definition parts (fvalue : double) (estyle : bool) (precision exponent : Z) : res (option (Z * Z * Z)) :=
  let ufvalue := if dle d0 fvalue then fvalue else SFopp fvalue in
  let ufvalue := if estyle then ddiv ufvalue (mypow10 exponent) else ufvalue in
  intpart ← cast ufvalue;
  if intpart =? UINTMAX_MAX then Ok None
  else
    mask ← to_uintmax (mypow10 precision);
    fracpart ← myround (dmul (double_of_Z mask) (dsub ufvalue (double_of_Z intpart)));
    if mask <=? fracpart then
      let intpart := wrap_size (intpart + 1) in
      if estyle && (intpart =? 10) then Ok (Some (1, 0, exponent + 1)) else Ok (Some (intpart, 0, exponent))
    else Ok (Some (intpart, fracpart, exponent)).

Definition cut19 (precision : Z) : Z := if 19 <? precision then 19 else precision.

(** The number of zeros at the front. *)
Fixpoint count_zeros (l : chars) : Z :=
  match l with [] => 0 | c :: l => if Ascii.eqb c "0" then 1 + count_zeros l else 0 end.

Definition econvert (estyle : bool) (exponent flags : Z) : chars :=
  if estyle then
    let '(exponent, esign) := if exponent <? 0 then (- exponent, "-"%char) else (exponent, "+"%char) in
    let l := convert exponent 2 10 false in
    (l ++ (if Nat.eqb (List.length l) 1 then ["0"%char] else []) ++ [esign; if has flags PRINT_F_UP then "E"%char else "e"%char])%list
  else [].

(** The end of the function: all parts are known. *)
Definition put_float (sign : option ascii) (estyle omitzeros : bool) (intpart fracpart exponent width precision flags : Z) : res chars :=
  let e := econvert estyle exponent flags in
  let iconvert := convert intpart MAX_CONVERT_LENGTH 10 false in
  let fconvert := if fracpart =? 0 then [] else convert fracpart MAX_CONVERT_LENGTH 10 false in
  let ipos := Z.of_nat (List.length iconvert) in
  let fpos := Z.of_nat (List.length fconvert) in
  let leadfraczeros := precision - fpos in
  let '(omitcount, leadfraczeros) :=
    if omitzeros then if 0 <? fpos then (count_zeros fconvert, leadfraczeros) else (precision, 0) else (0, leadfraczeros) in
  let precision := precision - omitcount in
  let emitpoint := (0 <? precision) || has flags PRINT_F_NUM in
  let separators := if has flags PRINT_F_QUOTE then getnumsep ipos else 0 in
  padlen ← chk (width - ipos - Z.of_nat (List.length e) - precision - separators - (if emitpoint then 1 else 0) - width_of sign 1);
  let padlen := if padlen <? 0 then 0 else padlen in
  let padlen := if has flags PRINT_F_MINUS then - padlen else padlen in
  let zero := negb (has flags PRINT_F_MINUS) && has flags PRINT_F_ZERO && (0 <? padlen) in
  Ok ((if zero then put_sign sign ++ zeros padlen else spaces padlen ++ put_sign sign) ++
      group (0 <? separators) (rev iconvert) ++ (if emitpoint then ["."%char] else []) ++ zeros leadfraczeros ++
      rev (drop (Z.to_nat omitcount) fconvert) ++ rev e ++ spaces (- padlen))%list.

(** [None] is an overflow.  Nothing has been printed then. *)
Definition fmtflt (fvalue : double) (width precision flags : Z) : res (option chars) :=
  let precision := if precision =? -1 then 6 else precision in
  let sign :=
    if dlt fvalue d0 then Some "-"%char
    else if has flags PRINT_F_PLUS then Some "+"%char
    else if has flags PRINT_F_SPACE then Some " "%char else None in
  let infnan :=
    if ISNAN fvalue then Some (if has flags PRINT_F_UP then "NAN" else "nan")
    else if ISINF fvalue then Some (if has flags PRINT_F_UP then "INF" else "inf") else None in
  match infnan with
  | Some s =>
      let iconvert := (put_sign sign ++ list_ascii_of_string s)%list in
      t ← fmtstr (Some iconvert) width (Z.of_nat (List.length iconvert)) flags; Ok (Some t)
  | None =>
      let general := has flags PRINT_F_TYPE_G in
      let estyle := has flags PRINT_F_TYPE_E || general in
      let precision := if general then precision - 1 else precision in
      let omitzeros := general && negb (has flags PRINT_F_NUM) in
      let exponent := if estyle then getexponent fvalue else 0 in
      let precision := cut19 precision in
      ps ← parts fvalue estyle precision exponent;
      match ps with
      | None => Ok None
      | Some (intpart, fracpart, exponent) =>
          if general && (exponent <? precision + 1) && (-4 <=? exponent) then
            let precision := cut19 (precision - exponent) in
            ps ← parts fvalue false precision exponent;
            match ps with
            | None => Ok None
            | Some (intpart, fracpart, exponent) => t ← put_float sign false omitzeros intpart fracpart exponent width precision flags; Ok (Some t)
            end
          else t ← put_float sign estyle omitzeros intpart fracpart exponent width precision flags; Ok (Some t)
      end
  end.

(** ** Arguments *)

(** An [int] or [unsigned int], a wider integer, a [double], a string or [NULL], the
    address in a [void] pointer, a pointer to an integer that receives a count. *)
Inductive carg : Type :=
  | CInt (z : Z)
  | CLong (z : Z)
  | CDouble (x : double)
  | CStr (s : option string)
  | CPtr (a : Z)
  | COut (p : Z).

Inductive modifier : Type := PRINT_C_NONE | PRINT_C_CHAR | PRINT_C_SHORT | PRINT_C_LONG | PRINT_C_LDOUBLE | PRINT_C_SIZE | PRINT_C_PTRDIFF | PRINT_C_INTMAX.

Definition next (args : list carg) : res (carg * list carg) := match args with a :: args => Ok (a, args) | [] => Undef end.
Definition arg_int (args : list carg) : res (Z * list carg) :=
  '(a, args) ← next args; match a with CInt z => Ok (wrap_int z, args) | _ => Undef end.
Definition arg_uint (args : list carg) : res (Z * list carg) :=
  '(a, args) ← next args; match a with CInt z => Ok (wrap_u32 z, args) | _ => Undef end.
Definition arg_long (args : list carg) : res (Z * list carg) :=
  '(a, args) ← next args; match a with CLong z => Ok (wrap_i64 z, args) | _ => Undef end.

(** The value of a signed conversion, and of an unsigned one, as an [intmax_t]. *)
Definition arg_signed (cflags : modifier) (args : list carg) : res (Z * list carg) :=
  match cflags with
  | PRINT_C_CHAR => '(z, args) ← arg_int args; Ok ((z + 2 ^ 7) mod 2 ^ 8 - 2 ^ 7, args)
  | PRINT_C_SHORT => '(z, args) ← arg_int args; Ok ((z + 2 ^ 15) mod 2 ^ 16 - 2 ^ 15, args)
  | PRINT_C_LONG | PRINT_C_SIZE | PRINT_C_INTMAX | PRINT_C_PTRDIFF => arg_long args
  | _ => arg_int args
  end.
Definition arg_unsigned (cflags : modifier) (args : list carg) : res (Z * list carg) :=
  match cflags with
  | PRINT_C_CHAR => '(z, args) ← arg_uint args; Ok (z mod 2 ^ 8, args)
  | PRINT_C_SHORT => '(z, args) ← arg_uint args; Ok (z mod 2 ^ 16, args)
  | PRINT_C_LONG | PRINT_C_SIZE | PRINT_C_INTMAX | PRINT_C_PTRDIFF => arg_long args
  | _ => arg_uint args
  end.

(** The count as the type of the pointer holds it. *)
Definition count_as (cflags : modifier) (len : Z) : Z :=
  match cflags with
  | PRINT_C_CHAR => (len + 2 ^ 7) mod 2 ^ 8 - 2 ^ 7
  | PRINT_C_SHORT => (len + 2 ^ 15) mod 2 ^ 16 - 2 ^ 15
  | PRINT_C_SIZE => len
  | PRINT_C_LONG | PRINT_C_INTMAX | PRINT_C_PTRDIFF => wrap_i64 len
  | _ => wrap_int len
  end.

(** ** The conversion at the end of a specification *)

Inductive pstate : Type := PRINT_S_DEFAULT | PRINT_S_FLAGS | PRINT_S_WIDTH | PRINT_S_DOT | PRINT_S_PRECISION | PRINT_S_MOD | PRINT_S_CONV.

Record spec := mk_spec { state : pstate; flags : Z; width : Z; precision : Z; cflags : modifier }.
Definition start : spec := mk_spec PRINT_S_DEFAULT 0 0 (-1) PRINT_C_NONE.
Definition with_state (p : spec) (s : pstate) : spec := mk_spec s (flags p) (width p) (precision p) (cflags p).
Definition with_flag (p : spec) (f : Z) : spec := mk_spec (state p) (Z.lor (flags p) f) (width p) (precision p) (cflags p).
Definition with_width (p : spec) (n : Z) : spec := mk_spec (state p) (flags p) n (precision p) (cflags p).
Definition with_precision (p : spec) (n : Z) : spec := mk_spec (state p) (flags p) (width p) n (cflags p).
Definition with_cflags (p : spec) (c : modifier) : spec := mk_spec (state p) (flags p) (width p) (precision p) c.

(** What is printed, or an overflow; the arguments that are left; what is stored. *)
Definition conv_result : Type := option chars * list carg * list (Z * Z).
Definition printed (t : res chars) (args : list carg) : res conv_result := t ← t; Ok (Some t, args, []).

Definition conv_int (p : spec) (args : list carg) : res conv_result :=
  '(value, args) ← arg_signed (cflags p) args; printed (fmtint value 10 (width p) (precision p) (flags p)) args.
Definition conv_uint (p : spec) (base : Z) (args : list carg) : res conv_result :=
  let p := with_flag p PRINT_F_UNSIGNED in
  '(value, args) ← arg_unsigned (cflags p) args; printed (fmtint value base (width p) (precision p) (flags p)) args.
Definition conv_float (p : spec) (args : list carg) : res conv_result :=
  '(a, args) ← next args;
  match a with
  | CDouble x => t ← fmtflt x (width p) (precision p) (flags p); Ok (t, args, [])
  | _ => Undef
  end.
Definition conv_general (p : spec) (args : list carg) : res conv_result :=
  conv_float (with_precision p (if precision p =? 0 then 1 else precision p)) args.

Definition conversion (ch : ascii) (p : spec) (len : Z) (args : list carg) : res conv_result :=
  match ch with
  | "d"%char | "i"%char => conv_int p args
  | "X"%char => conv_uint (with_flag p PRINT_F_UP) 16 args
  | "x"%char => conv_uint p 16 args
  | "o"%char => conv_uint p 8 args
  | "u"%char => conv_uint p 10 args
  | "A"%char | "F"%char => conv_float (with_flag p PRINT_F_UP) args
  | "a"%char | "f"%char => conv_float p args
  | "E"%char => conv_float (with_flag (with_flag p PRINT_F_UP) PRINT_F_TYPE_E) args
  | "e"%char => conv_float (with_flag p PRINT_F_TYPE_E) args
  | "G"%char => conv_general (with_flag (with_flag p PRINT_F_UP) PRINT_F_TYPE_G) args
  | "g"%char => conv_general (with_flag p PRINT_F_TYPE_G) args
  | "c"%char => '(z, args) ← arg_int args; Ok (Some [ascii_of_nat (Z.to_nat (z mod 256))], args, [])
  | "s"%char =>
      '(a, args) ← next args;
      match a with CStr s => printed (fmtstr (list_ascii_of_string <$> s) (width p) (precision p) (flags p)) args | _ => Undef end
  | "p"%char =>
      '(a, args) ← next args;
      match a with
      | CPtr v =>
          if v =? 0 then printed (fmtstr (Some (list_ascii_of_string "(nil)")) (width p) (-1) (flags p)) args
          else printed (fmtint (wrap_i64 v) 16 (width p) (precision p) (Z.lor (Z.lor (flags p) PRINT_F_NUM) PRINT_F_UNSIGNED)) args
      | _ => Undef
      end
  | "n"%char => '(a, args) ← next args; match a with COut q => Ok (Some [], args, [(q, count_as (cflags p) len)]) | _ => Undef end
  | "%"%char => Ok (Some ["%"%char], args, [])
  | _ => Ok (Some [], args, [])
  end.

(** ** The loop over the format *)

Definition ISDIGIT (ch : ascii) : bool := is_digit ch.
Definition flag_of (ch : ascii) : option Z :=
  match ch with
  | "-"%char => Some PRINT_F_MINUS
  | "+"%char => Some PRINT_F_PLUS
  | " "%char => Some PRINT_F_SPACE
  | "#"%char => Some PRINT_F_NUM
  | "0"%char => Some PRINT_F_ZERO
  | "'"%char => Some PRINT_F_QUOTE
  | _ => None
  end.

(** The length modifier, and what follows it. *)
Definition modifier_of (ch : ascii) (rest : string) : option (modifier * string) :=
  match ch with
  | "h"%char => Some (match rest with String "h"%char rest => (PRINT_C_CHAR, rest) | _ => (PRINT_C_SHORT, rest) end)
  | "l"%char => Some (PRINT_C_LONG, rest)
  | "L"%char => Some (PRINT_C_LDOUBLE, rest)
  | "j"%char => Some (PRINT_C_INTMAX, rest)
  | "t"%char => Some (PRINT_C_PTRDIFF, rest)
  | "z"%char => Some (PRINT_C_SIZE, rest)
  | _ => None
  end.

(** [10 * n + ch], or an overflow. *)
Definition add_digit (n : Z) (ch : ascii) : option Z :=
  if Z.quot (int_max - digit_val ch) 10 <? n then None else Some (10 * n + digit_val ch).

Section machine.
Context {T : Type} (out : T -> ascii -> res T) (len : T -> Z).

Fixpoint emits (o : T) (l : chars) : res T := match l with [] => Ok o | c :: l => o ← out o c; emits o l end.

(** One round of the loop: [None] is the jump to the label [out] after an overflow.  What
    is stored by [%n] comes last. *)
Definition step (ch : ascii) (rest : string) (p : spec) (o : T) (args : list carg) : res (option (string * spec * list carg) * T * list (Z * Z)) :=
  let s := String ch rest in
  match state p with
  | PRINT_S_DEFAULT =>
      if Ascii.eqb ch "%" then Ok (Some (rest, with_state p PRINT_S_FLAGS, args), o, [])
      else o ← out o ch; Ok (Some (rest, p, args), o, [])
  | PRINT_S_FLAGS =>
      match flag_of ch with
      | Some f => Ok (Some (rest, with_flag p f, args), o, [])
      | None => Ok (Some (s, with_state p PRINT_S_WIDTH, args), o, [])
      end
  | PRINT_S_WIDTH =>
      if ISDIGIT ch then
        match add_digit (width p) ch with
        | None => Ok (None, o, [])
        | Some n => Ok (Some (rest, with_width p n, args), o, [])
        end
      else if Ascii.eqb ch "*" then
        '(n, args) ← arg_int args;
        (if n <? 0 then
           n ← chk (- n); Ok (Some (rest, with_state (with_width (with_flag p PRINT_F_MINUS) n) PRINT_S_DOT, args), o, [])
         else Ok (Some (rest, with_state (with_width p n) PRINT_S_DOT, args), o, []))
      else Ok (Some (s, with_state p PRINT_S_DOT, args), o, [])
  | PRINT_S_DOT =>
      if Ascii.eqb ch "." then Ok (Some (rest, with_state p PRINT_S_PRECISION, args), o, [])
      else Ok (Some (s, with_state p PRINT_S_MOD, args), o, [])
  | PRINT_S_PRECISION =>
      let p := with_precision p (if precision p =? -1 then 0 else precision p) in
      if ISDIGIT ch then
        match add_digit (precision p) ch with
        | None => Ok (None, o, [])
        | Some n => Ok (Some (rest, with_precision p n, args), o, [])
        end
      else if Ascii.eqb ch "*" then
        '(n, args) ← arg_int args;
        Ok (Some (rest, with_state (with_precision p (if n <? 0 then -1 else n)) PRINT_S_MOD, args), o, [])
      else Ok (Some (s, with_state p PRINT_S_MOD, args), o, [])
  | PRINT_S_MOD =>
      match modifier_of ch rest with
      | Some (c, rest) => Ok (Some (rest, with_state (with_cflags p c) PRINT_S_CONV, args), o, [])
      | None => Ok (Some (s, with_state p PRINT_S_CONV, args), o, [])
      end
  | PRINT_S_CONV =>
      '(t, args, outs) ← conversion ch p (len o) args;
      match t with
      | None => Ok (None, o, outs)
      | Some t => o ← emits o t; Ok (Some (rest, start, args), o, outs)
      end
  end.

(** The receiver at the end, whether there was an overflow, and what was stored. *)
Fixpoint loop (fuel : nat) (s : string) (p : spec) (o : T) (args : list carg) (outs : list (Z * Z)) : res (T * bool * list (Z * Z)) :=
  match s with
  | EmptyString => Ok (o, false, outs)
  | String ch rest =>
      match fuel with
      | O => OutOfFuel
      | S fuel =>
          '(next, o, more) ← step ch rest p o args;
          match next with
          | None => Ok (o, true, (outs ++ more)%list)
          | Some (s, p, args) => loop fuel s p o args (outs ++ more)
          end
      end
  end.
End machine.

(** A character stays for at most six rounds. *)
Definition rounds (format : string) : nat := 6 * String.length format.

(** ** The buffer *)

(** The bytes at [str], and [len]. *)
Record Buf := mk_Buf { bytes : chars; blen : Z }.

Definition OUTCHAR (size : Z) (b : Buf) (ch : ascii) : res Buf :=
  if wrap_size (blen b + 1) <? size then
    l ← store (bytes b) (blen b) ch; Ok (mk_Buf l (wrap_size (blen b + 1)))
  else Ok (mk_Buf (bytes b) (wrap_size (blen b + 1))).

Definition NUL : ascii := ascii_of_nat 0.
Definition EOVERFLOW : Z := 75.
Definition ERANGE : Z := 34.

(** The bytes afterwards, the result, [errno] if it was set, and what was stored. *)
Definition rpl_vsnprintf (str : option chars) (size : Z) (format : string) (args : list carg) : res (option chars * Z * option Z * list (Z * Z)) :=
  let size := match str with None => 0 | Some _ => size end in
  '(b, overflow, outs) ← loop (OUTCHAR size) blen (rounds format) format start (mk_Buf (default [] str) 0) args [];
  l ← (if blen b <? size then store (bytes b) (blen b) NUL
       else if 0 <? size then store (bytes b) (size - 1) NUL else Ok (bytes b));
  let str := match str with None => None | Some _ => Some l end in
  if (overflow : bool) || (int_max <=? blen b) then Ok (str, -1, Some (if overflow : bool then EOVERFLOW else ERANGE), outs)
  else Ok (str, blen b, None, outs).

Definition rpl_snprintf (str : option chars) (size : Z) (format : string) (args : list carg) : res (option chars * Z * option Z * list (Z * Z)) :=
  rpl_vsnprintf str size format args.

(** The new block, if there is one.  [junk] is its content; [malloc] is taken to succeed. *)
Definition rpl_vasprintf (junk : Z -> chars) (format : string) (args : list carg) : res (option chars * Z * option Z * list (Z * Z)) :=
  '(_, len, err, outs) ← rpl_vsnprintf None 0 format args;
  if len <? 0 then Ok (None, -1, err, outs)
  else
    size ← chk (len + 1);
    '(str, len, err', outs') ← rpl_vsnprintf (Some (junk size)) size format args;
    Ok (str, len, match err' with Some _ => err' | None => err end, (outs ++ outs')%list).

Definition rpl_asprintf (junk : Z -> chars) (format : string) (args : list carg) : res (option chars * Z * option Z * list (Z * Z)) :=
  rpl_vasprintf junk format args.
End Snprintf.
