(* ===== verification/SnprintfFacts.v ===== *)
(** * What the replacement for snprintf prints

    The characters of a call depend on the format and the arguments only ([vtext]): the
    buffer gets the front of them and a zero byte, whatever its size, and nothing is
    written behind it ([vsnprintf_writes], [vasprintf_allocates]).  A format that is written
    from directives is read as them ([format_roundtrip]); every format is read to its end
    ([vsnprintf_terminates]).  Integers and strings are printed with sign, prefix, precision
    and width ([fmtint_prints], [fmtstr_prints], [snprintf_decimal]).  The text that C99
    gives a directive is [says], a relation that is written without the code, and a call
    prints it ([snprintf_prints]). *)

From Stdlib Require Import Ascii String SpecFloat.
From S2P Require Import Prelude Double CString Snprintf.
Import Snprintf.

Module SnprintfFacts.

(** ** The text of a call *)

Definition text_out (l : chars) (c : ascii) : res chars := Ok (l ++ [c])%list.
Definition size_of (l : chars) : Z := Z.of_nat (List.length l).

(** All characters in order, whether there was an overflow, and what is stored. *)
Definition vtext (format : string) (args : list carg) : res (chars * bool * list (Z * Z)) :=
  loop text_out size_of (rounds format) format start [] args [].

Lemma emits_text t l : emits text_out t l = Ok (t ++ l)%list.
Proof. revert t. induction l as [|c l IH]; intros t; cbn [emits]; [by rewrite app_nil_r|]. change (text_out t c) with (Ok (t ++ [c])%list). cbn [mbind res_bind]. rewrite IH. by rewrite <- app_assoc. Qed.

(** *** The buffer has the front of the text *)

Section buffer.
Context (str : chars) (size : Z) (Hsize : 0 <= size <= size_of str).

Record shows (b : Buf) (t : chars) : Prop := {
  sh_len : blen b = size_of t;
  sh_bytes : bytes b = (take (Z.to_nat (size - 1)) t ++ drop (Z.to_nat (size - 1) `min` List.length t) str)%list }.

Lemma shows_start : shows (mk_Buf str 0) [].
Proof. split; [done|]. cbn [bytes List.length]. by rewrite take_nil, Nat.min_0_r. Qed.

Lemma out_shows b t c : shows b t -> size_of t + 1 < 2 ^ 64 -> exists b', OUTCHAR size b c = Ok b' /\ shows b' (t ++ [c]).
Proof.
  intros [Hl Hb] Ht. unfold OUTCHAR, size_of in *. rewrite Hl, wrap_size_id by lia. destruct (Z.ltb_spec (Z.of_nat (List.length t) + 1) size) as [Hs|Hs].
  - rewrite Nat.min_r, take_ge in Hb by lia. rewrite store_ok by (rewrite Hb, length_app, length_drop; lia). cbn [mbind res_bind]. eexists. split; [done|]. split; cbn [blen bytes].
    + unfold size_of. rewrite length_app. simpl. lia.
    + rewrite Nat2Z.id, Hb, take_ge, length_app, Nat.min_r by (rewrite ?length_app; simpl; lia). simpl List.length.
      destruct (drop (List.length t) str) as [|x r] eqn:E; [apply (f_equal List.length) in E; rewrite length_drop in E; simpl in E; lia|].
      replace (List.length t) with (List.length t + 0)%nat at 1 by lia. rewrite insert_app_r. cbn [insert list_insert]. rewrite <- app_assoc. do 2 f_equal. by rewrite <- drop_drop, E.
  - eexists. split; [done|]. split; cbn [blen bytes].
    + unfold size_of. rewrite length_app. simpl. lia.
    + rewrite Hb, take_app_le, length_app, !Nat.min_l by lia. done.
Qed.

Lemma emits_shows b t l : shows b t -> size_of (t ++ l) < 2 ^ 64 -> exists b', emits (OUTCHAR size) b l = Ok b' /\ shows b' (t ++ l).
Proof.
  unfold size_of. revert b t. induction l as [|c l IH]; intros b t Hb Ht; cbn [emits]; [rewrite app_nil_r; by eexists|]. rewrite length_app in Ht. simpl in Ht.
  destruct (out_shows b t c Hb) as (b1 & -> & H1); [unfold size_of; lia|]. cbn [mbind res_bind]. destruct (IH b1 (t ++ [c])%list H1) as (b2 & -> & H2); [rewrite !length_app; simpl; lia|].
  exists b2. by rewrite <- app_assoc in H2.
Qed.

End buffer.

(** *** One round *)

(** What a round prints, with [n] characters before it. *)
Definition plan (n : Z) (ch : ascii) (rest : string) (p : spec) (args : list carg) : res (option (string * spec * list carg) * chars * list (Z * Z)) :=
  step text_out (fun _ => n) ch rest p [] args.

Lemma step_plan {T} (out : T -> ascii -> res T) (len : T -> Z) ch rest p o args :
  step out len ch rest p o args = ('(next, t, outs) ← plan (len o) ch rest p args; o ← emits out o t; Ok (next, o, outs)).
Proof.
  unfold plan, step. destruct (state p); repeat case_match; try done.
  - cbn. by destruct (out o ch).
  - destruct (arg_int args) as [[n args']| | |]; [|done..]. cbn [mbind res_bind]. destruct (n <? 0); [|done]. by destruct (chk (- n)).
  - by destruct (arg_int args) as [[n args']| | |].
  - by destruct (arg_int args) as [[n args']| | |].
  - destruct (conversion ch p (len o) args) as [[[t args'] outs]| | |]; [|done..]. cbn [mbind res_bind]. destruct t as [t|]; [|done]. rewrite emits_text. done.
Qed.

Lemma loop_step {T} (out : T -> ascii -> res T) (len : T -> Z) fuel ch rest p o args outs next t more o' :
  plan (len o) ch rest p args = Ok (next, t, more) -> emits out o t = Ok o' ->
  loop out len (S fuel) (String ch rest) p o args outs =
    match next with None => Ok (o', true, (outs ++ more)%list) | Some (s, p, args) => loop out len fuel s p o' args (outs ++ more)%list end.
Proof. intros Hp Ho. cbn [loop]. rewrite step_plan, Hp. cbn [mbind res_bind]. rewrite Ho. cbn [mbind res_bind]. by destruct next as [[[? ?] ?]|]. Qed.

Lemma loop_step_inv fuel ch rest p t args outs r :
  loop text_out size_of (S fuel) (String ch rest) p t args outs = Ok r -> exists next l more, plan (size_of t) ch rest p args = Ok (next, l, more) /\
    match next with None => Ok ((t ++ l)%list, true, (outs ++ more)%list) | Some (s, p, args) => loop text_out size_of fuel s p (t ++ l)%list args (outs ++ more)%list end = Ok r.
Proof.
  cbn [loop]. rewrite step_plan. destruct (plan (size_of t) ch rest p args) as [[[next l] more]| | |] eqn:E; [|done..]. cbn [mbind res_bind]. rewrite emits_text. cbn [mbind res_bind].
  intros H. exists next, l, more. split; [done|]. by destruct next as [[[? ?] ?]|].
Qed.

(** The text only grows. *)
Lemma loop_grows fuel s p t args outs t' ov outs' :
  loop text_out size_of fuel s p t args outs = Ok (t', ov, outs') -> exists l, t' = (t ++ l)%list.
Proof.
  revert s p t args outs. induction fuel as [|fuel IH]; intros [|ch rest] p t args outs E; [by injection E as <- _ _; exists []; rewrite app_nil_r|done|by injection E as <- _ _; exists []; rewrite app_nil_r|].
  apply loop_step_inv in E as (next & l & more & _ & E). destruct next as [[[s p'] args']|]; [|injection E as <- _ _; by exists l].
  destruct (IH _ _ _ _ _ E) as [l' ->]. exists (l ++ l')%list. by rewrite app_assoc.
Qed.

Lemma loop_shows str size fuel s p b t args outs t' ov outs' :
  0 <= size <= size_of str -> shows str size b t -> loop text_out size_of fuel s p t args outs = Ok (t', ov, outs') -> size_of t' < 2 ^ 64 ->
  exists b', loop (OUTCHAR size) blen fuel s p b args outs = Ok (b', ov, outs') /\ shows str size b' t'.
Proof.
  intros Hs Hb E Ht. revert s p b t args outs Hb E. induction fuel as [|fuel IH]; intros [|ch rest] p b t args outs Hb E; [by injection E as <- <- <-; exists b|done|by injection E as <- <- <-; exists b|].
  apply loop_step_inv in E as (next & l & more & Ep & E).
  assert (size_of (t ++ l) < 2 ^ 64) as Hl.
  { destruct next as [[[s p'] args']|]; [|by injection E as <- _ _]. apply loop_grows in E as [l' ->]. unfold size_of in *. rewrite length_app in Ht. lia. }
  destruct (emits_shows str size Hs b t l Hb Hl) as (b1 & E1 & H1). erewrite loop_step; [|rewrite (sh_len _ _ _ _ Hb); exact Ep|exact E1].
  destruct next as [[[s p'] args']|]; [by apply (IH _ _ b1 _ _ _ H1)|]. injection E as <- <- <-. by exists b1.
Qed.

(** ** The buffer *)

(** The first [size] bytes: the front of the text and a zero byte. *)
Definition fill (str : chars) (size : Z) (t : chars) : chars :=
  if 0 <? size then
    let front := take (Z.to_nat (size - 1)) t in (front ++ [NUL] ++ drop (List.length front + 1) str)%list
  else str.

Lemma shows_fill str size b t :
  0 <= size <= size_of str -> shows str size b t ->
  (if blen b <? size then store (bytes b) (blen b) NUL else if 0 <? size then store (bytes b) (size - 1) NUL else Ok (bytes b)) = Ok (fill str size t).
Proof.
  intros Hs [Hl Hb]. unfold fill, size_of in *. rewrite Hl. destruct (Z.ltb_spec 0 size) as [H0|H0].
  2: { rewrite (proj2 (Z.ltb_ge _ _)) by lia. rewrite Hb. replace (Z.to_nat (size - 1)) with 0%nat by lia. done. }
  set (k := Z.to_nat (size - 1)) in *. set (front := take k t) in *.
  assert (List.length front = k `min` List.length t)%nat as Hf by apply length_take.
  assert ((if Z.of_nat (List.length t) <? size then store (bytes b) (Z.of_nat (List.length t)) NUL else store (bytes b) (size - 1) NUL) = store (bytes b) (Z.of_nat (List.length front)) NUL) as ->.
  { destruct (Z.ltb_spec (Z.of_nat (List.length t)) size); do 2 f_equal; lia. }
  rewrite Hb, <- Hf, store_ok by (rewrite length_app, length_drop; lia). do 2 f_equal. rewrite Nat2Z.id.
  destruct (drop (List.length front) str) as [|x r] eqn:E; [apply (f_equal List.length) in E; rewrite length_drop in E; simpl in E; lia|].
  replace (List.length front) with (List.length front + 0)%nat at 1 by lia. rewrite insert_app_r. cbn [insert list_insert app]. do 2 f_equal.
  by rewrite <- drop_drop, E.
Qed.

Definition result_of (t : chars) (overflow : bool) : Z := if overflow || (int_max <=? size_of t) then -1 else size_of t.
Definition errno_of (t : chars) (overflow : bool) : option Z := if overflow then Some EOVERFLOW else if int_max <=? size_of t then Some ERANGE else None.

(** Whatever its size, the buffer gets the front of the text and a zero byte and keeps
    what is behind them; the result is the length of the whole text. *)
Theorem vsnprintf_writes str size format args t overflow outs :
  vtext format args = Ok (t, overflow, outs) -> size_of t < 2 ^ 64 -> 0 <= size <= size_of str ->
  rpl_vsnprintf (Some str) size format args = Ok (Some (fill str size t), result_of t overflow, errno_of t overflow, outs).
Proof.
  intros Et Ht Hs. unfold rpl_vsnprintf. cbv beta iota zeta delta [default from_option id]. destruct (loop_shows str size _ _ _ _ _ _ _ _ _ _ Hs (shows_start str size) Et Ht) as (b & -> & Hb). cbn [mbind res_bind].
  rewrite (shows_fill _ _ _ _ Hs Hb), (sh_len _ _ _ _ Hb). cbn [mbind res_bind]. unfold result_of, errno_of. by destruct overflow, (int_max <=? size_of t).
Qed.

(** With [NULL] only the length is computed. *)
Lemma vsnprintf_null size format args t overflow outs :
  vtext format args = Ok (t, overflow, outs) -> size_of t < 2 ^ 64 -> rpl_vsnprintf None size format args = Ok (None, result_of t overflow, errno_of t overflow, outs).
Proof.
  intros Et Ht. unfold rpl_vsnprintf. cbv beta iota zeta delta [default from_option id].
  destruct (loop_shows [] 0 _ _ _ _ _ _ _ _ _ _ ltac:(done) (shows_start [] 0) Et Ht) as (b & -> & Hb). cbn [mbind res_bind].
  rewrite (shows_fill [] 0 b t ltac:(done) Hb), (sh_len _ _ _ _ Hb). cbn [mbind res_bind]. unfold result_of, errno_of. by destruct overflow, (int_max <=? size_of t).
Qed.

(** The block that [vasprintf] allocates is exactly as large as the text. *)
Theorem vasprintf_allocates junk format args t outs :
  (forall n, 0 <= n -> size_of (junk n) = n) -> vtext format args = Ok (t, false, outs) -> size_of t < int_max ->
  rpl_vasprintf junk format args = Ok (Some (t ++ [NUL])%list, size_of t, None, (outs ++ outs)%list).
Proof.
  intros Hj Et Ht. pose proof (Nat2Z.is_nonneg (List.length t)) as H0. fold (size_of t) in H0. unfold rpl_vasprintf.
  assert (result_of t false = size_of t) as Hr by (unfold result_of; rewrite (proj2 (Z.leb_gt _ _)) by done; done).
  assert (errno_of t false = None) as He by (unfold errno_of; rewrite (proj2 (Z.leb_gt _ _)) by done; done).
  rewrite (vsnprintf_null 0 _ _ _ _ _ Et) by (unfold int_max in Ht; lia). cbn [mbind res_bind]. rewrite Hr, He, (proj2 (Z.ltb_ge _ _)) by done. rewrite chk_ok by (unfold in_int, int_min, int_max in *; lia). cbn [mbind res_bind].
  rewrite (vsnprintf_writes _ _ _ _ _ _ _ Et) by (rewrite ?Hj; unfold int_max in Ht; lia). cbn [mbind res_bind]. rewrite Hr, He. do 5 f_equal.
  unfold fill. rewrite (proj2 (Z.ltb_lt _ _)) by lia. rewrite Z.add_simpl_r, take_ge by (unfold size_of; lia). f_equal. cbn [app]. f_equal. apply nil_length_inv. rewrite length_drop.
  pose proof (Hj (size_of t + 1) ltac:(lia)) as Hl. unfold size_of in *. lia.
Qed.

(** ** Formats *)

Inductive directive : Type := Lit (c : ascii) | Conv (fl : chars) (w pr : option Z) (m : modifier) (c : ascii).

Definition modifier_text (m : modifier) : string :=
  match m with
  | PRINT_C_NONE => ""
  | PRINT_C_CHAR => "hh"
  | PRINT_C_SHORT => "h"
  | PRINT_C_LONG => "l"
  | PRINT_C_LDOUBLE => "L"
  | PRINT_C_SIZE => "z"
  | PRINT_C_PTRDIFF => "t"
  | PRINT_C_INTMAX => "j"
  end.

Definition width_text (w : option Z) : string := match w with Some n => print_nat n | None => "" end.
Definition precision_text (pr : option Z) : string := match pr with Some n => ("." ++ print_nat n)%string | None => "" end.

Definition print_directive (d : directive) : string :=
  match d with
  | Lit c => String c ""
  | Conv fl w pr m c => (String "%" (string_of_list_ascii fl) ++ width_text w ++ precision_text pr ++ modifier_text m ++ String c "")%string
  end.
Fixpoint print_format (ds : list directive) : string := match ds with [] => "" | d :: ds => (print_directive d ++ print_format ds)%string end.

(** A character that is not part of the specification before it. *)
Definition ends_spec (c : ascii) : Prop :=
  flag_of c = None /\ is_digit c = false /\ Ascii.eqb c "*" = false /\ Ascii.eqb c "." = false /\ modifier_of c "" = None.

Definition directive_ok (d : directive) : Prop :=
  match d with
  | Lit c => Ascii.eqb c "%" = false
  | Conv fl w pr m c =>
      Forall (fun f => is_Some (flag_of f)) fl /\ (forall n, w = Some n -> 0 < n <= int_max) /\ (forall n, pr = Some n -> 0 <= n <= int_max) /\ ends_spec c
  end.

Definition flags_of (fl : chars) : Z := fold_left (fun z f => Z.lor z (default 0 (flag_of f))) fl 0.
Definition spec_of (st : pstate) (fl : chars) (w pr : option Z) (m : modifier) : spec := mk_spec st (flags_of fl) (default 0 w) (default (-1) pr) m.

(** The conversions of the directives, one after the other. *)
Fixpoint run_directives (ds : list directive) (t : chars) (args : list carg) (outs : list (Z * Z)) : res (chars * bool * list (Z * Z)) :=
  match ds with
  | [] => Ok (t, false, outs)
  | Lit c :: ds => run_directives ds (t ++ [c])%list args outs
  | Conv fl w pr m c :: ds =>
      '(l, args, more) ← conversion c (spec_of PRINT_S_CONV fl w pr m) (size_of t) args;
      match l with None => Ok (t, true, (outs ++ more)%list) | Some l => run_directives ds (t ++ l)%list args (outs ++ more)%list end
  end.

(** *** Reading a specification *)

(** In [k] rounds the loop gets from one place in the format to another. *)
Definition walks (k : nat) (s : string) (p : spec) (s' : string) (p' : spec) : Prop :=
  forall fuel t args outs, loop text_out size_of (k + fuel) s p t args outs = loop text_out size_of fuel s' p' t args outs.

Lemma walks_refl s p : walks 0 s p s p.
Proof. intros fuel t args outs. reflexivity. Qed.

Lemma walks_trans k1 k2 s1 p1 s2 p2 s3 p3 : walks k1 s1 p1 s2 p2 -> walks k2 s2 p2 s3 p3 -> walks (k1 + k2) s1 p1 s3 p3.
Proof. intros H1 H2 fuel t args outs. rewrite <- Nat.add_assoc, H1. apply H2. Qed.

Lemma walks_one ch rest p s' p' : (forall n args, plan n ch rest p args = Ok (Some (s', p', args), [], [])) -> walks 1 (String ch rest) p s' p'.
Proof. intros Hp fuel t args outs. rewrite (loop_step _ _ _ _ _ _ _ _ _ _ _ _ t (Hp _ _)) by done. by rewrite app_nil_r. Qed.

Lemma walk_flags fl rest w pr m z : Forall (fun f => is_Some (flag_of f)) fl ->
  walks (List.length fl) (string_of_list_ascii fl ++ rest) (mk_spec PRINT_S_FLAGS z w pr m) rest (mk_spec PRINT_S_FLAGS (fold_left (fun z f => Z.lor z (default 0 (flag_of f))) fl z) w pr m).
Proof.
  intros Hf. revert z. induction Hf as [|f fl [v Hv] _ IH]; intros z; cbn [string_of_list_ascii append fold_left List.length]; [apply walks_refl|]. rewrite Hv.
  eapply (walks_trans 1); [|apply IH]. apply walks_one. intros. unfold plan, step. cbn [state]. by rewrite Hv.
Qed.

Lemma add_digit_ok v c n : 10 * v + digit_val c <= n -> n <= int_max -> add_digit v c = Some (10 * v + digit_val c).
Proof. intros H1 H2. unfold add_digit. destruct (Z.ltb_spec (Z.quot (int_max - digit_val c) 10) v) as [H|H]; [|done]. pose proof (Z.quot_le_lower_bound (int_max - digit_val c) 10 v ltac:(lia) ltac:(lia)). lia. Qed.

Lemma digit_nonneg c : is_digit c = true -> 0 <= digit_val c.
Proof. intros [H _]%andb_true_iff. apply Nat.leb_le in H. unfold digit_val. lia. Qed.

Lemma parse_digits_grows v s n rest : 0 <= v -> parse_digits v s = (n, rest) -> v <= n /\ exists d, s = (d ++ rest)%string.
Proof.
  revert v. induction s as [|c s IH]; intros v Hv; cbn [parse_digits]; [intros [= <- <-]; split; [lia|by exists ""]|].
  destruct (is_digit c) eqn:Ec; [|intros [= <- <-]; split; [lia|by exists ""]]. intros H. pose proof (digit_nonneg c Ec) as Hd. apply IH in H as [H1 [d ->]]; [|lia]. split; [lia|]. by exists (String c d).
Qed.

(** The digits of the width, and of the precision. *)
Lemma walk_width v s n rest z pr m : 0 <= v -> parse_digits v s = (n, rest) -> n <= int_max ->
  walks (String.length s - String.length rest) s (mk_spec PRINT_S_WIDTH z v pr m) rest (mk_spec PRINT_S_WIDTH z n pr m).
Proof.
  intros Hv. revert v Hv. induction s as [|c s IH]; intros v Hv E Hn; cbn [parse_digits] in E; [injection E as <- <-; apply walks_refl|].
  destruct (is_digit c) eqn:Ec; [|injection E as <- <-; rewrite Nat.sub_diag; apply walks_refl]. pose proof (digit_nonneg c Ec) as Hd. destruct (parse_digits_grows (10 * v + digit_val c) s n rest ltac:(lia) E) as [Hg [d Hs]].
  replace (String.length (String c s) - String.length rest)%nat with (1 + (String.length s - String.length rest))%nat by (rewrite Hs; simpl; rewrite string_app_length; lia).
  eapply walks_trans; [|apply (IH (10 * v + digit_val c)); [lia|done|done]]. apply walks_one. intros. unfold plan, step. cbn [state width]. unfold ISDIGIT. by rewrite Ec, (add_digit_ok v c n).
Qed.

Lemma walk_precision v s n rest z w m : 0 <= v -> parse_digits v s = (n, rest) -> n <= int_max ->
  walks (String.length s - String.length rest) s (mk_spec PRINT_S_PRECISION z w v m) rest (mk_spec PRINT_S_PRECISION z w n m).
Proof.
  intros Hv. revert v Hv. induction s as [|c s IH]; intros v Hv E Hn; cbn [parse_digits] in E; [injection E as <- <-; apply walks_refl|].
  destruct (is_digit c) eqn:Ec; [|injection E as <- <-; rewrite Nat.sub_diag; apply walks_refl]. pose proof (digit_nonneg c Ec) as Hd. destruct (parse_digits_grows (10 * v + digit_val c) s n rest ltac:(lia) E) as [Hg [d Hs]].
  replace (String.length (String c s) - String.length rest)%nat with (1 + (String.length s - String.length rest))%nat by (rewrite Hs; simpl; rewrite string_app_length; lia).
  eapply walks_trans; [|apply (IH (10 * v + digit_val c)); [lia|done|done]]. apply walks_one. intros. unfold plan, step. cbn [state precision]. unfold ISDIGIT. rewrite (proj2 (Z.eqb_neq v (-1))) by lia. cbn [precision with_precision]. by rewrite Ec, (add_digit_ok v c n).
Qed.

(** The precision counts from 0 as soon as there is a point. *)
Lemma precision_start fuel s z w m t args outs :
  loop text_out size_of fuel s (mk_spec PRINT_S_PRECISION z w (-1) m) t args outs = loop text_out size_of fuel s (mk_spec PRINT_S_PRECISION z w 0 m) t args outs.
Proof. destruct s as [|c s]; [by destruct fuel|]. destruct fuel as [|fuel]; [done|]. cbn [loop]. done. Qed.

(** What can follow the numbers of a specification. *)
Definition plain_head (s : string) : Prop :=
  exists c r, s = String c r /\ flag_of c = None /\ is_digit c = false /\ Ascii.eqb c "*" = false /\ Ascii.eqb c "." = false.

Lemma tail_plain m c rest : ends_spec c -> plain_head (modifier_text m ++ String c rest).
Proof. intros (H1 & H2 & H3 & H4 & H5). destruct m; by eexists _, _. Qed.

Lemma modifier_none c rest : modifier_of c "" = None -> modifier_of c rest = None.
Proof. by destruct c as [[] [] [] [] [] [] [] []]. Qed.

Lemma walk_modifier m c rest z w pr : ends_spec c ->
  walks 1 (modifier_text m ++ String c rest) (mk_spec PRINT_S_MOD z w pr PRINT_C_NONE) (String c rest) (mk_spec PRINT_S_CONV z w pr m).
Proof.
  intros (_ & _ & _ & _ & H5). destruct m; apply walks_one; intros; unfold plan, step; cbn [state append modifier_text modifier_of]; try done.
  - by rewrite (modifier_none c rest H5).
  - destruct (Ascii.eqb_spec c "h") as [->|Hc]; [done|]. by destruct c as [[] [] [] [] [] [] [] []].
Qed.

Lemma print_digits_head_pos fuel n acc : 0 < n -> n < 2 ^ Z.of_nat fuel -> exists d s, 0 < d < 10 /\ print_digits fuel n acc = String (digit_char d) s.
Proof.
  revert n acc. induction fuel as [|fuel IH]; intros n acc Hn Hf; [simpl in Hf; lia|]. cbn [print_digits]. pose proof (Z.div_mod n 10 ltac:(lia)) as Hd. pose proof (Z.mod_pos_bound n 10 ltac:(lia)) as Hm.
  destruct (Z.eqb_spec (n / 10) 0) as [Hz|Hz]; [eexists _, _; split; [|done]; lia|]. apply IH.
  - assert (0 <= n / 10) by (apply Z.div_pos; lia). lia.
  - rewrite Nat2Z.inj_succ, Z.pow_succ_r in Hf by lia. apply Z.div_lt_upper_bound; lia.
Qed.

Lemma print_nat_pos n rest : 0 < n -> exists d s, 0 < d < 10 /\ (print_nat n ++ rest)%string = String (digit_char d) s.
Proof.
  intros Hn. unfold print_nat. rewrite print_digits_app. apply print_digits_head_pos; [done|]. rewrite Nat2Z.inj_succ, Z2Nat.id by apply Z.log2_nonneg. apply Z.log2_spec. lia.
Qed.

(** A positive number does not start with the flag [0]. *)
Lemma digit_not_flag d : 0 < d < 10 -> flag_of (digit_char d) = None.
Proof. intros H. assert (d = 1 \/ d = 2 \/ d = 3 \/ d = 4 \/ d = 5 \/ d = 6 \/ d = 7 \/ d = 8 \/ d = 9) as Hd by lia. by repeat destruct Hd as [->|Hd]; [..|subst]. Qed.

Lemma parse_number n s : 0 <= n -> starts_with_digit s = false -> parse_digits 0 (print_nat n ++ s) = (n, s).
Proof. intros Hn Hs. rewrite parse_print_nat by done. by apply parse_digits_stop. Qed.

(** The width: no round takes more than its character but the one that leaves the state. *)
Lemma walk_w w s z pr m : (forall n, w = Some n -> 0 < n <= int_max) -> (exists c r, s = String c r /\ flag_of c = None /\ is_digit c = false /\ Ascii.eqb c "*" = false) ->
  walks (String.length (width_text w) + 2) (width_text w ++ s) (mk_spec PRINT_S_FLAGS z 0 pr m) s (mk_spec PRINT_S_DOT z (default 0 w) pr m).
Proof.
  intros Hw (c & r & -> & Hf & Hd & Hs).
  assert (forall v, walks 1 (String c r) (mk_spec PRINT_S_WIDTH z v pr m) (String c r) (mk_spec PRINT_S_DOT z v pr m)) as Hend by (intros v; apply walks_one; intros; unfold plan, step; cbn [state]; unfold ISDIGIT; by rewrite Hd, Hs).
  destruct w as [n|]; cbn [width_text default from_option id append String.length].
  - destruct (Hw n eq_refl) as [Hn Hmax]. replace (String.length (print_nat n) + 2)%nat with (1 + (String.length (print_nat n ++ String c r) - String.length (String c r) + 1))%nat by (rewrite string_app_length; simpl; lia).
    eapply walks_trans; [|eapply walks_trans; [apply (walk_width 0 _ n); [lia|apply parse_number; [lia|done]|done]|apply Hend]].
    destruct (print_nat_pos n (String c r) Hn) as (d & s & Hdd & ->). apply walks_one. intros. unfold plan, step. cbn [state]. by rewrite digit_not_flag.
  - apply (walks_trans 1 1 _ _ (String c r) (mk_spec PRINT_S_WIDTH z 0 pr m)); [|apply Hend]. apply walks_one. intros. unfold plan, step. cbn [state]. by rewrite Hf.
Qed.

Lemma walk_pr pr s z w m : (forall n, pr = Some n -> 0 <= n <= int_max) -> plain_head s ->
  walks (String.length (precision_text pr) + 1) (precision_text pr ++ s) (mk_spec PRINT_S_DOT z w (-1) m) s (mk_spec PRINT_S_MOD z w (default (-1) pr) m).
Proof.
  intros Hp (c & r & -> & Hf & Hd & Hs & Hdot). destruct pr as [n|]; cbn [precision_text default from_option id append String.length].
  - destruct (Hp n eq_refl) as [Hn Hmax]. replace (S (String.length (print_nat n)) + 1)%nat with (1 + (String.length (print_nat n ++ String c r) - String.length (String c r) + 1))%nat by (rewrite string_app_length; simpl; lia).
    apply (walks_trans 1 _ _ _ (print_nat n ++ String c r)%string (mk_spec PRINT_S_PRECISION z w (-1) m)); [by apply walks_one|]. intros fuel t args outs. rewrite precision_start. revert fuel t args outs.
    eapply walks_trans; [apply (walk_precision 0 _ n); [lia|apply parse_number; [lia|done]|done]|]. apply walks_one. intros. unfold plan, step. cbn [state precision]. unfold ISDIGIT.
    rewrite (proj2 (Z.eqb_neq n (-1))) by lia. by rewrite Hd, Hs.
  - apply walks_one. intros. unfold plan, step. cbn [state]. by rewrite Hdot.
Qed.

(** The whole specification. *)
Lemma walk_spec fl w pr m c rest : directive_ok (Conv fl w pr m c) ->
  exists k, (k <= 6 * String.length (print_directive (Conv fl w pr m c)) - 1)%nat /\ walks k (print_directive (Conv fl w pr m c) ++ rest) start (String c rest) (spec_of PRINT_S_CONV fl w pr m).
Proof.
  intros (Hf & Hw & Hp & Hc). exists (1 + (List.length fl + ((String.length (width_text w) + 2) + ((String.length (precision_text pr) + 1) + 1))))%nat. split.
  { assert (String.length (string_of_list_ascii fl) = List.length fl) as Hl by (induction fl as [|x fl IH]; [done|]; simpl; f_equal; apply IH; by inversion Hf).
    cbn [print_directive append String.length]. rewrite !string_app_length. simpl String.length. lia. }
  set (tail := (modifier_text m ++ String c rest)%string).
  replace (print_directive (Conv fl w pr m c) ++ rest)%string with (String "%" (string_of_list_ascii fl ++ (width_text w ++ (precision_text pr ++ tail)))) by (unfold tail; cbn [print_directive append]; rewrite !string_app_assoc; done).
  pose proof (tail_plain m c rest Hc) as Ht. fold tail in Ht.
  apply (walks_trans 1 _ _ _ (string_of_list_ascii fl ++ (width_text w ++ (precision_text pr ++ tail)))%string (mk_spec PRINT_S_FLAGS 0 0 (-1) PRINT_C_NONE)); [by apply walks_one|].
  eapply walks_trans; [by apply walk_flags|]. eapply walks_trans; [apply walk_w; [done|]|].
  { destruct pr as [n|]; [by eexists _, _|]. destruct Ht as (c' & r & -> & ? & ? & ? & ?). by eexists _, _. }
  eapply walks_trans; [by apply walk_pr|]. by apply walk_modifier.
Qed.

Lemma directives_loop ds t args outs fuel : Forall directive_ok ds -> (6 * String.length (print_format ds) <= fuel)%nat ->
  loop text_out size_of fuel (print_format ds) start t args outs = run_directives ds t args outs.
Proof.
  intros Hd. revert t args outs fuel. induction Hd as [|d ds Hd _ IH]; intros t args outs fuel Hf; cbn [print_format run_directives] in *; [by destruct fuel|]. rewrite string_app_length in Hf. destruct d as [c|fl w pr m c].
  - simpl in Hf. destruct fuel as [|fuel]; [lia|]. cbn [print_directive append]. erewrite (loop_step _ _ _ _ _ _ _ _ _ _ _ []); [|unfold plan, step; cbn [state start]; cbn in Hd; rewrite Hd; done|done].
    cbn [app]. rewrite app_nil_r. apply IH. lia.
  - destruct (walk_spec fl w pr m c (print_format ds) Hd) as (k & Hk & Hw). assert (1 <= String.length (print_directive (Conv fl w pr m c)))%nat as H1 by (cbn [print_directive append String.length]; lia).
    replace fuel with (k + S (fuel - k - 1))%nat by lia. rewrite Hw.
    cbn [loop]. rewrite step_plan. unfold plan, step. cbn [state spec_of]. destruct (conversion c (spec_of PRINT_S_CONV fl w pr m) (size_of t) args) as [[[l args'] more]| | |]; [|done..]. cbn [mbind res_bind].
    destruct l as [l|]; [|done]. rewrite !emits_text. cbn [mbind res_bind app]. rewrite emits_text. cbn [mbind res_bind]. apply IH. lia.
Qed.

(** A format that is written from directives is read as these directives: each conversion
    gets its flags, width, precision and modifier, in the order of the arguments. *)
Theorem format_roundtrip ds args : Forall directive_ok ds -> vtext (print_format ds) args = run_directives ds [] args [].
Proof. intros Hd. by apply directives_loop. Qed.

(** ** Integers *)

Definition digit_num (c : ascii) : Z :=
  let n := Z.of_nat (nat_of_ascii c) in if n <? 58 then n - 48 else if n <? 97 then n - 55 else n - 87.

(** The digits of [n], the highest first, without a zero in front. *)
Record numeral (base : Z) (caps : bool) (n : Z) (ds : chars) : Prop := {
  nu_digits : Forall (fun c => exists d, 0 <= d < base /\ c = digit caps d) ds;
  nu_value : fold_left (fun v c => v * base + digit_num c) ds 0 = n;
  nu_head : match ds with [] => False | c :: ds => digit_num c = 0 -> ds = [] end }.

Lemma digit_num_digit caps d : 0 <= d < 16 -> digit_num (digit caps d) = d.
Proof.
  intros Hd. assert (Forall (fun d => digit_num (digit caps d) = d) (seqZ 0 16)) as H by (destruct caps; by repeat constructor).
  apply (proj1 (Forall_forall _ _) H d), elem_of_seqZ. lia.
Qed.

Lemma convert_loop_ok base caps n v : 2 <= base <= 16 -> 0 <= v < base ^ Z.of_nat n -> (0 < n)%nat -> numeral base caps v (rev (convert_loop n v base caps)).
Proof.
  intros Hb. revert v. induction n as [|n IH]; intros v Hv Hn; [lia|]. cbn [convert_loop]. pose proof (Z.mod_pos_bound v base ltac:(lia)) as Hm. pose proof (Z.div_mod v base ltac:(lia)) as Hd.
  assert (exists d, 0 <= d < base /\ digit caps (v mod base) = digit caps d) as Hdig by by exists (v mod base).
  destruct (Z.eqb_spec (v / base) 0) as [Hz|Hz].
  - split; cbn [rev app]; [by repeat constructor|cbn; rewrite digit_num_digit by lia; lia|done].
  - rewrite Nat2Z.inj_succ, Z.pow_succ_r in Hv by lia.
    assert (0 < v / base < base ^ Z.of_nat n) as Hq by (split; [assert (0 <= v / base) by (apply Z.div_pos; lia); lia|apply Z.div_lt_upper_bound; lia]).
    destruct n as [|n]; [simpl in Hq; lia|]. destruct (IH (v / base)) as [H1 H2 H3]; [lia..|]. cbn [rev]. split.
    + apply Forall_app. split; [done|]. by repeat constructor.
    + rewrite fold_left_app, H2. cbn [fold_left]. rewrite digit_num_digit by lia. lia.
    + destruct (rev (convert_loop (S n) (v / base) base caps)) as [|c ds]; [done|]. cbn [app]. intros Hc. rewrite (H3 Hc) in H2. cbn in H2. lia.
Qed.

Lemma convert_ok base caps v : base = 8 \/ base = 10 \/ base = 16 -> 0 <= v < 2 ^ 64 -> numeral base caps v (rev (convert v MAX_CONVERT_LENGTH base caps)).
Proof. intros Hb Hv. apply convert_loop_ok; [lia| |vm_compute; lia]. split; [lia|]. destruct Hb as [->|[->| ->]]; (eapply Z.lt_le_trans; [apply Hv|]); by vm_compute. Qed.

Lemma convert_length base caps n v : (List.length (convert_loop n v base caps) <= n)%nat.
Proof. revert v. induction n as [|n IH]; intros v; cbn [convert_loop List.length]; [lia|]. destruct (v / base =? 0); cbn [List.length]; [lia|]. specialize (IH (v / base)). lia. Qed.

(** The digits are filled up with zeros to the precision, and all of it to the width: with
    spaces on one side, or with zeros behind the sign and the prefix. *)
Definition int_text (head ds : chars) (width precision flags : Z) : chars :=
  let ds := (zeros (precision - size_of ds) ++ ds)%list in
  let pad := width - size_of head - size_of ds in
  if has flags PRINT_F_MINUS then (head ++ ds ++ spaces pad)%list
  else if has flags PRINT_F_ZERO && (precision =? -1) then (head ++ zeros pad ++ ds)%list
  else (spaces pad ++ head ++ ds)%list.

Definition magnitude (flags value : Z) : Z := if has flags PRINT_F_UNSIGNED then wrap_size value else Z.abs value.
Definition sign_of (flags value : Z) : chars :=
  if has flags PRINT_F_UNSIGNED then []
  else if value <? 0 then ["-"%char] else if has flags PRINT_F_PLUS then ["+"%char] else if has flags PRINT_F_SPACE then [" "%char] else [].
Definition alternative (flags value : Z) : bool := has flags PRINT_F_NUM && negb (magnitude flags value =? 0).
Definition prefix_of (base flags value : Z) : chars :=
  if alternative flags value && (base =? 16) then ["0"%char; if has flags PRINT_F_UP then "X"%char else "x"%char] else [].
(** The alternative form of an octal number starts with a zero. *)
Definition octal_zero (base flags value precision : Z) (ds : chars) : chars :=
  if alternative flags value && (base =? 8) && (precision <=? size_of ds) then "0"%char :: ds else ds.

Lemma sign_magnitude flags value : (has flags PRINT_F_UNSIGNED = false -> - 2 ^ 63 < value < 2 ^ 63) ->
  exists sg, (if has flags PRINT_F_UNSIGNED then Ok (wrap_size value, None)
     else uvalue ← (if 0 <=? value then Ok value else if value =? - 2 ^ 63 then Undef else Ok (- value));
       Ok (uvalue, if value <? 0 then Some "-"%char else if has flags PRINT_F_PLUS then Some "+"%char else if has flags PRINT_F_SPACE then Some " "%char else None)) = Ok (magnitude flags value, sg) /\
    put_sign sg = sign_of flags value /\ width_of sg 1 = size_of (sign_of flags value).
Proof.
  intros Hv. unfold magnitude, sign_of. destruct (has flags PRINT_F_UNSIGNED); [by eexists|]. specialize (Hv eq_refl).
  assert ((if 0 <=? value then Ok value else if value =? - 2 ^ 63 then Undef else Ok (- value)) = Ok (Z.abs value)) as ->.
  { destruct (Z.leb_spec 0 value); [by rewrite Z.abs_eq|]. rewrite (proj2 (Z.eqb_neq _ _)) by lia. by rewrite Z.abs_neq by lia. }
  cbn [mbind res_bind]. eexists. split; [done|]. by destruct (value <? 0), (has flags PRINT_F_PLUS), (has flags PRINT_F_SPACE).
Qed.

Lemma size_sign flags value : 0 <= size_of (sign_of flags value) <= 1.
Proof. unfold sign_of. repeat case_match; unfold size_of; simpl; lia. Qed.

Lemma size_prefix base flags value : 0 <= size_of (prefix_of base flags value) <= 2.
Proof. unfold prefix_of. repeat case_match; unfold size_of; simpl; lia. Qed.

Lemma group_plain l : group false l = l.
Proof. induction l as [|c l IH]; [done|]. cbn [group andb app]. by rewrite IH. Qed.

Lemma zeros_none n : n <= 0 -> zeros n = [].
Proof. intros Hn. unfold zeros. by replace (Z.to_nat n) with 0%nat by lia. Qed.

Lemma spaces_none n : n <= 0 -> spaces n = [].
Proof. intros Hn. unfold spaces. by replace (Z.to_nat n) with 0%nat by lia. Qed.

Lemma size_zeros n : size_of (zeros n) = Z.max 0 n.
Proof. unfold size_of, zeros. rewrite length_replicate. lia. Qed.

Lemma size_app l k : size_of (l ++ k) = size_of l + size_of k.
Proof. unfold size_of. rewrite length_app. lia. Qed.

(** The places of the padding: [zp] zeros for the precision, [sp] of the width. *)
Lemma padding head ds width precision precision' flags :
  0 <= width -> -1 <= precision -> precision' = precision \/ (precision <= size_of ds /\ precision' = size_of ds + 1) ->
  let ds' := if precision' =? precision then ds else "0"%char :: ds in
  let zp := Z.max 0 (precision' - size_of ds) in
  let sp := Z.max 0 (width - Z.max precision' (size_of ds) - size_of head) in
  (if has flags PRINT_F_MINUS then (head ++ zeros zp ++ ds ++ spaces sp)%list
   else if has flags PRINT_F_ZERO && (precision =? -1) then (head ++ zeros (zp + sp) ++ ds)%list
   else (spaces sp ++ head ++ zeros zp ++ ds)%list) = int_text head ds' width precision flags.
Proof.
  intros Hw Hp Hp' ds' zp sp. unfold int_text. pose proof (Nat2Z.is_nonneg (List.length ds)) as Hn. fold (size_of ds) in Hn.
  assert ((zeros zp ++ ds)%list = (zeros (precision - size_of ds') ++ ds')%list /\ size_of (zeros (precision - size_of ds') ++ ds') = Z.max precision' (size_of ds)) as [Ez El].
  { unfold ds', zp. destruct Hp' as [->|[H1 ->]].
    - rewrite Z.eqb_refl. split; [|rewrite size_app, size_zeros; lia]. f_equal. destruct (decide (0 <= precision - size_of ds)); [by rewrite Z.max_r|]. rewrite !zeros_none by lia. done.
    - rewrite (proj2 (Z.eqb_neq _ _)) by lia. change (size_of ("0"%char :: ds)) with (Z.of_nat (S (List.length ds))). rewrite Nat2Z.inj_succ. fold (size_of ds).
      rewrite (zeros_none (precision - _)) by lia. cbn [app]. split; [by replace (Z.max 0 (size_of ds + 1 - size_of ds)) with 1 by lia|]. unfold size_of in *. cbn [List.length]. lia. }
  assert (forall f : Z -> chars, (forall n, n <= 0 -> f n = []) -> f sp = f (width - size_of head - size_of (zeros (precision - size_of ds') ++ ds'))) as Hf.
  { intros f Hf. rewrite El. unfold sp. destruct (decide (0 <= width - Z.max precision' (size_of ds) - size_of head)); [f_equal; lia|]. rewrite !Hf by lia. done. }
  destruct (has flags PRINT_F_MINUS); [|destruct (has flags PRINT_F_ZERO && (precision =? -1)) eqn:E0].
  - rewrite <- (Hf spaces spaces_none), <- Ez. by rewrite <- !app_assoc.
  - rewrite <- (Hf zeros zeros_none), <- Ez. f_equal. rewrite app_assoc. f_equal. unfold zeros. rewrite <- replicate_add. f_equal. unfold zp, sp. lia.
  - rewrite <- (Hf spaces spaces_none), <- Ez. done.
Qed.

Lemma fmtint_text value base width precision flags :
  has flags PRINT_F_QUOTE = false -> base = 8 \/ base = 10 \/ base = 16 -> (has flags PRINT_F_UNSIGNED = false -> - 2 ^ 63 < value < 2 ^ 63) -> 0 <= width <= 2 ^ 30 -> -1 <= precision <= 2 ^ 30 ->
  fmtint value base width precision flags = Ok (int_text (sign_of flags value ++ prefix_of base flags value)
    (octal_zero base flags value precision (rev (convert (magnitude flags value) MAX_CONVERT_LENGTH base (has flags PRINT_F_UP)))) width precision flags).
Proof.
  intros Hq Hb Hv Hw Hp. set (u := magnitude flags value). assert (0 <= u < 2 ^ 64) as Hu by (unfold u, magnitude; destruct (has flags PRINT_F_UNSIGNED); [apply wrap_size_range|specialize (Hv eq_refl); lia]).
  unfold fmtint. destruct (sign_magnitude flags value Hv) as (sg & -> & Hsg & Hws). fold u. cbn [mbind res_bind]. rewrite Hq. change (0 <? 0) with false. rewrite group_plain.
  set (ic := convert u MAX_CONVERT_LENGTH base (has flags PRINT_F_UP)). assert (size_of (rev ic) = Z.of_nat (List.length ic)) as Hl by (unfold size_of; by rewrite length_rev).
  assert (0 <= Z.of_nat (List.length ic) <= 43) as Hic by (unfold ic, convert; pose proof (convert_length base (has flags PRINT_F_UP) (Z.to_nat MAX_CONVERT_LENGTH) u) as H; change (Z.to_nat MAX_CONVERT_LENGTH) with 43%nat in *; lia).
  change (has flags PRINT_F_NUM && negb (u =? 0)) with (alternative flags value). set (hp := if alternative flags value && (base =? 16) then Some _ else None).
  assert (match hp with Some c => ["0"%char; c] | None => [] end = prefix_of base flags value /\ width_of hp 2 = size_of (prefix_of base flags value)) as [-> ->] by (unfold hp, prefix_of; by destruct (alternative flags value && (base =? 16))).
  rewrite Hsg, Hws. set (prec' := if alternative flags value && (base =? 8) && _ then _ else precision).
  assert (prec' = precision \/ (precision <= size_of (rev ic) /\ prec' = size_of (rev ic) + 1)) as Hpr.
  { unfold prec'. rewrite Hl. destruct (alternative flags value && (base =? 8)); [|by left]. cbn [andb]. destruct (Z.leb_spec precision (Z.of_nat (List.length ic))); [by right|by left]. }
  assert (octal_zero base flags value precision (rev ic) = if prec' =? precision then rev ic else "0"%char :: rev ic) as ->.
  { unfold octal_zero, prec'. rewrite Hl. destruct (alternative flags value && (base =? 8)); cbn [andb]; [|by rewrite Z.eqb_refl]. destruct (Z.leb_spec precision (Z.of_nat (List.length ic))); [by rewrite (proj2 (Z.eqb_neq _ _)) by lia|by rewrite Z.eqb_refl]. }
  assert (0 <= size_of (sign_of flags value) <= 1) as H1 by apply size_sign.
  assert (0 <= size_of (prefix_of base flags value) <= 2) as H2 by apply size_prefix.
  rewrite <- (padding (sign_of flags value ++ prefix_of base flags value) (rev ic) width precision prec' flags) by lia. cbv zeta. rewrite size_app, Hl. set (pos := Z.of_nat (List.length ic)) in *.
  assert ((if pos <=? prec' then prec' else pos) = Z.max prec' pos) as -> by (destruct (Z.leb_spec pos prec'); lia).
  assert (-1 <= prec' <= 2 ^ 30) as Hp2 by lia. clearbody prec' hp pos. clear Hpr.
  do 6 (rewrite chk_ok by (unfold in_int, int_min, int_max; lia); cbn [mbind res_bind]).
  assert (forall n, (if n <? 0 then 0 else n) = Z.max 0 n) as Hmax by (intros n; destruct (Z.ltb_spec n 0); lia). rewrite !Hmax.
  assert (width - 0 - Z.max prec' pos - size_of (sign_of flags value) - size_of (prefix_of base flags value) = width - Z.max prec' pos - (size_of (sign_of flags value) + size_of (prefix_of base flags value))) as -> by lia.
  rewrite Z.sub_0_r. set (sp := Z.max 0 (width - _ - _)). assert (0 <= sp <= 2 ^ 30) as Hsp by (unfold sp; lia).
  destruct (has flags PRINT_F_MINUS); cbn [mbind res_bind]; [|destruct (has flags PRINT_F_ZERO && (precision =? -1)); [rewrite chk_ok by (unfold in_int, int_min, int_max; lia)|]; cbn [mbind res_bind]].
  - rewrite (spaces_none (- sp)), Z.opp_involutive by lia. cbn [app]. by rewrite <- app_assoc.
  - rewrite !spaces_none by lia. cbn [app]. by rewrite app_nil_r, <- app_assoc.
  - rewrite (spaces_none (- sp)) by lia. by rewrite app_nil_r, <- app_assoc.
Qed.

(** An integer is printed as its sign, its prefix and its digits, padded to the precision
    and to the width. *)
Theorem fmtint_prints value base width precision flags :
  has flags PRINT_F_QUOTE = false -> base = 8 \/ base = 10 \/ base = 16 -> (has flags PRINT_F_UNSIGNED = false -> - 2 ^ 63 < value < 2 ^ 63) -> 0 <= width <= 2 ^ 30 -> -1 <= precision <= 2 ^ 30 ->
  exists ds, numeral base (has flags PRINT_F_UP) (magnitude flags value) ds /\
    fmtint value base width precision flags = Ok (int_text (sign_of flags value ++ prefix_of base flags value) (octal_zero base flags value precision ds) width precision flags).
Proof.
  intros Hq Hb Hv Hw Hp. eexists. split; [|by apply fmtint_text]. apply convert_ok; [done|]. unfold magnitude. destruct (has flags PRINT_F_UNSIGNED); [apply wrap_size_range|specialize (Hv eq_refl); lia].
Qed.


(** ** Strings *)

Lemma strln_ok noprec prec n v : 0 <= n -> n + size_of v <= int_max ->
  strln_loop noprec prec n v = Ok (n + size_of (value_loop noprec (prec - n) v)).
Proof.
  revert n. induction v as [|c v IH]; intros n Hn Hm; cbn [strln_loop value_loop]; [by rewrite Z.add_0_r|]. change (size_of (c :: v)) with (Z.of_nat (S (List.length v))) in Hm. rewrite Nat2Z.inj_succ in Hm. fold (size_of v) in Hm.
  replace (0 <? prec - n) with (n <? prec) by (destruct (Z.ltb_spec n prec), (Z.ltb_spec 0 (prec - n)); lia || done). destruct (noprec || (n <? prec)); [|by rewrite Z.add_0_r].
  assert (0 <= size_of v) by (unfold size_of; lia). rewrite chk_ok by (unfold in_int, int_min; lia). cbn [mbind res_bind]. rewrite IH by lia. replace (prec - (n + 1)) with (prec - n - 1) by lia. unfold size_of. cbn [List.length]. f_equal. lia.
Qed.

Lemma copy_all noprec prec v : value_loop noprec prec v = if noprec then v else take (Z.to_nat prec) v.
Proof.
  revert prec. induction v as [|c v IH]; intros prec; cbn [value_loop]; [by destruct noprec; rewrite ?take_nil|]. rewrite IH. destruct noprec; [done|]. cbn [orb]. destruct (Z.ltb_spec 0 prec); [|by replace (Z.to_nat prec) with 0%nat by lia].
  by replace (Z.to_nat prec) with (S (Z.to_nat (prec - 1))) by lia.
Qed.

(** A string is cut at the precision and padded with spaces to the width. *)
Theorem fmtstr_prints v width precision flags :
  size_of v <= int_max -> 0 <= width <= int_max -> -1 <= precision ->
  fmtstr (Some v) width precision flags =
    Ok (let v := if precision =? -1 then v else take (Z.to_nat precision) v in
        if has flags PRINT_F_MINUS then v ++ spaces (width - size_of v) else spaces (width - size_of v) ++ v)%list.
Proof.
  intros Hv Hw Hp. unfold fmtstr. cbn [default from_option id]. rewrite strln_ok, Z.add_0_l, Z.sub_0_r, copy_all by lia. cbn [mbind res_bind]. set (v' := if precision =? -1 then v else take (Z.to_nat precision) v).
  assert (0 <= size_of v' <= int_max) as H' by (unfold size_of, v' in *; destruct (precision =? -1); rewrite ?length_take; lia). rewrite chk_ok by (unfold in_int, int_min, int_max in *; lia). cbn [mbind res_bind].
  assert ((if width - size_of v' <? 0 then 0 else width - size_of v') = Z.max 0 (width - size_of v')) as -> by (destruct (Z.ltb_spec (width - size_of v') 0); lia).
  assert (forall n, spaces (Z.max 0 n) = spaces n) as Hs by (intros n; destruct (decide (0 <= n)); [by rewrite Z.max_r|]; rewrite !spaces_none by lia; done).
  destruct (has flags PRINT_F_MINUS).
  - rewrite (spaces_none (- _)) by lia. rewrite Z.opp_involutive, Hs. done.
  - rewrite (spaces_none (- _)) by lia. rewrite Hs, app_nil_r. done.
Qed.

(** ** Decimal numbers *)

Lemma convert_print fuel n acc : list_ascii_of_string (print_digits fuel n acc) = (rev (convert_loop fuel n 10 false) ++ list_ascii_of_string acc)%list.
Proof.
  revert n acc. induction fuel as [|fuel IH]; intros n acc; [done|]. cbn [print_digits convert_loop]. pose proof (Z.mod_pos_bound n 10 ltac:(lia)) as Hm.
  assert (digit false (n mod 10) = digit_char (n mod 10)) as -> by (unfold digit; by rewrite (proj2 (Z.ltb_lt _ _)) by lia).
  destruct (n / 10 =? 0); [done|]. rewrite IH. cbn [rev list_ascii_of_string]. by rewrite <- app_assoc.
Qed.

Lemma convert_fuel n k v : 0 <= v < 10 ^ Z.of_nat n -> 0 <= v < 10 ^ Z.of_nat k -> (0 < n)%nat -> (0 < k)%nat -> convert_loop n v 10 false = convert_loop k v 10 false.
Proof.
  revert k v. induction n as [|n IH]; intros [|k] v Hn Hk H1 H2; [lia..|]. cbn [convert_loop]. f_equal. destruct (Z.eqb_spec (v / 10) 0) as [|Hz]; [done|]. rewrite !Nat2Z.inj_succ, !Z.pow_succ_r in * by lia.
  assert (0 < v / 10) as Hq by (assert (0 <= v / 10) by (apply Z.div_pos; lia); lia). assert (v / 10 < 10 ^ Z.of_nat n) by (apply Z.div_lt_upper_bound; lia). assert (v / 10 < 10 ^ Z.of_nat k) by (apply Z.div_lt_upper_bound; lia).
  apply IH; [lia|lia| |]; destruct n, k; simpl in *; lia.
Qed.

Lemma convert_nat v : 0 <= v < 2 ^ 64 -> rev (convert v MAX_CONVERT_LENGTH 10 false) = list_ascii_of_string (print_nat v).
Proof.
  intros Hv. unfold print_nat, convert. rewrite convert_print, app_nil_r. f_equal. apply convert_fuel; [|..|vm_compute; lia|lia].
  - split; [lia|]. eapply Z.lt_le_trans; [apply Hv|]. by vm_compute.
  - split; [lia|]. rewrite Nat2Z.inj_succ, Z2Nat.id by apply Z.log2_nonneg. destruct (decide (v = 0)) as [->|]; [done|]. eapply Z.lt_le_trans; [apply Z.log2_spec; lia|]. apply Z.pow_le_mono_l. lia.
Qed.

(** The format [%d] prints an [int] in decimal. *)
Theorem snprintf_decimal z : in_int z -> vtext "%d" [CInt z] = Ok (list_ascii_of_string (print_int z), false, []).
Proof.
  intros Hz. change "%d" with (print_format [Conv [] None None PRINT_C_NONE "d"]). unfold vtext. rewrite directives_loop; [|by repeat constructor|done]. cbn [run_directives conversion]. unfold conv_int, arg_signed, arg_int. cbn [spec_of cflags next mbind res_bind].
  rewrite wrap_int_id by done. unfold printed, spec_of, flags_of. cbn [width precision flags fold_left default from_option id]. unfold in_int, int_min, int_max in Hz.
  rewrite fmtint_text by (try done; lia). cbn [mbind res_bind app]. do 3 f_equal. change (magnitude 0 z) with (Z.abs z). change (has 0 PRINT_F_UP) with false. rewrite convert_nat by lia.
  unfold int_text, octal_zero, prefix_of, alternative. cbn [has andb]. change (has 0 PRINT_F_NUM) with false. change (has 0 PRINT_F_MINUS) with false. change (has 0 PRINT_F_ZERO) with false. cbn [andb]. rewrite app_nil_r.
  rewrite (zeros_none (-1 - _)) by (unfold size_of; lia). cbn [app]. rewrite spaces_none by (unfold size_of; lia). cbn [app]. unfold sign_of, print_int. change (has 0 PRINT_F_UNSIGNED) with false. change (has 0 PRINT_F_PLUS) with false. change (has 0 PRINT_F_SPACE) with false.
  destruct (Z.ltb_spec z 0); [by rewrite Z.abs_neq by lia|by rewrite Z.abs_eq by lia].
Qed.

(** ** Every format is read to its end *)

(** No loop within a conversion needs fuel. *)
Definition no_fuel {A} (x : res A) : Prop := x <> OutOfFuel.

Lemma nf_bind {A B} (x : res A) (k : A -> res B) : no_fuel x -> (forall a, no_fuel (k a)) -> no_fuel (x ≫= k).
Proof. intros Hx Hk. destruct x; [apply Hk|done|done|by destruct Hx]. Qed.

Lemma nf_chk z : no_fuel (chk z).
Proof. unfold chk. by case_decide. Qed.

Create HintDb nofuel.
#[local] Hint Resolve nf_chk : nofuel.

Ltac nf := repeat first [ apply nf_bind; [|intros ?] | progress (cbn zeta) | case_match | solve [eauto with nofuel] | done ].

Lemma nf_strln b p n v : no_fuel (strln_loop b p n v).
Proof. revert n. induction v as [|c v IH]; intros n; cbn [strln_loop]; [done|]. case_match; [|done]. apply nf_bind; [apply nf_chk|intros m; apply IH]. Qed.
#[local] Hint Resolve nf_strln : nofuel.

Lemma nf_fmtstr v w p f : no_fuel (fmtstr v w p f).
Proof. unfold fmtstr. nf. Qed.

Lemma nf_fmtint v b w p f : no_fuel (fmtint v b w p f).
Proof. unfold fmtint. nf. Qed.

Lemma nf_uintmax x : no_fuel (to_uintmax x).
Proof. unfold to_uintmax. nf. Qed.
#[local] Hint Resolve nf_fmtstr nf_fmtint nf_uintmax : nofuel.

Lemma nf_cast x : no_fuel (cast x).
Proof. unfold cast. nf. Qed.
#[local] Hint Resolve nf_cast : nofuel.

Lemma nf_parts x e p n : no_fuel (parts x e p n).
Proof. unfold parts, myround. nf. Qed.

Lemma nf_put_float sg e o i fr ex w p f : no_fuel (put_float sg e o i fr ex w p f).
Proof. unfold put_float. case_match. nf. Qed.
#[local] Hint Resolve nf_parts nf_put_float : nofuel.

Lemma nf_fmtflt x w p f : no_fuel (fmtflt x w p f).
Proof.
  unfold fmtflt. set (sg := if dlt x d0 then _ else _). clearbody sg. destruct (if ISNAN x then _ else _) as [s|]; [apply nf_bind; [apply nf_fmtstr|done]|].
  cbv zeta. apply nf_bind; [apply nf_parts|]. intros [[[i fr] e]|]; [|done]. destruct (_ && _ && _); [|apply nf_bind; [apply nf_put_float|done]].
  apply nf_bind; [apply nf_parts|]. intros [[[i' fr'] e']|]; [|done]. apply nf_bind; [apply nf_put_float|done].
Qed.

Lemma nf_next args : no_fuel (next args).
Proof. by destruct args. Qed.
#[local] Hint Resolve nf_fmtflt nf_next : nofuel.

Lemma nf_args args : no_fuel (arg_int args) /\ no_fuel (arg_uint args) /\ no_fuel (arg_long args).
Proof. unfold arg_int, arg_uint, arg_long. split_and!; nf. Qed.

Lemma nf_signed m args : no_fuel (arg_signed m args).
Proof. destruct (nf_args args) as (? & ? & ?). unfold arg_signed. nf. Qed.

Lemma nf_unsigned m args : no_fuel (arg_unsigned m args).
Proof. destruct (nf_args args) as (? & ? & ?). unfold arg_unsigned. nf. Qed.
#[local] Hint Resolve nf_signed nf_unsigned : nofuel.

Lemma nf_conversion ch p n args : no_fuel (conversion ch p n args).
Proof.
  destruct (nf_args args) as (? & ? & ?). unfold conversion, conv_general, conv_float, conv_uint, conv_int, printed.
  destruct ch as [[] [] [] [] [] [] [] []]; nf.
Qed.

(** The rounds a character can still stay. *)
Definition rank (p : spec) : nat :=
  match state p with PRINT_S_DEFAULT => 1 | PRINT_S_FLAGS => 5 | PRINT_S_WIDTH => 4 | PRINT_S_DOT => 3 | PRINT_S_PRECISION => 3 | PRINT_S_MOD => 2 | PRINT_S_CONV => 1 end.

Lemma rank_bound p : (1 <= rank p <= 5)%nat.
Proof. unfold rank. destruct (state p); lia. Qed.

Lemma plan_rank n ch rest p args next t outs : plan n ch rest p args = Ok (next, t, outs) ->
  match next with
  | Some (s', p', _) => (String.length s' <= String.length rest)%nat \/ (s' = String ch rest /\ (rank p' < rank p)%nat)
  | None => True
  end.
Proof.
  unfold plan, step, text_out. destruct p as [st z w pr m]. cbn [state width precision]. destruct st.
  - destruct (Ascii.eqb ch "%"); [intros [= <- _ _]; by left|]. cbn. intros [= <- _ _]. by left.
  - destruct (flag_of ch); intros [= <- _ _]; [by left|]. right. split; [done|]. unfold rank. cbn. lia.
  - destruct (ISDIGIT ch); [destruct (add_digit w ch); intros [= <- _ _]; [by left|done]|]. destruct (Ascii.eqb ch "*").
    + intros ([k args'] & _ & H)%res_bind_inv. destruct (k <? 0); [apply res_bind_inv in H as (k' & _ & H)|]; injection H as <- _ _; by left.
    + intros [= <- _ _]. right. split; [done|]. unfold rank. cbn. lia.
  - destruct (Ascii.eqb ch "."); intros [= <- _ _]; [by left|]. right. split; [done|]. unfold rank. cbn. lia.
  - destruct (ISDIGIT ch); [destruct (add_digit _ ch); intros [= <- _ _]; [by left|done]|]. destruct (Ascii.eqb ch "*").
    + intros ([k args'] & _ & H)%res_bind_inv. injection H as <- _ _. by left.
    + intros [= <- _ _]. right. split; [done|]. unfold rank. cbn. lia.
  - destruct (modifier_of ch rest) as [[c s]|] eqn:E; intros [= <- _ _].
    + left. unfold modifier_of in E. repeat case_match; simplify_eq; simpl; lia.
    + right. split; [done|]. unfold rank. cbn. lia.
  - intros ([[l args'] more] & _ & H)%res_bind_inv. destruct l as [l|]; [|by injection H as <- _ _]. apply res_bind_inv in H as (o & _ & H). injection H as <- _ _. by left.
Qed.

Lemma nf_plan n ch rest p args : no_fuel (plan n ch rest p args).
Proof.
  pose proof (fun l => nf_args l) as Ha. unfold plan, step, text_out. destruct (state p); cbn zeta; repeat case_match; try done.
  - apply nf_bind; [apply Ha|]. intros [k args']. case_match; [|done]. apply nf_bind; [apply nf_chk|done].
  - apply nf_bind; [apply Ha|]. by intros [k args'].
  - apply nf_bind; [apply Ha|]. by intros [k args'].
  - apply nf_bind; [apply nf_conversion|]. intros [[[l|] args'] more]; [|done]. fold text_out. rewrite emits_text. done.
Qed.

(** The rounds that are allowed are enough for every format and all arguments. *)
Theorem vsnprintf_terminates format args : vtext format args <> OutOfFuel.
Proof.
  unfold vtext. generalize (@nil (Z * Z)). generalize (@nil ascii). generalize dependent args.
  assert (forall fuel s p t args outs, (6 * String.length s <= fuel + 6 - rank p)%nat -> loop text_out size_of fuel s p t args outs <> OutOfFuel) as Hl.
  { induction fuel as [|fuel IH]; intros [|ch rest] p t args outs Hf; try done; pose proof (rank_bound p) as Hr; [simpl in Hf; lia|]. cbn [loop]. rewrite step_plan.
    pose proof (nf_plan (size_of t) ch rest p args) as Hn. pose proof (plan_rank (size_of t) ch rest p args) as Hrk. destruct (plan (size_of t) ch rest p args) as [[[next l] more]| | |]; [|done..]. cbn [mbind res_bind]. rewrite emits_text. cbn [mbind res_bind].
    specialize (Hrk next l more eq_refl). destruct next as [[[s' p'] args']|]; [|done]. apply IH. pose proof (rank_bound p') as Hr'. simpl in Hf. destruct Hrk as [Hs|[-> Hp]]; [lia|]. simpl. lia. }
  intros args t outs. apply Hl. unfold rounds, rank, start. cbn [state]. lia.
Qed.

(** ** What C prints *)

(** The text of a directive as C99 describes it (7.19.6.1), for the conversions of integers,
    characters, strings and pointers.  Two cases are left out in which the code does not
    print what C99 asks for: a zero with precision 0, and a width of the conversion [c]. *)

(** The digits of a number, the highest first. *)
Inductive written (table : string) (base : Z) : Z -> chars -> Prop :=
  | written_digit d c : 0 <= d < base -> String.get (Z.to_nat d) table = Some c -> written table base d [c]
  | written_more n d c l : 0 < n -> written table base n l -> 0 <= d < base -> String.get (Z.to_nat d) table = Some c -> written table base (n * base + d) (l ++ [c]).

Definition small_digits : string := "0123456789abcdef".
Definition large_digits : string := "0123456789ABCDEF".

(** The flags [-], [+], space, [#] and [0] in any order; numbers that are not too large. *)
Record plain_spec (fl : chars) (w pr : option Z) : Prop := {
  ps_flags : Forall (fun f => f ∈ ["-"; "+"; " "; "#"; "0"]%char) fl;
  ps_width : forall n, w = Some n -> 0 < n <= 2 ^ 30;
  ps_precision : forall n, pr = Some n -> 0 <= n <= 2 ^ 30 }.

(** The field is filled up to the width: behind the text, in front of it, or with zeros
    between the sign or prefix and the digits. *)
Definition in_field (fl : chars) (w : option Z) (zeros_allowed : bool) (head body : chars) : chars :=
  let missing := Z.to_nat (default 0 w - size_of head - size_of body) in
  if decide ("-"%char ∈ fl) then (head ++ body ++ replicate missing " "%char)%list
  else if decide ("0"%char ∈ fl) then
    if zeros_allowed then (head ++ replicate missing "0"%char ++ body)%list else (replicate missing " "%char ++ head ++ body)%list
  else (replicate missing " "%char ++ head ++ body)%list.

(** The precision is the least number of digits. *)
Definition at_least (pr : option Z) (digits : chars) : chars :=
  (replicate (Z.to_nat (default 0 pr - size_of digits)) "0"%char ++ digits)%list.

Definition no_precision (pr : option Z) : bool := match pr with None => true | Some _ => false end.

Definition sign_text (fl : chars) (z : Z) : chars :=
  if decide (z < 0) then ["-"%char]
  else if decide ("+"%char ∈ fl) then ["+"%char]
  else if decide (" "%char ∈ fl) then [" "%char] else [].

(** The conversions of unsigned numbers: base, digits, and the prefix of the alternative form. *)
Inductive radix : ascii -> Z -> string -> chars -> Prop :=
  | radix_u : radix "u" 10 small_digits []
  | radix_o : radix "o" 8 small_digits []
  | radix_x : radix "x" 16 small_digits ["0"; "x"]%char
  | radix_X : radix "X" 16 large_digits ["0"; "X"]%char.

Definition alternative_head (fl : chars) (prefix : chars) (n : Z) : chars :=
  if decide ("#"%char ∈ fl /\ n <> 0) then prefix else [].

(** The alternative form of an octal number has a zero as its first digit. *)
Definition alternative_digits (fl : chars) (base n : Z) (digits : chars) : chars :=
  if decide (base = 8 /\ "#"%char ∈ fl /\ n <> 0 /\ head digits <> Some "0"%char) then "0"%char :: digits else digits.

(** The value that an argument has for a signed and for an unsigned conversion: the
    argument of a narrow type is an [int] and is reduced to the type. *)
Definition narrow (range : Z) (a : carg) (z : Z) : Prop := exists v, a = CInt v /\ (range | v - z).
Definition signed_value (m : modifier) (a : carg) (z : Z) : Prop :=
  match m with
  | PRINT_C_NONE => narrow (2 ^ 32) a z /\ - 2 ^ 31 <= z < 2 ^ 31
  | PRINT_C_CHAR => narrow (2 ^ 8) a z /\ - 2 ^ 7 <= z < 2 ^ 7
  | PRINT_C_SHORT => narrow (2 ^ 16) a z /\ - 2 ^ 15 <= z < 2 ^ 15
  | PRINT_C_LONG | PRINT_C_SIZE | PRINT_C_PTRDIFF | PRINT_C_INTMAX => a = CLong z /\ - 2 ^ 63 < z < 2 ^ 63
  | PRINT_C_LDOUBLE => False
  end.
Definition unsigned_value (m : modifier) (a : carg) (n : Z) : Prop :=
  match m with
  | PRINT_C_NONE => narrow (2 ^ 32) a n /\ 0 <= n < 2 ^ 32
  | PRINT_C_CHAR => narrow (2 ^ 8) a n /\ 0 <= n < 2 ^ 8
  | PRINT_C_SHORT => narrow (2 ^ 16) a n /\ 0 <= n < 2 ^ 16
  | PRINT_C_LONG | PRINT_C_SIZE | PRINT_C_PTRDIFF | PRINT_C_INTMAX => a = CLong n /\ 0 <= n < 2 ^ 64
  | PRINT_C_LDOUBLE => False
  end.

Definition string_text (s : option string) : chars := list_ascii_of_string (default "(null)" s).
Definition cut (pr : option Z) (l : chars) : chars := match pr with Some n => take (Z.to_nat n) l | None => l end.

(** A directive turns the arguments into its text and the arguments that are left. *)
Inductive says : directive -> list carg -> chars -> list carg -> Prop :=
  | says_lit c args :
      c <> "%"%char -> says (Lit c) args [c] args
  | says_percent args :
      says (Conv [] None None PRINT_C_NONE "%") args ["%"%char] args
  | says_signed fl w pr m c a args z ds :
      plain_spec fl w pr -> c = "d"%char \/ c = "i"%char -> signed_value m a z -> (pr = Some 0 -> z <> 0) -> written small_digits 10 (Z.abs z) ds ->
      says (Conv fl w pr m c) (a :: args) (in_field fl w (no_precision pr) (sign_text fl z) (at_least pr ds)) args
  | says_unsigned fl w pr m c a args n base table prefix ds :
      plain_spec fl w pr -> radix c base table prefix -> unsigned_value m a n -> (pr = Some 0 -> n <> 0) -> written table base n ds ->
      says (Conv fl w pr m c) (a :: args) (in_field fl w (no_precision pr) (alternative_head fl prefix n) (alternative_digits fl base n (at_least pr ds))) args
  | says_char fl pr v args c :
      plain_spec fl None pr -> (2 ^ 8 | v - Z.of_nat (nat_of_ascii c)) ->
      says (Conv fl None pr PRINT_C_NONE "c") (CInt v :: args) [c] args
  | says_string fl w pr s args :
      plain_spec fl w pr -> size_of (string_text s) <= int_max ->
      says (Conv fl w pr PRINT_C_NONE "s") (CStr s :: args) (in_field fl w false [] (cut pr (string_text s))) args
  | says_null fl w args :
      plain_spec fl w None -> says (Conv fl w None PRINT_C_NONE "p") (CPtr 0 :: args) (in_field fl w false [] (list_ascii_of_string "(nil)")) args
  | says_pointer fl w n args ds :
      plain_spec fl w None -> 0 < n < 2 ^ 64 -> written small_digits 16 n ds ->
      says (Conv fl w None PRINT_C_NONE "p") (CPtr n :: args) (in_field fl w true ["0"; "x"]%char ds) args.

(** More arguments than the format asks for are ignored. *)
Inductive says_all : list directive -> list carg -> chars -> Prop :=
  | says_nothing args : says_all [] args []
  | says_next d ds args t args' t' : says d args t args' -> says_all ds args' t' -> says_all (d :: ds) args (t ++ t').

(** *** The code prints it *)

Lemma has_lor a b f : has (Z.lor a b) f = has a f || has b f.
Proof.
  unfold has. rewrite Z.land_lor_distr_l. destruct (Z.eqb_spec (Z.land a f) 0) as [->|Ha]; [by rewrite Z.lor_0_l|]. cbn [negb orb].
  destruct (Z.eqb_spec (Z.lor (Z.land a f) (Z.land b f)) 0) as [[H _]%Z.lor_eq_0_iff|]; done.
Qed.

Lemma has_flags fl f c : (forall x, has (default 0 (flag_of x)) f = Ascii.eqb x c) -> has (flags_of fl) f = bool_decide (c ∈ fl).
Proof.
  intros Hf. unfold flags_of. assert (forall z, has (fold_left (fun z x => Z.lor z (default 0 (flag_of x))) fl z) f = has z f || bool_decide (c ∈ fl)) as H; [|by rewrite H].
  induction fl as [|x fl IH]; intros z; cbn [fold_left]; [by rewrite bool_decide_eq_false_2, orb_false_r by apply not_elem_of_nil|].
  rewrite IH, has_lor, Hf, <- orb_assoc. f_equal. destruct (Ascii.eqb_spec x c) as [->|Hx]; cbn [orb].
  - symmetry. apply bool_decide_eq_true_2. left.
  - apply bool_decide_ext. rewrite elem_of_cons. naive_solver.
Qed.

Ltac flag_char := intros [[] [] [] [] [] [] [] []]; reflexivity.
Lemma has_minus fl : has (flags_of fl) PRINT_F_MINUS = bool_decide ("-"%char ∈ fl).
Proof. apply has_flags. flag_char. Qed.
Lemma has_plus fl : has (flags_of fl) PRINT_F_PLUS = bool_decide ("+"%char ∈ fl).
Proof. apply has_flags. flag_char. Qed.
Lemma has_space fl : has (flags_of fl) PRINT_F_SPACE = bool_decide (" "%char ∈ fl).
Proof. apply has_flags. flag_char. Qed.
Lemma has_num fl : has (flags_of fl) PRINT_F_NUM = bool_decide ("#"%char ∈ fl).
Proof. apply has_flags. flag_char. Qed.
Lemma has_zero fl : has (flags_of fl) PRINT_F_ZERO = bool_decide ("0"%char ∈ fl).
Proof. apply has_flags. flag_char. Qed.
Lemma has_quote fl : has (flags_of fl) PRINT_F_QUOTE = bool_decide ("'"%char ∈ fl).
Proof. apply has_flags. flag_char. Qed.

(** No character sets a flag of a conversion. *)
Lemma has_internal fl f : (forall x, has (default 0 (flag_of x)) f = false) -> has (flags_of fl) f = false.
Proof.
  intros Hf. unfold flags_of. assert (forall z, has z f = false -> has (fold_left (fun z x => Z.lor z (default 0 (flag_of x))) fl z) f = false) as H; [|by apply H].
  induction fl as [|x fl IH]; intros z Hz; cbn [fold_left]; [done|]. apply IH. by rewrite has_lor, Hz, Hf.
Qed.
Lemma has_up fl : has (flags_of fl) PRINT_F_UP = false.
Proof. apply has_internal. flag_char. Qed.
Lemma has_unsigned fl : has (flags_of fl) PRINT_F_UNSIGNED = false.
Proof. apply has_internal. flag_char. Qed.

(** **** Digits *)

Definition table_of (caps : bool) : string := if caps then large_digits else small_digits.

Lemma table_digit caps d : 0 <= d < 16 -> String.get (Z.to_nat d) (table_of caps) = Some (digit caps d).
Proof.
  intros Hd. assert (Forall (fun d => String.get (Z.to_nat d) (table_of caps) = Some (digit caps d)) (seqZ 0 16)) as H by (destruct caps; by repeat constructor).
  apply (proj1 (Forall_forall _ _) H d), elem_of_seqZ. lia.
Qed.

Lemma written_nonneg table base n l : written table base n l -> 0 <= n.
Proof. induction 1; nia. Qed.

Lemma written_convert_loop caps base v l : 2 <= base <= 16 -> written (table_of caps) base v l ->
  forall k, (0 < k)%nat -> v < base ^ Z.of_nat k -> rev (convert_loop k v base caps) = l.
Proof.
  intros Hb. induction 1 as [d c Hd Hc|n d c l Hn Hw IH Hd Hc]; intros [|k] Hk Hv; [lia| |lia|]; rewrite table_digit in Hc by lia; injection Hc as <-; cbn [convert_loop].
  - by rewrite Z.mod_small, Z.div_small by lia.
  - rewrite Z.add_comm, Z_mod_plus_full, Z_div_plus_full, Z.mod_small, Z.div_small, Z.add_0_l by lia. rewrite (proj2 (Z.eqb_neq n 0)) by lia. cbn [rev]. rewrite Nat2Z.inj_succ, Z.pow_succ_r in Hv by lia.
    assert (n < base ^ Z.of_nat k) by nia. rewrite IH; [done| |done]. destruct k; simpl in *; lia.
Qed.

Lemma written_convert caps base v l : base = 8 \/ base = 10 \/ base = 16 -> written (table_of caps) base v l -> v < 2 ^ 64 ->
  rev (convert v MAX_CONVERT_LENGTH base caps) = l.
Proof.
  intros Hb Hw Hv. unfold convert. apply written_convert_loop; [lia|done|vm_compute; lia|]. eapply Z.lt_le_trans; [apply Hv|]. by destruct Hb as [->|[->| ->]]; vm_compute.
Qed.

(** A positive number does not start with a zero. *)
Lemma written_head base v l : 2 <= base <= 16 -> written small_digits base v l -> 0 < v -> exists c k, l = c :: k /\ c <> "0"%char.
Proof.
  intros Hb. induction 1 as [d c Hd Hc|n d c l Hn Hw IH Hd Hc]; intros Hv.
  - exists c, []. split; [done|]. intros ->. change small_digits with (table_of false) in Hc. rewrite table_digit in Hc by lia. injection Hc as Hc. apply (f_equal digit_num) in Hc. rewrite digit_num_digit in Hc by lia. change (digit_num "0") with 0 in Hc. lia.
  - destruct (IH Hn) as (c' & k & -> & H). by exists c', (k ++ [c])%list.
Qed.

(** **** Padding *)

Lemma size_nonneg l : 0 <= size_of l.
Proof. unfold size_of. lia. Qed.

Lemma precision_none pr : (forall n, pr = Some n -> 0 <= n <= 2 ^ 30) -> (default (-1) pr =? -1) = no_precision pr.
Proof. intros Hp. destruct pr as [n|]; [|done]. specialize (Hp n eq_refl). apply Z.eqb_neq. simpl. lia. Qed.

Lemma int_field fl w pr flags head ds :
  has flags PRINT_F_MINUS = bool_decide ("-"%char ∈ fl) -> has flags PRINT_F_ZERO = bool_decide ("0"%char ∈ fl) -> plain_spec fl w pr ->
  int_text head ds (default 0 w) (default (-1) pr) flags = in_field fl w (no_precision pr) head (at_least pr ds).
Proof.
  intros Hm Hz [_ _ Hp]. unfold int_text, in_field. rewrite Hm, Hz, precision_none by done.
  assert ((zeros (default (-1) pr - size_of ds) ++ ds)%list = at_least pr ds) as ->.
  { unfold at_least, zeros. do 2 f_equal. pose proof (size_nonneg ds). destruct pr; simpl; lia. }
  do 2 case_decide; rewrite ?bool_decide_eq_true_2, ?bool_decide_eq_false_2 by done; cbn [andb]; done.
Qed.

Lemma octal_digits fl flags base value pr ds : has flags PRINT_F_NUM = bool_decide ("#"%char ∈ fl) -> 0 <= magnitude flags value -> 2 <= base <= 16 ->
  (base = 8 -> written small_digits base (magnitude flags value) ds) -> (forall n, pr = Some n -> 0 <= n <= 2 ^ 30) ->
  at_least pr (octal_zero base flags value (default (-1) pr) ds) = alternative_digits fl base (magnitude flags value) (at_least pr ds).
Proof.
  intros Hn Hv Hb Hw Hp. unfold octal_zero, alternative_digits, alternative. rewrite Hn. destruct (Z.eqb_spec base 8) as [->|Hb8].
  2: { rewrite andb_false_r. by rewrite decide_False by tauto. }
  specialize (Hw eq_refl). destruct (Z.eqb_spec (magnitude flags value) 0) as [H0|H0]; [cbn [negb]; rewrite !andb_false_r, decide_False by tauto; done|]. rewrite !andb_true_r.
  destruct (decide ("#"%char ∈ fl)) as [Hf|Hf]; [rewrite bool_decide_eq_true_2 by done|rewrite bool_decide_eq_false_2, decide_False by tauto; done]. cbn [andb].
  destruct (written_head 8 _ ds Hb Hw) as (c & k & -> & Hc); [lia|]. pose proof (size_nonneg k) as Hk. assert (size_of (c :: k) = size_of k + 1) as Hs by (unfold size_of; cbn [List.length]; lia).
  assert (size_of ("0"%char :: c :: k) = size_of k + 2) as Hs2 by (unfold size_of; cbn [List.length]; lia). unfold at_least. rewrite Hs.
  destruct (Z.leb_spec (default (-1) pr) (size_of k + 1)) as [Hle|Hgt].
  - rewrite Hs2. replace (Z.to_nat (default 0 pr - (size_of k + 2))) with 0%nat by (destruct pr; simpl in *; lia). replace (Z.to_nat (default 0 pr - (size_of k + 1))) with 0%nat by (destruct pr; simpl in *; lia). cbn [replicate app head].
    rewrite decide_True by (split_and!; [done..|]; by intros [= ->]). done.
  - rewrite Hs. destruct pr as [n|]; simpl in Hgt; [|lia]. simpl default. replace (Z.to_nat (n - (size_of k + 1))) with (S (Z.to_nat (n - (size_of k + 2)))) by lia. cbn [replicate app head]. by rewrite decide_False by tauto.
Qed.

(** **** Arguments *)

Lemma mod_signed k v z : 0 < k -> (2 * k | v - z) -> - k <= z < k -> (v + k) mod (2 * k) - k = z.
Proof. intros Hk [q Hq] Hz. replace (v + k) with (z + k + q * (2 * k)) by lia. rewrite Z_mod_plus_full, Z.mod_small; lia. Qed.

Lemma mod_unsigned k v n : (k | v - n) -> 0 <= n < k -> v mod k = n.
Proof. intros [q Hq] Hn. replace v with (n + q * k) by lia. rewrite Z_mod_plus_full, Z.mod_small; lia. Qed.

Lemma wrap_int_divide v : (2 ^ 32 | v - wrap_int v).
Proof. unfold wrap_int. exists ((v + 2 ^ 31) / 2 ^ 32). pose proof (Z.div_mod (v + 2 ^ 31) (2 ^ 32) ltac:(lia)). lia. Qed.

Lemma wrap_u32_divide v : (2 ^ 32 | v - wrap_u32 v).
Proof. unfold wrap_u32. exists (v / 2 ^ 32). pose proof (Z.div_mod v (2 ^ 32) ltac:(lia)). lia. Qed.

(** Reducing to 32 bits first does not change the lower bits. *)
Lemma divide_through k v u z : (k | 2 ^ 32) -> (2 ^ 32 | v - u) -> (k | v - z) -> (k | u - z).
Proof. intros H1 H2 H3. replace (u - z) with ((v - z) - (v - u)) by lia. apply Z.divide_sub_r; [done|]. by apply (Z.divide_trans _ (2 ^ 32)). Qed.

Lemma arg_signed_value m a z args : signed_value m a z -> arg_signed m (a :: args) = Ok (z, args) /\ - 2 ^ 63 < z < 2 ^ 63.
Proof.
  destruct m; cbn [signed_value]; try done; [intros [(v & -> & Hd) Hz]..|intros [-> Hz]|intros [-> Hz]|intros [-> Hz]|intros [-> Hz]];
    unfold arg_signed, arg_int, arg_long, next; cbn [mbind res_bind]; (split; [|lia]); do 2 f_equal.
  - by apply (mod_signed (2 ^ 31)).
  - apply (mod_signed (2 ^ 7)); [done| |done]. apply (divide_through _ v); [by exists (2 ^ 24)|apply wrap_int_divide|done].
  - apply (mod_signed (2 ^ 15)); [done| |done]. apply (divide_through _ v); [by exists (2 ^ 16)|apply wrap_int_divide|done].
  - unfold wrap_i64. rewrite Z.mod_small; lia.
  - unfold wrap_i64. rewrite Z.mod_small; lia.
  - unfold wrap_i64. rewrite Z.mod_small; lia.
  - unfold wrap_i64. rewrite Z.mod_small; lia.
Qed.

Lemma wrap_i64_size n : 0 <= n < 2 ^ 64 -> wrap_size (wrap_i64 n) = n.
Proof.
  intros Hn. apply mod_unsigned; [|done]. unfold wrap_i64. exists (- ((n + 2 ^ 63) / 2 ^ 64)). pose proof (Z.div_mod (n + 2 ^ 63) (2 ^ 64) ltac:(lia)). lia.
Qed.

Lemma arg_unsigned_value m a n args : unsigned_value m a n -> exists v, arg_unsigned m (a :: args) = Ok (v, args) /\ wrap_size v = n /\ 0 <= n < 2 ^ 64.
Proof.
  assert (forall k v, (k | 2 ^ 32) -> (k | v - n) -> 0 <= n < k -> wrap_u32 v mod k = n) as Hr.
  { intros k v Hk Hd Hn. apply mod_unsigned; [|done]. by apply (divide_through _ v); [|apply wrap_u32_divide|]. }
  destruct m; cbn [unsigned_value]; try done; [intros [(v & -> & Hd) Hz]..|intros [-> Hz]|intros [-> Hz]|intros [-> Hz]|intros [-> Hz]];
    unfold arg_unsigned, arg_uint, arg_long, next; cbn [mbind res_bind]; eexists; (split; [done|]); (split; [|lia]); try by apply wrap_i64_size.
  - unfold wrap_u32. rewrite (mod_unsigned (2 ^ 32) v n) by done. apply wrap_size_id. lia.
  - rewrite Hr by (done || by exists (2 ^ 24)). apply wrap_size_id. lia.
  - rewrite Hr by (done || by exists (2 ^ 16)). apply wrap_size_id. lia.
Qed.

(** **** Conversions *)

Lemma plain_numbers fl w pr : plain_spec fl w pr -> 0 <= default 0 w <= 2 ^ 30 /\ -1 <= default (-1) pr <= 2 ^ 30.
Proof. intros [_ Hw Hp]. split; [destruct w as [n|]|destruct pr as [n|]]; simpl; try lia; [specialize (Hw n eq_refl)|specialize (Hp n eq_refl)]; lia. Qed.

Lemma plain_quote fl w pr : plain_spec fl w pr -> has (flags_of fl) PRINT_F_QUOTE = false.
Proof. intros [Hf _ _]. rewrite has_quote. apply bool_decide_eq_false_2. intros H. apply (proj1 (Forall_forall _ _) Hf) in H. set_solver. Qed.

Lemma signed_text fl w pr z ds : plain_spec fl w pr -> - 2 ^ 63 < z < 2 ^ 63 -> written small_digits 10 (Z.abs z) ds ->
  fmtint z 10 (default 0 w) (default (-1) pr) (flags_of fl) = Ok (in_field fl w (no_precision pr) (sign_text fl z) (at_least pr ds)).
Proof.
  intros Hs Hz Hw. destruct (plain_numbers fl w pr Hs) as [H1 H2]. rewrite fmtint_text by (eauto using plain_quote). rewrite has_up. f_equal.
  assert (magnitude (flags_of fl) z = Z.abs z) as -> by (unfold magnitude; by rewrite has_unsigned).
  rewrite (written_convert false 10 _ ds) by (auto; lia). unfold prefix_of, octal_zero. rewrite !andb_false_r. cbn [andb]. rewrite app_nil_r.
  rewrite (int_field fl) by (done || apply has_minus || apply has_zero). f_equal. unfold sign_of, sign_text. rewrite has_unsigned, has_plus, has_space.
  destruct (Z.ltb_spec z 0); [by rewrite decide_True by done|rewrite decide_False by lia]. unfold bool_decide. by repeat case_decide.
Qed.

(** The flags of an unsigned conversion are those of the directive and its own. *)
Lemma unsigned_text fl w pr flags caps base prefix v n ds :
  plain_spec fl w pr -> (forall f, f ∈ [PRINT_F_MINUS; PRINT_F_ZERO; PRINT_F_QUOTE] -> has flags f = has (flags_of fl) f) -> has flags PRINT_F_UNSIGNED = true -> has flags PRINT_F_UP = caps ->
  base = 8 /\ prefix = [] /\ caps = false \/ base = 10 /\ prefix = [] \/ base = 16 /\ prefix = ["0"%char; if caps then "X"%char else "x"%char] -> wrap_size v = n -> written (table_of caps) base n ds ->
  forall altfl, has flags PRINT_F_NUM = bool_decide ("#"%char ∈ altfl) ->
  fmtint v base (default 0 w) (default (-1) pr) flags = Ok (in_field fl w (no_precision pr) (alternative_head altfl prefix n) (alternative_digits altfl base n (at_least pr ds))).
Proof.
  intros Hs Hf Hu Hc Hb <- Hw altfl Hn. destruct (plain_numbers fl w pr Hs) as [H1 H2]. pose proof (wrap_size_range v) as Hr.
  assert (has flags PRINT_F_QUOTE = false) as Hq by (rewrite Hf by set_solver; by eapply plain_quote).
  assert (magnitude flags v = wrap_size v) as Hm by (unfold magnitude; by rewrite Hu).
  rewrite fmtint_text by (done || lia || by rewrite Hu). f_equal. rewrite Hm, Hc, (written_convert caps base _ ds) by (done || lia).
  rewrite (int_field fl) by (done || (rewrite Hf by set_solver; (apply has_minus || apply has_zero))).
  rewrite (octal_digits altfl), Hm; [|done|rewrite Hm; lia|lia|rewrite Hm; intros ->; by destruct Hb as [(_ & _ & ->)|[[? _]|[? _]]]|apply Hs]. f_equal.
  unfold sign_of, prefix_of, alternative, alternative_head. rewrite Hu, Hn, Hc, Hm. cbn [app].
  destruct (Z.eqb_spec (wrap_size v) 0) as [H0|H0]; cbn [negb]; [rewrite !andb_false_r, decide_False by tauto; done|]. rewrite andb_true_r.
  destruct (decide ("#"%char ∈ altfl)) as [Ha|Ha]; [rewrite bool_decide_eq_true_2, decide_True by done|rewrite bool_decide_eq_false_2, decide_False by tauto; done].
  by destruct Hb as [(-> & -> & _)|[[-> ->]|[-> ->]]].
Qed.

Lemma string_field fl w pr v : plain_spec fl w pr -> size_of v <= int_max ->
  fmtstr (Some v) (default 0 w) (default (-1) pr) (flags_of fl) = Ok (in_field fl w false [] (cut pr v)).
Proof.
  intros Hs Hv. destruct (plain_numbers fl w pr Hs) as [H1 H2]. rewrite fmtstr_prints by (unfold int_max in *; lia). f_equal. rewrite (precision_none pr) by apply Hs.
  assert ((if no_precision pr then v else take (Z.to_nat (default (-1) pr)) v) = cut pr v) as -> by by destruct pr. unfold in_field, spaces. rewrite has_minus. cbn [app]. rewrite Z.sub_0_r.
  unfold bool_decide. by repeat case_decide.
Qed.

Lemma unsigned_conversion fl w pr m p base caps prefix a args n ds :
  plain_spec fl w pr -> p = spec_of PRINT_S_CONV fl w pr m \/ p = with_flag (spec_of PRINT_S_CONV fl w pr m) PRINT_F_UP -> has (flags p) PRINT_F_UP = caps ->
  base = 8 /\ prefix = [] /\ caps = false \/ base = 10 /\ prefix = [] \/ base = 16 /\ prefix = ["0"%char; if caps then "X"%char else "x"%char] -> unsigned_value m a n -> written (table_of caps) base n ds ->
  conv_uint p base (a :: args) = Ok (Some (in_field fl w (no_precision pr) (alternative_head fl prefix n) (alternative_digits fl base n (at_least pr ds))), args, []).
Proof.
  intros Hs Hp Hc Hb Ha Hw. destruct (arg_unsigned_value m a n args Ha) as (v & Hv & Hn & _).
  assert (cflags p = m /\ width p = default 0 w /\ precision p = default (-1) pr /\ forall f, f <> PRINT_F_UP -> f ∈ [PRINT_F_MINUS; PRINT_F_ZERO; PRINT_F_QUOTE; PRINT_F_NUM] -> has (flags p) f = has (flags_of fl) f) as (Em & Ew & Ep & Ef).
  { destruct Hp as [-> | ->]; (split_and!; [done..|]); intros f _ Hf; [done|]. cbn [with_flag flags spec_of]. rewrite has_lor. assert (has PRINT_F_UP f = false) as -> by (repeat (apply elem_of_cons in Hf as [->|Hf]; [done|]); by apply elem_of_nil in Hf). apply orb_false_r. }
  unfold conv_uint, printed. cbn [with_flag cflags width precision flags]. rewrite Em, Hv. cbn [mbind res_bind]. rewrite Ew, Ep.
  assert (forall f, f ∈ [PRINT_F_MINUS; PRINT_F_ZERO; PRINT_F_QUOTE; PRINT_F_NUM] -> has (Z.lor (flags p) PRINT_F_UNSIGNED) f = has (flags_of fl) f) as Hf.
  { intros f Hf. rewrite has_lor, Ef; [|set_solver|done]. assert (has PRINT_F_UNSIGNED f = false) as -> by (repeat (apply elem_of_cons in Hf as [->|Hf]; [done|]); by apply elem_of_nil in Hf). apply orb_false_r. }
  rewrite (unsigned_text fl w pr _ caps base prefix v n ds Hs) with (altfl := fl); [done|set_solver| | |done..|].
  - rewrite has_lor. apply orb_true_r.
  - rewrite has_lor, Hc. apply orb_false_r.
  - rewrite Hf by set_solver. apply has_num.
Qed.

Lemma pointer_conversion fl w n ds : plain_spec fl w None -> 0 < n < 2 ^ 64 -> written small_digits 16 n ds ->
  fmtint (wrap_i64 n) 16 (default 0 w) (-1) (Z.lor (Z.lor (flags_of fl) PRINT_F_NUM) PRINT_F_UNSIGNED) = Ok (in_field fl w true ["0"; "x"]%char ds).
Proof.
  intros Hs Hn Hw. rewrite (unsigned_text fl w None _ false 16 ["0"; "x"]%char _ n ds Hs) with (altfl := "#"%char :: fl); [f_equal|..].
  - unfold alternative_head, alternative_digits, at_least, size_of. rewrite decide_True, decide_False by (split; [left|lia] || lia). simpl default. by replace (Z.to_nat (0 - Z.of_nat (List.length ds))) with 0%nat by lia.
  - intros f Hf. rewrite !has_lor. repeat (apply elem_of_cons in Hf as [->|Hf]; [by rewrite !orb_false_r|]). by apply elem_of_nil in Hf.
  - rewrite has_lor. apply orb_true_r.
  - rewrite !has_lor, has_up. done.
  - auto.
  - apply wrap_i64_size. lia.
  - done.
  - rewrite !has_lor, bool_decide_eq_true_2 by left. by rewrite orb_true_r.
Qed.

(** What is printed for a directive is its text. *)
Lemma says_conversion fl w pr m c args t args' : says (Conv fl w pr m c) args t args' ->
  forall len, conversion c (spec_of PRINT_S_CONV fl w pr m) len args = Ok (Some t, args', []).
Proof.
  intros H len. inversion H as [|?|? ? ? ? ? a ? z ds Hs Hc Ha H0 Hw|? ? ? ? ? a ? n base table prefix ds Hs Hc Ha H0 Hw|? ? v ? ? Hs Hd|? ? ? s ? Hs Hl|? ? ? Hs|? ? n ? ds Hs Hn Hw]; subst.
  - done.
  - destruct (arg_signed_value m a z args' Ha) as [Hv Hz]. assert (conv_int (spec_of PRINT_S_CONV fl w pr m) (a :: args') = Ok (Some (in_field fl w (no_precision pr) (sign_text fl z) (at_least pr ds)), args', [])) as Hi.
    { unfold conv_int, printed, spec_of. cbn [cflags width precision flags]. rewrite Hv. cbn [mbind res_bind]. by rewrite (signed_text fl w pr z ds). }
    by destruct Hc as [-> | ->].
  - assert (has (flags_of fl) PRINT_F_UP = false) as Hu by apply has_up. inversion Hc; subst; cbn [conversion].
    + apply (unsigned_conversion fl w pr m _ 10 false []); auto.
    + apply (unsigned_conversion fl w pr m _ 8 false []); auto.
    + apply (unsigned_conversion fl w pr m _ 16 false ["0"; "x"]%char); auto.
    + apply (unsigned_conversion fl w pr m _ 16 true ["0"; "X"]%char); auto. cbn [with_flag flags spec_of]. rewrite has_lor. apply orb_true_r.
  - cbn [conversion]. unfold arg_int, next. cbn [mbind res_bind]. do 4 f_equal. pose proof (nat_ascii_bounded c0) as Hb.
    rewrite (mod_unsigned 256 (wrap_int v) (Z.of_nat (nat_of_ascii c0))) by first [lia | by apply (divide_through _ v); [exists (2 ^ 24)|apply wrap_int_divide|]]. rewrite Nat2Z.id. by rewrite ascii_nat_embedding.
  - cbn [conversion next mbind res_bind]. unfold printed, spec_of. cbn [width precision flags].
    replace (fmtstr (list_ascii_of_string <$> s) (default 0 w) (default (-1) pr) (flags_of fl)) with (fmtstr (Some (string_text s)) (default 0 w) (default (-1) pr) (flags_of fl)) by by destruct s.
    by rewrite string_field.
  - cbn [conversion next mbind res_bind]. change (0 =? 0) with true. unfold printed, spec_of. cbn [width precision flags]. change (-1) with (default (-1) (@None Z)) at 1. by rewrite string_field.
  - cbn [conversion next mbind res_bind]. rewrite (proj2 (Z.eqb_neq n 0)) by lia. unfold printed, spec_of. cbn [width precision flags default from_option id]. by rewrite (pointer_conversion fl w n ds).
Qed.

Lemma says_ok d args t args' : says d args t args' -> directive_ok d.
Proof.
  assert (forall fl w pr c m, plain_spec fl w pr -> ends_spec c -> directive_ok (Conv fl w pr m c)) as Hp.
  { intros fl w pr c m [Hf Hw Hp] Hc. split_and!; [|intros n Hn; specialize (Hw n Hn); unfold int_max; lia|intros n Hn; specialize (Hp n Hn); unfold int_max; lia|done].
    eapply Forall_impl; [exact Hf|]. intros f Hx. repeat (apply elem_of_cons in Hx as [->|Hx]; [by eexists|]). by apply elem_of_nil in Hx. }
  destruct 1 as [c args Hc|args|fl w pr m c a args z ds Hs Hc|fl w pr m c a args n base table prefix ds Hs Hc| | | |]; try (apply Hp; [done|done]).
  - cbn. by destruct (Ascii.eqb_spec c "%").
  - apply Hp; [done|]. by destruct Hc as [-> | ->].
  - apply Hp; [done|]. by destruct Hc.
Qed.

Lemma says_all_run ds args t : says_all ds args t -> Forall directive_ok ds /\ forall t0, run_directives ds t0 args [] = Ok ((t0 ++ t)%list, false, []).
Proof.
  induction 1 as [args|d ds args t args' t' Hd _ [Hok IH]]; [split; [done|]; intros t0; cbn [run_directives]; by rewrite app_nil_r|]. split; [constructor; [by eapply says_ok|done]|]. intros t0. rewrite app_assoc.
  destruct d as [c|fl w pr m c]; cbn [run_directives]; [inversion Hd; subst; apply IH|]. rewrite (says_conversion _ _ _ _ _ _ _ _ Hd). cbn [mbind res_bind]. apply IH.
Qed.

(** ** The whole call *)

(** C34: A call with a format of directives whose text is described by C99 (integers,
    characters, strings and pointers with the flags [-], [+], space, [#] and [0], width,
    precision and modifier, and arguments of the right types) does not fail: it writes the
    front of the text and a zero byte into the [size] bytes it is given and nothing else,
    and returns the length of the text, or -1 with [ERANGE] if that is no [int] below the
    largest.  Not covered: floating-point numbers, [n], stars, the quote flag, a zero with
    precision 0, a width of [c], numbers over 2^30, the smallest wide integer. *)
Theorem snprintf_prints ds args str size t :
  says_all ds args t -> size_of t < 2 ^ 64 -> 0 <= size <= size_of str ->
  rpl_vsnprintf (Some str) size (print_format ds) args =
    Ok (Some (fill str size t), if size_of t <? int_max then size_of t else -1, if size_of t <? int_max then None else Some ERANGE, []).
Proof.
  intros [Hd Hr]%says_all_run Ht Hs. rewrite (vsnprintf_writes str size _ _ t false []); [|by rewrite format_roundtrip; [apply Hr|]|done..].
  unfold result_of, errno_of. cbn [orb]. do 2 f_equal. destruct (Z.ltb_spec (size_of t) int_max); [by rewrite (proj2 (Z.leb_gt _ _))|by rewrite (proj2 (Z.leb_le _ _))].
Qed.

Module Sample.
Definition ds : list directive :=
  [Conv ["0"%char] (Some 5) None PRINT_C_NONE "d"; Lit "|"; Conv ["-"%char] (Some 4) (Some 2) PRINT_C_NONE "s"; Lit "|"; Conv ["#"%char] None None PRINT_C_LONG "x"].
Definition args : list carg := [CInt (-42); CStr (Some "abc"); CLong 255].

Lemma sample_spec fl w pr : Forall (fun f => f ∈ ["-"; "+"; " "; "#"; "0"]%char) fl -> 0 < default 1 w <= 2 ^ 30 -> 0 <= default 0 pr <= 2 ^ 30 -> plain_spec fl w pr.
Proof. intros Hf Hw Hp. split; [done|intros n ->; exact Hw|intros n ->; exact Hp]. Qed.

Lemma said : says_all ds args (list_ascii_of_string "-0042" ++ ["|"%char] ++ list_ascii_of_string "ab  " ++ ["|"%char] ++ list_ascii_of_string "0xff" ++ []).
Proof.
  apply (says_next _ _ _ _ [CStr (Some "abc"); CLong 255]).
  { apply (says_signed ["0"%char] (Some 5) None PRINT_C_NONE "d" (CInt (-42)) _ (-42) ["4"; "2"]%char);
      [apply sample_spec; [apply Forall_singleton; set_solver|done..]|by left|split; [exists (-42); split; [done|by exists 0]|done]|done|].
    by apply (written_more small_digits 10 4 2 "2" ["4"%char]); [|apply written_digit|..]. }
  apply (says_next _ _ _ _ [CStr (Some "abc"); CLong 255]); [by constructor|].
  apply (says_next _ _ _ _ [CLong 255]).
  { apply (says_string ["-"%char] (Some 4) (Some 2) (Some "abc")); [apply sample_spec; [apply Forall_singleton; set_solver|done..]|by vm_compute]. }
  apply (says_next _ _ _ _ [CLong 255]); [by constructor|].
  apply (says_next _ _ _ _ []); [|constructor].
  apply (says_unsigned ["#"%char] None None PRINT_C_LONG "x" (CLong 255) [] 255 16 small_digits ["0"; "x"]%char ["f"; "f"]%char);
    [apply sample_spec; [apply Forall_singleton; set_solver|done..]|constructor|done|done|].
  by apply (written_more small_digits 16 15 15 "f" ["f"%char]); [|apply written_digit|..].
Qed.
End Sample.

Lemma snprintf_prints_witness :
  rpl_vsnprintf (Some (replicate 20 "."%char)) 14 "%05d|%-4.2s|%#lx" Sample.args =
    Ok (Some (list_ascii_of_string "-0042|ab  |0x" ++ [NUL] ++ replicate 6 "."%char)%list, 15, None, []).
Proof.
  change "%05d|%-4.2s|%#lx" with (print_format Sample.ds).
  apply (snprintf_prints Sample.ds Sample.args (replicate 20 "."%char) 14 (list_ascii_of_string "-0042|ab  |0xff"));
    [exact Sample.said|reflexivity|split; [discriminate|vm_compute; discriminate]].
Defined.

Lemma fmtint_prints_witness : exists ds, numeral 16 true 48879 ds /\ fmtint 48879 16 10 6 (PRINT_F_UNSIGNED + PRINT_F_UP + PRINT_F_NUM) = Ok (int_text (list_ascii_of_string "0X") ds 10 6 (PRINT_F_UNSIGNED + PRINT_F_UP + PRINT_F_NUM)).
Proof. apply (fmtint_prints 48879 16 10 6 (PRINT_F_UNSIGNED + PRINT_F_UP + PRINT_F_NUM)); [reflexivity|auto|lia..]. Defined.

(** A zero with precision 0 is printed, where C prints nothing. *)
Example zero_precision_zero : vtext "%.0d" [CInt 0] = Ok (["0"%char], false, []).
Proof. reflexivity. Qed.

(** The smallest wide integer cannot be printed. *)
Example smallest_undefined : vtext "%ld" [CLong (- 2 ^ 63)] = Undef.
Proof. reflexivity. Qed.

(** The conversion [c] ignores the width. *)
Example char_width_ignored : vtext "%5c" [CInt 65] = Ok (["A"%char], false, []).
Proof. reflexivity. Qed.

(** The separators count as digits of the precision. *)
Example separators_shorten : vtext "%'.9d" [CInt 1234567] = Ok (list_ascii_of_string "1,234,567", false, []).
Proof. vm_compute. reflexivity. Qed.
End SnprintfFacts.
