(* ===== verification/Bitstream.v ===== *)
(** * Bit streams (src/PUTs/01pwp/deps/bitstream/bitstream.c)

    The functions at a bit offset, which the protocol does not use: numbers of 1 to 32
    bits are packed one after the other into words, the highest bit first.  A word is
    copied in the order of the machine (PwpStream.v).  Shifts by the width of a number
    or more are undefined. *)

From S2P Require Import Prelude PwpStream.
Import PwpStream.

Module Bitstream.

Definition shl32 (v n : Z) : res Z := if decide (0 <= n < 32) then Ok (wrap_u32 (Z.shiftl v n)) else Undef.
Definition shr32 (v n : Z) : res Z := if decide (0 <= n < 32) then Ok (Z.shiftr v n) else Undef.

(** [memcpy] of a word from and to a place in the block. *)
Definition get_word (b : list (option Z)) (i : Z) : res Z :=
  '(v, _) ← bitstream_read_uint32 (mk_cursor b i); Ok v.

Definition put_word (b : list (option Z)) (i v : Z) : res (list (option Z)) :=
  c ← put_bytes (mk_cursor b i) (le_bytes v); Ok (block c).

Definition bitstream_write_uint32_from_bitoffset (c : cursor) (val nbits bit_pos : Z) : res (cursor * Z) :=
  if nbits <=? 32 then
    let int_offset := (bit_pos - bit_pos mod 32) / 32 in
    let bit_offset := bit_pos mod 32 in
    val_posting ← get_word (block c) (at_ c + int_offset * 4);
    x ← shl32 val (32 - nbits);
    x ← shr32 x bit_offset;
    b ← put_word (block c) (at_ c + int_offset * 4) (Z.lor val_posting x);
    b ← (if 32 <? bit_offset + nbits then
           let nbits2 := (bit_offset + nbits) mod 32 in
           val_posting ← shl32 val (32 - nbits2);
           put_word b (at_ c + (int_offset + 1) * 4) val_posting
         else Ok b);
    Ok (mk_cursor b (at_ c), wrap_u32 (bit_pos + nbits))
  else Exit 134.

Definition bitstream_read_uint32_from_bitoffset (c : cursor) (nbits bit_pos : Z) : res (Z * Z) :=
  if nbits <=? 32 then
    let int_offset := (bit_pos - bit_pos mod 32) / 32 in
    let bit_offset := bit_pos mod 32 in
    val_out ← get_word (block c) (at_ c + int_offset * 4);
    val_out ← shl32 val_out bit_offset;
    val_out ← shr32 val_out (32 - nbits);
    val_out ← (if 32 <? bit_offset + nbits then
                 let nbits2 := (bit_offset + nbits) mod 32 in
                 val ← get_word (block c) (at_ c + (int_offset + 1) * 4);
                 val ← shr32 val (32 - nbits2);
                 Ok (Z.lor val_out val)
               else Ok val_out);
    Ok (val_out, wrap_u32 (bit_pos + nbits))
  else Exit 134.

(** A byte is promoted to [int] for a shift and cut again when it is stored. *)
Definition bitstream_write_bit_from_bitoffset (c : cursor) (val bit_pos : Z) : res (cursor * Z) :=
  let byte_offset := (bit_pos - bit_pos mod 8) / 8 in
  let bit_offset := bit_pos mod 8 in
  let stamp := if val =? 0 then 0 else 1 in
  let stamp := wrap_u8 (Z.shiftl stamp 7) in
  let stamp := wrap_u8 (Z.shiftr stamp bit_offset) in
  x ← get_byte (block c) (at_ c + byte_offset);
  b ← store (block c) (at_ c + byte_offset) (Some (wrap_u8 (Z.lor x stamp)));
  Ok (mk_cursor b (at_ c), wrap_u32 (bit_pos + 1)).

Definition bitstream_read_bit (c : cursor) (bit_pos : Z) : res (bool * Z) :=
  let byte_offset := (bit_pos - bit_pos mod 8) / 8 in
  let bit_offset := bit_pos mod 8 in
  val ← get_byte (block c) (at_ c + byte_offset);
  let val := wrap_u8 (Z.shiftl val bit_offset) in
  let val := Z.shiftr val 7 in
  Ok (val =? 1, wrap_u32 (bit_pos + 1)).

(** The pointer moves on and the bit position stays. *)
Definition bitstream_write_ubyte_from_bitoffset (c : cursor) (value bit_pos : Z) : res cursor :=
  let byte_offset := (bit_pos - bit_pos mod 8) / 8 in
  let bit_offset := bit_pos mod 8 in
  let ptr := at_ c + byte_offset in
  val ← get_byte (block c) ptr;
  let val := Z.shiftr val bit_offset in
  let val := wrap_u8 (Z.shiftl val bit_offset) in
  let val := wrap_u8 (Z.lor val (Z.shiftr (wrap_u8 value) bit_offset)) in
  b ← store (block c) ptr (Some val);
  let val := wrap_u8 (Z.shiftl (wrap_u8 value) bit_offset) in
  b ← store b (ptr + 1) (Some val);
  Ok (mk_cursor b (at_ c + 1)).

(** [strncpy] from the stream: the bytes up to the first zero byte, then zeros. *)
Fixpoint read_chars (n : nat) (b : list (option Z)) (i : Z) : res (list Z) :=
  match n with
  | O => Ok []
  | S n => x ← get_byte b i; if x =? 0 then Ok (replicate (S n) 0) else xs ← read_chars n b (i + 1); Ok (x :: xs)
  end.

Definition bitstream_read_string (c : cursor) (len : Z) : res (list Z * cursor) :=
  s ← read_chars (Z.to_nat len) (block c) (at_ c); Ok (s, mk_cursor (block c) (at_ c + len)).

(** ** Blocks of words *)

Definition bytes_of (ws : list Z) : list (option Z) := w ← ws; Some <$> le_bytes w.

Lemma length_bytes_of ws : List.length (bytes_of ws) = (4 * List.length ws)%nat.
Proof. induction ws as [|w ws IH]; [done|]. change (bytes_of (w :: ws)) with ((Some <$> le_bytes w) ++ bytes_of ws). rewrite length_app, IH. simpl. lia. Qed.

Lemma bytes_of_split ws i w :
  ws !! i = Some w -> bytes_of ws = bytes_of (take i ws) ++ (Some <$> le_bytes w) ++ bytes_of (drop (S i) ws).
Proof. intros Hi. rewrite <- (take_drop_middle ws i w Hi) at 1. unfold bytes_of. rewrite bind_app. done. Qed.

Lemma get_byte_app (l r : list (option Z)) i k v :
  Z.of_nat (List.length l) = i -> 0 <= k -> r !! Z.to_nat k = Some (Some v) -> get_byte (l ++ r) (i + k) = Ok v.
Proof.
  intros Hl Hk Hr. unfold get_byte. rewrite (load_ok _ (i + k) (Some v)); [done|lia|].
  rewrite lookup_app_r by lia. replace (Z.to_nat (i + k) - List.length l)%nat with (Z.to_nat k) by lia. done.
Qed.

Lemma get_word_spec ws i w : ws !! Z.to_nat i = Some w -> 0 <= i -> is_u32 w -> get_word (bytes_of ws) (i * 4) = Ok w.
Proof.
  intros Hw Hi Hu. pose proof (lookup_lt_Some _ _ _ Hw) as Hlt. unfold get_word, bitstream_read_uint32. simpl block. simpl at_.
  rewrite (bytes_of_split ws _ w Hw). assert (Z.of_nat (List.length (bytes_of (take (Z.to_nat i) ws))) = i * 4) as Hl by (rewrite length_bytes_of, length_take; lia).
  set (r := (Some <$> le_bytes w) ++ _). pose proof (get_byte_app _ r (i * 4) 0 (byte 0 w) Hl ltac:(lia) eq_refl) as E0. rewrite Z.add_0_r in E0.
  pose proof (get_byte_app _ r (i * 4) 1 (byte 1 w) Hl ltac:(lia) eq_refl) as E1. pose proof (get_byte_app _ r (i * 4) 2 (byte 2 w) Hl ltac:(lia) eq_refl) as E2.
  pose proof (get_byte_app _ r (i * 4) 3 (byte 3 w) Hl ltac:(lia) eq_refl) as E3. rewrite E0, E1, E2, E3. cbn [mbind res_bind].
  by rewrite of_bytes_byte.
Qed.

Lemma put_word_spec ws i v : 0 <= i < Z.of_nat (List.length ws) -> put_word (bytes_of ws) (i * 4) v = Ok (bytes_of (<[Z.to_nat i := v]> ws)).
Proof.
  intros Hi. destruct (lookup_lt_is_Some_2 ws (Z.to_nat i)) as [w Hw]; [lia|]. unfold put_word.
  rewrite (bytes_of_split ws _ w Hw). set (l := bytes_of (take _ ws)). assert (i * 4 = Z.of_nat (List.length l)) as -> by (unfold l; rewrite length_bytes_of, length_take; lia).
  rewrite put_bytes_app by done. cbn [mbind res_bind block]. f_equal. subst l. rewrite (insert_take_drop ws (Z.to_nat i) v) by lia. unfold bytes_of. rewrite bind_app. done.
Qed.

(** ** The bits of a stream *)

Definition word (ws : list Z) (i : Z) : Z := default 0 (ws !! Z.to_nat i).
Definition bit (ws : list Z) (j : Z) : bool := Z.testbit (word ws (j / 32)) (31 - j mod 32).

Lemma word_insert ws i v k :
  0 <= i < Z.of_nat (List.length ws) -> 0 <= k -> word (<[Z.to_nat i := v]> ws) k = if k =? i then v else word ws k.
Proof.
  intros Hi Hk. unfold word. destruct (Z.eqb_spec k i) as [->|Hn]; [by rewrite list_lookup_insert_eq by lia|]. rewrite list_lookup_insert_ne by lia. done.
Qed.

Lemma offsets pos : 0 <= pos -> (pos - pos mod 32) / 32 = pos / 32 /\ 0 <= pos / 32 /\ 0 <= pos mod 32 < 32 /\ pos = 32 * (pos / 32) + pos mod 32.
Proof.
  intros Hp. pose proof (Z.div_mod pos 32 ltac:(lia)). pose proof (Z.mod_pos_bound pos 32 ltac:(lia)). pose proof (Z.div_pos pos 32 Hp ltac:(lia)).
  split_and!; try lia. replace (pos - pos mod 32) with (pos / 32 * 32) by lia. by rewrite Z.div_mul by lia.
Qed.

Definition words_ok (ws : list Z) : Prop := Forall is_u32 ws.

Lemma word_u32 ws i : words_ok ws -> is_u32 (word ws i).
Proof. intros H. unfold word. destruct (ws !! Z.to_nat i) as [w|] eqn:Ew; simpl; [by eapply Forall_lookup in Ew|unfold is_u32; lia]. Qed.

Lemma get_word_at ws i : words_ok ws -> 0 <= i < Z.of_nat (List.length ws) -> get_word (bytes_of ws) (i * 4) = Ok (word ws i).
Proof.
  intros H Hi. destruct (lookup_lt_is_Some_2 ws (Z.to_nat i)) as [w Hw]; [lia|]. unfold word. rewrite Hw. apply get_word_spec; [done|lia|]. by eapply Forall_lookup in Hw.
Qed.

Lemma testbit_wrap v k : 0 <= k -> Z.testbit (wrap_u32 v) k = (k <? 32) && Z.testbit v k.
Proof. intros Hk. unfold wrap_u32. destruct (Z.ltb_spec k 32); [by rewrite Z.mod_pow2_bits_low|by rewrite Z.mod_pow2_bits_high by lia]. Qed.

Lemma shl32_ok v n : 0 <= n < 32 -> shl32 v n = Ok (wrap_u32 (Z.shiftl v n)).
Proof. intros Hn. unfold shl32. by rewrite decide_True. Qed.

Lemma shr32_ok v n : 0 <= n < 32 -> shr32 v n = Ok (Z.shiftr v n).
Proof. intros Hn. unfold shr32. by rewrite decide_True. Qed.

(** A number shifted to the left end of a word and then to its place. *)
Lemma bit_placed val s o k :
  0 <= s < 32 -> 0 <= o < 32 -> 0 <= k < 32 -> Z.testbit (Z.shiftr (wrap_u32 (Z.shiftl val s)) o) k = (k + o <? 32) && Z.testbit val (k + o - s).
Proof. intros Hs Ho Hk. rewrite Z.shiftr_spec, testbit_wrap, Z.shiftl_spec by lia. done. Qed.

Lemma shifted_u32 val s o : 0 <= s -> 0 <= o -> is_u32 (Z.shiftr (wrap_u32 (Z.shiftl val s)) o).
Proof.
  intros Hs Ho. unfold is_u32. rewrite Z.shiftr_div_pow2 by done. assert (0 <= wrap_u32 (Z.shiftl val s) < 2 ^ 32) by (unfold wrap_u32; apply Z.mod_pos_bound; lia).
  assert (0 < 2 ^ o) by (apply Z.pow_pos_nonneg; lia). split; [apply Z.div_pos; lia|]. apply Z.div_lt_upper_bound; nia.
Qed.

Lemma lor_u32 a b : is_u32 a -> is_u32 b -> is_u32 (Z.lor a b).
Proof.
  unfold is_u32. intros Ha Hb. split; [apply Z.lor_nonneg; lia|]. destruct (decide (Z.lor a b = 0)) as [->|Hn]; [lia|].
  assert (0 <= Z.lor a b) by (apply Z.lor_nonneg; lia). apply Z.log2_lt_pow2; [lia|]. rewrite Z.log2_lor by lia.
  assert (forall x, 0 <= x < 2 ^ 32 -> Z.log2 x < 32) as Hl; [|pose proof (Hl a Ha); pose proof (Hl b Hb); lia].
  intros x Hx. destruct (decide (x = 0)) as [->|]; [done|]. apply Z.log2_lt_pow2; lia.
Qed.

(** The words after a number was written: the rest of the word it begins in, and the
    beginning of the next one. *)
Definition first_part (ws : list Z) (val nbits pos : Z) : list Z :=
  <[Z.to_nat (pos / 32) := Z.lor (word ws (pos / 32)) (Z.shiftr (wrap_u32 (Z.shiftl val (32 - nbits))) (pos mod 32))]> ws.
Definition written_words (ws : list Z) (val nbits pos : Z) : list Z :=
  let ws1 := first_part ws val nbits pos in
  if 32 <? pos mod 32 + nbits then <[Z.to_nat (pos / 32 + 1) := wrap_u32 (Z.shiftl val (64 - pos mod 32 - nbits))]> ws1 else ws1.

Section number.
Context (ws : list Z) (nbits pos : Z).
Hypothesis Hws : words_ok ws.
Hypothesis Hbits : 1 <= nbits <= 32.
Hypothesis Hpos : 0 <= pos.
Hypothesis Hroom : pos + nbits <= 32 * Z.of_nat (List.length ws) < 2 ^ 32.

Lemma second_offset : 32 < pos mod 32 + nbits -> (pos mod 32 + nbits) mod 32 = pos mod 32 + nbits - 32.
Proof. intros H. pose proof (offsets pos Hpos) as (_ & _ & ? & _). symmetry. apply (Z.mod_unique _ 32 1); lia. Qed.

Lemma write_words val :
  bitstream_write_uint32_from_bitoffset (mk_cursor (bytes_of ws) 0) val nbits pos = Ok (mk_cursor (bytes_of (written_words ws val nbits pos)) 0, pos + nbits).
Proof.
  pose proof (offsets pos Hpos) as (Ho & Hq & Hm & Hp). unfold bitstream_write_uint32_from_bitoffset, written_words. rewrite (proj2 (Z.leb_le nbits 32)) by lia. simpl block. simpl at_. rewrite Ho.
  assert (pos / 32 < Z.of_nat (List.length ws)) by lia. rewrite !Z.add_0_l, get_word_at by (done || lia). cbn [mbind res_bind].
  rewrite (shl32_ok val (32 - nbits)) by lia. cbn [mbind res_bind]. rewrite shr32_ok by lia. cbn [mbind res_bind]. rewrite put_word_spec by lia. cbn [mbind res_bind]. fold (first_part ws val nbits pos).
  rewrite (wrap_u32_id (pos + nbits)) by lia. destruct (Z.ltb_spec 32 (pos mod 32 + nbits)) as [Hc|Hc]; [|done]. rewrite second_offset by done.
  replace (32 - (pos mod 32 + nbits - 32)) with (64 - pos mod 32 - nbits) by lia. rewrite shl32_ok by lia. cbn [mbind res_bind].
  rewrite put_word_spec by (unfold first_part; rewrite length_insert; lia). done.
Qed.

Lemma written_ok val : words_ok (written_words ws val nbits pos) /\ List.length (written_words ws val nbits pos) = List.length ws.
Proof.
  pose proof (offsets pos Hpos) as (Ho & Hq & Hm & Hp). assert (words_ok (first_part ws val nbits pos)) as H1.
  { apply Forall_insert; [done|]. apply lor_u32; [by apply word_u32|]. apply shifted_u32; lia. }
  unfold written_words. destruct (32 <? pos mod 32 + nbits); [|split; [done|unfold first_part; by rewrite length_insert]]. split; [|unfold first_part; by rewrite !length_insert].
  apply Forall_insert; [done|]. unfold is_u32, wrap_u32. apply Z.mod_pos_bound. lia.
Qed.

(** The bits of the number are in the stream, highest first, and no other bit changes. *)
Lemma written_bits val j :
  (forall i, pos <= i -> bit ws i = false) -> 0 <= j ->
  bit (written_words ws val nbits pos) j = if decide (pos <= j < pos + nbits) then Z.testbit val (nbits - 1 - (j - pos)) else bit ws j.
Proof.
  intros Hz Hj. pose proof (offsets pos Hpos) as (_ & Hq & Hm & Hp). pose proof (offsets j Hj) as (_ & Hjq & Hjm & Hjp).
  assert (bit (first_part ws val nbits pos) j = if decide (j / 32 = pos / 32) then bit ws j || (pos mod 32 <=? j mod 32) && Z.testbit val (nbits - 1 - (j - pos)) else bit ws j) as Hf.
  { unfold bit, first_part. rewrite word_insert by lia. case_decide as E1; [|by rewrite (proj2 (Z.eqb_neq _ _))]. rewrite (proj2 (Z.eqb_eq _ _) E1), Z.lor_spec, bit_placed by lia. rewrite E1.
    f_equal. replace (31 - j mod 32 + pos mod 32 <? 32) with (pos mod 32 <=? j mod 32) by (destruct (Z.leb_spec (pos mod 32) (j mod 32)), (Z.ltb_spec (31 - j mod 32 + pos mod 32) 32); lia || done).
    f_equal. f_equal. lia. }
  assert (bit (written_words ws val nbits pos) j =
    if decide (32 < pos mod 32 + nbits /\ j / 32 = pos / 32 + 1) then Z.testbit val (nbits - 1 - (j - pos)) else bit (first_part ws val nbits pos) j) as Hs.
  { unfold written_words. destruct (Z.ltb_spec 32 (pos mod 32 + nbits)) as [Hc|Hc]; [|by rewrite decide_False by lia]. unfold bit at 1. rewrite word_insert by (unfold first_part; rewrite ?length_insert; lia).
    destruct (Z.eqb_spec (j / 32) (pos / 32 + 1)) as [E1|E1]; [|by rewrite decide_False by lia]. rewrite decide_True by lia. rewrite testbit_wrap, Z.shiftl_spec by lia.
    rewrite (proj2 (Z.ltb_lt _ 32)) by lia. simpl. f_equal. lia. }
  rewrite Hs, Hf. clear Hs Hf. destruct (decide (pos <= j < pos + nbits)) as [Hin|Hout].
  - case_decide; [done|]. rewrite decide_True by lia. rewrite Hz by lia. rewrite (proj2 (Z.leb_le _ _)) by lia. done.
  - case_decide as E1; [rewrite Hz, Z.testbit_neg_r by lia; done|]. case_decide as E2; [|done].
    destruct (Z.leb_spec (pos mod 32) (j mod 32)); [rewrite Z.testbit_neg_r by lia|]; by rewrite orb_false_r.
Qed.

Lemma read_bits :
  exists v, bitstream_read_uint32_from_bitoffset (mk_cursor (bytes_of ws) 0) nbits pos = Ok (v, pos + nbits) /\
    forall i, 0 <= i -> Z.testbit v i = (i <? nbits) && bit ws (pos + nbits - 1 - i).
Proof.
  pose proof (offsets pos Hpos) as (Ho & Hq & Hm & Hp). unfold bitstream_read_uint32_from_bitoffset. rewrite (proj2 (Z.leb_le nbits 32)) by lia. simpl block. simpl at_. rewrite Ho.
  rewrite !Z.add_0_l, (get_word_at ws (pos / 32)) by (done || lia). cbn [mbind res_bind]. rewrite (shl32_ok _ (pos mod 32)) by lia. cbn [mbind res_bind]. rewrite (shr32_ok _ (32 - nbits)) by lia. cbn [mbind res_bind]. rewrite (wrap_u32_id (pos + nbits)) by lia.
  set (v1 := Z.shiftr (wrap_u32 (Z.shiftl (word ws (pos / 32)) (pos mod 32))) (32 - nbits)).
  assert (forall i, 0 <= i -> Z.testbit v1 i = (i <? nbits) && Z.testbit (word ws (pos / 32)) (31 - (pos mod 32 + nbits - 1 - i))) as Hv1.
  { intros i Hi. unfold v1. rewrite Z.shiftr_spec, testbit_wrap, Z.shiftl_spec by lia.
    replace (i + (32 - nbits) <? 32) with (i <? nbits) by (destruct (Z.ltb_spec i nbits), (Z.ltb_spec (i + (32 - nbits)) 32); lia || done). f_equal. f_equal. lia. }
  assert (forall i, 0 <= i < nbits -> pos mod 32 + nbits - 1 - i < 32 -> bit ws (pos + nbits - 1 - i) = Z.testbit (word ws (pos / 32)) (31 - (pos mod 32 + nbits - 1 - i))) as Hb1.
  { intros i Hi Hlt. unfold bit. replace (pos + nbits - 1 - i) with (pos mod 32 + nbits - 1 - i + pos / 32 * 32) by lia.
    rewrite Z.div_add, Z.mod_add, Z.div_small, Z.mod_small by lia. done. }
  destruct (Z.ltb_spec 32 (pos mod 32 + nbits)) as [Hc|Hc].
  - rewrite second_offset by done. rewrite get_word_at by (done || lia). cbn [mbind res_bind]. rewrite shr32_ok by lia. cbn [mbind res_bind].
    eexists. split; [done|]. intros i Hi. rewrite Z.lor_spec, Hv1, Z.shiftr_spec by done. destruct (Z.ltb_spec i nbits) as [Hin|Hin]; simpl.
    + destruct (decide (pos mod 32 + nbits - 1 - i < 32)) as [Hl|Hl].
      * rewrite Hb1 by done. rewrite (bits_small (word ws (pos / 32 + 1)) 32); [by rewrite orb_false_r|by apply word_u32|lia].
      * rewrite Z.testbit_neg_r by lia. simpl. unfold bit. replace (pos + nbits - 1 - i) with (pos mod 32 + nbits - 33 - i + (pos / 32 + 1) * 32) by lia.
        rewrite Z.div_add, Z.mod_add, (Z.div_small (pos mod 32 + nbits - 33 - i)), (Z.mod_small (pos mod 32 + nbits - 33 - i)) by lia. f_equal. lia.
    + apply (bits_small _ 32); [by apply word_u32|lia].
  - eexists. split; [done|]. intros i Hi. rewrite Hv1 by done. destruct (Z.ltb_spec i nbits); [|done]. simpl. by rewrite Hb1 by lia.
Qed.
End number.

(** ** Many numbers, one after the other *)

Fixpoint write_all (fields : list (Z * Z)) (c : cursor) (pos : Z) : res (cursor * Z) :=
  match fields with
  | [] => Ok (c, pos)
  | (val, nbits) :: fields => '(c, pos) ← bitstream_write_uint32_from_bitoffset c val nbits pos; write_all fields c pos
  end.

Fixpoint read_all (widths : list Z) (c : cursor) (pos : Z) : res (list Z) :=
  match widths with
  | [] => Ok []
  | nbits :: widths => '(v, pos) ← bitstream_read_uint32_from_bitoffset c nbits pos; vs ← read_all widths c pos; Ok (v :: vs)
  end.

Definition width (fields : list (Z * Z)) : Z := foldr (fun f n => f.2 + n) 0 fields.
Definition fits (f : Z * Z) : bool := (1 <=? f.2) && (f.2 <=? 32).

(** The bits of the numbers, where they are expected. *)
Fixpoint stored (ws : list Z) (pos : Z) (fields : list (Z * Z)) : Prop :=
  match fields with
  | [] => True
  | (val, nbits) :: fields => (forall j, pos <= j < pos + nbits -> bit ws j = Z.testbit val (nbits - 1 - (j - pos))) /\ stored ws (pos + nbits) fields
  end.

Lemma width_nonneg fields : forallb fits fields = true -> 0 <= width fields.
Proof. induction fields as [|[v n] fields IH]; simpl; [done|]. intros [[H1%Z.leb_le _]%andb_true_iff H]%andb_true_iff. simpl in *. specialize (IH H). lia. Qed.

Lemma write_all_spec fields ws pos :
  forallb fits fields = true -> words_ok ws -> 0 <= pos -> pos + width fields <= 32 * Z.of_nat (List.length ws) < 2 ^ 32 -> (forall i, pos <= i -> bit ws i = false) ->
  exists ws', write_all fields (mk_cursor (bytes_of ws) 0) pos = Ok (mk_cursor (bytes_of ws') 0, pos + width fields) /\
    words_ok ws' /\ List.length ws' = List.length ws /\ stored ws' pos fields /\ (forall j, 0 <= j < pos -> bit ws' j = bit ws j).
Proof.
  revert ws pos. induction fields as [|[val n] fields IH]; intros ws pos Hf Hws Hp Hroom Hz; simpl in *.
  { exists ws. rewrite Z.add_0_r. done. }
  apply andb_true_iff in Hf as [[H1%Z.leb_le H2%Z.leb_le]%andb_true_iff Hf]. simpl in *. pose proof (width_nonneg fields Hf).
  rewrite write_words by (done || lia). cbn [mbind res_bind]. destruct (written_ok ws n pos Hws ltac:(lia) Hp val) as [Hok Hlen].
  assert (forall j, 0 <= j -> bit (written_words ws val n pos) j = if decide (pos <= j < pos + n) then Z.testbit val (n - 1 - (j - pos)) else bit ws j) as Hb.
  { intros j Hj. apply written_bits; done || lia. }
  destruct (IH (written_words ws val n pos) (pos + n)) as (ws' & E1 & Hok' & Hlen' & Hst & Hkeep); [done|done|lia|rewrite Hlen; lia| |].
  { intros i Hi. rewrite Hb, decide_False by lia. apply Hz. lia. }
  exists ws'. rewrite E1. split_and!; [by rewrite Z.add_assoc|done|by rewrite Hlen'| |done|].
  - intros j Hj. rewrite Hkeep, Hb, decide_True by lia. done.
  - intros j Hj. rewrite Hkeep, Hb, decide_False by lia. done.
Qed.

Lemma read_all_spec fields ws pos :
  forallb fits fields = true -> words_ok ws -> 0 <= pos -> pos + width fields <= 32 * Z.of_nat (List.length ws) < 2 ^ 32 -> stored ws pos fields ->
  read_all (snd <$> fields) (mk_cursor (bytes_of ws) 0) pos = Ok ((fun f => f.1 mod 2 ^ f.2) <$> fields).
Proof.
  revert pos. induction fields as [|[val n] fields IH]; intros pos Hf Hws Hp Hroom Hst; [done|]. cbn [forallb width foldr stored] in *. fold (width fields) in *.
  apply andb_true_iff in Hf as [[H1%Z.leb_le H2%Z.leb_le]%andb_true_iff Hf]. simpl fst in *. simpl snd in *. destruct Hst as [Hst Hrest]. pose proof (width_nonneg fields Hf).
  rewrite !fmap_cons. cbn [read_all fst snd]. destruct (read_bits ws n pos Hws ltac:(lia) Hp ltac:(lia)) as (v & -> & Hv). cbn [mbind res_bind].
  rewrite IH by (done || lia). cbn [mbind res_bind]. do 2 f_equal. apply Z.bits_inj'. intros i Hi. rewrite Hv by done.
  destruct (Z.ltb_spec i n) as [Hin|Hin]; [|by rewrite Z.mod_pow2_bits_high by lia]. rewrite Z.mod_pow2_bits_low by lia. simpl. rewrite Hst by lia. f_equal. lia.
Qed.

Lemma zero_words n : words_ok (replicate n 0) /\ bytes_of (replicate n 0) = replicate (4 * n) (Some 0) /\ forall i, bit (replicate n 0) i = false.
Proof.
  split_and!.
  - apply Forall_replicate. unfold is_u32. lia.
  - induction n as [|n IH]; [done|]. replace (4 * S n)%nat with (4 + 4 * n)%nat by lia. rewrite replicate_add, <- IH. done.
  - intros i. unfold bit, word. assert (default 0 (replicate n 0 !! Z.to_nat (i / 32)) = 0) as ->; [|apply Z.testbit_0_l].
    destruct (replicate n 0 !! Z.to_nat (i / 32)) eqn:E1; [|done]. by apply lookup_replicate in E1 as [-> _].
Qed.

(** Numbers of 1 to 32 bits that are written one after the other into a block of words
    that was cleared are read back, cut to their widths, whatever the widths are: the
    numbers may lie across two words. *)
Theorem bitstream_roundtrip (fields : list (Z * Z)) (n : nat) (b : list (option Z)) :
  forallb fits fields = true -> width fields <= 32 * Z.of_nat n < 2 ^ 31 -> List.length b = (4 * n)%nat ->
  exists c, (b ← bitstream_init b (4 * Z.of_nat n); write_all fields (mk_cursor b 0) 0) = Ok (c, width fields) /\
    read_all (snd <$> fields) c 0 = Ok ((fun f => f.1 mod 2 ^ f.2) <$> fields).
Proof.
  intros Hf Hw Hb. destruct (zero_words n) as (Hok & Hz & Hzero). assert (bitstream_init b (4 * Z.of_nat n) = Ok (bytes_of (replicate n 0))) as ->.
  { unfold bitstream_init. rewrite decide_True by lia. rewrite drop_ge, app_nil_r, Hz by lia. do 2 f_equal. lia. }
  cbn [mbind res_bind]. destruct (write_all_spec fields (replicate n 0) 0 Hf Hok) as (ws & -> & Hok' & Hlen & Hst & _); [lia|rewrite length_replicate; lia|done|].
  eexists. split; [done|]. rewrite length_replicate in Hlen. apply read_all_spec; try done. rewrite Hlen. lia.
Qed.

Lemma bitstream_roundtrip_witness :
  let fields := [(5, 3); (2 ^ 30 + 7, 31); (1, 1); (300, 8); (2 ^ 32 - 2, 32)] in
  exists c, (b ← bitstream_init (replicate 12 None) 12; write_all fields (mk_cursor b 0) 0) = Ok (c, 75) /\
    read_all [3; 31; 1; 8; 32] c 0 = Ok [5; 2 ^ 30 + 7; 1; 44; 2 ^ 32 - 2].
Proof.
  intros fields. apply (bitstream_roundtrip fields 3 (replicate 12 None)); [vm_compute; reflexivity|simpl; lia|reflexivity].
Defined.

(** A byte written at a bit offset above 4 takes bits before it away: after six bits that
    are set, four of them are lost. *)
Theorem write_ubyte_loses_bits :
  (c ← bitstream_write_ubyte_from_bitoffset (mk_cursor [Some 252; Some 0] 0) 0 6; Ok (block c)) = Ok [Some 192; Some 0].
Proof. vm_compute. reflexivity. Qed.
End Bitstream.
