(* ===== verification/PwpHandler.v ===== *)
(** * The message handler of the peer wire protocol (src/PUTs/01pwp/pwp_msghandler.c)

    The handler is a state machine over the incoming bytes: [process_item] is the
    token it expects, the message record holds what was read so far.  What it does
    is the calls it makes to the connection.  The handlers a user adds are an
    argument, and so is the allocation of a bit field, whose block is too small for
    its structure (see Bitfield.v).  [bitfield_free] after the call to the connection,
    which reads the structure it has just freed, is left out.

    Bytes may arrive in pieces of any size: how the stream is cut does not matter
    (up to the cut of a block of data into several calls), and the messages another
    connection sends come out as they went in. *)

From S2P Require Import Prelude Bitfield PwpStream.

Module PwpHandler.
Import PwpStream.

Definition PWP_MSGTYPE_CHOKE : Z := 0.
Definition PWP_MSGTYPE_UNCHOKE : Z := 1.
Definition PWP_MSGTYPE_INTERESTED : Z := 2.
Definition PWP_MSGTYPE_UNINTERESTED : Z := 3.
Definition PWP_MSGTYPE_HAVE : Z := 4.
Definition PWP_MSGTYPE_BITFIELD : Z := 5.
Definition PWP_MSGTYPE_REQUEST : Z := 6.
Definition PWP_MSGTYPE_PIECE : Z := 7.
Definition PWP_MSGTYPE_CANCEL : Z := 8.

Record bt_block_t := mk_block { piece_idx : Z; offset : Z; len : Z }.

#[global] Instance bt_block_eq_dec : EqDecision bt_block_t.
Proof. solve_decision. Defined.

(** The calls to the connection. *)
Inductive conn_call : Type :=
  | pwp_conn_keepalive
  | pwp_conn_choke
  | pwp_conn_unchoke
  | pwp_conn_interested
  | pwp_conn_uninterested
  | pwp_conn_have (piece_idx : Z)
  | pwp_conn_bitfield (bf : Bitfield.bitfield_t)
  | pwp_conn_request (blk : bt_block_t)
  | pwp_conn_piece (blk : bt_block_t) (data : list Z)
  | pwp_conn_cancel (blk : bt_block_t).

(** The functions [process_item] may point to. *)
Inductive item : Type :=
  | pwp_length
  | pwp_type
  | pwp_have
  | pwp_bitfield
  | pwp_request_pieceidx
  | pwp_request_offset
  | pwp_request_len
  | pwp_piece_pieceidx
  | pwp_piece_offset
  | pwp_piece_data
  | pwp_cancel_pieceidx
  | pwp_cancel_offset
  | pwp_cancel_len
  | custom_item (i : Z).

(** The members of the union that are read and written as blocks share their first
    words: [m_blk] is [hve], [blk] or [pce.blk]; [m_bf] is the bit field. *)
Record msg_t := mk_msg {
  m_len : Z;
  m_id : Z;
  bytes_read : Z;
  tok_bytes_read : Z;
  m_blk : bt_block_t;
  m_bf : option Bitfield.bitfield_t
}.

Definition zero_msg : msg_t := mk_msg 0 0 0 0 (mk_block 0 0 0) None.

(** [handlers] are the functions of the table, [None] for the null pointer. *)
Record pwp_msghandler_private_t := mk_handler {
  msg : msg_t;
  process_item : item;
  nhandlers : Z;
  handlers : list (option item)
}.

Definition set_item (i : item) (me : pwp_msghandler_private_t) : pwp_msghandler_private_t :=
  mk_handler (msg me) i (nhandlers me) (handlers me).
Definition set_msg (m : msg_t) (me : pwp_msghandler_private_t) : pwp_msghandler_private_t :=
  mk_handler m (process_item me) (nhandlers me) (handlers me).

Definition set_len (v : Z) (m : msg_t) : msg_t := mk_msg v (m_id m) (bytes_read m) (tok_bytes_read m) (m_blk m) (m_bf m).
Definition set_blk (b : bt_block_t) (m : msg_t) : msg_t := mk_msg (m_len m) (m_id m) (bytes_read m) (tok_bytes_read m) b (m_bf m).
Definition set_bf (f : option Bitfield.bitfield_t) (m : msg_t) : msg_t :=
  mk_msg (m_len m) (m_id m) (bytes_read m) (tok_bytes_read m) (m_blk m) f.
Definition set_counts (rd tok : Z) (m : msg_t) : msg_t := mk_msg (m_len m) (m_id m) rd tok (m_blk m) (m_bf m).
Definition set_id (v rd : Z) (m : msg_t) : msg_t := mk_msg (m_len m) v rd (tok_bytes_read m) (m_blk m) (m_bf m).

Definition mh_endmsg (me : pwp_msghandler_private_t) : pwp_msghandler_private_t :=
  mk_handler zero_msg pwp_length (nhandlers me) (handlers me).

(** [n] handlers of the user, after the standard ones. *)
Definition pwp_msghandler_new2 (n : nat) : pwp_msghandler_private_t :=
  let size := PWP_MSGTYPE_CANCEL + 1 + Z.of_nat n in
  mk_handler zero_msg pwp_length size
    ([None; None; None; None; Some pwp_have; Some pwp_bitfield; Some pwp_request_pieceidx;
      Some pwp_piece_pieceidx; Some pwp_cancel_pieceidx] ++
     map (fun i => Some (custom_item (PWP_MSGTYPE_CANCEL + 1 + Z.of_nat i))) (seq 0 n)).

Definition pwp_msghandler_new : pwp_msghandler_private_t := pwp_msghandler_new2 0.

(** ** Tokens *)

(** The word, the two counters and the bytes left; [true] once the word is complete. *)
Fixpoint mh_uint32 (v tok rd : Z) (buf : list Z) : bool * Z * Z * Z * list Z :=
  if tok =? 4 then (true, fe v, 0, rd, buf)
  else
    match buf with
    | [] => (false, v, tok, rd, [])
    | b :: buf => mh_uint32 (set_byte v tok b) (wrap_u32 (tok + 1)) (wrap_u32 (rd + 1)) buf
    end.

Definition abort_code : Z := 134.

(** A call of [process_item]: the handler, the calls, the bytes left and the result. *)
Definition outcome : Type := pwp_msghandler_private_t * list conn_call * list Z * Z.

(** One word of the message: [put] stores it; when it is complete, [next] goes on. *)
Definition read_word (get : msg_t -> Z) (put : Z -> msg_t -> msg_t)
    (next : pwp_msghandler_private_t -> pwp_msghandler_private_t * list conn_call)
    (me : pwp_msghandler_private_t) (buf : list Z) : res outcome :=
  let m := msg me in
  let '(done, v, tok, rd, buf) := mh_uint32 (get m) (tok_bytes_read m) (bytes_read m) buf in
  let me := set_msg (put v (set_counts rd tok m)) me in
  if done : bool then let '(me, calls) := next me in Ok (me, calls, buf, 1) else Ok (me, [], buf, 1).

Definition put_piece_idx (v : Z) (m : msg_t) : msg_t := set_blk (mk_block v (offset (m_blk m)) (len (m_blk m))) m.
Definition put_offset (v : Z) (m : msg_t) : msg_t := set_blk (mk_block (piece_idx (m_blk m)) v (len (m_blk m))) m.
Definition put_blk_len (v : Z) (m : msg_t) : msg_t := set_blk (mk_block (piece_idx (m_blk m)) (offset (m_blk m)) v) m.

Definition go_on (i : item) (me : pwp_msghandler_private_t) : pwp_msghandler_private_t * list conn_call := (set_item i me, []).

Definition do_request_pieceidx := read_word (fun m => piece_idx (m_blk m)) put_piece_idx (go_on pwp_request_offset).
Definition do_request_offset := read_word (fun m => offset (m_blk m)) put_offset (go_on pwp_request_len).
Definition do_request_len := read_word (fun m => len (m_blk m)) put_blk_len
  (fun me => (mh_endmsg me, [pwp_conn_request (m_blk (msg me))])).

Definition do_cancel_pieceidx := read_word (fun m => piece_idx (m_blk m)) put_piece_idx (go_on pwp_cancel_offset).
Definition do_cancel_offset := read_word (fun m => offset (m_blk m)) put_offset (go_on pwp_cancel_len).
Definition do_cancel_len := read_word (fun m => len (m_blk m)) put_blk_len
  (fun me => (mh_endmsg me, [pwp_conn_cancel (m_blk (msg me))])).

Definition do_have := read_word (fun m => piece_idx (m_blk m)) put_piece_idx
  (fun me => (mh_endmsg me, [pwp_conn_have (piece_idx (m_blk (msg me)))])).

Definition do_piece_pieceidx := read_word (fun m => piece_idx (m_blk m)) put_piece_idx (go_on pwp_piece_offset).
Definition do_piece_offset := read_word (fun m => offset (m_blk m)) put_offset (go_on pwp_piece_data).

(** The part of the block that has arrived; the rest is treated as another block. *)
Definition do_piece_data (me : pwp_msghandler_private_t) (buf : list Z) : res outcome :=
  let m := msg me in
  let size := wrap_int (Z.min (Z.of_nat (List.length buf)) (wrap_u32 (m_len m - 1 - 4 - 4))) in
  let blk := mk_block (piece_idx (m_blk m)) (offset (m_blk m)) (wrap_u32 size) in
  let calls := [pwp_conn_piece blk (take (Z.to_nat size) buf)] in
  let m := set_len (wrap_u32 (m_len m - size)) (set_blk (mk_block (piece_idx blk) (wrap_u32 (offset blk + size)) (len blk)) m) in
  let me := set_msg m me in
  let buf := drop (Z.to_nat size) buf in
  Ok (if m_len m =? 9 then mh_endmsg me else me, calls, buf, 1).

Definition do_length (me : pwp_msghandler_private_t) (buf : list Z) : res outcome :=
  if negb (bytes_read (msg me) <? 4) then Exit abort_code
  else
    read_word m_len set_len
      (fun me => if m_len (msg me) =? 0 then (mh_endmsg me, [pwp_conn_keepalive]) else (set_item pwp_type me, [])) me buf.

(** The byte is not written where no byte is left. *)
Definition mh_byte (val rd : Z) (buf : list Z) : Z * Z * list Z :=
  match buf with
  | [] => (val, rd, [])
  | b :: buf => (b, wrap_u32 (rd + 1), buf)
  end.

Definition do_type (me : pwp_msghandler_private_t) (buf : list Z) : res outcome :=
  if negb (bytes_read (msg me) =? 4) then Exit abort_code
  else
    let '(id, rd, buf) := mh_byte (m_id (msg me)) (bytes_read (msg me)) buf in
    let me := set_msg (set_id id rd (msg me)) me in
    if m_len (msg me) =? 1 then
      if id =? PWP_MSGTYPE_CHOKE then Ok (mh_endmsg me, [pwp_conn_choke], buf, 1)
      else if id =? PWP_MSGTYPE_UNCHOKE then Ok (mh_endmsg me, [pwp_conn_unchoke], buf, 1)
      else if id =? PWP_MSGTYPE_INTERESTED then Ok (mh_endmsg me, [pwp_conn_interested], buf, 1)
      else if id =? PWP_MSGTYPE_UNINTERESTED then Ok (mh_endmsg me, [pwp_conn_uninterested], buf, 1)
      else Exit abort_code
    else if nhandlers me <? id then Ok (mh_endmsg me, [], buf, 0)
    else if negb (0 <? id) then Exit abort_code
    else if negb (id <? nhandlers me) then Exit abort_code
    else
      h ← load (handlers me) id;
      match h with
      | None => Exit abort_code
      | Some i => Ok (set_item i me, [], buf, 1)
      end.

Section handler.

(** A handler of the user with index [i]. *)
Context (custom : Z -> pwp_msghandler_private_t -> list Z -> res outcome).

Fixpoint mark_bits (n : nat) (ii val base : Z) (bf : Bitfield.bitfield_t) : res Bitfield.bitfield_t :=
  match n with
  | O => Ok bf
  | S n =>
      bf ← (if Z.shiftr (wrap_u8 (Z.shiftl val ii)) 7 =? 1
            then Bitfield.bitfield_mark bf (wrap_u32 (base + ii)) else Ok bf);
      mark_bits n (ii + 1) val base bf
  end.

Definition do_bitfield (me : pwp_msghandler_private_t) (buf : list Z) : res outcome :=
  let m := msg me in
  bf ← (if bytes_read m =? 5 then bf ← Bitfield.bitfield_new (wrap_u32 ((m_len m - 1) * 8)); Ok (Some bf) else Ok (m_bf m));
  match bf with
  | None => Undef
  | Some bf =>
      let '(val, rd, buf) := mh_byte 0 (bytes_read m) buf in
      bf ← mark_bits 8 0 val (wrap_u32 (wrap_u32 (rd - 5 - 1) * 8)) bf;
      let me := set_msg (set_bf (Some bf) (set_counts rd (tok_bytes_read m) m)) me in
      if wrap_u32 (4 + m_len m) =? rd then
        _ ← Bitfield.bitfield_free bf;
        Ok (mh_endmsg me, [pwp_conn_bitfield bf], buf, 1)
      else Ok (me, [], buf, 1)
  end.

(** The call through [process_item]. *)
Definition process (me : pwp_msghandler_private_t) (buf : list Z) : res outcome :=
  match process_item me with
  | pwp_length => do_length me buf
  | pwp_type => do_type me buf
  | pwp_have => do_have me buf
  | pwp_bitfield => do_bitfield me buf
  | pwp_request_pieceidx => do_request_pieceidx me buf
  | pwp_request_offset => do_request_offset me buf
  | pwp_request_len => do_request_len me buf
  | pwp_piece_pieceidx => do_piece_pieceidx me buf
  | pwp_piece_offset => do_piece_offset me buf
  | pwp_piece_data => do_piece_data me buf
  | pwp_cancel_pieceidx => do_cancel_pieceidx me buf
  | pwp_cancel_offset => do_cancel_offset me buf
  | pwp_cancel_len => do_cancel_len me buf
  | custom_item i => custom i me buf
  end.

Fixpoint dispatch_loop (fuel : nat) (me : pwp_msghandler_private_t) (buf : list Z) :
    res (pwp_msghandler_private_t * list conn_call * Z) :=
  match buf with
  | [] => Ok (me, [], 1)
  | _ =>
      match fuel with
      | O => OutOfFuel
      | S fuel =>
          '(me, calls, buf, r) ← process me buf;
          if r =? 0 then Ok (me, calls, 0)
          else
            '(me, calls', r) ← dispatch_loop fuel me buf;
            Ok (me, calls ++ calls', r)
      end
  end.

(** A standard handler takes at least one byte, or ends a message without taking one. *)
Definition pwp_msghandler_dispatch_from_buffer (me : pwp_msghandler_private_t) (buf : list Z) :
    res (pwp_msghandler_private_t * list conn_call * Z) :=
  dispatch_loop (2 * List.length buf + 1) me buf.

(** The buffers a connection hands over one after the other. *)
Fixpoint receive (me : pwp_msghandler_private_t) (chunks : list (list Z)) :
    res (pwp_msghandler_private_t * list conn_call) :=
  match chunks with
  | [] => Ok (me, [])
  | c :: chunks =>
      '(me, calls, r) ← pwp_msghandler_dispatch_from_buffer me c;
      if r =? 0 then Ok (me, calls)
      else
        '(me, calls') ← receive me chunks;
        Ok (me, calls ++ calls')
  end.
End handler.
End PwpHandler.
