(* ===== verification/PwpChunks.v ===== *)
(** * How the bytes of a peer are cut does not matter

    A call of a handler on a buffer [c1 ++ c2] does what two calls on [c1] and [c2]
    do, up to the cut of a block of data into several calls to the connection. *)

From S2P Require Import Prelude Bitfield PwpStream PwpHandler.

Module PwpChunks.
Import PwpStream PwpHandler.

(** ** What the connection is told *)

(** A byte of a block at its place, or another call. *)
Inductive atom : Type :=
  | block_byte (piece off b : Z)
  | other_call (c : conn_call).

Definition atoms_of (c : conn_call) : list atom :=
  match c with
  | pwp_conn_piece blk data => imap (fun i b => block_byte (piece_idx blk) (wrap_u32 (offset blk + Z.of_nat i)) b) data
  | c => [other_call c]
  end.

Definition atoms (cs : list conn_call) : list atom := cs ≫= atoms_of.

Lemma atoms_app a b : atoms (a ++ b) = atoms a ++ atoms b.
Proof. unfold atoms. apply bind_app. Qed.

(** ** Words *)

(** The field of a word: what is written is read, and a second write wins. *)
Class Field (get : msg_t -> Z) (put : Z -> msg_t -> msg_t) : Prop := {
  field_get : forall v rd tok m, get (put v (set_counts rd tok m)) = v;
  field_put : forall v w rd tok rd' tok' m,
    put w (set_counts rd' tok' (put v (set_counts rd tok m))) = put w (set_counts rd' tok' m);
  field_counts : forall v rd tok m,
    bytes_read (put v (set_counts rd tok m)) = rd /\ tok_bytes_read (put v (set_counts rd tok m)) = tok
}.

#[export] Instance field_len : Field m_len set_len.
Proof. by split. Qed.
#[export] Instance field_piece_idx : Field (fun m => piece_idx (m_blk m)) put_piece_idx.
Proof. by split. Qed.
#[export] Instance field_offset : Field (fun m => offset (m_blk m)) put_offset.
Proof. by split. Qed.
#[export] Instance field_blk_len : Field (fun m => PwpHandler.len (m_blk m)) put_blk_len.
Proof. by split. Qed.

Lemma mh_uint32_app v tok rd c1 c2 :
  mh_uint32 v tok rd (c1 ++ c2) =
    let '(fin, v', tok', rd', rest) := mh_uint32 v tok rd c1 in
    if fin : bool then (true, v', tok', rd', rest ++ c2) else mh_uint32 v' tok' rd' c2.
Proof.
  revert v tok rd. induction c1 as [|b c1 IH]; intros v tok rd; simpl.
  - destruct (Z.eqb_spec tok 4) as [->|Hne]; [by destruct c2|]. done.
  - destruct (tok =? 4); [done|]. apply IH.
Qed.

(** A word that is not complete has taken all the bytes there were. *)
Lemma mh_uint32_partial v tok rd c v' tok' rd' rest :
  mh_uint32 v tok rd c = (false, v', tok', rd', rest) -> 0 <= tok < 4 ->
  rest = [] /\ tok' = tok + Z.of_nat (List.length c) /\ tok' < 4 /\ rd' = wrap_u32 (rd + Z.of_nat (List.length c)) \/ c = [].
Proof.
  revert v tok rd. induction c as [|b c IH]; intros v tok rd H Ht; [by right|]. left. simpl in H.
  destruct (Z.eqb_spec tok 4); [lia|]. rewrite (wrap_u32_id (tok + 1)) in H by lia.
  destruct (decide (tok + 1 = 4)) as [E|E].
  { exfalso. rewrite E in H. destruct c; simpl in H; discriminate H. }
  destruct (IH _ _ _ H ltac:(lia)) as [(-> & -> & Hlt & ->)| ->].
  - simpl length. split_and!; try done; try lia.
    unfold wrap_u32. rewrite Zplus_mod_idemp_l. f_equal. lia.
  - simpl in H. destruct (Z.eqb_spec (tok + 1) 4); [lia|]. injection H as <- <- <- <-. simpl. split_and!; try done; lia.
Qed.

(** A complete word has taken at least one byte. *)
Lemma mh_uint32_done v tok rd c v' tok' rd' rest :
  mh_uint32 v tok rd c = (true, v', tok', rd', rest) -> 0 <= tok < 4 ->
  tok' = 0 /\ (List.length rest < List.length c)%nat /\ is_u32 v' /\ rd' = wrap_u32 (rd + (4 - tok)).
Proof.
  revert v tok rd. induction c as [|b c IH]; intros v tok rd H Ht; simpl in H.
  - destruct (Z.eqb_spec tok 4); [lia|discriminate H].
  - destruct (Z.eqb_spec tok 4); [lia|]. rewrite (wrap_u32_id (tok + 1)) in H by lia.
    destruct (decide (tok + 1 = 4)) as [E|E].
    + rewrite E in H. assert (forall w r, mh_uint32 w 4 r c = (true, fe w, 0, r, c)) as E4 by (by destruct c).
      rewrite E4 in H. injection H as <- <- <- <-. split_and!; [done|simpl; lia|apply fe_u32|]. f_equal. lia.
    + destruct (IH _ _ _ H ltac:(lia)) as (-> & Hl & Hu & ->). split_and!; [done|simpl; lia|done|].
      unfold wrap_u32. rewrite Zplus_mod_idemp_l. f_equal. lia.
Qed.

(** ** The invariant of a handler *)

Definition is_custom (i : item) : bool := match i with custom_item _ => true | _ => false end.

(** The standard table; counters that fit the token that is expected. *)
Record wf (me : pwp_msghandler_private_t) : Prop := {
  wf_table : handlers me = handlers pwp_msghandler_new /\ nhandlers me = 9;
  wf_item : is_custom (process_item me) = false;
  wf_tok : 0 <= tok_bytes_read (msg me) < 4;
  wf_length : process_item me = pwp_length -> bytes_read (msg me) = tok_bytes_read (msg me);
  wf_type : process_item me = pwp_type -> bytes_read (msg me) = 4 /\ tok_bytes_read (msg me) = 0;
  wf_len : process_item me <> pwp_length -> is_u32 (m_len (msg me))
}.

Lemma new_wf : wf pwp_msghandler_new.
Proof. split; done. Qed.

Lemma endmsg_wf me : wf me -> wf (mh_endmsg me).
Proof. intros []. by split. Qed.
(** ** One call *)

Lemma read_word_ok get put next me c :
  exists me' k rest, read_word get put next me c = Ok (me', k, rest, 1).
Proof.
  unfold read_word. destruct (mh_uint32 _ _ _ c) as [[[[fin v] tok] rd] rest].
  destruct fin; [destruct (next _)|]; eauto.
Qed.

Lemma read_word_split get put `{!Field get put} next me c1 c2 :
  c1 <> [] -> 0 <= tok_bytes_read (msg me) < 4 ->
  (exists me' k rest, read_word get put next me c1 = Ok (me', k, rest, 1) /\
     read_word get put next me (c1 ++ c2) = Ok (me', k, rest ++ c2, 1)) \/
  (exists me1, read_word get put next me c1 = Ok (me1, [], [], 1) /\ process_item me1 = process_item me /\
     read_word get put next me (c1 ++ c2) = read_word get put next me1 c2).
Proof.
  intros Hne Ht. unfold read_word. rewrite mh_uint32_app.
  destruct (mh_uint32 (get (msg me)) (tok_bytes_read (msg me)) (bytes_read (msg me)) c1) as [[[[fin v] tok] rd] rest] eqn:E.
  destruct fin.
  - left. destruct (next _) as [me' k]. eauto.
  - right. destruct (mh_uint32_partial _ _ _ _ _ _ _ _ E Ht) as [(-> & _)| ->]; [|done].
    eexists. split; [done|]. split; [done|]. simpl. rewrite field_get. destruct (field_counts v rd tok (msg me)) as [-> ->].
    destruct (mh_uint32 v tok rd c2) as [[[[fin' v'] tok'] rd'] rest']. by rewrite field_put.
Qed.

(** The token of a block of data does not read the length it leaves behind. *)
Definition norm (me : pwp_msghandler_private_t) : pwp_msghandler_private_t :=
  match process_item me with
  | pwp_piece_data => set_msg (put_blk_len 0 (msg me)) me
  | _ => me
  end.

(** What is said of a call on [c1] and one on [c1 ++ c2]: the first one took the same
    bytes, or it took all of [c1] and a call on [c2] does the rest; or both fail. *)
Definition splits (P : pwp_msghandler_private_t -> list Z -> res outcome) (me : pwp_msghandler_private_t) (c1 c2 : list Z) : Prop :=
  match P me c1 with
  | Ok (me', k, rest, r) =>
      P me (c1 ++ c2) = Ok (me', k, rest ++ c2, r) \/
      (rest = [] /\ r = 1 /\ process_item me' = process_item me /\
       exists me2 k2 rest2 me2' k', P me' c2 = Ok (me2, k2, rest2, 1) /\ P me (c1 ++ c2) = Ok (me2', k', rest2, 1) /\
         norm me2' = norm me2 /\ atoms k' = atoms (k ++ k2))
  | e => P me (c1 ++ c2) = e
  end.

Lemma read_word_splits get put `{!Field get put} next me c1 c2 :
  c1 <> [] -> 0 <= tok_bytes_read (msg me) < 4 -> splits (read_word get put next) me c1 c2.
Proof.
  intros Hne Ht. unfold splits.
  destruct (read_word_split get put next me c1 c2 Hne Ht) as [(me' & k & rest & -> & ->)|(me1 & -> & Ei & E2)]; [by left|].
  right. rewrite E2. destruct (read_word_ok get put next me1 c2) as (me2 & k2 & rest2 & E). rewrite E.
  split_and!; try done. by exists me2, k2, rest2, me2, k2.
Qed.

(** The bytes of a block, cut in two. *)
Lemma imap_split (piece off : Z) (a b : list Z) :
  imap (fun i x => block_byte piece (wrap_u32 (off + Z.of_nat i)) x) (a ++ b) =
    imap (fun i x => block_byte piece (wrap_u32 (off + Z.of_nat i)) x) a ++
    imap (fun i x => block_byte piece (wrap_u32 (wrap_u32 (off + Z.of_nat (List.length a)) + Z.of_nat i)) x) b.
Proof.
  rewrite imap_app. f_equal. apply imap_ext. intros i x _. simpl. unfold wrap_u32. rewrite Zplus_mod_idemp_l.
  do 2 f_equal. lia.
Qed.

(** How many bytes of the block are still to come. *)
Definition to_come (me : pwp_msghandler_private_t) : Z := wrap_u32 (m_len (msg me) - 9).

Lemma piece_data_eq me c :
  Z.of_nat (List.length c) < 2 ^ 31 ->
  let size := Z.min (Z.of_nat (List.length c)) (to_come me) in
  let m := msg me in
  let m' := set_len (wrap_u32 (m_len m - size))
    (set_blk (mk_block (piece_idx (m_blk m)) (wrap_u32 (offset (m_blk m) + size)) size) m) in
  do_piece_data me c =
    Ok (if m_len m' =? 9 then mh_endmsg me else set_msg m' me,
        [pwp_conn_piece (mk_block (piece_idx (m_blk m)) (offset (m_blk m)) size) (take (Z.to_nat size) c)],
        drop (Z.to_nat size) c, 1).
Proof.
  intros Hc size m m'. unfold do_piece_data.
  replace (m_len (msg me) - 1 - 4 - 4) with (m_len (msg me) - 9) by lia. fold (to_come me).
  assert (0 <= to_come me) by (apply Z.mod_pos_bound; lia).
  rewrite wrap_int_id by (unfold in_int, int_min, int_max; lia). fold size.
  rewrite (wrap_u32_id size) by (unfold size; lia). done.
Qed.

Lemma piece_data_splits me c1 c2 :
  process_item me = pwp_piece_data -> is_u32 (m_len (msg me)) -> c1 <> [] ->
  Z.of_nat (List.length (c1 ++ c2)) < 2 ^ 31 -> splits do_piece_data me c1 c2.
Proof.
  intros Hi Hu Hne Hlen. rewrite length_app in Hlen. unfold splits.
  rewrite !piece_data_eq by (rewrite ?length_app; lia). cbn zeta. rewrite length_app.
  assert (0 <= to_come me < 2 ^ 32) as Hk by (apply Z.mod_pos_bound; lia).
  destruct (decide (to_come me <= Z.of_nat (List.length c1))) as [Hle|Hgt].
  - left. rewrite !Z.min_r by lia. rewrite take_app_le, drop_app_le by lia. done.
  - right. set (n1 := Z.of_nat (List.length c1)) in *. set (n2 := Z.of_nat (List.length c2)) in *.
    rewrite (Z.min_l n1) by lia.
    assert (0 < n1) as Hn1 by (unfold n1; destruct c1; [done|simpl; lia]).
    assert (to_come me = m_len (msg me) - 9 \/ to_come me = m_len (msg me) - 9 + 2 ^ 32) as Hto.
    { unfold to_come, wrap_u32, is_u32 in *. destruct (decide (9 <= m_len (msg me))).
      - left. apply Z.mod_small. lia.
      - right. rewrite <- (Z.mod_unique _ (2 ^ 32) (-1) (m_len (msg me) - 9 + 2 ^ 32)); lia. }
    assert (m_len (msg me) - n1 <> 9 /\ (wrap_u32 (m_len (msg me) - n1) =? 9) = false) as [_ H9].
    { split; [lia|]. apply Z.eqb_neq. unfold wrap_u32, is_u32 in *. intros H9.
      pose proof (Z.div_mod (m_len (msg me) - n1) (2 ^ 32) ltac:(lia)) as Hd. rewrite H9 in Hd.
      assert (to_come me - n1 = 2 ^ 32 * ((m_len (msg me) - n1) / 2 ^ 32) \/
              to_come me - n1 = 2 ^ 32 * ((m_len (msg me) - n1) / 2 ^ 32 + 1)) as [|] by lia; nia. }
    assert (forall a b, m_len (set_len a b) = a) as El by done. rewrite !El, !H9. rewrite (drop_ge c1), (take_ge c1) by lia.
    set (me1 := set_msg _ me).
    assert (to_come me1 = to_come me - n1) as Hto1.
    { unfold to_come, me1. simpl. unfold wrap_u32. rewrite Zminus_mod_idemp_l.
      replace (m_len (msg me) - n1 - 9) with ((m_len (msg me) - 9) - n1) by lia.
      rewrite <- Zminus_mod_idemp_l. fold (wrap_u32 (m_len (msg me) - 9)). fold (to_come me). apply Z.mod_small. lia. }
    split_and!; [done|done|done|].
    rewrite ?Hto1. fold n2.
    set (s2 := Z.min n2 (to_come me - n1)).
    replace (Z.min (Z.of_nat (List.length c1 + List.length c2)) (to_come me)) with (n1 + s2) by (unfold s2, n1, n2; lia).
    assert (0 <= s2) by (unfold s2; lia).
    do 5 eexists. split; [done|]. split; [|split].
    + rewrite (drop_app_ge c1) by lia. replace (Z.to_nat (n1 + s2) - List.length c1)%nat with (Z.to_nat s2) by lia. done.
    + unfold me1. simpl m_len. cbn [msg set_msg].
      replace (wrap_u32 (wrap_u32 (m_len (msg me) - n1) - s2)) with (wrap_u32 (m_len (msg me) - (n1 + s2)))
        by (unfold wrap_u32; rewrite Zminus_mod_idemp_l; f_equal; lia).
      destruct (wrap_u32 (m_len (msg me) - (n1 + s2)) =? 9); [done|].
      unfold norm. simpl. rewrite Hi. unfold set_msg, put_blk_len, set_blk, set_len. simpl. do 3 f_equal.
      unfold wrap_u32. rewrite Zplus_mod_idemp_l. f_equal. lia.
    + unfold atoms. simpl. rewrite !app_nil_r. rewrite take_app_ge by lia.
      replace (Z.to_nat (n1 + s2) - List.length c1)%nat with (Z.to_nat s2) by lia. unfold me1. simpl.
      rewrite imap_split. done.
Qed.
(** The two ways a call on a word ends. *)
Lemma read_word_result get put next me c me' k rest r :
  read_word get put next me c = Ok (me', k, rest, r) -> c <> [] -> 0 <= tok_bytes_read (msg me) < 4 ->
  r = 1 /\ (List.length rest < List.length c)%nat /\
  ((exists v tok, 0 <= tok < 4 /\ tok = tok_bytes_read (msg me) + Z.of_nat (List.length c) /\ k = [] /\ rest = [] /\
      me' = set_msg (put v (set_counts (wrap_u32 (bytes_read (msg me) + Z.of_nat (List.length c))) tok (msg me))) me) \/
   (exists v, is_u32 v /\
      (me', k) = next (set_msg (put v (set_counts (wrap_u32 (bytes_read (msg me) + (4 - tok_bytes_read (msg me)))) 0 (msg me))) me))).
Proof.
  intros H Hne Ht. unfold read_word in H.
  destruct (mh_uint32 (get (msg me)) (tok_bytes_read (msg me)) (bytes_read (msg me)) c) as [[[[fin v] tok] rd] rest1] eqn:E.
  destruct fin.
  - destruct (mh_uint32_done _ _ _ _ _ _ _ _ E Ht) as (-> & Hl & Hu & ->).
    destruct (next _) as [m1 k1] eqn:En. injection H as <- <- <- <-. split_and!; [done|done|]. right. exists v. by rewrite En.
  - destruct (mh_uint32_partial _ _ _ _ _ _ _ _ E Ht) as [(-> & Et & Hlt & ->)| ->]; [|done].
    injection H as <- <- <- <-. split_and!; [done|destruct c; [done|simpl; lia]|]. left. exists v, tok.
    split_and!; try done; lia.
Qed.

(** A word of the body of a message: the item and the length of the message stay, or
    [next] goes on to another item of the body, or to the end of the message. *)
Lemma read_body_wf get put next me c me' k rest r :
  wf me -> process_item me <> pwp_length -> process_item me <> pwp_type ->
  (forall v rd tok m, m_len (put v (set_counts rd tok m)) = m_len m /\ tok_bytes_read (put v (set_counts rd tok m)) = tok) ->
  (forall m1, (exists i, next m1 = (set_item i m1, []) /\ is_custom i = false /\ i <> pwp_length /\ i <> pwp_type) \/
              (exists k1, next m1 = (mh_endmsg m1, k1))) ->
  read_word get put next me c = Ok (me', k, rest, r) -> c <> [] -> wf me'.
Proof.
  intros Hwf Hnl Hnt Hput Hnext H Hne. pose proof Hwf as [Htab Hit Htok Hl Ht Hlen].
  destruct (read_word_result _ _ _ _ _ _ _ _ _ H Hne Htok) as (_ & _ & [(v & tok & Hr & _ & _ & _ & ->)|(v & Hu & E)]).
  - destruct (Hput v (wrap_u32 (bytes_read (msg me) + Z.of_nat (List.length c))) tok (msg me)) as [E1 E2].
    split; simpl; try done; [by rewrite E2|by rewrite E1; auto].
  - set (m1 := set_msg _ me) in E. set (rd := wrap_u32 (bytes_read (msg me) + (4 - tok_bytes_read (msg me)))) in *.
    destruct (Hput v rd 0 (msg me)) as [E1 E2]. destruct (Hnext m1) as [(i & En & Hc & Hi1 & Hi2)|(k1 & En)]; rewrite En in E.
    + injection E as -> _. split; simpl; try done; [rewrite E2; lia|rewrite E1; auto].
    + injection E as -> _. by apply (endmsg_wf me).
Qed.

Definition pd (me : pwp_msghandler_private_t) : nat := match process_item me with pwp_piece_data => 1 | _ => 0 end.
Definition measure (me : pwp_msghandler_private_t) (c : list Z) : nat := 2 * List.length c + pd me.

Lemma measure_less me me' rest c :
  (List.length rest < List.length c)%nat -> (measure me' rest < measure me c)%nat.
Proof. intros H. unfold measure. assert (pd me' <= 1)%nat by (unfold pd; destruct (process_item me'); lia). lia. Qed.

Lemma do_length_result me c me' k rest r :
  wf me -> process_item me = pwp_length -> c <> [] -> do_length me c = Ok (me', k, rest, r) ->
  wf me' /\ (measure me' rest < measure me c)%nat.
Proof.
  intros Hwf Hi Hne H. pose proof Hwf as [Htab Hit Htok Hl Ht Hlen]. specialize (Hl Hi). unfold do_length in H.
  rewrite (proj2 (Z.ltb_lt _ _)) in H by lia. simpl in H.
  destruct (read_word_result _ _ _ _ _ _ _ _ _ H Hne Htok) as (_ & Hless & Hcase). split; [|by apply measure_less].
  destruct Hcase as [(v & tok & Hr & Etok & _ & _ & ->)|(v & Hu & E)].
  - split; simpl; try done; rewrite Hi; try done. intros _. rewrite Hl. rewrite wrap_u32_id; lia.
  - simpl in E. destruct (v =? 0); injection E as -> ->; [by apply (endmsg_wf me)|].
    split; simpl; try done. intros _. split; [|done]. rewrite Hl, wrap_u32_id; lia.
Qed.

(** The first byte of a buffer decides, and the rest is left. *)
Definition first_byte (P : pwp_msghandler_private_t -> list Z -> res outcome) (me : pwp_msghandler_private_t) (b : Z) : Prop :=
  exists R, forall c, P me (b :: c) = ('(m, k, r) ← R; Ok (m, k, c, r)).

Lemma first_byte_splits P me b c c2 : first_byte P me b -> splits P me (b :: c) c2.
Proof.
  intros [R HR]. unfold splits. simpl. rewrite !HR. destruct R as [[[m k] r]| | |]; simpl; [by left|done..].
Qed.

Lemma do_type_first me b : first_byte do_type me b.
Proof.
  exists ('(m, k, _, r) ← do_type me [b]; Ok (m, k, r)). intros c. unfold do_type. simpl.
  repeat (case_match; try done).
  destruct (load (handlers me) b) as [h| | |]; simpl; try done. by destruct h.
Qed.

Lemma do_bitfield_first me b : first_byte do_bitfield me b.
Proof.
  exists ('(m, k, _, r) ← do_bitfield me [b]; Ok (m, k, r)). intros c. unfold do_bitfield. simpl.
  destruct (if bytes_read (msg me) =? 5 then _ else _) as [bf| | |]; simpl; try done. destruct bf as [bf|]; simpl; try done.
  match goal with |- mbind _ ?x = _ => destruct x as [bf'| | |]; simpl; try done end. by case_if.
Qed.

Lemma table_items :
  Forall (fun h => match h with Some i => is_custom i = false /\ i <> pwp_length /\ i <> pwp_type | None => True end)
    (handlers pwp_msghandler_new).
Proof. repeat constructor; done. Qed.

Lemma do_type_result me c me' k rest r :
  wf me -> process_item me = pwp_type -> c <> [] -> do_type me c = Ok (me', k, rest, r) ->
  wf me' /\ (measure me' rest < measure me c)%nat.
Proof.
  intros Hwf Hi Hne H. destruct c as [|b c]; [done|]. pose proof Hwf as [[Htab Hnh] Hit Htok Hl Ht Hlen].
  assert (wf (mh_endmsg me)) as Hend by (by apply endmsg_wf).
  unfold do_type in H. simpl in H. destruct (negb _); [discriminate H|].
  repeat (match type of H with context [if ?x then _ else _] => destruct x eqn:? end;
    try discriminate H; try (injection H as <- <- <- <-; split; [exact Hend|apply measure_less; simpl; lia])).
  apply res_bind_inv in H as (h & Hh & H). destruct h as [i|]; [|discriminate H]. injection H as <- <- <- <-.
  split; [|apply measure_less; simpl; lia]. rewrite Htab in Hh. apply load_inv in Hh as [_ Hh].
  destruct (Forall_lookup_1 _ _ _ _ table_items Hh) as (Hc & Hi1 & Hi2).
  split; simpl; try done. intros _. apply Hlen. by rewrite Hi.
Qed.

Lemma do_bitfield_result me c me' k rest r :
  wf me -> process_item me = pwp_bitfield -> c <> [] -> do_bitfield me c = Ok (me', k, rest, r) ->
  wf me' /\ (measure me' rest < measure me c)%nat.
Proof.
  intros Hwf Hi Hne H. destruct c as [|b c]; [done|]. pose proof Hwf as [Htab Hit Htok Hl Ht Hlen].
  unfold do_bitfield in H. apply res_bind_inv in H as (bf & _ & H). destruct bf as [bf|]; [|discriminate H].
  simpl in H. apply res_bind_inv in H as (bf' & _ & H).
  destruct (_ =? _); [discriminate H|]. injection H as <- <- <- <-.
  split; [|apply measure_less; simpl; lia]. split; simpl; try done; rewrite Hi; try done.
Qed.

Lemma do_piece_data_result me c me' k rest r :
  wf me -> process_item me = pwp_piece_data -> c <> [] -> Z.of_nat (List.length c) < 2 ^ 31 ->
  do_piece_data me c = Ok (me', k, rest, r) -> wf me' /\ (measure me' rest < measure me c)%nat.
Proof.
  intros Hwf Hi Hne Hc H. pose proof Hwf as [Htab Hit Htok Hl Ht Hlen].
  rewrite piece_data_eq in H by done. cbn zeta in H. injection H as <- <- <- <-.
  assert (0 <= to_come me) as H0 by (apply Z.mod_pos_bound; lia).
  specialize (Hlen ltac:(by rewrite Hi)). set (size := Z.min _ _). split.
  - case_if; [by apply (endmsg_wf me)|]. split; simpl; try done; rewrite Hi; try done. intros _. unfold is_u32.
    apply Z.mod_pos_bound. lia.
  - assert (0 < Z.of_nat (List.length c)) by (destruct c; [done|simpl; lia]).
    destruct (decide (size = 0)) as [E|E].
    + assert (to_come me = 0) as E0 by lia. unfold to_come, wrap_u32 in E0. rewrite E, Z.sub_0_r.
      assert (m_len (msg me) = 9) as E9.
      { unfold is_u32 in Hlen. pose proof (Z.div_mod (m_len (msg me) - 9) (2 ^ 32) ltac:(lia)). nia. }
      cbn [m_len set_len]. rewrite E9. change (wrap_u32 9 =? 9) with true. cbn iota. unfold measure, pd. rewrite Hi.
      cbn [process_item mh_endmsg]. change (Z.to_nat 0) with 0%nat. rewrite drop_0. lia.
    + apply measure_less. rewrite length_drop. unfold size in *. lia.
Qed.
(** ** A buffer *)

Section buffer.
Context (custom : Z -> pwp_msghandler_private_t -> list Z -> res outcome).

Notation process := (process custom).
Notation dispatch_loop := (dispatch_loop custom).
Notation dispatch := (pwp_msghandler_dispatch_from_buffer custom).

Lemma do_length_splits me c1 c2 : wf me -> process_item me = pwp_length -> c1 <> [] -> splits do_length me c1 c2.
Proof.
  intros Hwf Hi Hne. pose proof Hwf as [_ _ Htok Hl _ _]. specialize (Hl Hi).
  pose proof (read_word_splits m_len set_len (fun me => if m_len (msg me) =? 0 then (mh_endmsg me, [pwp_conn_keepalive])
    else (set_item pwp_type me, [])) me c1 c2 Hne Htok) as Hs.
  unfold splits in *. destruct (do_length me c1) as [[[[me' k] rest] r]| | |] eqn:E.
  2-4: exfalso; unfold do_length in E; rewrite (proj2 (Z.ltb_lt _ _)) in E by lia; simpl in E;
    edestruct (read_word_ok m_len set_len) as (? & ? & ? & E'); rewrite E' in E; discriminate E.
  destruct (do_length_result me c1 me' k rest r Hwf Hi Hne E) as [Hwf' _].
  unfold do_length in E. rewrite (proj2 (Z.ltb_lt _ _)) in E by lia. simpl negb in E. cbn iota in E. rewrite E in Hs.
  destruct Hs as [Hs|(-> & -> & Hi' & me2 & k2 & rest2 & me2' & k' & H1 & H2 & H3 & H4)].
  - left. unfold do_length. rewrite (proj2 (Z.ltb_lt _ _)) by lia. exact Hs.
  - right. split_and!; try done. exists me2, k2, rest2, me2', k'.
    unfold do_length. rewrite (proj2 (Z.ltb_lt (bytes_read (msg me)) 4)) by lia.
    rewrite (proj2 (Z.ltb_lt (bytes_read (msg me')) 4)); [done|].
    rewrite (wf_length _ Hwf') by (by rewrite Hi'). apply Hwf'.
Qed.

Lemma process_splits me c1 c2 :
  wf me -> c1 <> [] -> Z.of_nat (List.length (c1 ++ c2)) < 2 ^ 31 -> splits process me c1 c2.
Proof.
  intros Hwf Hne Hlen. pose proof Hwf as [_ Hit Htok _ _ Hu].
  assert (forall P, splits P me c1 c2 -> (forall m c, process_item m = process_item me -> process m c = P m c) -> splits process me c1 c2) as Hlift.
  { intros P Hs HP. unfold splits in *. rewrite (HP me c1), (HP me (c1 ++ c2)) by done.
    destruct (P me c1) as [[[[me' k] rest] r]| | |]; try done. destruct Hs as [?|(-> & -> & Hi' & Hs)]; [by left|].
    right. split_and!; try done. destruct Hs as (me2 & k2 & rest2 & me2' & k' & H1 & H2). exists me2, k2, rest2, me2', k'.
    by rewrite (HP me' c2). }
  destruct (process_item me) eqn:Ei; try discriminate Hit.
  all: let as_item P := (apply (Hlift P); [|intros m c Em; unfold PwpHandler.process; by rewrite Em]) in
    first [ as_item do_length; by apply do_length_splits
          | as_item do_type; destruct c1; [done|]; apply first_byte_splits, do_type_first
          | as_item do_bitfield; destruct c1; [done|]; apply first_byte_splits, do_bitfield_first
          | as_item do_piece_data; apply piece_data_splits; by auto
          | as_item do_have; by apply read_word_splits; [apply _|..]
          | as_item do_request_pieceidx; by apply read_word_splits; [apply _|..]
          | as_item do_request_offset; by apply read_word_splits; [apply _|..]
          | as_item do_request_len; by apply read_word_splits; [apply _|..]
          | as_item do_piece_pieceidx; by apply read_word_splits; [apply _|..]
          | as_item do_piece_offset; by apply read_word_splits; [apply _|..]
          | as_item do_cancel_pieceidx; by apply read_word_splits; [apply _|..]
          | as_item do_cancel_offset; by apply read_word_splits; [apply _|..]
          | as_item do_cancel_len; by apply read_word_splits; [apply _|..] ].
Qed.

(** The next item after a word: another one, or the end of the message. *)
Lemma go_on_next i m1 : is_custom i = false -> i <> pwp_length -> i <> pwp_type ->
  (exists j, go_on i m1 = (set_item j m1, []) /\ is_custom j = false /\ j <> pwp_length /\ j <> pwp_type) \/
  (exists k1, go_on i m1 = (mh_endmsg m1, k1)).
Proof. intros. left. by exists i. Qed.

Lemma process_result me c me' k rest r :
  wf me -> c <> [] -> Z.of_nat (List.length c) < 2 ^ 31 -> process me c = Ok (me', k, rest, r) ->
  wf me' /\ (measure me' rest < measure me c)%nat.
Proof.
  intros Hwf Hne Hc H. pose proof Hwf as [_ Hit Htok _ _ _]. unfold PwpHandler.process in H.
  destruct (process_item me) eqn:Ei; try discriminate Hit.
  all: first
    [ by eapply do_length_result | by eapply do_type_result | by eapply do_bitfield_result | by eapply do_piece_data_result
    | split; [|apply measure_less; by destruct (read_word_result _ _ _ _ _ _ _ _ _ H Hne Htok) as (_ & Hless & _)];
      refine (read_body_wf _ _ _ _ _ _ _ _ _ Hwf _ _ _ _ H Hne); [by rewrite Ei|by rewrite Ei|done|];
      intros; first [by apply go_on_next | right; eexists; reflexivity] ].
Qed.

(** More fuel changes nothing, and the fuel of a buffer is enough. *)
Lemma dispatch_enough n me c :
  wf me -> Z.of_nat (List.length c) < 2 ^ 31 -> (measure me c <= n)%nat ->
  dispatch_loop n me c = dispatch me c /\
  (forall me' k r, dispatch_loop n me c = Ok (me', k, r) -> wf me').
Proof.
  assert (forall n1 n2 me c, wf me -> Z.of_nat (List.length c) < 2 ^ 31 -> (measure me c <= n1)%nat -> (measure me c <= n2)%nat ->
    dispatch_loop n1 me c = dispatch_loop n2 me c /\ (forall me' k r, dispatch_loop n1 me c = Ok (me', k, r) -> wf me')) as Hmain.
  { intros n1. induction n1 as [|n1 IH]; intros n2 m c0 Hwf Hc H1 H2.
    - destruct c0 as [|b c0]; [|unfold measure in H1; simpl in H1; lia].
      split; [by destruct n2|]. by intros me' k r [= <- _ _].
    - destruct c0 as [|b c0]; [split; [by destruct n2|]; by intros me' k r [= <- _ _]|].
      destruct n2 as [|n2]; [unfold measure in H2; simpl in H2; lia|]. cbn [PwpHandler.dispatch_loop].
      destruct (process m (b :: c0)) as [[[[m1 k1] rest] r1]| | |] eqn:E; simpl; try done.
      destruct (process_result m (b :: c0) _ _ _ _ Hwf ltac:(discriminate) Hc E) as [Hwf1 Hm].
      destruct (r1 =? 0); [split; [done|]; by intros me' k r [= <- _ _]|].
      assert (Z.of_nat (List.length rest) < 2 ^ 31) as Hr.
      { assert (List.length rest <= List.length (b :: c0))%nat; [|lia].
        unfold measure in Hm. assert (pd m <= 1)%nat by (unfold pd; destruct (process_item m); lia). lia. }
      destruct (IH n2 m1 rest Hwf1 Hr ltac:(lia) ltac:(lia)) as [-> Hw].
      destruct (IH n2 m1 rest Hwf1 Hr ltac:(lia) ltac:(lia)) as [E2 Hw2]. split; [done|].
      intros me' k r. rewrite <- E2. destruct (dispatch_loop n1 m1 rest) as [[[m2 k2] r2]| | |] eqn:E3; simpl; try done.
      intros [= <- _ _]. by eapply Hw2. }
  intros Hwf Hc Hn. apply (Hmain n _ me c); try done. unfold measure, pd. destruct (process_item me); lia.
Qed.

(** The loop, without the fuel. *)
Lemma dispatch_cons me b c :
  wf me -> Z.of_nat (List.length (b :: c)) < 2 ^ 31 ->
  dispatch me (b :: c) =
    ('(me, calls, buf, r) ← process me (b :: c);
     if r =? 0 then Ok (me, calls, 0)
     else '(me, calls', r) ← dispatch me buf; Ok (me, calls ++ calls', r)).
Proof.
  intros Hwf Hc. unfold pwp_msghandler_dispatch_from_buffer.
  remember (2 * List.length (b :: c))%nat as n eqn:En. replace (n + 1)%nat with (S n) by lia. cbn [PwpHandler.dispatch_loop].
  destruct (process me (b :: c)) as [[[[m1 k1] rest] r1]| | |] eqn:E; simpl mbind; try done.
  destruct (process_result me (b :: c) _ _ _ _ Hwf ltac:(discriminate) Hc E) as [Hwf1 Hm]. destruct (r1 =? 0); [done|].
  assert (measure me (b :: c) <= n + 1)%nat by (unfold measure, pd; destruct (process_item me); lia).
  assert (Z.of_nat (List.length rest) < 2 ^ 31) as Hr.
  { unfold measure in *. lia. }
  by rewrite (proj1 (dispatch_enough n m1 rest Hwf1 Hr ltac:(lia))).
Qed.

(** ** Cut buffers *)

(** What the connection is told, and the handler up to the length of a block that no
    one reads. *)
Definition told (r : res (pwp_msghandler_private_t * list conn_call * Z)) : res (pwp_msghandler_private_t * list atom * Z) :=
  '(me, calls, z) ← r; Ok (norm me, atoms calls, z).

Definition prefix (k : list conn_call) (r : res (pwp_msghandler_private_t * list conn_call * Z)) :
    res (pwp_msghandler_private_t * list conn_call * Z) :=
  '(me, calls, z) ← r; Ok (me, k ++ calls, z).

Lemma told_prefix k k' r r' : told r = told r' -> atoms k = atoms k' -> told (prefix k r) = told (prefix k' r').
Proof.
  destruct r as [[[m c] z]| | |], r' as [[[m' c'] z']| | |]; simpl; try done.
  intros [= Hm Hc ->] Hk. by rewrite !atoms_app, Hm, Hc, Hk.
Qed.

Lemma prefix_prefix k1 k2 r : prefix k1 (prefix k2 r) = prefix (k1 ++ k2) r.
Proof. destruct r as [[[m c] z]| | |]; simpl; try done. by rewrite app_assoc. Qed.

Lemma norm_norm me : norm (norm me) = norm me.
Proof. unfold norm. by destruct (process_item me) eqn:E; simpl; rewrite ?E. Qed.

Lemma process_norm me c : process (norm me) c = process me c.
Proof. unfold PwpHandler.process, norm. destruct (process_item me) eqn:E; simpl; rewrite E; done. Qed.

Lemma dispatch_norm me me' c : norm me = norm me' -> told (dispatch me c) = told (dispatch me' c).
Proof.
  intros Hn. unfold pwp_msghandler_dispatch_from_buffer. destruct c as [|b c]; [simpl; by rewrite Hn|].
  replace (2 * List.length (b :: c) + 1)%nat with (S (2 * List.length c + 2)) by (simpl; lia). cbn [PwpHandler.dispatch_loop].
  by rewrite <- (process_norm me), Hn, process_norm.
Qed.

(** Two buffers one after the other. *)
Definition both (me : pwp_msghandler_private_t) (c1 c2 : list Z) : res (pwp_msghandler_private_t * list conn_call * Z) :=
  '(me, k, r) ← dispatch me c1; if r =? 0 then Ok (me, k, 0) else prefix k (dispatch me c2).

Lemma dispatch_app n me c1 c2 :
  wf me -> c2 <> [] -> Z.of_nat (List.length (c1 ++ c2)) < 2 ^ 31 -> (measure me c1 <= n)%nat ->
  told (dispatch me (c1 ++ c2)) = told (both me c1 c2).
Proof.
  revert me c1. induction n as [|n IH]; intros me c1 Hwf Hne Hlen Hn.
  { destruct c1; [|unfold measure in Hn; simpl in Hn; lia]. unfold both. simpl. by destruct (dispatch me c2) as [[[m k] r]| | |]. }
  destruct c1 as [|b c1]; [unfold both; simpl; by destruct (dispatch me c2) as [[[m k] r]| | |]|].
  assert (Z.of_nat (List.length (b :: c1)) < 2 ^ 31) as Hlen1 by (rewrite length_app in Hlen; lia).
  pose proof (process_splits me (b :: c1) c2 Hwf ltac:(discriminate) Hlen) as Hs.
  unfold both. rewrite (dispatch_cons me b c1) by done. change ((b :: c1) ++ c2) with (b :: (c1 ++ c2)) in *.
  rewrite dispatch_cons by done. unfold splits in Hs. change ((b :: c1) ++ c2) with (b :: (c1 ++ c2)) in Hs.
  destruct (process me (b :: c1)) as [[[[me' k] rest] r]| | |] eqn:E; [|by rewrite Hs..].
  destruct (process_result me (b :: c1) _ _ _ _ Hwf ltac:(discriminate) Hlen1 E) as [Hwf' Hm].
  destruct Hs as [Hs|(-> & -> & _ & me2 & k2 & rest2 & me2' & k' & H1 & H2 & H3 & H4)].
  - rewrite Hs. simpl mbind. destruct (r =? 0) eqn:Er; [done|].
    assert (Z.of_nat (List.length (rest ++ c2)) < 2 ^ 31) as Hlen'.
    { rewrite length_app in *. simpl in Hlen. unfold measure in Hm. simpl in Hm.
      assert (pd me <= 1)%nat by (unfold pd; destruct (process_item me); lia). rewrite length_app in Hlen. lia. }
    pose proof (IH me' rest Hwf' Hne Hlen' ltac:(lia)) as Hrec.
    fold (prefix k (dispatch me' (rest ++ c2))). fold (prefix k (dispatch me' rest)).
    rewrite (told_prefix k k _ _ Hrec eq_refl). unfold both.
    destruct (dispatch me' rest) as [[[m1 k1] r1]| | |]; simpl; try done.
    destruct (r1 =? 0); simpl; [done|]. destruct (dispatch m1 c2) as [[[m2 k3] r2]| | |]; simpl; try done. by rewrite app_assoc.
  - rewrite H2. simpl mbind. change (1 =? 0) with false. cbn iota.
    change (dispatch me' []) with (Ok (me', @nil conn_call, 1)). simpl mbind. change (1 =? 0) with false. cbn iota.
    destruct c2 as [|b2 c2]; [done|]. rewrite (dispatch_cons me' b2 c2); [|done|simpl in Hlen |- *; rewrite length_app in Hlen; simpl in Hlen; lia].
    rewrite H1. simpl mbind. change (1 =? 0) with false. cbn iota. rewrite app_nil_r.
    fold (prefix k' (dispatch me2' rest2)). fold (prefix k2 (dispatch me2 rest2)). rewrite prefix_prefix.
    apply told_prefix; [by apply dispatch_norm|done].
Qed.
(** ** Any number of buffers *)

(** What the connection has heard after all buffers. *)
Definition heard (r : res (pwp_msghandler_private_t * list conn_call)) : res (pwp_msghandler_private_t * list atom) :=
  '(me, calls) ← r; Ok (norm me, atoms calls).

Lemma dispatch_wf me c me' k r :
  wf me -> Z.of_nat (List.length c) < 2 ^ 31 -> dispatch me c = Ok (me', k, r) -> wf me'.
Proof.
  intros Hwf Hc H. eapply (dispatch_enough (2 * List.length c + 1) me c); [done|done| |exact H].
  unfold measure, pd. destruct (process_item me); lia.
Qed.

Lemma receive_empty me cs : concat cs = [] -> receive custom me cs = Ok (me, []).
Proof.
  revert me. induction cs as [|c cs IH]; intros me H; [done|]. simpl in H. apply app_eq_nil in H as [-> H].
  simpl. by rewrite IH.
Qed.

(** The buffers of a connection are one long buffer. *)
Lemma receive_concat me cs :
  wf me -> Z.of_nat (List.length (concat cs)) < 2 ^ 31 ->
  heard (receive custom me cs) = ('(me, calls, _) ← dispatch me (concat cs); Ok (norm me, atoms calls)).
Proof.
  revert me. induction cs as [|c cs IH]; intros me Hwf Hl; [done|]. simpl in Hl |- *.
  assert (Z.of_nat (List.length c) < 2 ^ 31 /\ Z.of_nat (List.length (concat cs)) < 2 ^ 31) as [Hc Hcs]
    by (rewrite length_app in Hl; lia).
  destruct (decide (concat cs = [])) as [E|E].
  { rewrite E, app_nil_r. destruct (dispatch me c) as [[[m k] r]| | |]; simpl; try done.
    destruct (r =? 0); [done|]. rewrite receive_empty by done. simpl. by rewrite app_nil_r. }
  assert (forall x, ('(m, calls, _) ← x; Ok (norm m, atoms calls)) = ('(m, k, _) ← told x; Ok (m, k))) as Htold
    by (intros [[[m k] r]| | |]; done).
  rewrite Htold, (dispatch_app (measure me c) me c (concat cs)) by done. rewrite <- Htold. unfold both.
  destruct (dispatch me c) as [[[m k] r]| | |] eqn:Ed; simpl; try done.
  pose proof (dispatch_wf _ _ _ _ _ Hwf Hc Ed) as Hm. destruct (r =? 0); [done|]. specialize (IH m Hm Hcs).
  destruct (receive _ m cs) as [[m1 k1]| | |], (dispatch m (concat cs)) as [[[m2 k2] r2]| | |]; simpl in *; try done.
  injection IH as E1 E2. by rewrite !atoms_app, E1, E2.
Qed.

(** C10: how the network cuts the bytes of a peer into buffers does not matter: two
    ways to cut the same bytes make the message handler tell the connection the same
    thing (the same calls in the same order, and for a block of data the same bytes at
    the same places, even though a cut block is told in several calls), leave it in the
    same state, and fail alike where the peer breaks the protocol. *)
Theorem pwp_chunks_irrelevant (cs cs' : list (list Z)) :
  concat cs = concat cs' -> Z.of_nat (List.length (concat cs)) < 2 ^ 31 ->
  heard (receive custom pwp_msghandler_new cs) = heard (receive custom pwp_msghandler_new cs').
Proof. intros E Hl. by rewrite !receive_concat, E by (rewrite <- ?E; auto using new_wf). Qed.
End buffer.

(** A request cut in three, and byte after byte. *)
Lemma pwp_chunks_irrelevant_witness :
  let cs := [[0; 0; 0]; [13; 6; 0; 0; 0; 2; 0; 0]; [0; 0; 0; 0; 64; 0]] in
  let cs' := map (fun b => [b]) (concat cs) in
  heard (receive (fun _ _ _ => Undef) pwp_msghandler_new cs) =
    heard (receive (fun _ _ _ => Undef) pwp_msghandler_new cs') /\
  atoms [pwp_conn_request (mk_block 2 0 16384)] =
    match heard (receive (fun _ _ _ => Undef) pwp_msghandler_new cs) with
    | Ok (_, k) => k
    | _ => []
    end.
Proof. split; [by apply pwp_chunks_irrelevant|by vm_compute]. Defined.
End PwpChunks.
