(* ===== verification/PwpConn.v ===== *)
(** * The connection with a peer (src/PUTs/01pwp/pwp_connection.c, pwp_bitfield.c)

    The state is the one of [pwp_conn_private_t], with what the callbacks were told
    kept in [told], the newest last.  The hash map of pending requests is a finite map
    from blocks to requests and the queues are lists: this is what LLHashmap.v and
    LLQueue.v prove of the same code (the copies under 01pwp/deps are identical).  A
    request is not changed while it is in the hash map, so requests are values.  The
    order in which the hash map lists its entries is an argument, and so is what the
    callbacks answer.  The callbacks other than [pollblock] do not call back into the
    connection; the log lines are left out; [malloc] is taken to succeed.

    [__conn_remove_pending_request] looks up the address of its pointer in place of the
    block: the hash map reads a block of three words where there are two, which is
    undefined.  The rest of that function is [cut_pending]. *)

From S2P Require Import Prelude Double Bitfield Chunkybar Meanqueue PwpStream PwpHandler.

Module PwpConn.
Import PwpStream.
Export PwpHandler(bt_block_t, mk_block, piece_idx, offset, len, abort_code).

Definition PC_HANDSHAKE_SENT : Z := 1.
Definition PC_HANDSHAKE_RECEIVED : Z := 2.
Definition PC_DISCONNECTED : Z := 4.
Definition PC_BITFIELD_RECEIVED : Z := 8.
Definition PC_CONNECTED : Z := 16.
Definition PC_UNCONTACTABLE_PEER : Z := 32.
Definition PC_IM_CHOKING : Z := 64.
Definition PC_IM_INTERESTED : Z := 128.
Definition PC_PEER_CHOKING : Z := 256.
Definition PC_PEER_INTERESTED : Z := 512.
Definition PC_FAILED_CONNECTION : Z := 1024.

#[global] Instance bt_block_countable : Countable bt_block_t.
Proof.
  apply (inj_countable' (fun b => (piece_idx b, offset b, len b)) (fun '(p, o, l) => mk_block p o l)).
  by intros [].
Defined.

Record request_t := mk_request { r_tick : Z; r_blk : bt_block_t }.

(** Which callbacks are set. *)
Record pwp_conn_cbs_t := mk_cbs {
  cb_send : bool;
  cb_disconnect : bool;
  cb_write_block_to_stream : bool;
  cb_pollblock : bool;
  cb_pushblock : bool;
  cb_peer_have_piece : bool;
  cb_peer_giveback_block : bool;
  cb_call_exclusively : bool
}.

(** The texts of [__disconnect]. *)
Inductive reason : Type :=
  | peer_dropped_connection
  | piece_idx_outside_of_boundary
  | peer_sent_bitfield_twice
  | peer_requested_when_choked
  | requested_piece_has_invalid_idx (piece : Z)
  | requested_piece_is_not_available (piece : Z)
  | peer_requested_piece_they_had (piece : Z)
  | invalid_block_request.

(** A call of a callback. *)
Inductive event : Type :=
  | Send (data : list Z)
  | Disconnect (r : reason)
  | Pollblock
  | Pushblock (blk : bt_block_t) (data : list Z)
  | Peer_have_piece (piece : Z)
  | Peer_giveback_block (blk : bt_block_t).

Abbreviation requests := (gmap bt_block_t request_t).

Record pwp_conn_private_t := mk_conn {
  flags : Z;
  failed_connections : Z;
  tick : Z;
  bytes_downloaded_this_period : Z;
  bytes_uploaded_this_period : Z;
  bytes_drate : Meanqueue.meanqueue_t;
  bytes_urate : Meanqueue.meanqueue_t;
  recv_reqs : requests;
  peer_reqs : list bt_block_t;
  reqs : list bt_block_t;
  piece_len : Z;
  num_pieces : Z;
  cb : pwp_conn_cbs_t;
  pieces_completed : option Chunkybar.chunkybar_t;
  pieces_peerhas : Chunkybar.chunkybar_t;
  told : list event
}.

(** ** Fields *)

Definition set_flags (v : Z) (me : pwp_conn_private_t) : pwp_conn_private_t :=
  mk_conn v (failed_connections me) (tick me) (bytes_downloaded_this_period me) (bytes_uploaded_this_period me)
    (bytes_drate me) (bytes_urate me) (recv_reqs me) (peer_reqs me) (reqs me) (piece_len me) (num_pieces me) (cb me)
    (pieces_completed me) (pieces_peerhas me) (told me).
Definition set_tick (v : Z) (me : pwp_conn_private_t) : pwp_conn_private_t :=
  mk_conn (flags me) (failed_connections me) v (bytes_downloaded_this_period me) (bytes_uploaded_this_period me)
    (bytes_drate me) (bytes_urate me) (recv_reqs me) (peer_reqs me) (reqs me) (piece_len me) (num_pieces me) (cb me)
    (pieces_completed me) (pieces_peerhas me) (told me).
Definition set_rates (down up : Z) (d u : Meanqueue.meanqueue_t) (me : pwp_conn_private_t) : pwp_conn_private_t :=
  mk_conn (flags me) (failed_connections me) (tick me) down up d u (recv_reqs me) (peer_reqs me) (reqs me)
    (piece_len me) (num_pieces me) (cb me) (pieces_completed me) (pieces_peerhas me) (told me).
Definition set_recv_reqs (m : requests) (me : pwp_conn_private_t) : pwp_conn_private_t :=
  mk_conn (flags me) (failed_connections me) (tick me) (bytes_downloaded_this_period me) (bytes_uploaded_this_period me)
    (bytes_drate me) (bytes_urate me) m (peer_reqs me) (reqs me) (piece_len me) (num_pieces me) (cb me)
    (pieces_completed me) (pieces_peerhas me) (told me).
Definition set_peer_reqs (q : list bt_block_t) (me : pwp_conn_private_t) : pwp_conn_private_t :=
  mk_conn (flags me) (failed_connections me) (tick me) (bytes_downloaded_this_period me) (bytes_uploaded_this_period me)
    (bytes_drate me) (bytes_urate me) (recv_reqs me) q (reqs me) (piece_len me) (num_pieces me) (cb me)
    (pieces_completed me) (pieces_peerhas me) (told me).
Definition set_reqs (q : list bt_block_t) (me : pwp_conn_private_t) : pwp_conn_private_t :=
  mk_conn (flags me) (failed_connections me) (tick me) (bytes_downloaded_this_period me) (bytes_uploaded_this_period me)
    (bytes_drate me) (bytes_urate me) (recv_reqs me) (peer_reqs me) q (piece_len me) (num_pieces me) (cb me)
    (pieces_completed me) (pieces_peerhas me) (told me).
Definition pwp_conn_set_piece_info (num len : Z) (me : pwp_conn_private_t) : pwp_conn_private_t :=
  mk_conn (flags me) (failed_connections me) (tick me) (bytes_downloaded_this_period me) (bytes_uploaded_this_period me)
    (bytes_drate me) (bytes_urate me) (recv_reqs me) (peer_reqs me) (reqs me) len num (cb me)
    (pieces_completed me) (pieces_peerhas me) (told me).
Definition pwp_conn_set_cbs (funcs : pwp_conn_cbs_t) (me : pwp_conn_private_t) : pwp_conn_private_t :=
  mk_conn (flags me) (failed_connections me) (tick me) (bytes_downloaded_this_period me) (bytes_uploaded_this_period me)
    (bytes_drate me) (bytes_urate me) (recv_reqs me) (peer_reqs me) (reqs me) (piece_len me) (num_pieces me) funcs
    (pieces_completed me) (pieces_peerhas me) (told me).
Definition pwp_conn_set_progress (counter : Chunkybar.chunkybar_t) (me : pwp_conn_private_t) : pwp_conn_private_t :=
  mk_conn (flags me) (failed_connections me) (tick me) (bytes_downloaded_this_period me) (bytes_uploaded_this_period me)
    (bytes_drate me) (bytes_urate me) (recv_reqs me) (peer_reqs me) (reqs me) (piece_len me) (num_pieces me) (cb me)
    (Some counter) (pieces_peerhas me) (told me).
Definition set_peerhas (c : Chunkybar.chunkybar_t) (me : pwp_conn_private_t) : pwp_conn_private_t :=
  mk_conn (flags me) (failed_connections me) (tick me) (bytes_downloaded_this_period me) (bytes_uploaded_this_period me)
    (bytes_drate me) (bytes_urate me) (recv_reqs me) (peer_reqs me) (reqs me) (piece_len me) (num_pieces me) (cb me)
    (pieces_completed me) c (told me).
Definition tell (e : event) (me : pwp_conn_private_t) : pwp_conn_private_t :=
  mk_conn (flags me) (failed_connections me) (tick me) (bytes_downloaded_this_period me) (bytes_uploaded_this_period me)
    (bytes_drate me) (bytes_urate me) (recv_reqs me) (peer_reqs me) (reqs me) (piece_len me) (num_pieces me) (cb me)
    (pieces_completed me) (pieces_peerhas me) (told me ++ [e]).

Definition no_cbs : pwp_conn_cbs_t := mk_cbs false false false false false false false false.

Definition pwp_conn_new : pwp_conn_private_t :=
  mk_conn (Z.lor PC_IM_CHOKING PC_PEER_CHOKING) 0 0 0 0 (Meanqueue.meanqueue_new 10) (Meanqueue.meanqueue_new 10)
    ∅ [] [] 0 0 no_cbs None (Chunkybar.chunky_new 0) [].

Definition pwp_conn_flag_is_set (me : pwp_conn_private_t) (flag : Z) : bool := negb (Z.land (flags me) flag =? 0).
Definition pwp_conn_peer_is_interested (me : pwp_conn_private_t) : bool := pwp_conn_flag_is_set me PC_PEER_INTERESTED.
Definition pwp_conn_im_choking (me : pwp_conn_private_t) : bool := pwp_conn_flag_is_set me PC_IM_CHOKING.
Definition pwp_conn_im_choked (me : pwp_conn_private_t) : bool := pwp_conn_flag_is_set me PC_PEER_CHOKING.
Definition pwp_conn_im_interested (me : pwp_conn_private_t) : bool := pwp_conn_flag_is_set me PC_IM_INTERESTED.

(** [flags |= f] and [flags &= ~f] *)
Definition raise_flag (f : Z) (me : pwp_conn_private_t) : pwp_conn_private_t := set_flags (Z.lor (flags me) f) me.
Definition lower_flag (f : Z) (me : pwp_conn_private_t) : pwp_conn_private_t :=
  set_flags (Z.land (flags me) (wrap_u32 (Z.lnot f))) me.

Definition pwp_conn_set_state (state : Z) (me : pwp_conn_private_t) : pwp_conn_private_t := set_flags (wrap_u32 state) me.
Definition pwp_conn_get_state (me : pwp_conn_private_t) : Z := wrap_int (flags me).

Definition pwp_conn_get_npending_requests (me : pwp_conn_private_t) : Z := Z.of_nat (size (recv_reqs me)).
Definition pwp_conn_get_npending_peer_requests (me : pwp_conn_private_t) : Z := Z.of_nat (List.length (peer_reqs me)).

Definition pwp_conn_get_download_rate (me : pwp_conn_private_t) : res Z :=
  double_to_int (Meanqueue.meanqueue_get_value (bytes_drate me)).
Definition pwp_conn_get_upload_rate (me : pwp_conn_private_t) : res Z :=
  double_to_int (Meanqueue.meanqueue_get_value (bytes_urate me)).

(** ** The hash map of requests, as LLHashmap.v has it *)

(** A new key counts; the count stays below 32768. *)
Definition recv_reqs_put (m : requests) (b : bt_block_t) (r : request_t) : res requests :=
  match m !! b with
  | Some _ => Ok (<[b := r]> m)
  | None => if Z.of_nat (size m) + 1 <? 32768 then Ok (<[b := r]> m) else Exit abort_code
  end.

Definition disconnect (r : reason) (me : pwp_conn_private_t) : pwp_conn_private_t :=
  if cb_disconnect (cb me) then tell (Disconnect r) me else me.

Definition giveback (b : bt_block_t) (me : pwp_conn_private_t) : pwp_conn_private_t :=
  if cb_peer_giveback_block (cb me) then tell (Peer_giveback_block b) me else me.

Section connection.

(** What [send] returns after the calls so far; the bytes of a block that
    [write_block_to_stream] writes; the blocks [pollblock] offers; the order of the
    hash map's iterator; the address of a block that arrives. *)
Context (send_result : list event -> Z).
Context (block_bytes : bt_block_t -> list Z).
Context (poll_offers : list event -> list bt_block_t).
Context (order : requests -> list request_t).
Context (address : bt_block_t -> Z).

Definition send_to_peer (me : pwp_conn_private_t) (data : cursor) (len : Z) : res (pwp_conn_private_t * Z) :=
  if negb (cb_send (cb me)) then Ok (me, 0)
  else
    bs ← sent_bytes data len;
    let ret := send_result (told me) in
    let me := tell (Send bs) me in
    if ret =? 0 then Ok (disconnect peer_dropped_connection me, 0) else Ok (me, 1).

Definition pwp_conn_send_statechange (me : pwp_conn_private_t) (msg_type : Z) : res (pwp_conn_private_t * Z) :=
  let data := fresh 5 in
  data ← bitstream_write_uint32 data (fe 1);
  data ← bitstream_write_ubyte data msg_type;
  '(me, ret) ← send_to_peer me data 5;
  if ret =? 0 then Ok (me, 0) else Ok (me, 1).

Definition pwp_conn_send_piece (me : pwp_conn_private_t) (req : bt_block_t) : res pwp_conn_private_t :=
  if negb (cb_write_block_to_stream (cb me)) then Exit abort_code
  else
    let size := wrap_u32 (4 + 1 + 4 + 4 + len req) in
    let data := fresh (Z.to_nat size) in
    data ← bitstream_write_uint32 data (fe (wrap_u32 (size - 4)));
    data ← bitstream_write_ubyte data PwpHandler.PWP_MSGTYPE_PIECE;
    data ← bitstream_write_uint32 data (fe (piece_idx req));
    data ← bitstream_write_uint32 data (fe (offset req));
    data ← put_bytes data (block_bytes req);
    '(me, _) ← send_to_peer me data (wrap_int size);
    Ok me.

Definition pwp_conn_send_have (me : pwp_conn_private_t) (piece_idx : Z) : res (pwp_conn_private_t * Z) :=
  let data := fresh 12 in
  data ← bitstream_write_uint32 data (fe 5);
  data ← bitstream_write_ubyte data PwpHandler.PWP_MSGTYPE_HAVE;
  data ← bitstream_write_uint32 data (fe (wrap_u32 piece_idx));
  '(me, _) ← send_to_peer me data (5 + 4);
  Ok (me, 1).

(** The body of [pwp_conn_send_request] and [pwp_conn_send_cancel]. *)
Definition send_block (msg_type : Z) (me : pwp_conn_private_t) (b : bt_block_t) : res pwp_conn_private_t :=
  let data := fresh 32 in
  data ← bitstream_write_uint32 data (fe 13);
  data ← bitstream_write_ubyte data msg_type;
  data ← bitstream_write_uint32 data (fe (piece_idx b));
  data ← bitstream_write_uint32 data (fe (offset b));
  data ← bitstream_write_uint32 data (fe (len b));
  '(me, _) ← send_to_peer me data 17;
  Ok me.

Definition pwp_conn_send_request := send_block PwpHandler.PWP_MSGTYPE_REQUEST.
Definition pwp_conn_send_cancel := send_block PwpHandler.PWP_MSGTYPE_CANCEL.

(** ** Pending requests *)

Definition expunge_their_pending_reqs (me : pwp_conn_private_t) : pwp_conn_private_t := set_peer_reqs [] me.

Fixpoint expunge_loop (rem : list request_t) (me : pwp_conn_private_t) : res pwp_conn_private_t :=
  match rem with
  | [] => Ok me
  | r :: rem =>
      match recv_reqs me !! r_blk r with
      | None => Exit abort_code
      | Some r' => expunge_loop rem (giveback (r_blk r') (set_recv_reqs (delete (r_blk r) (recv_reqs me)) me))
      end
  end.

Definition expunge_my_pending_reqs (me : pwp_conn_private_t) : res pwp_conn_private_t :=
  expunge_loop (order (recv_reqs me)) me.

Fixpoint old_requests (now : Z) (rs : list request_t) : res (list request_t) :=
  match rs with
  | [] => Ok []
  | r :: rs =>
      age ← chk (now - r_tick r);
      rem ← old_requests now rs;
      Ok (if 10 <? age then r :: rem else rem)
  end.

(** The callback is asserted to be set; a request that is not in the map is read. *)
Fixpoint expunge_old_loop (rem : list request_t) (me : pwp_conn_private_t) : res pwp_conn_private_t :=
  match rem with
  | [] => Ok me
  | r :: rem =>
      if negb (cb_peer_giveback_block (cb me)) then Exit abort_code
      else
        match recv_reqs me !! r_blk r with
        | None => Undef
        | Some r' => expunge_old_loop rem (giveback (r_blk r') (set_recv_reqs (delete (r_blk r) (recv_reqs me)) me))
        end
  end.

Definition expunge_my_old_pending_reqs (me : pwp_conn_private_t) : res pwp_conn_private_t :=
  rem ← old_requests (tick me) (order (recv_reqs me));
  expunge_old_loop rem me.

Definition pwp_conn_release (me : pwp_conn_private_t) : res pwp_conn_private_t :=
  me ← expunge_my_pending_reqs (expunge_their_pending_reqs me);
  Ok (set_recv_reqs ∅ me).

Definition req_fit (request : bt_block_t) (piece_len : Z) : bt_block_t :=
  let e := wrap_u32 (offset request + len request) in
  if piece_len <? e then mk_block (piece_idx request) (offset request) (wrap_u32 (e - piece_len)) else request.

Definition pwp_conn_request_block_from_peer (me : pwp_conn_private_t) (blk : bt_block_t) : res pwp_conn_private_t :=
  let blk := req_fit blk (wrap_u32 (piece_len me)) in
  me ← pwp_conn_send_request me blk;
  m ← recv_reqs_put (recv_reqs me) blk (mk_request (tick me) blk);
  Ok (set_recv_reqs m me).

(** The change, and then the failed assertion. *)
Definition pwp_conn_connect_failed (me : pwp_conn_private_t) : res pwp_conn_private_t :=
  _ ← chk (failed_connections me + 1);
  Exit abort_code.

(** [call_exclusively] runs its callback once and returns its result. *)
Definition pwp_conn_offer_block (me : pwp_conn_private_t) (b : bt_block_t) : res pwp_conn_private_t :=
  if negb (cb_call_exclusively (cb me)) then Exit abort_code else Ok (set_reqs (reqs me ++ [b]) me).

Definition process_requests (me : pwp_conn_private_t) : res pwp_conn_private_t :=
  if negb (cb_call_exclusively (cb me)) then Undef
  else
    match reqs me with
    | [] => Undef
    | b :: rest => pwp_conn_request_block_from_peer (set_reqs rest me) b
    end.

(** ** Our side *)

Definition pwp_conn_set_im_interested (me : pwp_conn_private_t) : res pwp_conn_private_t :=
  '(me, ret) ← pwp_conn_send_statechange me PwpHandler.PWP_MSGTYPE_INTERESTED;
  Ok (if ret =? 0 then me else raise_flag PC_IM_INTERESTED me).

Definition pwp_conn_choke_peer (me : pwp_conn_private_t) : res pwp_conn_private_t :=
  let me := expunge_their_pending_reqs (raise_flag PC_IM_CHOKING me) in
  '(me, _) ← pwp_conn_send_statechange me PwpHandler.PWP_MSGTYPE_CHOKE;
  Ok me.

Definition pwp_conn_unchoke_peer (me : pwp_conn_private_t) : res pwp_conn_private_t :=
  let me := lower_flag PC_IM_CHOKING me in
  '(me, _) ← pwp_conn_send_statechange me PwpHandler.PWP_MSGTYPE_UNCHOKE;
  Ok me.

(** ** Messages of the peer *)

Definition pwp_conn_mark_peer_has_piece (me : pwp_conn_private_t) (piece_idx : Z) : pwp_conn_private_t * Z :=
  if (num_pieces me <=? piece_idx) || (piece_idx <? 0) then (disconnect piece_idx_outside_of_boundary me, 0)
  else
    let me := set_peerhas (Chunkybar.chunky_mark_complete (pieces_peerhas me) piece_idx 1) me in
    (if cb_peer_have_piece (cb me) then tell (Peer_have_piece piece_idx) me else me, 1).

Definition pwp_conn_peer_has_piece (me : pwp_conn_private_t) (piece_idx : Z) : Z :=
  Chunkybar.chunky_have (pieces_peerhas me) (wrap_u32 piece_idx) 1.

Definition pwp_conn_keepalive (me : pwp_conn_private_t) : pwp_conn_private_t := me.

Definition pwp_conn_choke (me : pwp_conn_private_t) : res pwp_conn_private_t :=
  expunge_my_pending_reqs (raise_flag PC_PEER_CHOKING me).

Definition pwp_conn_unchoke (me : pwp_conn_private_t) : pwp_conn_private_t := lower_flag PC_PEER_CHOKING me.
Definition pwp_conn_interested (me : pwp_conn_private_t) : pwp_conn_private_t := raise_flag PC_PEER_INTERESTED me.
Definition pwp_conn_uninterested (me : pwp_conn_private_t) : pwp_conn_private_t := lower_flag PC_PEER_INTERESTED me.

(** [pieces_completed] may not be set. *)
Definition have_completed (me : pwp_conn_private_t) (piece_idx : Z) : res Z :=
  match pieces_completed me with
  | None => Undef
  | Some c => Ok (Chunkybar.chunky_have c piece_idx 1)
  end.

Definition pwp_conn_have (me : pwp_conn_private_t) (piece_idx : Z) : res pwp_conn_private_t :=
  let '(me, _) := pwp_conn_mark_peer_has_piece me (wrap_int piece_idx) in
  have ← have_completed me piece_idx;
  if have =? 0 then pwp_conn_set_im_interested me else Ok me.

Fixpoint bitfield_loop (n : nat) (ii : Z) (bf : Bitfield.bitfield_t) (me : pwp_conn_private_t) : res pwp_conn_private_t :=
  match n with
  | O => Ok me
  | S n =>
      m ← Bitfield.bitfield_is_marked bf ii;
      bitfield_loop n (ii + 1) bf (if m =? 0 then me else (pwp_conn_mark_peer_has_piece me ii).1)
  end.

Definition pwp_conn_bitfield (me : pwp_conn_private_t) (bf : Bitfield.bitfield_t) : res pwp_conn_private_t :=
  let me := if pwp_conn_flag_is_set me PC_BITFIELD_RECEIVED then disconnect peer_sent_bitfield_twice me else me in
  let me := raise_flag PC_BITFIELD_RECEIVED me in
  bitfield_loop (Z.to_nat (num_pieces me)) 0 bf me.

(** The comparisons are between [unsigned] numbers. *)
Definition pwp_conn_request (me : pwp_conn_private_t) (r : bt_block_t) : res (pwp_conn_private_t * Z) :=
  if pwp_conn_im_choking me then Ok (disconnect peer_requested_when_choked me, 0)
  else if wrap_u32 (num_pieces me) <? piece_idx r then Ok (disconnect (requested_piece_has_invalid_idx (piece_idx r)) me, 0)
  else
    have ← have_completed me (piece_idx r);
    if have =? 0 then Ok (disconnect (requested_piece_is_not_available (piece_idx r)) me, 0)
    else if negb (pwp_conn_peer_has_piece me (wrap_int (piece_idx r)) =? 0)
      then Ok (disconnect (peer_requested_piece_they_had (piece_idx r)) me, 0)
    else if (len r =? 0) || (wrap_u32 (piece_len me) <? wrap_u32 (offset r + len r))
      then Ok (disconnect invalid_block_request me, 0)
    else Ok (if decide (r ∈ peer_reqs me) then me else set_peer_reqs (peer_reqs me ++ [r]) me, 1).

(** The first equal request leaves the queue. *)
Fixpoint remove_first (b : bt_block_t) (q : list bt_block_t) : list bt_block_t :=
  match q with
  | [] => []
  | x :: q => if decide (x = b) then q else x :: remove_first b q
  end.

Definition pwp_conn_cancel (me : pwp_conn_private_t) (cancel : bt_block_t) : pwp_conn_private_t :=
  set_peer_reqs (remove_first cancel (peer_reqs me)) me.

Definition pwp_conn_block_request_is_pending (me : pwp_conn_private_t) (b : bt_block_t) : bool :=
  bool_decide (is_Some (recv_reqs me !! b)).

(** The end of a block, in [unsigned] arithmetic. *)
Definition end_of (b : bt_block_t) : Z := wrap_u32 (offset b + len b).

(** A block put back under its new bounds, after an assertion on its length. *)
Definition put_resized (m : requests) (r : request_t) (o l : Z) : res requests :=
  let b := mk_block (piece_idx (r_blk r)) o l in
  if negb (0 <? wrap_int l) then Exit abort_code else recv_reqs_put m b (mk_request (r_tick r) b).

(** What a block that has arrived leaves of a request of the same piece. *)
Definition cut_request (pb : bt_block_t) (r : request_t) (m : requests) : res requests :=
  let rb := r_blk r in
  if (offset pb <=? offset rb) && (end_of rb <=? end_of pb) then
    match m !! rb with None => Exit abort_code | Some _ => Ok (delete rb m) end
  else if (offset rb <? offset pb) && (end_of pb <? end_of rb) then
    m ← put_resized m r (end_of pb) (wrap_u32 (len rb - len pb - (offset pb - offset rb)));
    put_resized (delete rb m) r (offset rb) (wrap_u32 (offset pb - offset rb))
  else if (offset rb <? end_of pb) && (end_of pb <? end_of rb) then
    put_resized (delete rb m) r (end_of pb) (wrap_u32 (len rb - wrap_u32 (offset pb + len pb - offset rb)))
  else if (offset rb <? offset pb) && (offset pb <? end_of rb) && (end_of rb <=? end_of pb) then
    put_resized (delete rb m) r (offset rb) (wrap_u32 (offset pb - offset rb))
  else Ok m.

Fixpoint cut_loop (pb : bt_block_t) (add : list request_t) (m : requests) : res requests :=
  match add with
  | [] => Ok m
  | r :: add =>
      m ← (if negb (piece_idx (r_blk r) =? piece_idx pb) then Ok m else cut_request pb r m);
      cut_loop pb add m
  end.

(** The requests are collected and cut one by one. *)
Definition cut_pending (me : pwp_conn_private_t) (pb : bt_block_t) : res pwp_conn_private_t :=
  m ← cut_loop pb (order (recv_reqs me)) (recv_reqs me);
  Ok (set_recv_reqs m me).

(** A block is three words; an object with fewer of them cannot be read as one. *)
Definition read_block (words : list Z) : res bt_block_t :=
  match words with
  | p :: o :: l :: _ => Ok (mk_block p o l)
  | _ => Undef
  end.

(** The key of the lookup is [&pb], the address of the pointer: an object of two words. *)
Definition conn_remove_pending_request (me : pwp_conn_private_t) (pb : bt_block_t) : res pwp_conn_private_t :=
  key ← read_block [wrap_u32 (address pb); wrap_u32 (Z.shiftr (address pb) 32)];
  match recv_reqs me !! key with
  | Some _ => Ok (set_recv_reqs (delete key (recv_reqs me)) me)
  | None => cut_pending me pb
  end.

Definition pwp_conn_piece (me : pwp_conn_private_t) (blk : bt_block_t) (data : list Z) : res (pwp_conn_private_t * Z) :=
  if negb (cb_pushblock (cb me)) then Exit abort_code
  else
    me ← conn_remove_pending_request me blk;
    let me := tell (Pushblock blk data) me in
    Ok (set_rates (wrap_u32 (bytes_downloaded_this_period me + len blk)) (bytes_uploaded_this_period me)
          (bytes_drate me) (bytes_urate me) me, 1).

(** ** The tick *)

Fixpoint offer_blocks (bs : list bt_block_t) (me : pwp_conn_private_t) : res pwp_conn_private_t :=
  match bs with
  | [] => Ok me
  | b :: bs => me ← pwp_conn_offer_block me b; offer_blocks bs me
  end.

(** [pollblock] may offer blocks to the connection. *)
Fixpoint poll_loop (n : nat) (me : pwp_conn_private_t) : res pwp_conn_private_t :=
  match n with
  | O => Ok me
  | S n =>
      if negb (cb_pollblock (cb me)) then Undef
      else
        me ← offer_blocks (poll_offers (told me)) (tell Pollblock me);
        poll_loop n me
  end.

Definition measure_rates (me : pwp_conn_private_t) : res pwp_conn_private_t :=
  d ← Meanqueue.meanqueue_offer (bytes_drate me) (wrap_int (bytes_downloaded_this_period me));
  u ← Meanqueue.meanqueue_offer (bytes_urate me) (wrap_int (bytes_uploaded_this_period me));
  Ok (set_rates 0 0 d u me).

Definition pwp_conn_periodic (me : pwp_conn_private_t) : res pwp_conn_private_t :=
  t ← chk (tick me + 1);
  me ← expunge_my_old_pending_reqs (set_tick t me);
  if pwp_conn_flag_is_set me PC_UNCONTACTABLE_PEER then Ok me
  else
    me ← (match peer_reqs me with
          | [] => Ok me
          | b :: rest => pwp_conn_send_piece (set_peer_reqs rest me) b
          end);
    let me := if pwp_conn_peer_is_interested me && pwp_conn_im_choking me then pwp_conn_unchoke me else me in
    if pwp_conn_im_interested me then
      if pwp_conn_im_choked me then Ok me
      else
        me ← poll_loop (Z.to_nat (10 - pwp_conn_get_npending_requests me)) me;
        me ← (match reqs me with [] => Ok me | _ => process_requests me end);
        measure_rates me
    else
      me ← pwp_conn_set_im_interested me;
      measure_rates me.

(** ** The calls of the message handler *)

Definition handle (c : PwpHandler.conn_call) (me : pwp_conn_private_t) : res pwp_conn_private_t :=
  match c with
  | PwpHandler.pwp_conn_keepalive => Ok (pwp_conn_keepalive me)
  | PwpHandler.pwp_conn_choke => pwp_conn_choke me
  | PwpHandler.pwp_conn_unchoke => Ok (pwp_conn_unchoke me)
  | PwpHandler.pwp_conn_interested => Ok (pwp_conn_interested me)
  | PwpHandler.pwp_conn_uninterested => Ok (pwp_conn_uninterested me)
  | PwpHandler.pwp_conn_have p => pwp_conn_have me p
  | PwpHandler.pwp_conn_bitfield bf => pwp_conn_bitfield me bf
  | PwpHandler.pwp_conn_request b => '(me, _) ← pwp_conn_request me b; Ok me
  | PwpHandler.pwp_conn_piece b data => '(me, _) ← pwp_conn_piece me b data; Ok me
  | PwpHandler.pwp_conn_cancel b => Ok (pwp_conn_cancel me b)
  end.

Fixpoint handle_all (cs : list PwpHandler.conn_call) (me : pwp_conn_private_t) : res pwp_conn_private_t :=
  match cs with
  | [] => Ok me
  | c :: cs => me ← handle c me; handle_all cs me
  end.
End connection.

(** ** The bit field we send (pwp_bitfield.c) *)

Fixpoint bits_loop (n : nat) (i npieces bits : Z) (have : Chunkybar.chunkybar_t) (ptr : cursor) : res cursor :=
  match n with
  | O => Ok ptr
  | S n =>
      let bits := wrap_u8 (Z.lor bits (Z.shiftl (Chunkybar.chunky_have have i 1) (7 - i mod 8))) in
      if ((i + 1) mod 8 =? 0) || (npieces - 1 =? i) then
        ptr ← bitstream_write_ubyte ptr bits;
        bits_loop n (i + 1) npieces 0 have ptr
      else bits_loop n (i + 1) npieces bits have ptr
  end.

(** The bytes handed to the callback; the buffer has 1000. *)
Definition pwp_send_bitfield (npieces : Z) (have : Chunkybar.chunkybar_t) : res (list Z) :=
  let ptr := fresh 1000 in
  let size := wrap_u32 (4 + 1 + Z.quot npieces 8 + (if Z.rem npieces 8 =? 0 then 0 else 1)) in
  ptr ← bitstream_write_uint32 ptr (fe (wrap_u32 (size - 4)));
  ptr ← bitstream_write_ubyte ptr PwpHandler.PWP_MSGTYPE_BITFIELD;
  ptr ← bits_loop (Z.to_nat npieces) 0 npieces 0 have ptr;
  sent_bytes ptr (wrap_int size).
End PwpConn.
