(* ===== verification/PwpWire.v ===== *)
(** * Messages on the wire

    What the senders of a connection (pwp_connection.c, pwp_bitfield.c) write is what
    the message handler of the peer (pwp_msghandler.c) reads, however the network cuts
    the bytes. *)

From S2P Require Import Prelude Bitfield Chunkybar PwpStream PwpHandler PwpChunks PwpConn.

Module PwpWire.
Import PwpStream PwpHandler PwpChunks.

(** ** The format *)

(** A number with its highest byte first. *)
Definition be (v : Z) : list Z := le_bytes (fe v).

Definition wire (c : conn_call) : list Z :=
  match c with
  | pwp_conn_keepalive => be 0
  | pwp_conn_choke => be 1 ++ [0]
  | pwp_conn_unchoke => be 1 ++ [1]
  | pwp_conn_interested => be 1 ++ [2]
  | pwp_conn_uninterested => be 1 ++ [3]
  | pwp_conn_have p => be 5 ++ [4] ++ be p
  | pwp_conn_bitfield bf => be (1 + Z.of_nat (List.length (Bitfield.bits bf))) ++ [5] ++ Bitfield.bits bf
  | pwp_conn_request b => be 13 ++ [6] ++ be (piece_idx b) ++ be (offset b) ++ be (len b)
  | pwp_conn_piece b data => be (9 + Z.of_nat (List.length data)) ++ [7] ++ be (piece_idx b) ++ be (offset b) ++ data
  | pwp_conn_cancel b => be 13 ++ [8] ++ be (piece_idx b) ++ be (offset b) ++ be (len b)
  end.

(** The numbers fit, and a block has data. *)
Definition u32_block (b : bt_block_t) : Prop := is_u32 (piece_idx b) /\ is_u32 (offset b) /\ is_u32 (len b).

Definition sendable (c : conn_call) : Prop :=
  match c with
  | pwp_conn_have p => is_u32 p
  | pwp_conn_bitfield _ => False
  | pwp_conn_request b | pwp_conn_cancel b => u32_block b
  | pwp_conn_piece b data => u32_block b /\ len b = Z.of_nat (List.length data) /\ 0 < len b < 2 ^ 31
  | _ => True
  end.

(** ** Words *)

Lemma wrap_u32_add a b : wrap_u32 (wrap_u32 a + b) = wrap_u32 (a + b).
Proof. unfold wrap_u32. by rewrite Zplus_mod_idemp_l. Qed.

Lemma set_bytes v b0 b1 b2 b3 :
  is_byte b0 -> is_byte b1 -> is_byte b2 -> is_byte b3 ->
  set_byte (set_byte (set_byte (set_byte v 0 b0) 1 b1) 2 b2) 3 b3 = of_bytes b0 b1 b2 b3.
Proof.
  intros H0 H1 H2 H3. unfold set_byte at 1. change (3 =? 0) with false. change (3 =? 1) with false.
  change (3 =? 2) with false. change (3 =? 3) with true. cbn iota. by rewrite !byte_set_byte by (done || lia).
Qed.

Lemma mh_uint32_be v rd w rest :
  is_u32 w -> mh_uint32 v 0 rd (be w ++ rest) = (true, w, 0, wrap_u32 (rd + 4), rest).
Proof.
  intros Hw. unfold be, le_bytes. cbn [app].
  set (b0 := byte 0 (fe w)). set (b1 := byte 1 (fe w)). set (b2 := byte 2 (fe w)). set (b3 := byte 3 (fe w)).
  cbn [mh_uint32]. change (0 =? 4) with false. change (wrap_u32 (0 + 1)) with 1. cbn iota.
  change (1 =? 4) with false. change (wrap_u32 (1 + 1)) with 2. cbn iota.
  change (2 =? 4) with false. change (wrap_u32 (2 + 1)) with 3. cbn iota.
  change (3 =? 4) with false. change (wrap_u32 (3 + 1)) with 4. cbn iota.
  rewrite set_bytes by (unfold b0, b1, b2, b3; apply byte_range; lia). unfold b0, b1, b2, b3.
  assert (forall v', mh_uint32 v' 4 (wrap_u32 (wrap_u32 (wrap_u32 (wrap_u32 (rd + 1) + 1) + 1) + 1)) rest =
    (true, fe v', 0, wrap_u32 (rd + 4), rest)) as ->.
  { intros v'. replace (wrap_u32 (wrap_u32 (wrap_u32 (wrap_u32 (rd + 1) + 1) + 1) + 1)) with (wrap_u32 (rd + 4)); [by destruct rest|].
    by rewrite !wrap_u32_add, <- !Z.add_assoc, !wrap_u32_add, <- !Z.add_assoc. }
  rewrite of_bytes_byte by apply fe_u32. by rewrite fe_fe.
Qed.

Lemma read_word_be get put next me w rest :
  is_u32 w -> tok_bytes_read (msg me) = 0 ->
  read_word get put next me (be w ++ rest) =
    let '(me', calls) := next (set_msg (put w (set_counts (wrap_u32 (bytes_read (msg me) + 4)) 0 (msg me))) me) in
    Ok (me', calls, rest, 1).
Proof. intros Hw Ht. unfold read_word. by rewrite Ht, mh_uint32_be. Qed.

Section wire.
Context (custom : Z -> pwp_msghandler_private_t -> list Z -> res outcome).

Notation process := (process custom).
Notation dispatch := (pwp_msghandler_dispatch_from_buffer custom).

(** ** Steps of the handler *)

(** A step that goes on. *)
Lemma dispatch_step me c me' k rest :
  wf me -> c <> [] -> Z.of_nat (List.length c) < 2 ^ 31 -> process me c = Ok (me', k, rest, 1) ->
  dispatch me c = prefix k (dispatch me' rest) /\ wf me' /\ (List.length rest <= List.length c)%nat.
Proof.
  intros Hwf Hne Hl H. destruct (process_result _ me c me' k rest 1 Hwf Hne Hl H) as [Hwf' Hm].
  destruct c as [|b c]; [done|]. rewrite dispatch_cons, H by done. split_and!; [done|done|].
  unfold measure, pd in Hm. destruct (process_item me); lia.
Qed.

(** A word of the message; the calls of [next] come first. *)
Lemma word_step get put next me w rest me' k :
  process me (be w ++ rest) = read_word get put next me (be w ++ rest) ->
  wf me -> is_u32 w -> tok_bytes_read (msg me) = 0 -> Z.of_nat (List.length (be w ++ rest)) < 2 ^ 31 ->
  next (set_msg (put w (set_counts (wrap_u32 (bytes_read (msg me) + 4)) 0 (msg me))) me) = (me', k) ->
  dispatch me (be w ++ rest) = prefix k (dispatch me' rest) /\ wf me' /\ Z.of_nat (List.length rest) < 2 ^ 31.
Proof.
  intros Hp Hwf Hw Ht Hl Hn. rewrite read_word_be, Hn in Hp by done.
  destruct (dispatch_step me (be w ++ rest) me' k rest Hwf ltac:(done) Hl Hp) as (-> & ? & Hle). split_and!; try done. lia.
Qed.

Lemma type_step me id rest me' k :
  process me (id :: rest) = Ok (me', k, rest, 1) ->
  wf me -> Z.of_nat (List.length (id :: rest)) < 2 ^ 31 ->
  dispatch me (id :: rest) = prefix k (dispatch me' rest) /\ wf me' /\ Z.of_nat (List.length rest) < 2 ^ 31.
Proof.
  intros Hp Hwf Hl. destruct (dispatch_step me (id :: rest) me' k rest Hwf ltac:(done) Hl Hp) as (-> & ? & Hle).
  split_and!; try done. lia.
Qed.

Lemma prefix_nil r : prefix [] r = r.
Proof. by destruct r as [[[m k] z]| | |]. Qed.

(** The handler after the length and the type of a message. *)
Definition at_body (l id : Z) (i : item) : pwp_msghandler_private_t :=
  mk_handler (mk_msg l id 5 0 (mk_block 0 0 0) None) i 9 (handlers pwp_msghandler_new).

Lemma dispatch_header l id i rest :
  is_u32 l -> 1 < l -> Z.of_nat (List.length (be l ++ id :: rest)) < 2 ^ 31 ->
  0 < id < 9 -> handlers pwp_msghandler_new !! Z.to_nat id = Some (Some i) ->
  dispatch pwp_msghandler_new (be l ++ id :: rest) = dispatch (at_body l id i) rest /\ wf (at_body l id i) /\
  Z.of_nat (List.length rest) < 2 ^ 31.
Proof.
  intros Hl H1 Hlen Hid Hi.
  destruct (word_step m_len set_len (fun me => if m_len (msg me) =? 0 then (mh_endmsg me, [pwp_conn_keepalive]) else (set_item pwp_type me, []))
    pwp_msghandler_new l (id :: rest) (mk_handler (mk_msg l 0 4 0 (mk_block 0 0 0) None) pwp_type 9 (handlers pwp_msghandler_new)) [])
    as (-> & Hwf & Hlen'); try done; [|].
  { cbn [m_len set_len set_counts msg set_msg]. by rewrite (proj2 (Z.eqb_neq l 0)) by lia. }
  rewrite prefix_nil.
  destruct (type_step (mk_handler (mk_msg l 0 4 0 (mk_block 0 0 0) None) pwp_type 9 (handlers pwp_msghandler_new)) id rest (at_body l id i) [])
    as (-> & Hwf' & Hlen''); try done; [|by rewrite prefix_nil].
  unfold PwpHandler.process, do_type. cbn [process_item msg bytes_read]. change (4 =? 4) with true. cbn [negb mh_byte m_id].
  cbn [m_len set_id set_msg msg nhandlers handlers]. rewrite (proj2 (Z.eqb_neq l 1)), (proj2 (Z.ltb_ge 9 id)) by lia.
  rewrite (proj2 (Z.ltb_lt 0 id)), (proj2 (Z.ltb_lt id 9)) by lia. cbn [negb].
  by rewrite (load_ok _ id (Some i)) by (done || lia).
Qed.

(** The handler within the body of a message. *)
Definition within (l id rd : Z) (b : bt_block_t) (i : item) : pwp_msghandler_private_t :=
  mk_handler (mk_msg l id rd 0 b None) i 9 (handlers pwp_msghandler_new).

Lemma be_length v : List.length (be v) = 4%nat.
Proof. done. Qed.

(** Three words and the end of the message. *)
Lemma three_words id i1 i2 i3 (call : bt_block_t -> conn_call) b rest :
  u32_block b -> wf (at_body 13 id i1) ->
  (forall m c, process_item m = i1 -> process m c = read_word (fun m => piece_idx (m_blk m)) put_piece_idx (go_on i2) m c) ->
  (forall m c, process_item m = i2 -> process m c = read_word (fun m => offset (m_blk m)) put_offset (go_on i3) m c) ->
  (forall m c, process_item m = i3 -> process m c =
     read_word (fun m => len (m_blk m)) put_blk_len (fun me => (mh_endmsg me, [call (m_blk (msg me))])) m c) ->
  Z.of_nat (List.length (be (piece_idx b) ++ be (offset b) ++ be (len b) ++ rest)) < 2 ^ 31 ->
  dispatch (at_body 13 id i1) (be (piece_idx b) ++ be (offset b) ++ be (len b) ++ rest) =
    prefix [call b] (dispatch pwp_msghandler_new rest).
Proof.
  intros (Hp & Ho & Hn) Hwf H1 H2 H3 Hl.
  destruct (word_step _ _ _ (at_body 13 id i1) (piece_idx b) (be (offset b) ++ be (len b) ++ rest)
    (within 13 id 9 (mk_block (piece_idx b) 0 0) i2) [] (H1 (at_body 13 id i1) _ eq_refl)) as (-> & Hwf2 & Hl2); try done.
  rewrite prefix_nil.
  destruct (word_step _ _ _ (within 13 id 9 (mk_block (piece_idx b) 0 0) i2) (offset b) (be (len b) ++ rest)
    (within 13 id 13 (mk_block (piece_idx b) (offset b) 0) i3) [] (H2 (within 13 id 9 (mk_block (piece_idx b) 0 0) i2) _ eq_refl)) as (-> & Hwf3 & Hl3); try done.
  rewrite prefix_nil.
  destruct (word_step _ _ _ (within 13 id 13 (mk_block (piece_idx b) (offset b) 0) i3) (len b) rest
    pwp_msghandler_new [call b] (H3 (within 13 id 13 (mk_block (piece_idx b) (offset b) 0) i3) _ eq_refl)) as (-> & _ & _); try done. by destruct b.
Qed.

(** A message without payload. *)
Lemma short_message id call rest :
  process (mk_handler (mk_msg 1 0 4 0 (mk_block 0 0 0) None) pwp_type 9 (handlers pwp_msghandler_new)) (id :: rest) =
    Ok (pwp_msghandler_new, [call], rest, 1) ->
  Z.of_nat (List.length (be 1 ++ id :: rest)) < 2 ^ 31 ->
  dispatch pwp_msghandler_new (be 1 ++ id :: rest) = prefix [call] (dispatch pwp_msghandler_new rest).
Proof.
  intros Hp Hl.
  destruct (word_step m_len set_len (fun me => if m_len (msg me) =? 0 then (mh_endmsg me, [pwp_conn_keepalive]) else (set_item pwp_type me, []))
    pwp_msghandler_new 1 (id :: rest) (mk_handler (mk_msg 1 0 4 0 (mk_block 0 0 0) None) pwp_type 9 (handlers pwp_msghandler_new)) [])
    as (-> & Hwf & Hlen'); try done.
  rewrite prefix_nil. by destruct (type_step _ id rest pwp_msghandler_new [call] Hp Hwf Hlen') as (-> & _ & _).
Qed.

(** The data of a block, all of it in the buffer. *)
Lemma piece_data_step b data rest :
  len b = Z.of_nat (List.length data) -> 0 < len b < 2 ^ 31 ->
  wf (within (9 + len b) 7 13 (mk_block (piece_idx b) (offset b) 0) pwp_piece_data) ->
  Z.of_nat (List.length (data ++ rest)) < 2 ^ 31 ->
  dispatch (within (9 + len b) 7 13 (mk_block (piece_idx b) (offset b) 0) pwp_piece_data) (data ++ rest) =
    prefix [pwp_conn_piece b data] (dispatch pwp_msghandler_new rest).
Proof.
  intros Hlen Hpos Hwf Hl. set (me := within _ _ _ _ _) in *.
  destruct (dispatch_step me (data ++ rest) pwp_msghandler_new [pwp_conn_piece b data] rest) as (-> & _ & _); try done.
  { destruct data; [simpl in Hlen; lia|done]. }
  change (process me (data ++ rest)) with (do_piece_data me (data ++ rest)). rewrite piece_data_eq by done. cbn zeta.
  assert (to_come me = len b) as Ht.
  { unfold to_come, me. cbn [within msg m_len]. replace (9 + len b - 9) with (len b) by lia. apply wrap_u32_id. lia. }
  rewrite Ht, Z.min_r by (rewrite length_app; lia).
  rewrite take_app_length', drop_app_length' by lia.
  unfold me. cbn [within msg m_len m_blk set_len set_blk piece_idx offset]. replace (9 + len b - len b) with 9 by lia.
  change (wrap_u32 9 =? 9) with true. by destruct b.
Qed.

(** One message. *)
Lemma dispatch_wire c rest :
  sendable c -> Z.of_nat (List.length (wire c ++ rest)) < 2 ^ 31 ->
  dispatch pwp_msghandler_new (wire c ++ rest) = prefix [c] (dispatch pwp_msghandler_new rest).
Proof.
  intros Hs Hl. destruct c as [| | | | |p|bf|b|b data|b]; cbn [wire sendable] in *; rewrite <- ?(assoc_L (++)) in *; cbn [app] in *.
  2-5: apply short_message; [reflexivity|exact Hl].
  - by destruct (word_step m_len set_len (fun me => if m_len (msg me) =? 0 then (mh_endmsg me, [pwp_conn_keepalive]) else (set_item pwp_type me, []))
      pwp_msghandler_new 0 rest pwp_msghandler_new [pwp_conn_keepalive]) as (-> & _ & _).
  - destruct (dispatch_header 5 4 pwp_have (be p ++ rest)) as (-> & Hwf & Hl'); try done.
    by destruct (word_step _ _ _ (at_body 5 4 pwp_have) p rest pwp_msghandler_new [pwp_conn_have p] eq_refl) as (-> & _ & _).
  - done.
  - destruct (dispatch_header 13 6 pwp_request_pieceidx (be (piece_idx b) ++ be (offset b) ++ be (len b) ++ rest)) as (-> & Hwf & Hl'); try done.
    apply (three_words 6 pwp_request_pieceidx pwp_request_offset pwp_request_len pwp_conn_request); try done;
      intros m c Em; unfold PwpHandler.process; by rewrite Em.
  - destruct Hs as ((Hp & Ho & Hn) & Hlen & Hpos). rewrite <- Hlen in *.
    destruct (dispatch_header (9 + len b) 7 pwp_piece_pieceidx (be (piece_idx b) ++ be (offset b) ++ data ++ rest)) as (-> & Hwf & Hl');
      try done; [unfold is_u32; lia|lia|].
    destruct (word_step _ _ _ (at_body (9 + len b) 7 pwp_piece_pieceidx) (piece_idx b) (be (offset b) ++ data ++ rest)
      (within (9 + len b) 7 9 (mk_block (piece_idx b) 0 0) pwp_piece_offset) [] eq_refl) as (-> & Hwf2 & Hl2); try done.
    rewrite prefix_nil.
    destruct (word_step _ _ _ (within (9 + len b) 7 9 (mk_block (piece_idx b) 0 0) pwp_piece_offset) (offset b) (data ++ rest)
      (within (9 + len b) 7 13 (mk_block (piece_idx b) (offset b) 0) pwp_piece_data) [] eq_refl) as (-> & Hwf3 & Hl3); try done.
    rewrite prefix_nil. by apply piece_data_step.
  - destruct (dispatch_header 13 8 pwp_cancel_pieceidx (be (piece_idx b) ++ be (offset b) ++ be (len b) ++ rest)) as (-> & Hwf & Hl'); try done.
    apply (three_words 8 pwp_cancel_pieceidx pwp_cancel_offset pwp_cancel_len pwp_conn_cancel); try done;
      intros m c Em; unfold PwpHandler.process; by rewrite Em.
Qed.

(** Any messages one after the other. *)
Lemma dispatch_wires cs :
  Forall sendable cs -> Z.of_nat (List.length (concat (wire <$> cs))) < 2 ^ 31 ->
  dispatch pwp_msghandler_new (concat (wire <$> cs)) = Ok (pwp_msghandler_new, cs, 1).
Proof.
  induction 1 as [|c cs Hc Hcs IH]; intros Hl; [done|]. rewrite fmap_cons in *. cbn [concat] in *.
  rewrite dispatch_wire by done. rewrite IH by (rewrite length_app in Hl; lia). done.
Qed.

(** The bytes of messages, in buffers of any size. *)
Lemma receive_wires cs chunks :
  Forall sendable cs -> concat chunks = concat (wire <$> cs) -> Z.of_nat (List.length (concat chunks)) < 2 ^ 31 ->
  heard (receive custom pwp_msghandler_new chunks) = Ok (pwp_msghandler_new, atoms cs).
Proof.
  intros Hcs E Hl. rewrite receive_concat by (done || apply new_wf). rewrite E in *. by rewrite dispatch_wires.
Qed.
End wire.

(** ** The senders *)

(** What a connection is asked to send. *)
Inductive out : Type :=
  | out_state (msg_type : Z)
  | out_have (piece : Z)
  | out_request (b : bt_block_t)
  | out_cancel (b : bt_block_t)
  | out_piece (b : bt_block_t).

Section senders.
Context (send_result : list PwpConn.event -> Z) (block_bytes : bt_block_t -> list Z).

Definition send_one (o : out) (me : PwpConn.pwp_conn_private_t) : res PwpConn.pwp_conn_private_t :=
  match o with
  | out_state t => '(me, _) ← PwpConn.pwp_conn_send_statechange send_result me t; Ok me
  | out_have p => '(me, _) ← PwpConn.pwp_conn_send_have send_result me p; Ok me
  | out_request b => PwpConn.pwp_conn_send_request send_result me b
  | out_cancel b => PwpConn.pwp_conn_send_cancel send_result me b
  | out_piece b => PwpConn.pwp_conn_send_piece send_result block_bytes me b
  end.

Fixpoint send_all (os : list out) (me : PwpConn.pwp_conn_private_t) : res PwpConn.pwp_conn_private_t :=
  match os with
  | [] => Ok me
  | o :: os => me ← send_one o me; send_all os me
  end.

(** The call the peer is meant to make. *)
Definition meant (o : out) : conn_call :=
  match o with
  | out_state t =>
      if t =? 0 then pwp_conn_choke else if t =? 1 then pwp_conn_unchoke
      else if t =? 2 then pwp_conn_interested else pwp_conn_uninterested
  | out_have p => pwp_conn_have p
  | out_request b => pwp_conn_request b
  | out_cancel b => pwp_conn_cancel b
  | out_piece b => pwp_conn_piece b (block_bytes b)
  end.

Definition valid_out (o : out) : Prop :=
  match o with
  | out_state t => 0 <= t <= 3
  | out_have p => 0 <= p <= int_max
  | out_request b | out_cancel b => u32_block b
  | out_piece b => u32_block b /\ len b = Z.of_nat (List.length (block_bytes b)) /\ 0 < len b < 2 ^ 31 - 13
  end.

Lemma valid_sendable o : valid_out o -> sendable (meant o).
Proof.
  destruct o as [t|p| | |b]; cbn [valid_out meant sendable]; try done.
  - intros _. by repeat case_if.
  - unfold is_u32, int_max. lia.
  - intros (? & ? & ?). split_and!; try done; lia.
Qed.

(** What was sent, and the disconnect where it failed. *)
Definition sent (bs : list Z) (me : PwpConn.pwp_conn_private_t) : PwpConn.pwp_conn_private_t :=
  let me' := PwpConn.tell (PwpConn.Send bs) me in
  if send_result (PwpConn.told me) =? 0 then PwpConn.disconnect PwpConn.peer_dropped_connection me' else me'.

Lemma send_to_peer_spec me n bs l :
  PwpConn.cb_send (PwpConn.cb me) = true -> (List.length bs <= n)%nat -> l = Z.of_nat (List.length bs) ->
  exists r, PwpConn.send_to_peer send_result me (filled n bs) l = Ok (sent bs me, r).
Proof.
  intros Hs Hl ->. unfold PwpConn.send_to_peer. rewrite Hs, sent_filled by done. simpl. unfold sent. case_if; eauto.
Qed.

Lemma fill_uint32 n bs v :
  (List.length bs + 4 <= n)%nat -> bitstream_write_uint32 (filled n bs) (fe v) = Ok (filled n (bs ++ be v)).
Proof. apply write_uint32_filled. Qed.

Lemma fill_ubyte n bs v :
  (List.length bs + 1 <= n)%nat -> 0 <= v < 256 -> bitstream_write_ubyte (filled n bs) v = Ok (filled n (bs ++ [v])).
Proof. intros Hl Hv. rewrite write_ubyte_filled by done. by unfold wrap_u8; rewrite Z.mod_small. Qed.

Ltac fill := cbn [mbind res_bind]; first
  [ rewrite fill_uint32 by (rewrite ?length_app; simpl length; lia)
  | rewrite fill_ubyte by ((rewrite ?length_app; simpl length; lia) || (vm_compute; by split)) ].

(** Every sender writes its message as one packet. *)
Lemma send_one_spec o me :
  PwpConn.cb_send (PwpConn.cb me) = true -> PwpConn.cb_write_block_to_stream (PwpConn.cb me) = true -> valid_out o ->
  send_one o me = Ok (sent (wire (meant o)) me).
Proof.
  intros Hs Hw Hv. destruct o as [t|p|b|b|b]; cbn [send_one valid_out] in *.
  - unfold PwpConn.pwp_conn_send_statechange. cbn zeta. rewrite fresh_filled. fill.
    cbn [mbind res_bind]. rewrite fill_ubyte by (simpl; lia). cbn [mbind res_bind app].
    destruct (send_to_peer_spec me 5 (be 1 ++ [t]) 5) as [r ->]; try done. simpl. destruct (r =? 0); simpl; repeat f_equal;
    assert (t = 0 \/ t = 1 \/ t = 2 \/ t = 3) as [-> | [-> | [-> | ->]]] by lia; done.
  - unfold PwpConn.pwp_conn_send_have. cbn zeta. rewrite fresh_filled. do 3 fill. cbn [mbind res_bind app].
    rewrite wrap_u32_id by (unfold int_max in *; lia).
    destruct (send_to_peer_spec me 12 ((be 5 ++ [PWP_MSGTYPE_HAVE]) ++ be p) (5 + 4)) as [r ->]; [done|simpl; lia|done|reflexivity].
  - unfold PwpConn.pwp_conn_send_request, PwpConn.send_block. cbn zeta. rewrite fresh_filled. do 5 fill. cbn [mbind res_bind app].
    destruct (send_to_peer_spec me 32 ((((be 13 ++ [PWP_MSGTYPE_REQUEST]) ++ be (piece_idx b)) ++ be (offset b)) ++ be (len b)) 17) as [r ->]; [done|simpl; lia|done|reflexivity].
  - unfold PwpConn.pwp_conn_send_cancel, PwpConn.send_block. cbn zeta. rewrite fresh_filled. do 5 fill. cbn [mbind res_bind app].
    destruct (send_to_peer_spec me 32 ((((be 13 ++ [PWP_MSGTYPE_CANCEL]) ++ be (piece_idx b)) ++ be (offset b)) ++ be (len b)) 17) as [r ->]; [done|simpl; lia|done|reflexivity].
  - destruct Hv as (_ & Hlen & Hpos). unfold PwpConn.pwp_conn_send_piece. rewrite Hw. cbn [negb]. cbn zeta.
    rewrite (wrap_u32_id (4 + 1 + 4 + 4 + len b)) by lia. rewrite wrap_u32_id by lia. rewrite fresh_filled.
    set (n := Z.to_nat (4 + 1 + 4 + 4 + len b)). assert (n = (13 + List.length (block_bytes b))%nat) as En by (unfold n; lia).
    do 4 fill. cbn [mbind res_bind app]. rewrite put_bytes_filled by (rewrite ?length_app; simpl length; lia). cbn [mbind res_bind].
    rewrite wrap_int_id by (unfold in_int, int_min, int_max; lia).
    replace (4 + 1 + 4 + 4 + len b - 4) with (9 + len b) by lia. cbn [meant wire]. rewrite <- Hlen.
    destruct (send_to_peer_spec me n ((((be (9 + len b) ++ [PWP_MSGTYPE_PIECE]) ++ be (piece_idx b)) ++ be (offset b)) ++ block_bytes b)
      (4 + 1 + 4 + 4 + len b)) as [r ->]; [done|..].
    + rewrite !length_app. simpl length. lia.
    + rewrite !length_app. simpl length. lia.
    + simpl. by rewrite <- ?(assoc_L (++)).
Qed.

Lemma sent_cb bs me : PwpConn.cb (sent bs me) = PwpConn.cb me.
Proof. unfold sent, PwpConn.disconnect. by repeat case_if. Qed.

(** A peer that does not drop the connection gets one packet per message. *)
Lemma send_all_spec os me :
  (forall t, send_result t <> 0) -> PwpConn.cb_send (PwpConn.cb me) = true ->
  PwpConn.cb_write_block_to_stream (PwpConn.cb me) = true -> Forall valid_out os ->
  exists me', send_all os me = Ok me' /\
    PwpConn.told me' = PwpConn.told me ++ (PwpConn.Send <$> (wire <$> (meant <$> os))).
Proof.
  intros Hr. revert me. induction os as [|o os IH]; intros me Hs Hw Hv.
  { exists me. by rewrite app_nil_r. }
  apply Forall_cons in Hv as [Ho Hos]. cbn [send_all]. rewrite send_one_spec by done. cbn [mbind res_bind].
  destruct (IH (sent (wire (meant o)) me)) as (me' & E & Ht); rewrite ?sent_cb; try done.
  exists me'. split; [done|]. rewrite Ht. unfold sent. cbn zeta. rewrite (proj2 (Z.eqb_neq _ _)) by apply Hr.
  simpl. by rewrite <- (assoc_L (++)).
Qed.

(** C9: the messages of a connection reach the peer.  Whatever state changes, [have]s,
    requests, cancellations and blocks a connection sends (and its socket takes), the
    bytes it hands to the socket, cut into buffers in any way, make the message handler
    of the peer issue exactly the calls that were meant, in order, with the same
    numbers and the same data, and leave it ready for the next message. *)
Theorem pwp_wire_roundtrip (os : list out) (me : PwpConn.pwp_conn_private_t)
    (custom : Z -> pwp_msghandler_private_t -> list Z -> res outcome) :
  (forall t, send_result t <> 0) -> PwpConn.cb_send (PwpConn.cb me) = true ->
  PwpConn.cb_write_block_to_stream (PwpConn.cb me) = true -> Forall valid_out os ->
  exists me' packets, send_all os me = Ok me' /\ PwpConn.told me' = PwpConn.told me ++ (PwpConn.Send <$> packets) /\
    forall chunks, concat chunks = concat packets -> Z.of_nat (List.length (concat chunks)) < 2 ^ 31 ->
      heard (receive custom pwp_msghandler_new chunks) = Ok (pwp_msghandler_new, atoms (meant <$> os)).
Proof.
  intros Hr Hs Hw Hv. destruct (send_all_spec os me Hr Hs Hw Hv) as (me' & E & Ht).
  exists me', (wire <$> (meant <$> os)). split_and!; [done|done|]. intros chunks Hc Hl. apply receive_wires; [|done|done].
  apply Forall_fmap. eapply Forall_impl; [exact Hv|]. intros o. apply valid_sendable.
Qed.
End senders.

(** A request, a block of three bytes and a choke. *)
Lemma pwp_wire_roundtrip_witness :
  let me := PwpConn.pwp_conn_set_cbs (PwpConn.mk_cbs true true true true true true true true) PwpConn.pwp_conn_new in
  let os := [out_request (mk_block 1 0 3); out_piece (mk_block 4 16384 3); out_state 0] in
  exists me' packets, send_all (fun _ => 1) (fun _ => [10; 11; 12]) os me = Ok me' /\
    PwpConn.told me' = PwpConn.told me ++ (PwpConn.Send <$> packets) /\
    forall chunks, concat chunks = concat packets -> Z.of_nat (List.length (concat chunks)) < 2 ^ 31 ->
      heard (receive (fun _ _ _ => Undef) pwp_msghandler_new chunks) =
      Ok (pwp_msghandler_new, atoms (meant (fun _ => [10; 11; 12]) <$> os)).
Proof.
  apply pwp_wire_roundtrip; [done|reflexivity|reflexivity|].
  repeat constructor; unfold u32_block, is_u32; simpl; lia.
Defined.
End PwpWire.
