(* ===== verification/PwpField.v ===== *)
(** * The bit field on the wire

    What [pwp_send_bitfield] (src/PUTs/01pwp/pwp_bitfield.c) writes of the pieces we
    have is a bit field of them, as long as it fits the buffer of 1000 bytes; the
    marking of the receiver rebuilds it.  The message handler as a whole has no defined
    result for such a message: the structure of a bit field is allocated too small
    (Bitfield.v). *)

From S2P Require Import Prelude Bitfield Chunkybar PwpStream PwpHandler PwpChunks PwpConn PwpWire.

Module PwpField.
Import PwpStream PwpHandler PwpChunks PwpWire.

(** ** The receiver *)

(** The bits of a byte, marked one after the other. *)
Fixpoint mark_byte (n : nat) (ii val b : Z) : Z :=
  match n with
  | O => b
  | S n =>
      mark_byte n (ii + 1) val
        (if Z.shiftr (wrap_u8 (Z.shiftl val ii)) 7 =? 1 then wrap_u8 (Z.lor b (Bitfield.mask_of ii)) else b)
  end.

Definition all_bytes : list Z := Z.of_nat <$> seq 0 256.

Lemma mark_byte_all : forallb (fun v => mark_byte 8 0 v 0 =? v) all_bytes = true.
Proof. vm_compute. reflexivity. Qed.

Lemma mark_byte_id v : is_byte v -> mark_byte 8 0 v 0 = v.
Proof.
  intros Hv. pose proof (proj1 (forallb_forall _ _) mark_byte_all v) as H. apply Z.eqb_eq, H, list_elem_of_In.
  apply list_elem_of_fmap. exists (Z.to_nat v). unfold is_byte in Hv. split; [lia|]. apply elem_of_seq. lia.
Qed.

Lemma mark_bits_spec n ii val j b bf :
  0 <= ii -> ii + Z.of_nat n <= 8 -> 0 <= j -> 8 * j + 8 <= Bitfield.size bf < 2 ^ 32 ->
  Bitfield.bits bf !! Z.to_nat j = Some b ->
  mark_bits n ii val (8 * j) bf =
    Ok (Bitfield.mk_bitfield (<[Z.to_nat j := mark_byte n ii val b]> (Bitfield.bits bf)) (Bitfield.size bf)).
Proof.
  revert ii b bf. induction n as [|n IH]; intros ii b bf Hii Hn Hj Hsz Hb.
  { simpl. rewrite list_insert_id by done. by destruct bf. }
  cbn [mark_bits mark_byte]. destruct (_ =? 1); cbn [mbind res_bind].
  - unfold Bitfield.bitfield_mark. rewrite (wrap_u32_id (8 * j + ii)) by lia.
    rewrite (proj2 (Z.ltb_lt _ _)) by lia. cbn [negb]. cbn zeta.
    replace ((8 * j + ii) / 8) with j by (apply (Z.div_unique _ _ _ ii); lia).
    replace (Bitfield.mask_of (8 * j + ii)) with (Bitfield.mask_of ii).
    2: { unfold Bitfield.mask_of. do 2 f_equal. rewrite Z.add_comm, Z.mul_comm. by rewrite Z.mod_add by lia. }
    rewrite (load_ok _ j b) by (done || lia). cbn [mbind res_bind].
    apply lookup_lt_Some in Hb as Hlt. rewrite store_ok by lia. cbn [mbind res_bind].
    rewrite (IH _ (wrap_u8 (Z.lor b (Bitfield.mask_of ii)))) by (cbn [Bitfield.size Bitfield.bits]; try lia; by apply list_lookup_insert_eq; lia).
    cbn [Bitfield.size Bitfield.bits]. by rewrite list_insert_insert_eq.
  - by rewrite (IH _ b) by (done || lia).
Qed.

(** A bit field of [n] whole bytes, of which [pre] have arrived. *)
Definition field (n : nat) (pre : list Z) : Bitfield.bitfield_t :=
  Bitfield.mk_bitfield (pre ++ replicate (n - List.length pre) 0) (8 * Z.of_nat n).

Lemma init_field n : Z.of_nat n < 2 ^ 29 -> Bitfield.bitfield_init (8 * Z.of_nat n) = field n [].
Proof.
  intros Hn. unfold Bitfield.bitfield_init, field, Bitfield.bytes_required_for_bits. cbn [app List.length].
  rewrite (Z.mul_comm 8), Z.mod_mul, Z.div_mul by lia. change (0 <? 0) with false. cbn iota.
  rewrite wrap_u32_id by lia. by rewrite Z.add_0_l, Nat2Z.id, Nat.sub_0_r.
Qed.

Lemma field_byte_step n pre v :
  (List.length pre < n)%nat -> Z.of_nat n < 2 ^ 29 -> is_byte v ->
  mark_bits 8 0 v (8 * Z.of_nat (List.length pre)) (field n pre) = Ok (field n (pre ++ [v])).
Proof.
  intros Hl Hn Hv. assert (exists k, (n - List.length pre = S k)%nat) as [k Ek] by (exists (n - List.length pre - 1)%nat; lia).
  rewrite (mark_bits_spec 8 0 v (Z.of_nat (List.length pre)) 0); try lia.
  - f_equal. unfold field. cbn [Bitfield.bits Bitfield.size]. f_equal. rewrite Nat2Z.id, mark_byte_id, Ek by done.
    rewrite insert_app_r_alt, Nat.sub_diag by lia. simpl. rewrite <- (assoc_L (++)), length_app. simpl. do 3 f_equal. lia.
  - unfold field. cbn [Bitfield.size]. lia.
  - unfold field. cbn [Bitfield.bits]. rewrite Nat2Z.id, lookup_app_r, Nat.sub_diag, Ek by lia. done.
Qed.

(** The bytes of a message, marked one after the other, as [do_bitfield] marks each. *)
Fixpoint mark_bytes (j : nat) (bytes : list Z) (bf : Bitfield.bitfield_t) : res Bitfield.bitfield_t :=
  match bytes with
  | [] => Ok bf
  | v :: bytes => bf ← mark_bits 8 0 v (8 * Z.of_nat j) bf; mark_bytes (S j) bytes bf
  end.

Lemma mark_bytes_spec n pre bytes :
  (List.length pre + List.length bytes <= n)%nat -> Z.of_nat n < 2 ^ 29 -> Forall is_byte bytes ->
  mark_bytes (List.length pre) bytes (field n pre) = Ok (field n (pre ++ bytes)).
Proof.
  revert pre. induction bytes as [|v bytes IH]; intros pre Hl Hn Hb; cbn [mark_bytes]; [by rewrite app_nil_r|].
  apply Forall_cons in Hb as [Hv Hb]. simpl in Hl. rewrite field_byte_step by (done || lia). cbn [mbind res_bind].
  pose proof (IH (pre ++ [v])) as IH'. rewrite length_app in IH'. simpl length in IH'. rewrite Nat.add_1_r in IH'.
  rewrite IH' by (done || lia). by rewrite <- (assoc_L (++)).
Qed.

(** The message handler does not get that far: the first byte of a bit field makes it
    allocate the size of a pointer for the structure, and write the number of bits
    behind it. *)
Theorem pwp_bitfield_message_undefined (custom : Z -> pwp_msghandler_private_t -> list Z -> res outcome) (bytes : list Z) :
  bytes <> [] -> Z.of_nat (List.length bytes) < 2 ^ 29 ->
  pwp_msghandler_dispatch_from_buffer custom pwp_msghandler_new (be (1 + Z.of_nat (List.length bytes)) ++ 5 :: bytes) = Undef.
Proof.
  intros Hne Hl. assert (0 < List.length bytes)%nat by (destruct bytes; [done|simpl; lia]).
  destruct (dispatch_header custom (1 + Z.of_nat (List.length bytes)) 5 pwp_bitfield bytes) as (-> & _);
    try done; [unfold is_u32; lia|lia|rewrite length_app, be_length; simpl; lia|].
  destruct bytes as [|v bytes]; [done|]. reflexivity.
Qed.

Lemma pwp_bitfield_message_undefined_witness :
  pwp_msghandler_dispatch_from_buffer (fun _ _ _ => Undef) pwp_msghandler_new [0; 0; 0; 3; 5; 224; 64] = Undef.
Proof. apply (pwp_bitfield_message_undefined (fun _ _ _ => Undef) [224; 64]); [done|simpl; lia]. Defined.

(** ** The sender *)

Section sender.
Context (have : Chunkybar.chunkybar_t) (np : nat).

Definition has (i : nat) : Z := Chunkybar.chunky_have have (Z.of_nat i) 1.

Lemma has_01 i : has i = 0 \/ has i = 1.
Proof.
  unfold has, Chunkybar.chunky_have. induction (Chunkybar.first_chunk have) as [|b cs IH]; simpl; [by left|].
  repeat case_if; auto.
Qed.

(** The first [m] bits of byte [j]. *)
Fixpoint part (j m : nat) : Z :=
  match m with
  | O => 0
  | S m => wrap_u8 (Z.lor (part j m) (Z.shiftl (has (8 * j + m)) (7 - Z.of_nat m)))
  end.

Definition byte_of (j : nat) : Z := part j (Nat.min 8 (np - 8 * j)).
Definition count : nat := ((np + 7) / 8)%nat.
Definition field_bytes : list Z := byte_of <$> seq 0 count.

Lemma part_byte j m : is_byte (part j m).
Proof. destruct m; simpl; [unfold is_byte; lia|]. apply Z.mod_pos_bound. lia. Qed.

Lemma part_bit j m k :
  (m <= 8)%nat -> (k < 8)%nat -> Z.testbit (part j m) (7 - Z.of_nat k) = (k <? m)%nat && (has (8 * j + k) =? 1).
Proof.
  intros Hm Hk. induction m as [|m IH]; [simpl; by rewrite Z.testbit_0_l|]. cbn [part].
  rewrite Bitfield.u8_bit, Z.lor_spec, IH, Z.shiftl_spec by lia.
  destruct (decide (k = m)) as [->|Hne].
  - rewrite Z.sub_diag, Nat.ltb_irrefl, (proj2 (Nat.ltb_lt m (S m))) by lia. cbn [andb orb].
    by destruct (has_01 (8 * j + m)) as [-> | ->].
  - assert (Z.testbit (has (8 * j + m)) (7 - Z.of_nat k - (7 - Z.of_nat m)) = false) as ->.
    { destruct (has_01 (8 * j + m)) as [-> | ->]; [by rewrite Z.testbit_0_l|].
      destruct (decide (k < m)%nat); [|by rewrite Z.testbit_neg_r by lia].
      change 1 with (2 ^ 0). apply Z.pow2_bits_false. lia. }
    rewrite orb_false_r. f_equal. destruct (Nat.ltb_spec k m), (Nat.ltb_spec k (S m)); try done; lia.
Qed.

Lemma write_full cap pre v : List.length pre = cap -> bitstream_write_ubyte (filled cap pre) v = Undef.
Proof.
  intros <-. unfold bitstream_write_ubyte, filled, store. cbn [block at_].
  rewrite Nat.sub_diag, app_nil_r, decide_False; [done|]. rewrite length_map. lia.
Qed.

(** The loop writes the bytes that are left, or runs out of the buffer. *)
Lemma bits_loop_spec n j m cap pre :
  (0 < n)%nat -> (m < 8)%nat -> np = (8 * j + m + n)%nat -> (List.length pre <= cap)%nat ->
  PwpConn.bits_loop n (Z.of_nat (8 * j + m)) (Z.of_nat np) (part j m) have (filled cap pre) =
    if (List.length pre + (count - j) <=? cap)%nat then Ok (filled cap (pre ++ (byte_of <$> seq j (count - j)))) else Undef.
Proof.
  revert j m pre. induction n as [|n IH]; intros j m pre Hn Hm Hnp Hcap; [lia|]. cbn [PwpConn.bits_loop]. cbn zeta.
  replace (7 - Z.of_nat (8 * j + m) mod 8) with (7 - Z.of_nat m).
  2: { f_equal. rewrite Nat2Z.inj_add, Nat2Z.inj_mul, Z.add_comm, Z.mul_comm, Z.mod_add by lia. symmetry. apply Z.mod_small. lia. }
  change (wrap_u8 _) with (part j (S m)).
  assert ((Z.of_nat (8 * j + m) + 1) mod 8 = Z.of_nat (S m) mod 8) as ->.
  { rewrite Nat2Z.inj_add, Nat2Z.inj_mul. change (Z.of_nat 8) with 8.
    replace (8 * Z.of_nat j + Z.of_nat m + 1) with (Z.of_nat (S m) + Z.of_nat j * 8) by lia. by rewrite Z.mod_add by lia. }
  assert (Z.of_nat (S m) mod 8 = 0 <-> m = 7%nat) as H8.
  { split; [|by intros ->]. intros E. destruct (decide (m = 7)%nat); [done|]. rewrite Z.mod_small in E; lia. }
  pose proof (Nat.div_mod_eq (np + 7) 8) as Hd. pose proof (Nat.mod_upper_bound (np + 7) 8 ltac:(lia)) as Hr. fold count in Hd.
  destruct ((Z.of_nat (S m) mod 8 =? 0) || (Z.of_nat np - 1 =? Z.of_nat (8 * j + m))) eqn:Ew.
  - apply orb_true_iff in Ew as Hw. rewrite !Z.eqb_eq, H8 in Hw.
    assert (exists k, count - j = S k)%nat as [k Ek] by (exists (count - j - 1)%nat; lia).
    assert (byte_of j = part j (S m)) as Eb by (unfold byte_of; f_equal; lia).
    destruct (decide (List.length pre = cap)) as [Efull|Eroom].
    { rewrite write_full by done. by rewrite (proj2 (Nat.leb_gt _ _)) by lia. }
    rewrite fill_ubyte by (apply part_byte || lia). cbn [mbind res_bind].
    destruct n as [|n].
    { assert (k = 0)%nat as -> by lia. rewrite Ek, (proj2 (Nat.leb_le _ _)) by lia. cbn [PwpConn.bits_loop seq fmap list_fmap]. by rewrite Eb. }
    assert (m = 7)%nat as -> by lia.
    replace (Z.of_nat (8 * j + 7) + 1) with (Z.of_nat (8 * S j + 0)) by lia.
    change 0 with (part (S j) 0) at 1. rewrite IH by (rewrite ?length_app; simpl; lia).
    rewrite length_app. simpl length. replace (count - S j)%nat with k by lia. rewrite Ek.
    replace (List.length pre + 1 + k)%nat with (List.length pre + S k)%nat by lia.
    destruct (_ <=? _)%nat; [|done]. cbn [seq fmap list_fmap]. rewrite Eb. by rewrite <- (assoc_L (++)).
  - apply orb_false_iff in Ew as [Hw1 Hw2]. apply Z.eqb_neq in Hw1, Hw2. rewrite H8 in Hw1.
    replace (Z.of_nat (8 * j + m) + 1) with (Z.of_nat (8 * j + S m)) by lia. apply IH; lia.
Qed.

Lemma count_bounds : (8 * count < np + 8)%nat /\ (np <= 8 * count)%nat.
Proof.
  unfold count. pose proof (Nat.div_mod_eq (np + 7) 8). pose proof (Nat.mod_upper_bound (np + 7) 8 ltac:(lia)). lia.
Qed.

(** The size of the message. *)
Lemma size_of_field : Z.quot (Z.of_nat np) 8 + (if Z.rem (Z.of_nat np) 8 =? 0 then 0 else 1) = Z.of_nat count.
Proof.
  rewrite Z.quot_div_nonneg, Z.rem_mod_nonneg by lia. destruct count_bounds as [H1 H2].
  pose proof (Z.div_mod (Z.of_nat np) 8 ltac:(lia)). pose proof (Z.mod_pos_bound (Z.of_nat np) 8 ltac:(lia)).
  destruct (Z.eqb_spec (Z.of_nat np mod 8) 0); lia.
Qed.

Lemma field_bytes_length : List.length field_bytes = count.
Proof. unfold field_bytes. by rewrite length_fmap, length_seq. Qed.

Lemma bits_field : Bitfield.bits (field count field_bytes) = field_bytes.
Proof. unfold field. cbn [Bitfield.bits]. by rewrite field_bytes_length, Nat.sub_diag, app_nil_r. Qed.

Lemma field_bytes_range : Forall is_byte field_bytes.
Proof. apply Forall_fmap, Forall_forall. intros j _. apply part_byte. Qed.

Lemma send_bitfield_spec :
  (0 < np)%nat -> Z.of_nat np <= int_max ->
  PwpConn.pwp_send_bitfield (Z.of_nat np) have =
    if Z.of_nat np <=? 7960 then Ok (wire (pwp_conn_bitfield (field count field_bytes))) else Undef.
Proof.
  intros Hpos Hmax. unfold int_max in Hmax. destruct count_bounds as [H1 H2]. unfold PwpConn.pwp_send_bitfield. cbn zeta.
  replace (4 + 1 + Z.quot (Z.of_nat np) 8 + (if Z.rem (Z.of_nat np) 8 =? 0 then 0 else 1)) with (5 + Z.of_nat count)
    by (rewrite <- size_of_field; lia).
  rewrite (wrap_u32_id (5 + Z.of_nat count)) by lia. replace (5 + Z.of_nat count - 4) with (1 + Z.of_nat count) by lia.
  rewrite wrap_u32_id by lia. rewrite fresh_filled, fill_uint32 by (simpl; lia). cbn [mbind res_bind].
  rewrite fill_ubyte by (simpl; unfold PWP_MSGTYPE_BITFIELD; lia). cbn [mbind res_bind]. rewrite Nat2Z.id.
  pose proof (bits_loop_spec np 0 0 1000 (([] ++ be (1 + Z.of_nat count)) ++ [PWP_MSGTYPE_BITFIELD])) as Hloop.
  cbn [part] in Hloop. change (Z.of_nat (8 * 0 + 0)) with 0 in Hloop. rewrite Hloop by (simpl; lia). clear Hloop.
  rewrite Nat.sub_0_r. change (byte_of <$> seq 0 count) with field_bytes. cbn [app List.length].
  change (List.length (be (1 + Z.of_nat count) ++ [PWP_MSGTYPE_BITFIELD])) with 5%nat.
  destruct (Z.leb_spec (Z.of_nat np) 7960) as [Hle|Hgt].
  - rewrite (proj2 (Nat.leb_le _ _)) by lia. cbn [mbind res_bind].
    rewrite wrap_int_id by (unfold in_int, int_min, int_max; lia). cbn [wire]. rewrite bits_field, field_bytes_length.
    rewrite <- (sent_filled 1000).
    + rewrite <- (assoc_L (++)). f_equal. rewrite !length_app, field_bytes_length, be_length. cbn [List.length]. lia.
    + rewrite !length_app, field_bytes_length, be_length. cbn [List.length]. lia.
  - by rewrite (proj2 (Nat.leb_gt _ _)) by lia.
Qed.

Lemma field_marked i :
  0 <= i < Z.of_nat np -> Z.of_nat np <= int_max ->
  Bitfield.bitfield_is_marked (field count field_bytes) i = Ok (Chunkybar.chunky_have have i 1).
Proof.
  intros Hi Hmax. unfold int_max in Hmax. destruct count_bounds as [H1 H2].
  assert (Bitfield.wf (field count field_bytes)) as Hwf.
  { split; [simpl; lia| |rewrite bits_field; apply field_bytes_range]. rewrite bits_field, field_bytes_length. simpl.
    unfold Bitfield.bytes_required_for_bits. rewrite (Z.mul_comm 8), Z.mod_mul, Z.div_mul by lia. simpl. by rewrite wrap_u32_id by lia. }
  rewrite Bitfield.is_marked_spec by (done || (simpl; lia)). f_equal. unfold Bitfield.marked. rewrite bits_field.
  set (j := Z.to_nat (i / 8)). set (k := Z.to_nat (i mod 8)).
  pose proof (Z.div_mod i 8 ltac:(lia)) as Hdm. pose proof (Z.mod_pos_bound i 8 ltac:(lia)) as Hk.
  assert (0 <= i / 8) by (apply Z.div_pos; lia).
  assert (field_bytes !! j = Some (byte_of j)) as ->.
  { unfold field_bytes. rewrite list_lookup_fmap, lookup_seq_lt; [done|]. lia. }
  replace (7 - i mod 8) with (7 - Z.of_nat k) by lia. change (default 0 (Some (byte_of j))) with (part j (Nat.min 8 (np - 8 * j))).
  rewrite part_bit by lia. rewrite (proj2 (Nat.ltb_lt _ _)) by lia. cbn [andb].
  assert (has (8 * j + k) = Chunkybar.chunky_have have i 1) as <- by (unfold has; f_equal; lia).
  by destruct (has_01 (8 * j + k)) as [-> | ->].
Qed.
End sender.

(** ** What the connection learns *)

Lemma have_one c i : Chunkybar.wf c -> 0 <= i -> i + 1 < 2 ^ 32 ->
  Chunkybar.chunky_have c i 1 = 1 /\ Chunkybar.covered (Chunkybar.first_chunk c) i \/
  Chunkybar.chunky_have c i 1 = 0 /\ ~ Chunkybar.covered (Chunkybar.first_chunk c) i.
Proof.
  intros Hwf Hi Hs. unfold Chunkybar.chunky_have.
  destruct (Chunkybar.have_spec (Chunkybar.first_chunk c) 0 i 1) as [[-> H]|[-> (k & Hk & H)]]; try done; try lia.
  - left. split; [done|]. apply H. lia.
  - right. split; [done|]. by replace i with k by lia.
Qed.

Lemma bitfield_loop_spec bf (h : Z -> Z) n ii me :
  0 <= ii -> ii + Z.of_nat n <= PwpConn.num_pieces me -> PwpConn.num_pieces me <= int_max ->
  (forall i, ii <= i < ii + Z.of_nat n -> Bitfield.bitfield_is_marked bf i = Ok (h i)) ->
  Chunkybar.wf (PwpConn.pieces_peerhas me) ->
  exists me', PwpConn.bitfield_loop n ii bf me = Ok me' /\ Chunkybar.wf (PwpConn.pieces_peerhas me') /\
    forall k, Chunkybar.covered (Chunkybar.first_chunk (PwpConn.pieces_peerhas me')) k <->
      Chunkybar.covered (Chunkybar.first_chunk (PwpConn.pieces_peerhas me)) k \/ ii <= k < ii + Z.of_nat n /\ h k <> 0.
Proof.
  unfold int_max. revert ii me. induction n as [|n IH]; intros ii me Hii Hn Hmax Hm Hwf; cbn [PwpConn.bitfield_loop].
  { exists me. split_and!; try done. intros k. split; [by left|]. intros [?|?]; [done|lia]. }
  rewrite Hm by lia. cbn [mbind res_bind].
  set (me1 := if h ii =? 0 then me else _).
  assert (PwpConn.num_pieces me1 = PwpConn.num_pieces me /\ Chunkybar.wf (PwpConn.pieces_peerhas me1) /\
    forall k, Chunkybar.covered (Chunkybar.first_chunk (PwpConn.pieces_peerhas me1)) k <->
      Chunkybar.covered (Chunkybar.first_chunk (PwpConn.pieces_peerhas me)) k \/ k = ii /\ h k <> 0) as (En & Hwf1 & Hc).
  { unfold me1. destruct (Z.eqb_spec (h ii) 0) as [E|E].
    - split_and!; try done. intros k. split; [by left|]. by intros [?|[-> ?]].
    - unfold PwpConn.pwp_conn_mark_peer_has_piece. rewrite (proj2 (Z.leb_gt _ _)), (proj2 (Z.ltb_ge _ _)) by lia. cbn [orb fst].
      destruct (Chunkybar.mark_complete_spec (PwpConn.pieces_peerhas me) ii 1 Hwf) as [Hw Hk]; try lia.
      case_if; (split_and!; [done|exact Hw|]); intros k; simpl; rewrite Hk; split; (intros [?|?]; [by left|right]).
      all: try (split; [lia|]; by replace k with ii by lia). all: lia. }
  destruct (IH (ii + 1) me1) as (me' & E & Hwf' & Hc'); [lia|rewrite En; lia|rewrite En; lia|intros i Hi; apply Hm; lia|done|].
  exists me'. split_and!; [done|done|]. intros k. rewrite Hc', Hc.
  split; [intros [[?|[-> ?]]|[? ?]]; auto; right; (split; [lia|done])|].
  intros [?|[? ?]]; auto. destruct (decide (k = ii)); auto. right. split; [lia|done].
Qed.

(** a bit field says which pieces we have.  For up to 7960 pieces the message that is
    sent has the bytes of a bit field; marking them in a bit field of their number, byte by
    byte, gives a bit field after which a connection that knew nothing of us answers for
    every piece what our own counter says. *)
Theorem pwp_bitfield_roundtrip (have : Chunkybar.chunkybar_t) (npieces : Z) (me : PwpConn.pwp_conn_private_t) :
  0 < npieces <= 7960 -> PwpConn.num_pieces me = npieces -> Chunkybar.first_chunk (PwpConn.pieces_peerhas me) = [] ->
  exists bytes bf me',
    PwpConn.pwp_send_bitfield npieces have = Ok (be (1 + Z.of_nat (List.length bytes)) ++ 5 :: bytes) /\
    mark_bytes 0 bytes (Bitfield.bitfield_init (8 * Z.of_nat (List.length bytes))) = Ok bf /\
    PwpConn.pwp_conn_bitfield me bf = Ok me' /\
    forall i, 0 <= i < npieces -> PwpConn.pwp_conn_peer_has_piece me' i = Chunkybar.chunky_have have i 1.
Proof.
  intros Hn Hnum Hno. set (np := Z.to_nat npieces). assert (npieces = Z.of_nat np) as E by lia.
  assert (npieces <= int_max) as Hmax by (unfold int_max; lia). destruct (count_bounds np) as [H1 H2].
  pose proof (send_bitfield_spec have np ltac:(lia) ltac:(lia)) as Hsend. rewrite (proj2 (Z.leb_le (Z.of_nat np) 7960)) in Hsend by lia.
  pose proof (field_marked have np) as Hmark. pose proof (field_bytes_length have np) as Hlen.
  cbn [wire] in Hsend. rewrite bits_field in Hsend.
  set (bf := field (count np) (field_bytes have np)) in *.
  set (me1 := PwpConn.raise_flag PwpConn.PC_BITFIELD_RECEIVED
    (if PwpConn.pwp_conn_flag_is_set me PwpConn.PC_BITFIELD_RECEIVED then PwpConn.disconnect PwpConn.peer_sent_bitfield_twice me else me)).
  assert (PwpConn.num_pieces me1 = npieces /\ Chunkybar.first_chunk (PwpConn.pieces_peerhas me1) = []) as [En Ep].
  { unfold me1, PwpConn.disconnect. by repeat case_if. }
  destruct (bitfield_loop_spec bf (fun i => Chunkybar.chunky_have have i 1) np 0 me1) as (me' & El & Hwf & Hc); try lia.
  { intros i Hi. apply Hmark; lia. }
  { unfold Chunkybar.wf. rewrite Ep. constructor. }
  exists (field_bytes have np), bf, me'. split_and!.
  - rewrite E. exact Hsend.
  - rewrite Hlen, init_field by lia. apply (mark_bytes_spec (count np) []); [simpl; lia|lia|apply field_bytes_range].
  - unfold PwpConn.pwp_conn_bitfield. cbn zeta. fold me1. rewrite En. exact El.
  - intros i Hi. unfold PwpConn.pwp_conn_peer_has_piece. rewrite wrap_u32_id by lia.
    destruct (has_01 have (Z.to_nat i)) as [Eh|Eh]; unfold has in Eh; rewrite Z2Nat.id in Eh by lia; rewrite Eh;
    destruct (have_one (PwpConn.pieces_peerhas me') i Hwf) as [[-> Hk]|[-> Hk]]; try lia; exfalso; revert Hk; rewrite Hc, Ep, Eh.
    + intros [H|[_ H]]; [by apply Chunkybar.covered_nil in H|done].
    + intros H. apply H. right. split; [lia|done].
Qed.

(** Ten pieces of which we have the first three and the last one. *)
Lemma pwp_bitfield_roundtrip_witness :
  let have := Chunkybar.chunky_mark_complete (Chunkybar.chunky_mark_complete (Chunkybar.chunky_new 10) 0 3) 9 1 in
  let me := PwpConn.pwp_conn_set_piece_info 10 16384 PwpConn.pwp_conn_new in
  exists bytes bf me',
    PwpConn.pwp_send_bitfield 10 have = Ok (be (1 + Z.of_nat (List.length bytes)) ++ 5 :: bytes) /\
    mark_bytes 0 bytes (Bitfield.bitfield_init (8 * Z.of_nat (List.length bytes))) = Ok bf /\
    PwpConn.pwp_conn_bitfield me bf = Ok me' /\
    forall i, 0 <= i < 10 -> PwpConn.pwp_conn_peer_has_piece me' i = Chunkybar.chunky_have have i 1.
Proof. apply pwp_bitfield_roundtrip; [lia|reflexivity|reflexivity]. Defined.

(** more than 7960 pieces do not fit the buffer of 1000 bytes: the message is
    written past its end. *)
Theorem pwp_bitfield_overrun (have : Chunkybar.chunkybar_t) (npieces : Z) :
  7960 < npieces <= int_max -> PwpConn.pwp_send_bitfield npieces have = Undef.
Proof.
  intros Hn. rewrite <- (Z2Nat.id npieces) by lia. rewrite send_bitfield_spec by lia. by rewrite (proj2 (Z.leb_gt _ _)) by lia.
Qed.

Lemma pwp_bitfield_overrun_witness : PwpConn.pwp_send_bitfield 8000 (Chunkybar.chunky_new 8000) = Undef.
Proof. apply pwp_bitfield_overrun. unfold int_max. lia. Defined.
End PwpField.
