(* ===== verification/PwpPending.v ===== *)
(** * The requests of a connection

    What is pending of the blocks we asked for, when requests are cut by blocks of any size,
    when the peer chokes us and when requests grow old (src/PUTs/01pwp/pwp_connection.c). *)

From S2P Require Import Prelude Chunkybar PwpStream PwpHandler PwpConn.

Module PwpPending.
Import PwpConn.

(** ** Bytes *)

(** Byte [k] of piece [p] is part of the block. *)
Definition in_block (b : bt_block_t) (p k : Z) : Prop := p = piece_idx b /\ offset b <= k < offset b + len b.

(** Byte [k] of piece [p] was asked for and has not arrived. *)
Definition pending (m : requests) (p k : Z) : Prop := exists b, b ∈ dom m /\ in_block b p k.

(** The bounds of a block fit [int]. *)
Definition small (b : bt_block_t) : Prop := 0 <= offset b /\ 0 <= len b /\ offset b + len b <= int_max.

(** Every request is stored under its own block. *)
Definition keyed (m : requests) : Prop := map_Forall (fun b r => r_blk r = b /\ small b) m.

Lemma end_small b : small b -> end_of b = offset b + len b.
Proof. intros (? & ? & ?). unfold end_of. apply wrap_u32_id. unfold int_max in *. lia. Qed.

(** ** What a block leaves of a request *)

Definition rest_of (pb rb : bt_block_t) : list bt_block_t :=
  let '(a, e, c, d) := (offset rb, offset rb + len rb, offset pb, offset pb + len pb) in
  if negb (piece_idx rb =? piece_idx pb) then [rb]
  else if (c <=? a) && (e <=? d) then []
  else if (a <? c) && (d <? e) then [mk_block (piece_idx rb) d (e - d); mk_block (piece_idx rb) a (c - a)]
  else if (a <? d) && (d <? e) then [mk_block (piece_idx rb) d (e - d)]
  else if (a <? c) && (c <? e) && (e <=? d) then [mk_block (piece_idx rb) a (c - a)]
  else [rb].

(** The conditions of the branches as inequalities. *)
Ltac branches := unfold small, rest_of in *; cbn zeta in *;
  repeat match goal with
    | |- context [Z.eqb ?a ?b] => destruct (Z.eqb_spec a b)
    | |- context [Z.leb ?a ?b] => destruct (Z.leb_spec a b)
    | |- context [Z.ltb ?a ?b] => destruct (Z.ltb_spec a b)
    | H : context [Z.eqb ?a ?b] |- _ => destruct (Z.eqb_spec a b)
    | H : context [Z.leb ?a ?b] |- _ => destruct (Z.leb_spec a b)
    | H : context [Z.ltb ?a ?b] |- _ => destruct (Z.ltb_spec a b)
    end; cbn [negb andb] in *.

(** Exactly the bytes that did not arrive are left. *)
Lemma rest_bytes pb rb p k :
  small pb -> small rb ->
  (exists b, b ∈ rest_of pb rb /\ in_block b p k) <-> in_block rb p k /\ ~ in_block pb p k.
Proof.
  intros Hp Hr. assert (forall l, (exists b, b ∈ l /\ in_block b p k) <-> Exists (fun b => in_block b p k) l) as ->.
  { intros l. rewrite Exists_exists. naive_solver. }
  unfold in_block. branches; rewrite ?Exists_cons, ?Exists_nil; cbn [piece_idx offset len]; lia.
Qed.

Lemma rest_small pb rb b : small pb -> small rb -> b ∈ rest_of pb rb -> small b.
Proof.
  intros Hp Hr. branches; rewrite ?elem_of_cons, ?elem_of_nil; intros Hb; destruct_or?; subst; cbn [offset len]; try done; lia.
Qed.

(** What is left is not cut again. *)
Lemma rest_again pb rb b : small pb -> small rb -> b ∈ rest_of pb rb -> rest_of pb b = [b].
Proof.
  intros Hp Hr Hb. assert (b = rb /\ rest_of pb rb = [rb] \/
    0 < len b /\ (offset b + len b <= offset pb \/ offset pb + len pb <= offset b)) as [[-> E]|[H0 H]].
  { revert Hb. branches; rewrite ?elem_of_cons, ?elem_of_nil; intros Hb; destruct_or?; subst; cbn [offset len];
      try done; try (left; by split); right; lia. }
  - done.
  - clear Hb. branches; try done; lia.
Qed.

(** ** The hash map *)

Lemma put_size (m : requests) b r : (size (<[b := r]> m) <= S (size m))%nat.
Proof. rewrite map_size_insert. case_match; simpl; lia. Qed.

Lemma put_ok (m : requests) b r : Z.of_nat (size m) + 1 < 32768 -> recv_reqs_put m b r = Ok (<[b := r]> m).
Proof. intros Hs. unfold recv_reqs_put. destruct (m !! b); [done|]. by rewrite (proj2 (Z.ltb_lt _ _)). Qed.

Lemma keyed_put m b t : keyed m -> small b -> keyed (<[b := mk_request t b]> m).
Proof. intros Hk Hb. by apply map_Forall_insert_2. Qed.

Lemma keyed_delete m b : keyed m -> keyed (delete b m).
Proof. apply map_Forall_delete. Qed.

Lemma resize_ok m r o l :
  0 <= o -> 0 < l -> o + l <= int_max -> Z.of_nat (size m) + 1 < 32768 ->
  put_resized m r o l = Ok (<[mk_block (piece_idx (r_blk r)) o l := mk_request (r_tick r) (mk_block (piece_idx (r_blk r)) o l)]> m).
Proof.
  intros Ho Hl Hol Hs. unfold put_resized. rewrite wrap_int_id by (unfold in_int, int_min, int_max in *; lia).
  rewrite (proj2 (Z.ltb_lt _ _)) by done. cbn [negb]. by apply put_ok.
Qed.

(** What became of the map: a request was replaced by its rest. *)
Record cut_of (pb rb : bt_block_t) (m m' : requests) : Prop := {
  cut_dom : dom m' = dom m ∖ {[rb]} ∪ list_to_set (rest_of pb rb);
  cut_keyed : keyed m';
  cut_size : (size m' <= S (size m))%nat
}.

Section cut.
Context (pb : bt_block_t) (r r' : request_t) (m : requests).
Context (Hk : keyed m) (Hr : m !! r_blk r = Some r') (Hs : Z.of_nat (size m) + 2 < 32768).

Lemma size_delete : (S (size (delete (r_blk r) m)) = size m)%nat.
Proof.
  rewrite map_size_delete, Hr. assert (size m <> 0)%nat; [|lia]. intros E. apply map_size_empty_inv in E. by rewrite E in Hr.
Qed.

(** One block is left. *)
Lemma cut_one o l :
  rest_of pb (r_blk r) = [mk_block (piece_idx (r_blk r)) o l] -> 0 <= o -> 0 < l -> o + l <= int_max ->
  exists m', put_resized (delete (r_blk r) m) r o l = Ok m' /\ cut_of pb (r_blk r) m m'.
Proof.
  intros E Ho Hl Hol. pose proof size_delete. rewrite resize_ok by lia. eexists. split; [done|]. split.
  - rewrite E, dom_insert_L, dom_delete_L. set_solver.
  - apply keyed_put; [by apply keyed_delete|]. unfold small; simpl; lia.
  - etrans; [apply put_size|]. lia.
Qed.

(** Two blocks are left. *)
Lemma cut_two o l o' l' :
  rest_of pb (r_blk r) = [mk_block (piece_idx (r_blk r)) o l; mk_block (piece_idx (r_blk r)) o' l'] ->
  0 <= o' < o -> o' = offset (r_blk r) -> 0 < l -> 0 < l' -> o + l <= int_max -> o' + l' <= int_max ->
  exists m', (m1 ← put_resized m r o l; put_resized (delete (r_blk r) m1) r o' l') = Ok m' /\ cut_of pb (r_blk r) m m'.
Proof.
  intros E Ho Eo Hl Hl' Hol Hol'. rewrite resize_ok by lia. cbn [mbind res_bind]. set (b := mk_block _ o l) in *.
  assert (b <> r_blk r) as Hne by (intros Eb; rewrite <- Eb in Eo; simpl in Eo; lia).
  pose proof (put_size m b (mk_request (r_tick r) b)) as Hput.
  assert (size (delete (r_blk r) (<[b := mk_request (r_tick r) b]> m)) <= size m)%nat as Hsz.
  { rewrite map_size_delete, lookup_insert_ne, Hr by done. lia. }
  rewrite resize_ok by lia. eexists. split; [done|]. split.
  - rewrite E, dom_insert_L, dom_delete_L, dom_insert_L. set_solver.
  - apply keyed_put; [apply keyed_delete, keyed_put; [done|]|]; unfold small; simpl; lia.
  - etrans; [apply put_size|]. lia.
Qed.

Lemma cut_request_spec :
  small pb -> piece_idx (r_blk r) = piece_idx pb -> exists m', cut_request pb r m = Ok m' /\ cut_of pb (r_blk r) m m'.
Proof.
  intros Hp Hpi. destruct (Hk _ _ Hr) as [_ Hrb]. pose proof (elem_of_dom_2 _ _ _ Hr) as Hin.
  pose proof cut_one as H1. pose proof cut_two as H2. unfold cut_request. rewrite !end_small, Hr by done.
  unfold rest_of in H1, H2. cbn zeta in H1, H2. rewrite Hpi, Z.eqb_refl in H1, H2. cbn [negb] in H1, H2.
  pose proof size_delete as Hdel. unfold small, int_max in *.
  assert (rest_of pb (r_blk r) = [r_blk r] -> cut_of pb (r_blk r) m m) as H0.
  { intros E. split; [|done|lia]. rewrite E. apply set_eq. intros x. destruct (decide (x = r_blk r)); set_solver. }
  unfold rest_of in H0. cbn zeta in H0. rewrite Hpi, Z.eqb_refl in H0. cbn [negb] in H0.
  destruct ((offset pb <=? offset (r_blk r)) && _) eqn:E1.
  { eexists. split; [done|]. split; [|by apply keyed_delete|lia]. unfold rest_of. cbn zeta. rewrite Hpi, Z.eqb_refl, E1. simpl.
    rewrite dom_delete_L. set_solver. }
  destruct ((offset (r_blk r) <? offset pb) && (_ <? _)) eqn:E2.
  { apply andb_true_iff in E2. rewrite !Z.ltb_lt in E2. rewrite !wrap_u32_id by lia.
    replace (len (r_blk r) - len pb - (offset pb - offset (r_blk r))) with (offset (r_blk r) + len (r_blk r) - (offset pb + len pb)) by lia.
    apply H2; done || lia. }
  destruct ((offset (r_blk r) <? offset pb + len pb) && _) eqn:E3.
  { apply andb_true_iff in E3. rewrite !Z.ltb_lt in E3.
    rewrite andb_false_iff, !Z.leb_gt in E1. rewrite andb_false_iff, !Z.ltb_ge in E2. rewrite (wrap_u32_id (offset pb + len pb - _)), wrap_u32_id by lia.
    replace (len (r_blk r) - (offset pb + len pb - offset (r_blk r))) with (offset (r_blk r) + len (r_blk r) - (offset pb + len pb)) by lia.
    apply H1; done || lia. }
  destruct ((offset (r_blk r) <? offset pb) && (_ <? _) && _) eqn:E4; [|by eauto].
  apply andb_true_iff in E4 as [E4 _]. apply andb_true_iff in E4. rewrite !Z.ltb_lt in E4. rewrite wrap_u32_id by lia.
  apply H1; done || lia.
Qed.
End cut.

(** Every request is cut once. *)
Lemma cut_loop_spec pb add m :
  small pb -> keyed m -> Z.of_nat (size m) + Z.of_nat (List.length add) + 1 < 32768 ->
  Forall (fun r => r_blk r ∈ dom m) add -> NoDup (r_blk <$> add) ->
  (forall b, b ∈ dom m -> b ∉ r_blk <$> add -> rest_of pb b = [b]) ->
  exists m', cut_loop pb add m = Ok m' /\ keyed m' /\
    forall b', b' ∈ dom m' <-> exists b, b ∈ dom m /\ b' ∈ rest_of pb b.
Proof.
  intros Hp. revert m. induction add as [|r add IH]; intros m Hk Hs Hin Hnd Hst; cbn [cut_loop].
  { exists m. split_and!; try done. intros b'. split.
    - intros Hb. exists b'. split; [done|]. rewrite Hst; set_solver.
    - intros (b & Hb & Hb'). rewrite Hst in Hb' by set_solver. apply list_elem_of_singleton in Hb'. by subst. }
  apply Forall_cons in Hin as [Hr Hin]. rewrite fmap_cons in Hnd, Hst. apply NoDup_cons in Hnd as [Hnr Hnd]. simpl in Hs.
  destruct (Z.eqb_spec (piece_idx (r_blk r)) (piece_idx pb)) as [Hpi|Hpi]; cbn [negb mbind res_bind].
  - apply elem_of_dom in Hr as [r' Hr']. destruct (Hk _ _ Hr') as [_ Hsm].
    destruct (cut_request_spec pb r r' m Hk Hr') as (m1 & -> & [Hd Hk1 Hs1]); [lia|done|done|]. cbn [mbind res_bind].
    destruct (IH m1) as (m' & -> & Hk' & Hd'); try done; [lia| | |].
    + rewrite Hd. rewrite !Forall_forall in *. intros x Hx. specialize (Hin x Hx).
      assert (r_blk x <> r_blk r); [|set_solver]. intros E. apply Hnr. rewrite <- E. by apply list_elem_of_fmap_2.
    + rewrite Hd. intros b Hb Hnb. apply elem_of_union in Hb as [Hb|Hb].
      * apply Hst; [set_solver|]. rewrite elem_of_cons. set_solver.
      * apply (rest_again pb (r_blk r)); try done. by apply elem_of_list_to_set in Hb.
    + exists m'. split_and!; try done. intros b'. rewrite Hd'. rewrite Hd. split.
      * intros (b & Hb & Hb'). apply elem_of_union in Hb as [Hb|Hb]; [exists b; set_solver|].
        apply elem_of_list_to_set in Hb. rewrite (rest_again pb (r_blk r) b) in Hb' by done.
        apply list_elem_of_singleton in Hb'. subst. exists (r_blk r). split; [by eapply elem_of_dom_2|done].
      * intros (b & Hb & Hb'). destruct (decide (b = r_blk r)) as [->|Hne]; [|exists b; set_solver].
        exists b'. split; [set_solver|]. rewrite (rest_again pb (r_blk r)); set_solver.
  - apply IH; try done; [lia|]. intros b Hb Hnb. destruct (decide (b = r_blk r)) as [->|Hne]; [|set_solver].
    unfold rest_of. by rewrite (proj2 (Z.eqb_neq _ _)).
Qed.

Section connection.
Context (order : requests -> list request_t).

(** The iterator of the hash map lists every request once. *)
Context (Horder : forall m, order m ≡ₚ (map_to_list m).*2).

Lemma order_blocks m : keyed m -> r_blk <$> order m ≡ₚ (map_to_list m).*1.
Proof.
  intros Hk. rewrite Horder. rewrite <- list_fmap_compose.
  erewrite (list_fmap_ext _ _ (map_to_list m)); [done|]. intros i [b r] Hi. simpl.
  apply list_elem_of_lookup_2, elem_of_map_to_list in Hi. by destruct (Hk _ _ Hi).
Qed.

Lemma order_in m b : keyed m -> b ∈ r_blk <$> order m <-> b ∈ dom m.
Proof.
  intros Hk. rewrite order_blocks by done. rewrite list_elem_of_fmap, elem_of_dom. split.
  - intros ([b' r] & -> & H). apply elem_of_map_to_list in H. by exists r.
  - intros [r Hr]. exists (b, r). split; [done|]. by apply elem_of_map_to_list.
Qed.

Lemma order_nodup m : keyed m -> NoDup (r_blk <$> order m).
Proof. intros Hk. rewrite order_blocks by done. apply NoDup_fst_map_to_list. Qed.

Lemma order_length m : List.length (order m) = size m.
Proof. rewrite (Permutation_length (Horder m)), length_fmap. apply length_map_to_list. Qed.

(** C14: the cutting of the pending requests settles exactly the bytes of a block.  Where
    the requests are stored under their own blocks, all blocks end within the range of
    [int] and at most 16000 requests are pending, the loop over the pending requests ends
    and no assertion of it fails; whatever the block overlaps (a part of a request, several
    requests at once, the middle of one), the bytes still pending are then those that were
    pending and are not in the block, the requests are stored under their own blocks again,
    and nothing else of the connection has changed.  (This is the code behind the lookup
    that opens the function; the lookup itself is undefined, see C11.) *)
Theorem pwp_cut_settles_bytes (me : pwp_conn_private_t) (blk : bt_block_t) :
  keyed (recv_reqs me) -> small blk -> Z.of_nat (size (recv_reqs me)) <= 16000 ->
  exists m, cut_pending order me blk = Ok (set_recv_reqs m me) /\ keyed m /\
    forall p k, pending m p k <-> pending (recv_reqs me) p k /\ ~ in_block blk p k.
Proof.
  intros Hk Hb Hs. unfold cut_pending.
  destruct (cut_loop_spec blk (order (recv_reqs me)) (recv_reqs me)) as (m & -> & Hk' & Hd); try done.
  - rewrite order_length. lia.
  - apply Forall_forall. intros r Hr. apply order_in; [done|]. by apply list_elem_of_fmap_2.
  - by apply order_nodup.
  - intros b Hin Hn. exfalso. apply Hn. by apply order_in.
  - exists m. split_and!; try done. intros p k. unfold pending. split.
    + intros (b' & Hb' & Hin). apply Hd in Hb' as (b & Hbm & Hr).
      assert (small b) as Hsm by (apply elem_of_dom in Hbm as [r Hr']; by destruct (Hk _ _ Hr')).
      destruct (proj1 (rest_bytes blk b p k Hb Hsm)) as [H1 H2]; eauto.
    + intros [(b & Hbm & Hin) Hn].
      assert (small b) as Hsm by (apply elem_of_dom in Hbm as [r Hr']; by destruct (Hk _ _ Hr')).
      destruct (proj2 (rest_bytes blk b p k Hb Hsm)) as (b' & Hb' & Hin'); [done|]. exists b'. split; [|done]. apply Hd. eauto.
Qed.

(** ** Requests that are given back *)

(** The requests of [rem] leave the map and go back to the caller. *)
Definition given_back (rem : list request_t) (me : pwp_conn_private_t) (m : requests) : pwp_conn_private_t :=
  mk_conn (flags me) (failed_connections me) (tick me) (bytes_downloaded_this_period me) (bytes_uploaded_this_period me)
    (bytes_drate me) (bytes_urate me) m (peer_reqs me) (reqs me) (piece_len me) (num_pieces me) (cb me)
    (pieces_completed me) (pieces_peerhas me) (told me ++ (Peer_giveback_block <$> (r_blk <$> rem))).

Lemma giveback_step me r r' :
  cb_peer_giveback_block (cb me) = true -> keyed (recv_reqs me) -> recv_reqs me !! r_blk r = Some r' ->
  giveback (r_blk r') (set_recv_reqs (delete (r_blk r) (recv_reqs me)) me) = given_back [r] me (delete (r_blk r) (recv_reqs me)).
Proof. intros Hcb Hk Hr. unfold giveback. cbn [set_recv_reqs cb]. rewrite Hcb. by destruct (Hk _ _ Hr) as [-> _]. Qed.

Lemma given_back_app rem1 rem2 me m1 m2 :
  given_back rem2 (given_back rem1 me m1) m2 = given_back (rem1 ++ rem2) me m2.
Proof. unfold given_back. simpl. by rewrite !fmap_app, (assoc_L (++)). Qed.

(** Both loops give the requests of their list back. *)
Lemma expunge_loops rem me :
  cb_peer_giveback_block (cb me) = true -> keyed (recv_reqs me) ->
  Forall (fun r => r_blk r ∈ dom (recv_reqs me)) rem -> NoDup (r_blk <$> rem) ->
  exists m, expunge_loop rem me = Ok (given_back rem me m) /\ expunge_old_loop rem me = Ok (given_back rem me m) /\
    forall b, m !! b = if decide (b ∈ r_blk <$> rem) then None else recv_reqs me !! b.
Proof.
  revert me. induction rem as [|r rem IH]; intros me Hcb Hk Hin Hnd.
  { exists (recv_reqs me). assert (given_back [] me (recv_reqs me) = me) as E
      by (unfold given_back; simpl; rewrite app_nil_r; by destruct me).
    rewrite E. split_and!; [done|done|]. intros b. case_decide as Hb; [by apply not_elem_of_nil in Hb|done]. }
  apply Forall_cons in Hin as [Hr Hin]. rewrite fmap_cons in *. apply NoDup_cons in Hnd as [Hnr Hnd].
  apply elem_of_dom in Hr as [r' Hr]. cbn [expunge_loop expunge_old_loop]. rewrite Hcb, Hr. cbn [negb].
  rewrite giveback_step by done.
  destruct (IH (given_back [r] me (delete (r_blk r) (recv_reqs me)))) as (m & -> & -> & Hm); try done.
  - by apply keyed_delete.
  - apply Forall_forall. intros x Hx. simpl. rewrite dom_delete_L. rewrite Forall_forall in Hin. specialize (Hin x Hx).
    assert (r_blk x <> r_blk r); [|set_solver]. intros E. apply Hnr. rewrite <- E. by apply list_elem_of_fmap_2.
  - exists m. rewrite given_back_app. split_and!; [done|done|]. intros b. rewrite Hm. cbn [given_back recv_reqs].
    destruct (decide (b = r_blk r)) as [->|Hne].
    + rewrite lookup_delete_eq, (decide_True (P := r_blk r ∈ r_blk r :: _)) by set_solver. by case_decide.
    + rewrite lookup_delete_ne by done. apply decide_ext. set_solver.
Qed.

(** a choke loses no request: when the peer chokes us every block we were waiting
    for is given back to the caller, each one once, nothing stays pending, and the
    connection is marked as choked. *)
Theorem pwp_choke_gives_back (me : pwp_conn_private_t) :
  keyed (recv_reqs me) -> cb_peer_giveback_block (cb me) = true ->
  exists me' bs, pwp_conn_choke order me = Ok me' /\ bs ≡ₚ elements (dom (recv_reqs me)) /\
    told me' = told me ++ (Peer_giveback_block <$> bs) /\ recv_reqs me' = ∅ /\ pwp_conn_im_choked me' = true.
Proof.
  intros Hk Hcb. unfold pwp_conn_choke, expunge_my_pending_reqs.
  destruct (expunge_loops (order (recv_reqs me)) (raise_flag PC_PEER_CHOKING me)) as (m & E & _ & Hm); try done.
  - apply Forall_forall. intros r Hr. apply order_in; [done|]. by apply list_elem_of_fmap_2.
  - by apply order_nodup.
  - change (recv_reqs (raise_flag PC_PEER_CHOKING me)) with (recv_reqs me). rewrite E.
    eexists _, (r_blk <$> order (recv_reqs me)). split_and!; [done| |done| |].
    + apply NoDup_Permutation; [by apply order_nodup|apply NoDup_elements|]. intros b.
      by rewrite order_in, elem_of_elements.
    + cbn [given_back recv_reqs]. apply map_eq. intros b. rewrite Hm, lookup_empty. cbn [raise_flag set_flags recv_reqs].
      case_decide as Hd; [done|]. rewrite order_in in Hd by done. by apply not_elem_of_dom in Hd.
    + unfold pwp_conn_im_choked, pwp_conn_flag_is_set. cbn [given_back flags raise_flag set_flags].
      apply negb_true_iff, Z.eqb_neq. intros E0.
      assert (Z.testbit (Z.land (Z.lor (flags me) PC_PEER_CHOKING) PC_PEER_CHOKING) 8 = false) as Ht by (rewrite E0; apply Z.testbit_0_l).
      rewrite Z.land_spec, Z.lor_spec in Ht. by rewrite orb_true_r in Ht.
Qed.

(** Requests that are older than ten ticks. *)
Definition old (now : Z) (r : request_t) : bool := 10 <? now - r_tick r.

Lemma old_requests_spec now rs :
  Forall (fun r => in_int (now - r_tick r)) rs -> old_requests now rs = Ok (List.filter (old now) rs).
Proof.
  induction 1 as [|r rs Hr Hrs IH]; [done|]. cbn [old_requests List.filter]. rewrite chk_ok by done. cbn [mbind res_bind].
  rewrite IH. done.
Qed.

(** requests that grow old are given back: at a tick exactly the blocks asked for
    more than ten ticks ago go back to the caller, each one once, and the others stay
    pending with their ticks. *)
Theorem pwp_old_requests_expire (me : pwp_conn_private_t) :
  keyed (recv_reqs me) -> cb_peer_giveback_block (cb me) = true ->
  map_Forall (fun _ r => 0 <= r_tick r <= tick me) (recv_reqs me) -> tick me <= int_max ->
  exists me' rem, expunge_my_old_pending_reqs order me = Ok me' /\
    told me' = told me ++ (Peer_giveback_block <$> (r_blk <$> rem)) /\ NoDup rem /\
    (forall r, r ∈ rem <-> recv_reqs me !! r_blk r = Some r /\ 10 < tick me - r_tick r) /\
    (forall b r, recv_reqs me' !! b = Some r <-> recv_reqs me !! b = Some r /\ tick me - r_tick r <= 10).
Proof.
  intros Hk Hcb Ht Hmax. unfold expunge_my_old_pending_reqs.
  assert (forall r, r ∈ order (recv_reqs me) <-> recv_reqs me !! r_blk r = Some r) as Hin.
  { intros r. rewrite Horder, list_elem_of_fmap. split.
    - intros ([b r'] & -> & H). apply elem_of_map_to_list in H. simpl. by destruct (Hk _ _ H) as [-> _].
    - intros H. exists (r_blk r, r). split; [done|]. by apply elem_of_map_to_list. }
  rewrite old_requests_spec.
  2: { apply Forall_forall. intros r Hr. apply Hin in Hr. specialize (Ht _ _ Hr). simpl in Ht.
       unfold in_int, int_min, int_max in *. lia. }
  cbn [mbind res_bind]. set (rem := List.filter (old (tick me)) (order (recv_reqs me))).
  assert (forall r, r ∈ rem <-> recv_reqs me !! r_blk r = Some r /\ 10 < tick me - r_tick r) as Hrem.
  { intros r. unfold rem. rewrite list_elem_of_In, filter_In, <- list_elem_of_In, Hin. unfold old. by rewrite Z.ltb_lt. }
  assert (NoDup (r_blk <$> rem)) as Hnd.
  { pose proof (order_nodup _ Hk) as Hn. unfold rem. clear -Hn. induction (order (recv_reqs me)) as [|r rs IH]; [constructor|].
    rewrite fmap_cons in Hn. apply NoDup_cons in Hn as [Hn1 Hn2]. cbn [List.filter]. destruct (old _ _); [|by apply IH].
    rewrite fmap_cons. apply NoDup_cons. split; [|by apply IH]. rewrite list_elem_of_fmap in Hn1 |- *.
    intros (x & E & Hx). apply Hn1. exists x. split; [done|]. apply list_elem_of_In, filter_In in Hx as [Hx _]. by apply list_elem_of_In. }
  destruct (expunge_loops rem me) as (m & _ & E & Hm); try done.
  { apply Forall_forall. intros r Hr. apply Hrem in Hr as [Hr _]. by eapply elem_of_dom_2. }
  rewrite E. exists (given_back rem me m), rem. split_and!; try done; [by eapply NoDup_fmap_1|].
  intros b r. cbn [given_back recv_reqs]. rewrite Hm. case_decide as Hd.
  - split; [done|]. intros [Hb Hage]. apply list_elem_of_fmap in Hd as (x & -> & Hx). apply Hrem in Hx as [Hx Hx2].
    rewrite Hx in Hb. injection Hb as <-. lia.
  - split; [|by intros [? _]]. intros Hb. split; [done|]. destruct (decide (10 < tick me - r_tick r)); [|lia]. exfalso. apply Hd.
    apply list_elem_of_fmap. exists r. destruct (Hk _ _ Hb) as [<- _]. split; [done|]. by apply Hrem.
Qed.
End connection.

(** ** Concrete connections *)

Definition listed (m : requests) : list request_t := (map_to_list m).*2.

(** Two requests of 32 bytes, made at ticks 1 and 12. *)
Definition waiting : pwp_conn_private_t :=
  let b1 := mk_block 3 0 32 in
  let b2 := mk_block 3 32 32 in
  set_tick 13 (set_recv_reqs (<[b1 := mk_request 1 b1]> (<[b2 := mk_request 12 b2]> ∅))
    (pwp_conn_set_cbs (mk_cbs true true true true true true true true) pwp_conn_new)).

Lemma waiting_keyed : keyed (recv_reqs waiting).
Proof. apply keyed_put; [apply keyed_put; [apply map_Forall_empty|]|]; unfold small, int_max; simpl; lia. Qed.

(** Bytes 24 to 39 arrive. *)
Lemma pwp_cut_settles_bytes_witness :
  let blk := mk_block 3 24 16 in
  exists m, cut_pending listed waiting blk = Ok (set_recv_reqs m waiting) /\ keyed m /\
    forall p k, pending m p k <-> pending (recv_reqs waiting) p k /\ ~ in_block blk p k.
Proof.
  apply (pwp_cut_settles_bytes listed); [done|apply waiting_keyed| |vm_compute; done].
  unfold small, int_max. simpl. lia.
Defined.

Lemma pwp_choke_gives_back_witness :
  exists me' bs, pwp_conn_choke listed waiting = Ok me' /\ bs ≡ₚ elements (dom (recv_reqs waiting)) /\
    told me' = told waiting ++ (Peer_giveback_block <$> bs) /\ recv_reqs me' = ∅ /\ pwp_conn_im_choked me' = true.
Proof. apply (pwp_choke_gives_back listed); [done|apply waiting_keyed|reflexivity]. Defined.

Lemma pwp_old_requests_expire_witness :
  exists me' rem, expunge_my_old_pending_reqs listed waiting = Ok me' /\
    told me' = told waiting ++ (Peer_giveback_block <$> (r_blk <$> rem)) /\ NoDup rem /\
    (forall r, r ∈ rem <-> recv_reqs waiting !! r_blk r = Some r /\ 10 < tick waiting - r_tick r) /\
    (forall b r, recv_reqs me' !! b = Some r <-> recv_reqs waiting !! b = Some r /\ tick waiting - r_tick r <= 10).
Proof.
  apply (pwp_old_requests_expire listed); [done|apply waiting_keyed|reflexivity| |unfold int_max; simpl; lia].
  apply map_Forall_insert_2; [simpl; lia|]. apply map_Forall_insert_2; [simpl; lia|apply map_Forall_empty].
Defined.
End PwpPending.
