(* ===== verification/PwpState.v ===== *)
(** * The state of a connection

    Which requests of the peer are queued and served, and what the tick does to the
    choke flags (src/PUTs/01pwp/pwp_connection.c). *)

From S2P Require Import Prelude Chunkybar Meanqueue PwpStream PwpHandler PwpConn.

Module PwpState.
Import PwpConn.

(** ** Flags *)

Lemma flag_bit me j : 0 <= j -> pwp_conn_flag_is_set me (2 ^ j) = Z.testbit (flags me) j.
Proof.
  intros Hj. unfold pwp_conn_flag_is_set. destruct (Z.testbit (flags me) j) eqn:E.
  - apply negb_true_iff, Z.eqb_neq. intros E0.
    assert (Z.testbit (Z.land (flags me) (2 ^ j)) j = false) as Ht by (rewrite E0; apply Z.testbit_0_l).
    by rewrite Z.land_spec, E, Z.pow2_bits_true in Ht.
  - apply negb_false_iff, Z.eqb_eq, Z.bits_inj'. intros k Hk. rewrite Z.land_spec, Z.testbit_0_l.
    destruct (decide (k = j)) as [->|Hne]; [by rewrite E|]. rewrite Z.pow2_bits_false by done. apply andb_false_r.
Qed.

Lemma raise_bit me j k :
  0 <= j -> 0 <= k ->
  pwp_conn_flag_is_set (raise_flag (2 ^ j) me) (2 ^ k) = bool_decide (j = k) || pwp_conn_flag_is_set me (2 ^ k).
Proof.
  intros Hj Hk. rewrite !flag_bit by done. simpl. rewrite Z.lor_spec, orb_comm. f_equal.
  case_bool_decide; subst; [by apply Z.pow2_bits_true|by apply Z.pow2_bits_false].
Qed.

Lemma lower_bit me j k :
  0 <= j < 32 -> 0 <= k < 32 ->
  pwp_conn_flag_is_set (lower_flag (2 ^ j) me) (2 ^ k) = negb (bool_decide (j = k)) && pwp_conn_flag_is_set me (2 ^ k).
Proof.
  intros Hj Hk. rewrite !flag_bit by lia. simpl. rewrite Z.land_spec, andb_comm. f_equal.
  unfold wrap_u32. rewrite Z.mod_pow2_bits_low, Z.lnot_spec by lia.
  case_bool_decide; subst; [by rewrite Z.pow2_bits_true by lia|by rewrite Z.pow2_bits_false by lia].
Qed.

(** ** What the other operations leave alone *)

Definition view (me : pwp_conn_private_t) :=
  (pwp_conn_im_choking me, pwp_conn_im_choked me, pwp_conn_peer_is_interested me,
   pwp_conn_flag_is_set me PC_UNCONTACTABLE_PEER, peer_reqs me, pieces_completed me, piece_len me, num_pieces me).

(** A flag that is not part of the view. *)
Lemma raise_view me j : 0 <= j -> j ∉ [5; 6; 8; 9] -> view (raise_flag (2 ^ j) me) = view me.
Proof.
  intros Hj Hn. rewrite !elem_of_cons in Hn.
  assert (forall k, 0 <= k -> j <> k -> pwp_conn_flag_is_set (raise_flag (2 ^ j) me) (2 ^ k) = pwp_conn_flag_is_set me (2 ^ k)) as Hk.
  { intros k Hk Hne. rewrite raise_bit by done. by rewrite bool_decide_eq_false_2. }
  unfold view, pwp_conn_im_choking, pwp_conn_im_choked, pwp_conn_peer_is_interested.
  change PC_IM_CHOKING with (2 ^ 6). change PC_PEER_CHOKING with (2 ^ 8). change PC_PEER_INTERESTED with (2 ^ 9).
  change PC_UNCONTACTABLE_PEER with (2 ^ 5). by rewrite (Hk 6), (Hk 8), (Hk 9), (Hk 5) by (lia || tauto).
Qed.

(** Takes a computation of the connection apart. *)
Ltac take_apart := repeat match goal with
  | H : (_ ≫= _) = Ok _ |- _ => apply res_bind_inv in H as (? & ? & ?)
  | H : Ok _ = Ok _ |- _ => injection H; clear H; intros; subst
  | H : Undef = Ok _ |- _ => discriminate H
  | H : Exit _ = Ok _ |- _ => discriminate H
  | x : (_ * _)%type |- _ => destruct x
  | H : (if ?b then _ else _) = Ok _ |- _ => destruct b eqn:?
  | H : (match ?o with _ => _ end) = Ok _ |- _ => destruct o eqn:?
  | H : (_, _) = (_, _) |- _ => injection H; clear H; intros; subst
  end.

Lemma disconnect_view r me : view (disconnect r me) = view me.
Proof. unfold disconnect. by case_if. Qed.

Lemma giveback_view b me : view (giveback b me) = view me.
Proof. unfold giveback. by case_if. Qed.

Section connection.
Context (send_result : list event -> Z) (block_bytes : bt_block_t -> list Z) (poll_offers : list event -> list bt_block_t).
Context (order : requests -> list request_t) (address : bt_block_t -> Z).

Lemma send_to_peer_view me d l me' r : send_to_peer send_result me d l = Ok (me', r) -> view me' = view me.
Proof. unfold send_to_peer. intros H. take_apart; rewrite ?disconnect_view; done. Qed.

Lemma statechange_view me t me' r : pwp_conn_send_statechange send_result me t = Ok (me', r) -> view me' = view me.
Proof. unfold pwp_conn_send_statechange. intros H. take_apart; by eapply send_to_peer_view. Qed.

Lemma send_piece_view me b me' : pwp_conn_send_piece send_result block_bytes me b = Ok me' -> view me' = view me.
Proof. unfold pwp_conn_send_piece. intros H. take_apart; by eapply send_to_peer_view. Qed.

Lemma send_have_view me p me' r : pwp_conn_send_have send_result me p = Ok (me', r) -> view me' = view me.
Proof. unfold pwp_conn_send_have. intros H. take_apart; by eapply send_to_peer_view. Qed.

Lemma send_block_view t me b me' : send_block send_result t me b = Ok me' -> view me' = view me.
Proof. unfold send_block. intros H. take_apart; by eapply send_to_peer_view. Qed.

Lemma interested_view me me' : pwp_conn_set_im_interested send_result me = Ok me' -> view me' = view me.
Proof.
  unfold pwp_conn_set_im_interested. intros H. apply res_bind_inv in H as ([me1 r] & H & E). injection E as <-.
  rewrite <- (statechange_view _ _ _ _ H). destruct (r =? 0); [done|].
  apply (raise_view me1 7); [done|]. by apply (bool_decide_unpack _).
Qed.

Lemma expunge_view rem me me' : expunge_loop rem me = Ok me' -> view me' = view me.
Proof.
  revert me. induction rem as [|r rem IH]; intros me H; simpl in H; take_apart; [done|].
  rewrite (IH _ H). by rewrite giveback_view.
Qed.

Lemma expunge_old_view rem me me' : expunge_old_loop rem me = Ok me' -> view me' = view me.
Proof.
  revert me. induction rem as [|r rem IH]; intros me H; simpl in H; take_apart; [done|].
  rewrite (IH _ H). by rewrite giveback_view.
Qed.

Lemma request_block_view me b me' : pwp_conn_request_block_from_peer send_result me b = Ok me' -> view me' = view me.
Proof.
  unfold pwp_conn_request_block_from_peer. intros H. apply res_bind_inv in H as (me1 & H1 & H).
  apply res_bind_inv in H as (m & _ & H). injection H as <-. unfold pwp_conn_send_request in H1.
  apply send_block_view in H1. by rewrite <- H1.
Qed.

Lemma offer_blocks_view bs me me' : offer_blocks bs me = Ok me' -> view me' = view me.
Proof.
  revert me. induction bs as [|b bs IH]; intros me H; simpl in H; [by take_apart|].
  apply res_bind_inv in H as (me1 & H1 & H). rewrite (IH _ H). unfold pwp_conn_offer_block in H1. by take_apart.
Qed.

Lemma poll_view n me me' : poll_loop poll_offers n me = Ok me' -> view me' = view me.
Proof.
  revert me. induction n as [|n IH]; intros me H; simpl in H; [by take_apart|]. destruct (negb _); [done|].
  apply res_bind_inv in H as (me1 & H1 & H). by rewrite (IH _ H), (offer_blocks_view _ _ _ H1).
Qed.

Lemma process_requests_view me me' : process_requests send_result me = Ok me' -> view me' = view me.
Proof.
  unfold process_requests. intros H. destruct (negb _); [done|]. destruct (reqs me) as [|b rest]; [done|].
  by rewrite (request_block_view _ _ _ H).
Qed.

Lemma measure_view me me' : measure_rates me = Ok me' -> view me' = view me.
Proof. unfold measure_rates. intros H. by take_apart. Qed.

Lemma mark_view me p : view (pwp_conn_mark_peer_has_piece me p).1 = view me.
Proof. unfold pwp_conn_mark_peer_has_piece. repeat case_if; cbn [fst]; by rewrite ?disconnect_view. Qed.

Lemma have_view me p me' : pwp_conn_have send_result me p = Ok me' -> view me' = view me.
Proof.
  unfold pwp_conn_have. intros H. pose proof (mark_view me (wrap_int p)) as Hm.
  destruct (pwp_conn_mark_peer_has_piece me (wrap_int p)) as [me1 r]. cbn [fst] in Hm. rewrite <- Hm.
  apply res_bind_inv in H as (h & _ & H). destruct (h =? 0); [by eapply interested_view|by injection H as <-].
Qed.

Lemma bitfield_loop_view n ii bf me me' : bitfield_loop n ii bf me = Ok me' -> view me' = view me.
Proof.
  revert ii me. induction n as [|n IH]; intros ii me H; simpl in H; [by take_apart|].
  apply res_bind_inv in H as (h & _ & H). rewrite (IH _ _ H). case_if; [done|]. apply mark_view.
Qed.

Lemma bitfield_view me bf me' : pwp_conn_bitfield me bf = Ok me' -> view me' = view me.
Proof.
  unfold pwp_conn_bitfield. intros H. rewrite (bitfield_loop_view _ _ _ _ _ H).
  set (me1 := if pwp_conn_flag_is_set me _ then _ else me). assert (view me1 = view me) as <-.
  { unfold me1. case_if; [apply disconnect_view|done]. }
  apply (raise_view me1 3); [done|]. by apply (bool_decide_unpack _).
Qed.

Lemma remove_pending_view me b me' : conn_remove_pending_request order address me b = Ok me' -> view me' = view me.
Proof. unfold conn_remove_pending_request. intros H. by take_apart. Qed.

Lemma piece_view me b data me' r : pwp_conn_piece order address me b data = Ok (me', r) -> view me' = view me.
Proof.
  unfold pwp_conn_piece. intros H. destruct (negb _); [done|]. apply res_bind_inv in H as (me1 & H1 & H).
  injection H as <- _. by rewrite <- (remove_pending_view _ _ _ H1).
Qed.

(** ** The tick *)

(** The tick gives old requests back, serves the oldest request of the peer, clears
    the flag of the peer's choke where the peer is interested and we choke it, and
    leaves the rest of the view alone. *)
Lemma periodic_view me me' :
  pwp_conn_periodic send_result block_bytes poll_offers order me = Ok me' ->
  pwp_conn_im_choking me' = pwp_conn_im_choking me /\ pieces_completed me' = pieces_completed me /\
  piece_len me' = piece_len me /\ num_pieces me' = num_pieces me /\
  (peer_reqs me' = peer_reqs me \/ peer_reqs me' = tail (peer_reqs me)) /\
  (pwp_conn_flag_is_set me PC_UNCONTACTABLE_PEER = false -> pwp_conn_peer_is_interested me = true ->
   pwp_conn_im_choking me = true -> pwp_conn_im_choked me' = false).
Proof.
  unfold pwp_conn_periodic. intros H. apply res_bind_inv in H as (t & _ & H). apply res_bind_inv in H as (me1 & H1 & H).
  unfold expunge_my_old_pending_reqs in H1. apply res_bind_inv in H1 as (rem & _ & H1).
  apply expunge_old_view in H1. change (view (set_tick t me)) with (view me) in H1. unfold view in H1.
  injection H1 as Ec Ed Ei Eu Ep Ec2 El En. rewrite <- Ec, <- Ep, <- Ec2, <- El, <- En, <- Eu, <- Ei.
  destruct (pwp_conn_flag_is_set me1 _) eqn:Hu; [injection H as <-; split_and!; auto; done|].
  apply res_bind_inv in H as (me2 & H2 & H).
  assert (pwp_conn_im_choking me2 = pwp_conn_im_choking me1 /\ pwp_conn_peer_is_interested me2 = pwp_conn_peer_is_interested me1 /\
    peer_reqs me2 = tail (peer_reqs me1) /\ pieces_completed me2 = pieces_completed me1 /\ piece_len me2 = piece_len me1 /\
    num_pieces me2 = num_pieces me1) as (Fc & Fi & Fp & Fc2 & Fl & Fn).
  { destruct (peer_reqs me1) as [|b rest] eqn:Eq; [injection H2 as <-; by rewrite Eq|].
    apply send_piece_view in H2. unfold view in H2. injection H2 as E1 _ E3 _ E5 E6 E7 E8. by split_and!. }
  set (me3 := if pwp_conn_peer_is_interested me2 && pwp_conn_im_choking me2 then pwp_conn_unchoke me2 else me2) in *.
  assert (view me' = view me3) as Hv.
  { destruct (pwp_conn_im_interested me3); [destruct (pwp_conn_im_choked me3)|].
    - by injection H as <-.
    - apply res_bind_inv in H as (me4 & H4 & H). apply res_bind_inv in H as (me5 & H5 & H).
      rewrite (measure_view _ _ H), <- (poll_view _ _ _ H4).
      destruct (reqs me4); [by injection H5 as <-|]. by eapply process_requests_view.
    - apply res_bind_inv in H as (me4 & H4 & H). by rewrite (measure_view _ _ H), (interested_view _ _ H4). }
  unfold view in Hv. injection Hv as -> -> _ _ -> -> -> ->. unfold me3.
  destruct (pwp_conn_peer_is_interested me2 && pwp_conn_im_choking me2) eqn:Eb.
  - assert (pwp_conn_im_choking (pwp_conn_unchoke me2) = pwp_conn_im_choking me2) as -> by (by apply (lower_bit me2 8 6)).
    split_and!; try done; [right; done|]. intros. by apply (lower_bit me2 8 8).
  - split_and!; try done; [right; done|]. rewrite Fi, Fc in Eb. intros _ E1 E2. by rewrite E1, E2 in Eb.
Qed.

(** the tick does not unchoke an interested peer.  Where the peer is interested
    and we choke it, the tick clears the flag of the peer's choke of us in place of
    our own: the peer stays choked, nothing is sent to tell it otherwise by this step,
    and the connection takes itself to be unchoked although the peer never said so. *)
Theorem pwp_tick_unchokes_wrong_side (me me' : pwp_conn_private_t) :
  pwp_conn_periodic send_result block_bytes poll_offers order me = Ok me' ->
  pwp_conn_flag_is_set me PC_UNCONTACTABLE_PEER = false -> pwp_conn_peer_is_interested me = true ->
  pwp_conn_im_choking me = true -> pwp_conn_im_choking me' = true /\ pwp_conn_im_choked me' = false.
Proof. intros H Hu Hi Hc. destruct (periodic_view me me' H) as (-> & _ & _ & _ & _ & Hch). auto. Qed.

(** ** Requests of the peer *)

(** A request we may serve. *)
Definition servable (me : pwp_conn_private_t) (r : bt_block_t) : Prop :=
  (exists c, pieces_completed me = Some c /\ Chunkybar.chunky_have c (piece_idx r) 1 <> 0) /\
  0 <= offset r /\ 0 < len r /\ offset r + len r <= piece_len me.

Record queue_ok (me : pwp_conn_private_t) : Prop := {
  queue_choke : pwp_conn_im_choking me = true -> peer_reqs me = [];
  queue_nodup : NoDup (peer_reqs me);
  queue_servable : Forall (servable me) (peer_reqs me);
  queue_piece_len : 0 <= piece_len me <= int_max
}.

(** The queue may only shrink while the rest of the view stays. *)
Lemma queue_shrink me me' :
  queue_ok me -> (pwp_conn_im_choking me' = true -> pwp_conn_im_choking me = true) ->
  pieces_completed me' = pieces_completed me -> piece_len me' = piece_len me ->
  sublist (peer_reqs me') (peer_reqs me) -> queue_ok me'.
Proof.
  intros [H1 H2 H3 H4] Hc Hp Hl Hs. split; [..|by rewrite Hl].
  - intros Hc'. rewrite H1 in Hs by auto. by apply sublist_nil_r in Hs.
  - by eapply sublist_NoDup.
  - apply Forall_forall. intros x Hx. rewrite Forall_forall in H3.
    specialize (H3 x (elem_of_sublist _ _ _ Hx Hs)). unfold servable in *. by rewrite Hp, Hl.
Qed.

Lemma queue_view me me' : view me' = view me -> queue_ok me -> queue_ok me'.
Proof.
  unfold view. intros [= E1 E2 E3 E4 E5 E6 E7 E8] Hq. apply (queue_shrink me me' Hq); try congruence. by rewrite E5.
Qed.

(** The two bounds of a request are numbers of a message whose sum is one too. *)
Definition no_wrap (r : bt_block_t) : Prop := 0 <= offset r /\ 0 <= len r /\ offset r + len r < 2 ^ 32.

Lemma request_ok me r me' z : no_wrap r -> pwp_conn_request me r = Ok (me', z) -> queue_ok me -> queue_ok me'.
Proof.
  intros (Ho & Hl & Hw) H Hq. unfold pwp_conn_request in H. destruct (pwp_conn_im_choking me) eqn:Hc.
  { injection H as <- _. eapply queue_view; [apply disconnect_view|done]. }
  destruct (_ <? piece_idx r); [injection H as <- _; eapply queue_view; [apply disconnect_view|done]|].
  apply res_bind_inv in H as (h & Hh & H). unfold have_completed in Hh.
  destruct (pieces_completed me) as [c|] eqn:Ec; [|done]. injection Hh as <-.
  destruct (Z.eqb_spec (Chunkybar.chunky_have c (piece_idx r) 1) 0) as [E0|E0];
    [injection H as <- _; eapply queue_view; [apply disconnect_view|done]|].
  destruct (negb _); [injection H as <- _; eapply queue_view; [apply disconnect_view|done]|].
  destruct ((len r =? 0) || _) eqn:El; [injection H as <- _; eapply queue_view; [apply disconnect_view|done]|].
  apply orb_false_iff in El as [El1 El2]. apply Z.eqb_neq in El1. apply Z.ltb_ge in El2.
  destruct Hq as [H1 H2 H3 H4]. unfold int_max in H4. rewrite !wrap_u32_id in El2 by lia.
  injection H as <- _. case_decide as Hd; [done|]. split; cbn [set_peer_reqs peer_reqs]; [..|done].
  - intros Hc'. change (pwp_conn_im_choking me = true) in Hc'. congruence.
  - apply NoDup_app. split_and!; [done| |apply NoDup_singleton]. intros x Hx ->%list_elem_of_singleton. done.
  - apply Forall_app. split; [done|]. constructor; [|constructor]. split_and!; [by exists c|done|lia|done].
Qed.

Lemma remove_first_sublist b q : sublist (remove_first b q) q.
Proof. induction q as [|x q IH]; simpl; [done|]. case_decide; [by constructor|by constructor]. Qed.

(** What may happen to a connection once it is set up. *)
Inductive input : Type :=
  | In_message (c : PwpHandler.conn_call)
  | In_tick
  | In_choke_peer
  | In_unchoke_peer
  | In_interested
  | In_have (piece : Z)
  | In_offer (b : bt_block_t)
  | In_request (b : bt_block_t)
  | In_cancel (b : bt_block_t).

Definition exec (i : input) (me : pwp_conn_private_t) : res pwp_conn_private_t :=
  match i with
  | In_message c => handle send_result order address c me
  | In_tick => pwp_conn_periodic send_result block_bytes poll_offers order me
  | In_choke_peer => pwp_conn_choke_peer send_result me
  | In_unchoke_peer => pwp_conn_unchoke_peer send_result me
  | In_interested => pwp_conn_set_im_interested send_result me
  | In_have p => '(me, _) ← pwp_conn_send_have send_result me p; Ok me
  | In_offer b => pwp_conn_offer_block me b
  | In_request b => pwp_conn_request_block_from_peer send_result me b
  | In_cancel b => pwp_conn_send_cancel send_result me b
  end.

Fixpoint exec_all (ins : list input) (me : pwp_conn_private_t) : res pwp_conn_private_t :=
  match ins with
  | [] => Ok me
  | i :: ins => me ← exec i me; exec_all ins me
  end.

(** A flag other than our choke. *)
Lemma queue_flags me me' :
  queue_ok me -> pwp_conn_im_choking me' = pwp_conn_im_choking me -> pieces_completed me' = pieces_completed me ->
  piece_len me' = piece_len me -> peer_reqs me' = peer_reqs me -> queue_ok me'.
Proof. intros Hq Hc Hp Hl Hr. apply (queue_shrink me); try done; [by rewrite Hc|by rewrite Hr]. Qed.

(** The requests that arrive do not wrap. *)
Definition plain (i : input) : Prop :=
  match i with In_message (PwpHandler.pwp_conn_request r) => no_wrap r | _ => True end.

Lemma handle_ok c me me' :
  plain (In_message c) -> handle send_result order address c me = Ok me' -> queue_ok me -> queue_ok me'.
Proof.
  intros Hpl H Hq. destruct c as [| | | | |p|bf|b|b data|b]; simpl in H.
  - by injection H as <-.
  - apply (queue_view (raise_flag PC_PEER_CHOKING me)); [by apply (expunge_view _ _ _ H)|].
    apply (queue_flags me); try done. by apply (raise_bit me 8 6).
  - injection H as <-. apply (queue_flags me); try done. by apply (lower_bit me 8 6).
  - injection H as <-. apply (queue_flags me); try done. by apply (raise_bit me 9 6).
  - injection H as <-. apply (queue_flags me); try done. by apply (lower_bit me 9 6).
  - eapply queue_view; [by eapply have_view|done].
  - eapply queue_view; [by eapply bitfield_view|done].
  - apply res_bind_inv in H as ([me1 z] & H & E). injection E as <-. by eapply request_ok.
  - apply res_bind_inv in H as ([me1 z] & H & E). injection E as <-. eapply queue_view; [by eapply piece_view|done].
  - injection H as <-. apply (queue_shrink me); try done. apply remove_first_sublist.
Qed.

Lemma exec_ok i me me' : plain i -> exec i me = Ok me' -> queue_ok me -> queue_ok me'.
Proof.
  intros Hpl H Hq. destruct i as [c| | | | |p|b|b|b]; simpl in H.
  - by eapply handle_ok.
  - destruct (periodic_view me me' H) as (E1 & E2 & E3 & _ & E4 & _). apply (queue_shrink me); try done; [by rewrite E1|].
    destruct E4 as [-> | ->]; [done|]. destruct (peer_reqs me); simpl; [done|by constructor].
  - apply res_bind_inv in H as ([me1 z] & H & E). injection E as <-. apply (queue_view _ _ (statechange_view _ _ _ _ H)).
    split; simpl; [done|constructor|constructor|apply Hq].
  - apply res_bind_inv in H as ([me1 z] & H & E). injection E as <-. apply (queue_view _ _ (statechange_view _ _ _ _ H)).
    apply (queue_shrink me); try done. intros Hx.
    change (pwp_conn_flag_is_set (lower_flag (2 ^ 6) me) (2 ^ 6) = true) in Hx. by rewrite lower_bit in Hx by lia.
  - eapply queue_view; [by eapply interested_view|done].
  - apply res_bind_inv in H as ([me1 z] & H & E). injection E as <-. eapply queue_view; [by eapply send_have_view|done].
  - unfold pwp_conn_offer_block in H. destruct (negb _); [done|]. injection H as <-. by apply (queue_view me).
  - eapply queue_view; [by eapply request_block_view|done].
  - unfold pwp_conn_send_cancel in H. eapply queue_view; [by eapply send_block_view|done].
Qed.

(** C15: the queue of the peer's requests is safe.  Let a connection be set up with a
    piece length in the range of [int], and let no request that arrives have an offset and
    a length whose sum passes 32 bits.  Then, whatever else arrives and whatever the caller
    does, as long as every step has a defined result (the arrival of a block has none, see
    C11), no request is queued while we choke the peer, none is queued twice, and each queued
    request is for a piece we have, asks for at least a byte and ends within the piece; so
    every block the tick serves, the head of this queue, is one of those. *)
Theorem pwp_peer_queue_safe (ins : list input) (me me' : pwp_conn_private_t) :
  Forall plain ins -> queue_ok me -> exec_all ins me = Ok me' -> queue_ok me'.
Proof.
  intros Hpl. revert me. induction Hpl as [|i ins Hi Hins IH]; intros me Hq H; simpl in H; [by injection H as <-|].
  apply res_bind_inv in H as (me1 & H1 & H). eapply IH; [|done]. by eapply exec_ok.
Qed.
End connection.

(** A connection that has pieces 0 to 3 of 16 bytes. *)
Definition seeder : pwp_conn_private_t :=
  pwp_conn_set_progress (Chunkybar.chunky_mark_complete (Chunkybar.chunky_new 8) 0 4)
    (pwp_conn_set_piece_info 8 16 (pwp_conn_set_cbs (mk_cbs true true true true true true true true) pwp_conn_new)).

(** The peer is unchoked and asks for two blocks, one of them twice, and for a block
    that is too long; one block is served. *)
Lemma pwp_peer_queue_safe_witness :
  let run := exec_all (fun _ => 1) (fun b => replicate (Z.to_nat (len b)) 7) (fun _ => []) (fun m => (map_to_list m).*2) (fun _ => 2 ^ 40) in
  let ins := [In_unchoke_peer; In_message (PwpHandler.pwp_conn_request (mk_block 1 0 8));
    In_message (PwpHandler.pwp_conn_request (mk_block 2 8 8)); In_message (PwpHandler.pwp_conn_request (mk_block 2 8 8));
    In_message (PwpHandler.pwp_conn_request (mk_block 2 8 9)); In_tick] in
  exists me', run ins seeder = Ok me' /\ queue_ok me' /\ peer_reqs me' = [mk_block 2 8 8].
Proof.
  intros run ins. destruct (run ins seeder) as [me'| | |] eqn:E; [|vm_compute in E; discriminate E..].
  exists me'. split; [done|]. split; [|vm_compute in E; by injection E as <-].
  refine (pwp_peer_queue_safe _ _ _ _ _ ins seeder me' _ _ E).
  - unfold ins. repeat constructor; simpl; lia.
  - split; simpl; [done|constructor|constructor|unfold int_max; lia].
Defined.

(** A request whose bounds wrap passes the check of the length: the last byte of 32 bits and
    one more are taken to be the first byte of the piece. *)
Theorem pwp_wrapped_request_queued :
  let me := lower_flag PC_IM_CHOKING seeder in
  pwp_conn_request me (mk_block 1 (2 ^ 32 - 1) 2) = Ok (set_peer_reqs [mk_block 1 (2 ^ 32 - 1) 2] me, 1) /\
  piece_len me < 2 ^ 32 - 1.
Proof. split; [vm_compute; reflexivity|done]. Qed.

(** A peer that says it is interested, and a tick. *)
Lemma pwp_tick_unchokes_wrong_side_witness :
  exists me', pwp_conn_periodic (fun _ => 1) (fun _ => []) (fun _ => []) (fun m => (map_to_list m).*2) (pwp_conn_interested seeder) = Ok me' /\
    pwp_conn_im_choking me' = true /\ pwp_conn_im_choked me' = false.
Proof.
  destruct (pwp_conn_periodic (fun _ => 1) (fun _ => []) (fun _ => []) (fun m => (map_to_list m).*2) (pwp_conn_interested seeder))
    as [me'| | |] eqn:E; [|vm_compute in E; discriminate E..].
  exists me'. split; [done|]. by apply (pwp_tick_unchokes_wrong_side _ _ _ _ _ _ E).
Defined.
End PwpState.
