(* ===== verification/PwpHandshake.v ===== *)
(** * The handshake of two peers (src/PUTs/01pwp/pwp_handshaker.c)

    The handshaker reads the name of the protocol, eight reserved bytes, the hash of
    the metainfo file and the name of the peer, a byte at a time; [stage] is the block
    [curr_value] points to, and each block holds the bytes written so far, so that the
    position of [cur] is its length.  A write past the end of a block is undefined, and
    so is the error message that prints a hash without a zero byte as a string. *)

From S2P Require Import Prelude PwpStream.

Module PwpHandshake.
Import PwpStream.

(** "BitTorrent protocol" *)
Definition PROTOCOL_NAME : list Z := [66; 105; 116; 84; 111; 114; 114; 101; 110; 116; 32; 112; 114; 111; 116; 111; 99; 111; 108].

Inductive stage : Type := no_value | at_pn | at_reserved | at_infohash | at_peerid.

Record pwp_handshake_t := mk_handshake { pn_len : Z; pn : list Z; reserved : list Z; infohash : list Z; peerid : list Z }.

Record pwp_handshaker_t := mk_handshaker {
  hs : pwp_handshake_t;
  bytes_read : Z;
  curr_value : stage;
  expected_ih : list Z;
  my_pi : list Z
}.

Definition pwp_handshaker_new (expected_info_hash mypeerid : list Z) : pwp_handshaker_t :=
  mk_handshaker (mk_handshake 0 [] [] [] []) 0 no_value expected_info_hash mypeerid.

Definition pwp_handshaker_get_handshake (me : pwp_handshaker_t) : pwp_handshake_t := hs me.

(** The bytes handed to the callback; the hash and the name of the peer end at their
    first zero byte. *)
Definition pwp_send_handshake (expected_ih my_pi : list Z) : res (list Z) :=
  let ptr := fresh 1024 in
  ptr ← bitstream_write_ubyte ptr (Z.of_nat (List.length PROTOCOL_NAME));
  ptr ← bitstream_write_string ptr PROTOCOL_NAME (Z.of_nat (List.length PROTOCOL_NAME));
  ptr ← put_bytes ptr (replicate 8 0);
  ptr ← bitstream_write_string ptr expected_ih 20;
  ptr ← bitstream_write_string ptr my_pi 20;
  sent_bytes ptr (1 + Z.of_nat (List.length PROTOCOL_NAME) + 8 + 20 + 20).

(** [0 == strncmp(a, b, n)], over blocks of memory. *)
Fixpoint strncmp_equal (a b : list Z) (n : nat) : res bool :=
  match n with
  | O => Ok true
  | S n =>
      match a, b with
      | x :: a, y :: b => if negb (x =? y) then Ok false else if x =? 0 then Ok true else strncmp_equal a b n
      | _, _ => Undef
      end
  end.

(** A write at the end of what was written, in a block of [size] bytes. *)
Definition put (size : Z) (l : list Z) (b : Z) : res (list Z) :=
  if Z.of_nat (List.length l) <? size then Ok (l ++ [b]) else Undef.

(** A block printed as a string. *)
Definition print (l : list Z) : res unit := if existsb (Z.eqb 0) l then Ok tt else Undef.

(** One round of the loop: the result of the function where it returns. *)
Definition read_one (me : pwp_handshaker_t) (val : Z) : res (pwp_handshaker_t * option Z) :=
  let h := hs me in
  let rd := wrap_u32 (bytes_read me + 1) in
  let on s h := mk_handshaker h rd s (expected_ih me) (my_pi me) in
  match curr_value me with
  | no_value =>
      let h := mk_handshake val (pn h) (reserved h) (infohash h) (peerid h) in
      if val =? 0 then Ok (on no_value h, Some (-1))
      else Ok (on at_pn (mk_handshake val [] (reserved h) (infohash h) (peerid h)), None)
  | at_pn =>
      l ← put (pn_len h) (pn h) val;
      let h := mk_handshake (pn_len h) l (reserved h) (infohash h) (peerid h) in
      if Z.of_nat (List.length l) =? pn_len h then
        eq ← strncmp_equal l PROTOCOL_NAME (Z.to_nat (Z.min (pn_len h) (Z.of_nat (List.length PROTOCOL_NAME))));
        if negb eq then Ok (on at_pn h, Some (-1))
        else Ok (on at_reserved (mk_handshake (pn_len h) l [] (infohash h) (peerid h)), None)
      else Ok (on at_pn h, None)
  | at_reserved =>
      l ← put 8 (reserved h) val;
      let h := mk_handshake (pn_len h) (pn h) l (infohash h) (peerid h) in
      if Z.of_nat (List.length l) =? 8 then Ok (on at_infohash (mk_handshake (pn_len h) (pn h) l [] (peerid h)), None)
      else Ok (on at_reserved h, None)
  | at_infohash =>
      l ← put 20 (infohash h) val;
      let h := mk_handshake (pn_len h) (pn h) (reserved h) l (peerid h) in
      if Z.of_nat (List.length l) =? 20 then
        eq ← strncmp_equal l (expected_ih me) 20;
        if negb eq then
          _ ← print l;
          _ ← print (expected_ih me);
          Ok (on at_infohash h, Some (-1))
        else Ok (on at_peerid (mk_handshake (pn_len h) (pn h) (reserved h) l []), None)
      else Ok (on at_infohash h, None)
  (* the comparison with [my_pi] is compiled out *)
  | at_peerid =>
      l ← put 20 (peerid h) val;
      let h := mk_handshake (pn_len h) (pn h) (reserved h) (infohash h) l in
      Ok (on at_peerid h, if Z.of_nat (List.length l) =? 20 then Some 1 else None)
  end.

(** The handshaker, the bytes that are left and the result. *)
Fixpoint pwp_handshaker_dispatch_from_buffer (me : pwp_handshaker_t) (buf : list Z) : res (pwp_handshaker_t * list Z * Z) :=
  match buf with
  | [] => Ok (me, [], 0)
  | b :: buf =>
      '(me, r) ← read_one me b;
      match r with
      | Some r => Ok (me, buf, r)
      | None => pwp_handshaker_dispatch_from_buffer me buf
      end
  end.

(** The buffers of a connection, until the handshake is over. *)
Fixpoint shake (me : pwp_handshaker_t) (chunks : list (list Z)) : res (pwp_handshaker_t * list Z * Z) :=
  match chunks with
  | [] => Ok (me, [], 0)
  | c :: chunks =>
      '(me, rest, r) ← pwp_handshaker_dispatch_from_buffer me c;
      if r =? 0 then shake me chunks else Ok (me, rest ++ concat chunks, r)
  end.

(** ** Buffers *)

Notation dispatch := pwp_handshaker_dispatch_from_buffer.

(** A round never returns 0. *)
Lemma read_one_nonzero me b me' r : read_one me b = Ok (me', Some r) -> r <> 0.
Proof.
  unfold read_one. destruct (curr_value me); intros H ->.
  all: repeat match goal with
    | H : (_ ≫= _) = Ok _ |- _ => apply res_bind_inv in H as (? & ? & ?)
    | H : (if ?x then _ else _) = Ok _ |- _ => destruct x
    | H : Ok (_, Some _) = Ok _ |- _ => discriminate H
    | H : Ok (_, None) = Ok _ |- _ => discriminate H
    | H : Ok (_, if ?x then _ else _) = Ok _ |- _ => destruct x
    end.
Qed.

Lemma handshake_app me c1 c2 :
  dispatch me (c1 ++ c2) =
    '(me, rest, r) ← dispatch me c1; if r =? 0 then dispatch me c2 else Ok (me, rest ++ c2, r).
Proof.
  revert me. induction c1 as [|b c1 IH]; intros me; simpl; [by destruct (dispatch me c2) as [[[? ?] ?]| | |]|].
  destruct (read_one me b) as [[me1 [r|]]| | |] eqn:E; simpl; try done.
  by rewrite (proj2 (Z.eqb_neq _ _)) by (by eapply read_one_nonzero).
Qed.

(** The buffers are one long buffer. *)
Lemma shake_concat me cs : shake me cs = dispatch me (concat cs).
Proof.
  revert me. induction cs as [|c cs IH]; intros me; simpl; [done|]. rewrite handshake_app.
  destruct (dispatch me c) as [[[me1 rest] r]| | |]; simpl; try done. destruct (r =? 0); [apply IH|done].
Qed.

(** ** The parts of a handshake *)

(** [bytes_read] after some bytes. *)
Definition adv (rd : Z) (bs : list Z) : Z := fold_left (fun r _ => wrap_u32 (r + 1)) bs rd.

Lemma block_room n l b : Z.of_nat (List.length l) < n -> put n l b = Ok (l ++ [b]).
Proof. intros H. unfold put. by rewrite (proj2 (Z.ltb_lt _ _)). Qed.

Lemma length_snoc (l : list Z) b : Z.of_nat (List.length (l ++ [b])) = Z.of_nat (List.length l) + 1.
Proof. rewrite length_app. simpl. lia. Qed.

(** The next byte goes into its block. *)
Ltac put_one :=
  cbn [app pwp_handshaker_dispatch_from_buffer]; unfold read_one;
  cbn [hs bytes_read curr_value expected_ih my_pi pn_len pn reserved infohash peerid];
  rewrite block_room by lia; cbn [mbind res_bind]; rewrite length_snoc.

(** The block is not full after a byte: the rest is read by the induction hypothesis. *)
Ltac not_last IH Hn :=
  rewrite (proj2 (Z.eqb_neq _ _)) by (simpl in Hn; lia); cbn [mbind res_bind]; rewrite IH;
  [by rewrite <- (assoc_L (++))|done|rewrite !length_app; simpl in Hn |- *; lia].

Section parts.
Context (ih own : list Z).

Lemma read_name n pre bs r i p rd rest :
  bs <> [] -> Z.of_nat (List.length (pre ++ bs)) = n ->
  dispatch (mk_handshaker (mk_handshake n pre r i p) rd at_pn ih own) (bs ++ rest) =
    eq ← strncmp_equal (pre ++ bs) PROTOCOL_NAME (Z.to_nat (Z.min n 19));
    if negb eq then Ok (mk_handshaker (mk_handshake n (pre ++ bs) r i p) (adv rd bs) at_pn ih own, rest, -1)
    else dispatch (mk_handshaker (mk_handshake n (pre ++ bs) [] i p) (adv rd bs) at_reserved ih own) rest.
Proof.
  revert pre rd. induction bs as [|b bs IH]; intros pre rd Hne Hn; [done|]. rewrite length_app in Hn. simpl in Hn.
  put_one.
  destruct bs as [|b' bs].
  - rewrite (proj2 (Z.eqb_eq _ _)) by (simpl in Hn; lia). change (Z.of_nat (List.length PROTOCOL_NAME)) with 19.
    destruct (strncmp_equal _ _ _) as [[]| | |]; done.
  - not_last IH Hn.
Qed.

Lemma read_reserved n nm pre bs i p rd rest :
  bs <> [] -> Z.of_nat (List.length (pre ++ bs)) = 8 ->
  dispatch (mk_handshaker (mk_handshake n nm pre i p) rd at_reserved ih own) (bs ++ rest) =
    dispatch (mk_handshaker (mk_handshake n nm (pre ++ bs) [] p) (adv rd bs) at_infohash ih own) rest.
Proof.
  revert pre rd. induction bs as [|b bs IH]; intros pre rd Hne Hn; [done|]. rewrite length_app in Hn. simpl in Hn.
  put_one. destruct bs as [|b' bs].
  - by rewrite (proj2 (Z.eqb_eq _ _)) by (simpl in Hn; lia).
  - not_last IH Hn.
Qed.

Lemma read_hash n nm r pre bs p rd rest :
  bs <> [] -> Z.of_nat (List.length (pre ++ bs)) = 20 ->
  dispatch (mk_handshaker (mk_handshake n nm r pre p) rd at_infohash ih own) (bs ++ rest) =
    eq ← strncmp_equal (pre ++ bs) ih 20;
    if negb eq then
      _ ← print (pre ++ bs);
      _ ← print ih;
      Ok (mk_handshaker (mk_handshake n nm r (pre ++ bs) p) (adv rd bs) at_infohash ih own, rest, -1)
    else dispatch (mk_handshaker (mk_handshake n nm r (pre ++ bs) []) (adv rd bs) at_peerid ih own) rest.
Proof.
  revert pre rd. induction bs as [|b bs IH]; intros pre rd Hne Hn; [done|]. rewrite length_app in Hn. simpl in Hn.
  put_one. destruct bs as [|b' bs].
  - rewrite (proj2 (Z.eqb_eq _ _)) by (simpl in Hn; lia).
    destruct (strncmp_equal _ _ _) as [[]| | |]; cbn [mbind res_bind negb]; try done.
    destruct (print (pre ++ [b])); cbn [mbind res_bind]; try done. by destruct (print ih).
  - not_last IH Hn.
Qed.

Lemma read_peerid n nm r h pre bs rd rest :
  bs <> [] -> Z.of_nat (List.length (pre ++ bs)) = 20 ->
  dispatch (mk_handshaker (mk_handshake n nm r h pre) rd at_peerid ih own) (bs ++ rest) =
    Ok (mk_handshaker (mk_handshake n nm r h (pre ++ bs)) (adv rd bs) at_peerid ih own, rest, 1).
Proof.
  revert pre rd. induction bs as [|b bs IH]; intros pre rd Hne Hn; [done|]. rewrite length_app in Hn. simpl in Hn.
  put_one. destruct bs as [|b' bs].
  - by rewrite (proj2 (Z.eqb_eq _ _)) by (simpl in Hn; lia).
  - not_last IH Hn.
Qed.

(** A whole handshake, and what follows it. *)
Definition handshake_bytes (name res8 hash id : list Z) : list Z := Z.of_nat (List.length name) :: name ++ res8 ++ hash ++ id.

Lemma dispatch_handshake name res8 hash id rest :
  name <> [] -> List.length res8 = 8%nat -> List.length hash = 20%nat -> List.length id = 20%nat ->
  exists rd1 rd2 rd3 h1 h2,
  dispatch (pwp_handshaker_new ih own) (handshake_bytes name res8 hash id ++ rest) =
    eq ← strncmp_equal name PROTOCOL_NAME (Nat.min (List.length name) 19);
    if negb eq then Ok (mk_handshaker h1 rd1 at_pn ih own, res8 ++ hash ++ id ++ rest, -1)
    else
      eq ← strncmp_equal hash ih 20;
      if negb eq then
        _ ← print hash;
        _ ← print ih;
        Ok (mk_handshaker h2 rd2 at_infohash ih own, id ++ rest, -1)
      else Ok (mk_handshaker (mk_handshake (Z.of_nat (List.length name)) name res8 hash id) rd3 at_peerid ih own, rest, 1).
Proof.
  intros Hn H8 Hh Hi. unfold handshake_bytes. cbn [app]. rewrite <- !(assoc_L (++)). cbn [pwp_handshaker_dispatch_from_buffer].
  unfold read_one at 1. cbn [pwp_handshaker_new hs curr_value bytes_read expected_ih my_pi pn reserved infohash peerid].
  rewrite (proj2 (Z.eqb_neq _ _)) by (destruct name; [done|simpl; lia]). cbn [mbind res_bind].
  rewrite read_name by (done || lia). cbn [app]. eexists _, _, _, _, _.
  replace (Z.to_nat (Z.min (Z.of_nat (List.length name)) 19)) with (Nat.min (List.length name) 19) by lia.
  destruct (strncmp_equal name _ _) as [[]| | |]; cbn [mbind res_bind negb]; try reflexivity.
  rewrite read_reserved by (simpl; lia || by destruct res8). cbn [app].
  rewrite read_hash by (simpl; lia || by destruct hash). cbn [app].
  destruct (strncmp_equal hash _ _) as [[]| | |]; cbn [mbind res_bind negb]; try reflexivity.
  rewrite read_peerid by (simpl; lia || by destruct id). reflexivity.
Qed.
End parts.

(** whom the handshaker lets in.  A handshake, cut into buffers in any way, is
    accepted exactly when its protocol name agrees with ours as far as the shorter of
    the two reaches and its hash agrees with the expected one up to the first zero byte
    of both; then the name of the peer and the hash are those of the message and the
    bytes after it are left for the message handler. *)
Theorem handshake_accepts_iff (ih own name res8 hash id rest : list Z) (chunks : list (list Z)) :
  name <> [] -> List.length res8 = 8%nat -> List.length hash = 20%nat -> List.length id = 20%nat ->
  concat chunks = handshake_bytes name res8 hash id ++ rest ->
  let accepts := strncmp_equal name PROTOCOL_NAME (Nat.min (List.length name) 19) = Ok true /\ strncmp_equal hash ih 20 = Ok true in
  (accepts -> exists rd, shake (pwp_handshaker_new ih own) chunks =
     Ok (mk_handshaker (mk_handshake (Z.of_nat (List.length name)) name res8 hash id) rd at_peerid ih own, rest, 1)) /\
  (forall me more, shake (pwp_handshaker_new ih own) chunks = Ok (me, more, 1) -> accepts).
Proof.
  intros Hn H8 Hh Hi Hc. rewrite shake_concat, Hc.
  destruct (dispatch_handshake ih own name res8 hash id rest Hn H8 Hh Hi) as (rd1 & rd2 & rd3 & h1 & h2 & ->). split.
  - intros [-> ->]. by exists rd3.
  - intros me more H. destruct (strncmp_equal name _ _) as [[]| | |]; try done. split; [done|].
    destruct (strncmp_equal hash _ _) as [[]| | |]; try done. cbn [mbind res_bind negb] in H.
    destruct (print hash); try done. by destruct (print ih).
Qed.

(** ** Our own handshake *)

Lemma strncpy_length s n : List.length (strncpy_bytes s n) = n.
Proof. revert s. induction n as [|n IH]; intros s; simpl; [done|]. destruct s; [simpl; by rewrite IH|]. case_if; simpl; by rewrite IH. Qed.

(** A copy of [n] bytes agrees with the original as [strncmp] sees it. *)
Lemma strncmp_copy s n : (n <= List.length s)%nat -> strncmp_equal (strncpy_bytes s n) s n = Ok true.
Proof.
  revert s. induction n as [|n IH]; intros s Hl; [done|]. destruct s as [|c s]; [simpl in Hl; lia|]. simpl.
  destruct (Z.eqb_spec c 0) as [->|Hc]; simpl; [done|]. rewrite Z.eqb_refl. simpl. rewrite (proj2 (Z.eqb_neq _ _)) by done.
  apply IH. simpl in Hl. lia.
Qed.

Lemma strncpy_whole s : Forall (fun c => c <> 0) s -> strncpy_bytes s (List.length s) = s.
Proof. induction 1 as [|c s Hc Hs IH]; simpl; [done|]. rewrite (proj2 (Z.eqb_neq _ _)) by done. by rewrite IH. Qed.

Lemma send_handshake_spec ih pi :
  pwp_send_handshake ih pi = Ok (handshake_bytes PROTOCOL_NAME (replicate 8 0) (strncpy_bytes ih 20) (strncpy_bytes pi 20)).
Proof.
  unfold pwp_send_handshake. cbn zeta. rewrite fresh_filled.
  rewrite write_ubyte_filled by (simpl; lia). cbn [mbind res_bind].
  unfold bitstream_write_string. rewrite put_bytes_filled by (simpl; lia). cbn [mbind res_bind].
  rewrite put_bytes_filled by (simpl; lia). cbn [mbind res_bind].
  rewrite put_bytes_filled by (rewrite !length_app, !strncpy_length; simpl; lia). cbn [mbind res_bind].
  rewrite put_bytes_filled by (rewrite !length_app, !strncpy_length; simpl; lia). cbn [mbind res_bind].
  change (Z.to_nat 20) with 20%nat.
  rewrite <- (sent_filled 1024).
  - assert (Z.of_nat (List.length (handshake_bytes PROTOCOL_NAME (replicate 8 0) (strncpy_bytes ih 20) (strncpy_bytes pi 20))) = 68) as ->.
    { unfold handshake_bytes. cbn [List.length]. by rewrite !length_app, !strncpy_length. }
    reflexivity.
  - unfold handshake_bytes. cbn [List.length]. rewrite !length_app, !strncpy_length. simpl. lia.
Qed.

(** Any name of 20 bytes is let in. *)
Lemma own_handshake ih own pi chunks :
  List.length ih = 20%nat -> List.length pi = 20%nat -> pwp_send_handshake ih pi = Ok (concat chunks) ->
  exists me, shake (pwp_handshaker_new ih own) chunks = Ok (me, [], 1) /\
    peerid (hs me) = strncpy_bytes pi 20 /\ my_pi me = own.
Proof.
  intros Hih Hpi Hs. rewrite send_handshake_spec in Hs. injection Hs as Hs. rewrite <- (app_nil_r (handshake_bytes _ _ _ _)) in Hs.
  destruct (handshake_accepts_iff ih own PROTOCOL_NAME (replicate 8 0) (strncpy_bytes ih 20) (strncpy_bytes pi 20) [] chunks)
    as [[rd Hrd] _]; rewrite ?strncpy_length; try done; [|by eexists].
  split; [done|]. apply strncmp_copy. lia.
Qed.

(** C35: two different peers of the same torrent shake hands.  The bytes
    [pwp_send_handshake] sends, cut into buffers in any way, are accepted by a handshaker
    that expects the same hash and has another name of its own, leave nothing over, and give
    it the sender's name up to its first zero byte, all of it where the name has none.
    (A peer with the handshaker's own name is to be dropped; see [handshake_own_name].) *)
Theorem handshake_roundtrip (ih own pi : list Z) (chunks : list (list Z)) :
  List.length ih = 20%nat -> List.length pi = 20%nat -> strncpy_bytes pi 20 <> strncpy_bytes own 20 ->
  pwp_send_handshake ih pi = Ok (concat chunks) ->
  exists me, shake (pwp_handshaker_new ih own) chunks = Ok (me, [], 1) /\
    peerid (hs me) = strncpy_bytes pi 20 /\ (Forall (fun c => c <> 0) pi -> peerid (hs me) = pi).
Proof.
  intros Hih Hpi _ Hs. destruct (own_handshake ih own pi chunks Hih Hpi Hs) as (me & E & Hid & _). exists me.
  split; [exact E|]. split; [exact Hid|].
  intros Hnz. rewrite Hid, <- Hpi. by apply strncpy_whole.
Qed.

(** the handshaker's own name is let in: a peer that sends back the name the handshaker
    was made with is accepted like any other. *)
Theorem handshake_own_name (ih own : list Z) (chunks : list (list Z)) :
  List.length ih = 20%nat -> List.length own = 20%nat -> pwp_send_handshake ih own = Ok (concat chunks) ->
  exists me, shake (pwp_handshaker_new ih own) chunks = Ok (me, [], 1) /\ peerid (hs me) = strncpy_bytes (my_pi me) 20.
Proof.
  intros Hih Hown Hs. destruct (own_handshake ih own own chunks Hih Hown Hs) as (me & E & Hid & Hmy). exists me.
  split; [exact E|]. by rewrite Hid, Hmy.
Qed.

(** A peer that only says "B". *)
Lemma handshake_accepts_iff_witness :
  let ih := replicate 20 5 in
  let own := replicate 20 3 in
  let chunks := [[1]; [66]; replicate 8 0; replicate 20 5; replicate 19 9; [9; 1; 2]] in
  exists rd, shake (pwp_handshaker_new ih own) chunks =
     Ok (mk_handshaker (mk_handshake 1 [66] (replicate 8 0) (replicate 20 5) (replicate 20 9)) rd at_peerid ih own, [1; 2], 1).
Proof. by apply (handshake_accepts_iff (replicate 20 5) (replicate 20 3) [66] (replicate 8 0) (replicate 20 5) (replicate 20 9) [1; 2]). Defined.

Lemma handshake_roundtrip_witness :
  let bytes := handshake_bytes PROTOCOL_NAME (replicate 8 0) (replicate 20 5) (replicate 20 9) in
  exists me, shake (pwp_handshaker_new (replicate 20 5) (replicate 20 3)) (map (fun b => [b]) bytes) = Ok (me, [], 1) /\
    peerid (hs me) = strncpy_bytes (replicate 20 9) 20 /\ (Forall (fun c => c <> 0) (replicate 20 9) -> peerid (hs me) = replicate 20 9).
Proof. apply handshake_roundtrip; by vm_compute. Defined.

Lemma handshake_own_name_witness :
  let bytes := handshake_bytes PROTOCOL_NAME (replicate 8 0) (replicate 20 5) (replicate 20 9) in
  exists me, shake (pwp_handshaker_new (replicate 20 5) (replicate 20 9)) [bytes] = Ok (me, [], 1) /\
    peerid (hs me) = strncpy_bytes (my_pi me) 20.
Proof. apply handshake_own_name; by vm_compute. Defined.
End PwpHandshake.
