(* ===== verification/PwpSession.v ===== *)
(** * Two connections

    A block that one connection asks for is served by the other one, and its arrival is
    undefined: the senders, the wire, the message handlers and the two connections together
    (src/PUTs/01pwp). *)

From S2P Require Import Prelude Bitfield Chunkybar PwpStream PwpHandler PwpChunks PwpConn PwpWire PwpPending PwpState.

Module PwpSession.
Import PwpConn PwpPending.

Section session.
Context (send_result : list event -> Z) (block_bytes : bt_block_t -> list Z) (poll_offers : list event -> list bt_block_t).
Context (order : requests -> list request_t) (address : bt_block_t -> Z).
Context (custom : Z -> PwpHandler.pwp_msghandler_private_t -> list Z -> res PwpHandler.outcome).

(** A packet goes through the message handler to the connection. *)
Definition deliver (bytes : list Z) (me : pwp_conn_private_t) : res pwp_conn_private_t :=
  '(_, calls, _) ← PwpHandler.pwp_msghandler_dispatch_from_buffer custom PwpHandler.pwp_msghandler_new bytes;
  handle_all send_result order address calls me.

Lemma deliver_wire c me :
  PwpWire.sendable c -> Z.of_nat (List.length (PwpWire.wire c)) < 2 ^ 31 ->
  deliver (PwpWire.wire c) me = handle send_result order address c me.
Proof.
  intros Hc Hl. unfold deliver. pose proof (PwpWire.dispatch_wires custom [c]) as E. cbn [fmap list_fmap concat] in E.
  rewrite app_nil_r in E. rewrite E by (by repeat constructor). cbn [mbind res_bind handle_all]. by destruct (handle _ _ _ c me).
Qed.

Context (Hsend : forall t, send_result t <> 0).
Context (Horder : forall m, order m ≡ₚ (map_to_list m).*2).
Context (Hbytes : forall b, 0 <= len b -> Z.of_nat (List.length (block_bytes b)) = len b).

Lemma sent_ok bs me : PwpWire.sent send_result bs me = tell (Send bs) me.
Proof. unfold PwpWire.sent. cbn zeta. by rewrite (proj2 (Z.eqb_neq _ _)) by apply Hsend. Qed.

(** A block of a piece, in the range of the numbers of a message. *)
Record block_of (me : pwp_conn_private_t) (blk : bt_block_t) : Prop := {
  block_piece : 0 <= piece_idx blk < int_max;
  block_offset : 0 <= offset blk;
  block_len : 0 < len blk;
  block_fits : offset blk + len blk <= piece_len me;
  block_max : piece_len me < int_max - 13
}.

Lemma block_small me blk : block_of me blk -> small blk /\ PwpWire.u32_block blk.
Proof. intros []. unfold small, PwpWire.u32_block, PwpStream.is_u32, int_max in *. lia. Qed.

(** The one who asks. *)
Lemma ask_spec me blk :
  block_of me blk -> cb_send (cb me) = true -> cb_write_block_to_stream (cb me) = true -> Z.of_nat (size (recv_reqs me)) < 16000 ->
  pwp_conn_request_block_from_peer send_result me blk =
    Ok (set_recv_reqs (<[blk := mk_request (tick me) blk]> (recv_reqs me))
          (tell (Send (PwpWire.wire (PwpHandler.pwp_conn_request blk))) me)).
Proof.
  intros Hb Hs Hw Hsz. destruct (block_small _ _ Hb) as [Hsm Hu]. destruct Hb as [H1 H2 H3 H4 H5].
  unfold pwp_conn_request_block_from_peer. cbn zeta.
  assert (req_fit blk (wrap_u32 (piece_len me)) = blk) as ->.
  { unfold req_fit. cbn zeta. rewrite !wrap_u32_id by (unfold int_max in *; lia). by rewrite (proj2 (Z.ltb_ge _ _)) by lia. }
  pose proof (PwpWire.send_one_spec send_result block_bytes (PwpWire.out_request blk) me Hs Hw Hu) as E. cbn [PwpWire.send_one] in E.
  rewrite E, sent_ok. cbn [mbind res_bind]. rewrite put_ok by (simpl; lia). done.
Qed.

(** The one who serves. *)
Record seeds (me : pwp_conn_private_t) (blk : bt_block_t) : Prop := {
  seeds_cbs : cb_send (cb me) = true /\ cb_write_block_to_stream (cb me) = true;
  seeds_unchoked : pwp_conn_im_choking me = false /\ pwp_conn_flag_is_set me PC_UNCONTACTABLE_PEER = false;
  seeds_idle : pwp_conn_im_interested me = true /\ pwp_conn_im_choked me = true;
  seeds_queues : peer_reqs me = [] /\ recv_reqs me = ∅ /\ in_int (tick me + 1);
  seeds_piece : exists c, pieces_completed me = Some c /\ Chunkybar.chunky_have c (piece_idx blk) 1 = 1;
  seeds_range : piece_idx blk <= num_pieces me <= int_max;
  seeds_new : Chunkybar.chunky_have (pieces_peerhas me) (piece_idx blk) 1 = 0
}.

Lemma seed_queues me blk :
  block_of me blk -> seeds me blk -> pwp_conn_request me blk = Ok (set_peer_reqs [blk] me, 1).
Proof.
  intros [H1 H2 H3 H4 H5] [_ [Hc _] _ [Hq _] (c & Ec & Eh) Hr Hn]. unfold int_max in *. unfold pwp_conn_request. rewrite Hc.
  rewrite (wrap_u32_id (num_pieces me)) by lia. rewrite (proj2 (Z.ltb_ge _ _)) by lia.
  unfold have_completed. rewrite Ec. cbn [mbind res_bind]. rewrite Eh. cbn [Z.eqb].
  unfold pwp_conn_peer_has_piece. rewrite wrap_int_id by (unfold in_int, int_min, int_max; lia).
  rewrite wrap_u32_id by lia. rewrite Hn. cbn [Z.eqb negb]. rewrite (proj2 (Z.eqb_neq _ _)) by lia.
  rewrite !wrap_u32_id by lia. rewrite (proj2 (Z.ltb_ge _ _)) by lia. cbn [orb].
  rewrite Hq. by rewrite decide_False by (apply not_elem_of_nil).
Qed.

Lemma seed_serves me blk :
  block_of me blk -> seeds me blk ->
  exists me', pwp_conn_periodic send_result block_bytes poll_offers order (set_peer_reqs [blk] me) = Ok me' /\
    told me' = told me ++ [Send (PwpWire.wire (PwpHandler.pwp_conn_piece blk (block_bytes blk)))].
Proof.
  intros Hb [[Hs Hw] [Hc Hu] [Hi Hch] (_ & Hr & Ht) _ _ _]. destruct (block_small _ _ Hb) as [Hsm Hu32].
  destruct Hb as [H1 H2 H3 H4 H5]. unfold pwp_conn_periodic. cbn [tick set_peer_reqs]. rewrite chk_ok by done. cbn [mbind res_bind].
  unfold expunge_my_old_pending_reqs. cbn [recv_reqs set_tick set_peer_reqs]. rewrite Hr.
  assert (order ∅ = []) as -> by (apply Permutation_nil; rewrite Horder; by rewrite map_to_list_empty).
  cbn [old_requests expunge_old_loop mbind res_bind].
  set (me1 := set_tick (tick me + 1) (set_peer_reqs [blk] me)).
  change (pwp_conn_flag_is_set me1 PC_UNCONTACTABLE_PEER) with (pwp_conn_flag_is_set me PC_UNCONTACTABLE_PEER). rewrite Hu.
  cbn [peer_reqs me1 set_tick set_peer_reqs]. 
  pose proof (PwpWire.send_one_spec send_result block_bytes (PwpWire.out_piece blk) (set_peer_reqs [] me1)) as E.
  cbn [PwpWire.send_one PwpWire.meant] in E. rewrite E by first [done | split_and!; [done|by rewrite Hbytes by lia|lia|unfold int_max in *; lia]].
  rewrite sent_ok. cbn [mbind res_bind]. set (me2 := tell _ _).
  change (pwp_conn_im_choking me2) with (pwp_conn_im_choking me). rewrite Hc, andb_false_r.
  change (pwp_conn_im_interested me2) with (pwp_conn_im_interested me). rewrite Hi.
  change (pwp_conn_im_choked me2) with (pwp_conn_im_choked me). rewrite Hch. by eexists.
Qed.

(** The bytes that are pending once a block was asked for. *)
Lemma pending_put m blk t p k : pending (<[blk := mk_request t blk]> m) p k <-> pending m p k \/ in_block blk p k.
Proof. unfold pending. rewrite dom_insert_L. set_solver. Qed.

(** The packet of a block, at the message handler. *)
Lemma piece_arrives blk :
  PwpWire.u32_block blk -> 0 < len blk < 2 ^ 31 - 13 ->
  PwpHandler.pwp_msghandler_dispatch_from_buffer custom PwpHandler.pwp_msghandler_new
    (PwpWire.wire (PwpHandler.pwp_conn_piece blk (block_bytes blk))) =
  Ok (PwpHandler.pwp_msghandler_new, [PwpHandler.pwp_conn_piece blk (block_bytes blk)], 1).
Proof.
  intros Hu Hl. pose proof (PwpWire.dispatch_wires custom [PwpHandler.pwp_conn_piece blk (block_bytes blk)]) as E.
  cbn [fmap list_fmap concat] in E. rewrite app_nil_r in E. pose proof (Hbytes blk ltac:(lia)). apply E.
  - constructor; [|constructor]. cbn [PwpWire.sendable]. split; [exact Hu|]. split; [done|lia].
  - cbn [PwpWire.wire]. rewrite !length_app, !PwpWire.be_length. cbn [List.length]. lia.
Qed.

(** A block that arrives: the lookup of the connection reads behind its key. *)
Lemma piece_undefined me blk data :
  cb_pushblock (cb me) = true -> pwp_conn_piece order address me blk data = Undef.
Proof. intros Hp. unfold pwp_conn_piece, conn_remove_pending_request. rewrite Hp. reflexivity. Qed.

End session.

(** A leecher that waits for another block, and a seeder of pieces 0 to 3. *)
Definition leecher : pwp_conn_private_t := pwp_conn_set_piece_info 8 64 waiting.

Definition seeder : pwp_conn_private_t :=
  lower_flag PC_IM_CHOKING (raise_flag PC_IM_INTERESTED
    (pwp_conn_set_progress (Chunkybar.chunky_mark_complete (Chunkybar.chunky_new 8) 0 4)
      (pwp_conn_set_piece_info 8 64 (pwp_conn_set_cbs (mk_cbs true true true true true true true true) pwp_conn_new)))).

Definition sevens (b : bt_block_t) : list Z := replicate (Z.to_nat (len b)) 7.

Lemma sevens_length b : 0 <= len b -> Z.of_nat (List.length (sevens b)) = len b.
Proof. intros Hb. unfold sevens. rewrite length_replicate. lia. Qed.

End PwpSession.
